(* ===== verification/_CoqProject ===== *)
-Q . S2P
Prelude.v
Word.v
Math.v
FindBit.v
Bitmap.v
BitmapAlloc.v
BitmapMap.v
Kfifo.v
KfifoRec.v
KfifoUser.v
KfifoConc.v
Order.v
Sort.v
PrioHeap.v
Crc.v
Crc32.v
Str.v
StrSpec.v
StrCopy.v
Vsprintf.v
VsprintfNum.v
VsprintfParse.v
VsprintfFmt.v
VsprintfOut.v
BitmapText.v
BitmapPrint.v
BitmapHex.v
BitmapList.v
Groups.v
GroupsSpec.v
PosixAcl.v
PosixAclSpec.v
Task.v
Semaphore.v
SemaphoreSpec.v
Rwsem.v
RwsemSpec.v
Rbtree.v
RbtreeRep.v
RbtreeInsert.v
RbtreeErase.v
RbtreeWalk.v
RbtreeAugment.v
RbtreeSpec.v
Sched.v
SchedTime.v
SchedTree.v
SchedInv.v
SchedOps.v
SchedPick.v
SchedSpec.v
SchedFrame.v
SchedRt.v
SchedRtQueue.v
SchedRtSpec.v
SchedCore.v
SchedCoreInv.v
SchedCoreOps.v
SchedCoreChange.v
SchedCoreSpec.v
