(* ===== verification/Prelude.v ===== *)
(** * A verified core library of the Linux kernel for i.MX

    The program is Linux 2.6.35.3 for the Freescale i.MX processors (src/kernel_imx).  This library
    models the self-contained core that the rest of the kernel is built on: the operations on machine
    words and bitmaps, integer arithmetic, the ring buffer, sorting and heaps, checksums, strings,
    number parsing and formatted output, the text formats of bitmaps, group lists, access control
    lists, the sleeping semaphores, the red-black trees and, on top of them, the scheduler: its fair
    class, its real-time class, and the core that calls them.  The target is 32-bit little-endian ARM: an [unsigned long] has 32 bits, [char] is
    unsigned, [mode_t] has 16 bits, rw-semaphores are those of lib/rwsem-spinlock.c, and the
    scheduler is that of one processor without groups or statistics (imx5_defconfig).

    ** How the code is modelled

    - An integer is a [Z] with the reduction to its width written where the C code stores or computes
      at that width ([u8], [u16], [u32], [u64], [s32]); bit operations are those of [Z].
    - An array is a list; [rd] and [wr] answer [None] outside it, so a theorem that says an operation
      is [Some] also says that it stays inside its arrays.  Strings live in one flat byte memory, so
      that overlapping operands overlap.
    - A linked structure is a finite map from addresses to nodes, 0 being NULL; a program over it is a
      state monad that fails on an access to no node, so a theorem that says it returns also says that
      it follows no wild pointer.
    - A loop is [loop fuel step] or [for_range]/[foreach]; the theorems show that the fuel given in a
      definition is enough (the rule [loop_rule] asks for a decreasing measure below the fuel), so each
      of them is also a termination theorem.  The fuels are the length of the array or memory the loop
      walks, the bits of a word (Euclid's algorithm halves the product of its numbers), the sum of
      field widths in vsnprintf, or the number of nodes of the heap plus 2 for a walk over a tree.
    - Error returns are the negative integers of the source.  Memory allocation and faults of user
      memory are arguments of the definitions (an oracle per call), and the theorems hold for all of
      them.  Comparison and swap callbacks are arguments with the laws of the classes in [Order].
    - Concurrent code is a labelled step relation whose steps are the critical sections of the source,
      with the accesses outside them as steps of their own; theorems hold for all runs.

    ** Files and the sources they model

    - [Prelude]: machine integers, arrays, loops with their proof rules, the hint database [kernel],
      the tactics [zbool], [dcase], [loop_with].
    - [Word]: lib/hweight.c, lib/bitrev.c, the generic __ffs, ffz, __fls, fls and byte swap.
    - [Math]: lib/gcd.c, lib/lcm.c, lib/int_sqrt.c, lib/rational.c, lib/div64.c, lib/reciprocal_div.c and
      their headers.
    - [FindBit]: single-bit operations, lib/find_next_bit.c, lib/find_last_bit.c.
    - [Bitmap] (definitions; predicates, word-wise operations, shifts), [BitmapAlloc] (ranges, zero
      areas, power-of-two regions), [BitmapMap] (positions and ordinals, remap, onto, fold):
      lib/bitmap.c.
    - [Kfifo], [KfifoRec], [KfifoUser], [KfifoConc]: kernel/kfifo.c and include/linux/kfifo.h: the
      ring as a byte queue, its records, its copies from and to user space, and its lock-free use.
    - [Order]: what sorting asks of a comparison, heaps on arrays; [Sort]: lib/sort.c; [PrioHeap]:
      lib/prio_heap.c.
    - [Crc]: lib/crc7.c, crc16.c, crc-ccitt.c, crc-itu-t.c, crc-t10dif.c; [Crc32]: lib/crc32.c with the
      table generator lib/gen_crc32table.c.
    - [Str]: lib/string.c and lib/ctype.c; [StrSpec]: searches and comparisons; [StrCopy]: copies and
      splitting.
    - [Vsprintf]: lib/vsprintf.c; [VsprintfNum]: digits; [VsprintfParse]: the parsers; [VsprintfFmt]:
      number and padding; [VsprintfOut]: vsnprintf as a whole.
    - [BitmapText]: the printing and parsing functions of lib/bitmap.c, over [Bitmap], [Vsprintf] and
      [Str]; [BitmapPrint]: what is printed; [BitmapHex], [BitmapList]: what is accepted, and the
      round trips.
    - [Groups]: kernel/groups.c; [GroupsSpec]: its correctness, the sort and the search proved against
      the interface [ArrayLaws] that the table of blocks implements.
    - [PosixAcl]: fs/posix_acl.c, which asks [Groups] for memberships; [PosixAclSpec]: its
      correctness.
    - [Task]: what the sleeping locks need of tasks (include/linux/sched.h, schedule_timeout of
      kernel/timer.c) and runs of step relations.
    - [Semaphore], [SemaphoreSpec]: kernel/semaphore.c.
    - [Rwsem], [RwsemSpec]: lib/rwsem-spinlock.c.
    - [Rbtree]: lib/rbtree.c and include/linux/rbtree.h; [RbtreeRep]: when a heap holds a tree, and the
      rules for programs over it; [RbtreeInsert], [RbtreeErase], [RbtreeWalk], [RbtreeAugment]: the
      operations, loop by loop; [RbtreeSpec]: their correctness.
    - [Sched]: the fair class of kernel/sched_fair.c with the weights of kernel/sched.c, whose timeline
      is a tree of [Rbtree]; [SchedTime]: times that wrap and the arithmetic of weights; [SchedTree]:
      the timeline; [SchedInv]: the invariant of the run queue; [SchedOps], [SchedPick]: that every
      operation keeps it; [SchedSpec]: the correctness of the class; [SchedFrame]: what its operations
      leave alone of the tasks.
    - [SchedRt]: the real-time class of kernel/sched_rt.c with its bandwidth limit, over the processor
      [cpu], which has the run queue of [Sched] as a part; [SchedRtQueue]: the priority array as a list
      of tasks per priority; [SchedRtSpec]: the array as one queue, and the bandwidth.
    - [SchedCore]: the core of kernel/sched.c and the idle class, which call the two classes through
      the class of a task; [SchedCoreInv]: its invariant, kept by whatever enters, leaves or is picked
      from the queues; [SchedCoreOps]: schedule, the wake-ups, the tick, yield and the period timer;
      [SchedCoreChange]: changes of nice value, priority and policy, fork, and the class of the idle
      task; [SchedCoreSpec]: the correctness of the scheduler as a whole.

    ** What the theorems show

    - Containers refine their abstractions: the fifo a bounded byte queue, over any sequence of
      operations and any wrap-around of its indices, and a queue of records; its one-reader,
      one-writer use without a lock is linear for every interleaving.
    - Synchronisation: a counting semaphore neither loses nor invents units, loses no wake-up, leaves no
      trace of a caller that failed, and serves a waiter within as many releases as there are waiters
      up to it; a reader/writer semaphore excludes writers from everybody, never leaves a waiter behind
      a free semaphore, and balances its task references.
    - Access control: a valid ACL is one of the POSIX shape, the permission check is the algorithm of
      POSIX 1003.1e as long as the group ids that it looks up are less than 2^31 apart from those of
      the caller, and modes and ACLs stay in step through chmod and creation, which change exactly the
      entries that they name; setgroups installs a sorted permutation, searched exactly for ids less
      than 2^31 apart.
    - Trees: rb_insert_color, rb_erase and rb_replace_node keep the colours, the black heights and the
      parent pointers, and insert, remove or replace exactly one node in the order of the others; the
      height is at most twice the logarithm of the size, and the walks visit the nodes in order.
    - Scheduling: in every state the operations of the class can reach, the timeline is a red-black tree
      of the runnable tasks but the current one in the order of their virtual times, with the counts,
      loads and pointers beside it in step; the task that is picked is the last buddy, the next buddy or
      one of the least virtual time, a buddy only within the wake-up granularity of that one;
      min_vruntime never goes back and follows the least time; the scaling of times by weights is
      accurate to a bound.
    - The scheduler as a whole: from the return of sched_init on, where the idle task still pretends to
      be a fair task, over every run of schedule, the wake-ups, the tick, yield, fork,
      init_idle_bootup_task, the period timer and the changes of nice value, priority and policy, each operation that
      its callers may make succeeds, and the counters, the bitmap, the lists of the real-time class and
      the tree of the fair class hold exactly the runnable tasks of their class; schedule runs a
      real-time task of the highest priority, first come first served, unless they are throttled, else
      a fair task, else the idle task, and its shortcut for fair tasks never changes the choice; the
      array of 100 lists with its bitmap refines one list in the order of the priorities; real-time
      tasks are throttled exactly when they have used up their runtime, and every throttling ends;
      sched_setscheduler changes nothing when it fails, and fails exactly when its rules say so.
    - Sorting, searching, allocating: sort permutes and sorts for every total preorder; the searches
      return the first position with their property; the region allocator takes the lowest free
      aligned region and releases what it took.
    - Arithmetic: the 64-bit divisions by shift and subtract are the exact ones, gcd and the square root
      are those of [Z].
    - Equivalence with a reference: each table-driven CRC with bit-at-a-time division (crc7 for seeds of
      7 bits, beyond which it leaves its table), population
      counts with counting, bit reversal with reversal, bitmap operations with their meaning per bit.
    - Bounds and round trips: vsnprintf and the string copies write only inside their buffers and
      terminate them; printed integers are read back, and so are printed bitmaps, whose two parsers
      accept exactly their formats; ordinals and positions are inverse.
    - Where the code does not do what its comments say, a theorem states what it does: the peek
      functions and the record copy from user space of the fifo, the flag of __bitmap_and, strncasecmp
      with a limit of 0, groups_search across 2^31, vscnprintf with a size of 0, div64_u64 by a divisor
      of more than 32 bits, lcm beyond a word, rational approximations with denominator 0, shifts of a
      bitmap by more words than it has, a region whose end is beyond 2^31, records longer than their
      header can say, crc7 with a seed of 128 or more,
      bitmap_scnprintf with a size of 0, bit numbers beyond 2^32 in bitmap_parselist, sched_fork with
      the flag that should reset a real-time child, update_curr_rt on a task with an inherited priority.

    ** Not modelled

    The 2- and 4-bit configurations of lib/crc32.c, which do not compile; in lib/vsprintf.c the symbol,
    resource and compressed IPv6 pointer formats, vsscanf and the binary printf.  Of the scheduler:
    the switch of stack and address space, the load averages, rt_mutex_adjust_pi (the walk along the
    locks that a task waits for), the system calls around the modelled functions, load balancing
    between processors, groups, statistics and the high-resolution tick (not in the configuration).  The
    invariant of the scheduler is for at most 48000 tasks, whose weights cannot overflow the sum; the
    callers' part of its contract is [permitted] in [SchedCoreSpec].  Of the kernel around this core:
    interrupts and timers (beyond what [Task] and the period timer take from them), memory management,
    the file systems, networking, the block layer, drivers and platform code, whose behaviour is
    hardware I/O or needs the address space and RCU; the radix trees and the plist and list sorts of
    lib/ are the next candidates.
    Spinlocks are atomicity of the critical sections, and memory barriers the
    sequential order of the steps. *)

From stdpp Require Export base numbers list option.
From Stdlib Require Import Lia.

Open Scope Z_scope.

Ltac Zify.zify_post_hook ::= Z.to_euclidean_division_equations.

(** * Machine integers *)

Definition BITS_PER_LONG : Z := 32.

(** [u32 x]: the value of [x] stored in an [unsigned int] or, on this 32-bit target, an
    [unsigned long]. *)
Definition u32 (x : Z) : Z := x mod 4294967296.

Definition u64 (x : Z) : Z := x mod 18446744073709551616.

Definition u16 (x : Z) : Z := x mod 65536.

Definition u8 (x : Z) : Z := x mod 256.

(** [s32 x]: the value of [x] converted to a 32-bit two's complement [int]. *)
Definition s32 (x : Z) : Z := (x + 2147483648) mod 4294967296 - 2147483648.

Definition s64 (x : Z) : Z := (x + 9223372036854775808) mod 18446744073709551616 - 9223372036854775808.

Definition is_u32 (x : Z) : Prop := 0 <= x < 4294967296.

Definition is_byte (x : Z) : Prop := 0 <= x < 256.

(** [~x], [x << n] on an unsigned long. *)
Definition ul_not (x : Z) : Z := 4294967295 - x.

Definition ul_shl (x n : Z) : Z := u32 (Z.shiftl x n).

(** * Error codes, as the negative integers the functions return *)

Definition EINTR : Z := 4.
Definition ENOMEM : Z := 12.
Definition EFAULT : Z := 14.
Definition EBUSY : Z := 16.
Definition EINVAL : Z := 22.
Definition ERANGE : Z := 34.
Definition ETIME : Z := 62.
Definition EOVERFLOW : Z := 75.

(** * Arrays

    A C array is a list; an access outside it is [None]. *)

Definition rd {A} (a : list A) (i : Z) : option A :=
  if bool_decide (0 <= i) then a !! Z.to_nat i else None.

Definition wr {A} (a : list A) (i : Z) (x : A) : option (list A) :=
  if bool_decide (0 <= i < Z.of_nat (length a)) then Some (<[Z.to_nat i := x]> a) else None.

(** [memcpy(dst + d, src + s, n)] between two objects. *)
Definition memcpy {A} (dst : list A) (d : Z) (src : list A) (s n : Z) : option (list A) :=
  if bool_decide (0 <= n /\ 0 <= d /\ d + n <= Z.of_nat (length dst) /\
                  0 <= s /\ s + n <= Z.of_nat (length src))
  then Some (take (Z.to_nat d) dst ++ take (Z.to_nat n) (drop (Z.to_nat s) src)
             ++ drop (Z.to_nat (d + n)) dst)
  else None.

(** * Loops

    [loop fuel step s] iterates [step], which either continues with a new state or leaves
    the loop with a result.  [None] is an access outside an array, a BUG() or exhausted fuel. *)

Inductive ctl (S R : Type) : Type :=
| Next (s : S)
| Ret (r : R).
Arguments Next {S R} s.
Arguments Ret {S R} r.

Fixpoint loop {S R} (fuel : nat) (step : S -> option (ctl S R)) (s : S) : option R :=
  match fuel with
  | O => None
  | Datatypes.S fuel' =>
      match step s with
      | Some (Next s') => loop fuel' step s'
      | Some (Ret r) => Some r
      | None => None
      end
  end.

(** [for_up n k body s]: [for (; n iterations; k++) s = body k s], leaving early on [Ret]. *)
Fixpoint for_up {S R} (n : nat) (k : Z) (body : Z -> S -> option (ctl S R)) (s : S)
  : option (ctl S R) :=
  match n with
  | O => Some (Next s)
  | Datatypes.S n' =>
      match body k s with
      | Some (Next s') => for_up n' (k + 1) body s'
      | r => r
      end
  end.

Definition for_range {S R} (lo hi : Z) (body : Z -> S -> option (ctl S R)) (s : S)
  : option (ctl S R) :=
  for_up (Z.to_nat (hi - lo)) lo body s.

(** A for loop that always runs to its end. *)
Fixpoint foreach_up {S} (n : nat) (k : Z) (body : Z -> S -> option S) (s : S) : option S :=
  match n with
  | O => Some s
  | Datatypes.S n' =>
      match body k s with
      | Some s' => foreach_up n' (k + 1) body s'
      | None => None
      end
  end.

Definition foreach {S} (lo hi : Z) (body : Z -> S -> option S) (s : S) : option S :=
  foreach_up (Z.to_nat (hi - lo)) lo body s.

(** * Lemmas on words *)

Create HintDb kernel.

Lemma u32_small x : is_u32 x -> u32 x = x.
Proof. unfold is_u32, u32. intros. apply Z.mod_small. lia. Qed.

Lemma s32_small x : -2147483648 <= x < 2147483648 -> s32 x = x.
Proof. unfold s32. lia. Qed.

Lemma u32_is_u32 x : is_u32 (u32 x).
Proof. unfold is_u32, u32. pose proof (Z.mod_pos_bound x 4294967296). lia. Qed.

Lemma u8_is_byte x : is_byte (u8 x).
Proof. unfold is_byte, u8. pose proof (Z.mod_pos_bound x 256). lia. Qed.

Lemma u8_small x : is_byte x -> u8 x = x.
Proof. unfold is_byte, u8. intros. apply Z.mod_small. lia. Qed.

Lemma is_u32_shiftr x n : is_u32 x -> 0 <= n -> is_u32 (Z.shiftr x n).
Proof.
  unfold is_u32. intros H Hn. rewrite Z.shiftr_div_pow2 by lia.
  split; [apply Z.div_pos; lia|].
  apply Z.div_lt_upper_bound; [lia|]. nia.
Qed.

Lemma is_u32_bits x i : is_u32 x -> 32 <= i -> Z.testbit x i = false.
Proof.
  intros [H1 H2] Hi. destruct (decide (x = 0)) as [->|]; [apply Z.bits_0|].
  apply Z.bits_above_log2; [lia|].
  apply Z.lt_le_trans with 32; [|lia]. apply Z.log2_lt_pow2; lia.
Qed.

Lemma is_u32_of_bits x :
  0 <= x -> (forall i, 32 <= i -> Z.testbit x i = false) -> is_u32 x.
Proof.
  intros H0 H. split; [lia|].
  destruct (decide (x = 0)) as [->|]; [lia|].
  change 4294967296 with (2 ^ 32). apply Z.log2_lt_pow2; [lia|].
  destruct (Z_lt_ge_dec (Z.log2 x) 32); [lia|].
  exfalso. specialize (H (Z.log2 x) ltac:(lia)).
  rewrite Z.bit_log2 in H by lia. congruence.
Qed.

Lemma is_u32_land x y : is_u32 x -> is_u32 y -> is_u32 (Z.land x y).
Proof.
  intros Hx Hy. apply is_u32_of_bits.
  - apply Z.land_nonneg. left. apply Hx.
  - intros i Hi. rewrite Z.land_spec, is_u32_bits; auto.
Qed.

Lemma is_u32_lor x y : is_u32 x -> is_u32 y -> is_u32 (Z.lor x y).
Proof.
  intros Hx Hy. apply is_u32_of_bits.
  - apply Z.lor_nonneg. split; [apply Hx|apply Hy].
  - intros i Hi. rewrite Z.lor_spec, !is_u32_bits; auto.
Qed.

Lemma is_u32_lxor x y : is_u32 x -> is_u32 y -> is_u32 (Z.lxor x y).
Proof.
  intros Hx Hy. apply is_u32_of_bits.
  - apply Z.lxor_nonneg. split; intros; [apply Hy|apply Hx].
  - intros i Hi. rewrite Z.lxor_spec, !is_u32_bits; auto.
Qed.

Lemma is_u32_not x : is_u32 x -> is_u32 (ul_not x).
Proof. unfold is_u32, ul_not. lia. Qed.

Lemma is_u32_shl x n : is_u32 (ul_shl x n).
Proof. apply u32_is_u32. Qed.

#[export] Hint Resolve u32_is_u32 u8_is_byte is_u32_land is_u32_lor is_u32_lxor is_u32_not
  is_u32_shl is_u32_shiftr : kernel.

Lemma u32_spec x i : 0 <= i -> Z.testbit (u32 x) i = bool_decide (i < 32) && Z.testbit x i.
Proof.
  intros. unfold u32. change 4294967296 with (2 ^ 32). case_bool_decide.
  - rewrite Z.mod_pow2_bits_low by lia. done.
  - rewrite Z.mod_pow2_bits_high by lia. done.
Qed.

Lemma ul_shl_spec x n i :
  0 <= i -> Z.testbit (ul_shl x n) i = bool_decide (i < 32) && Z.testbit x (i - n).
Proof. intros. unfold ul_shl. rewrite u32_spec, Z.shiftl_spec; auto. Qed.

Lemma ul_not_spec x i :
  is_u32 x -> 0 <= i -> Z.testbit (ul_not x) i = bool_decide (i < 32) && negb (Z.testbit x i).
Proof.
  intros Hx Hi.
  assert (ul_not x = u32 (Z.lnot x)) as ->.
  { unfold ul_not, u32, is_u32, Z.lnot in *. lia. }
  rewrite u32_spec by lia. rewrite Z.lnot_spec by lia. done.
Qed.

(** Two unsigned longs with the same 32 bits are equal. *)
Lemma u32_bits_inj x y :
  is_u32 x -> is_u32 y -> (forall i, 0 <= i < 32 -> Z.testbit x i = Z.testbit y i) -> x = y.
Proof.
  intros Hx Hy H. apply Z.bits_inj'. intros i Hi.
  destruct (Z_lt_ge_dec i 32); [apply H; lia|].
  rewrite !is_u32_bits; auto; lia.
Qed.

Lemma u32_zero_bits x :
  is_u32 x -> (x = 0 <-> forall i, 0 <= i < 32 -> Z.testbit x i = false).
Proof.
  intros Hx. split.
  - intros -> i _. apply Z.bits_0.
  - intros H. apply u32_bits_inj; [done|unfold is_u32; lia|].
    intros. rewrite Z.bits_0. auto.
Qed.

Lemma testbit_nonzero x i : Z.testbit x i = true -> x <> 0.
Proof. intros H ->. rewrite Z.bits_0 in H. congruence. Qed.

(** * Lemmas on arrays *)

Lemma rd_Some {A} (a : list A) i : 0 <= i < Z.of_nat (length a) -> is_Some (rd a i).
Proof.
  intros. unfold rd. rewrite bool_decide_eq_true_2 by lia.
  apply lookup_lt_is_Some_2. lia.
Qed.

Lemma rd_total `{Inhabited A} (a : list A) i :
  0 <= i < Z.of_nat (length a) -> rd a i = Some (a !!! Z.to_nat i).
Proof.
  intros Hi. unfold rd. rewrite bool_decide_eq_true_2 by lia.
  apply list_lookup_lookup_total_lt. lia.
Qed.

Lemma rd_inv {A} (a : list A) i x :
  rd a i = Some x -> 0 <= i < Z.of_nat (length a) /\ a !! Z.to_nat i = Some x.
Proof.
  unfold rd. case_bool_decide; [|done]. intros Hx. split; [|done].
  apply lookup_lt_Some in Hx. lia.
Qed.

Lemma wr_Some {A} (a : list A) i x :
  0 <= i < Z.of_nat (length a) -> wr a i x = Some (<[Z.to_nat i := x]> a).
Proof. intros. unfold wr. by rewrite bool_decide_eq_true_2 by lia. Qed.

Lemma wr_inv {A} (a a' : list A) i x :
  wr a i x = Some a' -> 0 <= i < Z.of_nat (length a) /\ a' = <[Z.to_nat i := x]> a.
Proof. unfold wr. case_bool_decide; [|done]. intros. by simplify_eq. Qed.

Lemma rd_insert {A} (a : list A) i j x :
  0 <= i < Z.of_nat (length a) ->
  rd (<[Z.to_nat i := x]> a) j = if bool_decide (j = i) then Some x else rd a j.
Proof.
  intros Hi. unfold rd. case_bool_decide; case_bool_decide; subst; try done; try lia.
  - apply list_lookup_insert_eq. lia.
  - apply list_lookup_insert_ne. lia.
Qed.

Lemma rd_fmap {A B} (f : A -> B) (a : list A) i : rd (f <$> a) i = f <$> rd a i.
Proof. unfold rd. case_bool_decide; [|done]. apply list_lookup_fmap. Qed.

Lemma rd_Forall {A} (P : A -> Prop) (a : list A) i x : Forall P a -> rd a i = Some x -> P x.
Proof. intros HP [_ Hx]%rd_inv. by eapply Forall_lookup_1. Qed.

Lemma Forall_insert_total {A} (P : A -> Prop) (a : list A) i x :
  Forall P a -> P x -> Forall P (<[i := x]> a).
Proof. intros. by apply Forall_insert. Qed.

Lemma Forall_total `{Inhabited A} (P : A -> Prop) (a : list A) i :
  Forall P a -> 0 <= i < Z.of_nat (length a) -> P (a !!! Z.to_nat i).
Proof. intros. apply Forall_lookup_total_1; [done|lia]. Qed.

Lemma memcpy_Some {A} (dst : list A) d src s n :
  0 <= n -> 0 <= d -> d + n <= Z.of_nat (length dst) -> 0 <= s ->
  s + n <= Z.of_nat (length src) ->
  exists dst', memcpy dst d src s n = Some dst' /\ length dst' = length dst /\
    (forall P, Forall P dst -> Forall P src -> Forall P dst') /\
    forall j, rd dst' j = if bool_decide (d <= j < d + n) then rd src (s + (j - d)) else rd dst j.
Proof.
  intros Hn Hd Hdn Hs Hsn. unfold memcpy. rewrite bool_decide_eq_true_2 by lia.
  eexists. split; [done|]. split; [|split].
  - rewrite !length_app, !length_take, !length_drop. lia.
  - intros P Hdst Hsrc. rewrite !Forall_app. auto using Forall_take, Forall_drop.
  - intros j. unfold rd. destruct (decide (0 <= j)) as [Hj|Hj].
    2:{ rewrite !(bool_decide_eq_false_2 (0 <= j)) by lia. by rewrite bool_decide_eq_false_2 by lia. }
    rewrite !(bool_decide_eq_true_2 (0 <= j)) by lia. case_bool_decide as Hr.
    + rewrite bool_decide_eq_true_2 by lia.
      rewrite lookup_app_r by (rewrite length_take; lia).
      rewrite lookup_app_l by (rewrite !length_take, length_drop; lia).
      rewrite lookup_take_lt by (rewrite length_take; lia). rewrite lookup_drop, length_take.
      f_equal. lia.
    + destruct (decide (j < d)).
      * rewrite lookup_app_l by (rewrite length_take; lia). apply lookup_take_lt. lia.
      * rewrite lookup_app_r by (rewrite length_take; lia).
        rewrite lookup_app_r by (rewrite !length_take, length_drop; lia).
        rewrite lookup_drop, !length_take, length_drop. f_equal. lia.
Qed.

(** Two arrays of the same length with equal cells. *)
Lemma rd_ext {A} (a b : list A) :
  length a = length b -> (forall i, 0 <= i < Z.of_nat (length a) -> rd a i = rd b i) -> a = b.
Proof.
  intros Hlen H. apply list_eq_same_length with (n := length a); [done|done|].
  intros i x y Hi Hx Hy. specialize (H (Z.of_nat i) ltac:(lia)). unfold rd in H.
  rewrite !bool_decide_eq_true_2, Nat2Z.id in H by lia. congruence.
Qed.

(** Exhaustive check of a boolean predicate over [0, n). *)
Fixpoint all_below (n : nat) (P : Z -> bool) : bool :=
  match n with
  | O => true
  | Datatypes.S n' => P (Z.of_nat n') && all_below n' P
  end.

Lemma all_below_spec n P :
  all_below n P = true -> forall x, 0 <= x < Z.of_nat n -> P x = true.
Proof.
  induction n as [|n IH]; simpl; intros H x Hx; [lia|].
  apply andb_true_iff in H as [H1 H2].
  destruct (decide (x = Z.of_nat n)) as [->|]; [done|]. apply IH; [done|lia].
Qed.

(** * Loop rules *)

(** Total correctness of [loop]: an invariant, a decreasing measure and enough fuel. *)
Lemma loop_rule {S R} (Inv : S -> Prop) (m : S -> nat) (Post : R -> Prop)
    (step : S -> option (ctl S R)) fuel s :
  (forall s, Inv s ->
     match step s with
     | Some (Next s') => Inv s' /\ (m s' < m s)%nat
     | Some (Ret r) => Post r
     | None => False
     end) ->
  Inv s -> (m s < fuel)%nat -> exists r, loop fuel step s = Some r /\ Post r.
Proof.
  intros Hstep. revert s. induction fuel as [|fuel IH]; intros s Hs Hm; [lia|].
  simpl. specialize (Hstep s Hs). destruct (step s) as [[s'|r]|]; [|eauto|done].
  destruct Hstep. apply IH; [done|lia].
Qed.

(** What holds of a result, whatever the fuel. *)
Lemma loop_partial {S R} (Inv : S -> Prop) (Post : R -> Prop) (step : S -> option (ctl S R)) fuel s r :
  (forall s c, Inv s -> step s = Some c -> match c with Next s' => Inv s' | Ret r => Post r end) ->
  Inv s -> loop fuel step s = Some r -> Post r.
Proof.
  intros Hstep. revert s. induction fuel as [|fuel IH]; intros s Hs Hr; [done|]. simpl in Hr.
  destruct (step s) as [c|] eqn:E; [|done]. specialize (Hstep s c Hs E).
  destruct c as [s'|r']; [by apply (IH s')|by simplify_eq].
Qed.

Lemma loop_unfold {S R} (step : S -> option (ctl S R)) fuel s :
  loop (Datatypes.S fuel) step s =
  match step s with
  | Some (Next s') => loop fuel step s'
  | Some (Ret r) => Some r
  | None => None
  end.
Proof. done. Qed.

(** More fuel does not change a result. *)
Lemma loop_more {S R} fuel fuel' (step : S -> option (ctl S R)) s r :
  (fuel <= fuel')%nat -> loop fuel step s = Some r -> loop fuel' step s = Some r.
Proof.
  revert fuel' s. induction fuel as [|fuel IH]; intros fuel' s Hle Hr; [done|].
  destruct fuel' as [|fuel']; [lia|]. rewrite loop_unfold in *.
  destruct (step s) as [[s'|]|]; [|done|done]. apply IH; [lia|done].
Qed.

(** Two loops that take the same steps on the states an invariant allows. *)
Lemma loop_ext {S R} (Inv : S -> Prop) (f g : S -> option (ctl S R)) fuel s :
  (forall s, Inv s -> f s = g s /\ (forall s', g s = Some (Next s') -> Inv s')) ->
  Inv s -> loop fuel f s = loop fuel g s.
Proof.
  intros H. revert s. induction fuel as [|fuel IH]; intros s Hs; [done|]. simpl.
  destruct (H s Hs) as [-> Hn]. destruct (g s) as [[s'|]|]; auto.
Qed.

Lemma for_up_rule {S R} (Inv : Z -> S -> Prop) (Post : R -> Prop)
    (body : Z -> S -> option (ctl S R)) n k s :
  (forall i s, k <= i < k + Z.of_nat n -> Inv i s ->
     match body i s with
     | Some (Next s') => Inv (i + 1) s'
     | Some (Ret r) => Post r
     | None => False
     end) ->
  Inv k s ->
  match for_up n k body s with
  | Some (Next s') => Inv (k + Z.of_nat n) s'
  | Some (Ret r) => Post r
  | None => False
  end.
Proof.
  revert k s. induction n as [|n IH]; intros k s Hb Hs; simpl.
  - by rewrite Z.add_0_r.
  - pose proof (Hb k s ltac:(lia) Hs) as H.
    destruct (body k s) as [[s'|r]|]; [|done|done].
    replace (k + Z.of_nat (Datatypes.S n)) with (k + 1 + Z.of_nat n) by lia.
    apply IH; [|done]. intros i s0 Hi. apply Hb. lia.
Qed.

Lemma for_range_rule {S R} (Inv : Z -> S -> Prop) (Post : R -> Prop)
    (body : Z -> S -> option (ctl S R)) lo hi s :
  lo <= hi ->
  (forall i s, lo <= i < hi -> Inv i s ->
     match body i s with
     | Some (Next s') => Inv (i + 1) s'
     | Some (Ret r) => Post r
     | None => False
     end) ->
  Inv lo s ->
  match for_range lo hi body s with
  | Some (Next s') => Inv hi s'
  | Some (Ret r) => Post r
  | None => False
  end.
Proof.
  intros Hle Hb Hs. unfold for_range.
  pose proof (for_up_rule Inv Post body (Z.to_nat (hi - lo)) lo s) as H.
  rewrite Z2Nat.id in H by lia. replace (lo + (hi - lo)) with hi in H by lia.
  apply H; [|done]. intros. apply Hb; [lia|done].
Qed.

Lemma foreach_rule {S} (Inv : Z -> S -> Prop) (body : Z -> S -> option S) lo hi s :
  lo <= hi ->
  (forall i s, lo <= i < hi -> Inv i s -> exists s', body i s = Some s' /\ Inv (i + 1) s') ->
  Inv lo s -> exists s', foreach lo hi body s = Some s' /\ Inv hi s'.
Proof.
  intros Hle. unfold foreach. remember (Z.to_nat (hi - lo)) as n eqn:Hn.
  revert lo s Hle Hn. induction n as [|n IH]; intros lo s Hle Hn Hb Hs; simpl.
  - assert (lo = hi) as <- by lia. eauto.
  - destruct (Hb lo s ltac:(lia) Hs) as (s' & -> & Hs').
    apply IH; [lia|lia|intros; apply Hb; [lia|done]|done].
Qed.

Lemma foreach_ext {S} (f g : Z -> S -> option S) lo hi s :
  (forall k s, lo <= k < hi -> f k s = g k s) -> foreach lo hi f s = foreach lo hi g s.
Proof.
  unfold foreach. remember (Z.to_nat (hi - lo)) as n eqn:Hn. revert lo s Hn.
  induction n as [|n IH]; intros lo s Hn H; simpl; [done|].
  rewrite H by lia. destruct (g lo s); [|done]. apply IH; [lia|]. intros. apply H. lia.
Qed.

Lemma foreach_up_S {S} n k (body : Z -> S -> option S) s :
  foreach_up (Datatypes.S n) k body s =
  match body k s with Some s' => foreach_up n (k + 1) body s' | None => None end.
Proof. done. Qed.

#[global] Arguments loop : simpl never.
#[global] Arguments for_up : simpl never.
#[global] Arguments foreach_up : simpl never.

(** * Automation *)

(** Split a bounded integer quantifier over [n, n+1) from one over [n]. *)
Lemma range_snoc (P : Z -> Prop) lo n :
  (forall i, lo <= i < n -> P i) -> P n -> forall i, lo <= i < n + 1 -> P i.
Proof. intros H Hn i Hi. destruct (decide (i = n)) as [->|]; [done|]. apply H. lia. Qed.

(** Case analysis on the boolean comparisons of the code. *)
Ltac zbool :=
  repeat match goal with
  | H : (_ =? _) = true |- _ => apply Z.eqb_eq in H
  | H : (_ =? _) = false |- _ => apply Z.eqb_neq in H
  | H : (_ <? _) = true |- _ => apply Z.ltb_lt in H
  | H : (_ <? _) = false |- _ => apply Z.ltb_ge in H
  | H : (_ <=? _) = true |- _ => apply Z.leb_le in H
  | H : (_ <=? _) = false |- _ => apply Z.leb_gt in H
  | H : negb _ = true |- _ => apply negb_true_iff in H
  | H : negb _ = false |- _ => apply negb_false_iff in H
  | H : (_ && _)%bool = true |- _ => apply andb_true_iff in H; destruct H
  | H : (_ || _)%bool = false |- _ => apply orb_false_iff in H; destruct H
  end.

Ltac dcase :=
  match goal with
  | |- context [if ?b then _ else _] =>
      lazymatch type of b with bool => destruct b eqn:?; zbool end
  end.

(** Apply [loop_rule] to the loop of the goal. *)
Tactic Notation "loop_with" uconstr(Inv) uconstr(m) uconstr(Post) "as" simple_intropattern(pat) :=
  lazymatch goal with
  | |- context [loop ?fuel ?step ?s] =>
      destruct (loop_rule Inv m Post step fuel s) as pat
  end.

(** Ranges of concrete words, bytes and arrays of them. *)
Ltac solve_words :=
  cbn; repeat first [apply Forall_nil_2 | apply Forall_cons_2]; unfold is_u32, is_byte; lia.
