(* ===== verification/Word.v ===== *)
(** Operations on one machine word: lib/hweight.c, lib/bitrev.c, and the generic bit
    searches of include/asm-generic/bitops (__ffs, ffz, __fls, fls) and byte swap of
    include/linux/swab.h that the bitmap code calls. *)

From S2P Require Import Prelude.
From Stdlib Require Import Lia Btauto.

(** * Definitions *)

Definition ULONG_MAX : Z := 4294967295.

(** lib/hweight.c: population counts. *)
Definition __sw_hweight32 (w : Z) : Z :=
  let res := u32 (w - Z.land (Z.shiftr w 1) 0x55555555) in
  let res := u32 (Z.land res 0x33333333 + Z.land (Z.shiftr res 2) 0x33333333) in
  let res := Z.land (u32 (res + Z.shiftr res 4)) 0x0F0F0F0F in
  let res := u32 (res + Z.shiftr res 8) in
  Z.land (u32 (res + Z.shiftr res 16)) 0x000000FF.

(** The ARCH_HAS_FAST_MULTIPLIER variant of the same function. *)
Definition __sw_hweight32_mul (w : Z) : Z :=
  let w := u32 (w - Z.land (Z.shiftr w 1) 0x55555555) in
  let w := u32 (Z.land w 0x33333333 + Z.land (Z.shiftr w 2) 0x33333333) in
  let w := Z.land (u32 (w + Z.shiftr w 4)) 0x0f0f0f0f in
  Z.shiftr (u32 (w * 0x01010101)) 24.

Definition __sw_hweight16 (w : Z) : Z :=
  let res := u32 (w - Z.land (Z.shiftr w 1) 0x5555) in
  let res := u32 (Z.land res 0x3333 + Z.land (Z.shiftr res 2) 0x3333) in
  let res := Z.land (u32 (res + Z.shiftr res 4)) 0x0F0F in
  Z.land (u32 (res + Z.shiftr res 8)) 0x00FF.

Definition __sw_hweight8 (w : Z) : Z :=
  let res := u32 (w - Z.land (Z.shiftr w 1) 0x55) in
  let res := u32 (Z.land res 0x33 + Z.land (Z.shiftr res 2) 0x33) in
  Z.land (u32 (res + Z.shiftr res 4)) 0x0F.

(** BITS_PER_LONG == 32. *)
Definition __sw_hweight64 (w : Z) : Z :=
  u32 (__sw_hweight32 (u32 (Z.shiftr w 32)) + __sw_hweight32 (u32 w)).

Definition hweight_long (w : Z) : Z := __sw_hweight32 w.

(** include/asm-generic/bitops/__ffs.h *)
Definition __ffs (word : Z) : Z :=
  let num := 0 in
  let '(num, word) :=
    if Z.land word 0xffff =? 0 then (num + 16, Z.shiftr word 16) else (num, word) in
  let '(num, word) :=
    if Z.land word 0xff =? 0 then (num + 8, Z.shiftr word 8) else (num, word) in
  let '(num, word) :=
    if Z.land word 0xf =? 0 then (num + 4, Z.shiftr word 4) else (num, word) in
  let '(num, word) :=
    if Z.land word 0x3 =? 0 then (num + 2, Z.shiftr word 2) else (num, word) in
  if Z.land word 0x1 =? 0 then num + 1 else num.

Definition ffz (x : Z) : Z := __ffs (ul_not x).

(** include/asm-generic/bitops/__fls.h *)
Definition __fls (word : Z) : Z :=
  let num := BITS_PER_LONG - 1 in
  let '(num, word) :=
    if Z.land word (ul_shl ULONG_MAX (BITS_PER_LONG - 16)) =? 0
    then (num - 16, ul_shl word 16) else (num, word) in
  let '(num, word) :=
    if Z.land word (ul_shl ULONG_MAX (BITS_PER_LONG - 8)) =? 0
    then (num - 8, ul_shl word 8) else (num, word) in
  let '(num, word) :=
    if Z.land word (ul_shl ULONG_MAX (BITS_PER_LONG - 4)) =? 0
    then (num - 4, ul_shl word 4) else (num, word) in
  let '(num, word) :=
    if Z.land word (ul_shl ULONG_MAX (BITS_PER_LONG - 2)) =? 0
    then (num - 2, ul_shl word 2) else (num, word) in
  if Z.land word (ul_shl ULONG_MAX (BITS_PER_LONG - 1)) =? 0 then num - 1 else num.

(** include/asm-generic/bitops/fls.h *)
Definition fls (x : Z) : Z :=
  let r := 32 in
  if x =? 0 then 0
  else
    let '(x, r) := if Z.land x 0xffff0000 =? 0 then (ul_shl x 16, r - 16) else (x, r) in
    let '(x, r) := if Z.land x 0xff000000 =? 0 then (ul_shl x 8, r - 8) else (x, r) in
    let '(x, r) := if Z.land x 0xf0000000 =? 0 then (ul_shl x 4, r - 4) else (x, r) in
    let '(x, r) := if Z.land x 0xc0000000 =? 0 then (ul_shl x 2, r - 2) else (x, r) in
    let '(x, r) := if Z.land x 0x80000000 =? 0 then (ul_shl x 1, r - 1) else (x, r) in
    r.

(** include/linux/swab.h: ___constant_swab32 *)
Definition __swab32 (x : Z) : Z :=
  Z.lor (Z.lor (Z.lor (ul_shl (Z.land x 0x000000ff) 24)
                      (ul_shl (Z.land x 0x0000ff00) 8))
               (Z.shiftr (Z.land x 0x00ff0000) 8))
        (Z.shiftr (Z.land x 0xff000000) 24).

(** lib/bitrev.c *)
Definition byte_rev_table : list Z := [
  0x00; 0x80; 0x40; 0xc0; 0x20; 0xa0; 0x60; 0xe0;
  0x10; 0x90; 0x50; 0xd0; 0x30; 0xb0; 0x70; 0xf0;
  0x08; 0x88; 0x48; 0xc8; 0x28; 0xa8; 0x68; 0xe8;
  0x18; 0x98; 0x58; 0xd8; 0x38; 0xb8; 0x78; 0xf8;
  0x04; 0x84; 0x44; 0xc4; 0x24; 0xa4; 0x64; 0xe4;
  0x14; 0x94; 0x54; 0xd4; 0x34; 0xb4; 0x74; 0xf4;
  0x0c; 0x8c; 0x4c; 0xcc; 0x2c; 0xac; 0x6c; 0xec;
  0x1c; 0x9c; 0x5c; 0xdc; 0x3c; 0xbc; 0x7c; 0xfc;
  0x02; 0x82; 0x42; 0xc2; 0x22; 0xa2; 0x62; 0xe2;
  0x12; 0x92; 0x52; 0xd2; 0x32; 0xb2; 0x72; 0xf2;
  0x0a; 0x8a; 0x4a; 0xca; 0x2a; 0xaa; 0x6a; 0xea;
  0x1a; 0x9a; 0x5a; 0xda; 0x3a; 0xba; 0x7a; 0xfa;
  0x06; 0x86; 0x46; 0xc6; 0x26; 0xa6; 0x66; 0xe6;
  0x16; 0x96; 0x56; 0xd6; 0x36; 0xb6; 0x76; 0xf6;
  0x0e; 0x8e; 0x4e; 0xce; 0x2e; 0xae; 0x6e; 0xee;
  0x1e; 0x9e; 0x5e; 0xde; 0x3e; 0xbe; 0x7e; 0xfe;
  0x01; 0x81; 0x41; 0xc1; 0x21; 0xa1; 0x61; 0xe1;
  0x11; 0x91; 0x51; 0xd1; 0x31; 0xb1; 0x71; 0xf1;
  0x09; 0x89; 0x49; 0xc9; 0x29; 0xa9; 0x69; 0xe9;
  0x19; 0x99; 0x59; 0xd9; 0x39; 0xb9; 0x79; 0xf9;
  0x05; 0x85; 0x45; 0xc5; 0x25; 0xa5; 0x65; 0xe5;
  0x15; 0x95; 0x55; 0xd5; 0x35; 0xb5; 0x75; 0xf5;
  0x0d; 0x8d; 0x4d; 0xcd; 0x2d; 0xad; 0x6d; 0xed;
  0x1d; 0x9d; 0x5d; 0xdd; 0x3d; 0xbd; 0x7d; 0xfd;
  0x03; 0x83; 0x43; 0xc3; 0x23; 0xa3; 0x63; 0xe3;
  0x13; 0x93; 0x53; 0xd3; 0x33; 0xb3; 0x73; 0xf3;
  0x0b; 0x8b; 0x4b; 0xcb; 0x2b; 0xab; 0x6b; 0xeb;
  0x1b; 0x9b; 0x5b; 0xdb; 0x3b; 0xbb; 0x7b; 0xfb;
  0x07; 0x87; 0x47; 0xc7; 0x27; 0xa7; 0x67; 0xe7;
  0x17; 0x97; 0x57; 0xd7; 0x37; 0xb7; 0x77; 0xf7;
  0x0f; 0x8f; 0x4f; 0xcf; 0x2f; 0xaf; 0x6f; 0xef;
  0x1f; 0x9f; 0x5f; 0xdf; 0x3f; 0xbf; 0x7f; 0xff ].

Definition bitrev8 (byte : Z) : Z := byte_rev_table !!! Z.to_nat byte.

Definition bitrev16 (x : Z) : Z :=
  u16 (Z.lor (Z.shiftl (bitrev8 (Z.land x 0xff)) 8) (bitrev8 (u8 (Z.shiftr x 8)))).

Definition bitrev32 (x : Z) : Z :=
  u32 (Z.lor (Z.shiftl (bitrev16 (Z.land x 0xffff)) 16) (bitrev16 (u16 (Z.shiftr x 16)))).

(** * Specifications *)

(** The number of set bits among the [n] lowest bits of [w]. *)
Fixpoint popcount (n : nat) (w : Z) : Z :=
  match n with
  | O => 0
  | S n' => popcount n' w + (if Z.testbit w (Z.of_nat n') then 1 else 0)
  end.

(** * Concatenation of a byte and a word *)

Lemma testbit_concat k a b i :
  0 <= k -> 0 <= a < 2 ^ k -> 0 <= i ->
  Z.testbit (a + 2 ^ k * b) i = if i <? k then Z.testbit a i else Z.testbit b (i - k).
Proof.
  intros Hk Ha Hi. assert (0 < 2 ^ k) by (apply Z.pow_pos_nonneg; lia). dcase.
  - rewrite <- (Z.mod_pow2_bits_low (a + 2 ^ k * b) k i) by lia.
    rewrite Z.mul_comm, Z.mod_add by lia. by rewrite Z.mod_small by lia.
  - replace i with (i - k + k) at 1 by lia. rewrite <- Z.div_pow2_bits by lia.
    rewrite Z.mul_comm, Z.div_add by lia. by rewrite Z.div_small, Z.add_0_l by lia.
Qed.

Lemma testbit_byte_concat a b i :
  is_byte a -> 0 <= i ->
  Z.testbit (a + 256 * b) i = if i <? 8 then Z.testbit a i else Z.testbit b (i - 8).
Proof. intros Ha Hi. apply (testbit_concat 8); [lia|exact Ha|lia]. Qed.

Lemma byte_land_l a m : is_byte a -> is_byte (Z.land a m).
Proof.
  intros [? ?]. split; [apply Z.land_nonneg; lia|].
  change 256 with (2 ^ 8) in *.
  destruct (decide (Z.land a m = 0)); [lia|].
  assert (0 <= Z.land a m) by (apply Z.land_nonneg; lia).
  apply Z.log2_lt_pow2; [lia|].
  destruct (decide (a = 0)) as [->|]; [rewrite Z.land_0_l in *; lia|].
  assert (Z.log2 a < 8) by (apply Z.log2_lt_pow2; lia).
  destruct (Z_lt_ge_dec (Z.log2 (Z.land a m)) 8); [done|].
  assert (Z.testbit (Z.land a m) (Z.log2 (Z.land a m)) = true) as Hb
    by (apply Z.bit_log2; lia).
  rewrite Z.land_spec, Z.bits_above_log2 in Hb by lia. done.
Qed.

Lemma land_byte_concat a b m n :
  is_byte a -> is_byte m ->
  Z.land (a + 256 * b) (m + 256 * n) = Z.land a m + 256 * Z.land b n.
Proof.
  intros Ha Hm. apply Z.bits_inj'. intros i Hi.
  rewrite Z.land_spec, !testbit_byte_concat by auto using byte_land_l.
  dcase; by rewrite Z.land_spec.
Qed.

(** * Population count *)

Lemma popcount_bound n w : 0 <= popcount n w <= Z.of_nat n.
Proof. induction n as [|n IH]; cbn [popcount]; [lia|]. destruct (Z.testbit _ _); lia. Qed.

Lemma popcount_ext n w v :
  (forall i, 0 <= i < Z.of_nat n -> Z.testbit w i = Z.testbit v i) ->
  popcount n w = popcount n v.
Proof.
  induction n as [|n IH]; intros H; cbn [popcount]; [done|].
  rewrite IH by (intros; apply H; lia). rewrite H by lia. done.
Qed.

Lemma popcount_app (k n : nat) a b :
  0 <= a < 2 ^ Z.of_nat k ->
  popcount (k + n) (a + 2 ^ Z.of_nat k * b) = popcount k a + popcount n b.
Proof.
  intros Ha. induction n as [|n IH].
  - rewrite Nat.add_0_r. cbn [popcount]. rewrite Z.add_0_r. apply popcount_ext. intros i Hi.
    rewrite testbit_concat by lia. by rewrite (proj2 (Z.ltb_lt _ _)) by lia.
  - replace (k + S n)%nat with (S (k + n)) by lia. cbn [popcount].
    rewrite IH, testbit_concat by lia. rewrite (proj2 (Z.ltb_ge _ _)) by lia.
    replace (Z.of_nat (k + n) - Z.of_nat k) with (Z.of_nat n) by lia. lia.
Qed.

Lemma popcount_concat n a b :
  is_byte a -> popcount (8 + n) (a + 256 * b) = popcount 8 a + popcount n b.
Proof. apply (popcount_app 8). Qed.

(** The three mask-and-add stages, with the mask as an argument. *)
Definition swar1 (m w : Z) : Z := w - Z.land (Z.shiftr w 1) m.

Definition swar2 (m w : Z) : Z := Z.land w m + Z.land (Z.shiftr w 2) m.

Definition swar3 (m w : Z) : Z := Z.land (w + Z.shiftr w 4) m.

Definition swar (m1 m2 m3 w : Z) : Z := swar3 m3 (swar2 m2 (swar1 m1 w)).

(** The per-byte facts, by exhaustion. *)
Lemma swar_byte x :
  is_byte x ->
  0 <= swar1 0x55 x < 256 /\
  (let y := swar2 0x33 (swar1 0x55 x) in 0 <= y <= 68 /\ y mod 16 <= 4) /\
  swar 0x55 0x33 0x0F x = popcount 8 x.
Proof.
  intros Hx.
  assert (all_below 256 (fun x => let s := swar1 0x55 x in let y := swar2 0x33 s in
    (0 <=? s) && (s <? 256) && (0 <=? y) && (y <=? 68) && (y mod 16 <=? 4) &&
    (swar 0x55 0x33 0x0F x =? popcount 8 x)) = true) as H by (vm_compute; done).
  pose proof (all_below_spec _ _ H x Hx) as Hp. cbv beta zeta in Hp |- *. zbool.
  repeat split; done.
Qed.

Lemma land_shift_mask k m x c :
  (k = 1 /\ m = 0x55) \/ (k = 2 /\ m = 0x33) ->
  is_byte x -> 0 <= c < 2 ^ k ->
  Z.land ((x + 256 * c) / 2 ^ k) m = Z.land (x / 2 ^ k) m.
Proof.
  intros Hkm Hx Hc. unfold is_byte in Hx.
  assert (all_below 512 (fun y => Z.land (y / 2) 0x55 =? Z.land (y mod 256 / 2) 0x55) &&
          all_below 1024 (fun y => Z.land (y / 4) 0x33 =? Z.land (y mod 256 / 4) 0x33)
          = true) as [H1 H2]%andb_true_iff by (vm_compute; done).
  destruct Hkm as [[-> ->]|[-> ->]]; cbn in Hc.
  - pose proof (all_below_spec _ _ H1 (x + 256 * c) ltac:(clear H1 H2; lia)) as Hp.
    clear H1 H2. apply Z.eqb_eq in Hp.
    change (2 ^ 1) with 2. rewrite Hp. f_equal. lia.
  - pose proof (all_below_spec _ _ H2 (x + 256 * c) ltac:(clear H1 H2; lia)) as Hp.
    clear H1 H2. apply Z.eqb_eq in Hp.
    change (2 ^ 2) with 4. rewrite Hp. f_equal. lia.
Qed.

Lemma land_shift_concat k m n a b :
  (k = 1 /\ m = 0x55) \/ (k = 2 /\ m = 0x33) ->
  is_byte a -> 0 <= b ->
  Z.land (Z.shiftr (a + 256 * b) k) (m + 256 * n) =
  Z.land (Z.shiftr a k) m + 256 * Z.land (Z.shiftr b k) n.
Proof.
  intros Hkm Ha Hb. unfold is_byte in Ha.
  assert (0 <= k /\ 0 <= m < 256) by lia.
  rewrite !Z.shiftr_div_pow2 by lia.
  assert ((a + 256 * b) / 2 ^ k =
          (a + 256 * (b mod 2 ^ k)) / 2 ^ k + 256 * (b / 2 ^ k)) as ->.
  { rewrite (Z.div_mod b (2 ^ k)) at 1 by lia.
    replace (a + 256 * (2 ^ k * (b / 2 ^ k) + b mod 2 ^ k))
      with (a + 256 * (b mod 2 ^ k) + (256 * (b / 2 ^ k)) * 2 ^ k) by lia.
    by rewrite Z.div_add by lia. }
  pose proof (Z.mod_pos_bound b (2 ^ k) ltac:(lia)).
  rewrite land_byte_concat, land_shift_mask; [done|done|done|done| |unfold is_byte; lia].
  destruct Hkm as [[-> ->]|[-> ->]]; unfold is_byte; cbn in *; lia.
Qed.

Lemma swar1_concat m a b :
  is_byte a -> 0 <= b -> swar1 (0x55 + 256 * m) (a + 256 * b) = swar1 0x55 a + 256 * swar1 m b.
Proof. intros. unfold swar1. rewrite land_shift_concat by auto. lia. Qed.

Lemma swar2_concat m a b :
  is_byte a -> 0 <= b -> swar2 (0x33 + 256 * m) (a + 256 * b) = swar2 0x33 a + 256 * swar2 m b.
Proof.
  intros Ha Hb. unfold swar2. rewrite land_shift_concat by auto.
  rewrite land_byte_concat by (done || unfold is_byte; lia). lia.
Qed.

Lemma swar3_concat m a b :
  0 <= a <= 68 -> b mod 16 <= 4 -> 0 <= b ->
  swar3 (0x0F + 256 * m) (a + 256 * b) = swar3 0x0F a + 256 * swar3 m b.
Proof.
  intros Ha Hb Hb0. unfold swar3. rewrite !Z.shiftr_div_pow2 by lia. change (2 ^ 4) with 16.
  replace (a + 256 * b + (a + 256 * b) / 16)
    with ((a + a / 16 + 16 * (b mod 16)) + 256 * (b + b / 16)) by lia.
  rewrite land_byte_concat by (unfold is_byte; lia).
  change 15 with (Z.ones 4). rewrite !Z.land_ones by lia. change (2 ^ 4) with 16. lia.
Qed.

(** One byte of a word goes through the three stages independently of the rest. *)
Lemma swar_concat m1 m2 m3 a b :
  is_byte a -> 0 <= b -> 0 <= swar1 m1 b ->
  0 <= swar2 m2 (swar1 m1 b) -> swar2 m2 (swar1 m1 b) mod 16 <= 4 ->
  swar1 (0x55 + 256 * m1) (a + 256 * b) = swar1 0x55 a + 256 * swar1 m1 b /\
  swar2 (0x33 + 256 * m2) (swar1 (0x55 + 256 * m1) (a + 256 * b)) =
    swar2 0x33 (swar1 0x55 a) + 256 * swar2 m2 (swar1 m1 b) /\
  swar (0x55 + 256 * m1) (0x33 + 256 * m2) (0x0F + 256 * m3) (a + 256 * b) =
    popcount 8 a + 256 * swar m1 m2 m3 b.
Proof.
  intros Ha Hb H1 H2 H3. destruct (swar_byte a Ha) as (Hs1 & [Hs2 _] & Hs3).
  unfold swar in *. rewrite swar1_concat by done.
  rewrite swar2_concat by (done || unfold is_byte; lia).
  rewrite swar3_concat by done. rewrite Hs3. done.
Qed.

Lemma popcount8_bound x : 0 <= popcount 8 x <= 8.
Proof. apply (popcount_bound 8). Qed.

(** The three stages compute the four byte counts side by side. *)
Lemma swar_word b0 b1 b2 b3 :
  is_byte b0 -> is_byte b1 -> is_byte b2 -> is_byte b3 ->
  let w := b0 + 256 * (b1 + 256 * (b2 + 256 * b3)) in
  0 <= swar1 0x55555555 w < 4294967296 /\
  0 <= swar2 0x33333333 (swar1 0x55555555 w) < 2000000000 /\
  swar 0x55555555 0x33333333 0x0F0F0F0F w =
    popcount 8 b0 + 256 * (popcount 8 b1 + 256 * (popcount 8 b2 + 256 * popcount 8 b3)).
Proof.
  intros H0 H1 H2 H3 w.
  destruct (swar_byte b0 H0) as (? & [? ?] & ?), (swar_byte b1 H1) as (? & [? ?] & ?),
    (swar_byte b2 H2) as (? & [? ?] & ?), (swar_byte b3 H3) as (? & [? ?] & E3).
  pose proof H2 as [? _]. pose proof H1 as [? _]. pose proof H3 as [? _].
  destruct (swar_concat 0x55 0x33 0x0F b2 b3) as (A1 & A2 & A3); [done|lia..|].
  change (0x55 + 256 * 0x55) with 0x5555 in *. change (0x33 + 256 * 0x33) with 0x3333 in *.
  change (0x0F + 256 * 0x0F) with 0x0F0F in *.
  destruct (swar_concat 0x5555 0x3333 0x0F0F b1 (b2 + 256 * b3)) as (B1 & B2 & B3);
    [done|lia|rewrite ?A2, ?A1; lia..|].
  change (0x55 + 256 * 0x5555) with 0x555555 in *.
  change (0x33 + 256 * 0x3333) with 0x333333 in *.
  change (0x0F + 256 * 0x0F0F) with 0x0F0F0F in *.
  destruct (swar_concat 0x555555 0x333333 0x0F0F0F b0 (b1 + 256 * (b2 + 256 * b3)))
    as (C1 & C2 & C3); [done|lia|rewrite ?B2, ?B1, ?A2, ?A1; lia..|].
  change (0x55 + 256 * 0x555555) with 0x55555555 in *.
  change (0x33 + 256 * 0x333333) with 0x33333333 in *.
  change (0x0F + 256 * 0x0F0F0F) with 0x0F0F0F0F in *.
  subst w. rewrite C2, C1, C3, B3, A3, B2, B1, A2, A1, E3. lia.
Qed.

Lemma bytes_of_u32 w :
  is_u32 w -> exists b0 b1 b2 b3,
    is_byte b0 /\ is_byte b1 /\ is_byte b2 /\ is_byte b3 /\
    w = b0 + 256 * (b1 + 256 * (b2 + 256 * b3)).
Proof.
  unfold is_u32, is_byte. intros Hw.
  exists (w mod 256), (w / 256 mod 256), (w / 65536 mod 256), (w / 16777216). lia.
Qed.

Lemma popcount_word b0 b1 b2 b3 :
  is_byte b0 -> is_byte b1 -> is_byte b2 -> is_byte b3 ->
  popcount 32 (b0 + 256 * (b1 + 256 * (b2 + 256 * b3))) =
  popcount 8 b0 + popcount 8 b1 + popcount 8 b2 + popcount 8 b3.
Proof.
  intros. change 32%nat with (8 + (8 + (8 + 8)))%nat. rewrite !popcount_concat by done. lia.
Qed.

Lemma land_255 x : Z.land x 255 = x mod 256.
Proof. change 255 with (Z.ones 8). by rewrite Z.land_ones. Qed.

(** After the mask-and-add stages the word holds the four byte counts. *)
Lemma hweight32_stages w :
  is_u32 w -> exists p0 p1 p2 p3,
    0 <= p0 <= 8 /\ 0 <= p1 <= 8 /\ 0 <= p2 <= 8 /\ 0 <= p3 <= 8 /\
    popcount 32 w = p0 + p1 + p2 + p3 /\
    (let w := u32 (w - Z.land (Z.shiftr w 1) 0x55555555) in
     let w := u32 (Z.land w 0x33333333 + Z.land (Z.shiftr w 2) 0x33333333) in
     Z.land (u32 (w + Z.shiftr w 4)) 0x0f0f0f0f) = p0 + 256 * (p1 + 256 * (p2 + 256 * p3)).
Proof.
  intros (b0 & b1 & b2 & b3 & H0 & H1 & H2 & H3 & ->)%bytes_of_u32.
  exists (popcount 8 b0), (popcount 8 b1), (popcount 8 b2), (popcount 8 b3).
  repeat (split; [apply popcount8_bound || apply popcount_word; done|]).
  destruct (swar_word b0 b1 b2 b3) as (S1 & S2 & S3); [done..|].
  unfold swar, swar3 in S3. set (w := b0 + _) in *.
  fold (swar1 0x55555555 w). rewrite (u32_small (swar1 _ _)) by (unfold is_u32; lia).
  set (s1 := swar1 _ _) in *. cbv zeta. fold (swar2 0x33333333 s1).
  rewrite (u32_small (swar2 _ _)) by (unfold is_u32; lia). set (s2 := swar2 _ _) in *.
  rewrite (u32_small (s2 + Z.shiftr s2 4)); [done|].
  rewrite Z.shiftr_div_pow2 by lia. unfold is_u32. change (2 ^ 4) with 16. lia.
Qed.

Lemma hweight32_popcount w : is_u32 w -> __sw_hweight32 w = popcount 32 w.
Proof.
  intros (p0 & p1 & p2 & p3 & ? & ? & ? & ? & -> & Hw)%hweight32_stages.
  unfold __sw_hweight32. cbv zeta in Hw |- *. rewrite Hw. clear Hw w.
  rewrite !Z.shiftr_div_pow2 by lia. change (2 ^ 8) with 256. change (2 ^ 16) with 65536.
  rewrite land_255. set (x := p0 + 256 * _).
  assert (x / 256 = p1 + 256 * (p2 + 256 * p3)) as -> by lia.
  rewrite (u32_small (x + _)) by (unfold is_u32; lia).
  assert ((x + (p1 + 256 * (p2 + 256 * p3))) / 65536 = p2 + p3 + 256 * p3) as -> by lia.
  rewrite u32_small by (unfold is_u32; lia). lia.
Qed.

Lemma hweight32_mul_popcount w : is_u32 w -> __sw_hweight32_mul w = popcount 32 w.
Proof.
  intros (p0 & p1 & p2 & p3 & ? & ? & ? & ? & -> & Hw)%hweight32_stages.
  unfold __sw_hweight32_mul. cbv zeta in Hw |- *. rewrite Hw. clear Hw w.
  rewrite Z.shiftr_div_pow2 by lia. change (2 ^ 24) with 16777216. unfold u32.
  replace ((p0 + 256 * (p1 + 256 * (p2 + 256 * p3))) * 0x01010101)
    with (p0 + 256 * (p0 + p1) + 65536 * (p0 + p1 + p2) + 16777216 * (p0 + p1 + p2 + p3)
          + (p1 + p2 + p3 + 256 * (p2 + p3) + 65536 * p3) * 4294967296) by lia.
  rewrite Z.mod_add, Z.mod_small by lia. lia.
Qed.

Lemma hweight8_popcount w : is_byte w -> __sw_hweight8 w = popcount 8 w.
Proof.
  intros Hw. assert (all_below 256 (fun w => __sw_hweight8 w =? popcount 8 w) = true) as H
    by (vm_compute; done).
  pose proof (all_below_spec _ _ H w Hw) as Hp. by apply Z.eqb_eq in Hp.
Qed.

Lemma hweight16_popcount w : 0 <= w < 65536 -> __sw_hweight16 w = popcount 16 w.
Proof.
  intros Hw.
  assert (all_below 256 (fun hi => all_below 256 (fun lo =>
            __sw_hweight16 (lo + 256 * hi) =? popcount 16 (lo + 256 * hi))) = true) as H
    by (vm_compute; done).
  pose proof (all_below_spec _ _ H (w / 256) ltac:(clear H; lia)) as H'. clear H.
  pose proof (all_below_spec _ _ H' (w mod 256) ltac:(clear H'; lia)) as Hp. clear H'.
  apply Z.eqb_eq in Hp. by replace (w mod 256 + 256 * (w / 256)) with w in Hp by lia.
Qed.

(** * Masks *)

Lemma ulong_max_spec i : Z.testbit ULONG_MAX i = bool_decide (0 <= i < 32).
Proof.
  change ULONG_MAX with (Z.ones 32).
  destruct (Z_lt_ge_dec i 0); [rewrite Z.testbit_neg_r by lia|]; case_bool_decide; try lia.
  - apply Z.ones_spec_low. lia.
  - apply Z.ones_spec_high. lia.
Qed.

Lemma is_u32_max : is_u32 ULONG_MAX.
Proof. unfold is_u32, ULONG_MAX. lia. Qed.

#[export] Hint Resolve is_u32_max : kernel.

(** [~0UL << n] *)
Lemma mask_ge_spec n i :
  0 <= n -> 0 <= i -> Z.testbit (ul_shl ULONG_MAX n) i = bool_decide (n <= i < 32).
Proof.
  intros. rewrite ul_shl_spec, ulong_max_spec by lia. repeat case_bool_decide; lia || done.
Qed.

(** [~0UL >> (BITS_PER_LONG - n)] *)
Lemma mask_lt_spec n i :
  0 <= n <= 32 -> 0 <= i -> Z.testbit (Z.shiftr ULONG_MAX (32 - n)) i = bool_decide (i < n).
Proof.
  intros. rewrite Z.shiftr_spec, ulong_max_spec by lia. repeat case_bool_decide; lia || done.
Qed.

(** [(1UL << n) - 1] *)
Lemma mask_ones n : 0 <= n < 32 -> ul_shl 1 n - 1 = Z.ones n.
Proof.
  intros. unfold ul_shl. rewrite Z.shiftl_mul_pow2, Z.mul_1_l by lia. rewrite u32_small.
  - rewrite Z.ones_equiv. lia.
  - unfold is_u32. split; [apply Z.pow_nonneg; lia|].
    change 4294967296 with (2 ^ 32). apply Z.pow_lt_mono_r; lia.
Qed.

Lemma mask_ones_spec n i :
  0 <= n < 32 -> 0 <= i -> Z.testbit (ul_shl 1 n - 1) i = bool_decide (i < n).
Proof.
  intros. rewrite mask_ones by lia. case_bool_decide.
  - apply Z.ones_spec_low. lia.
  - apply Z.ones_spec_high. lia.
Qed.

Lemma is_u32_ones n : 0 <= n <= 32 -> is_u32 (Z.ones n).
Proof.
  intros. apply is_u32_of_bits.
  - rewrite Z.ones_equiv. assert (0 < 2 ^ n) by (apply Z.pow_pos_nonneg; lia). lia.
  - intros. apply Z.ones_spec_high. lia.
Qed.

#[export] Hint Resolve is_u32_ones : kernel.

(** * Bit searches *)

(** One halving stage of [__ffs]: the lowest set bit lies in the low half or the high half. *)
Lemma ffs_stage s word :
  0 <= s -> word mod 2 ^ (2 * s) <> 0 ->
  (Z.land word (Z.ones s) = 0 ->
     Z.shiftr word s mod 2 ^ s <> 0 /\
     forall i, 0 <= i < s -> Z.testbit word i = false) /\
  (Z.land word (Z.ones s) <> 0 -> word mod 2 ^ s <> 0).
Proof.
  intros Hs Hw. rewrite Z.land_ones by lia. split; [|done]. intros H0.
  assert (0 < 2 ^ s) by (apply Z.pow_pos_nonneg; lia). split.
  - rewrite Z.shiftr_div_pow2 by lia. intros H1. apply Hw.
    replace (2 * s) with (s + s) by lia. rewrite Z.pow_add_r, Z.rem_mul_r by lia.
    rewrite H0, H1. lia.
  - intros i Hi. rewrite <- (Z.mod_pow2_bits_low word s i) by lia. rewrite H0. apply Z.bits_0.
Qed.

(** [is_first w k]: bit [k] is the lowest set bit of [w]. *)
Definition is_first (w k : Z) : Prop :=
  0 <= k /\ Z.testbit w k = true /\ forall i, 0 <= i < k -> Z.testbit w i = false.

Lemma is_first_shift w s k :
  0 <= s -> (forall i, 0 <= i < s -> Z.testbit w i = false) ->
  is_first (Z.shiftr w s) k -> is_first w (s + k).
Proof.
  intros Hs Hlow (Hk & Hb & Hl). split; [lia|]. split.
  - rewrite Z.shiftr_spec, Z.add_comm in Hb by lia. done.
  - intros i Hi. destruct (Z_lt_ge_dec i s); [apply Hlow; lia|].
    specialize (Hl (i - s) ltac:(lia)). rewrite Z.shiftr_spec in Hl by lia.
    by replace (i - s + s) with i in Hl by lia.
Qed.

Lemma ffs_first w : is_u32 w -> w <> 0 -> is_first w (__ffs w) /\ __ffs w < 32.
Proof.
  intros Hw Hnz. unfold __ffs.
  assert (w mod 2 ^ (2 * 16) <> 0) as H.
  { change (2 ^ (2 * 16)) with 4294967296. rewrite Z.mod_small by apply Hw. done. }
  clear Hw Hnz.
  enough (forall f s n w, 0 <= s ->
    w mod 2 ^ (2 * s) <> 0 ->
    (forall m v, v mod 2 ^ s <> 0 -> exists k, f m v = m + k /\ is_first v k /\ k < s) ->
    exists k, (let '(m, v) := if Z.land w (Z.ones s) =? 0 then (n + s, Z.shiftr w s) else (n, w)
               in f m v) = n + k /\ is_first w k /\ k < 2 * s) as Hstage.
  { enough (exists k, __ffs w = 0 + k /\ is_first w k /\ k < 2 * 16) as (k & Hk & ? & ?).
    { unfold __ffs in Hk. rewrite Hk. split; [done|lia]. }
    unfold __ffs. apply (Hstage _ 16 0 w); [lia|done|]. clear w H. intros n w H.
    apply (Hstage _ 8 n w); [lia|done|]. clear n w H. intros n w H.
    apply (Hstage _ 4 n w); [lia|done|]. clear n w H. intros n w H.
    apply (Hstage _ 2 n w); [lia|done|]. clear n w H. intros n w H.
    change 1 with (Z.ones 1) at 1. destruct (ffs_stage 1 w) as [Hz Hn]; [lia|done|].
    dcase.
    - destruct (Hz Heqb) as [H1 H2]. exists 1. split; [done|]. split; [|lia].
      apply (is_first_shift w 1 0); [lia|done|]. split; [lia|]. split; [|lia].
      rewrite Z.bit0_odd. change (2 ^ 1) with 2 in H1.
      rewrite Zmod_odd in H1. by destruct (Z.odd _).
    - exists 0. split; [lia|]. split; [|lia]. split; [lia|]. split; [|lia].
      specialize (Hn Heqb). change (2 ^ 1) with 2 in Hn.
      rewrite Z.bit0_odd. rewrite Zmod_odd in Hn. by destruct (Z.odd _). }
  clear w H. intros f s n w Hs H Hf. destruct (ffs_stage s w) as [Hz Hn]; [done..|]. dcase.
  - destruct (Hz Heqb) as [H1 H2]. destruct (Hf (n + s) _ H1) as (k & -> & ? & ?).
    exists (s + k). split; [lia|]. split; [by apply is_first_shift|lia].
  - destruct (Hf n _ (Hn Heqb)) as (k & -> & ? & ?). exists k.
    split; [done|]. split; [done|]. assert (0 <= k) by (by destruct H0). lia.
Qed.

(** The test [!(word & (~0UL << (32 - s)))]: no bit among the [s] highest. *)
Lemma high_bits_zero word k :
  is_u32 word -> 0 <= k <= 32 ->
  (Z.land word (ul_shl ULONG_MAX k) =? 0) = (word <? 2 ^ k).
Proof.
  intros Hw Hk. assert (0 < 2 ^ k) by (apply Z.pow_pos_nonneg; lia).
  assert (Z.land word (ul_shl ULONG_MAX k) = Z.shiftl (Z.shiftr word k) k) as ->.
  { apply Z.bits_inj'. intros i Hi. rewrite Z.land_spec, mask_ge_spec, Z.shiftl_spec by lia.
    destruct (Z_lt_ge_dec i k).
    - rewrite (Z.testbit_neg_r _ (i - k)), bool_decide_eq_false_2 by lia. btauto.
    - rewrite Z.shiftr_spec by lia. replace (i - k + k) with i by lia.
      destruct (Z_lt_ge_dec i 32).
      + rewrite bool_decide_eq_true_2 by lia. btauto.
      + rewrite is_u32_bits by (done || lia). btauto. }
  rewrite Z.shiftl_mul_pow2, Z.shiftr_div_pow2 by lia. destruct Hw.
  apply eq_true_iff_eq. rewrite Z.eqb_eq, Z.ltb_lt. split; intros Hx.
  - assert (word / 2 ^ k = 0) as Hd by nia. apply Z.div_small_iff in Hd; lia.
  - rewrite Z.div_small by lia. lia.
Qed.

(** One stage of [__fls]: shifting left past zero high bits moves the highest bit. *)
Lemma fls_stage s word :
  0 < s <= 16 -> is_u32 word -> word <> 0 -> word < 2 ^ (32 - s) ->
  is_u32 (ul_shl word s) /\ ul_shl word s <> 0 /\ Z.log2 (ul_shl word s) = Z.log2 word + s.
Proof.
  intros Hs [Hw1 Hw2] Hnz Hlt. unfold ul_shl.
  assert (2 ^ 32 = 2 ^ s * 2 ^ (32 - s)) as He by (rewrite <- Z.pow_add_r by lia; f_equal; lia).
  change (2 ^ 32) with 4294967296 in He.
  assert (0 < 2 ^ s) by (apply Z.pow_pos_nonneg; lia).
  rewrite u32_small by (rewrite Z.shiftl_mul_pow2 by lia; unfold is_u32; nia).
  rewrite Z.log2_shiftl by lia. rewrite Z.shiftl_mul_pow2 by lia. unfold is_u32. nia.
Qed.

Lemma log2_ge_high word s :
  is_u32 word -> 0 <= s <= 32 -> 2 ^ (32 - s) <= word -> 32 - s <= Z.log2 word < 32.
Proof.
  intros [H1 H2] Hs H. assert (0 < 2 ^ (32 - s)) by (apply Z.pow_pos_nonneg; lia).
  split; [apply Z.log2_le_pow2; lia|]. apply Z.log2_lt_pow2; [lia|]. exact H2.
Qed.

(** The descent shared by [__fls] and [fls]. *)
Lemma fls_step (f : Z -> Z -> Z) s n w c :
  0 < s <= 16 -> is_u32 w -> w <> 0 -> 32 - 2 * s <= Z.log2 w ->
  (forall m v, is_u32 v -> v <> 0 -> 32 - s <= Z.log2 v -> f m v = m + Z.log2 v + c) ->
  (let '(m, v) := if Z.land w (ul_shl ULONG_MAX (32 - s)) =? 0
                  then (n - s, ul_shl w s) else (n, w) in f m v) = n + Z.log2 w + c.
Proof.
  intros Hs Hw Hnz Hl Hf. rewrite high_bits_zero by (done || lia). dcase.
  - destruct (fls_stage s w) as (? & ? & Hlog); [done..|]. rewrite Hf; [lia|done|done|lia].
  - apply Hf; [done..|]. apply log2_ge_high; [done|lia|done].
Qed.

Lemma fls_log2 w : is_u32 w -> w <> 0 -> __fls w = Z.log2 w.
Proof.
  intros Hw Hnz. pose proof (Z.log2_nonneg w). unfold __fls, BITS_PER_LONG.
  transitivity ((32 - 1) + Z.log2 w + -31); [|lia].
  apply fls_step; [lia|done|done|lia|]. clear w Hw Hnz H. intros n w Hw Hnz H.
  apply fls_step; [lia|done|done|lia|]. clear n w Hw Hnz H. intros n w Hw Hnz H.
  apply fls_step; [lia|done|done|lia|]. clear n w Hw Hnz H. intros n w Hw Hnz H.
  apply fls_step; [lia|done|done|lia|]. clear n w Hw Hnz H. intros n w Hw Hnz H.
  rewrite high_bits_zero by (done || lia). destruct Hw as [? Hlt].
  assert (Z.log2 w < 32) by (apply Z.log2_lt_pow2; [lia|exact Hlt]). dcase.
  - assert (Z.log2 w < 31) by (apply Z.log2_lt_pow2; [lia|done]). lia.
  - assert (31 <= Z.log2 w) by (apply Z.log2_le_pow2; [lia|done]). lia.
Qed.

Lemma fls_spec w : is_u32 w -> fls w = if w =? 0 then 0 else Z.log2 w + 1.
Proof.
  intros Hw. unfold fls. destruct (w =? 0) eqn:E; [done|]. zbool.
  pose proof (Z.log2_nonneg w).
  enough (forall (f : Z -> Z -> Z) s m r w, 0 < s <= 16 -> m = ul_shl ULONG_MAX (32 - s) ->
    is_u32 w -> w <> 0 -> 32 - 2 * s <= Z.log2 w ->
    (forall v r, is_u32 v -> v <> 0 -> 32 - s <= Z.log2 v -> f v r = r + Z.log2 v + -31) ->
    (let '(v, r) := if Z.land w m =? 0 then (ul_shl w s, r - s) else (w, r) in f v r)
      = r + Z.log2 w + -31) as Hstep.
  { transitivity (32 + Z.log2 w + -31); [|lia].
    apply Hstep; [lia|done|done|done|lia|]. clear w Hw E H. intros w r Hw E H.
    apply Hstep; [lia|done|done|done|lia|]. clear w r Hw E H. intros w r Hw E H.
    apply Hstep; [lia|done|done|done|lia|]. clear w r Hw E H. intros w r Hw E H.
    apply Hstep; [lia|done|done|done|lia|]. clear w r Hw E H. intros w r Hw E H.
    apply (Hstep (fun _ r => r)); [lia|done|done|done|lia|]. clear w r Hw E H. intros w r Hw E H.
    destruct Hw as [? Hlt]. assert (Z.log2 w < 32) by (apply Z.log2_lt_pow2; [lia|exact Hlt]).
    lia. }
  clear w Hw E H. intros f s m r w Hs -> Hw Hnz Hl Hf.
  rewrite <- (fls_step (fun r v => f v r) s r w (-31)); [by destruct (_ =? 0)|done..|].
  intros. by apply Hf.
Qed.

(** * Reversals *)

Lemma bitrev8_spec x :
  is_byte x ->
  is_byte (bitrev8 x) /\
  forall i, 0 <= i < 8 -> Z.testbit (bitrev8 x) i = Z.testbit x (7 - i).
Proof.
  intros Hx.
  assert (all_below 256 (fun x => (0 <=? bitrev8 x) && (bitrev8 x <? 256) &&
    all_below 8 (fun i => Bool.eqb (Z.testbit (bitrev8 x) i) (Z.testbit x (7 - i)))) = true)
    as H by (vm_compute; done).
  pose proof (all_below_spec _ _ H x Hx) as Hp. clear H. cbv beta in Hp.
  apply andb_true_iff in Hp as [Hp Hq]. zbool. split; [done|].
  intros i Hi. pose proof (all_below_spec _ _ Hq i Hi) as Hb. by apply Bool.eqb_prop in Hb.
Qed.

(** Two halves of [k] bits, swapped and reversed. *)
Lemma rev_halves k lo hi rlo rhi i :
  0 <= k -> 0 <= i < 2 * k -> 0 <= rhi < 2 ^ k ->
  (forall j, 0 <= j < k -> Z.testbit rlo j = Z.testbit lo (k - 1 - j)) ->
  (forall j, 0 <= j < k -> Z.testbit rhi j = Z.testbit hi (k - 1 - j)) ->
  Z.testbit (Z.lor (Z.shiftl rlo k) rhi) i =
  if i <? k then Z.testbit hi (k - 1 - i) else Z.testbit lo (2 * k - 1 - i).
Proof.
  intros Hk Hi Hr Hlo Hhi. rewrite Z.lor_spec, Z.shiftl_spec by lia. dcase.
  - rewrite Z.testbit_neg_r, Hhi by lia. done.
  - rewrite Hlo by lia. replace (k - 1 - (i - k)) with (2 * k - 1 - i) by lia.
    rewrite <- (Z.mod_small rhi (2 ^ k)), Z.mod_pow2_bits_high by lia. btauto.
Qed.

Lemma lor_shift_bound k a b :
  0 <= k -> 0 <= a < 2 ^ k -> 0 <= b < 2 ^ k -> 0 <= Z.lor (Z.shiftl a k) b < 2 ^ (k + k).
Proof.
  intros Hk Ha Hb. assert (Z.lor (Z.shiftl a k) b = b + 2 ^ k * a) as ->.
  { apply Z.bits_inj'. intros i Hi.
    rewrite Z.lor_spec, Z.shiftl_spec, testbit_concat by lia. dcase.
    - by rewrite (Z.testbit_neg_r _ (i - k)) by lia.
    - rewrite <- (Z.mod_small b (2 ^ k)), Z.mod_pow2_bits_high by lia. btauto. }
  rewrite Z.pow_add_r by lia. nia.
Qed.

Lemma bitrev16_spec x :
  0 <= x < 65536 ->
  0 <= bitrev16 x < 65536 /\
  forall i, 0 <= i < 16 -> Z.testbit (bitrev16 x) i = Z.testbit x (15 - i).
Proof.
  intros Hx. unfold bitrev16. rewrite land_255.
  assert (u8 (Z.shiftr x 8) = Z.shiftr x 8) as ->.
  { unfold u8. rewrite Z.shiftr_div_pow2 by lia. change (2 ^ 8) with 256. lia. }
  destruct (bitrev8_spec (x mod 256)) as [Hb1 Hs1]; [unfold is_byte; lia|].
  destruct (bitrev8_spec (Z.shiftr x 8)) as [Hb2 Hs2];
    [rewrite Z.shiftr_div_pow2 by lia; unfold is_byte; change (2 ^ 8) with 256; lia|].
  pose proof (lor_shift_bound 8 _ _ ltac:(lia) Hb1 Hb2) as Hbd. cbn in Hbd.
  unfold u16. rewrite Z.mod_small by lia. split; [lia|]. intros i Hi.
  rewrite (rev_halves 8 (x mod 256) (Z.shiftr x 8)) by (done || lia). dcase.
  - rewrite Z.shiftr_spec by lia. f_equal; lia.
  - change 256 with (2 ^ 8). rewrite Z.mod_pow2_bits_low by lia. f_equal; lia.
Qed.

Lemma bitrev32_spec x :
  is_u32 x ->
  is_u32 (bitrev32 x) /\
  forall i, 0 <= i < 32 -> Z.testbit (bitrev32 x) i = Z.testbit x (31 - i).
Proof.
  intros Hx. unfold is_u32 in Hx. split; [apply u32_is_u32|]. unfold bitrev32.
  assert (Z.land x 0xffff = x mod 65536) as ->
    by (change 0xffff with (Z.ones 16); by rewrite Z.land_ones).
  assert (u16 (Z.shiftr x 16) = Z.shiftr x 16) as ->.
  { unfold u16. rewrite Z.shiftr_div_pow2 by lia. change (2 ^ 16) with 65536. lia. }
  destruct (bitrev16_spec (x mod 65536)) as [Hb1 Hs1]; [lia|].
  destruct (bitrev16_spec (Z.shiftr x 16)) as [Hb2 Hs2];
    [rewrite Z.shiftr_div_pow2 by lia; change (2 ^ 16) with 65536; lia|].
  intros i Hi. rewrite u32_spec, bool_decide_eq_true_2 by lia.
  rewrite (rev_halves 16 (x mod 65536) (Z.shiftr x 16)) by (done || lia).
  rewrite andb_true_l. dcase.
  - rewrite Z.shiftr_spec by lia. f_equal; lia.
  - change 65536 with (2 ^ 16). rewrite Z.mod_pow2_bits_low by lia. f_equal; lia.
Qed.

(** * Properties *)

(** The population counts, in both variants of the 32-bit one. *)
Lemma hweight_spec w :
  0 <= w < 18446744073709551616 ->
  __sw_hweight64 w = popcount 64 w /\
  __sw_hweight32 (u32 w) = popcount 32 w /\
  __sw_hweight32_mul (u32 w) = __sw_hweight32 (u32 w) /\
  __sw_hweight16 (u16 w) = popcount 16 w /\
  __sw_hweight8 (u8 w) = popcount 8 w.
Proof.
  intros Hw.
  assert (forall n v, 2 ^ Z.of_nat n = v -> popcount n (w mod v) = popcount n w) as Hlow.
  { intros n v <-. apply popcount_ext. intros i Hi. apply Z.mod_pow2_bits_low. lia. }
  assert (__sw_hweight32 (u32 w) = popcount 32 w) as H32
    by (rewrite hweight32_popcount by apply u32_is_u32; by apply Hlow).
  split; [|split; [done|split; [|split]]].
  - unfold __sw_hweight64. rewrite Z.shiftr_div_pow2 by lia. change (2 ^ 32) with 4294967296.
    rewrite (u32_small (w / _)) by (unfold is_u32; lia).
    rewrite H32, hweight32_popcount by (unfold is_u32; lia).
    replace w with (w mod 4294967296 + 2 ^ Z.of_nat 32 * (w / 4294967296)) at 3
      by (change (2 ^ Z.of_nat 32) with 4294967296; lia).
    change 64%nat with (32 + 32)%nat. rewrite popcount_app by (change (2 ^ _) with 4294967296; lia).
    pose proof (popcount_bound 32 w). pose proof (popcount_bound 32 (w / 4294967296)).
    rewrite (Hlow 32%nat) by done. rewrite u32_small by (unfold is_u32; lia). lia.
  - rewrite hweight32_mul_popcount, hweight32_popcount by apply u32_is_u32. done.
  - rewrite hweight16_popcount by (unfold u16; lia). by apply Hlow.
  - rewrite hweight8_popcount by apply u8_is_byte. by apply Hlow.
Qed.

(** The searches in a word. *)
Lemma word_searches_spec w :
  is_u32 w -> w <> 0 ->
  is_first w (__ffs w) /\ __ffs w < 32 /\ __fls w = Z.log2 w /\ fls w = Z.log2 w + 1.
Proof.
  intros Hw Hnz. destruct (ffs_first w Hw Hnz) as [H1 H2].
  split; [done|]. split; [done|]. split; [by apply fls_log2|].
  by rewrite fls_spec, (proj2 (Z.eqb_neq _ _)) by done.
Qed.

(** The lowest clear bit of a word that is not all ones. *)
Lemma ffz_spec w :
  is_u32 w -> w <> 0xFFFFFFFF ->
  0 <= ffz w < 32 /\ Z.testbit w (ffz w) = false /\ forall i, 0 <= i < ffz w -> Z.testbit w i = true.
Proof.
  intros Hw Hn. destruct (ffs_first (ul_not w)) as [(H3 & H4 & H5) H6]; [by apply is_u32_not| |].
  { unfold ul_not. unfold is_u32 in Hw. lia. }
  fold (ffz w) in *. rewrite ul_not_spec, bool_decide_eq_true_2 in H4 by (done || lia).
  split; [lia|]. split; [by apply negb_true_iff|]. intros i Hi. specialize (H5 i Hi).
  rewrite ul_not_spec, bool_decide_eq_true_2 in H5 by (done || lia). by apply negb_false_iff.
Qed.

(** Bit i of the result is bit 31 - i (15 - i) of the argument. *)
Lemma bitrev_spec x :
  is_u32 x ->
  is_u32 (bitrev32 x) /\ (forall i, 0 <= i < 32 -> Z.testbit (bitrev32 x) i = Z.testbit x (31 - i)) /\
  bitrev32 (bitrev32 x) = x /\
  0 <= bitrev16 (u16 x) < 65536 /\
  (forall i, 0 <= i < 16 -> Z.testbit (bitrev16 (u16 x)) i = Z.testbit x (15 - i)).
Proof.
  intros Hx. destruct (bitrev32_spec x Hx) as [H1 H2]. split; [done|]. split; [done|]. split.
  - destruct (bitrev32_spec _ H1) as [H3 H4]. apply u32_bits_inj; [done..|]. intros i Hi.
    rewrite H4, H2 by lia. f_equal. lia.
  - destruct (bitrev16_spec (u16 x)) as [H0 H3]; [unfold u16; lia|]. split; [done|]. intros i Hi.
    rewrite H3 by lia. unfold u16. change 65536 with (2 ^ 16).
    apply Z.mod_pow2_bits_low. lia.
Qed.

(** C40: the software population counts of lib/hweight.c return the number of set bits of their
    8-, 16-, 32- and 64-bit argument, and the multiplier and shift-and-add variants of the 32-bit
    one agree; of a word that is not 0, __ffs finds the lowest set bit and __fls the highest, and fls
    is one more than that (0 for the word 0); of a word that is not all ones, ffz finds the lowest
    clear bit, between 0 and 31; bitrev32 and bitrev16 reverse the bits of any word and stay within its
    width, so reversing twice gives the argument back. *)
Theorem word_operations :
  (forall w, 0 <= w < 18446744073709551616 ->
     __sw_hweight64 w = popcount 64 w /\
     __sw_hweight32 (u32 w) = popcount 32 w /\
     __sw_hweight32_mul (u32 w) = __sw_hweight32 (u32 w) /\
     __sw_hweight16 (u16 w) = popcount 16 w /\
     __sw_hweight8 (u8 w) = popcount 8 w) /\
  (forall x, is_u32 x -> x <> 0 ->
     is_first x (__ffs x) /\ __ffs x < 32 /\ __fls x = Z.log2 x /\ fls x = Z.log2 x + 1) /\
  fls 0 = 0 /\
  (forall x, is_u32 x -> x <> 0xFFFFFFFF ->
     0 <= ffz x < 32 /\ Z.testbit x (ffz x) = false /\ forall i, 0 <= i < ffz x -> Z.testbit x i = true) /\
  (forall x, is_u32 x ->
     is_u32 (bitrev32 x) /\ (forall i, 0 <= i < 32 -> Z.testbit (bitrev32 x) i = Z.testbit x (31 - i)) /\
     bitrev32 (bitrev32 x) = x /\
     0 <= bitrev16 (u16 x) < 65536 /\
     (forall i, 0 <= i < 16 -> Z.testbit (bitrev16 (u16 x)) i = Z.testbit x (15 - i))).
Proof.
  split; [exact hweight_spec|]. split; [exact word_searches_spec|]. split; [done|].
  split; [exact ffz_spec|exact bitrev_spec].
Qed.

Lemma word_operations_witness :
  __sw_hweight64 0xF0F000000000FFFF = popcount 64 0xF0F000000000FFFF /\
  is_first 0x00C00100 (__ffs 0x00C00100) /\ Z.testbit 0xFF0F (ffz 0xFF0F) = false /\
  bitrev32 (bitrev32 0x00C00100) = 0x00C00100.
Proof.
  destruct word_operations as (H1 & H2 & _ & H3 & H4). split; [apply (H1 0xF0F000000000FFFF); lia|].
  split; [apply (H2 0x00C00100); unfold is_u32; lia|]. split; [apply (H3 0xFF0F); unfold is_u32; lia|].
  apply (H4 0x00C00100). unfold is_u32. lia.
Defined.
