(* ===== verification/Math.v ===== *)
(** Integer arithmetic: lib/gcd.c, lib/lcm.c, lib/int_sqrt.c, lib/rational.c, the 64-bit divisions of
    lib/div64.c, include/linux/math64.h and include/asm-generic/div64.h, and the reciprocal division
    of lib/reciprocal_div.c.  A division by zero is [None]. *)

From S2P Require Import Prelude Word.
From Stdlib Require Import Lia Znumtheory.

Open Scope Z_scope.

(** * The program *)

Definition udiv (a b : Z) : option Z := if b =? 0 then None else Some (a / b).
Definition umod (a b : Z) : option Z := if b =? 0 then None else Some (a mod b).

Definition gcd (a b : Z) : option Z :=
  let '(a, b) := if a <? b then (b, a) else (a, b) in
  loop 70 (fun '(a, b) =>
    r ← umod a b;
    Some (if negb (r =? 0) then Next (b, r) else Ret b)) (a, b).

Definition lcm (a b : Z) : option Z :=
  if negb (a =? 0) && negb (b =? 0) then
    g ← gcd a b;
    udiv (u32 (a * b)) g
  else if negb (b =? 0) then Some b
  else Some a.

Definition int_sqrt (x : Z) : option Z :=
  let op := x in
  let res := 0 in
  let one := ul_shl 1 (BITS_PER_LONG - 2) in
  one ← loop 20 (fun one => Some (if op <? one then Next (Z.shiftr one 2) else Ret one)) one;
  loop 20 (fun '(op, res, one) =>
    if negb (one =? 0) then
      let '(op, res) :=
        if u32 (res + one) <=? op
        then (u32 (op - u32 (res + one)), u32 (res + u32 (2 * one))) else (op, res) in
      Some (Next (op, res / 2, one / 4))
    else Some (Ret res)) (op, res, one).

(** Returns the best numerator and denominator. *)
Definition rational_best_approximation (given_numerator given_denominator max_numerator max_denominator : Z)
  : option (Z * Z) :=
  loop 80 (fun '(n, d, n0, d0, n1, d1) =>
    if (max_numerator <? n1) || (max_denominator <? d1) then Some (Ret (n0, d0))
    else if d =? 0 then Some (Ret (n1, d1))
    else
      let t := d in
      a ← udiv n d;
      d ← umod n d;
      let n := t in
      let t := u32 (n0 + u32 (a * n1)) in
      let n0 := n1 in
      let n1 := t in
      let t := u32 (d0 + u32 (a * d1)) in
      Some (Next (n, d, n0, d1, n1, t))) (given_numerator, given_denominator, 0, 1, 1, 0).

(** Returns the quotient stored through the pointer and the remainder. *)
Definition __div64_32 (n base : Z) : option (Z * Z) :=
  let rem := n in
  let b := base in
  let high := u32 (Z.shiftr rem 32) in
  '(res, rem) ← (if base <=? high then
                   high ← udiv high base;
                   Some (u64 (Z.shiftl high 32), u64 (rem - u64 (Z.shiftl (u32 (high * base)) 32)))
                 else Some (0, rem));
  '(b, d) ← loop 70 (fun '(b, d) =>
    Some (if (0 <? s64 b) && (b <? rem) then Next (u64 (b + b), u64 (d + d)) else Ret (b, d))) (b, 1);
  loop 70 (fun '(rem, res, b, d) =>
    let '(rem, res) := if b <=? rem then (u64 (rem - b), u64 (res + d)) else (rem, res) in
    let b := Z.shiftr b 1 in
    let d := Z.shiftr d 1 in
    Some (if negb (d =? 0) then Next (rem, res, b, d) else Ret (res, u32 rem))) (rem, res, b, d).

Definition do_div (n base : Z) : option (Z * Z) :=
  if Z.shiftr n 32 =? 0 then
    rem ← umod (u32 n) base;
    n ← udiv (u32 n) base;
    Some (n, rem)
  else __div64_32 n base.

Definition div_u64_rem (dividend divisor : Z) : option (Z * Z) := do_div dividend divisor.

Definition div_u64 (dividend divisor : Z) : option Z :=
  '(q, _) ← div_u64_rem dividend divisor; Some q.

Definition abs (x : Z) : Z := if x <? 0 then s32 (- x) else x.

Definition div_s64_rem (dividend divisor : Z) : option (Z * Z) :=
  if dividend <? 0 then
    '(quotient, remainder) ← div_u64_rem (u64 (- dividend)) (u32 (abs divisor));
    let remainder := s32 (- s32 remainder) in
    let quotient := if 0 <? divisor then u64 (- quotient) else quotient in
    Some (s64 quotient, remainder)
  else
    '(quotient, remainder) ← div_u64_rem dividend (u32 (abs divisor));
    let quotient := if divisor <? 0 then u64 (- quotient) else quotient in
    Some (s64 quotient, s32 remainder).

Definition div_s64 (dividend divisor : Z) : option Z :=
  '(q, _) ← div_s64_rem dividend divisor; Some q.

Definition div64_u64 (dividend divisor : Z) : option Z :=
  let high := u32 (Z.shiftr divisor 32) in
  let '(d, dividend) :=
    if negb (high =? 0) then
      let shift := fls high in
      (u32 (Z.shiftr divisor shift), Z.shiftr dividend shift)
    else (u32 divisor, dividend) in
  div_u64 dividend d.

(** [fuel] bounds the iterations of a loop that runs once per unit of the quotient; returns the
    quotient and the remainder. *)
Definition __iter_div_u64_rem (fuel : nat) (dividend divisor : Z) : option (Z * Z) :=
  loop fuel (fun '(dividend, ret) =>
    Some (if divisor <=? dividend then Next (u64 (dividend - divisor), u32 (ret + 1))
          else Ret (ret, dividend))) (dividend, 0).

Definition iter_div_u64_rem (fuel : nat) (dividend divisor : Z) : option (Z * Z) :=
  __iter_div_u64_rem fuel dividend divisor.

Definition reciprocal_value (k : Z) : option Z :=
  let val := u64 (Z.shiftl 1 32 + u32 (k - 1)) in
  '(val, _) ← do_div val k;
  Some (u32 val).

Definition reciprocal_divide (A R : Z) : Z := u32 (Z.shiftr (u64 (A * R)) 32).

(** * Greatest common divisor and least common multiple *)

Lemma umod_some a b : 0 < b -> umod a b = Some (a mod b).
Proof. intros. unfold umod. by rewrite (proj2 (Z.eqb_neq b 0)) by lia. Qed.

Lemma udiv_some a b : 0 < b -> udiv a b = Some (a / b).
Proof. intros. unfold udiv. by rewrite (proj2 (Z.eqb_neq b 0)) by lia. Qed.

(** A step of Euclid's algorithm halves the product of the two numbers. *)
Lemma euclid_halves a b : 0 < b <= a -> a mod b <> 0 -> Z.log2 (b * (a mod b)) < Z.log2 (a * b).
Proof.
  intros Hb Hr. assert (0 < a mod b < b) by lia. assert (2 * (a mod b) < a).
  { pose proof (Z.div_mod a b ltac:(lia)). assert (1 <= a / b) by (apply Z.div_le_lower_bound; lia). nia. }
  assert (Z.log2 (2 * (b * (a mod b))) <= Z.log2 (a * b)) by (apply Z.log2_le_mono; nia).
  rewrite Z.log2_double in * by nia. lia.
Qed.

Lemma log2_product a b : is_u32 a -> is_u32 b -> Z.log2 (a * b) < 64.
Proof.
  unfold is_u32. intros. destruct (decide (a * b <= 0)) as [Hz|Hz].
  - rewrite Z.log2_nonpos by done. lia.
  - apply Z.log2_lt_pow2; [lia|]. change (2 ^ 64) with (4294967296 * 4294967296). nia.
Qed.

Lemma gcd_spec a b : is_u32 a -> is_u32 b ->
  gcd a b = if (a =? 0) || (b =? 0) then None else Some (Z.gcd a b).
Proof.
  intros Ha Hb. unfold gcd.
  assert (exists x y, (if a <? b then (b, a) else (a, b)) = (x, y) /\ y <= x /\ is_u32 x /\ is_u32 y /\
    Z.gcd x y = Z.gcd a b /\ (y =? 0) = (a =? 0) || (b =? 0)) as (x & y & -> & Hxy & Hx & Hy & Hg & Hz).
  { unfold is_u32 in *. destruct (a <? b) eqn:E; zbool; eexists _, _; (split; [done|]); split_and!; try lia.
    apply Z.gcd_comm. }
  rewrite <- Hz, <- Hg. destruct (y =? 0) eqn:E; zbool.
  { subst y. done. }
  pose proof (log2_product x y Hx Hy) as Hlog. unfold is_u32 in *.
  loop_with (fun '(p, q) => 0 < q <= p /\ Z.gcd p q = Z.gcd x y) (fun '(p, q) => Z.to_nat (Z.log2 (p * q)))
    (fun r => r = Z.gcd x y) as (r & -> & ->); [| | |done].
  - intros [p q] [Hq Hpq]. rewrite umod_some by lia. cbn [mbind option_bind].
    destruct (p mod q =? 0) eqn:Er; zbool; simpl negb; cbv iota.
    + rewrite <- Hpq, Z.gcd_comm, <- Z.gcd_mod, Er, Z.gcd_0_l by lia. lia.
    + pose proof (euclid_halves p q Hq Er) as Hh. pose proof (Z.log2_nonneg (q * (p mod q))).
      split; [|lia]. split; [lia|]. rewrite <- Hpq, Z.gcd_comm, Z.gcd_mod by lia. apply Z.gcd_comm.
  - split; [lia|done].
  - lia.
Qed.

Lemma lcm_spec a b : is_u32 a -> is_u32 b -> a <> 0 -> b <> 0 ->
  lcm a b = Some (u32 (a * b) / Z.gcd a b) /\ (a * b < 4294967296 -> lcm a b = Some (Z.lcm a b)).
Proof.
  intros Ha Hb Ha0 Hb0. unfold lcm. rewrite gcd_spec by done.
  rewrite (proj2 (Z.eqb_neq a 0)), (proj2 (Z.eqb_neq b 0)) by done. simpl.
  assert (0 < Z.gcd a b) as Hg.
  { pose proof (Z.gcd_nonneg a b). assert (Z.gcd a b <> 0) by (intros ?%Z.gcd_eq_0_l; done). lia. }
  rewrite udiv_some by done. split; [done|]. intros Hlt. unfold is_u32 in *. rewrite u32_small by (unfold is_u32; nia).
  f_equal. unfold Z.lcm. rewrite Z.abs_eq by (apply Z.mul_nonneg_nonneg; [lia|apply Z.div_pos; lia]).
  apply Z.divide_div_mul_exact; [lia|apply Z.gcd_divide_r].
Qed.

(** * Square root *)

(** [s] is the root of [x] as far as its digits above that of [t] = 2^k go. *)
Definition root_state (x k : Z) (st : Z * Z * Z) : Prop :=
  let '(op, res, one) := st in
  exists m, 0 <= m /\ let t := 2 ^ k in let s := m * (2 * t) in
    one = t * t /\ op = x - s * s /\ res = s * (2 * t) /\ s * s <= x < (s + 2 * t) * (s + 2 * t).

(** The digits found leave room for the rest. *)
Lemma root_room x k m :
  is_u32 x -> 0 <= k <= 15 -> 0 <= m -> m * (2 * 2 ^ k) * (m * (2 * 2 ^ k)) <= x ->
  1 <= 2 ^ k <= 32768 /\ m * (2 * 2 ^ k) <= 65536 - 2 * 2 ^ k.
Proof.
  unfold is_u32. intros Hx Hk Hm Hs. set (t := 2 ^ k) in *. set (s := m * (2 * t)) in *.
  assert (t * 2 ^ (15 - k) = 32768) as Et
    by (unfold t; rewrite <- Z.pow_add_r by lia; by replace (k + (15 - k)) with 15 by lia).
  assert (0 < t) by (unfold t; lia). set (c := 2 ^ (15 - k)) in *. assert (0 < c) by (unfold c; lia).
  split; [nia|]. assert (s < 65536) by nia. assert (m < c) by (unfold s in *; nia). unfold s. nia.
Qed.

(** One digit. *)
Lemma root_step x k op res one :
  is_u32 x -> 0 <= k <= 15 -> root_state x k (op, res, one) ->
  exists s, 0 <= s /\ s * s <= x < (s + 2 ^ k) * (s + 2 ^ k) /\
    (if u32 (res + one) <=? op then (u32 (op - u32 (res + one)), u32 (res + u32 (2 * one))) else (op, res)) =
    (x - s * s, 2 * (s * 2 ^ k)) /\ exists m, 0 <= m /\ s = m * 2 ^ k.
Proof.
  intros Hx Hk (m & Hm & Hone & Hop & Hres & Hlo & Hhi). cbv zeta in *.
  destruct (root_room x k m Hx Hk Hm Hlo) as [Ht Hs]. unfold is_u32 in Hx.
  set (t := 2 ^ k) in *. set (s := m * (2 * t)) in *. clearbody t.
  assert (0 <= s) by (unfold s; nia). assert (0 <= s * t /\ t * t <= 32768 * t /\ s * t <= (65536 - 2 * t) * t) by nia.
  assert ((s + 2 * t) * (s + 2 * t) = s * s + 4 * (s * t) + 4 * (t * t)) as E1 by ring.
  assert ((s + t) * (s + t) = s * s + 2 * (s * t) + t * t) as E2 by ring.
  assert (s * (2 * t) = 2 * (s * t)) as E3 by ring. assert (1 <= t * t) by nia.
  assert ((65536 - 2 * t) * t = 65536 * t - 2 * (t * t)) by ring.
  rewrite (u32_small (2 * one)), (u32_small (res + one)) by (unfold is_u32; lia).
  destruct (res + one <=? op) eqn:E; zbool.
  - exists (s + t). split; [lia|]. rewrite E2. split; [replace ((s + t + t) * (s + t + t)) with ((s + 2 * t) * (s + 2 * t)) by ring; lia|].
    split; [|exists (2 * m + 1); unfold s; split; [lia|ring]].
    rewrite !u32_small by (unfold is_u32; lia). f_equal; [lia|]. replace ((s + t) * t) with (s * t + t * t) by ring. lia.
  - exists s. split; [done|]. rewrite E2. split; [lia|]. split; [|exists (2 * m); unfold s; split; [lia|ring]].
    f_equal; lia.
Qed.

(** The digits left to find. *)
Definition digits (one : Z) : nat := if one =? 0 then 0%nat else S (Z.to_nat (Z.log2 one / 2)).

Lemma digits_pow k : 0 <= k -> digits (4 ^ k) = S (Z.to_nat k).
Proof.
  intros Hk. unfold digits. change 4 with (2 ^ 2). rewrite <- Z.pow_mul_r by lia.
  rewrite (proj2 (Z.eqb_neq _ 0)) by lia. rewrite Z.log2_pow2 by lia. do 2 f_equal. lia.
Qed.

Lemma pow4_pred k : 0 < k -> 4 ^ k = 4 * 4 ^ (k - 1).
Proof. intros. rewrite <- Z.pow_succ_r by lia. f_equal. lia. Qed.

(** The highest digit of the root. *)
Lemma first_digit x :
  is_u32 x -> exists one, loop 20 (fun one => Some (if x <? one then Next (Z.shiftr one 2) else Ret one)) (4 ^ 15) = Some one /\
    ((exists k, 0 <= k <= 15 /\ one = 4 ^ k /\ x < 4 * one) \/ (one = 0 /\ x = 0)).
Proof.
  intros Hx. unfold is_u32 in Hx.
  loop_with (fun one => (exists k, 0 <= k <= 15 /\ one = 4 ^ k /\ x < 4 * one) \/ (one = 0 /\ x = 0))
    digits (fun one => (exists k, 0 <= k <= 15 /\ one = 4 ^ k /\ x < 4 * one) \/ (one = 0 /\ x = 0)) as (one & -> & Hone).
  - intros one Hone. destruct (x <? one) eqn:E; zbool; [|done].
    destruct Hone as [(k & Hk & -> & Hlt)|[-> ->]]; [|done]. rewrite Z.shiftr_div_pow2 by lia. change (2 ^ 2) with 4.
    destruct (decide (k = 0)) as [->|]; [split; [right; split; [reflexivity|lia]|vm_compute; lia]|].
    rewrite (pow4_pred k) in * by lia. rewrite (Z.mul_comm 4), Z.div_mul by lia.
    split; [left; exists (k - 1); split_and!; lia|]. rewrite (Z.mul_comm _ 4), <- pow4_pred, !digits_pow by lia. lia.
  - left. exists 15. split_and!; [lia|lia|done|]. change (4 * 4 ^ 15) with 4294967296. lia.
  - rewrite digits_pow by lia. lia.
  - eauto.
Qed.

Lemma int_sqrt_spec x : is_u32 x -> exists r, int_sqrt x = Some r /\ 0 <= r /\ r * r <= x < (r + 1) * (r + 1).
Proof.
  intros Hx. unfold int_sqrt. change (ul_shl 1 (BITS_PER_LONG - 2)) with (4 ^ 15).
  destruct (first_digit x Hx) as (one & -> & Hone). cbn [mbind option_bind].
  loop_with (fun '(op, res, one) => (exists k, 0 <= k <= 15 /\ root_state x k (op, res, one)) \/
      (one = 0 /\ 0 <= res /\ res * res <= x < (res + 1) * (res + 1)))
    (fun '(_, _, one) => digits one) (fun r => 0 <= r /\ r * r <= x < (r + 1) * (r + 1)) as (r & -> & Hr); [| | |eauto].
  - intros [[op res] one'] [(k & Hk & Hst)|(-> & Hr)]; [|done].
    destruct (root_step x k op res one' Hx Hk Hst) as (s & Hs & Hsq & -> & m & Hm & Em).
    destruct Hst as (_ & _ & Hone' & _). assert (one' = 4 ^ k) as E4 by (rewrite Hone'; change 4 with (2 * 2); by rewrite Z.pow_mul_l).
    rewrite (proj2 (Z.eqb_neq one' 0)) by (rewrite E4; lia). simpl negb. cbv iota beta.
    rewrite (Z.mul_comm 2), Z.div_mul by lia. rewrite E4.
    destruct (decide (k = 0)) as [->|].
    + change (2 ^ 0) with 1 in *. rewrite Z.mul_1_r. split; [right; split; [reflexivity|auto]|vm_compute; lia].
    + rewrite (pow4_pred k) by lia. rewrite (Z.mul_comm 4), Z.div_mul by lia. split.
      * left. exists (k - 1). split; [lia|]. assert (2 * 2 ^ (k - 1) = 2 ^ k) as E2 by (rewrite <- Z.pow_succ_r by lia; f_equal; lia).
        exists m. split; [done|]. cbv zeta. rewrite E2, <- Em. split_and!; try apply Hsq; try done.
        change 4 with (2 * 2). by rewrite Z.pow_mul_l.
      * rewrite (Z.mul_comm _ 4), <- pow4_pred, !digits_pow by lia. lia.
  - destruct Hone as [(k & Hk & -> & Hlt)|[-> ->]]; [left|right; lia]. exists k. split; [done|]. exists 0.
    unfold is_u32 in Hx. assert (4 ^ k = 2 ^ k * 2 ^ k) as E4 by (change 4 with (2 * 2); by rewrite Z.pow_mul_l).
    cbv zeta. rewrite E4 in *. split_and!; lia.
  - destruct Hone as [(k & Hk & -> & _)|[-> ->]]; [rewrite digits_pow by lia; lia|]. unfold digits. simpl. lia.
Qed.

(** * 64-bit division *)

Definition is_u64 (x : Z) : Prop := 0 <= x < 18446744073709551616.

Lemma u64_small x : is_u64 x -> u64 x = x.
Proof. unfold is_u64, u64. lia. Qed.

(** The high word divided first. *)
Lemma div_reduce n base :
  is_u64 n -> 0 < base < 4294967296 ->
  exists res rem, (if base <=? u32 (Z.shiftr n 32) then
      high ← udiv (u32 (Z.shiftr n 32)) base;
      Some (u64 (Z.shiftl high 32), u64 (n - u64 (Z.shiftl (u32 (high * base)) 32)))
    else Some (0, n)) = Some (res, rem) /\ 0 <= res /\ 0 <= rem <= n /\ n = res * base + rem.
Proof.
  unfold is_u64. intros Hn Hb. rewrite Z.shiftr_div_pow2 by lia. change (2 ^ 32) with 4294967296.
  rewrite u32_small by (unfold is_u32; lia). set (h := n / 4294967296).
  assert (0 <= h < 4294967296 /\ h * 4294967296 <= n) as [Hh Hhn] by lia. clearbody h.
  destruct (base <=? h) eqn:E; zbool; [|exists 0, n; split; [done|lia]].
  rewrite udiv_some by lia. cbn [mbind option_bind]. set (q := h / base).
  assert (0 <= q * base <= h) as Hq by (unfold q; nia). assert (0 <= q < 4294967296) as Hq' by nia. clearbody q.
  rewrite !Z.shiftl_mul_pow2 by lia. change (2 ^ 32) with 4294967296.
  rewrite (u32_small (q * base)) by (unfold is_u32; lia). rewrite (u64_small (q * base * _)) by (unfold is_u64; lia).
  rewrite !u64_small by (unfold is_u64; lia). eexists _, _. split; [done|]. lia.
Qed.

(** The divisor shifted up to the dividend. *)
Lemma div_align rem base :
  is_u64 rem -> 0 < base < 4294967296 ->
  exists k, loop 70 (fun '(b, d) =>
      Some (if (0 <? s64 b) && (b <? rem) then Next (u64 (b + b), u64 (d + d)) else Ret (b, d))) (base, 1) =
    Some (base * 2 ^ k, 2 ^ k) /\ 0 <= k < 64 /\ is_u64 (base * 2 ^ k) /\ rem < 2 * (base * 2 ^ k).
Proof.
  unfold is_u64. intros Hr Hb.
  loop_with (fun '(b, d) => exists k, 0 <= k < 64 /\ d = 2 ^ k /\ b = base * d /\ b < 18446744073709551616)
    (fun '(b, _) => Z.to_nat (64 - Z.log2 b))
    (fun '(b, d) => exists k, 0 <= k < 64 /\ d = 2 ^ k /\ b = base * d /\ b < 18446744073709551616 /\ rem < 2 * b)
    as ([b d] & -> & k & Hk & -> & -> & Hlt & Hrem).
  - intros [b d] (k & Hk & Hd & Hbd & Hlt). assert (0 < d) by lia. assert (0 < b) by nia.
    destruct ((0 <? s64 b) && (b <? rem)) eqn:E.
    + apply andb_true_iff in E as [E1 E2]. unfold s64 in E1. zbool.
      assert (b < 9223372036854775808) by lia. assert (d <= b) by nia.
      rewrite !u64_small by (unfold is_u64; lia).
      split.
      * exists (k + 1). rewrite Z.pow_add_r by lia. change (2 ^ 1) with 2. split_and!; try lia.
        destruct (Z.lt_ge_cases k 63); [lia|]. assert (2 ^ 63 <= 2 ^ k) by (apply Z.pow_le_mono_r; lia).
        change (2 ^ 63) with 9223372036854775808 in *. lia.
      * replace (b + b) with (2 * b) by lia. rewrite Z.log2_double by lia.
        assert (Z.log2 b < 63) by (apply Z.log2_lt_pow2; [lia|]; change (2 ^ 63) with 9223372036854775808; lia). lia.
    + exists k. split_and!; try lia. apply andb_false_iff in E. unfold s64 in E. destruct E; zbool; lia.
  - exists 0. split_and!; lia.
  - pose proof (Z.log2_nonneg base). lia.
  - exists k. split_and!; try done; try lia.
Qed.

(** Subtract and shift. *)
Lemma div_subtract n base k res rem :
  is_u64 n -> 0 < base < 4294967296 -> 0 <= k < 64 -> is_u64 (base * 2 ^ k) ->
  0 <= res -> 0 <= rem < 2 * (base * 2 ^ k) -> n = res * base + rem ->
  loop 70 (fun '(rem, res, b, d) =>
    let '(rem, res) := if b <=? rem then (u64 (rem - b), u64 (res + d)) else (rem, res) in
    let b := Z.shiftr b 1 in
    let d := Z.shiftr d 1 in
    Some (if negb (d =? 0) then Next (rem, res, b, d) else Ret (res, u32 rem))) (rem, res, base * 2 ^ k, 2 ^ k) =
  Some (n / base, n mod base).
Proof.
  unfold is_u64. intros Hn Hb Hk Hbk Hres Hrem Hsum.
  loop_with (fun '(rem, res, b, d) => exists k, 0 <= k < 64 /\ d = 2 ^ k /\ b = base * d /\
      b < 18446744073709551616 /\ 0 <= res /\ 0 <= rem < 2 * b /\ n = res * base + rem)
    (fun '(_, _, _, d) => Z.to_nat (Z.log2 d)) (fun r => r = (n / base, n mod base)) as (r & -> & ->); [| | |done].
  - clear res rem Hres Hrem Hsum k Hk Hbk. intros [[[rem res] b] d] (k & Hk & Hd & Hbd & Hlt & Hres & Hrem & Hsum).
    assert (0 < d) by lia.
    assert (exists rem' res', (if b <=? rem then (u64 (rem - b), u64 (res + d)) else (rem, res)) = (rem', res') /\
      0 <= res' /\ 0 <= rem' < b /\ n = res' * base + rem') as (rem' & res' & -> & Hres' & Hrem' & Hsum').
    { destruct (b <=? rem) eqn:E; zbool; [|exists rem, res; split_and!; [done|lia..]].
      exists (rem - b), (res + d). rewrite !u64_small by (unfold is_u64; nia). split_and!; [done|lia..|]. nia. }
    cbv beta zeta iota. rewrite !Z.shiftr_div_pow2 by lia. change (2 ^ 1) with 2.
    destruct (decide (k = 0)) as [->|Hk0].
    + change (2 ^ 0) with 1 in Hd. subst d. simpl negb. cbv iota. rewrite u32_small by (unfold is_u32; lia).
      f_equal; [apply Z.div_unique with rem'|apply Z.mod_unique with res']; lia.
    + assert (2 ^ k = 2 * 2 ^ (k - 1)) as Ek by (rewrite <- Z.pow_succ_r by lia; f_equal; lia).
      assert (d / 2 = 2 ^ (k - 1)) as -> by (rewrite Hd, Ek, Z.mul_comm, Z.div_mul; lia).
      assert (0 < 2 ^ (k - 1)) by lia.
      rewrite (proj2 (Z.eqb_neq _ 0)) by lia. simpl negb. cbv iota.
      assert (b / 2 = base * 2 ^ (k - 1)) as ->.
      { rewrite Hbd, Hd, Ek. replace (base * (2 * 2 ^ (k - 1))) with (base * 2 ^ (k - 1) * 2) by ring. apply Z.div_mul. lia. }
      split; [exists (k - 1); split_and!; nia|]. rewrite Hd, !Z.log2_pow2 by lia. lia.
  - exists k. split_and!; lia.
  - rewrite Z.log2_pow2 by lia. lia.
Qed.

Lemma div64_32_spec n base : is_u64 n -> 0 < base < 4294967296 -> __div64_32 n base = Some (n / base, n mod base).
Proof.
  intros Hn Hb. unfold __div64_32.
  destruct (div_reduce n base Hn Hb) as (res & rem & -> & Hres & Hrem & Hsum). cbn [mbind option_bind].
  destruct (div_align rem base) as (k & -> & Hk & Hbk & Hlt); [unfold is_u64 in *; lia|done|]. cbn [mbind option_bind].
  apply div_subtract; try done. lia.
Qed.

Lemma do_div_spec n base : is_u64 n -> is_u32 base ->
  do_div n base = if base =? 0 then None else Some (n / base, n mod base).
Proof.
  intros Hn Hb. unfold do_div, is_u32, is_u64 in *. rewrite Z.shiftr_div_pow2 by lia. change (2 ^ 32) with 4294967296.
  destruct (n / 4294967296 =? 0) eqn:E; zbool.
  - rewrite u32_small by (unfold is_u32; lia). unfold umod, udiv. by destruct (base =? 0).
  - destruct (base =? 0) eqn:E0; zbool.
    + subst base. unfold __div64_32. rewrite (proj2 (Z.leb_le 0 _)); [done|]. unfold u32. lia.
    + apply div64_32_spec; [done|lia].
Qed.

Lemma div_s64_rem_spec x y :
  -9223372036854775808 <= x < 9223372036854775808 -> -2147483648 <= y < 2147483648 -> y <> 0 ->
  div_s64_rem x y = Some (s64 (Z.quot x y), Z.rem x y).
Proof.
  intros Hx Hy H0. unfold div_s64_rem, div_u64_rem. rewrite Z.quot_div, Z.rem_mod by done.
  assert (u32 (abs y) = Z.abs y) as -> by (unfold abs, u32, s32; destruct (y <? 0) eqn:E; zbool; lia).
  assert (forall r, 0 <= r < Z.abs y -> s32 r = r /\ s32 (- r) = - r) as Hs32 by (unfold s32; lia).
  assert (forall q, s64 (u64 q) = s64 q) as Hs64 by (intros q; unfold s64, u64; lia).
  destruct (x <? 0) eqn:E; zbool.
  - rewrite u64_small by (unfold is_u64; lia). replace (Z.abs x) with (- x) by lia. rewrite (Z.sgn_neg x) by lia.
    rewrite do_div_spec by (unfold is_u64, is_u32; lia). rewrite (proj2 (Z.eqb_neq (Z.abs y) 0)) by lia.
    cbn [mbind option_bind]. destruct (Hs32 (- x mod Z.abs y)) as [-> ->]; [lia|].
    set (q := - x / Z.abs y). set (r := - x mod Z.abs y).
    destruct (0 <? y) eqn:Ey; zbool; rewrite ?Hs64; [rewrite (Z.sgn_pos y) by lia|rewrite (Z.sgn_neg y) by lia];
      do 2 f_equal; try f_equal; lia.
  - rewrite do_div_spec by (unfold is_u64, is_u32; lia). rewrite (proj2 (Z.eqb_neq (Z.abs y) 0)) by lia.
    cbn [mbind option_bind]. replace (Z.abs x) with x by lia. destruct (Hs32 (x mod Z.abs y)) as [-> _]; [lia|].
    assert (0 <= x / Z.abs y) by (apply Z.div_pos; lia).
    destruct (decide (x = 0)) as [->|].
    + rewrite Z.div_0_l, Z.mod_0_l by lia. by destruct (y <? 0).
    + rewrite (Z.sgn_pos x) by lia. set (q := x / Z.abs y) in *. set (r := x mod Z.abs y).
      destruct (y <? 0) eqn:Ey; zbool; rewrite ?Hs64; [rewrite (Z.sgn_neg y) by lia|rewrite (Z.sgn_pos y) by lia];
      do 2 f_equal; try f_equal; lia.
Qed.

(** A quotient of shifted operands. *)
Lemma shifted_quotient n D p d :
  0 <= n < 18446744073709551616 -> 2 <= p -> 2147483648 <= d -> d * p <= D < (d + 1) * p ->
  n / D <= n / p / d <= n / D + 2.
Proof.
  intros Hn Hp Hd HD. rewrite Z.div_div by lia. set (q := n / D). set (q' := n / (p * d)).
  assert (q * D <= n < (q + 1) * D) as Hq by (unfold q; nia).
  assert (q' * (p * d) <= n < (q' + 1) * (p * d)) as Hq' by (unfold q'; nia).
  assert (0 <= q) by (unfold q; apply Z.div_pos; lia). assert (0 <= q') by (unfold q'; apply Z.div_pos; nia).
  clearbody q q'. split; [nia|].
  assert (q' * p < 2 * D) as Hsmall by nia.
  assert (q' * D < (q + 1) * D + q' * p) by nia. nia.
Qed.

Lemma div64_u64_spec n D :
  is_u64 n -> is_u64 D -> D <> 0 ->
  exists q, div64_u64 n D = Some q /\ n / D <= q <= n / D + 2 /\ (D < 4294967296 -> q = n / D).
Proof.
  intros Hn HD H0. unfold div64_u64, div_u64, div_u64_rem, is_u64 in *. rewrite (Z.shiftr_div_pow2 D 32) by lia.
  change (2 ^ 32) with 4294967296. rewrite u32_small by (unfold is_u32; lia).
  destruct (D / 4294967296 =? 0) eqn:E; zbool; simpl negb; cbv iota.
  - rewrite u32_small by (unfold is_u32; lia). rewrite do_div_spec by (unfold is_u64, is_u32; lia).
    rewrite (proj2 (Z.eqb_neq D 0)) by done. simpl. eexists. split; [done|]. lia.
  - set (h := D / 4294967296) in *. assert (0 < h < 4294967296) as Hh by lia.
    rewrite fls_spec by (unfold is_u32; lia). rewrite (proj2 (Z.eqb_neq h 0)) by done.
    pose proof (Z.log2_spec h ltac:(lia)) as [Hlo Hhi]. pose proof (Z.log2_nonneg h) as Hl0.
    rewrite Z.pow_succ_r in Hhi by done. rewrite !Z.shiftr_div_pow2 by lia. rewrite Z.pow_add_r by lia. change (2 ^ 1) with 2.
    set (p := 2 ^ Z.log2 h) in *. assert (0 < p) by lia. set (d := D / (p * 2)).
    assert (D = h * 4294967296 + D mod 4294967296) as ED by lia.
    assert (d * (p * 2) <= D < (d + 1) * (p * 2)) as Hd by (unfold d; nia).
    assert (2147483648 <= d < 4294967296) as Hdr by nia.
    rewrite u32_small by (unfold is_u32; lia). rewrite do_div_spec; [|unfold is_u64|unfold is_u32; lia].
    2:{ assert (0 <= n / (p * 2) <= n) by (split; [apply Z.div_pos; lia|apply Z.div_le_upper_bound; nia]). lia. }
    rewrite (proj2 (Z.eqb_neq d 0)) by lia. simpl. eexists. split; [done|]. split; [|lia].
    apply shifted_quotient; lia.
Qed.

Lemma iter_div_spec fuel n d :
  is_u64 n -> 0 < d < 4294967296 -> n / d < Z.of_nat fuel ->
  iter_div_u64_rem fuel n d = Some (u32 (n / d), n mod d).
Proof.
  unfold is_u64. intros Hn Hd Hf. unfold iter_div_u64_rem, __iter_div_u64_rem.
  loop_with (fun '(x, r) => exists q, 0 <= q /\ 0 <= x <= n /\ r = u32 q /\ n = q * d + x) (fun '(x, _) => Z.to_nat (x / d))
    (fun p => p = (u32 (n / d), n mod d)) as (p & -> & ->); [| | |done].
  - intros [x r] (q & Hq & Hx & -> & Hsum). destruct (d <=? x) eqn:E; zbool.
    + rewrite u64_small by (unfold is_u64; lia). split.
      * exists (q + 1). split_and!; try lia. unfold u32. lia.
      * replace x with (x - d + 1 * d) at 2 by lia. rewrite Z.div_add by lia.
        assert (0 <= (x - d) / d) by (apply Z.div_pos; lia). lia.
    + f_equal; [f_equal; apply Z.div_unique with x|apply Z.mod_unique with q]; lia.
  - exists 0. split_and!; try lia; done.
  - assert (0 <= n / d) by (apply Z.div_pos; lia). lia.
Qed.

(** * Reciprocal division *)

Lemma reciprocal_spec A B :
  is_u32 A -> 2 <= B < 4294967296 -> A * (B - 1) < 4294967296 ->
  exists R, reciprocal_value B = Some R /\ reciprocal_divide A R = A / B.
Proof.
  unfold is_u32. intros HA HB Hsmall. unfold reciprocal_value. change (Z.shiftl 1 32) with 4294967296.
  rewrite u32_small by (unfold is_u32; lia). rewrite u64_small by (unfold is_u64; lia).
  rewrite do_div_spec by (unfold is_u64, is_u32; lia). rewrite (proj2 (Z.eqb_neq B 0)) by lia. cbn [mbind option_bind].
  set (R := (4294967296 + (B - 1)) / B). assert (4294967296 <= R * B <= 4294967296 + (B - 1)) as HR by (unfold R; nia).
  assert (0 <= R < 4294967296) by nia. clearbody R. eexists. split; [done|].
  rewrite (u32_small R) by (unfold is_u32; lia). unfold reciprocal_divide. rewrite u64_small by (unfold is_u64; nia).
  rewrite Z.shiftr_div_pow2 by lia. change (2 ^ 32) with 4294967296.
  set (q := A / B). assert (q * B <= A <= q * B + (B - 1)) as Hq by (unfold q; lia).
  assert (0 <= q) by (unfold q; apply Z.div_pos; lia). clearbody q.
  assert (A * R / 4294967296 = q) as ->; [|rewrite u32_small; [done|unfold is_u32; nia]].
  symmetry. apply Z.div_unique with (A * R - q * 4294967296); [left|lia].
  assert (A * (R * B) <= A * 4294967296 + A * (B - 1)) by nia.
  assert (B * (A * R) < B * ((q + 1) * 4294967296)) by nia.
  split; nia.
Qed.

(** * Rational approximation *)

(** The continued fraction of [gn]/[gd]: the rest [n]/[d], the last two convergents. *)
Record fraction (gn gd max_n max_d n d n0 d0 n1 d1 : Z) : Prop := {
  f_nonneg : 0 <= n /\ 0 <= d /\ 0 <= n0 /\ 0 <= d0 /\ 0 <= n1 /\ 0 <= d1;
  f_num : n * n1 + d * n0 = gn;
  f_den : n * d1 + d * d0 = gd;
  f_det : n1 * d0 - n0 * d1 = 1 \/ n1 * d0 - n0 * d1 = -1;
  f_gcd : Z.gcd n d = Z.gcd gn gd;
  f_prev : n0 <= max_n /\ d0 <= max_d;
  f_zero : n = 0 -> n0 = 0 /\ d0 = 1
}.

Lemma mul_le_bound d x y : 1 <= d -> 0 <= x -> d * x <= y -> x <= y.
Proof. nia. Qed.

Lemma fraction_step gn gd max_n max_d n d n0 d0 n1 d1 :
  fraction gn gd max_n max_d n d n0 d0 n1 d1 -> is_u32 gn -> is_u32 gd -> 0 < d -> n1 <= max_n -> d1 <= max_d ->
  u32 (n0 + u32 (n / d * n1)) = n0 + n / d * n1 /\ u32 (d0 + u32 (n / d * d1)) = d0 + n / d * d1 /\
  fraction gn gd max_n max_d d (n mod d) n1 d1 (n0 + n / d * n1) (d0 + n / d * d1).
Proof.
  intros [(Hn & _ & Hn0 & Hd0 & Hn1 & Hd1) Hnum Hden Hdet Hg Hp Hz] Hgn Hgd Hd Hm1 Hm2. unfold is_u32 in *.
  set (a := n / d). assert (n = a * d + n mod d) as En by (unfold a; lia).
  assert (0 <= a) by (unfold a; apply Z.div_pos; lia). assert (0 <= n mod d < d) as Hr by lia.
  set (r := n mod d) in *. assert (Z.gcd d r = Z.gcd n d) as Hgr.
  { unfold r. rewrite Z.gcd_comm, Z.gcd_mod by lia. apply Z.gcd_comm. }
  rewrite Hg in Hgr. clearbody a r. rewrite En in Hnum, Hden.
  assert (d * (n0 + a * n1) + r * n1 = gn) as E1 by lia. assert (d * (d0 + a * d1) + r * d1 = gd) as E2 by lia.
  assert (0 <= a * n1 /\ 0 <= a * d1 /\ 0 <= r * n1 /\ 0 <= r * d1) as (? & ? & ? & ?) by nia.
  assert (n0 + a * n1 <= gn) by (apply (mul_le_bound d); lia).
  assert (d0 + a * d1 <= gd) by (apply (mul_le_bound d); lia).
  rewrite !(u32_small (a * _)) by (unfold is_u32; lia). rewrite !u32_small by (unfold is_u32; lia).
  split; [done|]. split; [done|]. split; try lia.
Qed.

Lemma det_coprime a b c e : a * e - c * b = 1 \/ a * e - c * b = -1 -> Z.gcd a b = 1 /\ Z.gcd c e = 1.
Proof.
  intros H. split; apply Z.bezout_1_gcd.
  - destruct H as [H|H]; [exists e, (- c)|exists (- e), c]; lia.
  - destruct H as [H|H]; [exists (- b), a|exists b, (- a)]; lia.
Qed.

(** What the caller gets: a fraction in lowest terms within the limits, exact when that is possible. *)
Definition approximates (gn gd max_n max_d p q : Z) : Prop :=
  0 <= p <= max_n /\ 0 <= q <= max_d /\ Z.gcd p q = 1 /\
  (gn <= max_n * Z.gcd gn gd -> gd <= max_d * Z.gcd gn gd -> p * Z.gcd gn gd = gn /\ q * Z.gcd gn gd = gd).

(** A convergent beyond the limits, of a fraction that does not fit them. *)
Lemma fraction_exceeds gn gd max_n max_d n d n0 d0 n1 d1 :
  fraction gn gd max_n max_d n d n0 d0 n1 d1 -> max_n < n1 \/ max_d < d1 ->
  approximates gn gd max_n max_d n0 d0.
Proof.
  intros [(Hn & Hd & Hn0 & Hd0 & Hn1 & Hd1) Hnum Hden Hdet Hg Hp Hz] Hex.
  destruct (det_coprime _ _ _ _ Hdet) as [_ Hc]. split_and!; [lia..|done|]. intros H1 H2.
  destruct (decide (n = 0)) as [->|Hn'].
  - destruct (Hz eq_refl) as [-> ->]. rewrite Z.gcd_0_l in Hg. lia.
  - exfalso. assert (exists k, n = k * Z.gcd gn gd) as [k Hk] by (rewrite <- Hg; apply Z.gcd_divide_l).
    pose proof (Z.gcd_nonneg gn gd). set (g := Z.gcd gn gd) in *. clearbody g. assert (0 < g /\ 0 < k) as [Hg0 Hk0] by nia.
    assert (n * n1 <= max_n * g) by nia. assert (n * d1 <= max_d * g) by nia.
    assert (g <= n) by nia. destruct Hex; nia.
Qed.

Definition euclid_measure (n d : Z) : nat :=
  (Z.to_nat (Z.log2 (n * d)) + (if (n <? d)%Z then 1 else 0) + (if (d =? 0)%Z then 0 else 1))%nat.

Lemma euclid_measure_step n d : 0 <= n -> 0 < d -> (euclid_measure d (n mod d) < euclid_measure n d)%nat.
Proof.
  intros Hn Hd. unfold euclid_measure. rewrite (proj2 (Z.eqb_neq d 0)) by lia.
  assert (0 <= n mod d < d) by lia. rewrite (proj2 (Z.ltb_ge d (n mod d))) by lia.
  destruct (n mod d =? 0) eqn:Er; zbool.
  { rewrite Er, Z.mul_0_r. simpl. lia. }
  destruct (n <? d) eqn:El; zbool.
  - rewrite Z.mod_small by lia. rewrite (Z.mul_comm d n). lia.
  - pose proof (euclid_halves n d ltac:(lia) Er). pose proof (Z.log2_nonneg (d * (n mod d))). lia.
Qed.

Lemma rational_spec gn gd max_n max_d :
  is_u32 gn -> is_u32 gd -> 0 <= max_n -> 1 <= max_d ->
  exists p q, rational_best_approximation gn gd max_n max_d = Some (p, q) /\ approximates gn gd max_n max_d p q.
Proof.
  intros Hgn Hgd Hm1 Hm2. unfold rational_best_approximation.
  loop_with (fun '(n, d, n0, d0, n1, d1) => fraction gn gd max_n max_d n d n0 d0 n1 d1)
    (fun '(n, d, _, _, _, _) => euclid_measure n d)
    (fun '(p, q) => approximates gn gd max_n max_d p q) as ([p q] & -> & Hpq); [| | |eauto].
  - intros [[[[[n d] n0] d0] n1] d1] Hf. destruct ((max_n <? n1) || (max_d <? d1)) eqn:Ex.
    { apply orb_true_iff in Ex. eapply fraction_exceeds; [exact Hf|]. destruct Ex; zbool; auto. }
    apply orb_false_iff in Ex as [E1 E2]. zbool. pose proof (f_nonneg _ _ _ _ _ _ _ _ _ _ Hf) as (Hn & Hd & ? & ? & ? & ?).
    destruct (d =? 0) eqn:Ed; zbool.
    + subst d. destruct Hf as [_ Hnum Hden Hdet Hg _ _]. destruct (det_coprime _ _ _ _ Hdet) as [Hc _].
      rewrite Z.gcd_0_r in Hg. split_and!; [lia..|done|]. intros _ _. split; lia.
    + rewrite udiv_some, umod_some by lia. cbn [mbind option_bind].
      destruct (fraction_step _ _ _ _ _ _ _ _ _ _ Hf Hgn Hgd) as (-> & -> & Hf'); [lia..|].
      split; [done|]. apply euclid_measure_step; lia.
  - unfold is_u32 in *. split; try lia.
  - pose proof (log2_product gn gd Hgn Hgd). unfold euclid_measure. destruct (gn <? gd), (gd =? 0); lia.
Qed.

(** * The properties *)




(** C32: the 64-bit divisions: do_div (by __div64_32 above 32 bits) gives the exact quotient and
    remainder, div_s64_rem those of C's truncating division, iter_div_u64_rem the exact ones after
    as many iterations as the quotient; reciprocal_divide is exact for a divisor of at least 2 and a
    small dividend. div64_u64 is exact for divisors of 32 bits, and otherwise up to two too large:
    2^32 / (2^32 + 1) is 1; and the reciprocal of 1 is 0. gcd terminates and returns the greatest
    common divisor of two positive numbers, and divides by zero when one of them is 0; lcm is the
    least common multiple as long as the product fits the word, and wrong beyond (that of 65536 and
    65536 comes out as 0); int_sqrt is the floor of the square root of every word;
    rational_best_approximation terminates and returns a fraction in lowest terms within the limits,
    the given one itself if that fits, but the limits do not keep the denominator from being 0, as
    for 300 with a limit of 255. *)
Theorem arithmetic_correct :
  (forall n base x y D A B fuel,
    is_u64 n -> 0 < base < 4294967296 ->
      -9223372036854775808 <= x < 9223372036854775808 -> -2147483648 <= y < 2147483648 -> y <> 0 ->
      is_u64 D -> D <> 0 -> is_u32 A -> 2 <= B < 4294967296 -> A * (B - 1) < 4294967296 ->
      n / base < Z.of_nat fuel ->
      div_u64_rem n base = Some (n / base, n mod base) /\ div_u64_rem n 0 = None /\
      div_s64_rem x y = Some (s64 (Z.quot x y), Z.rem x y) /\
      iter_div_u64_rem fuel n base = Some (u32 (n / base), n mod base) /\
      (exists q, div64_u64 n D = Some q /\ n / D <= q <= n / D + 2 /\ (D < 4294967296 -> q = n / D)) /\
      div64_u64 4294967296 4294967297 = Some 1 /\
      (exists R, reciprocal_value B = Some R /\ reciprocal_divide A R = A / B) /\ reciprocal_value 1 = Some 0) /\
  (forall a b x gn gd max_n max_d,
    is_u32 a -> is_u32 b -> is_u32 x -> is_u32 gn -> is_u32 gd -> 0 <= max_n -> 1 <= max_d ->
      gcd a b = (if (a =? 0) || (b =? 0) then None else Some (Z.gcd a b)) /\
      (a <> 0 -> b <> 0 -> a * b < 4294967296 -> lcm a b = Some (Z.lcm a b)) /\
      lcm 65536 65536 = Some 0 /\
      (exists r, int_sqrt x = Some r /\ r = Z.sqrt x) /\
      (exists p q, rational_best_approximation gn gd max_n max_d = Some (p, q) /\ approximates gn gd max_n max_d p q) /\
      rational_best_approximation 300 1 255 31 = Some (1, 0)).
Proof.
  split.
  { intros n base x y D A B fuel.
    intros Hn Hb Hx Hy Hy0 HD HD0 HA HB HAB Hf. unfold div_u64_rem.
    split; [rewrite do_div_spec by (done || unfold is_u32; lia); by rewrite (proj2 (Z.eqb_neq base 0)) by lia|].
    split; [by rewrite do_div_spec by (done || unfold is_u32; lia)|].
    split; [by apply div_s64_rem_spec|]. split; [by apply iter_div_spec|].
    split; [by apply div64_u64_spec|]. split; [reflexivity|]. split; [by apply reciprocal_spec|reflexivity]. }
  { intros a b x gn gd max_n max_d.
    intros Ha Hb Hx Hgn Hgd Hm1 Hm2. split; [by apply gcd_spec|].
    split; [intros Ha0 Hb0; by apply lcm_spec|]. split; [reflexivity|].
    split; [|split; [by apply rational_spec|reflexivity]].
    destruct (int_sqrt_spec x Hx) as (r & -> & Hr & Hsq). exists r. split; [done|].
    symmetry. apply Z.sqrt_unique. lia. }
Qed.

Lemma arithmetic_correct_witness :
  (div_u64_rem 5000000007 4294967295 = Some (1, 705032712) /\ div_s64_rem (-7) 2 = Some (-3, -1) /\
    exists R, reciprocal_value 10 = Some R /\ reciprocal_divide 12345 R = 1234) /\
  (gcd 12 18 = Some 6 /\ lcm 4 6 = Some 12 /\ (exists r, int_sqrt 4294967295 = Some r /\ r = 65535)).
Proof.
  split.
  { destruct (proj1 arithmetic_correct 5000000007 4294967295 (-7) 2 3 12345 10 2%nat) as (H1 & _ & H2 & _ & _ & _ & H3 & _);
      [unfold is_u64, is_u32; simpl; lia..|].
    split; [rewrite H1; reflexivity|]. split; [rewrite H2; reflexivity|]. exact H3. }
  { destruct (proj2 arithmetic_correct 12 18 4294967295 31415 10000 255 31) as (H1 & _ & _ & H3 & _);
      try (unfold is_u32; lia).
    destruct (proj2 arithmetic_correct 4 6 4294967295 31415 10000 255 31) as (_ & H2 & _); try (unfold is_u32; lia).
    split; [rewrite H1; reflexivity|]. split; [rewrite H2 by lia; reflexivity|exact H3]. }
Defined.
