(* ===== verification/FindBit.v ===== *)
(** Single-bit operations on an array of unsigned longs (include/asm-generic/bitops/
    non-atomic.h) and the bit searches of lib/find_next_bit.c and lib/find_last_bit.c. *)

From S2P Require Import Prelude Word.
From Stdlib Require Import Lia Btauto.

(** * Definitions *)

Definition BIT_WORD (nr : Z) : Z := nr `quot` BITS_PER_LONG.

Definition BIT_MASK (nr : Z) : Z := ul_shl 1 (nr `rem` BITS_PER_LONG).

Definition set_bit (nr : Z) (addr : list Z) : option (list Z) :=
  w ← rd addr (BIT_WORD nr);
  wr addr (BIT_WORD nr) (Z.lor w (BIT_MASK nr)).

Definition clear_bit (nr : Z) (addr : list Z) : option (list Z) :=
  w ← rd addr (BIT_WORD nr);
  wr addr (BIT_WORD nr) (Z.land w (ul_not (BIT_MASK nr))).

Definition test_bit (nr : Z) (addr : list Z) : option bool :=
  w ← rd addr (BIT_WORD nr);
  Some (negb (Z.land 1 (Z.shiftr w (Z.land nr (BITS_PER_LONG - 1))) =? 0)).

(** lib/find_next_bit.c.  The labels [found_middle] and [found_first] are functions of the
    variables live at the jump. *)
Definition fnb_found_middle (result tmp : Z) : Z := u32 (result + __ffs tmp).

Definition fnb_found_first (result size tmp : Z) : Z :=
  let tmp := Z.land tmp (Z.shiftr ULONG_MAX (BITS_PER_LONG - size)) in
  if tmp =? 0 then u32 (result + size) else fnb_found_middle result tmp.

Definition fnb_scan (addr : list Z) (p result size : Z) : option Z :=
  loop (S (length addr)) (fun '(p, result, size) =>
    if Z.land size (ul_not (BITS_PER_LONG - 1)) =? 0 then
      if size =? 0 then Some (Ret result)
      else tmp ← rd addr p; Some (Ret (fnb_found_first result size tmp))
    else
      tmp ← rd addr p;
      if negb (tmp =? 0) then Some (Ret (fnb_found_middle result tmp))
      else Some (Next (p + 1, u32 (result + BITS_PER_LONG), u32 (size - BITS_PER_LONG))))
    (p, result, size).

Definition find_next_bit (addr : list Z) (size offset : Z) : option Z :=
  let p := offset / BITS_PER_LONG in
  let result := Z.land offset (ul_not (BITS_PER_LONG - 1)) in
  if size <=? offset then Some size
  else
    let size := u32 (size - result) in
    let offset := offset mod BITS_PER_LONG in
    if offset =? 0 then fnb_scan addr p result size
    else
      tmp ← rd addr p;
      let tmp := Z.land tmp (ul_shl ULONG_MAX offset) in
      if size <? BITS_PER_LONG then Some (fnb_found_first result size tmp)
      else if negb (tmp =? 0) then Some (fnb_found_middle result tmp)
      else fnb_scan addr (p + 1) (u32 (result + BITS_PER_LONG)) (u32 (size - BITS_PER_LONG)).

Definition fnz_found_middle (result tmp : Z) : Z := u32 (result + ffz tmp).

Definition fnz_found_first (result size tmp : Z) : Z :=
  let tmp := Z.lor tmp (ul_shl ULONG_MAX size) in
  if tmp =? ULONG_MAX then u32 (result + size) else fnz_found_middle result tmp.

Definition fnz_scan (addr : list Z) (p result size : Z) : option Z :=
  loop (S (length addr)) (fun '(p, result, size) =>
    if Z.land size (ul_not (BITS_PER_LONG - 1)) =? 0 then
      if size =? 0 then Some (Ret result)
      else tmp ← rd addr p; Some (Ret (fnz_found_first result size tmp))
    else
      tmp ← rd addr p;
      if negb (ul_not tmp =? 0) then Some (Ret (fnz_found_middle result tmp))
      else Some (Next (p + 1, u32 (result + BITS_PER_LONG), u32 (size - BITS_PER_LONG))))
    (p, result, size).

Definition find_next_zero_bit (addr : list Z) (size offset : Z) : option Z :=
  let p := offset / BITS_PER_LONG in
  let result := Z.land offset (ul_not (BITS_PER_LONG - 1)) in
  if size <=? offset then Some size
  else
    let size := u32 (size - result) in
    let offset := offset mod BITS_PER_LONG in
    if offset =? 0 then fnz_scan addr p result size
    else
      tmp ← rd addr p;
      let tmp := Z.lor tmp (Z.shiftr ULONG_MAX (BITS_PER_LONG - offset)) in
      if size <? BITS_PER_LONG then Some (fnz_found_first result size tmp)
      else if negb (ul_not tmp =? 0) then Some (fnz_found_middle result tmp)
      else fnz_scan addr (p + 1) (u32 (result + BITS_PER_LONG)) (u32 (size - BITS_PER_LONG)).

Definition find_first_bit (addr : list Z) (size : Z) : option Z :=
  loop (S (length addr)) (fun '(p, result, size) =>
    if Z.land size (ul_not (BITS_PER_LONG - 1)) =? 0 then
      if size =? 0 then Some (Ret result)
      else
        w ← rd addr p;
        let tmp := Z.land w (Z.shiftr ULONG_MAX (BITS_PER_LONG - size)) in
        if tmp =? 0 then Some (Ret (u32 (result + size)))
        else Some (Ret (u32 (result + __ffs tmp)))
    else
      tmp ← rd addr p;
      if negb (tmp =? 0) then Some (Ret (u32 (result + __ffs tmp)))
      else Some (Next (p + 1, u32 (result + BITS_PER_LONG), u32 (size - BITS_PER_LONG))))
    (0, 0, size).

Definition find_first_zero_bit (addr : list Z) (size : Z) : option Z :=
  loop (S (length addr)) (fun '(p, result, size) =>
    if Z.land size (ul_not (BITS_PER_LONG - 1)) =? 0 then
      if size =? 0 then Some (Ret result)
      else
        w ← rd addr p;
        let tmp := Z.lor w (ul_shl ULONG_MAX size) in
        if tmp =? ULONG_MAX then Some (Ret (u32 (result + size)))
        else Some (Ret (u32 (result + ffz tmp)))
    else
      tmp ← rd addr p;
      if negb (ul_not tmp =? 0) then Some (Ret (u32 (result + ffz tmp)))
      else Some (Next (p + 1, u32 (result + BITS_PER_LONG), u32 (size - BITS_PER_LONG))))
    (0, 0, size).

(** lib/find_last_bit.c.  The jump to [found] from the partial last word enters the loop body
    with the same [words]. *)
Definition find_last_bit (addr : list Z) (size : Z) : option Z :=
  let words := size / BITS_PER_LONG in
  let scan := loop (S (length addr)) (fun words =>
    if words =? 0 then Some (Ret size)
    else
      let words := words - 1 in
      tmp ← rd addr words;
      if negb (tmp =? 0) then Some (Ret (u32 (words * BITS_PER_LONG + __fls tmp)))
      else Some (Next words)) in
  if negb (Z.land size (BITS_PER_LONG - 1) =? 0) then
    w ← rd addr words;
    let tmp := Z.land w (Z.shiftr ULONG_MAX
                 (BITS_PER_LONG - Z.land size (BITS_PER_LONG - 1))) in
    if negb (tmp =? 0) then Some (u32 (words * BITS_PER_LONG + __fls tmp))
    else scan words
  else scan words.

(** The little-endian searches of a big-endian kernel. *)
Definition ext2_swab (y : Z) : Z := __swab32 y.

Definition gfn_le_scan (addr : list Z) (p result size : Z) : option Z :=
  loop (S (length addr)) (fun '(p, result, size) =>
    if Z.land size (ul_not (BITS_PER_LONG - 1)) =? 0 then
      if size =? 0 then Some (Ret result)
      else tmp ← rd addr p; Some (Ret (fnb_found_first result size (ext2_swab tmp)))
    else
      tmp ← rd addr p;
      if negb (tmp =? 0) then Some (Ret (u32 (result + __ffs (ext2_swab tmp))))
      else Some (Next (p + 1, u32 (result + BITS_PER_LONG), u32 (size - BITS_PER_LONG))))
    (p, result, size).

Definition generic_find_next_le_bit (addr : list Z) (size offset : Z) : option Z :=
  let p := offset / BITS_PER_LONG in
  let result := Z.land offset (ul_not (BITS_PER_LONG - 1)) in
  if size <=? offset then Some size
  else
    let size := u32 (size - result) in
    let offset := Z.land offset (BITS_PER_LONG - 1) in
    if offset =? 0 then gfn_le_scan addr p result size
    else
      w ← rd addr p;
      let tmp := ext2_swab w in
      let tmp := Z.land tmp (ul_shl ULONG_MAX offset) in
      if size <? BITS_PER_LONG then Some (fnb_found_first result size tmp)
      else if negb (tmp =? 0) then Some (fnb_found_middle result tmp)
      else gfn_le_scan addr (p + 1) (u32 (result + BITS_PER_LONG)) (u32 (size - BITS_PER_LONG)).

Definition gfnz_le_scan (addr : list Z) (p result size : Z) : option Z :=
  loop (S (length addr)) (fun '(p, result, size) =>
    if Z.land size (ul_not (BITS_PER_LONG - 1)) =? 0 then
      if size =? 0 then Some (Ret result)
      else tmp ← rd addr p; Some (Ret (fnz_found_first result size (ext2_swab tmp)))
    else
      tmp ← rd addr p;
      if negb (ul_not tmp =? 0) then Some (Ret (u32 (result + ffz (ext2_swab tmp))))
      else Some (Next (p + 1, u32 (result + BITS_PER_LONG), u32 (size - BITS_PER_LONG))))
    (p, result, size).

Definition generic_find_next_zero_le_bit (addr : list Z) (size offset : Z) : option Z :=
  let p := offset / BITS_PER_LONG in
  let result := Z.land offset (ul_not (BITS_PER_LONG - 1)) in
  if size <=? offset then Some size
  else
    let size := u32 (size - result) in
    let offset := Z.land offset (BITS_PER_LONG - 1) in
    if offset =? 0 then gfnz_le_scan addr p result size
    else
      w ← rd addr p;
      let tmp := ext2_swab w in
      let tmp := Z.lor tmp (Z.shiftr ULONG_MAX (BITS_PER_LONG - offset)) in
      if size <? BITS_PER_LONG then Some (fnz_found_first result size tmp)
      else if negb (ul_not tmp =? 0) then Some (fnz_found_middle result tmp)
      else gfnz_le_scan addr (p + 1) (u32 (result + BITS_PER_LONG)) (u32 (size - BITS_PER_LONG)).

(** * Specifications *)

(** The [i]-th bit of a bitmap. *)
Definition bit_at (addr : list Z) (i : Z) : bool :=
  Z.testbit (addr !!! Z.to_nat (i / 32)) (i mod 32).

(** An array of unsigned longs with room for [size] bits. *)
Definition bitmap_ok (addr : list Z) (size : Z) : Prop :=
  Forall is_u32 addr /\ 0 <= size <= 32 * Z.of_nat (length addr) /\ size < 4294967296.

(** [r] is the first position at or after [offset] where [b] holds, or [size]. *)
Definition is_next (b : Z -> bool) (size offset r : Z) : Prop :=
  if size <=? offset then r = size
  else offset <= r <= size /\ (forall i, offset <= i < r -> b i = false) /\
       (r < size -> b r = true).

(** [r] is the last position below [size] where [b] holds, or [size]. *)
Definition is_last (b : Z -> bool) (size r : Z) : Prop :=
  0 <= r <= size /\ (r < size -> b r = true) /\
  (forall i, 0 <= i < size -> b i = true -> r < size /\ i <= r).

(** * Words and bits of an array *)

Lemma bit_at_word addr p i :
  0 <= i < 32 -> bit_at addr (32 * p + i) = Z.testbit (addr !!! Z.to_nat p) i.
Proof.
  intros Hi. unfold bit_at. f_equal; [|lia]. do 2 f_equal. lia.
Qed.

Lemma land_not31 x : is_u32 x -> Z.land x (ul_not (BITS_PER_LONG - 1)) = 32 * (x / 32).
Proof.
  intros Hx.
  assert (ul_not (BITS_PER_LONG - 1) = ul_shl ULONG_MAX 5) as -> by reflexivity.
  transitivity (Z.shiftl (Z.shiftr x 5) 5);
    [|rewrite Z.shiftl_mul_pow2, Z.shiftr_div_pow2 by lia; change (2 ^ 5) with 32; lia].
  apply Z.bits_inj'. intros i Hi.
  rewrite Z.land_spec, mask_ge_spec, Z.shiftl_spec by lia.
  destruct (Z_lt_ge_dec i 5).
  - rewrite (Z.testbit_neg_r _ (i - 5)), bool_decide_eq_false_2 by lia. btauto.
  - rewrite Z.shiftr_spec by lia. replace (i - 5 + 5) with i by lia. case_bool_decide.
    + btauto.
    + rewrite is_u32_bits by (done || lia). done.
Qed.

Lemma land_31 x : Z.land x (BITS_PER_LONG - 1) = x mod 32.
Proof. change (BITS_PER_LONG - 1) with (Z.ones 5). by rewrite Z.land_ones. Qed.

(** What a search inside one masked word finds. *)
Lemma word_search addr p lo hi tmp :
  is_u32 tmp -> 0 <= lo <= hi -> hi <= 32 ->
  (forall i, 0 <= i < 32 ->
     Z.testbit tmp i = bool_decide (lo <= i < hi) && bit_at addr (32 * p + i)) ->
  (tmp = 0 -> forall i, 32 * p + lo <= i < 32 * p + hi -> bit_at addr i = false) /\
  (tmp <> 0 ->
     32 * p + lo <= 32 * p + __ffs tmp < 32 * p + hi /\
     bit_at addr (32 * p + __ffs tmp) = true /\
     forall i, 32 * p + lo <= i < 32 * p + __ffs tmp -> bit_at addr i = false).
Proof.
  intros Ht Hlo Hhi Hb. split.
  - intros -> i Hi. specialize (Hb (i - 32 * p) ltac:(lia)).
    rewrite Z.bits_0, bool_decide_eq_true_2 in Hb by lia.
    by replace (32 * p + (i - 32 * p)) with i in Hb by lia.
  - intros Hnz. destruct (ffs_first tmp Ht Hnz) as [(Hf0 & Hf1 & Hf2) Hf3].
    rewrite Hb in Hf1 by lia. apply andb_true_iff in Hf1 as [Hr Hf1].
    apply bool_decide_eq_true_1 in Hr. split; [lia|]. split; [done|].
    intros i Hi. specialize (Hf2 (i - 32 * p) ltac:(lia)).
    rewrite Hb, bool_decide_eq_true_2 in Hf2 by lia.
    by replace (32 * p + (i - 32 * p)) with i in Hf2 by lia.
Qed.

(** The invariant reached when the words before [p] hold no set bit from [off] on. *)
Definition searched (b : Z -> bool) (off pos : Z) : Prop :=
  forall i, off <= i < pos -> b i = false.

Lemma searched_app b off m n : searched b off m -> searched b m n -> searched b off n.
Proof. intros H1 H2 i Hi. destruct (Z_lt_ge_dec i m); [apply H1|apply H2]; lia. Qed.

(** The last, possibly partial, word. *)
Lemma found_first_spec addr total off p lo tmp :
  bitmap_ok addr total -> 0 <= p -> 0 <= lo ->
  off <= 32 * p + lo < total -> total - 32 * p <= 32 ->
  searched (bit_at addr) off (32 * p + lo) ->
  is_u32 tmp ->
  (forall i, 0 <= i < 32 -> Z.testbit tmp i = bool_decide (lo <= i) && bit_at addr (32 * p + i)) ->
  is_next (bit_at addr) total off (fnb_found_first (32 * p) (total - 32 * p) tmp).
Proof.
  intros (Hu & Hsz & Hlt) Hp Hlo Hoff Hsmall Hs Ht Hb. unfold is_next.
  rewrite (proj2 (Z.leb_gt _ _)) by lia. unfold fnb_found_first, fnb_found_middle, BITS_PER_LONG.
  set (hi := total - 32 * p) in *. set (t := Z.land tmp _).
  destruct (word_search addr p lo hi t) as [Hz Hnz]; [|lia|lia| |].
  { apply is_u32_land; [done|]. apply is_u32_shiftr; [apply is_u32_max|lia]. }
  { intros i Hi. subst t. rewrite Z.land_spec, mask_lt_spec, Hb by lia.
    repeat case_bool_decide; lia || btauto. }
  dcase.
  - rewrite u32_small by (unfold is_u32; lia). replace (32 * p + hi) with total by lia.
    split; [lia|]. split; [|lia]. eapply searched_app; [exact Hs|].
    replace total with (32 * p + hi) by lia. exact (Hz Heqb).
  - destruct (Hnz Heqb) as (H1 & H2 & H3). rewrite u32_small by (unfold is_u32; lia).
    split; [lia|]. split; [|done]. by eapply searched_app.
Qed.

(** A full word with a set bit. *)
Lemma found_middle_spec addr total off p lo tmp :
  bitmap_ok addr total -> 0 <= p -> 0 <= lo < 32 ->
  off <= 32 * p + lo -> 32 * p + 32 <= total ->
  searched (bit_at addr) off (32 * p + lo) ->
  is_u32 tmp ->
  (forall i, 0 <= i < 32 -> Z.testbit tmp i = bool_decide (lo <= i) && bit_at addr (32 * p + i)) ->
  (tmp <> 0 -> is_next (bit_at addr) total off (fnb_found_middle (32 * p) tmp)) /\
  (tmp = 0 -> searched (bit_at addr) off (32 * (p + 1))).
Proof.
  intros (Hu & Hsz & Hlt) Hp Hlo Hoff Hbig Hs Ht Hb.
  destruct (word_search addr p lo 32 tmp) as [Hz Hnz]; [done|lia|lia| |].
  { intros i Hi. rewrite Hb by lia. repeat case_bool_decide; lia || done. }
  split.
  - intros Hne. destruct (Hnz Hne) as (H1 & H2 & H3).
    unfold is_next. rewrite (proj2 (Z.leb_gt _ _)) by lia. unfold fnb_found_middle.
    rewrite u32_small by (unfold is_u32; lia). split; [lia|]. split; [|done].
    by eapply searched_app.
  - intros He. eapply searched_app; [exact Hs|].
    replace (32 * (p + 1)) with (32 * p + 32) by lia. exact (Hz He).
Qed.

Lemma rd_word addr total p :
  bitmap_ok addr total -> 0 <= p -> 32 * p < total ->
  rd addr p = Some (addr !!! Z.to_nat p) /\ is_u32 (addr !!! Z.to_nat p).
Proof.
  intros (Hu & Hsz & Hlt) Hp Ht.
  split; [apply rd_total; lia|apply Forall_total; [done|lia]].
Qed.

Lemma fnb_scan_spec addr total off p :
  bitmap_ok addr total -> 0 <= p -> 32 * p <= total -> off <= 32 * p -> off < total ->
  searched (bit_at addr) off (32 * p) ->
  exists r, fnb_scan addr p (32 * p) (total - 32 * p) = Some r /\
            is_next (bit_at addr) total off r.
Proof.
  intros Hok Hp Hle Hoff Hot Hs. pose proof Hok as (Hu & Hsz & Hlt). unfold fnb_scan.
  apply (loop_rule
    (fun '(p, result, size) => 0 <= p /\ result = 32 * p /\ size = total - 32 * p /\ 0 <= size /\
       off <= 32 * p /\ searched (bit_at addr) off (32 * p))
    (fun '(p, result, size) => Z.to_nat (size / 32))).
  - clear p Hp Hle Hoff Hs. intros [[p result] size] (Hp & -> & -> & Hsize & Hoff & Hs).
    rewrite land_not31 by (unfold is_u32; lia). dcase; [dcase|].
    + unfold is_next. rewrite (proj2 (Z.leb_gt _ _)) by lia.
      split; [lia|]. split; [exact Hs|lia].
    + destruct (rd_word addr total p) as [-> Hw]; [done|lia|lia|]. simpl.
      apply (found_first_spec _ _ _ _ 0); rewrite ?Z.add_0_r; [done|lia|lia|lia|lia|done|done|].
      intros i Hi. rewrite bit_at_word, bool_decide_eq_true_2 by lia. done.
    + destruct (rd_word addr total p) as [-> Hw]; [done|lia|lia|]. simpl.
      destruct (found_middle_spec addr total off p 0 (addr !!! Z.to_nat p)) as [Hnz Hz];
        rewrite ?Z.add_0_r; [done|lia|lia|lia|lia|done|done| |].
      { intros i Hi. rewrite bit_at_word, bool_decide_eq_true_2 by lia. done. }
      dcase; [by apply Hnz|].
      unfold BITS_PER_LONG. rewrite !u32_small by (unfold is_u32; lia).
      split; [|lia]. repeat (split; [lia|]). auto.
  - repeat (split; [lia|]). done.
  - lia.
Qed.

Lemma find_next_bit_spec addr size offset :
  bitmap_ok addr size -> is_u32 offset ->
  exists r, find_next_bit addr size offset = Some r /\ is_next (bit_at addr) size offset r.
Proof.
  intros Hok Ho. pose proof Hok as (Hu & Hsz & Hlt). unfold find_next_bit.
  dcase; [exists size; split; [done|]; unfold is_next; by rewrite (proj2 (Z.leb_le _ _)) by lia|].
  destruct Ho as [Ho1 Ho2]. rewrite land_not31 by done. unfold BITS_PER_LONG.
  rewrite (u32_small (size - _)) by (unfold is_u32; lia).
  set (p := offset / 32). set (lo := offset mod 32).
  assert (offset = 32 * p + lo) as Eo by lia.
  assert (0 <= lo < 32) by lia. assert (0 <= p) by lia. clearbody p lo. dcase.
  { apply fnb_scan_spec; [done|lia..|]. intros i Hi. lia. }
  destruct (rd_word addr size p) as [-> Hw]; [done|lia|lia|]. simpl.
  set (tmp := Z.land _ _).
  assert (forall i, 0 <= i < 32 ->
    Z.testbit tmp i = bool_decide (lo <= i) && bit_at addr (32 * p + i)) as Hb.
  { intros i Hi. subst tmp. rewrite Z.land_spec, mask_ge_spec, bit_at_word by lia.
    repeat case_bool_decide; lia || btauto. }
  assert (is_u32 tmp) as Ht by (apply is_u32_land; auto with kernel).
  assert (searched (bit_at addr) offset (32 * p + lo)) as Hs by (intros i Hi; lia).
  dcase; [|dcase].
  - eexists; split; [done|]. apply found_first_spec with (lo := lo); done || lia.
  - eexists; split; [done|]. eapply found_middle_spec with (lo := lo); done || lia.
  - rewrite !u32_small by (unfold is_u32; lia).
    replace (32 * p + 32) with (32 * (p + 1)) by lia.
    replace (size - 32 * p - 32) with (size - 32 * (p + 1)) by lia.
    apply fnb_scan_spec; [done|lia..|]. eapply found_middle_spec with (lo := lo); done || lia.
Qed.

Lemma find_first_scan addr size : find_first_bit addr size = fnb_scan addr 0 0 size.
Proof.
  apply (loop_ext (fun _ => True)); [|done]. intros [[p r] s] _. split; [|done].
  dcase; [dcase|]; destruct (rd addr p) as [w|]; try done. cbn.
  unfold fnb_found_first, fnb_found_middle. by destruct (_ =? 0).
Qed.

Lemma find_first_bit_spec addr size :
  bitmap_ok addr size ->
  exists r, find_first_bit addr size = Some r /\ is_next (bit_at addr) size 0 r.
Proof.
  intros Hok. pose proof Hok as (Hu & Hsz & Hlt). rewrite find_first_scan.
  destruct (decide (size = 0)) as [->|].
  - exists 0. done.
  - destruct (fnb_scan_spec addr size 0 0) as (r & Hr & Hn); [done|lia..| |].
    { intros i Hi. lia. }
    exists r. split; [|done]. by rewrite Z.mul_0_r, Z.sub_0_r in Hr.
Qed.

(** * Searching for a zero is searching the complement *)

Lemma ul_not_invol x : ul_not (ul_not x) = x.
Proof. unfold ul_not. lia. Qed.

Lemma ul_not_zero x : (ul_not x =? 0) = (x =? ULONG_MAX).
Proof. unfold ul_not, ULONG_MAX. apply eq_true_iff_eq. rewrite !Z.eqb_eq. lia. Qed.

Lemma ul_not_lor x y :
  is_u32 x -> is_u32 y -> ul_not (Z.lor x y) = Z.land (ul_not x) (ul_not y).
Proof.
  intros Hx Hy. apply u32_bits_inj; auto 6 with kernel. intros i Hi.
  rewrite Z.land_spec, !ul_not_spec, Z.lor_spec by (auto with kernel; lia).
  rewrite bool_decide_eq_true_2 by lia. btauto.
Qed.

Lemma ul_not_mask n : 0 <= n <= 32 -> ul_not (ul_shl ULONG_MAX n) = Z.shiftr ULONG_MAX (32 - n).
Proof.
  intros Hn. apply u32_bits_inj; [auto with kernel|apply is_u32_shiftr; auto with kernel; lia|].
  intros i Hi. rewrite ul_not_spec, mask_ge_spec, mask_lt_spec by (auto with kernel; lia).
  repeat case_bool_decide; lia || done.
Qed.

Lemma fnz_found_first_not r size tmp :
  0 <= size < 32 -> is_u32 tmp ->
  fnz_found_first r size tmp = fnb_found_first r size (ul_not tmp).
Proof.
  intros Hs Ht. unfold fnz_found_first, fnb_found_first, fnz_found_middle, fnb_found_middle, ffz.
  rewrite <- ul_not_zero, ul_not_lor, ul_not_mask by (auto with kernel; lia). done.
Qed.

Lemma fnz_scan_not addr p r size :
  Forall is_u32 addr -> is_u32 size ->
  fnz_scan addr p r size = fnb_scan (ul_not <$> addr) p r size.
Proof.
  intros Hu Hs. unfold fnz_scan, fnb_scan. rewrite length_fmap.
  apply (loop_ext (fun '(_, _, size) => is_u32 size)); [|done].
  clear p r size Hs. intros [[p r] size] Hs. rewrite rd_fmap.
  rewrite land_not31 by done. destruct Hs as [Hs1 Hs2].
  destruct (rd addr p) as [w|] eqn:Hw; simpl.
  - pose proof (rd_Forall _ _ _ _ Hu Hw). dcase; [dcase|].
    + done.
    + split; [|done]. by rewrite fnz_found_first_not by (done || lia).
    + split; [done|]. intros s'. dcase; [done|]. intros. simplify_eq. auto with kernel.
  - dcase; [dcase|]; done.
Qed.

Lemma find_next_zero_bit_not addr size offset :
  bitmap_ok addr size -> is_u32 offset ->
  find_next_zero_bit addr size offset = find_next_bit (ul_not <$> addr) size offset.
Proof.
  intros (Hu & Hsz & Hlt) Ho. unfold find_next_zero_bit, find_next_bit. dcase; [done|].
  rewrite land_not31 by done. unfold is_u32 in Ho. rewrite rd_fmap.
  dcase; [by apply fnz_scan_not; auto with kernel|].
  destruct (rd addr _) as [w|] eqn:Hw; [simpl|done].
  pose proof (rd_Forall _ _ _ _ Hu Hw) as Hwu. unfold BITS_PER_LONG in *.
  assert (0 <= offset mod 32 < 32) by lia. set (lo := offset mod 32) in *. clearbody lo.
  assert (ul_not (Z.lor w (Z.shiftr ULONG_MAX (32 - lo))) =
          Z.land (ul_not w) (ul_shl ULONG_MAX lo)) as E.
  { rewrite ul_not_lor, <- (ul_not_mask lo), ul_not_invol; auto with kernel; try lia.
    apply is_u32_shiftr; auto with kernel; lia. }
  dcase.
  - rewrite fnz_found_first_not, E; [done|pose proof (u32_is_u32 (size - 32 * (offset / 32)));
      unfold is_u32 in *; lia|].
    apply is_u32_lor; [done|]. apply is_u32_shiftr; auto with kernel; lia.
  - unfold fnz_found_middle, fnb_found_middle, ffz. rewrite E. dcase; [done|].
    apply fnz_scan_not; auto with kernel.
Qed.

Lemma bitmap_ok_not addr size : bitmap_ok addr size -> bitmap_ok (ul_not <$> addr) size.
Proof.
  intros (Hu & Hsz & Hlt). split; [|by rewrite length_fmap].
  apply Forall_fmap. eapply Forall_impl; [|exact Hu]. intros x Hx. by apply is_u32_not.
Qed.

Lemma bit_at_fmap (f : Z -> Z) addr i :
  0 <= i < 32 * Z.of_nat (length addr) ->
  bit_at (f <$> addr) i = Z.testbit (f (addr !!! Z.to_nat (i / 32))) (i mod 32).
Proof.
  intros Hi. unfold bit_at. by rewrite (list_lookup_total_fmap f) by lia.
Qed.

Lemma bit_at_not addr i :
  Forall is_u32 addr -> 0 <= i < 32 * Z.of_nat (length addr) ->
  bit_at (ul_not <$> addr) i = negb (bit_at addr i).
Proof.
  intros Hu Hi. rewrite bit_at_fmap by lia.
  rewrite ul_not_spec by (try apply Forall_total; done || lia).
  by rewrite bool_decide_eq_true_2 by lia.
Qed.

Lemma is_next_ext b b' size offset r :
  0 <= offset -> (forall i, 0 <= i < size -> b i = b' i) ->
  is_next b size offset r -> is_next b' size offset r.
Proof.
  unfold is_next. intros Ho Hb. dcase; [done|]. intros (H1 & H2 & H3).
  split; [done|]. split.
  - intros i Hi. rewrite <- Hb by lia. auto.
  - intros Hr. rewrite <- Hb by lia. auto.
Qed.

Lemma find_next_zero_bit_spec addr size offset :
  bitmap_ok addr size -> is_u32 offset ->
  exists r, find_next_zero_bit addr size offset = Some r /\
            is_next (fun i => negb (bit_at addr i)) size offset r.
Proof.
  intros Hok Ho. rewrite find_next_zero_bit_not by done.
  destruct (find_next_bit_spec (ul_not <$> addr) size offset) as (r & Hr & Hn);
    [by apply bitmap_ok_not|done|].
  exists r. split; [done|]. destruct Ho. eapply is_next_ext; [done| |exact Hn].
  intros i Hi. destruct Hok as (? & ? & ?). apply bit_at_not; [done|lia].
Qed.

Lemma find_first_zero_bit_spec addr size :
  bitmap_ok addr size ->
  exists r, find_first_zero_bit addr size = Some r /\
            is_next (fun i => negb (bit_at addr i)) size 0 r.
Proof.
  intros Hok.
  assert (find_first_zero_bit addr size = fnz_scan addr 0 0 size) as ->.
  { apply (loop_ext (fun _ => True)); [|done]. intros [[p r] s] _. split; [|done].
    dcase; [dcase|]; destruct (rd addr p) as [w|]; try done. cbn.
    unfold fnz_found_first, fnz_found_middle. by destruct (_ =? ULONG_MAX). }
  pose proof Hok as (Hu & Hsz & Hlt).
  rewrite fnz_scan_not, <- find_first_scan by (done || unfold is_u32; lia).
  destruct (find_first_bit_spec (ul_not <$> addr) size) as (r & Hr & Hn);
    [by apply bitmap_ok_not|].
  exists r. split; [done|]. eapply is_next_ext; [done| |exact Hn].
  intros i Hi. apply bit_at_not; [done|lia].
Qed.

(** * The last set bit *)

Lemma bit_log2_word w i : is_u32 w -> 0 <= i -> Z.testbit w i = true -> i <= Z.log2 w < 32.
Proof.
  intros [H1 H2] Hi Hb. assert (w <> 0) by (by eapply testbit_nonzero). split.
  - destruct (Z_le_gt_dec i (Z.log2 w)); [done|].
    rewrite Z.bits_above_log2 in Hb by lia. done.
  - apply Z.log2_lt_pow2; [lia|exact H2].
Qed.

(** A word whose set bits below [hi] include the last one of the map. *)
Lemma last_in_word addr size words hi tmp :
  bitmap_ok addr size -> 0 <= words -> 0 <= hi <= 32 -> 32 * words + hi <= size ->
  (forall i, 32 * words + hi <= i < size -> bit_at addr i = false) ->
  is_u32 tmp ->
  (forall i, 0 <= i < 32 -> Z.testbit tmp i = bool_decide (i < hi) && bit_at addr (32 * words + i)) ->
  (tmp <> 0 -> is_last (bit_at addr) size (u32 (words * BITS_PER_LONG + __fls tmp))) /\
  (tmp = 0 -> forall i, 32 * words <= i < size -> bit_at addr i = false).
Proof.
  intros (Hu & Hsz & Hlt) Hw Hhi Hle Habove Ht Hb. unfold BITS_PER_LONG. split.
  - intros Hnz. rewrite fls_log2 by done. destruct Ht as [Ht1 Ht2].
    assert (Z.testbit tmp (Z.log2 tmp) = true) as Hl by (apply Z.bit_log2; lia).
    pose proof (Z.log2_nonneg tmp).
    assert (Z.log2 tmp < 32) by (apply Z.log2_lt_pow2; [lia|exact Ht2]).
    rewrite Hb in Hl by lia. apply andb_true_iff in Hl as [Hl1 Hl2].
    apply bool_decide_eq_true_1 in Hl1. rewrite u32_small by (unfold is_u32; lia).
    replace (words * 32) with (32 * words) by lia. split; [lia|]. split; [done|].
    intros i Hi Hbi. split; [lia|].
    destruct (Z_le_gt_dec i (32 * words + Z.log2 tmp)); [done|].
    destruct (Z_lt_ge_dec i (32 * words + hi)); [|rewrite Habove in Hbi by lia; done].
    specialize (Hb (i - 32 * words) ltac:(lia)).
    replace (32 * words + (i - 32 * words)) with i in Hb by lia.
    rewrite Hbi, bool_decide_eq_true_2, Z.bits_above_log2 in Hb by lia. done.
  - intros -> i Hi. destruct (Z_lt_ge_dec i (32 * words + hi)); [|apply Habove; lia].
    specialize (Hb (i - 32 * words) ltac:(lia)).
    replace (32 * words + (i - 32 * words)) with i in Hb by lia.
    by rewrite Z.bits_0, bool_decide_eq_true_2 in Hb by lia.
Qed.

Lemma find_last_bit_spec addr size :
  bitmap_ok addr size ->
  exists r, find_last_bit addr size = Some r /\ is_last (bit_at addr) size r.
Proof.
  intros Hok. pose proof Hok as (Hu & Hsz & Hlt). unfold find_last_bit.
  set (scan := loop _ _).
  assert (forall words, 0 <= words -> 32 * words <= size ->
    (forall i, 32 * words <= i < size -> bit_at addr i = false) ->
    exists r, scan words = Some r /\ is_last (bit_at addr) size r) as Hscan.
  { intros words Hw Hle Ha. subst scan.
    apply (loop_rule (fun words => 0 <= words /\ 32 * words <= size /\
      forall i, 32 * words <= i < size -> bit_at addr i = false) (fun w => Z.to_nat w));
      [|done|lia].
    clear words Hw Hle Ha. intros words (Hw & Hle & Ha). dcase.
    - subst words. split; [lia|]. split; [lia|]. intros i Hi Hb. rewrite Ha in Hb by lia. done.
    - destruct (rd_word addr size (words - 1)) as [-> Hwu]; [done|lia|lia|]. simpl.
      destruct (last_in_word addr size (words - 1) 32 (addr !!! Z.to_nat (words - 1)))
        as [Hnz Hz]; [done|lia|lia|lia|intros; apply Ha; lia|done| |].
      { intros i Hi. rewrite bool_decide_eq_true_2, bit_at_word by lia. done. }
      dcase; [by apply Hnz|]. split; [|lia]. split; [lia|]. split; [lia|]. auto. }
  rewrite !land_31. unfold BITS_PER_LONG. dcase; [|apply Hscan; intros; lia].
  destruct (rd_word addr size (size / 32)) as [-> Hwu]; [done|lia|lia|]. simpl.
  set (hi := size mod 32) in *. set (words := size / 32) in *.
  assert (size = 32 * words + hi) by lia. assert (0 <= hi < 32) by lia.
  destruct (last_in_word addr size words hi
    (Z.land (addr !!! Z.to_nat words) (Z.shiftr ULONG_MAX (32 - hi)))) as [Hnz Hz];
    [done|lia|lia|lia|intros; lia| | |].
  { apply is_u32_land; [done|]. apply is_u32_shiftr; auto with kernel; lia. }
  { intros i Hi. rewrite Z.land_spec, mask_lt_spec, bit_at_word by lia. btauto. }
  dcase.
  - eexists. split; [done|]. by apply Hnz.
  - apply Hscan; [lia|lia|]. auto.
Qed.

(** * Little-endian searches on a big-endian machine *)

(** The bit of the native array that holds little-endian bit [i]. *)
Definition le_pos (i : Z) : Z := 32 * (i / 32) + 8 * (3 - i mod 32 / 8) + i mod 8.

Lemma byte_mask_spec k i :
  0 <= k -> 0 <= i -> Z.testbit (Z.shiftl (Z.ones 8) k) i = bool_decide (k <= i < k + 8).
Proof.
  intros Hk Hi. rewrite Z.shiftl_spec by lia. case_bool_decide.
  - apply Z.ones_spec_low. lia.
  - destruct (Z_lt_ge_dec i k); [by apply Z.testbit_neg_r; lia|]. apply Z.ones_spec_high. lia.
Qed.

Lemma swab32_spec x i :
  is_u32 x -> 0 <= i < 32 -> Z.testbit (__swab32 x) i = Z.testbit x (8 * (3 - i / 8) + i mod 8).
Proof.
  intros Hx Hi. unfold __swab32.
  change 0x000000ff with (Z.shiftl (Z.ones 8) 0). change 0x0000ff00 with (Z.shiftl (Z.ones 8) 8).
  change 0x00ff0000 with (Z.shiftl (Z.ones 8) 16).
  change 0xff000000 with (Z.shiftl (Z.ones 8) 24).
  rewrite !Z.lor_spec, !ul_shl_spec, !Z.shiftr_spec, !Z.land_spec by lia.
  rewrite (bool_decide_eq_true_2 (i < 32)) by lia.
  rewrite (byte_mask_spec 16), (byte_mask_spec 24) by lia.
  assert (i < 8 \/ 8 <= i < 16 \/ 16 <= i < 24 \/ 24 <= i) as [?|[?|[?|?]]] by lia.
  - rewrite (Z.testbit_neg_r _ (i - 24)), (Z.testbit_neg_r _ (i - 8)) by lia.
    rewrite bool_decide_eq_false_2, bool_decide_eq_true_2 by lia.
    replace (8 * (3 - i / 8) + i mod 8) with (i + 24) by lia. btauto.
  - rewrite (Z.testbit_neg_r _ (i - 24)), (byte_mask_spec 8) by lia.
    rewrite bool_decide_eq_false_2, bool_decide_eq_true_2, bool_decide_eq_false_2 by lia.
    replace (8 * (3 - i / 8) + i mod 8) with (i + 8) by lia. btauto.
  - rewrite (Z.testbit_neg_r _ (i - 24)), (byte_mask_spec 8) by lia.
    rewrite bool_decide_eq_true_2, !bool_decide_eq_false_2 by lia.
    replace (8 * (3 - i / 8) + i mod 8) with (i - 8) by lia. btauto.
  - rewrite (byte_mask_spec 0), (byte_mask_spec 8) by lia.
    rewrite bool_decide_eq_true_2, !bool_decide_eq_false_2 by lia.
    replace (8 * (3 - i / 8) + i mod 8) with (i - 24) by lia. btauto.
Qed.

Lemma is_u32_swab x : is_u32 x -> is_u32 (ext2_swab x).
Proof.
  intros Hx. unfold ext2_swab, __swab32.
  repeat apply is_u32_lor; auto with kernel; apply is_u32_shiftr; try lia;
    apply is_u32_land; auto; unfold is_u32; lia.
Qed.

Lemma swab_zero x : is_u32 x -> (ext2_swab x =? 0) = (x =? 0).
Proof.
  intros Hx. apply eq_true_iff_eq. rewrite !Z.eqb_eq.
  rewrite !u32_zero_bits by auto using is_u32_swab. unfold ext2_swab. split; intros H i Hi.
  - specialize (H (8 * (3 - i / 8) + i mod 8) ltac:(lia)).
    rewrite swab32_spec in H by (done || lia).
    by replace (8 * (3 - _ / 8) + _ mod 8) with i in H by lia.
  - rewrite swab32_spec by (done || lia). apply H. lia.
Qed.

Lemma swab_not x : is_u32 x -> ext2_swab (ul_not x) = ul_not (ext2_swab x).
Proof.
  intros Hx. apply u32_bits_inj; auto using is_u32_swab, is_u32_not. intros i Hi.
  unfold ext2_swab. rewrite swab32_spec, !ul_not_spec by (auto using is_u32_not; try lia;
    by apply is_u32_swab).
  rewrite swab32_spec by (done || lia). by rewrite !bool_decide_eq_true_2 by lia.
Qed.

Lemma gfn_le_scan_swab addr p r size :
  Forall is_u32 addr -> gfn_le_scan addr p r size = fnb_scan (ext2_swab <$> addr) p r size.
Proof.
  intros Hu. unfold gfn_le_scan, fnb_scan. rewrite length_fmap.
  apply (loop_ext (fun _ => True)); [|done]. intros [[p' r'] s'] _. split; [|done].
  rewrite rd_fmap. destruct (rd addr p') as [w|] eqn:Hw; simpl; [|by repeat dcase].
  by rewrite swab_zero by (by eapply rd_Forall).
Qed.

Lemma gfnz_le_scan_swab addr p r size :
  Forall is_u32 addr -> gfnz_le_scan addr p r size = fnz_scan (ext2_swab <$> addr) p r size.
Proof.
  intros Hu. unfold gfnz_le_scan, fnz_scan. rewrite length_fmap.
  apply (loop_ext (fun _ => True)); [|done]. intros [[p' r'] s'] _. split; [|done].
  rewrite rd_fmap. destruct (rd addr p') as [w|] eqn:Hw; simpl; [|by repeat dcase].
  assert (is_u32 w) by (by eapply rd_Forall).
  rewrite <- swab_not, swab_zero by auto with kernel. done.
Qed.

Lemma generic_find_next_le_bit_swab addr size offset :
  Forall is_u32 addr ->
  generic_find_next_le_bit addr size offset = find_next_bit (ext2_swab <$> addr) size offset.
Proof.
  intros Hu. unfold generic_find_next_le_bit, find_next_bit. rewrite land_31, rd_fmap. unfold BITS_PER_LONG.
  dcase; [done|]. dcase; [by apply gfn_le_scan_swab|].
  destruct (rd addr _) as [w|] eqn:Hw; simpl; [|done]. repeat dcase; try done.
  by apply gfn_le_scan_swab.
Qed.

Lemma generic_find_next_zero_le_bit_swab addr size offset :
  Forall is_u32 addr ->
  generic_find_next_zero_le_bit addr size offset =
  find_next_zero_bit (ext2_swab <$> addr) size offset.
Proof.
  intros Hu. unfold generic_find_next_zero_le_bit, find_next_zero_bit. rewrite land_31, rd_fmap. unfold BITS_PER_LONG.
  dcase; [done|]. dcase; [by apply gfnz_le_scan_swab|].
  destruct (rd addr _) as [w|] eqn:Hw; simpl; [|done]. repeat dcase; try done.
  by apply gfnz_le_scan_swab.
Qed.

Lemma bitmap_ok_swab addr size : bitmap_ok addr size -> bitmap_ok (ext2_swab <$> addr) size.
Proof.
  intros (Hu & Hsz & Hlt). split; [|by rewrite length_fmap].
  apply Forall_fmap. eapply Forall_impl; [|exact Hu]. intros x Hx. by apply is_u32_swab.
Qed.

Lemma bit_at_swab addr i :
  Forall is_u32 addr -> 0 <= i < 32 * Z.of_nat (length addr) ->
  bit_at (ext2_swab <$> addr) i = bit_at addr (le_pos i).
Proof.
  intros Hu Hi. rewrite bit_at_fmap by lia. unfold ext2_swab.
  rewrite swab32_spec by (try apply Forall_total; done || lia).
  unfold bit_at, le_pos. f_equal; [|lia]. do 2 f_equal. lia.
Qed.

(** * Single bits *)

Lemma bit_mask_spec nr i :
  0 <= nr -> 0 <= i < 32 -> Z.testbit (BIT_MASK nr) i = bool_decide (i = nr mod 32).
Proof.
  intros Hn Hi. unfold BIT_MASK, BITS_PER_LONG. rewrite ul_shl_spec by lia.
  rewrite Z.rem_mod_nonneg, bool_decide_eq_true_2 by lia. simpl. case_bool_decide.
  - subst i. by rewrite Z.sub_diag.
  - change 1 with (2 ^ 0). apply Z.pow2_bits_false. lia.
Qed.

Lemma BIT_WORD_div nr : 0 <= nr -> BIT_WORD nr = nr / 32.
Proof. intros. unfold BIT_WORD, BITS_PER_LONG. by rewrite Z.quot_div_nonneg by lia. Qed.

Lemma bit_at_insert addr p w i :
  0 <= p < Z.of_nat (length addr) -> 0 <= i ->
  bit_at (<[Z.to_nat p := w]> addr) i =
  if bool_decide (i / 32 = p) then Z.testbit w (i mod 32) else bit_at addr i.
Proof.
  intros Hp Hi. unfold bit_at. case_bool_decide.
  - subst p. rewrite list_lookup_total_insert_eq by lia. done.
  - rewrite list_lookup_total_insert_ne by lia. done.
Qed.

Lemma test_bit_spec nr addr :
  0 <= nr < 32 * Z.of_nat (length addr) -> test_bit nr addr = Some (bit_at addr nr).
Proof.
  intros Hn. unfold test_bit. rewrite BIT_WORD_div by lia. rewrite rd_total by lia. simpl.
  rewrite land_31, (Z.land_comm 1). change 1 with (Z.ones 1) at 1. rewrite Z.land_ones by lia.
  change (2 ^ 1) with 2. rewrite Zmod_odd, <- Z.bit0_odd, Z.shiftr_spec by lia. simpl.
  unfold bit_at. by destruct (Z.testbit _ _).
Qed.

Lemma set_bit_spec nr addr :
  Forall is_u32 addr -> 0 <= nr < 32 * Z.of_nat (length addr) ->
  exists addr', set_bit nr addr = Some addr' /\ length addr' = length addr /\
    Forall is_u32 addr' /\
    forall i, 0 <= i -> bit_at addr' i = bool_decide (i = nr) || bit_at addr i.
Proof.
  intros Hu Hn. unfold set_bit. rewrite BIT_WORD_div by lia. rewrite rd_total by lia. simpl.
  rewrite wr_Some by lia. eexists. split; [done|]. split; [apply length_insert|]. split.
  - apply Forall_insert_total; [done|]. apply is_u32_lor; [|apply is_u32_shl].
    apply Forall_total; [done|lia].
  - intros i Hi. rewrite bit_at_insert by lia. case_bool_decide.
    + rewrite Z.lor_spec, bit_mask_spec by lia. unfold bit_at. rewrite H.
      rewrite (bool_decide_ext (i mod 32 = nr mod 32) (i = nr)) by lia. btauto.
    + rewrite bool_decide_eq_false_2 by (intros ->; done). done.
Qed.

Lemma clear_bit_spec nr addr :
  Forall is_u32 addr -> 0 <= nr < 32 * Z.of_nat (length addr) ->
  exists addr', clear_bit nr addr = Some addr' /\ length addr' = length addr /\
    Forall is_u32 addr' /\
    forall i, 0 <= i -> bit_at addr' i = negb (bool_decide (i = nr)) && bit_at addr i.
Proof.
  intros Hu Hn. unfold clear_bit. rewrite BIT_WORD_div by lia. rewrite rd_total by lia. simpl.
  rewrite wr_Some by lia. eexists. split; [done|]. split; [apply length_insert|]. split.
  - apply Forall_insert_total; [done|]. apply is_u32_land; [|apply is_u32_not, is_u32_shl].
    apply Forall_total; [done|lia].
  - intros i Hi. rewrite bit_at_insert by lia. case_bool_decide.
    + rewrite Z.land_spec, ul_not_spec, bit_mask_spec by (try apply is_u32_shl; lia).
      unfold bit_at. rewrite H, (bool_decide_eq_true_2 (i mod 32 < 32)) by lia.
      rewrite (bool_decide_ext (i mod 32 = nr mod 32) (i = nr)) by lia. btauto.
    + rewrite bool_decide_eq_false_2 by (intros ->; done). done.
Qed.

(** * Properties *)

(** The little-endian searches are the plain ones on the byte-swapped words. *)
Lemma find_next_le_spec addr size offset :
  bitmap_ok addr size -> is_u32 offset ->
  (exists r, generic_find_next_le_bit addr size offset = Some r /\
             is_next (fun i => bit_at addr (le_pos i)) size offset r) /\
  (exists r, generic_find_next_zero_le_bit addr size offset = Some r /\
             is_next (fun i => negb (bit_at addr (le_pos i))) size offset r).
Proof.
  intros Hok Ho. pose proof Hok as (Hu & Hsz & Hlt). pose proof (bitmap_ok_swab _ _ Hok) as Hok'.
  assert (forall i, 0 <= i < size -> bit_at (ext2_swab <$> addr) i = bit_at addr (le_pos i)) as Hb.
  { intros i Hi. apply bit_at_swab; [done|lia]. }
  destruct (find_next_bit_spec _ _ _ Hok' Ho) as (r & Hr & Hn).
  destruct (find_next_zero_bit_spec _ _ _ Hok' Ho) as (r' & Hr' & Hn'). destruct Ho.
  rewrite generic_find_next_le_bit_swab, generic_find_next_zero_le_bit_swab by done.
  split; [exists r|exists r']; (split; [done|]).
  - by eapply is_next_ext.
  - eapply is_next_ext; [done| |exact Hn']. intros. simpl. by rewrite Hb.
Qed.

(** C24: the searches read only the words of the map.  find_next_bit and find_next_zero_bit return
    the first position at or after the offset whose bit is set (clear), or the size if there is
    none; find_first_bit and find_first_zero_bit do so from 0, and find_last_bit returns the last
    set bit or the size.  On a big-endian kernel the little-endian searches do the same in
    little-endian bit order: position [i] is bit [i mod 8] of byte [i / 8]. *)
Theorem find_next_correct addr size offset :
  bitmap_ok addr size -> is_u32 offset ->
  (exists r, find_next_bit addr size offset = Some r /\
             is_next (bit_at addr) size offset r) /\
  (exists r, find_next_zero_bit addr size offset = Some r /\
             is_next (fun i => negb (bit_at addr i)) size offset r) /\
  (exists r, find_first_bit addr size = Some r /\ is_next (bit_at addr) size 0 r) /\
  (exists r, find_first_zero_bit addr size = Some r /\
             is_next (fun i => negb (bit_at addr i)) size 0 r) /\
  (exists r, find_last_bit addr size = Some r /\ is_last (bit_at addr) size r) /\
  (exists r, generic_find_next_le_bit addr size offset = Some r /\
             is_next (fun i => bit_at addr (le_pos i)) size offset r) /\
  (exists r, generic_find_next_zero_le_bit addr size offset = Some r /\
             is_next (fun i => negb (bit_at addr (le_pos i))) size offset r).
Proof.
  intros Hok Ho. split; [by apply find_next_bit_spec|]. split; [by apply find_next_zero_bit_spec|].
  split; [by apply find_first_bit_spec|]. split; [by apply find_first_zero_bit_spec|].
  split; [by apply find_last_bit_spec|by apply find_next_le_spec].
Qed.

Lemma find_next_correct_witness :
  exists r, find_next_bit [0; 0x100; 0] 70 3 = Some r /\ is_next (bit_at [0; 0x100; 0]) 70 3 r.
Proof.
  apply (find_next_correct [0; 0x100; 0] 70 3); [|unfold is_u32; lia].
  split; [|simpl; lia]. repeat constructor; unfold is_u32; lia.
Defined.
