(* ===== verification/Bitmap.v ===== *)
(** Bitmaps of arbitrary length: lib/bitmap.c (predicates, word-wise operations, shifts,
    set/clear, zero-area search, ordinal maps and power-of-two regions).

    A bitmap is a list of unsigned longs.  A source operand either is the destination
    ([SameAsDst]: the caller passed the same pointer) or is another array ([Own]); every read of
    a source that is the destination sees the words already written. *)

From S2P Require Import Prelude Word FindBit.
From Stdlib Require Import Lia Btauto.

(** * Definitions *)

Definition BITS_TO_LONGS (nr : Z) : Z := u32 (nr + 32 - 1) / 32.

(** include/linux/bitmap.h *)
Definition BITMAP_LAST_WORD_MASK (nbits : Z) : Z :=
  if negb (nbits `rem` BITS_PER_LONG =? 0)
  then ul_shl 1 (nbits `rem` BITS_PER_LONG) - 1 else ULONG_MAX.

Definition BITMAP_FIRST_WORD_MASK (start : Z) : Z :=
  ul_shl ULONG_MAX (start `rem` BITS_PER_LONG).

Inductive bsrc : Type :=
| SameAsDst
| Own (a : list Z).

Definition get (src : bsrc) (dst : list Z) : list Z :=
  match src with SameAsDst => dst | Own a => a end.

(** [memset(&dst[at], 0, n * sizeof(unsigned long))] *)
Definition zero_words (dst : list Z) (at_ n : Z) : option (list Z) :=
  foreach at_ (at_ + n) (fun k d => wr d k 0) dst.

Definition bitmap_zero (dst : list Z) (nbits : Z) : option (list Z) :=
  zero_words dst 0 (BITS_TO_LONGS nbits).

(** The shape of the predicates: test the full words below [bits / BITS_PER_LONG], then the
    partial last word; return [hit] at the first word that passes the test. *)
Definition bitmap_scan (bits hit miss : Z) (full last : Z -> option bool) : option Z :=
  let lim := bits `quot` BITS_PER_LONG in
  r ← for_range 0 lim (fun k _ =>
        b ← full k; Some (if (b : bool) then Ret hit else Next tt)) tt;
  match r with
  | Ret v => Some v
  | Next _ =>
      let k := Z.max 0 lim in
      if negb (bits `rem` BITS_PER_LONG =? 0) then
        b ← last k; Some (if (b : bool) then hit else miss)
      else Some miss
  end.

Definition __bitmap_empty (bitmap : list Z) (bits : Z) : option Z :=
  bitmap_scan bits 0 1
    (fun k => w ← rd bitmap k; Some (negb (w =? 0)))
    (fun k => w ← rd bitmap k; Some (negb (Z.land w (BITMAP_LAST_WORD_MASK bits) =? 0))).

Definition __bitmap_full (bitmap : list Z) (bits : Z) : option Z :=
  bitmap_scan bits 0 1
    (fun k => w ← rd bitmap k; Some (negb (ul_not w =? 0)))
    (fun k => w ← rd bitmap k;
              Some (negb (Z.land (ul_not w) (BITMAP_LAST_WORD_MASK bits) =? 0))).

Definition __bitmap_equal (bitmap1 bitmap2 : list Z) (bits : Z) : option Z :=
  bitmap_scan bits 0 1
    (fun k => w1 ← rd bitmap1 k; w2 ← rd bitmap2 k; Some (negb (w1 =? w2)))
    (fun k => w1 ← rd bitmap1 k; w2 ← rd bitmap2 k;
              Some (negb (Z.land (Z.lxor w1 w2) (BITMAP_LAST_WORD_MASK bits) =? 0))).

Definition __bitmap_intersects (bitmap1 bitmap2 : list Z) (bits : Z) : option Z :=
  bitmap_scan bits 1 0
    (fun k => w1 ← rd bitmap1 k; w2 ← rd bitmap2 k; Some (negb (Z.land w1 w2 =? 0)))
    (fun k => w1 ← rd bitmap1 k; w2 ← rd bitmap2 k;
              Some (negb (Z.land (Z.land w1 w2) (BITMAP_LAST_WORD_MASK bits) =? 0))).

Definition __bitmap_subset (bitmap1 bitmap2 : list Z) (bits : Z) : option Z :=
  bitmap_scan bits 0 1
    (fun k => w1 ← rd bitmap1 k; w2 ← rd bitmap2 k; Some (negb (Z.land w1 (ul_not w2) =? 0)))
    (fun k => w1 ← rd bitmap1 k; w2 ← rd bitmap2 k;
              Some (negb (Z.land (Z.land w1 (ul_not w2)) (BITMAP_LAST_WORD_MASK bits) =? 0))).

Definition __bitmap_weight (bitmap : list Z) (bits : Z) : option Z :=
  let lim := bits `quot` BITS_PER_LONG in
  w ← foreach 0 lim (fun k w => x ← rd bitmap k; Some (w + hweight_long x)) 0;
  let k := Z.max 0 lim in
  if negb (bits `rem` BITS_PER_LONG =? 0) then
    x ← rd bitmap k; Some (w + hweight_long (Z.land x (BITMAP_LAST_WORD_MASK bits)))
  else Some w.

Definition __bitmap_complement (dst : list Z) (src : bsrc) (bits : Z) : option (list Z) :=
  let lim := bits `quot` BITS_PER_LONG in
  dst ← foreach 0 lim (fun k dst => w ← rd (get src dst) k; wr dst k (ul_not w)) dst;
  let k := Z.max 0 lim in
  if negb (bits `rem` BITS_PER_LONG =? 0) then
    w ← rd (get src dst) k; wr dst k (Z.land (ul_not w) (BITMAP_LAST_WORD_MASK bits))
  else Some dst.

(** The word loop of and/or/xor/andnot; [acc] collects the or of the stored words. *)
Definition bitmap_op2 (op : Z -> Z -> Z) (dst : list Z) (b1 b2 : bsrc) (bits : Z)
  : option (list Z * Z) :=
  foreach 0 (BITS_TO_LONGS bits) (fun k '(dst, result) =>
    w1 ← rd (get b1 dst) k;
    w2 ← rd (get b2 dst) k;
    dst ← wr dst k (op w1 w2);
    Some (dst, Z.lor result (op w1 w2))) (dst, 0).

Definition __bitmap_and (dst : list Z) (bitmap1 bitmap2 : bsrc) (bits : Z)
  : option (list Z * Z) :=
  '(dst, result) ← bitmap_op2 Z.land dst bitmap1 bitmap2 bits;
  Some (dst, if result =? 0 then 0 else 1).

Definition __bitmap_or (dst : list Z) (bitmap1 bitmap2 : bsrc) (bits : Z) : option (list Z) :=
  fst <$> bitmap_op2 Z.lor dst bitmap1 bitmap2 bits.

Definition __bitmap_xor (dst : list Z) (bitmap1 bitmap2 : bsrc) (bits : Z) : option (list Z) :=
  fst <$> bitmap_op2 Z.lxor dst bitmap1 bitmap2 bits.

Definition __bitmap_andnot (dst : list Z) (bitmap1 bitmap2 : bsrc) (bits : Z)
  : option (list Z * Z) :=
  '(dst, result) ← bitmap_op2 (fun x y => Z.land x (ul_not y)) dst bitmap1 bitmap2 bits;
  Some (dst, if result =? 0 then 0 else 1).

Definition __bitmap_shift_right (dst : list Z) (src : bsrc) (shift bits : Z)
  : option (list Z) :=
  let lim := BITS_TO_LONGS bits in
  let left := bits `rem` BITS_PER_LONG in
  let off := shift `quot` BITS_PER_LONG in
  let rem := shift `rem` BITS_PER_LONG in
  let mask := ul_shl 1 left - 1 in
  dst ← foreach 0 (lim - off) (fun k dst =>
    upper ← (if (rem =? 0) || (lim <=? off + k + 1) then Some 0
             else
               upper ← rd (get src dst) (off + k + 1);
               Some (if (off + k + 1 =? lim - 1) && negb (left =? 0)
                     then Z.land upper mask else upper));
    lower ← rd (get src dst) (off + k);
    let lower := if negb (left =? 0) && (off + k =? lim - 1) then Z.land lower mask else lower in
    let w := Z.lor (ul_shl upper (BITS_PER_LONG - rem)) (Z.shiftr lower rem) in
    let w := if negb (left =? 0) && (k =? lim - 1) then Z.land w mask else w in
    wr dst k w) dst;
  if negb (off =? 0) then zero_words dst (lim - off) off else Some dst.

(** The loop counts [k] down from [lim - off - 1] to 0: iteration [j] has [k = lim - off - 1 - j]. *)
Definition __bitmap_shift_left (dst : list Z) (src : bsrc) (shift bits : Z)
  : option (list Z) :=
  let lim := BITS_TO_LONGS bits in
  let left := bits `rem` BITS_PER_LONG in
  let off := shift `quot` BITS_PER_LONG in
  let rem := shift `rem` BITS_PER_LONG in
  dst ← foreach 0 (lim - off) (fun j dst =>
    let k := lim - off - 1 - j in
    lower ← (if negb (rem =? 0) && (0 <? k) then rd (get src dst) (k - 1) else Some 0);
    upper ← rd (get src dst) k;
    let upper := if negb (left =? 0) && (k =? lim - 1)
                 then Z.land upper (ul_shl 1 left - 1) else upper in
    let w := Z.lor (Z.shiftr lower (BITS_PER_LONG - rem)) (ul_shl upper rem) in
    let w := if negb (left =? 0) && (k + off =? lim - 1)
             then Z.land w (ul_shl 1 left - 1) else w in
    wr dst (k + off) w) dst;
  if negb (off =? 0) then zero_words dst 0 off else Some dst.

(** bitmap_set and bitmap_clear share their shape; [upd] is what happens to a word under a mask. *)
Definition bitmap_fill (upd : Z -> Z -> Z) (map : list Z) (start nr : Z) : option (list Z) :=
  let size := s32 (start + nr) in
  '(map, p, nr, mask) ←
    loop (S (length map)) (fun '(map, p, nr, bits_to_set, mask_to_set) =>
      if 0 <=? nr - bits_to_set then
        w ← rd map p;
        map ← wr map p (upd w mask_to_set);
        Some (Next (map, p + 1, nr - bits_to_set, BITS_PER_LONG, ULONG_MAX))
      else Some (Ret (map, p, nr, mask_to_set)))
      (map, BIT_WORD start, nr, BITS_PER_LONG - start `rem` BITS_PER_LONG,
       BITMAP_FIRST_WORD_MASK start);
  if negb (nr =? 0) then
    w ← rd map p;
    wr map p (upd w (Z.land mask (BITMAP_LAST_WORD_MASK size)))
  else Some map.

Definition bitmap_set (map : list Z) (start nr : Z) : option (list Z) :=
  bitmap_fill Z.lor map start nr.

Definition bitmap_clear (map : list Z) (start nr : Z) : option (list Z) :=
  bitmap_fill (fun w m => Z.land w (ul_not m)) map start nr.

Definition __ALIGN_MASK (x mask : Z) : Z := Z.land (u32 (x + mask)) (ul_not mask).

(** Every retry starts beyond the previous one, so [size] retries are enough. *)
Definition bitmap_find_next_zero_area (map : list Z) (size start nr align_mask : Z)
  : option Z :=
  loop (S (S (Z.to_nat size))) (fun start =>
    index ← find_next_zero_bit map size start;
    let index := __ALIGN_MASK index align_mask in
    let end_ := u32 (index + nr) in
    if size <? end_ then Some (Ret end_)
    else
      i ← find_next_bit map end_ index;
      if i <? end_ then Some (Next (u32 (i + 1))) else Some (Ret index)) start.

(** Maps between positions and ordinals of set bits. *)
Definition bitmap_pos_to_ord (buf : list Z) (pos bits : Z) : option Z :=
  if (pos <? 0) || (bits <=? pos) then Some (-1)
  else
    b ← test_bit pos buf;
    if negb b then Some (-1)
    else
      i ← find_first_bit buf bits;
      '(i, ord) ←
        loop (S (Z.to_nat bits)) (fun '(i, ord) =>
          if i <? pos then
            i ← find_next_bit buf bits (i + 1);
            Some (Next (i, ord + 1))
          else Some (Ret (i, ord))) (i, 0);
      if negb (i =? pos) then None (* BUG_ON *) else Some ord.

Definition bitmap_ord_to_pos (buf : list Z) (ord bits : Z) : option Z :=
  if (0 <=? ord) && (ord <? bits) then
    i ← find_first_bit buf bits;
    '(i, ord) ←
      loop (S (Z.to_nat bits)) (fun '(i, ord) =>
        if (i <? bits) && (0 <? ord) then
          i ← find_next_bit buf bits (i + 1);
          Some (Next (i, ord - 1))
        else Some (Ret (i, ord))) (i, ord);
    Some (if (i <? bits) && (ord =? 0) then i else 0)
  else Some 0.

(** [for_each_set_bit(bit, addr, size) body]; the searches read the array as it is then. *)
Definition for_each_set_bit {A} (addr : list Z) (size : Z) (body : Z -> A -> option A) (s : A)
  : option A :=
  bit ← find_first_bit addr size;
  loop (S (Z.to_nat size)) (fun '(bit, s) =>
    if bit <? size then
      s ← body bit s;
      bit ← find_next_bit addr size (bit + 1);
      Some (Next (bit, s))
    else Some (Ret s)) (bit, s).

(** [old] and [new] are not the destination. *)
Definition bitmap_remap (dst : list Z) (src : bsrc) (old new : list Z) (bits : Z)
  : option (list Z) :=
  match src with
  | SameAsDst => Some dst
  | Own src =>
      dst ← bitmap_zero dst bits;
      w ← __bitmap_weight new bits;
      for_each_set_bit src bits (fun oldbit dst =>
        n ← bitmap_pos_to_ord old oldbit bits;
        if (n <? 0) || (w =? 0) then set_bit oldbit dst
        else
          pos ← bitmap_ord_to_pos new (n `rem` w) bits;
          set_bit pos dst) dst
  end.

Definition bitmap_bitremap (oldbit : Z) (old new : list Z) (bits : Z) : option Z :=
  w ← __bitmap_weight new bits;
  n ← bitmap_pos_to_ord old oldbit bits;
  if (n <? 0) || (w =? 0) then Some oldbit
  else bitmap_ord_to_pos new (n `rem` w) bits.

Definition bitmap_onto (dst : list Z) (orig : bsrc) (relmap : list Z) (bits : Z)
  : option (list Z) :=
  match orig with
  | SameAsDst => Some dst
  | Own orig =>
      dst ← bitmap_zero dst bits;
      '(dst, _) ← for_each_set_bit relmap bits (fun n '(dst, m) =>
        b ← test_bit m orig;
        dst ← (if (b : bool) then set_bit n dst else Some dst);
        Some (dst, m + 1)) (dst, 0);
      Some dst
  end.

Definition bitmap_fold (dst : list Z) (orig : bsrc) (sz bits : Z) : option (list Z) :=
  match orig with
  | SameAsDst => Some dst
  | Own orig =>
      dst ← bitmap_zero dst bits;
      for_each_set_bit orig bits (fun oldbit dst => set_bit (oldbit `rem` sz) dst) dst
  end.

(** Power-of-two regions. *)
Inductive reg_op_kind : Type :=
| REG_OP_ISFREE
| REG_OP_ALLOC
| REG_OP_RELEASE.

Definition __reg_op (bitmap : list Z) (pos order : Z) (reg_op : reg_op_kind)
  : option (list Z * Z) :=
  let nbits_reg := s32 (Z.shiftl 1 order) in
  let index := pos `quot` BITS_PER_LONG in
  let offset := pos - index * BITS_PER_LONG in
  let nlongs_reg := BITS_TO_LONGS nbits_reg in
  let nbitsinlong := Z.min nbits_reg BITS_PER_LONG in
  let mask := ul_shl 1 (nbitsinlong - 1) in
  let mask := u32 (mask + (mask - 1)) in
  let mask := ul_shl mask offset in
  match reg_op with
  | REG_OP_ISFREE =>
      r ← for_range 0 nlongs_reg (fun i _ =>
            w ← rd bitmap (index + i);
            Some (if negb (Z.land w mask =? 0) then Ret tt else Next tt)) tt;
      Some (bitmap, match r with Ret _ => 0 | Next _ => 1 end)
  | REG_OP_ALLOC =>
      b ← foreach 0 nlongs_reg (fun i b =>
            w ← rd b (index + i); wr b (index + i) (Z.lor w mask)) bitmap;
      Some (b, 0)
  | REG_OP_RELEASE =>
      b ← foreach 0 nlongs_reg (fun i b =>
            w ← rd b (index + i); wr b (index + i) (Z.land w (ul_not mask))) bitmap;
      Some (b, 0)
  end.

Definition bitmap_find_free_region (bitmap : list Z) (bits order : Z) : option (list Z * Z) :=
  loop (S (S (Z.to_nat bits))) (fun pos =>
    let end_ := s32 (pos + s32 (Z.shiftl 1 order)) in
    if end_ <=? bits then
      '(_, free) ← __reg_op bitmap pos order REG_OP_ISFREE;
      if free =? 0 then Some (Next end_)
      else
        '(bitmap, _) ← __reg_op bitmap pos order REG_OP_ALLOC;
        Some (Ret (bitmap, pos))
    else Some (Ret (bitmap, - ENOMEM))) 0.

Definition bitmap_release_region (bitmap : list Z) (pos order : Z) : option (list Z) :=
  fst <$> __reg_op bitmap pos order REG_OP_RELEASE.

Definition bitmap_allocate_region (bitmap : list Z) (pos order : Z) : option (list Z * Z) :=
  '(_, free) ← __reg_op bitmap pos order REG_OP_ISFREE;
  if free =? 0 then Some (bitmap, - EBUSY)
  else
    '(bitmap, _) ← __reg_op bitmap pos order REG_OP_ALLOC;
    Some (bitmap, 0).

(** On a little-endian CPU cpu_to_le32 is the identity. *)
Definition bitmap_copy_le (dst : list Z) (src : bsrc) (nbits : Z) : option (list Z) :=
  foreach 0 (nbits `quot` BITS_PER_LONG) (fun i d => w ← rd (get src d) i; wr d i w) dst.

(** * Specifications *)

(** The number of [i] in [0, n) with [b i]. *)
Fixpoint count (b : Z -> bool) (n : nat) : Z :=
  match n with
  | O => 0
  | S n' => count b n' + (if b (Z.of_nat n') then 1 else 0)
  end.

(** * Basic facts *)

Lemma quot32 x : 0 <= x -> x `quot` BITS_PER_LONG = x / 32.
Proof. intros. unfold BITS_PER_LONG. by rewrite Z.quot_div_nonneg by lia. Qed.

Lemma rem32 x : 0 <= x -> x `rem` BITS_PER_LONG = x mod 32.
Proof. intros. unfold BITS_PER_LONG. by rewrite Z.rem_mod_nonneg by lia. Qed.

Lemma BITS_TO_LONGS_eq n : 0 <= n < 4294967265 -> BITS_TO_LONGS n = (n + 31) / 32.
Proof.
  intros. unfold BITS_TO_LONGS. rewrite u32_small by (unfold is_u32; lia). f_equal. lia.
Qed.

Lemma last_mask_spec nbits i :
  0 <= nbits -> nbits mod 32 <> 0 -> 0 <= i ->
  Z.testbit (BITMAP_LAST_WORD_MASK nbits) i = bool_decide (i < nbits mod 32).
Proof.
  intros Hn Hr Hi. unfold BITMAP_LAST_WORD_MASK. rewrite rem32 by lia.
  rewrite (proj2 (Z.eqb_neq _ _)) by done. simpl. apply mask_ones_spec; lia.
Qed.

Lemma last_mask_u32 nbits : 0 <= nbits -> is_u32 (BITMAP_LAST_WORD_MASK nbits).
Proof.
  intros Hn. unfold BITMAP_LAST_WORD_MASK. rewrite rem32 by lia. dcase; [|apply is_u32_max].
  rewrite mask_ones by lia. apply is_u32_ones. lia.
Qed.

Lemma word_nonzero w :
  is_u32 w -> (negb (w =? 0) = true <-> exists i, 0 <= i < 32 /\ Z.testbit w i = true).
Proof.
  intros Hw. rewrite negb_true_iff, Z.eqb_neq. split.
  - intros Hnz. destruct (ffs_first w Hw Hnz) as [(H1 & H2 & _) H3]. eauto.
  - intros (i & _ & Hi) ->. by rewrite Z.bits_0 in Hi.
Qed.

(** * Predicates *)

(** [exists_below P n r hit miss]: [r] is [hit] or [miss] as some [i < n] satisfies [P] or none
    does. *)
Definition exists_below (P : Z -> bool) (n r hit miss : Z) : Prop :=
  (r = hit /\ exists i, 0 <= i < n /\ P i = true) \/
  (r = miss /\ forall i, 0 <= i < n -> P i = false).

Section scan.
Context (bits hit miss : Z) (full last : Z -> option bool) (wf : Z -> Z) (P : Z -> bool).
Hypothesis Hbits : 0 <= bits.
Hypothesis Hu : forall k, 0 <= k <= bits / 32 -> 32 * k < bits -> is_u32 (wf k).
Hypothesis Hbit : forall k i, 0 <= k -> 32 * k < bits -> 0 <= i < 32 ->
  Z.testbit (wf k) i = P (32 * k + i).
Hypothesis Hfull : forall k, 0 <= k < bits / 32 -> full k = Some (negb (wf k =? 0)).
Hypothesis Hlast : bits mod 32 <> 0 ->
  last (bits / 32) = Some (negb (Z.land (wf (bits / 32)) (BITMAP_LAST_WORD_MASK bits) =? 0)).

Lemma bitmap_scan_spec :
  exists r, bitmap_scan bits hit miss full last = Some r /\ exists_below P bits r hit miss.
Proof.
  unfold bitmap_scan. rewrite quot32, rem32 by done. set (lim := bits / 32) in *.
  pose proof (for_range_rule (fun k (_ : unit) => forall i, 0 <= i < 32 * k -> P i = false)
    (fun r => r = hit /\ exists i, 0 <= i < bits /\ P i = true)
    (fun k _ => b ← full k; Some (if (b : bool) then Ret hit else Next tt)) 0 lim tt) as H.
  match type of H with _ -> ?A -> ?B -> _ => assert A as HA; [|assert B as HB] end.
  { intros k s Hk Hprev. rewrite Hfull by lia. simpl.
    pose proof (Hu k ltac:(lia) ltac:(lia)) as Hwu. dcase.
    - split; [done|]. destruct (proj1 (word_nonzero _ Hwu)) as (i & Hi & Hb);
        [rewrite negb_true_iff, Z.eqb_neq; done|].
      exists (32 * k + i). rewrite <- Hbit by lia. split; [lia|done].
    - intros i Hi. destruct (Z_lt_ge_dec i (32 * k)); [apply Hprev; lia|].
      replace i with (32 * k + (i - 32 * k)) by lia. rewrite <- Hbit by lia.
      rewrite Heqb. apply Z.bits_0. }
  { intros i Hi. lia. }
  specialize (H ltac:(lia) HA HB). destruct (for_range _ _ _ _) as [[[]|r]|]; [| |done]; simpl.
  - rewrite Z.max_r by lia. dcase.
    + rewrite Hlast by done. simpl. eexists. split; [done|].
      assert (is_u32 (wf lim)) as Hwu by (apply Hu; lia).
      pose proof (last_mask_u32 bits Hbits) as Hm.
      pose proof (is_u32_land _ _ Hwu Hm) as Hwm. dcase.
      * left. split; [done|]. destruct (proj1 (word_nonzero _ Hwm)) as (i & Hi & Hb);
          [rewrite negb_true_iff, Z.eqb_neq; done|].
        rewrite Z.land_spec, last_mask_spec in Hb by lia. apply andb_true_iff in Hb as [Hb Hlt].
        apply bool_decide_eq_true_1 in Hlt. exists (32 * lim + i).
        rewrite <- Hbit by lia. split; [lia|done].
      * right. split; [done|]. intros i Hi. destruct (Z_lt_ge_dec i (32 * lim)); [apply H; lia|].
        replace i with (32 * lim + (i - 32 * lim)) by lia. rewrite <- Hbit by lia.
        assert (Z.testbit (Z.land (wf lim) (BITMAP_LAST_WORD_MASK bits)) (i - 32 * lim) = false)
          as Hz by (rewrite Heqb0; apply Z.bits_0).
        rewrite Z.land_spec, last_mask_spec, bool_decide_eq_true_2 in Hz by lia.
        by rewrite andb_true_r in Hz.
    + eexists. split; [done|]. right. split; [done|]. intros i Hi. apply H. lia.
  - exists r. split; [done|]. left. done.
Qed.
End scan.

Lemma rd_ok a bits k :
  bitmap_ok a bits -> 0 <= k -> 32 * k < bits ->
  rd a k = Some (a !!! Z.to_nat k) /\ is_u32 (a !!! Z.to_nat k).
Proof. intros. by eapply rd_word. Qed.

Lemma bitmap_empty_spec a bits :
  bitmap_ok a bits ->
  exists r, __bitmap_empty a bits = Some r /\ exists_below (bit_at a) bits r 0 1.
Proof.
  intros Hok. pose proof Hok as (_ & Hsz & _).
  apply bitmap_scan_spec with (wf := fun k => a !!! Z.to_nat k); [lia|..].
  - intros k Hk Hb. apply (rd_ok a bits k Hok); lia.
  - intros k i Hk Hb Hi. by rewrite bit_at_word.
  - intros k Hk. destruct (rd_ok a bits k Hok) as [-> _]; [lia..|]. done.
  - intros Hr. destruct (rd_ok a bits (bits / 32) Hok) as [-> _]; [lia..|]. done.
Qed.

Lemma bitmap_full_spec a bits :
  bitmap_ok a bits ->
  exists r, __bitmap_full a bits = Some r /\ exists_below (fun i => negb (bit_at a i)) bits r 0 1.
Proof.
  intros Hok. pose proof Hok as (_ & Hsz & _).
  apply bitmap_scan_spec with (wf := fun k => ul_not (a !!! Z.to_nat k)); [lia|..].
  - intros k Hk Hb. apply is_u32_not, (rd_ok a bits k Hok); lia.
  - intros k i Hk Hb Hi. rewrite bit_at_word, ul_not_spec by (try apply (rd_ok a bits k Hok); lia).
    by rewrite bool_decide_eq_true_2 by lia.
  - intros k Hk. destruct (rd_ok a bits k Hok) as [-> _]; [lia..|]. done.
  - intros Hr. destruct (rd_ok a bits (bits / 32) Hok) as [-> _]; [lia..|]. done.
Qed.

Lemma lxor_zero x y : (Z.lxor x y =? 0) = (x =? y).
Proof. apply eq_true_iff_eq. rewrite !Z.eqb_eq. apply Z.lxor_eq_0_iff. Qed.

(** The word function of a binary test, read from two maps. *)
Lemma bitmap_scan2_spec (op : Z -> Z -> Z) (bop : bool -> bool -> bool) a b bits hit miss full last :
  (forall x y, is_u32 x -> is_u32 y -> is_u32 (op x y)) ->
  (forall x y i, is_u32 x -> is_u32 y -> 0 <= i < 32 ->
     Z.testbit (op x y) i = bop (Z.testbit x i) (Z.testbit y i)) ->
  bitmap_ok a bits -> bitmap_ok b bits ->
  (forall k, full k = w1 ← rd a k; w2 ← rd b k; Some (negb (op w1 w2 =? 0))) ->
  (forall k, last k = w1 ← rd a k; w2 ← rd b k;
     Some (negb (Z.land (op w1 w2) (BITMAP_LAST_WORD_MASK bits) =? 0))) ->
  exists r, bitmap_scan bits hit miss full last = Some r /\
            exists_below (fun i => bop (bit_at a i) (bit_at b i)) bits r hit miss.
Proof.
  intros Hop Hb Ha Hb2 Hfull Hlast. pose proof Ha as (_ & Hsz & _).
  apply bitmap_scan_spec with (wf := fun k => op (a !!! Z.to_nat k) (b !!! Z.to_nat k)); [lia|..].
  - intros k Hk Hlt. apply Hop; [apply (rd_ok a bits k Ha)|apply (rd_ok b bits k Hb2)]; lia.
  - intros k i Hk Hlt Hi. rewrite !bit_at_word by lia.
    apply Hb; [apply (rd_ok a bits k Ha)|apply (rd_ok b bits k Hb2)|]; lia.
  - intros k Hk. rewrite Hfull. destruct (rd_ok a bits k Ha) as [-> _]; [lia..|].
    destruct (rd_ok b bits k Hb2) as [-> _]; [lia..|]. done.
  - intros Hr. rewrite Hlast. destruct (rd_ok a bits (bits / 32) Ha) as [-> _]; [lia..|].
    destruct (rd_ok b bits (bits / 32) Hb2) as [-> _]; [lia..|]. done.
Qed.

Lemma andnot_u32 x y : is_u32 x -> is_u32 y -> is_u32 (Z.land x (ul_not y)).
Proof. auto with kernel. Qed.

Lemma andnot_spec x y i :
  is_u32 x -> is_u32 y -> 0 <= i < 32 ->
  Z.testbit (Z.land x (ul_not y)) i = Z.testbit x i && negb (Z.testbit y i).
Proof.
  intros. rewrite Z.land_spec, ul_not_spec by (done || lia). by rewrite bool_decide_eq_true_2 by lia.
Qed.

Lemma bitmap_equal_spec a b bits :
  bitmap_ok a bits -> bitmap_ok b bits ->
  exists r, __bitmap_equal a b bits = Some r /\
            exists_below (fun i => xorb (bit_at a i) (bit_at b i)) bits r 0 1.
Proof.
  intros Ha Hb. apply (bitmap_scan2_spec Z.lxor xorb); auto using is_u32_lxor.
  - intros. apply Z.lxor_spec.
  - intros k. destruct (rd a k), (rd b k); simpl; try done. by rewrite lxor_zero.
Qed.

Lemma bitmap_intersects_spec a b bits :
  bitmap_ok a bits -> bitmap_ok b bits ->
  exists r, __bitmap_intersects a b bits = Some r /\
            exists_below (fun i => bit_at a i && bit_at b i) bits r 1 0.
Proof.
  intros Ha Hb. apply (bitmap_scan2_spec Z.land andb); auto using is_u32_land.
  intros. apply Z.land_spec.
Qed.

Lemma bitmap_subset_spec a b bits :
  bitmap_ok a bits -> bitmap_ok b bits ->
  exists r, __bitmap_subset a b bits = Some r /\
            exists_below (fun i => bit_at a i && negb (bit_at b i)) bits r 0 1.
Proof.
  intros Ha Hb. apply (bitmap_scan2_spec (fun x y => Z.land x (ul_not y)) (fun x y => x && negb y));
    auto using andnot_u32, andnot_spec.
Qed.

(** * Weight *)

Lemma count_bound b n : 0 <= count b n <= Z.of_nat n.
Proof. induction n as [|n IH]; cbn [count]; [lia|]. destruct (b _); lia. Qed.

Lemma count_ext b b' n :
  (forall i, 0 <= i < Z.of_nat n -> b i = b' i) -> count b n = count b' n.
Proof.
  induction n as [|n IH]; intros H; cbn [count]; [done|].
  rewrite IH by (intros; apply H; lia). rewrite H by lia. done.
Qed.

Lemma count_app b m n : count b (m + n) = count b m + count (fun i => b (Z.of_nat m + i)) n.
Proof.
  induction n as [|n IH]; [rewrite Nat.add_0_r; cbn [count]; lia|].
  replace (m + S n)%nat with (S (m + n)) by lia. cbn [count]. rewrite IH.
  replace (Z.of_nat (m + n)) with (Z.of_nat m + Z.of_nat n) by lia. lia.
Qed.

Lemma count_restrict b r n :
  (r <= n)%nat -> count (fun i => bool_decide (i < Z.of_nat r) && b i) n = count b r.
Proof.
  intros Hr. replace n with (r + (n - r))%nat by lia. rewrite count_app.
  rewrite (count_ext _ b r) by (intros; by rewrite bool_decide_eq_true_2 by lia).
  rewrite (count_ext _ (fun _ => false) (n - r))
    by (intros; by rewrite bool_decide_eq_false_2 by lia).
  assert (forall m, count (fun _ => false) m = 0) as ->; [|lia].
  induction m as [|m IH]; cbn [count]; [done|]. by rewrite IH.
Qed.

Lemma popcount_count n w : popcount n w = count (Z.testbit w) n.
Proof. induction n as [|n IH]; cbn [popcount count]; [done|]. by rewrite IH. Qed.

Lemma hweight_long_count a k :
  is_u32 (a !!! Z.to_nat k) ->
  hweight_long (a !!! Z.to_nat k) = count (fun i => bit_at a (32 * k + i)) 32.
Proof.
  intros Hw. unfold hweight_long. rewrite hweight32_popcount, popcount_count by done.
  apply count_ext. intros i Hi. by rewrite bit_at_word.
Qed.

Lemma bitmap_weight_spec a bits :
  bitmap_ok a bits -> __bitmap_weight a bits = Some (count (bit_at a) (Z.to_nat bits)).
Proof.
  intros Hok. pose proof Hok as (_ & Hsz & _). unfold __bitmap_weight.
  rewrite quot32, rem32 by lia. set (lim := bits / 32).
  destruct (foreach_rule (fun k w => w = count (bit_at a) (Z.to_nat (32 * k)))
    (fun k w => x ← rd a k; Some (w + hweight_long x)) 0 lim 0) as (w & Hw & Hc).
  - lia.
  - intros k w Hk ->. destruct (rd_ok a bits k Hok) as [-> Hu]; [lia..|]. simpl.
    eexists. split; [done|]. rewrite hweight_long_count by done.
    replace (Z.to_nat (32 * (k + 1))) with (Z.to_nat (32 * k) + 32)%nat by lia.
    rewrite count_app. f_equal. apply count_ext. intros i Hi. f_equal. lia.
  - done.
  - rewrite Hw. simpl. rewrite Z.max_r by lia. dcase.
    + destruct (rd_ok a bits lim Hok) as [-> Hu]; [lia..|]. simpl. f_equal.
      unfold hweight_long. rewrite hweight32_popcount, popcount_count
        by (apply is_u32_land; [done|]; apply last_mask_u32; lia).
      rewrite (count_ext _ (fun i => bool_decide (i < Z.of_nat (Z.to_nat (bits mod 32))) &&
                                     bit_at a (32 * lim + i))).
      * rewrite count_restrict by lia. subst w.
        replace (Z.to_nat bits) with (Z.to_nat (32 * lim) + Z.to_nat (bits mod 32))%nat by lia.
        rewrite count_app. f_equal. apply count_ext. intros i Hi. f_equal. lia.
      * intros i Hi. rewrite Z.land_spec, last_mask_spec, bit_at_word by lia.
        rewrite Z2Nat.id by lia. btauto.
    + subst w. do 2 f_equal. lia.
Qed.

(** * Word-wise operations *)

(** Arrays that agree from word [k] on. *)
Definition same_from (k : Z) (a b : list Z) : Prop :=
  length a = length b /\ forall j, k <= j -> 0 <= j -> rd a j = rd b j.

Lemma same_from_get src k d d0 :
  same_from k d d0 -> forall j, k <= j -> 0 <= j -> rd (get src d) j = rd (get src d0) j.
Proof. intros [_ H] j Hj H0. destruct src; simpl; [by apply H|done]. Qed.

Lemma rd_insert_ne (a : list Z) k j w : 0 <= k -> 0 <= j -> j <> k ->
  rd (<[Z.to_nat k := w]> a) j = rd a j.
Proof.
  intros Hk Hj Hne. unfold rd. rewrite !bool_decide_eq_true_2 by done.
  apply list_lookup_insert_ne. lia.
Qed.

(** A loop that computes every word of [dst] below [n] from the words at the same index. *)
Lemma wordwise_loop (f : Z -> list Z -> option Z) (dst : list Z) n (wf : Z -> Z) :
  0 <= n <= Z.of_nat (length dst) ->
  (forall k d, 0 <= k < n -> same_from k d dst -> f k d = Some (wf k)) ->
  exists d, foreach 0 n (fun k d => w ← f k d; wr d k w) dst = Some d /\
    same_from n d dst /\ forall k, 0 <= k < n -> rd d k = Some (wf k).
Proof.
  intros Hn Hf.
  apply (foreach_rule (fun k d => same_from k d dst /\ forall j, 0 <= j < k -> rd d j = Some (wf j)));
    [lia| |split; [done|intros; lia]].
  intros k d Hk [[Hlen Hs] Hprev]. rewrite (Hf k d) by done. simpl. rewrite wr_Some by lia.
  eexists. split; [done|]. split; [split; [by rewrite length_insert|]|].
  - intros j Hj Hj0. rewrite rd_insert_ne by lia. apply Hs; lia.
  - intros j Hj. rewrite rd_insert by lia. case_bool_decide; [by subst|]. apply Hprev. lia.
Qed.

Lemma rd_bit_at d k w i :
  rd d k = Some w -> 0 <= i < 32 -> bit_at d (32 * k + i) = Z.testbit w i.
Proof.
  intros [Hk Hl]%rd_inv Hi. rewrite bit_at_word by done. by erewrite list_lookup_total_correct.
Qed.

Lemma Forall_rd (P : Z -> Prop) a :
  (forall k w, rd a k = Some w -> P w) -> Forall P a.
Proof.
  intros H. apply Forall_lookup_2. intros i x Hx. apply (H (Z.of_nat i)).
  unfold rd. rewrite bool_decide_eq_true_2 by lia. by rewrite Nat2Z.id.
Qed.

(** A source operand that holds a bitmap of [bits] bits. *)
Definition src_ok (src : bsrc) (dst : list Z) (bits : Z) : Prop := bitmap_ok (get src dst) bits.

Definition longs (bits : Z) : Z := (bits + 31) / 32.

Lemma bitmap_op2_spec op dst b1 b2 bits :
  (forall x y, is_u32 x -> is_u32 y -> is_u32 (op x y)) ->
  bitmap_ok dst bits -> src_ok b1 dst bits -> src_ok b2 dst bits -> bits < 4294967265 ->
  exists d res, bitmap_op2 op dst b1 b2 bits = Some (d, res) /\
    length d = length dst /\ Forall is_u32 d /\
    (forall k, longs bits <= k -> rd d k = rd dst k) /\
    (forall k, 0 <= k < longs bits -> exists w1 w2, is_u32 w1 /\ is_u32 w2 /\
       rd (get b1 dst) k = Some w1 /\ rd (get b2 dst) k = Some w2 /\ rd d k = Some (op w1 w2)) /\
    (res = 0 <-> forall k w, 0 <= k < longs bits -> rd d k = Some w -> w = 0).
Proof.
  intros Hop Hd H1 H2 Hlt. pose proof Hd as (Hu & Hsz & _).
  unfold bitmap_op2. rewrite BITS_TO_LONGS_eq by lia. fold (longs bits).
  assert (forall s, src_ok s dst bits -> forall k d, 0 <= k < longs bits -> same_from k d dst ->
    exists w, rd (get s d) k = Some w /\ rd (get s dst) k = Some w /\ is_u32 w) as Hrd.
  { intros s Hs k d Hk Hsame. destruct (rd_ok _ _ k Hs) as [Hr Hru]; [lia|unfold longs in *; lia|].
    rewrite (same_from_get s k d dst Hsame) by lia. eauto. }
  destruct (foreach_rule (fun k '(d, res) => same_from k d dst /\ Forall is_u32 d /\
      (forall j, 0 <= j < k -> exists w1 w2, is_u32 w1 /\ is_u32 w2 /\
       rd (get b1 dst) j = Some w1 /\ rd (get b2 dst) j = Some w2 /\ rd d j = Some (op w1 w2)) /\
      (res = 0 <-> forall j w, 0 <= j < k -> rd d j = Some w -> w = 0))
    (fun k '(d, result) => w1 ← rd (get b1 d) k; w2 ← rd (get b2 d) k;
       d ← wr d k (op w1 w2); Some (d, Z.lor result (op w1 w2))) 0 (longs bits) (dst, 0))
    as ([d res] & Hf & [Hlen Hs] & Hdu & Hw & Hres).
  - unfold longs. lia.
  - intros k [d res] Hk ([Hlen Hs] & Hdu & Hw & Hres).
    destruct (Hrd b1 H1 k d) as (w1 & -> & Hr1 & Hu1); [done|by split|].
    destruct (Hrd b2 H2 k d) as (w2 & -> & Hr2 & Hu2); [done|by split|]. simpl.
    rewrite wr_Some by (unfold longs in *; lia). simpl. eexists. split; [done|].
    assert (forall j, 0 <= j -> rd (<[Z.to_nat k:=op w1 w2]> d) j =
      if bool_decide (j = k) then Some (op w1 w2) else rd d j) as Hins.
    { intros j Hj. apply rd_insert. unfold longs in *. lia. }
    split; [split|split; [|split]].
    + by rewrite length_insert.
    + intros j Hj Hj0. rewrite Hins, bool_decide_eq_false_2 by lia. apply Hs; lia.
    + apply Forall_insert_total; auto.
    + intros j Hj. rewrite Hins by lia. case_bool_decide; [subst; eauto 10|]. apply Hw. lia.
    + rewrite Z.lor_eq_0_iff, Hres. split.
      * intros [Ha Hb] j w Hj. rewrite Hins by lia. case_bool_decide; [by intros; simplify_eq|].
        apply Ha. lia.
      * intros Ha. split.
        -- intros j w Hj Hjw. apply (Ha j); [lia|]. by rewrite Hins, bool_decide_eq_false_2 by lia.
        -- apply (Ha k); [lia|]. by rewrite Hins, bool_decide_eq_true_2 by lia.
  - split; [done|]. split; [done|]. split; [intros; lia|]. split; [intros; lia|done].
  - exists d, res. split; [done|]. split; [done|]. split; [done|]. split; [|split]; [|done|done].
    intros k Hk. apply Hs; unfold longs in *; lia.
Qed.

(** Bit-level reading of the word loops: the destination holds [bop] of the operands' bits in
    every word that carries one of the [bits] bits, and the words beyond are not touched. *)
Lemma bitmap_op2_bits op bop dst b1 b2 bits :
  (forall x y, is_u32 x -> is_u32 y -> is_u32 (op x y)) ->
  (forall x y i, is_u32 x -> is_u32 y -> 0 <= i < 32 ->
     Z.testbit (op x y) i = bop (Z.testbit x i) (Z.testbit y i)) ->
  bitmap_ok dst bits -> src_ok b1 dst bits -> src_ok b2 dst bits -> bits < 4294967265 ->
  exists d res, bitmap_op2 op dst b1 b2 bits = Some (d, res) /\ bitmap_ok d bits /\
    length d = length dst /\
    (forall i, 0 <= i < 32 * longs bits ->
       bit_at d i = bop (bit_at (get b1 dst) i) (bit_at (get b2 dst) i)) /\
    (forall i, 32 * longs bits <= i -> bit_at d i = bit_at dst i) /\
    (res = 0 <-> forall i, 0 <= i < 32 * longs bits -> bit_at d i = false).
Proof.
  intros Hop Hbit Hd H1 H2 Hlt. pose proof Hd as (_ & Hsz & Hlt').
  destruct (bitmap_op2_spec op dst b1 b2 bits) as (d & res & -> & Hlen & Hu & Hk & Hw & Hr);
    [done..|].
  exists d, res. split; [done|]. split; [split; [done|rewrite Hlen; lia]|]. split; [done|].
  assert (forall i, 0 <= i < 32 * longs bits ->
    bit_at d i = bop (bit_at (get b1 dst) i) (bit_at (get b2 dst) i)) as Hb.
  { intros i Hi. destruct (Hw (i / 32)) as (w1 & w2 & Hu1 & Hu2 & Hr1 & Hr2 & Hrd); [lia|].
    replace i with (32 * (i / 32) + i mod 32) by lia.
    rewrite (rd_bit_at _ _ _ _ Hrd), (rd_bit_at _ _ _ _ Hr1), (rd_bit_at _ _ _ _ Hr2) by lia.
    apply Hbit; [done|done|lia]. }
  split; [done|]. split.
  - intros i Hi. unfold longs in Hi.
    specialize (Hk (i / 32) ltac:(unfold longs; lia)). unfold rd in Hk.
    rewrite bool_decide_eq_true_2 in Hk by lia.
    unfold bit_at. by rewrite !list_lookup_total_alt, Hk.
  - rewrite Hr. split.
    + intros Hz i Hi. destruct (Hw (i / 32)) as (w1 & w2 & _ & _ & _ & _ & Hrd); [lia|].
      replace i with (32 * (i / 32) + i mod 32) by lia.
      rewrite (rd_bit_at _ _ _ _ Hrd) by lia. rewrite (Hz (i / 32) _ ltac:(lia) Hrd).
      apply Z.bits_0.
    + intros Hz k w Hk' Hrd. apply u32_zero_bits; [by eapply rd_Forall|]. intros i Hi.
      rewrite <- (rd_bit_at _ _ _ _ Hrd) by done. apply Hz. lia.
Qed.

Lemma zero_words_spec (dst : list Z) at_ n :
  0 <= at_ -> 0 <= n -> at_ + n <= Z.of_nat (length dst) ->
  exists d, zero_words dst at_ n = Some d /\ length d = length dst /\
    forall j, 0 <= j -> rd d j = if bool_decide (at_ <= j < at_ + n) then Some 0 else rd dst j.
Proof.
  intros Ha Hn Hle. unfold zero_words.
  pose (Inv := fun (k : Z) (d : list Z) => length d = length dst /\
    forall j, 0 <= j -> rd d j = if bool_decide (at_ <= j < k) then Some 0 else rd dst j).
  apply (foreach_rule Inv).
  - lia.
  - intros k d Hk [Hlen Hd]. rewrite wr_Some by lia. eexists. split; [done|].
    split; [by rewrite length_insert|]. intros j Hj. rewrite rd_insert, Hd by lia.
    repeat case_bool_decide; done || lia.
  - split; [done|]. intros j Hj. by rewrite bool_decide_eq_false_2 by lia.
Qed.

(** A loop that computes words from the top down: iteration [j] stores word [top - j] and reads
    only words at or below it. *)
Definition same_upto (k : Z) (a b : list Z) : Prop :=
  length a = length b /\ forall j, 0 <= j <= k -> rd a j = rd b j.

Lemma same_upto_get src k d d0 :
  same_upto k d d0 -> forall j, 0 <= j <= k -> rd (get src d) j = rd (get src d0) j.
Proof. intros [_ H] j Hj. destruct src; simpl; [by apply H|done]. Qed.

Lemma wordwise_down (f : Z -> list Z -> option Z) (dst : list Z) n top (wf : Z -> Z) :
  0 <= n <= top + 1 -> top < Z.of_nat (length dst) ->
  (forall j d, 0 <= j < n -> same_upto (top - j) d dst -> f j d = Some (wf (top - j))) ->
  exists d, foreach 0 n (fun j d => w ← f j d; wr d (top - j) w) dst = Some d /\
    length d = length dst /\
    forall k, 0 <= k -> rd d k = if bool_decide (top - n < k <= top) then Some (wf k) else rd dst k.
Proof.
  intros Hn Ht Hf.
  pose (Inv := fun (m : Z) (d : list Z) => length d = length dst /\
    forall k, 0 <= k -> rd d k = if bool_decide (top - m < k <= top) then Some (wf k) else rd dst k).
  apply (foreach_rule Inv); [lia| |].
  - intros j d Hj [Hlen Hd]. rewrite (Hf j d); [simpl|lia|split; [done|];
      intros i Hi; by rewrite Hd, bool_decide_eq_false_2 by lia].
    rewrite wr_Some by lia. eexists. split; [done|]. split; [by rewrite length_insert|].
    intros k Hk. rewrite rd_insert, Hd by lia.
    repeat case_bool_decide; subst; done || lia.
  - split; [done|]. intros k Hk. by rewrite bool_decide_eq_false_2 by lia.
Qed.

(** * Complement *)

Lemma bitmap_complement_spec dst src bits :
  bitmap_ok dst bits -> src_ok src dst bits -> bits < 4294967265 ->
  exists d, __bitmap_complement dst src bits = Some d /\ bitmap_ok d bits /\
    (forall i, 0 <= i < 32 * longs bits ->
       bit_at d i = bool_decide (i < bits) && negb (bit_at (get src dst) i)).
Proof.
  intros Hd Hs Hlt. pose proof Hd as (Hdu & Hsz & Hlt'). unfold __bitmap_complement.
  rewrite quot32, rem32 by lia. set (lim := bits / 32).
  assert (forall k, 0 <= k -> 32 * k < bits -> exists w, rd (get src dst) k = Some w /\ is_u32 w)
    as Hrd by (intros k Hk Hkb; destruct (rd_ok _ _ k Hs) as [? ?]; eauto).
  destruct (wordwise_loop (fun k d => ul_not <$> rd (get src d) k) dst lim
    (fun k => ul_not (get src dst !!! Z.to_nat k))) as (d & Hf & [Hlen Hsame] & Hw).
  { unfold lim. lia. }
  { intros k d Hk Hsm. rewrite (same_from_get src k d dst Hsm) by lia.
    destruct (rd_ok _ _ k Hs) as [-> _]; [lia..|]. done. }
  rewrite (foreach_ext _ (fun k d => w ← ul_not <$> rd (get src d) k; wr d k w)), Hf
    by (intros; by destruct (rd _ _)). simpl. rewrite Z.max_r by lia.
  assert (forall i, 0 <= i < 32 * lim -> bit_at d i = negb (bit_at (get src dst) i)) as Hlow.
  { intros i Hi. replace i with (32 * (i / 32) + i mod 32) by lia.
    rewrite (rd_bit_at _ _ _ _ (Hw (i / 32) ltac:(lia))), bit_at_word by lia.
    destruct (rd_ok _ _ (i / 32) Hs) as [_ Hu]; [lia..|].
    rewrite ul_not_spec by (done || lia). by rewrite bool_decide_eq_true_2 by lia. }
  assert (Forall is_u32 d) as Hdu'.
  { apply Forall_rd. intros k w Hkw. destruct (Z_lt_ge_dec k lim).
    - pose proof Hkw as [? _]%rd_inv. rewrite Hw in Hkw by lia. simplify_eq.
      apply is_u32_not. apply (rd_ok _ _ k Hs); lia.
    - rewrite Hsame in Hkw by (apply rd_inv in Hkw; lia). by eapply rd_Forall. }
  dcase.
  - rewrite (same_from_get src lim d dst) by (done || lia).
    destruct (rd_ok _ _ lim Hs) as [-> Hu]; [lia..|]. simpl.
    rewrite wr_Some by lia. eexists. split; [done|]. split.
    + split; [|rewrite length_insert; lia]. apply Forall_insert_total; [done|].
      apply is_u32_land; [by apply is_u32_not|]. apply last_mask_u32. lia.
    + intros i Hi. unfold longs in Hi. rewrite bit_at_insert by lia. case_bool_decide.
      * rewrite Z.land_spec, last_mask_spec, ul_not_spec by (done || lia).
        rewrite (bool_decide_eq_true_2 (i mod 32 < 32)) by lia. simpl.
        rewrite (bool_decide_ext (i mod 32 < bits mod 32) (i < bits)) by lia.
        unfold bit_at. rewrite H. btauto.
      * rewrite Hlow by lia. by rewrite bool_decide_eq_true_2 by lia.
  - eexists. split; [done|]. split; [split; [done|rewrite Hlen; lia]|].
    intros i Hi. unfold longs in Hi. rewrite Hlow by lia. by rewrite bool_decide_eq_true_2 by lia.
Qed.

(** * Shifts *)

(** The source with the unused bits of its last word cleared. *)
Definition masked_bit (a : list Z) (bits i : Z) : bool := bool_decide (i < bits) && bit_at a i.

Lemma masked_word a bits q j :
  bitmap_ok a bits -> bits < 4294967265 -> 0 <= q < longs bits -> 0 <= j < 32 ->
  Z.testbit (if negb (bits mod 32 =? 0) && (q =? longs bits - 1)
             then Z.land (a !!! Z.to_nat q) (ul_shl 1 (bits mod 32) - 1)
             else a !!! Z.to_nat q) j = masked_bit a bits (32 * q + j).
Proof.
  intros Hok Hlt Hq Hj. unfold masked_bit. rewrite bit_at_word by done. unfold longs in *.
  destruct (negb _ && _) eqn:E.
  - zbool. rewrite Z.land_spec, mask_ones_spec by lia.
    rewrite (bool_decide_ext (j < bits mod 32) (32 * q + j < bits)) by lia. btauto.
  - rewrite bool_decide_eq_true_2; [done|]. apply andb_false_iff in E as [E|E]; zbool; lia.
Qed.

Lemma masked_word_u32 a bits q (b : bool) :
  bitmap_ok a bits -> 0 <= q < longs bits ->
  is_u32 (if b then Z.land (a !!! Z.to_nat q) (ul_shl 1 (bits mod 32) - 1) else a !!! Z.to_nat q).
Proof.
  intros Hok Hq. pose proof Hok as (_ & Hsz & _). unfold longs in Hq.
  assert (is_u32 (a !!! Z.to_nat q)) by (apply (rd_ok a bits q Hok); lia).
  destruct b; [|done]. rewrite mask_ones by lia. apply is_u32_land; [done|]. apply is_u32_ones. lia.
Qed.

(** The word stored by one iteration of __bitmap_shift_right / __bitmap_shift_left. *)
Definition shr_word (a : list Z) (lim left off rem k : Z) : Z :=
  let mask := ul_shl 1 left - 1 in
  let upper :=
    if (rem =? 0) || (lim <=? off + k + 1) then 0
    else if (off + k + 1 =? lim - 1) && negb (left =? 0)
         then Z.land (a !!! Z.to_nat (off + k + 1)) mask else a !!! Z.to_nat (off + k + 1) in
  let lower :=
    if negb (left =? 0) && (off + k =? lim - 1)
    then Z.land (a !!! Z.to_nat (off + k)) mask else a !!! Z.to_nat (off + k) in
  let w := Z.lor (ul_shl upper (BITS_PER_LONG - rem)) (Z.shiftr lower rem) in
  if negb (left =? 0) && (k =? lim - 1) then Z.land w mask else w.

Definition shl_word (a : list Z) (lim left off rem k : Z) : Z :=
  let mask := ul_shl 1 left - 1 in
  let lower := if negb (rem =? 0) && (0 <? k) then a !!! Z.to_nat (k - 1) else 0 in
  let upper := if negb (left =? 0) && (k =? lim - 1)
               then Z.land (a !!! Z.to_nat k) mask else a !!! Z.to_nat k in
  let w := Z.lor (Z.shiftr lower (BITS_PER_LONG - rem)) (ul_shl upper rem) in
  if negb (left =? 0) && (k + off =? lim - 1) then Z.land w mask else w.

(** Masking the last word changes nothing when the bits above are already clear. *)
Lemma mask_last_word bits k w j :
  0 <= bits -> 0 <= j < 32 -> 0 <= k < longs bits ->
  (forall i, 0 <= i < 32 -> bits <= 32 * k + i -> Z.testbit w i = false) ->
  Z.testbit (if negb (bits mod 32 =? 0) && (k =? longs bits - 1)
             then Z.land w (ul_shl 1 (bits mod 32) - 1) else w) j = Z.testbit w j.
Proof.
  intros Hb Hj Hk Hz. destruct (negb _ && _) eqn:E; [|done]. zbool. unfold longs in *.
  rewrite Z.land_spec, mask_ones_spec by lia. case_bool_decide; [btauto|].
  rewrite Hz by lia. done.
Qed.

Section shift.
Context (a : list Z) (bits shift : Z).
Hypothesis Hok : bitmap_ok a bits.
Hypothesis Hlt : bits < 4294967265.
Hypothesis Hshift : 0 <= shift.
Hypothesis Hfit : shift / 32 <= longs bits.

Lemma shr_word_bits k j :
  0 <= k < longs bits - shift / 32 -> 0 <= j < 32 ->
  Z.testbit (shr_word a (longs bits) (bits mod 32) (shift / 32) (shift mod 32) k) j =
  masked_bit a bits (32 * k + j + shift).
Proof.
  intros Hk Hj. pose proof Hok as (_ & Hsz & _).
  set (off := shift / 32) in *. set (rem := shift mod 32) in *.
  assert (shift = 32 * off + rem /\ 0 <= rem < 32) as [Hsh Hrem] by lia.
  assert (0 <= off) by lia. clearbody off rem.
  assert (forall i, 0 <= i < 32 -> Z.testbit
    (Z.lor (ul_shl (if (rem =? 0) || (longs bits <=? off + k + 1) then 0
      else if (off + k + 1 =? longs bits - 1) && negb (bits mod 32 =? 0)
         then Z.land (a !!! Z.to_nat (off + k + 1)) (ul_shl 1 (bits mod 32) - 1)
         else a !!! Z.to_nat (off + k + 1)) (BITS_PER_LONG - rem))
      (Z.shiftr (if negb (bits mod 32 =? 0) && (off + k =? longs bits - 1)
         then Z.land (a !!! Z.to_nat (off + k)) (ul_shl 1 (bits mod 32) - 1)
         else a !!! Z.to_nat (off + k)) rem)) i = masked_bit a bits (32 * k + i + shift)) as Hw.
  { intros i Hi. rewrite Z.lor_spec, ul_shl_spec, Z.shiftr_spec by lia. unfold BITS_PER_LONG.
    rewrite (bool_decide_eq_true_2 (i < 32)) by lia. rewrite andb_true_l.
    rewrite (andb_comm (off + k + 1 =? _)). destruct (Z_lt_ge_dec (i + rem) 32).
    - rewrite (Z.testbit_neg_r _ (i - (32 - rem))) by lia.
      rewrite masked_word by (done || lia). rewrite orb_false_l. f_equal. lia.
    - rewrite (is_u32_bits _ (i + rem)); [|apply masked_word_u32; [done|lia]|lia].
      rewrite orb_false_r. rewrite (proj2 (Z.eqb_neq rem 0)) by lia. simpl. dcase.
      + rewrite Z.bits_0. unfold masked_bit, longs in *.
        by rewrite bool_decide_eq_false_2 by lia.
      + rewrite masked_word by (done || lia). f_equal. lia. }
  unfold shr_word. rewrite mask_last_word; [by apply Hw|lia|done|lia|].
  intros i Hi Hge. rewrite Hw by done. unfold masked_bit. by rewrite bool_decide_eq_false_2 by lia.
Qed.

Lemma shl_word_bits k j :
  0 <= k < longs bits - shift / 32 -> 0 <= j < 32 ->
  Z.testbit (shl_word a (longs bits) (bits mod 32) (shift / 32) (shift mod 32) k) j =
  bool_decide (shift <= 32 * (k + shift / 32) + j < bits) &&
  bit_at a (32 * (k + shift / 32) + j - shift).
Proof.
  intros Hk Hj. pose proof Hok as (_ & Hsz & _).
  set (off := shift / 32) in *. set (rem := shift mod 32) in *.
  assert (shift = 32 * off + rem /\ 0 <= rem < 32) as [Hsh Hrem] by lia.
  assert (0 <= off) by lia. clearbody off rem.
  unfold shl_word. set (lower := if negb (rem =? 0) && _ then _ else 0).
  set (upper := if negb (bits mod 32 =? 0) && (k =? longs bits - 1) then _ else _).
  assert (forall i, 0 <= i < 32 ->
    Z.testbit (Z.lor (Z.shiftr lower (BITS_PER_LONG - rem)) (ul_shl upper rem)) i =
    if i <? rem then bool_decide (0 < k) && bit_at a (32 * k + i - rem)
    else masked_bit a bits (32 * k + (i - rem))) as Hw.
  { intros i Hi. rewrite Z.lor_spec, Z.shiftr_spec, ul_shl_spec by (unfold BITS_PER_LONG; lia).
    rewrite (bool_decide_eq_true_2 (i < 32)) by lia. unfold BITS_PER_LONG. dcase.
    - rewrite (Z.testbit_neg_r upper) by lia. subst lower.
      rewrite (proj2 (Z.eqb_neq rem 0)) by lia. simpl. case_bool_decide.
      + rewrite (proj2 (Z.ltb_lt 0 k)) by lia.
        replace (32 * k + i - rem) with (32 * (k - 1) + (i + (32 - rem))) by lia.
        rewrite bit_at_word by lia. btauto.
      + rewrite (proj2 (Z.ltb_ge 0 k)) by lia. rewrite Z.bits_0. btauto.
    - subst upper. rewrite masked_word by (done || lia). rewrite andb_true_l.
      rewrite (is_u32_bits lower); [done| |lia]. subst lower. dcase.
      + zbool. apply (rd_ok a bits (k - 1) Hok); unfold longs in *; lia.
      + unfold is_u32. lia. }
  destruct (negb (bits mod 32 =? 0) && (k + off =? longs bits - 1)) eqn:E.
  - zbool. rewrite Z.land_spec, Hw, mask_ones_spec by lia. unfold masked_bit, longs in *. dcase.
    + replace (32 * (k + off) + j - shift) with (32 * k + j - rem) by lia.
      repeat case_bool_decide; lia || btauto.
    + replace (32 * (k + off) + j - shift) with (32 * k + (j - rem)) by lia.
      repeat case_bool_decide; lia || btauto.
  - rewrite Hw by lia. unfold masked_bit, longs in *. apply andb_false_iff in E.
    assert (32 * (k + off) + j < bits) by (destruct E; zbool; lia). dcase.
    + replace (32 * (k + off) + j - shift) with (32 * k + j - rem) by lia.
      repeat case_bool_decide; lia || btauto.
    + replace (32 * (k + off) + j - shift) with (32 * k + (j - rem)) by lia.
      repeat case_bool_decide; lia || btauto.
Qed.
End shift.

Lemma bit_at_of_rd d i w : 0 <= i -> rd d (i / 32) = Some w -> bit_at d i = Z.testbit w (i mod 32).
Proof.
  intros Hi Hr. replace i with (32 * (i / 32) + i mod 32) at 1 by lia.
  apply rd_bit_at; [done|lia].
Qed.

(** A destination all of whose words below [longs bits] are known bit by bit. *)
Lemma bitmap_ok_words d bits (wf : Z -> Z) dst :
  bitmap_ok dst bits -> length d = length dst ->
  (forall k, 0 <= k < longs bits -> rd d k = Some (wf k) /\ is_u32 (wf k)) ->
  (forall k, longs bits <= k -> rd d k = rd dst k) ->
  bitmap_ok d bits.
Proof.
  intros (Hu & Hsz & Hlt) Hlen Hw Ho. split; [|rewrite Hlen; lia].
  apply Forall_rd. intros k w Hk. pose proof Hk as [? _]%rd_inv.
  destruct (Z_lt_ge_dec k (longs bits)).
  - destruct (Hw k) as [Hr ?]; [lia|]. by simplify_eq.
  - rewrite Ho in Hk by lia. by eapply rd_Forall.
Qed.

Lemma shr_word_u32 a bits off rem k :
  bitmap_ok a bits -> 0 <= off -> 0 <= k < longs bits - off -> 0 <= rem < 32 ->
  is_u32 (shr_word a (longs bits) (bits mod 32) off rem k).
Proof.
  intros Hok Ho Hk Hr. pose proof Hok as (_ & Hsz & _). unfold shr_word.
  set (upper := if _ || _ then _ else _).
  assert (is_u32 (Z.lor (ul_shl upper (BITS_PER_LONG - rem)) (Z.shiftr
    (if negb (bits mod 32 =? 0) && (off + k =? longs bits - 1)
     then Z.land (a !!! Z.to_nat (off + k)) (ul_shl 1 (bits mod 32) - 1)
     else a !!! Z.to_nat (off + k)) rem))).
  { apply is_u32_lor; [apply is_u32_shl|].
    apply is_u32_shiftr; [|lia]. apply masked_word_u32; [done|lia]. }
  match goal with |- is_u32 (if ?b then _ else _) => destruct b end; [|done].
  apply is_u32_land; [done|]. rewrite mask_ones by lia. apply is_u32_ones. lia.
Qed.

Lemma shl_word_u32 a bits off rem k :
  bitmap_ok a bits -> 0 <= off -> 0 <= k < longs bits - off -> 0 <= rem < 32 ->
  is_u32 (shl_word a (longs bits) (bits mod 32) off rem k).
Proof.
  intros Hok Ho Hk Hr. pose proof Hok as (_ & Hsz & _). unfold shl_word.
  set (lower := if negb (rem =? 0) && _ then _ else 0).
  assert (is_u32 lower).
  { subst lower. dcase; [|unfold is_u32; lia]. zbool.
    apply (rd_ok a bits (k - 1) Hok); unfold longs in *; lia. }
  assert (forall u, is_u32 (Z.lor (Z.shiftr lower (BITS_PER_LONG - rem)) (ul_shl u rem))).
  { intros u. apply is_u32_lor; [|apply is_u32_shl]. apply is_u32_shiftr; [done|].
    unfold BITS_PER_LONG. lia. }
  match goal with |- is_u32 (if ?b then _ else _) => destruct b end; [|done].
  apply is_u32_land; [done|]. rewrite mask_ones by lia. apply is_u32_ones. lia.
Qed.

(** The words written from the bottom, then zeros above them. *)
Lemma shr_result dst src shift bits d d' :
  bitmap_ok dst bits -> src_ok src dst bits -> bits < 4294967265 -> 0 <= shift -> shift / 32 <= longs bits ->
  (forall k, longs bits - shift / 32 <= k -> 0 <= k -> rd d k = rd dst k) ->
  (forall k, 0 <= k < longs bits - shift / 32 ->
     rd d k = Some (shr_word (get src dst) (longs bits) (bits mod 32) (shift / 32) (shift mod 32) k)) ->
  length d' = length dst ->
  (forall j, 0 <= j -> rd d' j =
     if bool_decide (longs bits - shift / 32 <= j < longs bits) then Some 0 else rd d j) ->
  bitmap_ok d' bits /\ forall i, 0 <= i < 32 * longs bits ->
    bit_at d' i = masked_bit (get src dst) bits (i + shift).
Proof.
  intros Hd Hs Hlt Hsh Hfit Hsm Hw Hlen' Hd'. pose proof Hd as (_ & Hsz & Hlt').
  set (off := shift / 32) in *. set (rem := shift mod 32) in *.
  assert (0 <= off /\ 0 <= rem < 32) as [Hoff Hrem] by lia. split.
  - pose (wf := fun k => if bool_decide (longs bits - off <= k) then 0
      else shr_word (get src dst) (longs bits) (bits mod 32) off rem k).
    apply (bitmap_ok_words d' bits wf dst); [done|done| |].
    + intros k Hk. rewrite Hd' by lia. unfold wf. repeat case_bool_decide; try lia.
      * split; [done|unfold is_u32; lia].
      * split; [apply Hw; lia|]. apply shr_word_u32; [done|lia..].
    + intros k Hk. rewrite Hd', bool_decide_eq_false_2 by (unfold longs in *; lia).
      apply Hsm; unfold longs in *; lia.
  - intros i Hi. specialize (Hd' (i / 32) ltac:(lia)). case_bool_decide.
    + rewrite (bit_at_of_rd d' i _ ltac:(lia) Hd'), Z.bits_0. unfold masked_bit.
      rewrite bool_decide_eq_false_2; [done|]. unfold longs in *. lia.
    + rewrite Hw in Hd' by lia. rewrite (bit_at_of_rd d' i _ ltac:(lia) Hd').
      rewrite (shr_word_bits _ bits shift) by (done || lia). f_equal. lia.
Qed.

Lemma bitmap_shift_right_spec dst src shift bits :
  bitmap_ok dst bits -> src_ok src dst bits -> bits < 4294967265 ->
  0 <= shift -> shift / 32 <= longs bits ->
  exists d, __bitmap_shift_right dst src shift bits = Some d /\ bitmap_ok d bits /\
    forall i, 0 <= i < 32 * longs bits ->
      bit_at d i = masked_bit (get src dst) bits (i + shift).
Proof.
  intros Hd Hs Hlt Hsh Hfit. pose proof Hd as (_ & Hsz & Hlt'). unfold __bitmap_shift_right.
  rewrite BITS_TO_LONGS_eq by lia. fold (longs bits). rewrite !quot32, !rem32 by lia.
  set (off := shift / 32) in *. set (rem := shift mod 32).
  set (body := fun (k : Z) (d : list Z) => _).
  destruct (wordwise_loop (fun k d =>
      upper ← (if (rem =? 0) || (longs bits <=? off + k + 1) then Some 0
             else upper ← rd (get src d) (off + k + 1);
               Some (if (off + k + 1 =? longs bits - 1) && negb (bits mod 32 =? 0)
                     then Z.land upper (ul_shl 1 (bits mod 32) - 1) else upper));
      lower ← rd (get src d) (off + k);
      let lower := if negb (bits mod 32 =? 0) && (off + k =? longs bits - 1)
                   then Z.land lower (ul_shl 1 (bits mod 32) - 1) else lower in
      let w := Z.lor (ul_shl upper (BITS_PER_LONG - rem)) (Z.shiftr lower rem) in
      Some (if negb (bits mod 32 =? 0) && (k =? longs bits - 1)
            then Z.land w (ul_shl 1 (bits mod 32) - 1) else w)) dst (longs bits - off)
    (shr_word (get src dst) (longs bits) (bits mod 32) off rem)) as (d & Hf & [Hlen Hsm] & Hw).
  { unfold longs in *. lia. }
  { intros k d Hk Hsm. assert (0 <= off) by lia.
    rewrite !(same_from_get src k d dst Hsm) by lia.
    destruct (rd_ok _ _ (off + k) Hs) as [-> _]; [lia|unfold longs in *; lia|].
    unfold shr_word. destruct ((rem =? 0) || (longs bits <=? off + k + 1)) eqn:E; [done|].
    apply orb_false_iff in E as [_ E]. zbool.
    destruct (rd_ok _ _ (off + k + 1) Hs) as [-> _]; [lia|unfold longs in *; lia|]. done. }
  match type of Hf with foreach _ _ ?g _ = _ =>
    rewrite (foreach_ext body g) by (intros k s Hk; subst body; simpl;
      destruct (if _ || _ then _ else _); [simpl|done]; by destruct (rd _ _)) end.
  rewrite Hf. clear body Hf. simpl.
  dcase.
  - destruct (zero_words_spec d (longs bits - off) off) as (d' & -> & Hlen' & Hz);
      [unfold longs in *; lia..|]. exists d'. split; [done|].
    apply (shr_result dst src shift bits d d'); [done..|lia|].
    intros j Hj. rewrite Hz by done. by replace (longs bits - off + off) with (longs bits) by lia.
  - exists d. split; [done|]. apply (shr_result dst src shift bits d d); [done..|]. intros j Hj. fold off.
    by rewrite bool_decide_eq_false_2 by lia.
Qed.

(** The words written from the top, then zeros below them. *)
Lemma shl_result dst src shift bits d d' :
  bitmap_ok dst bits -> src_ok src dst bits -> bits < 4294967265 -> 0 <= shift -> shift / 32 <= longs bits ->
  (forall k, 0 <= k -> rd d k =
     if bool_decide (longs bits - 1 - (longs bits - shift / 32) < k <= longs bits - 1)
     then Some (shl_word (get src dst) (longs bits) (bits mod 32) (shift / 32) (shift mod 32) (k - shift / 32))
     else rd dst k) ->
  length d' = length dst ->
  (forall j, 0 <= j -> rd d' j = if bool_decide (0 <= j < shift / 32) then Some 0 else rd d j) ->
  bitmap_ok d' bits /\ length d' = length dst /\ forall i, 0 <= i < 32 * longs bits ->
    bit_at d' i = bool_decide (shift <= i < bits) && bit_at (get src dst) (i - shift).
Proof.
  intros Hd Hs Hlt Hsh Hfit Hw Hlen' Hd'. pose proof Hd as (_ & Hsz & Hlt').
  set (off := shift / 32) in *. set (rem := shift mod 32) in *.
  assert (0 <= off /\ 0 <= rem < 32) as [Hoff Hrem] by lia. split; [|split; [done|]].
  - pose (wf := fun k => if bool_decide (k < off) then 0
      else shl_word (get src dst) (longs bits) (bits mod 32) off rem (k - off)).
    apply (bitmap_ok_words d' bits wf dst); [done|done| |].
    + intros k Hk. rewrite Hd' by lia. unfold wf. repeat case_bool_decide; try lia.
      * split; [done|unfold is_u32; lia].
      * split; [rewrite Hw, bool_decide_eq_true_2 by lia; done|].
        apply shl_word_u32; [done|lia..].
    + intros k Hk. rewrite Hd', bool_decide_eq_false_2 by (unfold longs in *; lia).
      rewrite Hw, bool_decide_eq_false_2 by (unfold longs in *; lia). done.
  - intros i Hi. specialize (Hd' (i / 32) ltac:(lia)). case_bool_decide.
    + rewrite (bit_at_of_rd d' i _ ltac:(lia) Hd'), Z.bits_0.
      by rewrite bool_decide_eq_false_2 by lia.
    + rewrite Hw, bool_decide_eq_true_2 in Hd' by lia.
      rewrite (bit_at_of_rd d' i _ ltac:(lia) Hd').
      rewrite (shl_word_bits _ bits shift) by (done || lia). fold off.
      replace (32 * (i / 32 - off + off) + i mod 32) with i by lia. done.
Qed.

Lemma bitmap_shift_left_spec dst src shift bits :
  bitmap_ok dst bits -> src_ok src dst bits -> bits < 4294967265 ->
  0 <= shift -> shift / 32 <= longs bits ->
  exists d, __bitmap_shift_left dst src shift bits = Some d /\ bitmap_ok d bits /\
    length d = length dst /\
    forall i, 0 <= i < 32 * longs bits ->
      bit_at d i = bool_decide (shift <= i < bits) && bit_at (get src dst) (i - shift).
Proof.
  intros Hd Hs Hlt Hsh Hfit. pose proof Hd as (_ & Hsz & Hlt'). unfold __bitmap_shift_left.
  rewrite BITS_TO_LONGS_eq by lia. fold (longs bits). rewrite !quot32, !rem32 by lia.
  set (off := shift / 32) in *. set (rem := shift mod 32).
  assert (0 <= off /\ 0 <= rem < 32) as [Hoff Hrem] by lia.
  set (body := fun (k : Z) (d : list Z) => _).
  destruct (wordwise_down (fun j d =>
      let k := longs bits - off - 1 - j in
      lower ← (if negb (rem =? 0) && (0 <? k) then rd (get src d) (k - 1) else Some 0);
      upper ← rd (get src d) k;
      let upper := if negb (bits mod 32 =? 0) && (k =? longs bits - 1)
                   then Z.land upper (ul_shl 1 (bits mod 32) - 1) else upper in
      let w := Z.lor (Z.shiftr lower (BITS_PER_LONG - rem)) (ul_shl upper rem) in
      Some (if negb (bits mod 32 =? 0) && (k + off =? longs bits - 1)
            then Z.land w (ul_shl 1 (bits mod 32) - 1) else w)) dst (longs bits - off)
      (longs bits - 1)
    (fun q => shl_word (get src dst) (longs bits) (bits mod 32) off rem (q - off)))
    as (d & Hf & Hlen & Hw).
  { unfold longs in *. lia. }
  { unfold longs in *. lia. }
  { intros j d Hj Hsm. cbv zeta. set (k := longs bits - off - 1 - j) in *.
    replace (longs bits - 1 - j - off) with k by lia.
    rewrite !(same_upto_get src _ d dst Hsm k) by lia.
    destruct (rd_ok _ _ k Hs) as [-> _]; [lia|unfold longs in *; lia|].
    unfold shl_word. destruct (negb (rem =? 0) && (0 <? k)) eqn:E; [|done]. zbool.
    rewrite !(same_upto_get src _ d dst Hsm (k - 1)) by lia.
    destruct (rd_ok _ _ (k - 1) Hs) as [-> _]; [lia|unfold longs in *; lia|]. done. }
  match type of Hf with foreach _ _ ?g _ = _ =>
    rewrite (foreach_ext body g) by (intros j s Hj; subst body; simpl;
      replace (longs bits - 1 - j) with (longs bits - off - 1 - j + off) by lia;
      destruct (if negb (rem =? 0) && _ then _ else _); [simpl|done]; by destruct (rd _ _)) end.
  rewrite Hf. clear body Hf. simpl.
  dcase.
  - destruct (zero_words_spec d 0 off) as (d' & -> & Hlen' & Hz);
      [unfold longs in *; lia..|]. exists d'. split; [done|].
    apply (shl_result dst src shift bits d d'); [done..|lia|].
    intros j Hj. rewrite Hz by done. by rewrite Z.add_0_l.
  - exists d. split; [done|]. apply (shl_result dst src shift bits d d); [done..|]. intros j Hj. fold off.
    by rewrite bool_decide_eq_false_2 by lia.
Qed.

(** Clearing words succeeds only inside the array. *)
Lemma zero_words_inside (dst d : list Z) at_ n :
  0 < n -> zero_words dst at_ n = Some d -> 0 <= at_ /\ at_ + n <= Z.of_nat (length dst).
Proof.
  intros Hn. unfold zero_words, foreach. replace (at_ + n - at_) with n by lia.
  remember (Z.to_nat n) as f eqn:Ef. revert dst at_ n Hn Ef. induction f as [|f IH]; intros dst at_ n Hn Ef; [lia|].
  rewrite foreach_up_S. destruct (wr dst at_ 0) as [a|] eqn:E; [|done]. apply wr_inv in E as [Hr ->].
  destruct (decide (n = 1)) as [->|]; [lia|]. intros H. apply (IH _ _ (n - 1)) in H; [|lia..].
  rewrite length_insert in H. lia.
Qed.

(** A shift by more words than the array has: no word is moved, and the words cleared are not all its own. *)
Lemma shift_too_far dst src shift bits :
  bitmap_ok dst bits -> bits < 2147483648 -> Z.of_nat (length dst) = longs bits -> longs bits < shift / 32 ->
  __bitmap_shift_right dst src shift bits = None /\ __bitmap_shift_left dst src shift bits = None.
Proof.
  intros (_ & Hb & _) Hlt Hlen Hfar. unfold __bitmap_shift_right, __bitmap_shift_left.
  rewrite BITS_TO_LONGS_eq by lia. fold (longs bits). rewrite !quot32, !rem32 by (unfold longs in *; lia).
  unfold foreach. replace (Z.to_nat (longs bits - shift / 32 - 0)) with 0%nat by lia.
  cbn [foreach_up mbind option_bind]. rewrite (proj2 (Z.eqb_neq (shift / 32) 0)) by lia. cbn [negb].
  assert (0 < shift / 32) as Hs by (unfold longs in *; lia).
  split.
  - destruct (zero_words dst (longs bits - shift / 32) (shift / 32)) as [d|] eqn:E; [|done].
    apply zero_words_inside in E; lia.
  - destruct (zero_words dst 0 (shift / 32)) as [d|] eqn:E; [|done]. apply zero_words_inside in E; lia.
Qed.

(** * Properties *)






(** C36: complement and the two shifts, in place or out of place: complement inverts the [bits] bits, a
    shift by [shift] moves bit [i + shift] to [i] (right) or [i - shift] to [i] (left), feeding
    zeros, provided that the whole words of the shift are no more than the words of the map, and all
    three leave the unused bits of the last word clear; a shift by more words than an array of exactly the
    map's words has makes both shifts clear words outside it. And, or, xor and andnot
    compute the bitwise operation of their operands in place or out of place (each operand may be
    the destination), leave the words beyond the map alone, and the flag of and/andnot is 0 exactly
    when every bit of every word of the result is clear: it is no function of the [bits] valid bits,
    and two operands whose maps of 4 bits do not intersect make it 1 by the unused bits of their
    last word. The predicates and the weight depend on the first [bits] bits only: empty, full,
    equal, intersects and subset return 1 exactly when no bit, every bit, no differing pair, some
    common bit, no bit outside the second map exists below [bits], and the weight is the number of
    set bits. *)
Theorem bitmap_operations :
  (forall dst src shift bits,
    bitmap_ok dst bits -> src_ok src dst bits -> bits < 2147483648 ->
      0 <= shift -> shift / 32 <= longs bits ->
      let b := bit_at (get src dst) in
      (exists d, __bitmap_complement dst src bits = Some d /\ bitmap_ok d bits /\
         forall i, 0 <= i < 32 * longs bits -> bit_at d i = bool_decide (i < bits) && negb (b i)) /\
      (exists d, __bitmap_shift_right dst src shift bits = Some d /\ bitmap_ok d bits /\
         forall i, 0 <= i < 32 * longs bits ->
           bit_at d i = bool_decide (i + shift < bits) && b (i + shift)) /\
      (exists d, __bitmap_shift_left dst src shift bits = Some d /\ bitmap_ok d bits /\
         forall i, 0 <= i < 32 * longs bits ->
           bit_at d i = bool_decide (shift <= i < bits) && b (i - shift))) /\
  (forall dst src shift bits,
    bitmap_ok dst bits -> bits < 2147483648 -> Z.of_nat (length dst) = longs bits -> longs bits < shift / 32 ->
      __bitmap_shift_right dst src shift bits = None /\ __bitmap_shift_left dst src shift bits = None) /\
  (forall dst b1 b2 bits,
    bitmap_ok dst bits -> src_ok b1 dst bits -> src_ok b2 dst bits -> bits < 4294967265 ->
      let a1 := bit_at (get b1 dst) in
      let a2 := bit_at (get b2 dst) in
      let result d (f : bool -> bool -> bool) :=
        bitmap_ok d bits /\
        (forall i, 0 <= i < 32 * longs bits -> bit_at d i = f (a1 i) (a2 i)) /\
        (forall i, 32 * longs bits <= i -> bit_at d i = bit_at dst i) in
      let flag d r := (r = 0 \/ r = 1) /\
        (r = 0 <-> forall i, 0 <= i < 32 * longs bits -> bit_at d i = false) in
      (exists d r, __bitmap_and dst b1 b2 bits = Some (d, r) /\ result d andb /\ flag d r) /\
      (exists d, __bitmap_or dst b1 b2 bits = Some d /\ result d orb) /\
      (exists d, __bitmap_xor dst b1 b2 bits = Some d /\ result d xorb) /\
      (exists d r, __bitmap_andnot dst b1 b2 bits = Some (d, r) /\
         result d (fun x y => x && negb y) /\ flag d r) /\
      __bitmap_and [0] (Own [0x100]) (Own [0x100]) 4 = Some ([0x100], 1) /\
      __bitmap_intersects [0x100] [0x100] 4 = Some 0) /\
  (forall a b bits,
    bitmap_ok a bits -> bitmap_ok b bits ->
      (exists r, __bitmap_empty a bits = Some r /\ exists_below (bit_at a) bits r 0 1) /\
      (exists r, __bitmap_full a bits = Some r /\
                 exists_below (fun i => negb (bit_at a i)) bits r 0 1) /\
      (exists r, __bitmap_equal a b bits = Some r /\
                 exists_below (fun i => xorb (bit_at a i) (bit_at b i)) bits r 0 1) /\
      (exists r, __bitmap_intersects a b bits = Some r /\
                 exists_below (fun i => bit_at a i && bit_at b i) bits r 1 0) /\
      (exists r, __bitmap_subset a b bits = Some r /\
                 exists_below (fun i => bit_at a i && negb (bit_at b i)) bits r 0 1) /\
      __bitmap_weight a bits = Some (count (bit_at a) (Z.to_nat bits))).
Proof.
  split_and!.
  { intros dst src shift bits.
    intros Hd Hs Hlt Hsh Hfit b. split; [apply bitmap_complement_spec; done || lia|].
    split; [apply bitmap_shift_right_spec; done || lia|].
    destruct (bitmap_shift_left_spec dst src shift bits) as (d & ? & ? & _ & ?); [done || lia..|].
    exists d. done. }
  { intros dst src shift bits. apply shift_too_far. }
  { intros dst b1 b2 bits.
    intros Hd H1 H2 Hlt a1 a2 result flag.
    assert (forall op bop,
      (forall x y, is_u32 x -> is_u32 y -> is_u32 (op x y)) ->
      (forall x y i, is_u32 x -> is_u32 y -> 0 <= i < 32 ->
         Z.testbit (op x y) i = bop (Z.testbit x i) (Z.testbit y i)) ->
      exists d res, bitmap_op2 op dst b1 b2 bits = Some (d, res) /\ result d bop /\
                    flag d (if res =? 0 then 0 else 1)) as Hgen.
    { intros op bop Hu Hb.
      destruct (bitmap_op2_bits op bop dst b1 b2 bits) as (d & res & -> & Hok & _ & Hin & Hout & Hf);
        [done..|]. exists d, res. split; [done|]. split; [done|]. unfold flag.
      rewrite <- Hf. destruct (res =? 0) eqn:E; zbool; split; auto; lia. }
    unfold __bitmap_and, __bitmap_or, __bitmap_xor, __bitmap_andnot.
    destruct (Hgen Z.land andb) as (d1 & r1 & -> & ? & ?);
      [auto with kernel|intros; apply Z.land_spec|].
    destruct (Hgen Z.lor orb) as (d2 & r2 & -> & ? & ?);
      [auto with kernel|intros; apply Z.lor_spec|].
    destruct (Hgen Z.lxor xorb) as (d3 & r3 & -> & ? & ?);
      [auto with kernel|intros; apply Z.lxor_spec|].
    destruct (Hgen (fun x y => Z.land x (ul_not y)) (fun x y => x && negb y)) as (d4 & r4 & -> & ? & ?);
      [apply andnot_u32|apply andnot_spec|].
    simpl. split; [|split; [|split; [|split; [|done]]]]; [exists d1, (if r1 =? 0 then 0 else 1)|exists d2|exists d3|
      exists d4, (if r4 =? 0 then 0 else 1)]; done. }
  { intros a b bits.
    intros Ha Hb. split; [by apply bitmap_empty_spec|]. split; [by apply bitmap_full_spec|].
    split; [by apply bitmap_equal_spec|]. split; [by apply bitmap_intersects_spec|].
    split; [by apply bitmap_subset_spec|by apply bitmap_weight_spec]. }
Qed.

Lemma bitmap_operations_witness :
  (exists d, __bitmap_shift_left [0x80000001; 3] SameAsDst 33 40 = Some d /\ bitmap_ok d 40) /\
  __bitmap_shift_left [0x80000001; 3] SameAsDst 96 40 = None /\
  (exists d, __bitmap_or [0x0F; 0] SameAsDst (Own [0xF0; 1]) 40 = Some d /\ bitmap_ok d 40) /\
  (__bitmap_weight [0xFFFFFFFF; 0xF7] 36 = Some 35 /\
    __bitmap_weight [0xFFFFFFFF; 0xF7] 36 =
      Some (count (bit_at [0xFFFFFFFF; 0xF7]) (Z.to_nat 36))).
Proof.
  split; [|split; [|split]].
  { destruct (proj1 bitmap_operations [0x80000001; 3] SameAsDst 33 40) as (_ & _ & (d & Hd & Hok & _));
      [split; [repeat constructor; unfold is_u32; lia|simpl; lia]..|lia|lia|vm_compute; congruence|].
    exists d. split; [exact Hd|exact Hok]. }
  { apply (proj1 (proj2 bitmap_operations) [0x80000001; 3] SameAsDst 96 40); [|lia|reflexivity|vm_compute; reflexivity].
    split; [repeat constructor; unfold is_u32; lia|simpl; lia]. }
  { destruct (proj1 (proj2 (proj2 bitmap_operations)) [0x0F; 0] SameAsDst (Own [0xF0; 1]) 40)
      as (_ & (d & Hd & Hok & _) & _);
      [split; [repeat constructor; unfold is_u32; lia|simpl; lia]..|lia|].
    exists d. split; [exact Hd|exact Hok]. }
  { split; [reflexivity|].
    assert (bitmap_ok [0xFFFFFFFF; 0xF7] 36)
      by (split; [repeat constructor; unfold is_u32; lia|simpl; lia]).
    by apply (proj2 (proj2 (proj2 bitmap_operations)) [0xFFFFFFFF; 0xF7] [0xFFFFFFFF; 0xF7] 36). }
Defined.

