(* ===== verification/BitmapAlloc.v ===== *)
(** Allocation in bitmaps: the ranges, zero-area searches and power-of-two regions of
    lib/bitmap.c, modelled in [Bitmap]. *)

From S2P Require Import Prelude Word FindBit Bitmap.
From Stdlib Require Import Lia Btauto.

(** * Ranges: bitmap_set and bitmap_clear *)

(** [upd] changes the bits under the mask by [g] and keeps the others. *)
Definition masks_with (upd : Z -> Z -> Z) (g : bool -> bool) : Prop :=
  forall w m, is_u32 w -> is_u32 m -> is_u32 (upd w m) /\
    forall i, 0 <= i < 32 ->
      Z.testbit (upd w m) i = if Z.testbit m i then g (Z.testbit w i) else Z.testbit w i.

Lemma masks_with_lor : masks_with Z.lor (fun _ => true).
Proof.
  intros w m Hw Hm. split; [by apply is_u32_lor|]. intros i Hi. rewrite Z.lor_spec.
  destruct (Z.testbit m i); btauto.
Qed.

Lemma masks_with_clear : masks_with (fun w m => Z.land w (ul_not m)) (fun _ => false).
Proof.
  intros w m Hw Hm. split; [by apply andnot_u32|]. intros i Hi. rewrite andnot_spec by done.
  destruct (Z.testbit m i); btauto.
Qed.

(** [map'] is [map] with [g] applied to the bits in [lo, hi). *)
Definition range_updated (g : bool -> bool) (map map' : list Z) (lo hi : Z) : Prop :=
  length map' = length map /\ Forall is_u32 map' /\
  forall i, 0 <= i -> bit_at map' i =
    if (lo <=? i) && (i <? hi) then g (bit_at map i) else bit_at map i.

Lemma range_updated_refl g map lo : Forall is_u32 map -> range_updated g map map lo lo.
Proof.
  intros Hu. split; [done|]. split; [done|]. intros i Hi.
  destruct ((lo <=? i) && (i <? lo)) eqn:E; [|done]. zbool. lia.
Qed.

(** Updating the bits [lo, hi) of word [p] extends the updated range. *)
Lemma range_updated_step upd g map map' start lo hi p m :
  masks_with upd g -> range_updated g map map' start (32 * p + lo) ->
  start <= 32 * p + lo -> 0 <= start -> 0 <= lo <= hi -> hi <= 32 ->
  0 <= p < Z.of_nat (length map) -> is_u32 m ->
  (forall i, 0 <= i < 32 -> Z.testbit m i = bool_decide (lo <= i < hi)) ->
  exists w, rd map' p = Some w /\ wr map' p (upd w m) = Some (<[Z.to_nat p := upd w m]> map') /\
    range_updated g map (<[Z.to_nat p := upd w m]> map') start (32 * p + hi).
Proof.
  intros Hupd (Hlen & Hu & Hb) Hle Hs Hlo Hhi Hp Hm Hmb.
  exists (map' !!! Z.to_nat p). rewrite rd_total, wr_Some by lia.
  assert (is_u32 (map' !!! Z.to_nat p)) as Hw by (apply Forall_total; [done|lia]).
  destruct (Hupd _ m Hw Hm) as [Hu' Hbit]. split; [done|]. split; [done|].
  split; [by rewrite length_insert|]. split; [by apply Forall_insert_total|].
  intros i Hi. rewrite bit_at_insert by lia. case_bool_decide.
  - rewrite Hbit, Hmb by lia. fold (bit_at map' i). subst p.
    replace (Z.testbit (map' !!! Z.to_nat (i / 32)) (i mod 32)) with (bit_at map' i) by done.
    rewrite Hb by lia. case_bool_decide.
    + assert ((start <=? i) && (i <? 32 * (i / 32) + hi) = true) as -> by lia.
      assert ((start <=? i) && (i <? 32 * (i / 32) + lo) = false) as -> by lia. done.
    + assert ((start <=? i) && (i <? 32 * (i / 32) + hi) =
              (start <=? i) && (i <? 32 * (i / 32) + lo)) as -> by lia. done.
  - rewrite Hb by lia. assert ((start <=? i) && (i <? 32 * p + hi) =
              (start <=? i) && (i <? 32 * p + lo)) as -> by lia. done.
Qed.

Lemma first_mask_spec start i :
  0 <= start -> 0 <= i < 32 ->
  Z.testbit (BITMAP_FIRST_WORD_MASK start) i = bool_decide (start mod 32 <= i < 32).
Proof.
  intros Hs Hi. unfold BITMAP_FIRST_WORD_MASK. rewrite rem32 by lia. apply mask_ge_spec; lia.
Qed.

(** The [n] bits left for the last word, from [cur] on. *)
Lemma fill_last_word upd g map map' start cur n mask :
  masks_with upd g -> 0 <= start <= cur -> 0 < n < 32 - cur mod 32 -> cur + n <= 32 * Z.of_nat (length map) ->
  is_u32 mask -> (forall i, 0 <= i < 32 -> Z.testbit mask i = bool_decide (cur mod 32 <= i < 32)) ->
  range_updated g map map' start cur ->
  exists w map2, rd map' (cur / 32) = Some w /\
    wr map' (cur / 32) (upd w (Z.land mask (BITMAP_LAST_WORD_MASK (cur + n)))) = Some map2 /\
    range_updated g map map2 start (cur + n).
Proof.
  intros Hupd Hs Hn Hfit Hm Hmb Hr. assert ((cur + n) mod 32 = cur mod 32 + n) as Hmod by lia.
  destruct (range_updated_step upd g map map' start (cur mod 32) (cur mod 32 + n) (cur / 32)
    (Z.land mask (BITMAP_LAST_WORD_MASK (cur + n)))) as (w & Hrd & Hwr & Hr'); [done| |lia..| | |].
  { by replace (32 * (cur / 32) + cur mod 32) with cur by lia. }
  { apply is_u32_land; [done|]. apply last_mask_u32. lia. }
  { intros i Hi. rewrite Z.land_spec, Hmb, last_mask_spec, Hmod by lia.
    repeat case_bool_decide; done || lia. }
  exists w. eexists. split; [done|]. split; [exact Hwr|].
  by replace (32 * (cur / 32) + (cur mod 32 + n)) with (cur + n) in Hr' by lia.
Qed.

Lemma bitmap_fill_spec upd g map start nr :
  masks_with upd g -> Forall is_u32 map -> 0 <= start -> 0 <= nr ->
  start + nr <= 32 * Z.of_nat (length map) -> start + nr < 2147483648 ->
  exists map', bitmap_fill upd map start nr = Some map' /\
               range_updated g map map' start (start + nr).
Proof.
  intros Hupd Hu Hs Hnr Hfit Hint. unfold bitmap_fill. rewrite s32_small, BIT_WORD_div, rem32 by lia.
  set (Inv := fun '(map', p, n, bts, mask) => exists cur : Z,
    cur = start + nr - n /\ start <= cur /\ 0 <= n /\ p = cur / 32 /\ bts = 32 - cur mod 32 /\
    is_u32 mask /\
    (forall i, 0 <= i < 32 -> Z.testbit mask i = bool_decide (cur mod 32 <= i < 32)) /\
    range_updated g map map' start cur).
  destruct (loop_rule Inv (fun '(_, p, _, _, _) => (length map - Z.to_nat p)%nat)
    (fun '(map', p, n, mask) => exists cur : Z,
      cur = start + nr - n /\ start <= cur /\ 0 <= n < 32 - cur mod 32 /\ p = cur / 32 /\
      is_u32 mask /\
      (forall i, 0 <= i < 32 -> Z.testbit mask i = bool_decide (cur mod 32 <= i < 32)) /\
      range_updated g map map' start cur)
    (fun '(map, p, nr, bits_to_set, mask_to_set) =>
      if 0 <=? nr - bits_to_set then
        w ← rd map p; map ← wr map p (upd w mask_to_set);
        Some (Next (map, p + 1, nr - bits_to_set, BITS_PER_LONG, ULONG_MAX))
      else Some (Ret (map, p, nr, mask_to_set))) (S (length map))
    (map, start / 32, nr, BITS_PER_LONG - start mod 32, BITMAP_FIRST_WORD_MASK start))
    as ([[[map' p] n] mask] & -> & (cur & -> & Hcs & Hn & -> & Hm & Hmb & Hr)).
  - intros [[[[map' p] n] bts] mask] (cur & Ec & Hcs & Hn & -> & -> & Hm & Hmb & Hr).
    destruct (0 <=? n - (32 - cur mod 32)) eqn:E; zbool.
    + destruct (range_updated_step upd g map map' start (cur mod 32) 32 (cur / 32) mask)
        as (w & -> & Hwr & Hr'); [done| |lia..|done|done|].
      { by replace (32 * (cur / 32) + cur mod 32) with cur by lia. }
      simpl. rewrite Hwr. simpl. split; [|lia].
      exists (32 * (cur / 32) + 32). unfold BITS_PER_LONG.
      split; [lia|]. split; [lia|]. split; [lia|]. split; [lia|]. split; [lia|].
      split; [apply is_u32_max|]. split; [|done].
      intros i Hi. rewrite ulong_max_spec. apply bool_decide_ext. lia.
    + exists cur. repeat (split; [done || lia|]). done.
  - exists start. unfold BITS_PER_LONG. repeat (split; [done || lia|]).
    split; [apply is_u32_shl|]. split; [|by apply range_updated_refl].
    intros i Hi. by apply first_mask_spec.
  - lia.
  - simpl. destruct (negb (n =? 0)) eqn:E; zbool.
    + destruct (fill_last_word upd g map map' start (start + nr - n) n mask) as (w & map2 & -> & Hwr & Hr2); [done || lia..|].
      replace (start + nr - n + n) with (start + nr) in * by lia.
      cbn [mbind option_bind]. rewrite Hwr. by exists map2.
    + exists map'. split; [done|]. subst n. by rewrite Z.sub_0_r in Hr.
Qed.

(** * Aligned zero areas *)

Lemma land_not_ones k x :
  is_u32 x -> 0 <= k <= 32 -> Z.land x (ul_not (2 ^ k - 1)) = 2 ^ k * (x / 2 ^ k).
Proof.
  intros Hx Hk. assert (2 ^ k - 1 = Z.ones k) as -> by (rewrite Z.ones_equiv; lia).
  transitivity (Z.shiftl (Z.shiftr x k) k);
    [|rewrite Z.shiftl_mul_pow2, Z.shiftr_div_pow2 by lia; lia].
  apply Z.bits_inj'. intros i Hi.
  rewrite Z.land_spec, ul_not_spec, Z.shiftl_spec by (try apply is_u32_ones; lia).
  destruct (Z_lt_ge_dec i k).
  - rewrite (Z.testbit_neg_r _ (i - k)), Z.ones_spec_low by lia. btauto.
  - rewrite Z.shiftr_spec, Z.ones_spec_high by lia. replace (i - k + k) with i by lia.
    case_bool_decide; [btauto|]. rewrite is_u32_bits by (done || lia). done.
Qed.

(** [aligned k q]: [q] is a multiple of [2^k]. *)
Definition aligned (k q : Z) : Prop := q mod 2 ^ k = 0.

Lemma align_up_spec k x :
  0 <= k <= 32 -> 0 <= x -> x + 2 ^ k - 1 < 4294967296 ->
  let r := __ALIGN_MASK x (2 ^ k - 1) in
  x <= r < x + 2 ^ k /\ aligned k r /\ forall q, x <= q -> aligned k q -> r <= q.
Proof.
  intros Hk Hx Hlt. assert (0 < 2 ^ k) as Hp by (apply Z.pow_pos_nonneg; lia).
  unfold __ALIGN_MASK, aligned. rewrite u32_small by (unfold is_u32; lia).
  rewrite land_not_ones by (unfold is_u32; lia).
  pose proof (Z.div_mod (x + (2 ^ k - 1)) (2 ^ k) ltac:(lia)) as Hd.
  pose proof (Z.mod_pos_bound (x + (2 ^ k - 1)) (2 ^ k) Hp) as Hm.
  split; [lia|]. split; [by rewrite Z.mul_comm, Z.mod_mul by lia|].
  intros q Hq Ha. apply Z.mod_divide in Ha; [|lia]. destruct Ha as [c ->].
  assert ((x + (2 ^ k - 1)) / 2 ^ k <= c); [|nia].
  apply Z.lt_succ_r. apply Z.div_lt_upper_bound; [lia|]. nia.
Qed.

(** No bit of [lo, lo + n) is set. *)
Definition free_area (map : list Z) (lo n : Z) : Prop :=
  forall i, lo <= i < lo + n -> bit_at map i = false.

(** The answer of the search: the first aligned free area from [start], or a value above [size]
    when none fits. *)
Definition first_area (map : list Z) (size start nr k r : Z) : Prop :=
  (start <= r /\ r + nr <= size /\ aligned k r /\ free_area map r nr /\
   forall q, start <= q < r -> aligned k q -> ~ free_area map q nr) \/
  (size < r /\ forall q, start <= q -> q + nr <= size -> aligned k q -> ~ free_area map q nr).

Lemma first_area_weaken map size start start' nr k r :
  start <= start' ->
  (forall q, start <= q < start' -> q + nr <= size -> aligned k q -> ~ free_area map q nr) ->
  first_area map size start' nr k r -> first_area map size start nr k r.
Proof.
  intros Hs Hskip [(H1 & H2 & H3 & H4 & H5)|[H1 H2]].
  - left. split; [lia|]. repeat (split; [done|]). intros q Hq.
    destruct (Z_lt_ge_dec q start'); [apply Hskip; lia|apply H5; lia].
  - right. split; [done|]. intros q Hq Hfit.
    destruct (Z_lt_ge_dec q start'); [by apply Hskip; lia|by apply H2; lia].
Qed.

Lemma find_next_zero_area_spec map size start nr k :
  bitmap_ok map size -> 0 <= start <= size -> 0 < nr -> 0 <= k <= 32 ->
  size + nr + 2 ^ k < 4294967296 ->
  exists r, bitmap_find_next_zero_area map size start nr (2 ^ k - 1) = Some r /\
            first_area map size start nr k r.
Proof.
  intros Hok Hst Hnr Hk Hlt. pose proof Hok as (Hu & Hsz & _).
  assert (0 < 2 ^ k) by (apply Z.pow_pos_nonneg; lia).
  apply (loop_rule (fun s => start <= s <= size /\
      forall r, first_area map size s nr k r -> first_area map size start nr k r)
    (fun s => Z.to_nat (size - s))); [|split; [lia|auto]|lia].
  intros s [Hs Hw].
  destruct (find_next_zero_bit_spec map size s Hok) as (z & -> & Hz); [unfold is_u32; lia|].
  assert (s <= z <= size /\ forall i, s <= i < z -> bit_at map i = true) as [Hzr Hzs].
  { unfold is_next in Hz. destruct (size <=? s) eqn:E; zbool; [split; [lia|intros; lia]|].
    destruct Hz as (? & Hz & _). split; [lia|]. intros i Hi. apply negb_false_iff. by apply Hz. }
  destruct (align_up_spec k z) as (Hidx & Hal & Hleast); [lia..|].
  cbn -[__ALIGN_MASK]. set (index := __ALIGN_MASK z (2 ^ k - 1)) in *.
  rewrite (u32_small (index + nr)) by (unfold is_u32; lia).
  assert (forall q, s <= q < index -> aligned k q -> ~ free_area map q nr) as Hbefore.
  { intros q Hq Ha Hfree. destruct (Z_lt_ge_dec q z); [|specialize (Hleast q); lia].
    specialize (Hfree q ltac:(lia)). rewrite Hzs in Hfree by lia. done. }
  destruct (size <? index + nr) eqn:E; zbool.
  { apply Hw. right. split; [lia|]. intros q Hq Hfit Ha. apply Hbefore; [lia|done]. }
  destruct (find_next_bit_spec map (index + nr) index) as (i & -> & Hi);
    [split; [done|lia]|unfold is_u32; lia|].
  unfold is_next in Hi. rewrite (proj2 (Z.leb_gt _ _)) in Hi by lia.
  destruct Hi as (Hir & Hclear & Hset). simpl. destruct (i <? index + nr) eqn:E'; zbool.
  - rewrite u32_small by (unfold is_u32; lia). split; [|lia]. split; [lia|].
    intros r Hr. apply Hw. eapply first_area_weaken; [| |exact Hr]; [lia|].
    intros q Hq Hfit Ha. destruct (Z_lt_ge_dec q index); [apply Hbefore; [lia|done]|].
    intros Hfree. specialize (Hfree i ltac:(lia)). rewrite Hset in Hfree by done. done.
  - apply Hw. left. split; [lia|]. split; [lia|]. split; [done|]. split; [|done].
    intros j Hj. apply Hclear. lia.
Qed.

(** * Power-of-two regions *)

(** The mask __reg_op builds: min(2^order, 32) ones at the region's offset in its word. *)
Definition reg_mask (pos order : Z) : Z :=
  let m := ul_shl 1 (Z.min (Z.shiftl 1 order) BITS_PER_LONG - 1) in
  ul_shl (u32 (m + (m - 1))) (pos - pos `quot` BITS_PER_LONG * BITS_PER_LONG).

Lemma reg_mask_bits pos order j :
  0 <= pos -> 0 <= order <= 30 -> 0 <= j < 32 ->
  Z.testbit (reg_mask pos order) j =
  bool_decide (pos mod 32 <= j < pos mod 32 + Z.min (2 ^ order) 32).
Proof.
  intros Hp Ho Hj. unfold reg_mask. rewrite quot32 by lia. unfold BITS_PER_LONG.
  rewrite Z.shiftl_1_l. assert (0 < 2 ^ order) by (apply Z.pow_pos_nonneg; lia).
  set (m := Z.min (2 ^ order) 32). assert (1 <= m <= 32) by lia. clearbody m.
  assert (ul_shl 1 (m - 1) = 2 ^ (m - 1)) as ->.
  { unfold ul_shl. rewrite Z.shiftl_1_l. apply u32_small. split; [apply Z.pow_nonneg; lia|].
    change 4294967296 with (2 ^ 32). apply Z.pow_lt_mono_r; lia. }
  assert (2 ^ (m - 1) + (2 ^ (m - 1) - 1) = Z.ones m) as ->.
  { rewrite Z.ones_equiv. replace m with (Z.succ (m - 1)) at 3 by lia.
    rewrite Z.pow_succ_r by lia. lia. }
  rewrite (u32_small (Z.ones m)) by (apply is_u32_ones; lia).
  replace (pos - pos / 32 * 32) with (pos mod 32) by lia.
  rewrite ul_shl_spec, (bool_decide_eq_true_2 (j < 32)) by lia. rewrite andb_true_l.
  case_bool_decide; [apply Z.ones_spec_low; lia|].
  destruct (Z_lt_ge_dec j (pos mod 32)); [by apply Z.testbit_neg_r; lia|].
  apply Z.ones_spec_high. lia.
Qed.

(** How far a loop over the region's words has come after word [q - 1]. *)
Definition reg_cur (pos n q : Z) : Z := Z.min (pos + n) (Z.max pos (32 * q)).

(** Geometry of an aligned region: it lies in one word, or fills whole words. *)
Lemma reg_geometry pos order :
  0 <= pos -> 0 <= order <= 30 -> aligned order pos ->
  let n := 2 ^ order in
  let index := pos / 32 in
  let nl := (n + 31) / 32 in
  0 < n /\ 0 < nl /\ reg_cur pos n index = pos /\ reg_cur pos n (index + nl) = pos + n /\
  forall i, 0 <= i < nl ->
    let p := index + i in
    let lo := reg_cur pos n p - 32 * p in
    let hi := reg_cur pos n (p + 1) - 32 * p in
    0 <= lo <= hi /\ hi <= 32 /\ lo < hi /\ 32 * p < pos + n /\
    forall j, 0 <= j < 32 -> Z.testbit (reg_mask pos order) j = bool_decide (lo <= j < hi).
Proof.
  intros Hp Ho Ha n index nl.
  assert (0 < n) by (apply Z.pow_pos_nonneg; lia).
  assert ((n <= 16 /\ pos mod 32 + n <= 32) \/ (32 <= n /\ n mod 32 = 0 /\ pos mod 32 = 0)) as Hc.
  { unfold aligned in Ha. subst n. destruct (Z_lt_ge_dec order 5).
    - left. assert (order = 0 \/ order = 1 \/ order = 2 \/ order = 3 \/ order = 4)
        as [->|[->|[->|[->| ->]]]] by lia; cbn in Ha |- *; lia.
    - right. replace order with (5 + (order - 5)) in * by lia.
      rewrite Z.pow_add_r in * by lia. change (2 ^ 5) with 32 in *.
      assert (0 < 2 ^ (order - 5)) by (apply Z.pow_pos_nonneg; lia).
      apply Z.mod_divide in Ha; [|lia]. destruct Ha as [c ->].
      split; [lia|]. split; [by rewrite Z.mul_comm, Z.mod_mul by lia|].
      replace (c * (32 * 2 ^ (order - 5))) with ((c * 2 ^ (order - 5)) * 32) by lia.
      by rewrite Z.mod_mul by lia. }
  subst index nl. unfold reg_cur. split; [done|]. split; [lia|]. split; [lia|]. split; [lia|].
  intros i Hi. cbv zeta. split; [lia|]. split; [lia|]. split; [lia|]. split; [lia|].
  intros j Hj. rewrite reg_mask_bits by lia. fold n. apply bool_decide_ext. lia.
Qed.

Lemma reg_mask_u32 pos order : is_u32 (reg_mask pos order).
Proof. apply is_u32_shl. Qed.

(** The size of a region is an int. *)
Lemma reg_size order : 0 <= order <= 30 -> 0 < 2 ^ order <= 1073741824 /\ s32 (Z.shiftl 1 order) = Z.shiftl 1 order.
Proof.
  intros Ho. assert (2 ^ order <= 2 ^ 30) as Hle by (apply Z.pow_le_mono_r; lia). change (2 ^ 30) with 1073741824 in Hle.
  assert (0 < 2 ^ order) by (apply Z.pow_pos_nonneg; lia). split; [done|]. apply s32_small. rewrite Z.shiftl_1_l. lia.
Qed.

Lemma reg_nlongs order :
  0 <= order <= 30 ->
  BITS_TO_LONGS (Z.shiftl 1 order) = (2 ^ order + 31) / 32.
Proof.
  intros Hord.
  rewrite Z.shiftl_1_l. apply BITS_TO_LONGS_eq. destruct (reg_size order Hord). lia.
Qed.

Section region.
Context (map : list Z) (pos order : Z).
Hypothesis Hu : Forall is_u32 map.
Hypothesis Hpos : 0 <= pos.
Hypothesis Hord : 0 <= order <= 30.
Hypothesis Hal : aligned order pos.
Hypothesis Hfit : pos + 2 ^ order <= 32 * Z.of_nat (length map).

Lemma reg_update_spec upd g :
  masks_with upd g ->
  exists b, foreach 0 (BITS_TO_LONGS (Z.shiftl 1 order)) (fun i b =>
      w ← rd b (pos `quot` BITS_PER_LONG + i);
      wr b (pos `quot` BITS_PER_LONG + i) (upd w (reg_mask pos order))) map = Some b /\
    range_updated g map b pos (pos + 2 ^ order).
Proof.
  intros Hupd. rewrite reg_nlongs, quot32 by done.
  destruct (reg_geometry pos order) as (Hn & Hnl & Hc0 & Hc1 & Hw); [done..|].
  rewrite <- Hc1.
  apply (foreach_rule (fun i b => range_updated g map b pos (reg_cur pos (2 ^ order) (pos / 32 + i)))).
  - lia.
  - intros i b Hi Hr. destruct (Hw i Hi) as (Hlo & Hhi & Hlt & Hin & Hm).
    set (p := pos / 32 + i) in *. set (lo := reg_cur pos _ p - 32 * p) in *.
    set (hi := reg_cur pos _ (p + 1) - 32 * p) in *.
    assert (pos <= 32 * p + lo) by (unfold lo, reg_cur; lia).
    destruct (range_updated_step upd g map b pos lo hi p (reg_mask pos order))
      as (w & -> & Hwr & Hr'); [done| |lia..|apply reg_mask_u32|done|].
    { by replace (32 * p + lo) with (reg_cur pos (2 ^ order) p) by lia. }
    simpl. rewrite Hwr. eexists. split; [done|].
    replace (pos / 32 + (i + 1)) with (p + 1) by lia.
    by replace (32 * p + hi) with (reg_cur pos (2 ^ order) (p + 1)) in Hr' by lia.
  - rewrite Z.add_0_r, Hc0. by apply range_updated_refl.
Qed.

Lemma reg_alloc_spec :
  exists b, __reg_op map pos order REG_OP_ALLOC = Some (b, 0) /\
            range_updated (fun _ => true) map b pos (pos + 2 ^ order).
Proof.
  destruct (reg_update_spec Z.lor _ masks_with_lor) as (b & Hb & Hr).
  exists b. split; [|done]. unfold __reg_op. rewrite (proj2 (reg_size order Hord)). unfold reg_mask in Hb. by rewrite Hb.
Qed.

Lemma reg_release_spec :
  exists b, __reg_op map pos order REG_OP_RELEASE = Some (b, 0) /\
            range_updated (fun _ => false) map b pos (pos + 2 ^ order).
Proof.
  destruct (reg_update_spec _ _ masks_with_clear) as (b & Hb & Hr).
  exists b. split; [|done]. unfold __reg_op. rewrite (proj2 (reg_size order Hord)). unfold reg_mask in Hb. by rewrite Hb.
Qed.

Lemma reg_isfree_spec :
  exists r, __reg_op map pos order REG_OP_ISFREE = Some (map, r) /\
            (r = 0 \/ r = 1) /\ (r = 1 <-> free_area map pos (2 ^ order)).
Proof.
  unfold __reg_op. rewrite (proj2 (reg_size order Hord)), reg_nlongs, quot32 by done.
  destruct (reg_geometry pos order) as (Hn & Hnl & Hc0 & Hc1 & Hw); [done..|].
  pose proof (for_range_rule
    (fun i (_ : unit) => forall q, pos <= q < reg_cur pos (2 ^ order) (pos / 32 + i) ->
       bit_at map q = false)
    (fun _ : unit => ~ free_area map pos (2 ^ order))
    (fun i _ => w ← rd map (pos / 32 + i);
       Some (if negb (Z.land w (reg_mask pos order) =? 0) then Ret tt else Next tt))
    0 ((2 ^ order + 31) / 32) tt) as H.
  match type of H with _ -> ?A -> ?B -> _ => assert A as HA; [|assert B as HB] end.
  { intros i s Hi Hprev. destruct (Hw i Hi) as (Hlo & Hhi & Hlt & Hin & Hm).
    set (p := pos / 32 + i) in *. set (lo := reg_cur pos _ p - 32 * p) in *.
    set (hi := reg_cur pos _ (p + 1) - 32 * p) in *. rewrite rd_total by lia. simpl.
    destruct (word_search map p lo hi (Z.land (map !!! Z.to_nat p) (reg_mask pos order)))
      as [Hz Hnz]; [|lia|lia| |].
    { apply is_u32_land; [|apply reg_mask_u32]. apply Forall_total; [done|lia]. }
    { intros j Hj. rewrite Z.land_spec, Hm, bit_at_word by done. btauto. }
    assert (reg_cur pos (2 ^ order) p = 32 * p + lo) as Ec by lia.
    assert (reg_cur pos (2 ^ order) (pos / 32 + (i + 1)) = 32 * p + hi) as ->
      by (replace (pos / 32 + (i + 1)) with (p + 1) by lia; lia).
    assert (pos <= 32 * p + lo /\ 32 * p + hi <= pos + 2 ^ order) as [? ?]
      by (unfold lo, hi, reg_cur; lia).
    dcase.
    - destruct (Hnz Heqb) as (Hr & Hset & _). intros Hfree.
      rewrite Hfree in Hset by lia. done.
    - intros q Hq. destruct (Z_lt_ge_dec q (32 * p + lo)); [apply Hprev; lia|].
      apply (Hz Heqb). lia. }
  { intros q. rewrite Z.add_0_r, Hc0. lia. }
  specialize (H ltac:(lia) HA HB). cbv beta in H. rewrite Hc1 in H.
  unfold reg_mask in H. rewrite quot32 in H by lia.
  destruct (for_range _ _ _ _) as [[s|r]|]; [| |done]; simpl; eexists; (split; [done|]).
  - split; [by right|]. split; [|done]. intros _ q Hq. apply H. lia.
  - split; [by left|]. split; [done|]. intros Hf. exfalso. by apply H.
Qed.
End region.

(** The lowest aligned free region below [bits], if any. *)
Definition first_region (map : list Z) (bits order r : Z) : Prop :=
  0 <= r /\ r + 2 ^ order <= bits /\ aligned order r /\ free_area map r (2 ^ order) /\
  forall q, 0 <= q < r -> aligned order q -> ~ free_area map q (2 ^ order).

Lemma find_free_region_spec map bits order :
  bitmap_ok map bits -> 0 <= order <= 30 -> bits + 2 ^ order < 2147483648 ->
  exists b r, bitmap_find_free_region map bits order = Some (b, r) /\
    ((first_region map bits order r /\
      range_updated (fun _ => true) map b r (r + 2 ^ order)) \/
     (r = - ENOMEM /\ b = map /\ forall q, 0 <= q -> q + 2 ^ order <= bits -> aligned order q ->
        ~ free_area map q (2 ^ order))).
Proof.
  intros (Hu & Hsz & Hlt) Ho Hint. destruct (reg_size order Ho) as [? Hsize].
  enough (exists br, bitmap_find_free_region map bits order = Some br /\
    ((first_region map bits order (snd br) /\
      range_updated (fun _ => true) map (fst br) (snd br) (snd br + 2 ^ order)) \/
     (snd br = - ENOMEM /\ fst br = map /\ forall q, 0 <= q -> q + 2 ^ order <= bits ->
        aligned order q -> ~ free_area map q (2 ^ order)))) as ([b r] & ? & ?) by eauto.
  apply (loop_rule (fun pos => 0 <= pos <= bits /\ aligned order pos /\
    forall q, 0 <= q < pos -> aligned order q -> ~ free_area map q (2 ^ order))
    (fun pos => Z.to_nat (bits + 1 - pos)));
    [|split; [lia|split; [by apply Z.mod_0_l; lia|intros; lia]]|lia].
  intros pos (Hp & Ha & Hbefore). rewrite Hsize, Z.shiftl_1_l, s32_small by lia. cbv zeta.
  destruct (pos + 2 ^ order <=? bits) eqn:E; zbool.
  - destruct (reg_isfree_spec map pos order) as (free & -> & Hfr & Hfree); [done || lia..|].
    cbn -[__reg_op s32]. destruct (free =? 0) eqn:Ef; zbool.
    + split; [|lia]. split; [lia|]. split.
      * unfold aligned in *. rewrite <- Zplus_mod_idemp_l, Ha. by rewrite Z.add_0_l, Z.mod_same by lia.
      * intros q Hq Hqa. destruct (Z_lt_ge_dec q pos); [apply Hbefore; [lia|done]|].
        destruct (decide (q = pos)) as [->|]; [intros Hf%Hfree; congruence|].
        exfalso. unfold aligned in *. apply Z.mod_divide in Ha as [c ->]; [|lia].
        apply Z.mod_divide in Hqa as [d ->]; [|lia].
        assert (c < d < c + 1) by (split; apply (Z.mul_lt_mono_pos_r (2 ^ order)); lia). lia.
    + destruct (reg_alloc_spec map pos order) as (b & -> & Hr); [done || lia..|]. simpl.
      left. split; [|done]. split; [lia|]. split; [done|]. split; [done|]. split; [|done].
      apply Hfree. lia.
  - right. split; [done|]. split; [done|]. intros q Hq Hfit Hqa.
    destruct (Z_lt_ge_dec q pos); [apply Hbefore; [lia|done]|lia].
Qed.

(** With a map of 2^31 - 1 bits and regions of 2^30, the sum [pos + (1 << order)] of the second turn
    overflows to a negative number, and the last region is given out although it does not fit. *)
Lemma find_free_region_overflow map bits :
  bitmap_ok map bits -> bits = 2147483647 -> bit_at map 0 = true -> free_area map 1073741824 1073741824 ->
  exists b, bitmap_find_free_region map bits 30 = Some (b, 1073741824).
Proof.
  intros (Hu & Hsz & _) Hbits H0 Hf. unfold bitmap_find_free_region. rewrite (proj2 (reg_size 30 ltac:(lia))).
  change (Z.shiftl 1 30) with 1073741824.
  rewrite loop_unfold. cbv beta zeta. change (s32 (0 + 1073741824)) with 1073741824. assert (1073741824 <=? bits = true) as -> by lia.
  destruct (reg_isfree_spec map 0 30) as (r & -> & Hr & Hfr); [done|lia|lia|done|change (2 ^ 30) with 1073741824; lia|].
  change (2 ^ 30) with 1073741824 in Hfr. cbn [mbind option_bind].
  assert (r =? 0 = true) as ->.
  { destruct Hr as [->|Hr]; [done|]. apply Hfr in Hr. specialize (Hr 0 ltac:(lia)). simpl in Hr. congruence. }
  rewrite loop_unfold. cbv beta zeta. change (s32 (1073741824 + 1073741824)) with (-2147483648).
  assert (-2147483648 <=? bits = true) as -> by lia.
  destruct (reg_isfree_spec map 1073741824 30) as (r' & -> & _ & Hfr'); [done|lia|lia|done|change (2 ^ 30) with 1073741824; lia|].
  change (2 ^ 30) with 1073741824 in Hfr'. cbn [mbind option_bind]. rewrite (proj2 Hfr' Hf). cbn [Z.eqb].
  destruct (reg_alloc_spec map 1073741824 30) as (b & -> & _); [done|lia|lia|done|change (2 ^ 30) with 1073741824; lia|].
  by exists b.
Qed.

(** Arrays of unsigned longs with the same bits are equal. *)
Lemma bits_ext (a b : list Z) :
  Forall is_u32 a -> Forall is_u32 b -> length a = length b ->
  (forall i, 0 <= i < 32 * Z.of_nat (length a) -> bit_at a i = bit_at b i) -> a = b.
Proof.
  intros Ha Hb Hlen H. apply list_eq_same_length with (n := length a); [done|done|].
  intros k x y Hk Hx Hy.
  apply u32_bits_inj; [exact (Forall_lookup_1 _ _ _ _ Ha Hx)|exact (Forall_lookup_1 _ _ _ _ Hb Hy)|].
  intros j Hj. specialize (H (32 * Z.of_nat k + j) ltac:(lia)).
  rewrite !bit_at_word, Nat2Z.id in H by done.
  by rewrite (list_lookup_total_correct _ _ _ Hx), (list_lookup_total_correct _ _ _ Hy) in H.
Qed.

(** * Properties *)

(** C28: bitmap_find_free_region allocates the lowest aligned free region of 2^order bits below [bits],
    and returns -ENOMEM with the map unchanged exactly when no aligned region is free, provided that
    [bits + 2^order] is below 2^31; beyond, the int sum that ends the search overflows, and of a map of 2^31 - 1
    bits whose first half is taken a region of 2^30 bits is given out that does not fit.
    bitmap_allocate_region takes an aligned region exactly when it is free, otherwise returns -EBUSY
    and leaves the map alone, and bitmap_release_region after a successful allocation restores the
    original map word for word. bitmap_set sets and bitmap_clear clears exactly the bits [start,
    start + nr) of a map that has room for them, where [start + nr] is below 2^31; both stay inside the
    array and keep every other bit.  bitmap_find_next_zero_area terminates and returns the first multiple
    of the alignment 2^k at or after [start] where [nr] (at least one) clear bits fit below [size]; when
    there is none the result is larger than [size]. It is so for [size + nr + 2^k] below 2^32, where
    the unsigned sums do not wrap. *)
Theorem region_allocation :
  (forall map bits order,
    bitmap_ok map bits -> 0 <= order <= 30 -> bits + 2 ^ order < 2147483648 ->
      exists b r, bitmap_find_free_region map bits order = Some (b, r) /\
        ((first_region map bits order r /\
          range_updated (fun _ => true) map b r (r + 2 ^ order)) \/
         (r = - ENOMEM /\ b = map /\ forall q, 0 <= q -> q + 2 ^ order <= bits -> aligned order q ->
            ~ free_area map q (2 ^ order)))) /\
  (forall map bits, bitmap_ok map bits -> bits = 2147483647 -> bit_at map 0 = true ->
     free_area map 1073741824 1073741824 ->
     exists b, bitmap_find_free_region map bits 30 = Some (b, 1073741824)) /\
  (forall map pos order,
    Forall is_u32 map -> 0 <= pos -> 0 <= order <= 30 -> aligned order pos ->
      pos + 2 ^ order <= 32 * Z.of_nat (length map) ->
      (free_area map pos (2 ^ order) /\
       exists b, bitmap_allocate_region map pos order = Some (b, 0) /\
         range_updated (fun _ => true) map b pos (pos + 2 ^ order) /\
         bitmap_release_region b pos order = Some map) \/
      (~ free_area map pos (2 ^ order) /\
       bitmap_allocate_region map pos order = Some (map, - EBUSY))) /\
  (forall map start nr,
    Forall is_u32 map -> 0 <= start -> 0 <= nr -> start + nr <= 32 * Z.of_nat (length map) ->
      start + nr < 2147483648 ->
      (exists m, bitmap_set map start nr = Some m /\
                 range_updated (fun _ => true) map m start (start + nr)) /\
      (exists m, bitmap_clear map start nr = Some m /\
                 range_updated (fun _ => false) map m start (start + nr))) /\
  (forall map size start nr k,
    bitmap_ok map size -> 0 <= start <= size -> 0 < nr -> 0 <= k <= 32 ->
      size + nr + 2 ^ k < 4294967296 ->
      exists r, bitmap_find_next_zero_area map size start nr (2 ^ k - 1) = Some r /\
                first_area map size start nr k r).
Proof.
  split_and!.
  { intros map bits order. apply find_free_region_spec. }
  { exact find_free_region_overflow. }
  { intros map pos order.
    intros Hu Hp Ho Ha Hfit. unfold bitmap_allocate_region, bitmap_release_region.
    destruct (reg_isfree_spec map pos order) as (r & -> & Hr & Hfree); [done..|].
    cbn -[__reg_op]. destruct (r =? 0) eqn:E; zbool.
    { right. split; [|done]. rewrite <- Hfree. lia. }
    left. assert (free_area map pos (2 ^ order)) as Hf by (apply Hfree; lia). split; [done|].
    destruct (reg_alloc_spec map pos order) as (b & -> & Hb); [done..|]. cbn -[__reg_op].
    exists b. split; [done|]. split; [done|]. destruct Hb as (Hlen & Hbu & Hbits).
    destruct (reg_release_spec b pos order) as (c & -> & Hclen & Hcu & Hcbits); [done..|lia|].
    cbn. f_equal. apply bits_ext; [done|done|lia|]. intros i Hi.
    rewrite Hcbits, Hbits by lia. destruct (_ && _) eqn:Ei; [|done]. zbool.
    symmetry. apply Hf. lia. }
  { intros map start nr.
    intros. split; [by apply bitmap_fill_spec; [apply masks_with_lor|..]|].
    by apply bitmap_fill_spec; [apply masks_with_clear|..]. }
  { intros map size start nr k. apply find_next_zero_area_spec. }
Qed.

Lemma region_allocation_witness :
  (bitmap_find_free_region [0x0000FF01; 0] 64 3 = Some ([0x00FFFF01; 0], 16) /\
    exists b r, bitmap_find_free_region [0x0000FF01; 0] 64 3 = Some (b, r)) /\
  (bitmap_allocate_region [0xF; 0] 8 2 = Some ([0xF0F; 0], 0) /\
    (free_area [0xF; 0] 8 4 \/ ~ free_area [0xF; 0] 8 4)) /\
  (exists m, bitmap_set [0; 0; 0] 30 40 = Some m /\
              range_updated (fun _ => true) [0; 0; 0] m 30 (30 + 40)) /\
  (bitmap_find_next_zero_area [0x30F; 0] 64 0 6 (2 ^ 2 - 1) = Some 12 /\
    exists r, bitmap_find_next_zero_area [0x30F; 0] 64 0 6 (2 ^ 2 - 1) = Some r /\
              first_area [0x30F; 0] 64 0 6 2 r).
Proof.
  split; [|split; [|split]].
  { split; [reflexivity|].
    destruct (proj1 region_allocation [0x0000FF01; 0] 64 3) as (b & r & Hb & _); [|lia|vm_compute; reflexivity|by exists b, r].
    split; [repeat constructor; unfold is_u32; lia|simpl; lia]. }
  { split; [reflexivity|].
    destruct (proj1 (proj2 (proj2 region_allocation)) [0xF; 0] 8 2) as [[H _]|[H _]];
      [repeat constructor; unfold is_u32; lia|lia|lia|reflexivity|simpl; lia|by left|by right]. }
  { apply (proj1 (proj2 (proj2 (proj2 region_allocation))) [0; 0; 0] 30 40); [|simpl; lia..].
    repeat constructor; unfold is_u32; lia. }
  { split; [reflexivity|]. apply (proj2 (proj2 (proj2 (proj2 region_allocation))) [0x30F; 0] 64 0 6 2); [|lia..|cbn; lia].
    split; [repeat constructor; unfold is_u32; lia|simpl; lia]. }
Defined.
