(* ===== verification/BitmapMap.v ===== *)
(** Position/ordinal maps of bitmaps: bitmap_pos_to_ord, bitmap_ord_to_pos, bitmap_remap,
    bitmap_bitremap, bitmap_onto and bitmap_fold of lib/bitmap.c, modelled in [Bitmap]. *)

From S2P Require Import Prelude Word FindBit Bitmap.
From Stdlib Require Import Lia Btauto.

(** * Counting set bits *)

(** Number of set bits below position [i]. *)
Abbreviation rank b i := (count b (Z.to_nat i)).

Lemma count_none b n : (forall i, 0 <= i < Z.of_nat n -> b i = false) -> count b n = 0.
Proof.
  induction n as [|n IH]; intros H; cbn [count]; [done|].
  rewrite IH by (intros; apply H; lia). rewrite H by lia. done.
Qed.

Lemma rank_skip b lo hi :
  0 <= lo <= hi -> (forall i, lo <= i < hi -> b i = false) -> rank b hi = rank b lo.
Proof.
  intros Hle Hz. replace (Z.to_nat hi) with (Z.to_nat lo + Z.to_nat (hi - lo))%nat by lia.
  rewrite count_app. rewrite (count_none (fun k => b (Z.of_nat (Z.to_nat lo) + k))); [lia|].
  intros i Hi. apply Hz. lia.
Qed.

Lemma rank_succ b i : 0 <= i -> rank b (i + 1) = rank b i + (if b i then 1 else 0).
Proof.
  intros Hi. replace (Z.to_nat (i + 1)) with (S (Z.to_nat i)) by lia. cbn [count].
  by rewrite Z2Nat.id by lia.
Qed.

Lemma rank_mono b i j : 0 <= i <= j -> rank b i <= rank b j.
Proof.
  intros H. replace (Z.to_nat j) with (Z.to_nat i + Z.to_nat (j - i))%nat by lia.
  rewrite count_app. pose proof (count_bound (fun k => b (Z.of_nat (Z.to_nat i) + k))
    (Z.to_nat (j - i))). lia.
Qed.

(** [p] is the position of the [ord]-th set bit below [bits]. *)
Definition nth_set (b : Z -> bool) (bits ord p : Z) : Prop :=
  0 <= p < bits /\ b p = true /\ rank b p = ord.

Lemma nth_set_inj b bits ord p q : nth_set b bits ord p -> nth_set b bits ord q -> p = q.
Proof.
  intros (Hp & Hbp & Hrp) (Hq & Hbq & Hrq).
  destruct (Z.lt_trichotomy p q) as [H|[H|H]]; [|done|].
  - pose proof (rank_mono b (p + 1) q ltac:(lia)) as Hm. rewrite rank_succ, Hbp in Hm by lia. lia.
  - pose proof (rank_mono b (q + 1) p ltac:(lia)) as Hm. rewrite rank_succ, Hbq in Hm by lia. lia.
Qed.

(** The next set bit after a set bit has the next rank. *)
Lemma is_next_rank b bits i r :
  0 <= i < bits -> b i = true -> is_next b bits (i + 1) r ->
  i + 1 <= r <= bits /\ rank b r = rank b i + 1 /\ (r < bits -> b r = true) /\
  (forall q, i < q < r -> b q = false).
Proof.
  intros Hi Hb Hn. unfold is_next in Hn. destruct (bits <=? i + 1) eqn:E; zbool.
  - subst r. assert (bits = i + 1) as -> by lia. rewrite rank_succ, Hb by lia.
    repeat split; intros; lia.
  - destruct Hn as (Hr & Hz & Hs). split; [done|].
    rewrite (rank_skip b (i + 1) r) by (done || lia). rewrite rank_succ, Hb by lia.
    split; [lia|]. split; [done|]. intros q Hq. apply Hz. lia.
Qed.

Lemma is_next_first b bits r :
  0 <= bits -> is_next b bits 0 r ->
  0 <= r <= bits /\ rank b r = 0 /\ (r < bits -> b r = true) /\
  (forall q, 0 <= q < r -> b q = false).
Proof.
  intros Hb Hn. unfold is_next in Hn. destruct (bits <=? 0) eqn:E; zbool.
  - subst r. assert (bits = 0) as -> by lia. repeat split; intros; lia.
  - destruct Hn as (Hr & Hz & Hs). split; [done|].
    rewrite (rank_skip b 0 r) by (done || lia). done.
Qed.

(** * Position to ordinal and back *)

Lemma pos_to_ord_spec buf pos bits :
  bitmap_ok buf bits ->
  bitmap_pos_to_ord buf pos bits =
  Some (if (0 <=? pos) && (pos <? bits) && bit_at buf pos then rank (bit_at buf) pos else -1).
Proof.
  intros Hok. pose proof Hok as (Hu & Hsz & Hlt). unfold bitmap_pos_to_ord.
  destruct ((pos <? 0) || (bits <=? pos)) eqn:E.
  { assert ((0 <=? pos) && (pos <? bits) = false) as -> by lia. done. }
  zbool. assert ((0 <=? pos) && (pos <? bits) = true) as -> by lia.
  rewrite test_bit_spec by lia. cbn -[find_first_bit find_next_bit].
  destruct (bit_at buf pos) eqn:Hb; [|done]. cbn -[find_first_bit find_next_bit].
  destruct (find_first_bit_spec buf bits Hok) as (r & -> & Hr).
  apply is_next_first in Hr; [|lia]. destruct Hr as (Hr & Hrank & Hset & Hz).
  cbn -[find_next_bit loop].
  assert (r <= pos) as Hrp.
  { destruct (Z_le_gt_dec r pos); [done|]. rewrite Hz in Hb by lia. done. }
  loop_with (fun '(i, ord) => 0 <= i <= pos /\ bit_at buf i = true /\
      ord = rank (bit_at buf) i) (fun '(i, _) => Z.to_nat (pos - i))
    (fun '(i, ord) => i = pos /\ ord = rank (bit_at buf) pos) as ([i ord] & -> & -> & ->).
  - intros [i ord] (Hi & Hbi & ->). destruct (i <? pos) eqn:Ei; zbool.
    + destruct (find_next_bit_spec buf bits (i + 1) Hok) as (r' & -> & Hn); [unfold is_u32; lia|].
      apply is_next_rank in Hn; [|lia|done]. destruct Hn as (Hr' & Hrank' & Hset' & Hz').
      assert (r' <= pos).
      { destruct (Z_le_gt_dec r' pos); [done|]. rewrite Hz' in Hb by lia. done. }
      cbn. split; [|lia]. split; [lia|]. split; [apply Hset'; lia|]. done.
    + split; [lia|]. f_equal. lia.
  - split; [lia|]. split; [apply Hset; lia|done].
  - lia.
  - cbn. by rewrite Z.eqb_refl.
Qed.

Lemma ord_to_pos_spec buf ord bits :
  bitmap_ok buf bits ->
  exists p, bitmap_ord_to_pos buf ord bits = Some p /\
    (nth_set (bit_at buf) bits ord p \/
     (p = 0 /\ forall q, ~ nth_set (bit_at buf) bits ord q)).
Proof.
  intros Hok. pose proof Hok as (Hu & Hsz & Hlt). unfold bitmap_ord_to_pos.
  destruct ((0 <=? ord) && (ord <? bits)) eqn:E.
  2:{ exists 0. split; [done|]. right. split; [done|]. intros q (Hq & _ & Hr).
      pose proof (count_bound (bit_at buf) (Z.to_nat q)). lia. }
  zbool. destruct (find_first_bit_spec buf bits Hok) as (r & -> & Hr).
  apply is_next_first in Hr; [|lia]. destruct Hr as (Hr & Hrank & Hset & Hz).
  cbn -[find_next_bit loop].
  loop_with (fun '(i, o) => 0 <= i <= bits /\ 0 <= o /\
      (i < bits -> bit_at buf i = true) /\ rank (bit_at buf) i + o = ord)
    (fun '(i, _) => Z.to_nat (bits - i))
    (fun '(i, o) => 0 <= i <= bits /\ 0 <= o /\ (bits <= i \/ o = 0) /\
      (i < bits -> bit_at buf i = true) /\ rank (bit_at buf) i + o = ord)
    as ([i o] & -> & Hi & Ho & Hex & Hb & Hro).
  - intros [i o] (Hi & Ho & Hb & Hro). destruct ((i <? bits) && (0 <? o)) eqn:Ei; zbool.
    + destruct (find_next_bit_spec buf bits (i + 1) Hok) as (r' & -> & Hn); [unfold is_u32; lia|].
      apply is_next_rank in Hn; [|lia|by apply Hb]. destruct Hn as (Hr' & Hrank' & Hset' & _).
      cbn. split; [|lia]. repeat split; auto; lia.
    + repeat split; auto; lia.
  - repeat split; auto; lia.
  - lia.
  - cbn. destruct ((i <? bits) && (o =? 0)) eqn:Ei.
    + zbool. exists i. split; [done|]. left. split; [lia|]. split; [by apply Hb|lia].
    + exists 0. split; [done|]. right. split; [done|]. intros q (Hq & Hbq & Hrq).
      assert (i = bits) as -> by lia.
      pose proof (rank_mono (bit_at buf) (q + 1) bits ltac:(lia)) as Hm.
      rewrite rank_succ, Hbq in Hm by lia. lia.
Qed.

Lemma ord_to_pos_nth buf ord bits p :
  bitmap_ok buf bits -> nth_set (bit_at buf) bits ord p ->
  bitmap_ord_to_pos buf ord bits = Some p.
Proof.
  intros Hok Hp. destruct (ord_to_pos_spec buf ord bits Hok) as (q & -> & [Hq|[_ Hq]]).
  - f_equal. by eapply nth_set_inj.
  - by destruct (Hq p).
Qed.

(** Below the weight, every ordinal has a position. *)
Lemma nth_set_exists b bits ord :
  0 <= bits -> 0 <= ord < rank b bits -> exists p, nth_set b bits ord p.
Proof.
  intros Hb. rewrite <- (Z2Nat.id bits) by done. generalize (Z.to_nat bits). clear bits Hb.
  intros n Ho. rewrite Nat2Z.id in Ho. induction n as [|n IH]; cbn [count] in Ho; [lia|].
  destruct (decide (ord < count b n)) as [Hlt|Hge].
  - destruct IH as (p & Hp & Hbp & Hr); [lia|]. exists p. split; [lia|done].
  - destruct (b (Z.of_nat n)) eqn:Hbn; [|lia]. exists (Z.of_nat n). split; [lia|].
    split; [done|]. rewrite Nat2Z.id. lia.
Qed.

(** * Iteration over the set bits *)

Lemma for_each_rule {A} (Inv : Z -> A -> Prop) addr size (body : Z -> A -> option A) s :
  bitmap_ok addr size ->
  (forall i s, 0 <= i < size -> bit_at addr i = false -> Inv i s -> Inv (i + 1) s) ->
  (forall i s, 0 <= i < size -> bit_at addr i = true -> Inv i s ->
     exists s', body i s = Some s' /\ Inv (i + 1) s') ->
  Inv 0 s -> exists s', for_each_set_bit addr size body s = Some s' /\ Inv size s'.
Proof.
  intros Hok Hskip Hbody Hinit. pose proof Hok as (Hu & Hsz & Hlt). unfold for_each_set_bit.
  assert (forall lo hi s, 0 <= lo <= hi -> hi <= size ->
    (forall i, lo <= i < hi -> bit_at addr i = false) -> Inv lo s -> Inv hi s) as Hjump.
  { intros lo hi s0 Hle Hhi Hz Hs. replace hi with (lo + Z.of_nat (Z.to_nat (hi - lo))) by lia.
    assert (lo + Z.of_nat (Z.to_nat (hi - lo)) <= hi) as Hb by lia. revert Hb.
    induction (Z.to_nat (hi - lo)) as [|n IH]; intros Hb; [by rewrite Z.add_0_r|].
    replace (lo + Z.of_nat (S n)) with (lo + Z.of_nat n + 1) by lia.
    apply Hskip; [lia|apply Hz; lia|]. apply IH. lia. }
  destruct (find_first_bit_spec addr size Hok) as (r & -> & Hr).
  apply is_next_first in Hr; [|lia]. destruct Hr as (Hr & _ & Hset & Hz).
  cbn -[find_next_bit loop].
  apply (loop_rule (fun '(bit, s) => 0 <= bit <= size /\ (bit < size -> bit_at addr bit = true) /\
    Inv bit s) (fun '(bit, _) => Z.to_nat (size - bit))).
  - intros [bit s0] (Hb & Hbset & Hs). destruct (bit <? size) eqn:E; zbool.
    + destruct (Hbody bit s0) as (s1 & -> & Hs1); [lia|by apply Hbset|done|].
      cbn -[find_next_bit].
      destruct (find_next_bit_spec addr size (bit + 1) Hok) as (r' & -> & Hn); [unfold is_u32; lia|].
      apply is_next_rank in Hn; [|lia|by apply Hbset]. destruct Hn as (Hr' & _ & Hset' & Hz').
      cbn. split; [|lia]. split; [lia|]. split; [done|].
      apply (Hjump (bit + 1)); [lia|lia| |done]. intros i Hi. apply Hz'. lia.
    + by assert (bit = size) as -> by lia.
  - split; [lia|]. split; [done|]. apply (Hjump 0); auto; lia.
  - lia.
Qed.

(** * Building a bitmap as an image *)

(** After the source positions below [i], bit [j] of [d] is set iff some of them maps to [j]. *)
Definition image_upto (dst : list Z) (bits : Z) (R : Z -> Z -> Prop) (i : Z) (d : list Z) : Prop :=
  length d = length dst /\ Forall is_u32 d /\
  forall j, 0 <= j < 32 * longs bits -> bit_at d j = true <-> exists k, 0 <= k < i /\ R k j.

Lemma image_start dst bits R :
  bitmap_ok dst bits -> bits < 4294967265 ->
  exists d, bitmap_zero dst bits = Some d /\ image_upto dst bits R 0 d.
Proof.
  intros (Hu & Hsz & _) Hlt. unfold bitmap_zero.
  rewrite BITS_TO_LONGS_eq by lia. fold (longs bits).
  destruct (zero_words_spec dst 0 (longs bits)) as (d & Hd & Hlen & Hrd);
    [lia|unfold longs; lia|unfold longs; lia|].
  exists d. split; [done|]. split; [done|]. split.
  - apply Forall_lookup_2. intros i x Hi. specialize (Hrd (Z.of_nat i) ltac:(lia)).
    unfold rd in Hrd. rewrite !bool_decide_eq_true_2, Nat2Z.id in Hrd by lia.
    rewrite Hi in Hrd. case_bool_decide; simplify_eq; [unfold is_u32; lia|].
    by eapply Forall_lookup_1.
  - intros j Hj. split; [|intros (k & Hk & _); lia]. unfold bit_at.
    specialize (Hrd (j / 32) ltac:(lia)). rewrite bool_decide_eq_true_2 in Hrd by lia.
    rewrite rd_total in Hrd by (unfold longs in *; lia). simplify_eq.
    rewrite Hrd. by rewrite Z.bits_0.
Qed.

Lemma image_skip dst bits (R : Z -> Z -> Prop) i d :
  0 <= i -> (forall j, ~ R i j) -> image_upto dst bits R i d -> image_upto dst bits R (i + 1) d.
Proof.
  intros Hi Hno (Hlen & Hu & Hd). split; [done|]. split; [done|]. intros j Hj.
  rewrite (Hd j Hj). split; intros (k & Hk & HR); exists k; (split; [|done]); [lia|].
  destruct (decide (k = i)) as [->|]; [by destruct (Hno j)|lia].
Qed.

Lemma image_set dst bits (R : Z -> Z -> Prop) i p d :
  0 <= i -> 0 <= p < bits -> bitmap_ok dst bits -> (forall j, R i j <-> j = p) ->
  image_upto dst bits R i d ->
  exists d', set_bit p d = Some d' /\ image_upto dst bits R (i + 1) d'.
Proof.
  intros Hi Hp (_ & Hsz & _) HR (Hlen & Hu & Hd).
  destruct (set_bit_spec p d Hu) as (d' & -> & Hlen' & Hu' & Hb); [rewrite Hlen; lia|].
  exists d'. split; [done|]. split; [congruence|]. split; [done|]. intros j Hj.
  rewrite Hb, orb_true_iff, bool_decide_eq_true, Hd by lia. split.
  - intros [->|(k & Hk & ?)]; [exists i; split; [lia|by apply HR]|]. exists k. split; [lia|done].
  - intros (k & Hk & HRk). destruct (decide (k = i)) as [->|]; [left; by apply HR|].
    right. exists k. split; [lia|done].
Qed.

(** The map of bitmap_remap: the n-th set bit of [old] goes to the (n mod w)-th of [new]. *)
Definition remaps (old new : Z -> bool) (bits i j : Z) : Prop :=
  if (0 <=? i) && (i <? bits) && old i && negb (rank new bits =? 0)
  then nth_set new bits (rank old i mod rank new bits) j else j = i.

Lemma remap_total old new bits i :
  0 <= bits -> exists p, remaps old new bits i p.
Proof.
  intros Hb. unfold remaps. dcase; [|by exists i].
  pose proof (count_bound new (Z.to_nat bits)).
  apply nth_set_exists; [done|]. apply Z.mod_pos_bound. lia.
Qed.

Lemma remap_unique old new bits i p :
  remaps old new bits i p -> forall j, remaps old new bits i j <-> j = p.
Proof.
  unfold remaps. dcase; [|by intros ->].
  intros Hp j. split; [intros Hj; by eapply nth_set_inj|by intros ->].
Qed.

Lemma remap_bound old new bits i p :
  0 <= i < bits -> remaps old new bits i p -> 0 <= p < bits.
Proof. intros Hi. unfold remaps. dcase; [by intros (? & _)|by intros ->]. Qed.

(** One position, as both bitmap_remap and bitmap_bitremap compute it. *)
Lemma remap_one old new bits i :
  bitmap_ok old bits -> bitmap_ok new bits ->
  exists n p, bitmap_pos_to_ord old i bits = Some n /\
    remaps (bit_at old) (bit_at new) bits i p /\
    (if (n <? 0) || (rank (bit_at new) bits =? 0) then p = i
     else bitmap_ord_to_pos new (n `rem` rank (bit_at new) bits) bits = Some p).
Proof.
  intros Ho Hn. pose proof Hn as (_ & Hsz & _).
  destruct (remap_total (bit_at old) (bit_at new) bits i) as (p & Hp); [lia|].
  rewrite (pos_to_ord_spec old i bits Ho). eexists _, p. split; [done|]. split; [done|].
  unfold remaps in Hp. pose proof (count_bound (bit_at new) (Z.to_nat bits)).
  pose proof (count_bound (bit_at old) (Z.to_nat i)).
  destruct ((0 <=? i) && (i <? bits) && bit_at old i); [|done].
  rewrite (proj2 (Z.ltb_ge _ 0)) by lia. simpl in *.
  destruct (rank (bit_at new) bits =? 0) eqn:Ew; [done|]. zbool.
  rewrite Z.rem_mod_nonneg by lia. by apply ord_to_pos_nth.
Qed.



(** * remap, onto and fold *)

Lemma image_result dst bits (R : Z -> Z -> Prop) d :
  bitmap_ok dst bits -> image_upto dst bits R bits d ->
  bitmap_ok d bits /\
  forall j, 0 <= j < 32 * longs bits -> bit_at d j = true <-> exists k, 0 <= k < bits /\ R k j.
Proof.
  intros (_ & Hsz & Hlt) (Hlen & Hu & Hd). split; [|done].
  split; [done|]. rewrite Hlen. done.
Qed.

(** Setting [p i] for the set bits [i] of a source. *)
Lemma image_for_each dst bits src (R : Z -> Z -> Prop) (body : Z -> list Z -> option (list Z)) :
  bitmap_ok dst bits -> bitmap_ok src bits -> bits < 4294967265 ->
  (forall i d, 0 <= i < bits -> exists p, 0 <= p < bits /\ (forall j, R i j <-> j = p) /\
     body i d = set_bit p d) ->
  exists d, (d ← bitmap_zero dst bits; for_each_set_bit src bits body d) = Some d /\
    bitmap_ok d bits /\
    forall j, 0 <= j < 32 * longs bits -> bit_at d j = true <->
      exists k, 0 <= k < bits /\ bit_at src k = true /\ R k j.
Proof.
  intros Hd Hs Hlt Hbody.
  destruct (image_start dst bits (fun k j => bit_at src k = true /\ R k j) Hd Hlt)
    as (d0 & -> & Hd0). simpl.
  destruct (for_each_rule (image_upto dst bits (fun k j => bit_at src k = true /\ R k j))
    src bits body d0) as (d & -> & Hr); [done| | |done|].
  - intros i d Hi Hb. apply image_skip; [lia|]. intros j [Hc _]. congruence.
  - intros i d Hi Hb Hinv. destruct (Hbody i d Hi) as (p & Hp & HR & ->).
    apply image_set; [lia|done|done| |done]. intros j. rewrite HR. tauto.
  - exists d. split; [done|]. by apply image_result with (dst := dst).
Qed.

Lemma bitmap_remap_spec dst src old new bits :
  bitmap_ok dst bits -> bitmap_ok src bits -> bitmap_ok old bits -> bitmap_ok new bits ->
  bits < 4294967265 ->
  exists d, bitmap_remap dst (Own src) old new bits = Some d /\ bitmap_ok d bits /\
    forall j, 0 <= j < 32 * longs bits -> bit_at d j = true <->
      exists k, 0 <= k < bits /\ bit_at src k = true /\
        remaps (bit_at old) (bit_at new) bits k j.
Proof.
  intros Hd Hs Ho Hn Hlt. unfold bitmap_remap. rewrite (bitmap_weight_spec new bits Hn).
  apply image_for_each; [done..|]. intros i d Hi.
  destruct (remap_one old new bits i Ho Hn) as (n & p & -> & Hp & Hc). simpl. exists p.
  split; [by eapply remap_bound|]. split; [by apply remap_unique|].
  destruct (_ || _); [by subst|]. by rewrite Hc.
Qed.

Lemma bitmap_fold_spec dst src sz bits :
  bitmap_ok dst bits -> bitmap_ok src bits -> bits < 4294967265 -> 0 < sz <= bits ->
  exists d, bitmap_fold dst (Own src) sz bits = Some d /\ bitmap_ok d bits /\
    forall j, 0 <= j < 32 * longs bits -> bit_at d j = true <->
      exists k, 0 <= k < bits /\ bit_at src k = true /\ j = k mod sz.
Proof.
  intros Hd Hs Hlt Hsz. apply image_for_each; [done..|]. intros i d Hi. exists (i mod sz).
  split; [lia|]. split; [done|]. by rewrite Z.rem_mod_nonneg by lia.
Qed.

Lemma bitmap_onto_spec dst src relmap bits :
  bitmap_ok dst bits -> bitmap_ok src bits -> bitmap_ok relmap bits -> bits < 4294967265 ->
  exists d, bitmap_onto dst (Own src) relmap bits = Some d /\ bitmap_ok d bits /\
    forall n, 0 <= n < 32 * longs bits -> bit_at d n = true <->
      exists m, bit_at src m = true /\ nth_set (bit_at relmap) bits m n.
Proof.
  intros Hd Hs Hn Hlt. set (R := fun k j : Z => k = j /\ bit_at relmap k = true /\
    bit_at src (rank (bit_at relmap) k) = true).
  unfold bitmap_onto. destruct (image_start dst bits R Hd Hlt) as (d0 & -> & Hd0). simpl.
  match goal with |- context [for_each_set_bit _ _ ?body _] =>
    destruct (for_each_rule (fun i '(d, m) => image_upto dst bits R i d /\
      m = rank (bit_at relmap) i) relmap bits body (d0, 0)) as ([d m] & -> & Hr & _); [done| | |done|]
  end.
  - intros i [d m] Hi Hb [Hinv ->]. split; [|rewrite rank_succ, Hb by lia; lia].
    apply image_skip; [lia| |done]. intros j (_ & Hc & _). congruence.
  - intros i [d m] Hi Hb [Hinv ->]. pose proof (count_bound (bit_at relmap) (Z.to_nat i)).
    pose proof Hs as (_ & Hssz & _).
    rewrite test_bit_spec by lia. simpl. destruct (bit_at src _) eqn:Hsb.
    + destruct (image_set dst bits R i i d) as (d' & -> & Hd'); [lia|done|done| |done|].
      * intros j. unfold R. rewrite Hb, Hsb. split; [by intros [-> _]|by intros ->].
      * eexists. split; [done|]. simpl. split; [done|]. rewrite rank_succ, Hb by lia. lia.
    + eexists. split; [done|]. simpl. split; [|rewrite rank_succ, Hb by lia; lia].
      apply image_skip; [lia| |done]. intros j (_ & _ & Hc). congruence.
  - simpl. exists d. split; [done|]. destruct (image_result dst bits R d Hd Hr) as [Hok Himg].
    split; [done|]. intros n Hj. rewrite (Himg n Hj). unfold R, nth_set. split.
    + intros (k & Hk & -> & ? & ?). eauto.
    + intros (m' & Hm & Hk & Hb & <-). eauto.
Qed.


(** C35: remap, onto and fold build exactly the image of their source under their map and clear every
    other bit: remap under the map of bitremap, onto sends the m-th bit of [orig] to the m-th set
    bit of [relmap] (ordinals past the weight go nowhere), fold sends bit m to m mod [sz].
    pos_to_ord gives a set position its rank among the set bits (-1 elsewhere), ord_to_pos gives an
    ordinal below the weight the position with that rank (0 elsewhere), and the two are inverse to
    each other; bitremap is the map that sends the n-th set bit of [old] to the (n mod w)-th set bit
    of [new] and every other position to itself. *)
Theorem bitmap_mappings :
  (forall dst src old new sz bits,
    bitmap_ok dst bits -> bitmap_ok src bits -> bitmap_ok old bits -> bitmap_ok new bits ->
      bits < 4294967265 -> 0 < sz <= bits ->
      (exists d, bitmap_remap dst (Own src) old new bits = Some d /\ bitmap_ok d bits /\
         forall j, 0 <= j < 32 * longs bits -> bit_at d j = true <->
           exists k, 0 <= k < bits /\ bit_at src k = true /\
             remaps (bit_at old) (bit_at new) bits k j) /\
      (exists d, bitmap_onto dst (Own src) new bits = Some d /\ bitmap_ok d bits /\
         forall n, 0 <= n < 32 * longs bits -> bit_at d n = true <->
           exists m, bit_at src m = true /\ nth_set (bit_at new) bits m n) /\
      (exists d, bitmap_fold dst (Own src) sz bits = Some d /\ bitmap_ok d bits /\
         forall j, 0 <= j < 32 * longs bits -> bit_at d j = true <->
           exists k, 0 <= k < bits /\ bit_at src k = true /\ j = k mod sz)) /\
  (forall buf old new bits,
    bitmap_ok buf bits -> bitmap_ok old bits -> bitmap_ok new bits ->
      (forall pos, 0 <= pos < bits -> bit_at buf pos = true ->
         exists ord, bitmap_pos_to_ord buf pos bits = Some ord /\
           ord = count (bit_at buf) (Z.to_nat pos) /\ bitmap_ord_to_pos buf ord bits = Some pos) /\
      (forall pos, pos < 0 \/ bits <= pos \/ bit_at buf pos = false ->
         bitmap_pos_to_ord buf pos bits = Some (-1)) /\
      (forall ord, 0 <= ord < count (bit_at buf) (Z.to_nat bits) ->
         exists pos, bitmap_ord_to_pos buf ord bits = Some pos /\
           bit_at buf pos = true /\ bitmap_pos_to_ord buf pos bits = Some ord) /\
      (forall ord, ord < 0 \/ count (bit_at buf) (Z.to_nat bits) <= ord ->
         bitmap_ord_to_pos buf ord bits = Some 0) /\
      (forall oldbit, exists p, bitmap_bitremap oldbit old new bits = Some p /\
         remaps (bit_at old) (bit_at new) bits oldbit p)).
Proof.
  split.
  { intros dst src old new sz bits.
    intros Hd Hs Ho Hn Hlt Hsz. split; [by apply bitmap_remap_spec|].
    split; [by apply bitmap_onto_spec|by apply bitmap_fold_spec]. }
  { intros buf old new bits.
    intros Hok Ho Hn. pose proof Hok as (_ & Hsz & _). repeat split.
    - intros pos Hp Hb. eexists. rewrite (pos_to_ord_spec _ pos bits Hok), Hb.
      rewrite (proj2 (Z.leb_le 0 pos)), (proj2 (Z.ltb_lt pos bits)) by lia. simpl.
      split; [done|]. split; [done|]. by apply ord_to_pos_nth.
    - intros pos Hp. rewrite (pos_to_ord_spec _ pos bits Hok).
      destruct (_ && _) eqn:E; [|done]. zbool. destruct Hp as [?|[?|?]]; [lia|lia|congruence].
    - intros ord Hord. destruct (nth_set_exists (bit_at buf) bits ord) as (p & Hp); [lia|done|].
      exists p. split; [by apply ord_to_pos_nth|]. destruct Hp as (Hp & Hb & Hr). split; [done|].
      rewrite (pos_to_ord_spec _ p bits Hok), Hb, Hr.
      by rewrite (proj2 (Z.leb_le 0 p)), (proj2 (Z.ltb_lt p bits)) by lia.
    - intros ord Hord. destruct (ord_to_pos_spec buf ord bits Hok) as (p & -> & [Hp|[-> _]]); [|done].
      destruct Hp as (Hp & Hb & Hr). pose proof (count_bound (bit_at buf) (Z.to_nat p)).
      pose proof (rank_mono (bit_at buf) (p + 1) bits ltac:(lia)) as Hm.
      rewrite rank_succ, Hb in Hm by lia. lia.
    - intros i. unfold bitmap_bitremap. rewrite (bitmap_weight_spec new bits Hn). simpl.
      destruct (remap_one old new bits i Ho Hn) as (n & p & -> & Hp & Hc). simpl.
      exists p. split; [|done]. by destruct (_ || _); [subst|]. }
Qed.

Lemma bitmap_mappings_witness :
  (bitmap_remap [0] (Own [0xa2]) [0xf0] [0xf000] 16 = Some [0xa002] /\
    exists d, bitmap_onto [7] (Own [0xaaa]) [0x3ff000] 24 = Some d /\ bitmap_ok d 24) /\
  (bitmap_ord_to_pos [0x1d0; 1] 4 40 = Some 32).
Proof.
  split.
  { split; [reflexivity|].
    destruct (proj1 bitmap_mappings [7] [0xaaa] [0xf0] [0x3ff000] 10 24) as (_ & (d & Hd & Hok & _) & _);
      [split; [repeat constructor; unfold is_u32; lia|simpl; lia]..|lia|lia|].
    exists d. split; [exact Hd|exact Hok]. }
  { destruct (proj2 bitmap_mappings [0x1d0; 1] [0xf0] [0xf000] 20) as (_ & _ & _ & _ & Hbit);
      [split; [repeat constructor; unfold is_u32; lia|simpl; lia]..|].
    destruct (proj2 bitmap_mappings [0x1d0; 1] [0x1d0; 1] [0x1d0; 1] 40) as (Hpos & _);
      [split; [repeat constructor; unfold is_u32; lia|simpl; lia]..|].
    destruct (Hpos 32) as (ord & _ & Hord & Hp); [lia|reflexivity|].
    vm_compute in Hord. subst ord. exact Hp. }
Defined.
