(* ===== verification/Kfifo.v ===== *)
(** The byte FIFO of kernel/kfifo.c and include/linux/kfifo.h: a ring buffer whose free-running
    32-bit indices wrap, shown to implement a bounded byte queue; the record layer, shown to
    implement a queue of records; the user-space copies, with faults; and the lock-free use by
    one reader and one writer, as an interleaving of the steps of kfifo_in and kfifo_out. *)

From S2P Require Import Prelude Word.
From Stdlib Require Import Lia.

(** * The program *)

(** [buffer = None] is the NULL pointer. *)
Record kfifo : Type := Kfifo {
  buffer : option (list Z);
  size : Z;
  in_ : Z;
  out : Z;
}.

(** Memory behind a pointer that may be NULL: no byte of NULL may be touched. *)
Definition bytes_of (p : option (list Z)) : list Z := default [] p.

Definition set_bytes (fifo : kfifo) (b : list Z) : kfifo :=
  match buffer fifo with
  | None => fifo
  | Some _ => Kfifo (Some b) (size fifo) (in_ fifo) (out fifo)
  end.

Definition kfifo_initialized (fifo : kfifo) : bool := bool_decide (is_Some (buffer fifo)).

Definition kfifo_reset (fifo : kfifo) : kfifo := Kfifo (buffer fifo) (size fifo) 0 0.

Definition kfifo_reset_out (fifo : kfifo) : kfifo :=
  Kfifo (buffer fifo) (size fifo) (in_ fifo) (in_ fifo).

Definition kfifo_size (fifo : kfifo) : Z := size fifo.

Definition kfifo_len (fifo : kfifo) : Z := u32 (in_ fifo - out fifo).

Definition kfifo_is_empty (fifo : kfifo) : bool := in_ fifo =? out fifo.

Definition kfifo_is_full (fifo : kfifo) : bool := kfifo_len fifo =? kfifo_size fifo.

Definition kfifo_avail (fifo : kfifo) : Z := u32 (kfifo_size fifo - kfifo_len fifo).

Definition __kfifo_add_out (fifo : kfifo) (off : Z) : kfifo :=
  Kfifo (buffer fifo) (size fifo) (in_ fifo) (u32 (out fifo + off)).

Definition __kfifo_add_in (fifo : kfifo) (off : Z) : kfifo :=
  Kfifo (buffer fifo) (size fifo) (u32 (in_ fifo + off)) (out fifo).

Definition __kfifo_off (fifo : kfifo) (off : Z) : Z := Z.land off (u32 (size fifo - 1)).

(** log2.h *)
Definition is_power_of_2 (n : Z) : bool := negb (n =? 0) && (Z.land n (n - 1) =? 0).

Definition roundup_pow_of_two (n : Z) : Z := ul_shl 1 (fls (u32 (n - 1))).

Definition _kfifo_init (buf : option (list Z)) (sz : Z) : kfifo := kfifo_reset (Kfifo buf sz 0 0).

(** [None]: BUG_ON. *)
Definition kfifo_init (buf : list Z) (sz : Z) : option kfifo :=
  if negb (is_power_of_2 sz) then None else Some (_kfifo_init (Some buf) sz).

(** [kmalloc sz]: the bytes of the new block, or NULL. *)
Definition kfifo_alloc (kmalloc : Z -> option (list Z)) (sz : Z) : option (kfifo * Z) :=
  sz ← (if negb (is_power_of_2 sz) then
          if 0x80000000 <? sz then None else Some (roundup_pow_of_two sz)
        else Some sz);
  match kmalloc sz with
  | None => Some (_kfifo_init None 0, - ENOMEM)
  | Some buf => Some (_kfifo_init (Some buf) sz, 0)
  end.

Definition kfifo_free (fifo : kfifo) : kfifo := _kfifo_init None 0.

Definition kfifo_skip (fifo : kfifo) (len : Z) : kfifo :=
  if len <? kfifo_len fifo then __kfifo_add_out fifo len else kfifo_reset_out fifo.

Definition __kfifo_in_data (fifo : kfifo) (from : list Z) (len off : Z) : option kfifo :=
  let off := __kfifo_off fifo (u32 (in_ fifo + off)) in
  let l := Z.min len (u32 (size fifo - off)) in
  b ← memcpy (bytes_of (buffer fifo)) off from 0 l;
  b ← memcpy b 0 from l (u32 (len - l));
  Some (set_bytes fifo b).

Definition __kfifo_out_data (fifo : kfifo) (to : list Z) (len off : Z) : option (list Z) :=
  let off := __kfifo_off fifo (u32 (out fifo + off)) in
  let l := Z.min len (u32 (size fifo - off)) in
  to ← memcpy to 0 (bytes_of (buffer fifo)) off l;
  memcpy to l (bytes_of (buffer fifo)) 0 (u32 (len - l)).

Definition __kfifo_in_n (fifo : kfifo) (from : list Z) (len recsize : Z) : option (kfifo * Z) :=
  if kfifo_avail fifo <? u32 (len + recsize) then Some (fifo, u32 (len + 1))
  else
    fifo ← __kfifo_in_data fifo from len recsize;
    Some (fifo, 0).

Definition kfifo_in (fifo : kfifo) (from : list Z) (len : Z) : option (kfifo * Z) :=
  let len := Z.min (kfifo_avail fifo) len in
  fifo ← __kfifo_in_data fifo from len 0;
  Some (__kfifo_add_in fifo len, len).

Definition __kfifo_out_n (fifo : kfifo) (to : list Z) (len recsize : Z)
  : option (kfifo * list Z * Z) :=
  if kfifo_len fifo <? u32 (len + recsize) then Some (fifo, to, len)
  else
    to ← __kfifo_out_data fifo to len recsize;
    Some (__kfifo_add_out fifo (u32 (len + recsize)), to, 0).

Definition kfifo_out (fifo : kfifo) (to : list Z) (len : Z) : option (kfifo * list Z * Z) :=
  let len := Z.min (kfifo_len fifo) len in
  to ← __kfifo_out_data fifo to len 0;
  Some (__kfifo_add_out fifo len, to, len).

Definition kfifo_out_peek (fifo : kfifo) (to : list Z) (len offset : Z) : option (list Z * Z) :=
  let len := Z.min (kfifo_len fifo) (u32 (len + offset)) in
  to ← __kfifo_out_data fifo to len offset;
  Some (to, len).

(** Record headers of [recsize] (1 or 2) bytes, little endian. *)
Definition __kfifo_peek_n (fifo : kfifo) (recsize : Z) : option Z :=
  l ← rd (bytes_of (buffer fifo)) (__kfifo_off fifo (u32 (out fifo + 0)));
  if negb (u32 (recsize - 1) =? 0) then
    h ← rd (bytes_of (buffer fifo)) (__kfifo_off fifo (u32 (out fifo + 1)));
    Some (Z.lor l (Z.shiftl h 8))
  else Some l.

Definition __kfifo_poke_n (fifo : kfifo) (recsize n : Z) : option kfifo :=
  b ← wr (bytes_of (buffer fifo)) (__kfifo_off fifo (u32 (in_ fifo + 0))) (u8 n);
  b ← (if negb (u32 (recsize - 1) =? 0) then
         wr b (__kfifo_off fifo (u32 (in_ fifo + 1))) (u8 (Z.shiftr n 8))
       else Some b);
  Some (set_bytes fifo b).

Definition __kfifo_in_rec (fifo : kfifo) (from : list Z) (n recsize : Z) : option (kfifo * Z) :=
  '(fifo, ret) ← __kfifo_in_n fifo from n recsize;
  if ret =? 0 then
    fifo ← (if negb (recsize =? 0) then __kfifo_poke_n fifo recsize n else Some fifo);
    Some (__kfifo_add_in fifo (u32 (n + recsize)), ret)
  else Some (fifo, ret).

(** The result is (fifo, destination, *total, return value). *)
Definition __kfifo_out_rec (fifo : kfifo) (to : list Z) (n recsize : Z)
  : option (kfifo * list Z * Z * Z) :=
  l ← (if recsize =? 0 then Some n else __kfifo_peek_n fifo recsize);
  if negb (recsize =? 0) && (n <? l) then Some (fifo, to, l, l)
  else
    '(fifo, to, r) ← __kfifo_out_n fifo to l recsize;
    Some (fifo, to, l, r).

Definition __kfifo_skip_rec (fifo : kfifo) (recsize : Z) : option kfifo :=
  if negb (recsize =? 0) then
    l ← __kfifo_peek_n fifo recsize;
    Some (if u32 (l + recsize) <=? kfifo_len fifo then __kfifo_add_out fifo (u32 (l + recsize))
          else kfifo_reset_out fifo)
  else Some (kfifo_reset_out fifo).

(** The out-of-line versions, for a record size that is not a compile-time constant. *)
Definition __kfifo_in_generic := __kfifo_in_rec.

Definition __kfifo_out_generic := __kfifo_out_rec.

Definition __kfifo_skip_generic := __kfifo_skip_rec.

Definition __kfifo_peek_generic (fifo : kfifo) (recsize : Z) : option Z :=
  if recsize =? 0 then Some (kfifo_avail fifo) else __kfifo_peek_n fifo recsize.

(** [const]: whether the compiler sees [recsize] as a constant. *)
Definition kfifo_peek_rec (const : bool) (fifo : kfifo) (recsize : Z) : option Z :=
  if negb const then __kfifo_peek_generic fifo recsize
  else if recsize =? 0 then Some (kfifo_len fifo)
  else __kfifo_peek_n fifo recsize.

Definition kfifo_avail_rec (fifo : kfifo) (recsize : Z) : Z :=
  let l := u32 (kfifo_size fifo - kfifo_len fifo) in
  if recsize <? l then l - recsize else 0.

Section User.

(** [uleft at_ n]: how many of the [n] bytes at offset [at_] of the user buffer the access
    functions fail to copy. *)
Context (uleft : Z -> Z -> Z).

(** copy_from_user clears the part of the kernel buffer it could not fill. *)
Definition copy_from_user (dst : list Z) (d : Z) (from : list Z) (s n : Z)
  : option (list Z * Z) :=
  let ret := uleft s n in
  dst ← memcpy dst d from s (n - ret);
  dst ← memcpy dst (d + (n - ret)) (replicate (Z.to_nat ret) 0) 0 ret;
  Some (dst, ret).

Definition copy_to_user (to : list Z) (d : Z) (src : list Z) (s n : Z) : option (list Z * Z) :=
  let ret := uleft d n in
  to ← memcpy to d src s (n - ret);
  Some (to, ret).

(** The result is (fifo, *lenout, return value). *)
Definition __kfifo_from_user_data (fifo : kfifo) (from : list Z) (len off : Z)
  : option (kfifo * Z * Z) :=
  let off := __kfifo_off fifo (u32 (in_ fifo + off)) in
  let l := Z.min len (u32 (size fifo - off)) in
  '(b, ret) ← copy_from_user (bytes_of (buffer fifo)) off from 0 l;
  if negb (ret =? 0) then Some (set_bytes fifo b, ret, - EFAULT)
  else
    '(b, ret) ← copy_from_user b 0 from l (u32 (len - l));
    Some (set_bytes fifo b,
          u32 (l + (if negb (ret =? 0) then ret else u32 (len - l))),
          if negb (ret =? 0) then - EFAULT else 0).

Definition __kfifo_to_user_data (fifo : kfifo) (to : list Z) (len off : Z)
  : option (list Z * Z * Z) :=
  let off := __kfifo_off fifo (u32 (out fifo + off)) in
  let l := Z.min len (u32 (size fifo - off)) in
  '(to, ret) ← copy_to_user to 0 (bytes_of (buffer fifo)) off l;
  if negb (ret =? 0) then Some (to, u32 (l - ret), - EFAULT)
  else
    let len := u32 (len - l) in
    '(to, ret) ← copy_to_user to l (bytes_of (buffer fifo)) 0 len;
    if negb (ret =? 0) then Some (to, u32 (l + u32 (len - ret)), - EFAULT)
    else Some (to, u32 (l + len), 0).

Definition __kfifo_from_user_n (fifo : kfifo) (from : list Z) (len recsize : Z)
  : option (kfifo * Z) :=
  if kfifo_avail fifo <? u32 (len + recsize) then Some (fifo, u32 (len + 1))
  else
    '(fifo, total, _) ← __kfifo_from_user_data fifo from len recsize;
    Some (fifo, total).

Definition kfifo_from_user (fifo : kfifo) (from : list Z) (len : Z) : option (kfifo * Z * Z) :=
  let len := Z.min (kfifo_avail fifo) len in
  '(fifo, total, ret) ← __kfifo_from_user_data fifo from len 0;
  if negb (ret =? 0) then Some (fifo, total, ret)
  else Some (__kfifo_add_in fifo len, total, 0).

Definition __kfifo_from_user_rec (fifo : kfifo) (from : list Z) (n recsize : Z)
  : option (kfifo * Z) :=
  '(fifo, ret) ← __kfifo_from_user_n fifo from n recsize;
  if ret =? 0 then
    fifo ← (if negb (recsize =? 0) then __kfifo_poke_n fifo recsize n else Some fifo);
    Some (__kfifo_add_in fifo (u32 (n + recsize)), ret)
  else Some (fifo, ret).

Definition __kfifo_from_user_generic := __kfifo_from_user_rec.

Definition __kfifo_to_user_n (fifo : kfifo) (to : list Z) (len reclen recsize : Z)
  : option (kfifo * list Z * Z) :=
  if kfifo_len fifo <? u32 (reclen + recsize) then Some (fifo, to, len)
  else
    '(to, total, ret) ← __kfifo_to_user_data fifo to reclen recsize;
    Some (if ret =? 0 then __kfifo_add_out fifo (u32 (reclen + recsize)) else fifo, to, total).

Definition kfifo_to_user (fifo : kfifo) (to : list Z) (len : Z)
  : option (kfifo * list Z * Z * Z) :=
  let len := Z.min (kfifo_len fifo) len in
  '(to, lenout, ret) ← __kfifo_to_user_data fifo to len 0;
  Some (__kfifo_add_out fifo lenout, to, lenout, ret).

Definition __kfifo_to_user_rec (fifo : kfifo) (to : list Z) (n recsize : Z)
  : option (kfifo * list Z * Z * Z) :=
  l ← (if recsize =? 0 then Some n else __kfifo_peek_n fifo recsize);
  if negb (recsize =? 0) && (n <? l) then Some (fifo, to, l, l)
  else
    '(fifo, to, r) ← __kfifo_to_user_n fifo to n l recsize;
    Some (fifo, to, l, r).

Definition __kfifo_to_user_generic := __kfifo_to_user_rec.

End User.

(** * The abstract queue *)

(** A power of two that divides 2^32. *)
Definition ring_size (sz : Z) : Prop := exists k, 0 <= k <= 31 /\ sz = 2 ^ k.

Definition kfifo_ok (f : kfifo) : Prop :=
  exists b, buffer f = Some b /\ ring_size (size f) /\ Z.of_nat (length b) = size f /\
    Forall is_byte b /\ is_u32 (in_ f) /\ is_u32 (out f) /\ kfifo_len f <= size f.

Definition cell (b : list Z) (sz p : Z) : Z := b !!! Z.to_nat (p mod sz).

(** The [n] bytes of the ring from position [p] on. *)
Definition window (b : list Z) (sz p n : Z) : list Z := (fun k => cell b sz (p + k)) <$> seqZ 0 n.

(** The queued bytes, oldest first. *)
Definition contents (f : kfifo) : list Z :=
  window (bytes_of (buffer f)) (size f) (out f) (kfifo_len f).

(** * Rings *)

Lemma ring_size_bounds sz : ring_size sz -> 0 < sz <= 2147483648.
Proof.
  intros (k & Hk & ->). split; [apply Z.pow_pos_nonneg; lia|].
  change 2147483648 with (2 ^ 31). apply Z.pow_le_mono_r; lia.
Qed.

Lemma ring_size_mod sz x : ring_size sz -> u32 x mod sz = x mod sz.
Proof.
  intros (k & Hk & ->). unfold u32. change 4294967296 with (2 ^ 32).
  replace 32 with (k + (32 - k)) by lia. rewrite Z.pow_add_r by lia.
  pose proof (Z.pow_pos_nonneg 2 k). pose proof (Z.pow_pos_nonneg 2 (32 - k)).
  rewrite Z.rem_mul_r, Z.mul_comm, Z.mod_add, Z.mod_mod by lia. done.
Qed.

Lemma ring_off f x : ring_size (size f) -> __kfifo_off f (u32 x) = x mod size f.
Proof.
  intros Hr. rewrite <- ring_size_mod by done. unfold __kfifo_off.
  pose proof (ring_size_bounds _ Hr). rewrite (u32_small (size f - 1)) by (unfold is_u32; lia).
  destruct Hr as (k & Hk & Hsz). rewrite Hsz.
  replace (2 ^ k - 1) with (Z.ones k) by (rewrite Z.ones_equiv; lia).
  apply Z.land_ones. lia.
Qed.

Lemma cell_cong b sz p q c : sz <> 0 -> p = q + c * sz -> cell b sz p = cell b sz q.
Proof. intros Hs ->. unfold cell. by rewrite Z.mod_add. Qed.

Lemma cell_u32 b sz p q : ring_size sz -> cell b sz (u32 p + q) = cell b sz (p + q).
Proof.
  intros Hr. unfold cell. pose proof (ring_size_bounds _ Hr).
  rewrite <- Z.add_mod_idemp_l, ring_size_mod, Z.add_mod_idemp_l by (done || lia). done.
Qed.

Lemma window_length b sz p n : 0 <= n -> Z.of_nat (length (window b sz p n)) = n.
Proof. intros. unfold window. rewrite length_fmap, length_seqZ. lia. Qed.

Lemma window_rd b sz p n i :
  rd (window b sz p n) i = if bool_decide (0 <= i < n) then Some (cell b sz (p + i)) else None.
Proof.
  unfold window. rewrite rd_fmap. unfold rd. case_bool_decide as Hi.
  - case_bool_decide as Hn.
    + rewrite lookup_seqZ_lt by lia. simpl. do 2 f_equal. lia.
    + by rewrite lookup_seqZ_ge by lia.
  - by rewrite bool_decide_eq_false_2 by lia.
Qed.

Lemma window_app b sz p n m :
  0 <= n -> 0 <= m -> window b sz p (n + m) = window b sz p n ++ window b sz (p + n) m.
Proof.
  intros Hn Hm. unfold window. rewrite seqZ_app, fmap_app by lia. f_equal.
  rewrite <- (Z.add_0_r (0 + n)), <- fmap_add_seqZ, <- list_fmap_compose.
  apply list_fmap_ext. intros i k _. simpl. f_equal. lia.
Qed.

Lemma window_ext b b' sz p p' n :
  (forall k, 0 <= k < n -> cell b sz (p + k) = cell b' sz (p' + k)) ->
  window b sz p n = window b' sz p' n.
Proof.
  intros H. apply list_fmap_ext. intros i k Hk. apply lookup_seqZ in Hk. apply H. lia.
Qed.

Lemma window_u32 b sz p n : ring_size sz -> window b sz (u32 p) n = window b sz p n.
Proof. intros. apply window_ext. intros. by apply cell_u32. Qed.

Lemma window_bytes b sz p n :
  ring_size sz -> Z.of_nat (length b) = sz -> Forall is_byte b -> Forall is_byte (window b sz p n).
Proof.
  intros Hr Hlen Hb. apply Forall_fmap, Forall_true. intros k. unfold cell. simpl.
  pose proof (ring_size_bounds _ Hr). pose proof (Z.mod_pos_bound (p + k) sz).
  apply Forall_total; [done|lia].
Qed.

(** * Copies into and out of the ring *)

(** A write of [n] bytes of [from] at ring position [p], split at the end of the buffer. *)
Definition ring_written (b b' : list Z) (sz p n : Z) (from : list Z) : Prop :=
  length b' = length b /\ Forall is_byte b' /\
  (forall k, 0 <= k < n -> Some (cell b' sz (p + k)) = rd from k) /\
  (forall k, n <= k < sz -> cell b' sz (p + k) = cell b sz (p + k)).

Lemma cell_rd b sz p :
  0 < sz -> Z.of_nat (length b) = sz -> Some (cell b sz p) = rd b (p mod sz).
Proof.
  intros Hs Hlen. pose proof (Z.mod_pos_bound p sz). unfold cell. by rewrite rd_total by lia.
Qed.

Lemma mod_split p k sz :
  0 < sz -> 0 <= k < sz ->
  (p + k) mod sz = if bool_decide (k < sz - p mod sz) then p mod sz + k else p mod sz + k - sz.
Proof.
  intros Hs Hk. pose proof (Z.mod_pos_bound p sz Hs).
  rewrite <- Z.add_mod_idemp_l by lia. case_bool_decide.
  - apply Z.mod_small. lia.
  - symmetry. apply (Z.mod_unique_pos _ _ 1); lia.
Qed.

Lemma ring_write b sz p n from :
  0 < sz -> Z.of_nat (length b) = sz -> Forall is_byte b -> Forall is_byte from ->
  0 <= n <= sz -> n <= Z.of_nat (length from) ->
  let l := Z.min n (sz - p mod sz) in
  exists b1 b', memcpy b (p mod sz) from 0 l = Some b1 /\ memcpy b1 0 from l (n - l) = Some b' /\
    ring_written b b' sz p n from.
Proof.
  intros Hs Hlen Hb Hf Hn Hnf l. pose proof (Z.mod_pos_bound p sz Hs).
  destruct (memcpy_Some b (p mod sz) from 0 l) as (b1 & ? & Hlen1 & Hb1 & Hrd1); [lia..|].
  destruct (memcpy_Some b1 0 from l (n - l)) as (b' & ? & Hlen' & Hb' & Hrd'); [lia..|].
  exists b1, b'. split; [done|]. split; [done|]. split; [congruence|]. split; [auto|].
  split; intros k Hk.
  - rewrite cell_rd by lia. rewrite Hrd', Hrd1, mod_split by lia.
    repeat case_bool_decide; (lia || (f_equal; lia)).
  - assert (Some (cell b' sz (p + k)) = Some (cell b sz (p + k))) as Heq; [|by simplify_eq].
    rewrite !cell_rd by lia. rewrite Hrd', Hrd1, mod_split by lia.
    repeat case_bool_decide; (lia || done).
Qed.

(** A read of the window at [p]. *)
Lemma ring_read b sz p n to :
  0 < sz -> Z.of_nat (length b) = sz -> 0 <= n <= sz -> n <= Z.of_nat (length to) ->
  let l := Z.min n (sz - p mod sz) in
  exists t1, memcpy to 0 b (p mod sz) l = Some t1 /\
    memcpy t1 l b 0 (n - l) = Some (window b sz p n ++ drop (Z.to_nat n) to).
Proof.
  intros Hs Hlen Hn Hnt l. pose proof (Z.mod_pos_bound p sz Hs).
  destruct (memcpy_Some to 0 b (p mod sz) l) as (t1 & ? & Hlen1 & _ & Hrd1); [lia..|].
  destruct (memcpy_Some t1 l b 0 (n - l)) as (t2 & Ht2 & Hlen2 & _ & Hrd2); [lia..|].
  exists t1. split; [done|]. rewrite Ht2. f_equal. apply rd_ext.
  - rewrite length_app, length_drop. pose proof (window_length b sz p n). lia.
  - intros i Hi. rewrite Hrd2, Hrd1. destruct (decide (i < n)).
    + assert (rd (window b sz p n ++ drop (Z.to_nat n) to) i = Some (cell b sz (p + i))) as ->.
      { pose proof (window_rd b sz p n i) as Hw. rewrite bool_decide_eq_true_2 in Hw by lia.
        rewrite <- Hw. unfold rd. rewrite bool_decide_eq_true_2 by lia. apply lookup_app_l.
        pose proof (window_length b sz p n). lia. }
      rewrite cell_rd, mod_split by lia. repeat case_bool_decide; (lia || (f_equal; lia)).
    + rewrite !bool_decide_eq_false_2 by lia. unfold rd. rewrite !bool_decide_eq_true_2 by lia.
      pose proof (window_length b sz p n).
      rewrite lookup_app_r by lia. rewrite lookup_drop. f_equal. lia.
Qed.

Lemma in_data_spec f b from len off :
  buffer f = Some b -> ring_size (size f) -> Z.of_nat (length b) = size f -> Forall is_byte b ->
  Forall is_byte from -> 0 <= len <= size f -> len <= Z.of_nat (length from) ->
  exists b', __kfifo_in_data f from len off =
      Some (Kfifo (Some b') (size f) (in_ f) (out f)) /\
    ring_written b b' (size f) (in_ f + off) len from.
Proof.
  intros Hb Hr Hlen Hbytes Hf Hl Hfl. pose proof (ring_size_bounds _ Hr).
  unfold __kfifo_in_data. rewrite ring_off, Hb by done. simpl.
  pose proof (Z.mod_pos_bound (in_ f + off) (size f) ltac:(lia)).
  rewrite (u32_small (size f - _)) by (unfold is_u32; lia).
  rewrite u32_small by (unfold is_u32; lia).
  destruct (ring_write b (size f) (in_ f + off) len from) as (b1 & b' & -> & H2 & Hw);
    [done || lia..|]. simpl. rewrite H2. simpl.
  exists b'. unfold set_bytes. rewrite Hb. done.
Qed.

Lemma out_data_spec f b to len off :
  buffer f = Some b -> ring_size (size f) -> Z.of_nat (length b) = size f ->
  0 <= len <= size f -> len <= Z.of_nat (length to) ->
  __kfifo_out_data f to len off =
    Some (window b (size f) (out f + off) len ++ drop (Z.to_nat len) to).
Proof.
  intros Hb Hr Hlen Hl Ht. pose proof (ring_size_bounds _ Hr).
  unfold __kfifo_out_data. rewrite ring_off, Hb by done. simpl.
  pose proof (Z.mod_pos_bound (out f + off) (size f) ltac:(lia)).
  rewrite (u32_small (size f - _)) by (unfold is_u32; lia).
  rewrite u32_small by (unfold is_u32; lia).
  destruct (ring_read b (size f) (out f + off) len to) as (t1 & -> & H2); [done || lia..|].
  simpl. done.
Qed.

(** * Queue operations *)

Lemma kfifo_len_bounds f : kfifo_ok f -> 0 <= kfifo_len f <= size f.
Proof.
  intros (b & _ & _ & _ & _ & _ & _ & Hl). split; [|done]. apply u32_is_u32.
Qed.

Lemma kfifo_avail_eq f : kfifo_ok f -> kfifo_avail f = size f - kfifo_len f.
Proof.
  intros Hok. pose proof (kfifo_len_bounds f Hok). destruct Hok as (b & _ & Hr & _).
  pose proof (ring_size_bounds _ Hr). apply u32_small. unfold kfifo_size, is_u32. lia.
Qed.

Lemma contents_length f : kfifo_ok f -> Z.of_nat (length (contents f)) = kfifo_len f.
Proof. intros Hok. apply window_length. by apply kfifo_len_bounds. Qed.

Lemma in_position f : is_u32 (in_ f) -> in_ f = u32 (out f + kfifo_len f).
Proof. unfold is_u32, kfifo_len, u32. lia. Qed.

Lemma len_add_in f n :
  is_u32 (in_ f) -> 0 <= n -> kfifo_len f + n < 4294967296 ->
  u32 (u32 (in_ f + n) - out f) = kfifo_len f + n.
Proof. unfold is_u32, kfifo_len, u32. lia. Qed.

Lemma len_add_out f n :
  0 <= n <= kfifo_len f -> u32 (in_ f - u32 (out f + n)) = kfifo_len f - n.
Proof. unfold kfifo_len, u32. lia. Qed.

Lemma append_contents f b b' data :
  kfifo_ok f -> buffer f = Some b ->
  kfifo_len f + Z.of_nat (length data) <= size f ->
  ring_written b b' (size f) (in_ f) (Z.of_nat (length data)) data ->
  let f' := Kfifo (Some b') (size f) (u32 (in_ f + Z.of_nat (length data))) (out f) in
  kfifo_ok f' /\ contents f' = contents f ++ data.
Proof.
  intros Hok Hb Hfit (Hlen' & Hb' & Hnew & Hold) f'. pose proof (kfifo_len_bounds f Hok) as Hlb.
  destruct Hok as (b0 & Hb0 & Hr & Hlen & Hbytes & Hin & Hout & _). rewrite Hb in Hb0. simplify_eq.
  pose proof (ring_size_bounds _ Hr). set (n := Z.of_nat (length data)) in *.
  assert (kfifo_len f' = kfifo_len f + n) as Hl.
  { transitivity (u32 (u32 (in_ f + n) - out f)); [done|]. apply len_add_in; [done|lia|lia]. }
  split.
  { exists b'. split_and!; auto with kernel; rewrite ?Hl; subst f'; simpl; auto with kernel; lia. }
  unfold contents. rewrite Hl. simpl. rewrite Hb. simpl. rewrite window_app by lia. f_equal.
  - apply window_ext. intros k Hk. pose proof (in_position f Hin) as Hpos.
    rewrite <- (cell_cong b' (size f) (out f + k + size f) (out f + k) 1) by lia.
    rewrite <- (cell_cong b0 (size f) (out f + k + size f) (out f + k) 1) by lia.
    replace (out f + k + size f) with (out f + kfifo_len f + (size f - kfifo_len f + k)) by lia.
    rewrite <- (cell_u32 b' _ (out f + _)), <- (cell_u32 b0 _ (out f + _)), <- Hpos by done.
    apply Hold. lia.
  - apply rd_ext.
    + pose proof (window_length b' (size f) (out f + kfifo_len f) n). lia.
    + intros i Hi. rewrite window_length in Hi by lia. rewrite window_rd.
      rewrite bool_decide_eq_true_2 by lia. rewrite <- (cell_u32 b' _ (out f + _)), <- in_position by done.
      by apply Hnew.
Qed.

Lemma consume_contents f n :
  kfifo_ok f -> 0 <= n <= kfifo_len f ->
  kfifo_ok (__kfifo_add_out f n) /\
  contents (__kfifo_add_out f n) = drop (Z.to_nat n) (contents f).
Proof.
  intros Hok Hn. pose proof (kfifo_len_bounds f Hok) as Hlb.
  destruct Hok as (b & Hb & Hr & Hlen & Hbytes & Hin & Hout & _).
  assert (kfifo_len (__kfifo_add_out f n) = kfifo_len f - n) as Hl.
  { transitivity (u32 (in_ f - u32 (out f + n))); [done|]. apply len_add_out. lia. }
  split.
  { exists b. split_and!; auto with kernel; [simpl; auto with kernel|rewrite Hl; simpl; lia]. }
  unfold contents. rewrite Hl. simpl. rewrite window_u32 by done.
  replace (kfifo_len f) with (n + (kfifo_len f - n)) at 2 by lia.
  rewrite window_app by lia. rewrite drop_app_length'; [done|].
  pose proof (window_length (bytes_of (buffer f)) (size f) (out f) n). lia.
Qed.

Lemma contents_prefix f b n :
  kfifo_ok f -> buffer f = Some b -> 0 <= n <= kfifo_len f ->
  window b (size f) (out f) n = take (Z.to_nat n) (contents f).
Proof.
  intros Hok Hb Hn. unfold contents. rewrite Hb. simpl.
  replace (kfifo_len f) with (n + (kfifo_len f - n)) by lia.
  rewrite window_app by lia. rewrite take_app_length'; [done|].
  pose proof (window_length b (size f) (out f) n). lia.
Qed.

Lemma kfifo_in_spec f from len :
  kfifo_ok f -> Forall is_byte from -> 0 <= len <= Z.of_nat (length from) ->
  let n := Z.min (size f - kfifo_len f) len in
  exists f', kfifo_in f from len = Some (f', n) /\ kfifo_ok f' /\ size f' = size f /\
    contents f' = contents f ++ take (Z.to_nat n) from.
Proof.
  intros Hok Hf Hlen n. pose proof (kfifo_len_bounds f Hok).
  pose proof Hok as (b & Hb & Hr & Hl & Hbytes & _).
  unfold kfifo_in. rewrite kfifo_avail_eq by done. fold n.
  destruct (in_data_spec f b from n 0) as (b' & -> & Hw); [done || lia..|]. simpl.
  eexists. split; [done|]. unfold __kfifo_add_in. simpl.
  assert (Z.of_nat (length (take (Z.to_nat n) from)) = n) as Hn by (rewrite length_take; lia).
  rewrite Z.add_0_r in Hw.
  destruct (append_contents f b b' (take (Z.to_nat n) from)) as [Hok' Hc]; [done|done|lia| |].
  - rewrite Hn. destruct Hw as (? & ? & Hnew & ?). repeat split; auto.
    intros k Hk. rewrite Hnew by done. unfold rd. rewrite bool_decide_eq_true_2 by lia.
    symmetry. apply lookup_take_lt. lia.
  - by rewrite Hn in *.
Qed.

Lemma kfifo_out_spec f to len :
  kfifo_ok f -> 0 <= len <= Z.of_nat (length to) ->
  let n := Z.min (kfifo_len f) len in
  exists f', kfifo_out f to len =
      Some (f', take (Z.to_nat n) (contents f) ++ drop (Z.to_nat n) to, n) /\
    kfifo_ok f' /\ size f' = size f /\ contents f' = drop (Z.to_nat n) (contents f).
Proof.
  intros Hok Hlen n. pose proof (kfifo_len_bounds f Hok).
  pose proof Hok as (b & Hb & Hr & Hl & Hbytes & _).
  unfold kfifo_out. fold n. rewrite (out_data_spec f b) by (done || lia). simpl.
  rewrite Z.add_0_r, contents_prefix by (done || lia).
  eexists. split; [done|]. destruct (consume_contents f n) as [Hok' Hc]; [done|lia|]. done.
Qed.

Lemma reset_out_ok f : kfifo_ok f -> kfifo_ok (kfifo_reset_out f) /\ contents (kfifo_reset_out f) = [].
Proof.
  intros (b & Hb & Hr & Hlen & Hbytes & Hin & Hout & Hl). pose proof (ring_size_bounds _ Hr).
  assert (kfifo_len (kfifo_reset_out f) = 0) as H0 by (unfold kfifo_len; simpl; by rewrite Z.sub_diag).
  split; [|unfold contents; by rewrite H0].
  exists b. split_and!; auto. rewrite H0. simpl. lia.
Qed.

Lemma kfifo_skip_spec f len :
  kfifo_ok f -> 0 <= len ->
  kfifo_ok (kfifo_skip f len) /\ size (kfifo_skip f len) = size f /\
  contents (kfifo_skip f len) = drop (Z.to_nat len) (contents f).
Proof.
  intros Hok Hlen. unfold kfifo_skip. pose proof (kfifo_len_bounds f Hok). dcase.
  - destruct (consume_contents f len) as [? ?]; [done|lia|]. done.
  - destruct (reset_out_ok f Hok) as [? ->]. split; [done|]. split; [done|].
    rewrite drop_ge; [done|]. pose proof (contents_length f Hok). lia.
Qed.

(** * Refinement: the byte queue *)

Inductive fifo_op : Type :=
| OpIn (from : list Z)
| OpOut (to : list Z)
| OpSkip (len : Z)
| OpReset
| OpResetOut.

(** What a call lets its caller see: the bytes delivered to the caller's buffer and the count. *)
Definition fifo_res : Type := list Z * Z.

Definition fifo_exec (f : kfifo) (op : fifo_op) : option (kfifo * fifo_res) :=
  match op with
  | OpIn from => '(f, n) ← kfifo_in f from (Z.of_nat (length from)); Some (f, ([], n))
  | OpOut to => '(f, to, n) ← kfifo_out f to (Z.of_nat (length to)); Some (f, (to, n))
  | OpSkip len => Some (kfifo_skip f len, ([], 0))
  | OpReset => Some (kfifo_reset f, ([], 0))
  | OpResetOut => Some (kfifo_reset_out f, ([], 0))
  end.

(** A queue of at most [cap] bytes. *)
Definition queue_exec (cap : Z) (q : list Z) (op : fifo_op) : list Z * fifo_res :=
  match op with
  | OpIn from =>
      let n := Z.min (cap - Z.of_nat (length q)) (Z.of_nat (length from)) in
      (q ++ take (Z.to_nat n) from, ([], n))
  | OpOut to =>
      let n := Nat.min (length q) (length to) in
      (drop n q, (take n q ++ drop n to, Z.of_nat n))
  | OpSkip len => (drop (Z.to_nat len) q, ([], 0))
  | OpReset | OpResetOut => ([], ([], 0))
  end.

Definition op_ok (op : fifo_op) : Prop :=
  match op with
  | OpIn from => Forall is_byte from
  | OpSkip len => is_u32 len
  | _ => True
  end.

Fixpoint fifo_run (f : kfifo) (ops : list fifo_op) : option (kfifo * list fifo_res) :=
  match ops with
  | [] => Some (f, [])
  | op :: ops =>
      '(f, r) ← fifo_exec f op;
      '(f, rs) ← fifo_run f ops;
      Some (f, r :: rs)
  end.

Fixpoint queue_run (cap : Z) (q : list Z) (ops : list fifo_op) : list Z * list fifo_res :=
  match ops with
  | [] => (q, [])
  | op :: ops =>
      let '(q, r) := queue_exec cap q op in
      let '(q, rs) := queue_run cap q ops in
      (q, r :: rs)
  end.

Lemma reset_ok f : kfifo_ok f -> kfifo_ok (kfifo_reset f) /\ contents (kfifo_reset f) = [].
Proof.
  intros (b & Hb & Hr & Hlen & Hbytes & Hin & Hout & Hl). pose proof (ring_size_bounds _ Hr).
  split; [|done]. exists b. split_and!; auto; simpl; try (unfold is_u32; lia).
  change (kfifo_len (kfifo_reset f)) with 0. lia.
Qed.

Lemma fifo_exec_sim f op :
  kfifo_ok f -> op_ok op ->
  exists f', fifo_exec f op = Some (f', (queue_exec (size f) (contents f) op).2) /\
    kfifo_ok f' /\ size f' = size f /\ contents f' = (queue_exec (size f) (contents f) op).1.
Proof.
  intros Hok Hop. pose proof (contents_length f Hok) as Hcl. destruct op as [from|to|len| |]; simpl.
  - destruct (kfifo_in_spec f from (Z.of_nat (length from))) as (f' & -> & ? & ? & ?); [done..|lia|].
    rewrite Hcl. simpl. eauto.
  - destruct (kfifo_out_spec f to (Z.of_nat (length to))) as (f' & -> & ? & ? & Hc); [done|lia|].
    simpl in *. exists f'. rewrite Hc.
    replace (Z.to_nat (Z.min (kfifo_len f) (Z.of_nat (length to))))
      with (Nat.min (length (contents f)) (length to)) by lia.
    replace (Z.min (kfifo_len f) (Z.of_nat (length to)))
      with (Z.of_nat (Nat.min (length (contents f)) (length to))) by lia. done.
  - destruct Hop as [Hlo _]. destruct (kfifo_skip_spec f len) as (? & ? & ?); eauto 6.
  - destruct (reset_ok f Hok). eauto 6.
  - destruct (reset_out_ok f Hok). eauto 6.
Qed.

Lemma fifo_run_sim ops f :
  kfifo_ok f -> Forall op_ok ops ->
  exists f', fifo_run f ops = Some (f', (queue_run (size f) (contents f) ops).2) /\
    kfifo_ok f' /\ size f' = size f /\ contents f' = (queue_run (size f) (contents f) ops).1.
Proof.
  revert f. induction ops as [|op ops IH]; intros f Hok Hops; simpl; [eauto|].
  apply Forall_cons_1 in Hops as [Hop Hops].
  destruct (fifo_exec_sim f op Hok Hop) as (f1 & -> & Hok1 & Hsz & Hc). simpl.
  destruct (IH f1 Hok1 Hops) as (f' & -> & Hok' & Hsz' & Hc'). simpl. exists f'.
  rewrite Hsz, Hc in *. destruct (queue_exec (size f) (contents f) op) as [q r]. simpl in *.
  destruct (queue_run (size f) q ops). simpl in *. eauto.
Qed.

(** * Creation *)

Lemma is_power_of_2_spec n : is_u32 n -> is_power_of_2 n = true <-> ring_size n.
Proof.
  intros Hn. unfold is_power_of_2, ring_size. split.
  - intros H. zbool. rename H0 into Hland. exists (Z.log2 n). pose proof (Z.log2_nonneg n). unfold is_u32 in Hn.
    destruct (Z.log2_spec n ltac:(lia)) as [Hlo Hhi].
    assert (Z.log2 n < 32) by (apply Z.log2_lt_pow2; lia). split; [lia|].
    destruct (decide (n = 2 ^ Z.log2 n)) as [|Hne]; [done|]. exfalso.
    assert (Z.log2 (n - 1) = Z.log2 n) as Hl by (apply Z.log2_unique; lia).
    assert (Z.testbit (Z.land n (n - 1)) (Z.log2 n) = true) as Hb.
    { rewrite Z.land_spec, Z.bit_log2 by lia. rewrite <- Hl. apply Z.bit_log2.
      assert (2 ^ 0 <= 2 ^ Z.log2 n) by (apply Z.pow_le_mono_r; lia). lia. }
    rewrite Hland, Z.bits_0 in Hb. done.
  - intros (k & Hk & ->). pose proof (Z.pow_pos_nonneg 2 k ltac:(lia) ltac:(lia)).
    assert ((2 ^ k =? 0) = false) as -> by lia. simpl. apply Z.eqb_eq.
    replace (2 ^ k - 1) with (Z.ones k) by (rewrite Z.ones_equiv; lia).
    rewrite Z.land_ones by lia. apply Z.mod_same. lia.
Qed.

(** The least power of two that is at least [n]. *)
Lemma roundup_pow_of_two_spec n :
  0 < n <= 2147483648 ->
  ring_size (roundup_pow_of_two n) /\ n <= roundup_pow_of_two n /\
  (forall m, ring_size m -> n <= m -> roundup_pow_of_two n <= m).
Proof.
  intros Hn. unfold roundup_pow_of_two. rewrite (u32_small (n - 1)) by (unfold is_u32; lia).
  rewrite fls_spec by (unfold is_u32; lia). set (k := if n - 1 =? 0 then 0 else Z.log2 (n - 1) + 1).
  assert (0 <= k <= 31 /\ n <= 2 ^ k /\ (k = 0 \/ 2 ^ (k - 1) < n)) as (Hk & Hle & Hmin).
  { subst k. dcase; [lia|]. pose proof (Z.log2_nonneg (n - 1)).
    destruct (Z.log2_spec (n - 1) ltac:(lia)) as [H1 H2].
    assert (Z.log2 (n - 1) < 31) by (apply Z.log2_lt_pow2; lia).
    replace (Z.log2 (n - 1) + 1 - 1) with (Z.log2 (n - 1)) by lia.
    rewrite <- Z.add_1_r in H2. lia. }
  assert (0 < 2 ^ k <= 2 ^ 31) by (split; [lia|apply Z.pow_le_mono_r; lia]).
  unfold ul_shl. rewrite Z.shiftl_1_l, u32_small by (unfold is_u32; lia).
  split; [by exists k|]. split; [done|]. intros m (j & Hj & ->) Hm.
  apply Z.pow_le_mono_r; [lia|]. destruct Hmin as [->|Hmin]; [lia|].
  enough (k - 1 < j) by lia. apply (Z.pow_lt_mono_r_iff 2); lia.
Qed.

Lemma fresh_ok buf sz :
  ring_size sz -> Z.of_nat (length buf) = sz -> Forall is_byte buf ->
  kfifo_ok (_kfifo_init (Some buf) sz) /\ contents (_kfifo_init (Some buf) sz) = [].
Proof.
  intros Hr Hlen Hb. pose proof (ring_size_bounds _ Hr). split; [|done].
  exists buf. split_and!; auto; simpl; try (unfold is_u32; lia).
  change (kfifo_len _) with 0. lia.
Qed.




(** An allocator that always delivers zeroed memory. *)
Definition kzalloc (n : Z) : option (list Z) := Some (replicate (Z.to_nat (Z.max 0 n)) 0).

(** C8: a fifo behaves as a bounded byte queue: over any sequence of in, out, skip, reset and reset_out,
    the counts returned and the bytes delivered are those of a queue that holds at most [size]
    bytes, whatever the wrap-around of the free-running indices, and no access leaves the ring
    buffer or the caller's. kfifo_init accepts exactly the powers of two; kfifo_alloc rounds the
    size, if it is not 0, up to the least power of two (and refuses one above 2^31), yields an empty well-formed fifo
    when kmalloc delivers, and -ENOMEM with an uninitialised empty fifo when it does not. *)
Theorem kfifo_correct :
  (forall f ops,
    kfifo_ok f -> Forall op_ok ops ->
      exists f', fifo_run f ops = Some (f', (queue_run (size f) (contents f) ops).2) /\
        kfifo_ok f' /\ size f' = size f /\ contents f' = (queue_run (size f) (contents f) ops).1) /\
  (forall kmalloc sz,
    is_u32 sz ->
      (forall n buf, kmalloc n = Some buf -> Z.of_nat (length buf) = n /\ Forall is_byte buf) ->
      (forall buf, is_Some (kfifo_init buf sz) <-> ring_size sz) /\
      (forall buf f, kfifo_init buf sz = Some f -> Z.of_nat (length buf) = sz -> Forall is_byte buf ->
         kfifo_ok f /\ size f = sz /\ contents f = []) /\
      (2147483648 < sz -> kfifo_alloc kmalloc sz = None) /\
      (0 < sz <= 2147483648 -> exists n, ring_size n /\ sz <= n /\
         (forall m, ring_size m -> sz <= m -> n <= m) /\
         match kmalloc n with
         | Some _ => exists f, kfifo_alloc kmalloc sz = Some (f, 0) /\ kfifo_ok f /\ size f = n /\
             contents f = []
         | None => exists f, kfifo_alloc kmalloc sz = Some (f, - ENOMEM) /\
             kfifo_initialized f = false /\ size f = 0 /\ kfifo_is_empty f = true
         end)).
Proof.
  split.
  { intros f ops. apply fifo_run_sim. }
  { intros kmalloc sz.
    intros Hsz Hk. pose proof (is_power_of_2_spec sz Hsz) as Hp. unfold kfifo_init. split_and!.
    - intros buf. destruct (is_power_of_2 sz); simpl; [|split; [by intros [? ?]|by intros ?%Hp]].
      split; [intros _; by apply Hp|eauto].
    - intros buf f. destruct (is_power_of_2 sz) eqn:E; simpl; [|done]. intros ? Hlen Hb. simplify_eq.
      destruct (fresh_ok buf (Z.of_nat (length buf))) as [? ?]; [by apply Hp|done..].
    - intros Hbig. unfold kfifo_alloc. destruct (is_power_of_2 sz) eqn:E; simpl.
      + pose proof (ring_size_bounds _ (proj1 Hp eq_refl)). lia.
      + by rewrite (proj2 (Z.ltb_lt _ _)) by lia.
    - intros Hr. pose proof (roundup_pow_of_two_spec sz Hr) as (Hru & Hle & Hmin).
      exists (if is_power_of_2 sz then sz else roundup_pow_of_two sz).
      assert (forall n, ring_size n -> match kmalloc n with
        | Some b => kfifo_ok (_kfifo_init (Some b) n) /\ contents (_kfifo_init (Some b) n) = []
        | None => True end) as Hfresh.
      { intros n Hn. destruct (kmalloc n) as [b|] eqn:Eb; [|done].
        destruct (Hk n b Eb). by apply fresh_ok. }
      unfold kfifo_alloc. destruct (is_power_of_2 sz) eqn:E; simpl.
      + specialize (Hfresh sz (proj1 Hp eq_refl)). split_and!; [by apply Hp|lia|done|].
        destruct (kmalloc sz); [destruct Hfresh|]; by eexists.
      + rewrite (proj2 (Z.ltb_ge _ _)) by lia. simpl. specialize (Hfresh _ Hru).
        split_and!; [done..|]. destruct (kmalloc _); [destruct Hfresh|]; by eexists. }
Qed.

Lemma kfifo_correct_witness :
  (exists f', fifo_run (Kfifo (Some [1; 2; 3; 4]) 4 1 4294967294)
      [OpIn [5; 6]; OpOut [0; 0; 0]] = Some (f', [([], 1); ([3; 4; 1], 3)])) /\
  (exists f, kfifo_alloc (fun n => if n <? 0 then None else kzalloc n) 100 = Some (f, 0) /\
      kfifo_ok f /\ contents f = []).
Proof.
  split.
  {destruct (proj1 kfifo_correct (Kfifo (Some [1; 2; 3; 4]) 4 1 4294967294)
      [OpIn [5; 6]; OpOut [0; 0; 0]]) as (f' & Hrun & _).
    - exists [1; 2; 3; 4].
      split_and!; [done|by exists 2|done|solve_words|solve_words|solve_words|vm_compute; congruence].
    - apply Forall_cons_2; [simpl; solve_words|]. by repeat constructor.
    - exists f'. exact Hrun. }
  {destruct (proj2 kfifo_correct (fun n => if n <? 0 then None else kzalloc n) 100)
      as (_ & _ & _ & H); [unfold is_u32; lia| |].
    - intros n buf. dcase; [done|]. unfold kzalloc. intros ?. simplify_eq. rewrite length_replicate.
      split; [lia|]. apply Forall_replicate. unfold is_byte; lia.
    - destruct (H ltac:(lia)) as (n & Hr & Hle & _ & Hm). rewrite (proj2 (Z.ltb_ge n 0)) in Hm by lia.
      destruct Hm as (f & Hf & Hok & _ & Hc). exists f. split; [exact Hf|]. split; [exact Hok|exact Hc]. }
Defined.
