(* ===== verification/KfifoRec.v ===== *)
(** Records in a fifo (kfifo_in_rec, kfifo_out_rec, kfifo_skip_rec, kfifo_peek_rec of
    include/linux/kfifo.h and their out-of-line halves in kernel/kfifo.c) and the copies from and
    to user space, modelled in [Kfifo]. *)

From S2P Require Import Prelude Word Kfifo.
From Stdlib Require Import Lia.

(** * Composing writes to the ring *)

Lemma rd_app {A} (a b : list A) i :
  rd (a ++ b) i = if bool_decide (i < Z.of_nat (length a)) then rd a i
                  else rd b (i - Z.of_nat (length a)).
Proof.
  unfold rd. repeat case_bool_decide; try lia; try done.
  - apply lookup_app_l. lia.
  - rewrite lookup_app_r by lia. f_equal. lia.
Qed.

(** Two adjacent writes, in either order, are one write of the concatenation. *)
Lemma ring_written_app b b1 b2 sz p (x y : list Z) :
  0 < sz -> Z.of_nat (length x) + Z.of_nat (length y) <= sz ->
  (ring_written b b1 sz p (Z.of_nat (length x)) x /\
   ring_written b1 b2 sz (p + Z.of_nat (length x)) (Z.of_nat (length y)) y \/
   ring_written b b1 sz (p + Z.of_nat (length x)) (Z.of_nat (length y)) y /\
   ring_written b1 b2 sz p (Z.of_nat (length x)) x) ->
  ring_written b b2 sz p (Z.of_nat (length (x ++ y))) (x ++ y).
Proof.
  set (h := Z.of_nat (length x)). set (n := Z.of_nat (length y)). intros Hs Hfit Hw.
  assert (forall b, forall k, cell b sz (p + k) = cell b sz (p + h + (k - h))) as Hsh
    by (intros; f_equal; lia).
  assert (forall b, forall k, cell b sz (p + k) = cell b sz (p + h + (k - h + sz))) as Hwrap
    by (intros; symmetry; apply (cell_cong _ _ _ _ 1); lia).
  assert (Z.of_nat (length (x ++ y)) = h + n) as -> by (rewrite length_app; lia).
  destruct Hw as [[(Hl1 & Hb1 & Hn1 & Ho1) (Hl2 & Hb2 & Hn2 & Ho2)]|
                  [(Hl1 & Hb1 & Hn1 & Ho1) (Hl2 & Hb2 & Hn2 & Ho2)]];
    (split; [congruence|]); (split; [done|]); split; intros k Hk; try rewrite rd_app; fold h.
  - case_bool_decide.
    + rewrite Hwrap, Ho2, <- Hwrap by lia. apply Hn1. lia.
    + rewrite Hsh. apply Hn2. lia.
  - rewrite Hsh, Ho2, <- Hsh by lia. apply Ho1. lia.
  - case_bool_decide; [apply Hn2; lia|].
    rewrite Ho2, Hsh by lia. apply Hn1. lia.
  - rewrite Ho2, Hsh, Ho1, <- Hsh by lia. done.
Qed.

Lemma ring_poke b sz p x :
  0 < sz -> Z.of_nat (length b) = sz -> Forall is_byte b -> is_byte x ->
  exists b', wr b (p mod sz) x = Some b' /\ ring_written b b' sz p 1 [x].
Proof.
  intros Hs Hlen Hb Hx. pose proof (Z.mod_pos_bound p sz Hs). rewrite wr_Some by lia.
  eexists. split; [done|]. split; [by rewrite length_insert|].
  split; [by apply Forall_insert|].
  assert (forall q, Some (cell (<[Z.to_nat (p mod sz):=x]> b) sz q) =
    if bool_decide (q mod sz = p mod sz) then Some x else Some (cell b sz q)) as Hc.
  { intros q. rewrite cell_rd by (rewrite ?length_insert; lia).
    rewrite rd_insert, cell_rd by lia. done. }
  split; intros k Hk.
  - assert (k = 0) as -> by lia. rewrite Hc, Z.add_0_r. by rewrite bool_decide_eq_true_2.
  - specialize (Hc (p + k)). rewrite mod_split in Hc by lia.
    rewrite (bool_decide_eq_false_2 (_ = _)) in Hc; [congruence|].
    clear Hc. generalize dependent (p mod sz). intros m Hm. case_bool_decide; lia.
Qed.

(** * Record headers *)

Definition rec_header (recsize n : Z) : list Z :=
  if recsize =? 1 then [u8 n] else [u8 n; u8 (Z.shiftr n 8)].

Definition rec_ok (recsize : Z) (r : list Z) : Prop :=
  Forall is_byte r /\ Z.of_nat (length r) < (if recsize =? 1 then 256 else 65536).

(** A record as it lies in the fifo. *)
Definition enc_rec (recsize : Z) (r : list Z) : list Z :=
  rec_header recsize (Z.of_nat (length r)) ++ r.

(** The fifo holds the records [rs]. *)
Definition holds_recs (f : kfifo) (recsize : Z) (rs : list (list Z)) : Prop :=
  kfifo_ok f /\ Forall (rec_ok recsize) rs /\ contents f = concat (enc_rec recsize <$> rs).

Definition rec_size (recsize : Z) : Prop := recsize = 1 \/ recsize = 2.

Lemma rec_header_length recsize n :
  rec_size recsize -> Z.of_nat (length (rec_header recsize n)) = recsize.
Proof. by intros [->| ->]. Qed.

Lemma rec_header_bytes recsize n : Forall is_byte (rec_header recsize n).
Proof. unfold rec_header. dcase; repeat apply Forall_cons_2; auto using u8_is_byte. Qed.

Lemma poke_spec f b recsize n :
  rec_size recsize -> buffer f = Some b -> ring_size (size f) -> Z.of_nat (length b) = size f ->
  Forall is_byte b -> recsize <= size f ->
  exists b', __kfifo_poke_n f recsize n = Some (Kfifo (Some b') (size f) (in_ f) (out f)) /\
    ring_written b b' (size f) (in_ f) recsize (rec_header recsize n).
Proof.
  intros Hrec Hb Hr Hlen Hbytes Hsz. pose proof (ring_size_bounds _ Hr). unfold __kfifo_poke_n.
  rewrite Hb, !ring_off by done. simpl.
  destruct (ring_poke b (size f) (in_ f + 0) (u8 n)) as (b1 & -> & Hw1);
    [done || lia || apply u8_is_byte..|].
  rewrite Z.add_0_r in Hw1. unfold set_bytes. rewrite Hb. simpl.
  destruct Hrec as [->| ->]; simpl; [by exists b1|].
  pose proof Hw1 as (Hl1 & Hb1 & _).
  destruct (ring_poke b1 (size f) (in_ f + 1) (u8 (Z.shiftr n 8))) as (b2 & -> & Hw2);
    [done || lia || apply u8_is_byte..|].
  exists b2. split; [done|].
  apply (ring_written_app b b1 b2 (size f) (in_ f) [u8 n] [u8 (Z.shiftr n 8)]); auto; lia.
Qed.

Lemma contents_rd f i :
  kfifo_ok f -> 0 <= i < kfifo_len f ->
  rd (contents f) i = Some (cell (bytes_of (buffer f)) (size f) (out f + i)).
Proof. intros Hok Hi. unfold contents. rewrite window_rd. by rewrite bool_decide_eq_true_2 by lia. Qed.

Lemma header_value recsize n :
  rec_size recsize -> 0 <= n < (if recsize =? 1 then 256 else 65536) ->
  match rec_header recsize n with
  | [l] => l = n
  | [l; h] => Z.lor l (Z.shiftl h 8) = n
  | _ => False
  end.
Proof.
  intros [->| ->]; simpl; intros Hn; [apply u8_small; done|].
  apply Z.bits_inj'. intros i Hi. rewrite Z.lor_spec, Z.shiftl_spec by lia.
  unfold u8. change 256 with (2 ^ 8). destruct (decide (i < 8)).
  - rewrite Z.mod_pow2_bits_low by lia. rewrite (Z.testbit_neg_r _ (i - 8)) by lia. apply orb_false_r.
  - rewrite Z.mod_pow2_bits_high by lia. simpl. destruct (decide (i < 16)).
    + rewrite Z.mod_pow2_bits_low, Z.shiftr_spec by lia. f_equal. lia.
    + rewrite Z.mod_pow2_bits_high by lia. symmetry. rewrite <- (Z.mod_small n (2 ^ 16)) by lia.
      apply Z.mod_pow2_bits_high. lia.
Qed.

(** The header of the first record, read through the ring. *)
Lemma peek_spec f recsize r rest :
  kfifo_ok f -> rec_size recsize -> rec_ok recsize r -> contents f = enc_rec recsize r ++ rest ->
  __kfifo_peek_n f recsize = Some (Z.of_nat (length r)).
Proof.
  intros Hok Hrec (_ & Hr) Hc. pose proof (contents_length f Hok) as Hlen.
  unfold enc_rec in Hc. rewrite <- app_assoc in Hc.
  rewrite Hc, !length_app in Hlen. pose proof (rec_header_length recsize (Z.of_nat (length r)) Hrec).
  pose proof (header_value recsize (Z.of_nat (length r)) Hrec ltac:(lia)) as Hv.
  assert (forall i, 0 <= i < recsize -> rd (bytes_of (buffer f)) ((out f + i) mod size f) =
    rd (rec_header recsize (Z.of_nat (length r))) i) as Hcell.
  { intros i Hi. pose proof (contents_rd f i Hok ltac:(lia)) as Hrd. rewrite Hc, rd_app in Hrd.
    rewrite bool_decide_eq_true_2 in Hrd by lia. rewrite Hrd.
    destruct Hok as (b & Hb & Hring & Hbl & _). pose proof (ring_size_bounds _ Hring).
    rewrite Hb. simpl. symmetry. apply cell_rd; [lia|done]. }
  destruct Hok as (b & Hb & Hring & _). unfold __kfifo_peek_n. rewrite !ring_off by done.
  destruct Hrec as [->| ->].
  - rewrite (Hcell 0) by lia. simpl in *. by rewrite Hv.
  - rewrite (Hcell 0), (Hcell 1) by lia. simpl in *. by rewrite Hv.
Qed.

(** * Record operations *)

Lemma in_n_spec f b from n off :
  kfifo_ok f -> buffer f = Some b -> Forall is_byte from -> 0 <= n <= Z.of_nat (length from) ->
  rec_size off -> n + off <= size f - kfifo_len f ->
  exists b', __kfifo_in_n f from n off = Some (Kfifo (Some b') (size f) (in_ f) (out f), 0) /\
    ring_written b b' (size f) (in_ f + off) n (take (Z.to_nat n) from).
Proof.
  intros Hok Hb Hf Hn Hoff Hfit. pose proof (kfifo_len_bounds f Hok).
  pose proof Hok as (b0 & Hb0 & Hr & Hl & Hbytes & _). rewrite Hb in Hb0. simplify_eq.
  pose proof (ring_size_bounds _ Hr). unfold rec_size in Hoff.
  unfold __kfifo_in_n. rewrite kfifo_avail_eq by done.
  rewrite u32_small, (proj2 (Z.ltb_ge _ _)) by (unfold is_u32; lia).
  destruct (in_data_spec f b0 from n off) as (b' & -> & Hl' & Hb' & Hnew & Hold); [done || lia..|].
  exists b'. split; [done|]. split_and!; auto. intros k Hk. rewrite Hnew by done.
  unfold rd. rewrite bool_decide_eq_true_2 by lia. symmetry. apply lookup_take_lt. lia.
Qed.

(** A header keeps the length of its record modulo 256 or 65536. *)
Definition rec_limit (recsize : Z) : Z := if recsize =? 1 then 256 else 65536.

Lemma header_mod recsize n :
  rec_size recsize -> 0 <= n -> rec_header recsize n = rec_header recsize (n mod rec_limit recsize).
Proof.
  intros [->| ->] Hn; unfold rec_header, rec_limit; cbn [Z.eqb Pos.eqb]; unfold u8; [f_equal; lia|].
  rewrite !Z.shiftr_div_pow2 by lia. change (2 ^ 8) with 256.
  assert (n mod 256 = n mod 65536 mod 256) as <- by lia.
  by assert (n / 256 mod 256 = n mod 65536 / 256 mod 256) as <- by lia.
Qed.

(** The bytes of a record of any length that fits. *)
Lemma in_rec_bytes f from n recsize :
  kfifo_ok f -> rec_size recsize -> Forall is_byte from ->
  0 <= n <= Z.of_nat (length from) -> n < 4294967294 ->
  if size f - kfifo_len f <? n + recsize then
    __kfifo_in_rec f from n recsize = Some (f, n + 1)
  else exists f', __kfifo_in_rec f from n recsize = Some (f', 0) /\ kfifo_ok f' /\
    contents f' = contents f ++ rec_header recsize n ++ take (Z.to_nat n) from.
Proof.
  intros Hok Hrec Hf Hn Hmax. pose proof (kfifo_len_bounds f Hok).
  pose proof Hok as (b & Hb & Hr & Hl & Hbytes & _). pose proof (ring_size_bounds _ Hr).
  unfold __kfifo_in_rec. dcase.
  { unfold __kfifo_in_n. rewrite kfifo_avail_eq by done.
    rewrite !u32_small by (destruct Hrec; unfold is_u32; lia).
    rewrite (proj2 (Z.ltb_lt _ _)) by lia. simpl. by rewrite (proj2 (Z.eqb_neq _ _)) by lia. }
  destruct (in_n_spec f b from n recsize) as (b1 & -> & Hw1); [done || lia..|]. simpl.
  assert (negb (recsize =? 0) = true) as -> by (destruct Hrec; lia).
  destruct Hw1 as (Hl1 & Hb1 & Hw1).
  destruct (poke_spec (Kfifo (Some b1) (size f) (in_ f) (out f)) b1 recsize n) as (b2 & -> & Hw2);
    simpl; [done || lia || (destruct Hrec; lia)..|].
  eexists. split; [done|]. set (r := take (Z.to_nat n) from).
  assert (Z.of_nat (length r) = n) as Hrl by (subst r; rewrite length_take; lia).
  pose proof (rec_header_length recsize n Hrec) as Hhl.
  destruct (append_contents f b b2 (rec_header recsize n ++ r)) as [Hok' Hc'];
    [done|done|rewrite length_app; lia| |].
  - apply (ring_written_app b b1 b2); [lia|lia|]. right. rewrite Hhl, Hrl. done.
  - rewrite length_app, Nat2Z.inj_add, Hhl, Hrl in Hok', Hc'.
    unfold __kfifo_add_in. simpl. rewrite (u32_small (n + recsize))
      by (destruct Hrec; unfold is_u32; lia). rewrite (Z.add_comm n recsize). done.
Qed.

(** A record no longer than its header can say is appended; of a longer one the header says the length
    modulo the limit, and the rest of it are stray bytes. *)
Lemma in_rec_spec f rs from n recsize :
  holds_recs f recsize rs -> rec_size recsize -> Forall is_byte from ->
  0 <= n <= Z.of_nat (length from) -> n < 4294967294 ->
  if size f - kfifo_len f <? n + recsize then
    __kfifo_in_rec f from n recsize = Some (f, n + 1)
  else exists f', __kfifo_in_rec f from n recsize = Some (f', 0) /\ kfifo_ok f' /\
    (n < rec_limit recsize -> holds_recs f' recsize (rs ++ [take (Z.to_nat n) from])) /\
    (rec_limit recsize <= n -> let k := Z.to_nat (n mod rec_limit recsize) in
       contents f' = contents f ++ enc_rec recsize (take k from) ++ drop k (take (Z.to_nat n) from)).
Proof.
  intros (Hok & Hrs & Hc) Hrec Hf Hn Hmax. pose proof (in_rec_bytes f from n recsize Hok Hrec Hf Hn Hmax) as H.
  destruct (_ <? _); [done|]. destruct H as (f' & ? & Hok' & Hc'). exists f'. split; [done|]. split; [done|].
  assert (Z.of_nat (length (take (Z.to_nat n) from)) = n) as Hl by (rewrite length_take; lia). split.
  - intros Hlt. split; [done|]. split.
    + apply Forall_app_2; [done|]. apply Forall_cons_2; [|done]. split; [by apply Forall_take|]. by rewrite Hl.
    + rewrite Hc', Hc, fmap_app, concat_app. simpl. unfold enc_rec at 3. by rewrite Hl, app_nil_r.
  - intros Hge k. assert (0 < rec_limit recsize) by (unfold rec_limit; destruct (recsize =? 1); lia).
    pose proof (Z.mod_pos_bound n (rec_limit recsize) ltac:(lia)).
    rewrite Hc', (header_mod recsize n) by (done || lia). unfold enc_rec.
    assert (Z.of_nat (length (take k from)) = n mod rec_limit recsize) as -> by (rewrite length_take; lia).
    rewrite <- app_assoc. do 2 f_equal. rewrite <- (take_drop k (take (Z.to_nat n) from)) at 1. f_equal.
    rewrite take_take. f_equal. lia.
Qed.

Lemma concat_drop_first f recsize r rs :
  holds_recs f recsize (r :: rs) -> rec_size recsize ->
  let n := Z.of_nat (length r) + recsize in
  0 <= n <= kfifo_len f /\ n < 65540 /\
  holds_recs (__kfifo_add_out f n) recsize rs.
Proof.
  intros (Hok & Hrs & Hc) Hrec n. pose proof (contents_length f Hok) as Hlen. simpl in Hc.
  apply Forall_cons_1 in Hrs as [[_ Hr] Hrs].
  pose proof (rec_header_length recsize (Z.of_nat (length r)) Hrec) as Hhl.
  assert (Z.of_nat (length (enc_rec recsize r)) = n) as Hn
    by (unfold enc_rec; rewrite length_app; lia).
  assert (0 <= n <= kfifo_len f) by (rewrite Hc, length_app in Hlen; lia).
  split; [done|]. split; [destruct Hrec; subst; simpl in *; lia|].
  destruct (consume_contents f n) as [Hok' Hc']; [done|lia|]. split; [done|]. split; [done|].
  rewrite Hc', Hc. apply drop_app_length'. lia.
Qed.

Lemma out_rec_spec f r rs to n recsize :
  holds_recs f recsize (r :: rs) -> rec_size recsize -> 0 <= n <= Z.of_nat (length to) ->
  let l := Z.of_nat (length r) in
  if n <? l then __kfifo_out_rec f to n recsize = Some (f, to, l, l)
  else exists f', __kfifo_out_rec f to n recsize = Some (f', r ++ drop (length r) to, l, 0) /\
    size f' = size f /\ holds_recs f' recsize rs.
Proof.
  intros Hh Hrec Hn l. destruct (concat_drop_first f recsize r rs Hh Hrec) as (Hfit & Hmax & Hnext).
  fold l in Hfit, Hmax, Hnext. pose proof Hh as (Hok & Hrs & Hc). simpl in Hc.
  apply Forall_cons_1 in Hrs as [Hr Hrs]. unfold __kfifo_out_rec.
  assert ((recsize =? 0) = false) as -> by (destruct Hrec; lia). simpl.
  rewrite (peek_spec f recsize r _ Hok Hrec Hr Hc). simpl. fold l. destruct (n <? l) eqn:E; [done|].
  zbool. unfold __kfifo_out_n. rewrite u32_small by (unfold is_u32; lia).
  rewrite (proj2 (Z.ltb_ge _ _)) by lia. pose proof (kfifo_len_bounds f Hok).
  pose proof Hok as (b & Hb & Hring & Hbl & _).
  assert (0 <= l <= size f) by (destruct Hrec; lia).
  rewrite (out_data_spec f b) by (done || lia). simpl. exists (__kfifo_add_out f (l + recsize)). split; [|done].
  replace (Z.to_nat l) with (length r) by lia. do 4 f_equal.
  assert (window b (size f) (out f) (recsize + l) = enc_rec recsize r) as Hw.
  { rewrite contents_prefix by (done || lia). rewrite Hc. apply take_app_length'.
    unfold enc_rec. rewrite length_app. fold l. pose proof (rec_header_length recsize l Hrec). lia. }
  rewrite window_app in Hw by (destruct Hrec; lia). unfold enc_rec in Hw.
  pose proof (window_length b (size f) (out f) recsize) as Hwl.
  pose proof (rec_header_length recsize l Hrec).
  apply app_inj_1 in Hw as [_ Hw]; [by rewrite Hw|]. fold l. destruct Hrec; lia.
Qed.

Lemma skip_rec_spec f r rs recsize :
  holds_recs f recsize (r :: rs) -> rec_size recsize ->
  exists f', __kfifo_skip_rec f recsize = Some f' /\ size f' = size f /\ holds_recs f' recsize rs.
Proof.
  intros Hh Hrec. destruct (concat_drop_first f recsize r rs Hh Hrec) as (Hfit & Hmax & Hnext).
  pose proof Hh as (Hok & Hrs & Hc). simpl in Hc. apply Forall_cons_1 in Hrs as [Hr Hrs].
  unfold __kfifo_skip_rec. assert ((recsize =? 0) = false) as -> by (destruct Hrec; lia). simpl.
  rewrite (peek_spec f recsize r _ Hok Hrec Hr Hc). simpl.
  rewrite u32_small by (unfold is_u32; lia). rewrite (proj2 (Z.leb_le _ _)) by lia. eauto.
Qed.

(** C29: with one- or two-byte record headers the fifo is a queue of records: in_rec appends a
    record that fits whole (header included) and is shorter than 256 or 65536 bytes, and refuses one that
    does not fit with [n + 1] and no effect; a longer record that fits is taken too, but its header keeps
    the length modulo that limit, so that it lies in the fifo as a record of that many bytes with the rest
    as stray bytes behind it. Peek gives the first record's length, out_rec delivers exactly that record or, when
    the caller's buffer is short, its length with no effect; skip_rec drops it. *)
Theorem kfifo_records_queue f rs recsize :
  holds_recs f recsize rs -> rec_size recsize ->
  (forall from n, Forall is_byte from -> 0 <= n <= Z.of_nat (length from) ->
     n < 4294967294 ->
     let limit := if recsize =? 1 then 256 else 65536 in
     if size f - kfifo_len f <? n + recsize then
       __kfifo_in_rec f from n recsize = Some (f, n + 1)
     else exists f', __kfifo_in_rec f from n recsize = Some (f', 0) /\ kfifo_ok f' /\
       (n < limit -> holds_recs f' recsize (rs ++ [take (Z.to_nat n) from])) /\
       (limit <= n -> let k := Z.to_nat (n mod limit) in
          contents f' = contents f ++ enc_rec recsize (take k from) ++ drop k (take (Z.to_nat n) from))) /\
  (forall r rest, rs = r :: rest ->
     let l := Z.of_nat (length r) in
     __kfifo_peek_n f recsize = Some l /\
     (exists f', __kfifo_skip_rec f recsize = Some f' /\ holds_recs f' recsize rest) /\
     forall to n, 0 <= n <= Z.of_nat (length to) ->
       if n <? l then __kfifo_out_rec f to n recsize = Some (f, to, l, l)
       else exists f', __kfifo_out_rec f to n recsize = Some (f', r ++ drop (length r) to, l, 0) /\
         holds_recs f' recsize rest).
Proof.
  intros Hh Hrec. split.
  - intros from n Hf Hn Hmax. exact (in_rec_spec f rs from n recsize Hh Hrec Hf Hn Hmax).
  - intros r rest -> l. split_and!.
    + pose proof Hh as (Hok & [Hr _]%Forall_cons_1 & Hc).
      by apply (peek_spec f recsize r (concat (enc_rec recsize <$> rest))).
    + destruct (skip_rec_spec f r rest recsize Hh Hrec) as (f' & ? & _ & ?). eauto.
    + intros to n Hn. pose proof (out_rec_spec f r rest to n recsize Hh Hrec Hn) as H.
      cbv zeta in H. fold l in H. destruct (n <? l); [done|]. destruct H as (f' & ? & _ & ?). eauto.
Qed.

Lemma kfifo_records_queue_witness :
  exists f f', __kfifo_in_rec (Kfifo (Some [0; 0; 0; 0; 0; 0; 0; 0]) 8 6 6) [7; 8; 9] 3 2
      = Some (f, 0) /\ __kfifo_out_rec f [0; 0; 0; 5] 4 2 = Some (f', [7; 8; 9; 5], 3, 0).
Proof.
  destruct (kfifo_records_queue (Kfifo (Some [0; 0; 0; 0; 0; 0; 0; 0]) 8 6 6) [] 2) as [Hin _].
  - split; [|split; [apply Forall_nil_2|reflexivity]]. exists [0; 0; 0; 0; 0; 0; 0; 0].
    split_and!; [done|by exists 3|done|solve_words|solve_words|solve_words|vm_compute; congruence].
  - right. reflexivity.
  - destruct (Hin [7; 8; 9] 3) as (f & Hf & _ & Hrecs & _); [solve_words|simpl; lia|lia|].
    destruct (kfifo_records_queue f [[7; 8; 9]] 2 (Hrecs eq_refl) (or_intror eq_refl)) as [_ Hout].
    destruct (Hout [7; 8; 9] [] eq_refl) as (_ & _ & Ho).
    destruct (Ho [0; 0; 0; 5] 4) as (f' & Hf' & _); [simpl; lia|].
    exists f, f'. split; [exact Hf|exact Hf'].
Defined.
