(* ===== verification/KfifoUser.v ===== *)
(** The user-space copies of kernel/kfifo.c (kfifo_from_user, kfifo_to_user and the record
    variants), modelled in [Kfifo] over an oracle for page faults, and the places where the code
    of the fifo does not do what its comments say. *)

From S2P Require Import Prelude Word Kfifo KfifoRec.
From Stdlib Require Import Lia.

Lemma memcpy_none {A} (dst : list A) d src s :
  0 <= d <= Z.of_nat (length dst) -> 0 <= s <= Z.of_nat (length src) ->
  memcpy dst d src s 0 = Some dst.
Proof.
  intros Hd Hs. unfold memcpy. rewrite bool_decide_eq_true_2 by lia. simpl.
  rewrite Z.add_0_r. by rewrite take_drop.
Qed.

(** A position past a write of [n] bytes at [p] is in neither part of the split write. *)
Lemma split_outside p sz n k :
  0 <= n <= k -> k < sz ->
  let l := Z.min n (sz - p mod sz) in
  ~ (p mod sz <= (p + k) mod sz < p mod sz + l) /\ ~ (0 <= (p + k) mod sz < 0 + (n - l)).
Proof.
  intros Hn Hk. rewrite mod_split by lia. pose proof (Z.mod_pos_bound p sz ltac:(lia)) as Hm.
  cbv zeta. generalize dependent (p mod sz). intros m Hm. case_bool_decide; lia.
Qed.

Section UserCopies.

Context (uleft : Z -> Z -> Z).

(** copy_from_user and copy_to_user return how many bytes they could not copy. *)
Hypothesis uleft_range : forall at_ n, 0 <= n -> 0 <= uleft at_ n <= n.

Lemma copy_from_user_spec dst d from s n :
  0 <= n -> 0 <= d -> d + n <= Z.of_nat (length dst) -> 0 <= s ->
  s + n <= Z.of_nat (length from) -> Forall is_byte dst -> Forall is_byte from ->
  exists dst', copy_from_user uleft dst d from s n = Some (dst', uleft s n) /\
    length dst' = length dst /\ Forall is_byte dst' /\
    (forall j, ~ (d <= j < d + n) -> rd dst' j = rd dst j) /\
    (uleft s n = 0 -> memcpy dst d from s n = Some dst').
Proof.
  intros Hn Hd Hdn Hs Hsn Hb Hf. pose proof (uleft_range s n Hn). unfold copy_from_user.
  destruct (memcpy_Some dst d from s (n - uleft s n)) as (d1 & Hm & Hl1 & Hb1 & Hrd1); [lia..|].
  rewrite Hm. simpl.
  destruct (memcpy_Some d1 (d + (n - uleft s n)) (replicate (Z.to_nat (uleft s n)) 0) 0 (uleft s n))
    as (d2 & Hm2 & Hl2 & Hb2 & Hrd2); [rewrite ?length_replicate; lia..|].
  rewrite Hm2. simpl. exists d2. split; [done|]. split; [congruence|]. split_and!.
  - apply Hb2; [by apply Hb1|]. apply Forall_replicate. unfold is_byte. lia.
  - intros j Hj. rewrite Hrd2, Hrd1. rewrite !bool_decide_eq_false_2 by lia. done.
  - intros H0. rewrite H0 in Hm, Hm2. rewrite Z.sub_0_r in Hm. rewrite Hm.
    rewrite memcpy_none in Hm2 by (simpl; lia). done.
Qed.

(** The queued bytes lie outside the free part of the ring. *)
Lemma contents_frame f b b' :
  kfifo_ok f -> buffer f = Some b -> length b' = length b -> Forall is_byte b' ->
  (forall k, size f - kfifo_len f <= k < size f ->
     cell b' (size f) (in_ f + k) = cell b (size f) (in_ f + k)) ->
  let f' := Kfifo (Some b') (size f) (in_ f) (out f) in
  kfifo_ok f' /\ contents f' = contents f.
Proof.
  intros Hok Hb Hlen Hb' Hfr f'. pose proof (kfifo_len_bounds f Hok).
  pose proof Hok as (b0 & Hb0 & Hr & Hl & Hbytes & Hin & Hout & Hle). rewrite Hb in Hb0. simplify_eq.
  pose proof (ring_size_bounds _ Hr).
  split. { exists b'. split_and!; auto. simpl. lia. }
  unfold contents. change (kfifo_len f') with (kfifo_len f). simpl. rewrite Hb. simpl.
  apply window_ext. intros k Hk. pose proof (in_position f Hin) as Hpos.
  rewrite <- (cell_cong b' (size f) (out f + k + size f) (out f + k) 1) by lia.
  rewrite <- (cell_cong b0 (size f) (out f + k + size f) (out f + k) 1) by lia.
  replace (out f + k + size f) with (out f + kfifo_len f + (size f - kfifo_len f + k)) by lia.
  rewrite <- (cell_u32 b' _ (out f + _)), <- (cell_u32 b0 _ (out f + _)), <- Hpos by done.
  apply Hfr. lia.
Qed.

(** What __kfifo_from_user_data does to the ring and reports, fault or not. *)
Lemma from_user_data_spec f b from n off :
  kfifo_ok f -> buffer f = Some b -> Forall is_byte from -> 0 <= off ->
  0 <= n <= Z.of_nat (length from) -> n + off <= size f - kfifo_len f ->
  let l := Z.min n (size f - (in_ f + off) mod size f) in
  exists b' f', f' = Kfifo (Some b') (size f) (in_ f) (out f) /\
    kfifo_ok f' /\ contents f' = contents f /\
    if negb (uleft 0 l =? 0) then
      __kfifo_from_user_data uleft f from n off = Some (f', uleft 0 l, - EFAULT)
    else if negb (uleft l (n - l) =? 0) then
      __kfifo_from_user_data uleft f from n off = Some (f', l + uleft l (n - l), - EFAULT)
    else __kfifo_from_user_data uleft f from n off = Some (f', n, 0) /\
      ring_written b b' (size f) (in_ f + off) n from.
Proof.
  intros Hok Hb Hf Hoff Hn Hfit l. pose proof (kfifo_len_bounds f Hok).
  pose proof Hok as (b0 & Hb0 & Hr & Hl & Hbytes & _). rewrite Hb in Hb0. simplify_eq.
  pose proof (ring_size_bounds _ Hr) as Hsz.
  pose proof (Z.mod_pos_bound (in_ f + off) (size f) ltac:(lia)) as Hmod.
  assert (0 <= l <= n) as Hlb by lia.
  unfold __kfifo_from_user_data. rewrite ring_off, Hb by done. simpl.
  rewrite (u32_small (size f - _)) by (unfold is_u32; lia). fold l.
  rewrite (u32_small (n - l)) by (unfold is_u32; lia).
  assert (forall b', length b' = length b0 -> Forall is_byte b' ->
    (forall k, n <= k < size f ->
       cell b' (size f) (in_ f + off + k) = cell b0 (size f) (in_ f + off + k)) ->
    let f' := Kfifo (Some b') (size f) (in_ f) (out f) in
    kfifo_ok f' /\ contents f' = contents f) as Hframe.
  { intros b' Hlen Hb' Hcells. apply (contents_frame f b0); auto. intros k Hk.
    replace (in_ f + k) with (in_ f + off + (k - off)) by lia. apply Hcells. lia. }
  pose proof (uleft_range 0 l ltac:(lia)). pose proof (uleft_range l (n - l) ltac:(lia)).
  destruct (copy_from_user_spec b0 ((in_ f + off) mod size f) from 0 l)
    as (b1 & -> & Hl1 & Hb1 & Hout1 & Hc1); [done || lia..|]. simpl.
  assert (forall b', length b' = length b0 -> forall k, n <= k < size f ->
    rd b' ((in_ f + off + k) mod size f) = rd b0 ((in_ f + off + k) mod size f) ->
    cell b' (size f) (in_ f + off + k) = cell b0 (size f) (in_ f + off + k)) as Hcell.
  { intros b' Hlen k Hk Hrd. rewrite <- !cell_rd in Hrd by lia. congruence. }
  destruct (uleft 0 l =? 0) eqn:E1; simpl.
  2:{ exists b1. eexists. split; [done|]. unfold set_bytes. rewrite Hb.
      destruct (Hframe b1) as [? ?]; [done|done| |done]. intros k Hk. apply Hcell; [done|done|].
      apply Hout1, (split_outside (in_ f + off) (size f) n k); lia. }
  destruct (copy_from_user_spec b1 0 from l (n - l))
    as (b2 & -> & Hl2 & Hb2 & Hout2 & Hc2); [done || lia..|]. simpl.
  destruct (Hframe b2) as [Hok' Hcon]; [congruence|done| |].
  { intros k Hk. apply Hcell; [congruence|done|].
    rewrite Hout2, Hout1; [done|..];
      apply (split_outside (in_ f + off) (size f) n k); lia. }
  exists b2. eexists. split; [done|]. split; [done|]. split; [done|].
  unfold set_bytes. rewrite Hb. destruct (uleft l (n - l) =? 0) eqn:E2; simpl; zbool.
  - rewrite u32_small by (unfold is_u32; lia). split; [do 3 f_equal; lia|].
    destruct (ring_write b0 (size f) (in_ f + off) n from) as (b1' & b2' & Hm1 & Hm2 & Hw);
      [done || lia..|]. fold l in Hm1, Hm2. rewrite Hc1 in Hm1 by done. simplify_eq.
    rewrite Hc2 in Hm2 by done. by simplify_eq.
  - rewrite u32_small by (unfold is_u32; lia). done.
Qed.

(** How many of [n] bytes from the ring position [p] of a ring of [sz] bytes reach user space in two copies:
    the first goes up to the end of the ring. *)
Definition first_part (sz p n : Z) : Z := Z.min n (sz - p mod sz).

Definition brought (sz p n : Z) : Z :=
  let l := first_part sz p n in
  if uleft 0 l =? 0 then n - uleft l (n - l) else l - uleft 0 l.

(** A partial read of the window, as the two copies to user space leave it. *)
Lemma to_user_data_spec f b to n off :
  buffer f = Some b -> ring_size (size f) -> Z.of_nat (length b) = size f ->
  0 <= n <= size f -> n <= Z.of_nat (length to) ->
  let m := brought (size f) (out f + off) n in
  0 <= m <= n /\
  __kfifo_to_user_data uleft f to n off =
    Some (window b (size f) (out f + off) m ++ drop (Z.to_nat m) to, m, if m =? n then 0 else - EFAULT).
Proof.
  intros Hb Hr Hlen Hn Ht mm. pose proof (ring_size_bounds _ Hr).
  pose proof (Z.mod_pos_bound (out f + off) (size f) ltac:(lia)) as Hmod. unfold brought, first_part in mm.
  unfold __kfifo_to_user_data. rewrite ring_off, Hb by done. simpl.
  rewrite (u32_small (size f - _)) by (unfold is_u32; lia).
  pose proof (ring_read b (size f) (out f + off)) as Hread.
  subst mm. generalize dependent ((out f + off) mod size f). intros m0 Hm0 Hread. cbv zeta.
  set (l := Z.min n (size f - m0)). assert (0 <= l <= n) by lia.
  pose proof (uleft_range 0 l ltac:(lia)) as Hu1.
  unfold copy_to_user. rewrite (u32_small (n - l)) by (unfold is_u32; lia).
  destruct (decide (uleft 0 l = 0)) as [E1|E1].
  - rewrite (proj2 (Z.eqb_eq _ _) E1), E1, Z.sub_0_r. pose proof (uleft_range l (n - l) ltac:(lia)) as Hu2.
    set (m := l + (n - l - uleft l (n - l))). replace (n - uleft l (n - l)) with m by lia.
    destruct (Hread m to) as (t1 & Hm1 & Hm2); [lia..|].
    assert (l = n \/ l = size f - m0) as [Hl|Hl] by lia.
    + assert (uleft l (n - l) = 0) as E2 by lia. assert (m = n) as Hmn by lia.
      rewrite Hmn in Hm1, Hm2. fold l in Hm1, Hm2. rewrite Hm1. simpl.
      rewrite E2, Z.sub_0_r, Hm2. simpl. rewrite u32_small by (unfold is_u32; lia).
      replace (l + (n - l)) with n by lia. rewrite Hmn, Z.eqb_refl. split; [lia|done].
    + replace (Z.min m (size f - m0)) with l in Hm1, Hm2 by lia. rewrite Hm1. simpl.
      replace (m - l) with (n - l - uleft l (n - l)) in Hm2 by lia. rewrite Hm2. simpl.
      destruct (uleft l (n - l) =? 0) eqn:E2; simpl; zbool.
      * rewrite u32_small by (unfold is_u32; lia). assert (m = n) as Hmn by lia. rewrite Hmn.
        replace (l + (n - l)) with n by lia. rewrite Z.eqb_refl. split; [lia|done].
      * rewrite !u32_small by (unfold is_u32; lia || (rewrite !u32_small by (unfold is_u32; lia); unfold is_u32; lia)).
        fold m. rewrite (proj2 (Z.eqb_neq m n)) by lia. split; [lia|done].
  - rewrite (proj2 (Z.eqb_neq _ _) E1). set (m := l - uleft 0 l). destruct (Hread m to) as (t1 & Hm1 & Hm2); [lia..|].
    replace (Z.min m (size f - m0)) with m in Hm1, Hm2 by lia. rewrite Z.sub_diag in Hm2.
    pose proof (memcpy_Some to 0 b m0 m) as (t2 & Hm1' & Hl2 & _); [lia..|].
    rewrite Hm1' in Hm1. simplify_eq. rewrite Hm1'. simpl.
    rewrite memcpy_none in Hm2 by lia. simplify_eq.
    rewrite (proj2 (Z.eqb_neq _ 0) E1). simpl. rewrite u32_small by (unfold is_u32; lia).
    fold m. rewrite (proj2 (Z.eqb_neq m n)) by lia. split; [lia|done].
Qed.

Lemma kfifo_to_user_spec f to len :
  kfifo_ok f -> 0 <= len <= Z.of_nat (length to) ->
  let n := Z.min (kfifo_len f) len in
  let m := brought (size f) (out f) n in
  0 <= m <= n /\
  exists f', kfifo_to_user uleft f to len =
      Some (f', take (Z.to_nat m) (contents f) ++ drop (Z.to_nat m) to, m, if m =? n then 0 else - EFAULT) /\
    kfifo_ok f' /\ contents f' = drop (Z.to_nat m) (contents f).
Proof.
  intros Hok Hlen n m. pose proof (kfifo_len_bounds f Hok).
  pose proof Hok as (b & Hb & Hr & Hl & _). unfold kfifo_to_user. fold n.
  destruct (to_user_data_spec f b to n 0) as (Hm & ->); [done || lia..|]. rewrite Z.add_0_r in *. fold m in Hm |- *.
  simpl. rewrite contents_prefix by (done || lia). split; [done|].
  destruct (consume_contents f m) as [? ?]; [done|lia|]. by eexists.
Qed.

Lemma kfifo_from_user_spec f from len :
  kfifo_ok f -> Forall is_byte from -> 0 <= len <= Z.of_nat (length from) ->
  let n := Z.min (size f - kfifo_len f) len in
  let l := first_part (size f) (in_ f) n in
  exists f', kfifo_ok f' /\
    if (uleft 0 l =? 0) && (uleft l (n - l) =? 0) then
      kfifo_from_user uleft f from len = Some (f', n, 0) /\ contents f' = contents f ++ take (Z.to_nat n) from
    else
      kfifo_from_user uleft f from len =
        Some (f', if uleft 0 l =? 0 then l + uleft l (n - l) else uleft 0 l, - EFAULT) /\
      contents f' = contents f.
Proof.
  intros Hok Hf Hlen n l. pose proof (kfifo_len_bounds f Hok).
  pose proof Hok as (b & Hb & Hr & Hl & _). unfold kfifo_from_user.
  rewrite kfifo_avail_eq by done. fold n.
  destruct (from_user_data_spec f b from n 0) as (b' & f' & Hf' & Hok' & Hc & Hcase);
    [done || lia..|]. rewrite Z.add_0_r in Hcase. fold (first_part (size f) (in_ f) n) in Hcase. fold l in Hcase.
  destruct (uleft 0 l =? 0); simpl negb in Hcase; cbv iota in Hcase; simpl andb; cbv iota;
    [|rewrite Hcase; simpl; eexists; eauto].
  destruct (uleft l (n - l) =? 0); simpl negb in Hcase; cbv iota in Hcase; [|rewrite Hcase; simpl; eexists; eauto].
  destruct Hcase as [-> Hw]. subst f'. simpl. unfold __kfifo_add_in. simpl.
  assert (Z.of_nat (length (take (Z.to_nat n) from)) = n) as Hn by (rewrite length_take; lia).
  destruct (append_contents f b b' (take (Z.to_nat n) from)) as [Hok1 Hc1]; [done|done|lia| |].
  - rewrite Hn. destruct Hw as (? & ? & Hnew & ?). split_and!; auto.
    intros k Hk. rewrite Hnew by done. unfold rd. rewrite bool_decide_eq_true_2 by lia.
    symmetry. apply lookup_take_lt. lia.
  - rewrite Hn in *. eauto.
Qed.

End UserCopies.


(** A user buffer whose byte 2 is on an unmapped page. *)
Definition fault_at_2 (at_ n : Z) : Z := Z.max 0 (Z.min n (at_ + n - 2)).


(** * Where the code and its comments differ *)

Lemma peek_overruns f to len offset :
  kfifo_ok f -> 0 <= len -> 0 < offset -> len + offset <= kfifo_len f ->
  Z.of_nat (length to) = len ->
  kfifo_out_peek f to len offset = None /\
  kfifo_peek_rec false f 0 = Some (size f - kfifo_len f) /\
  kfifo_peek_rec true f 0 = Some (kfifo_len f).
Proof.
  intros Hok Hlen Hoff Hfit Hto. pose proof (kfifo_len_bounds f Hok).
  pose proof Hok as (b & Hb & Hr & Hl & _). pose proof (ring_size_bounds _ Hr).
  split; [|split; [|done]].
  2:{ unfold kfifo_peek_rec, __kfifo_peek_generic. simpl. by rewrite kfifo_avail_eq by done. }
  unfold kfifo_out_peek. rewrite (u32_small (len + offset)) by (unfold is_u32; lia).
  rewrite Z.min_r by lia. unfold __kfifo_out_data. rewrite ring_off, Hb by done. simpl.
  pose proof (Z.mod_pos_bound (out f + offset) (size f) ltac:(lia)) as Hm.
  generalize dependent ((out f + offset) mod size f). intros m Hm.
  rewrite (u32_small (size f - _)) by (unfold is_u32; lia). set (l := Z.min _ _).
  rewrite (u32_small (_ - l)) by (unfold is_u32; lia).
  destruct (memcpy to 0 b m l) as [t1|] eqn:E1; [|done]. simpl.
  assert (length t1 = length to) as Hlt.
  { unfold memcpy in E1. case_bool_decide; [|done]. simplify_eq.
    rewrite !length_app, !length_take, !length_drop. lia. }
  unfold memcpy. rewrite bool_decide_eq_false_2; [done|]. lia.
Qed.

Lemma from_user_rec_drops f from n recsize :
  kfifo_ok f -> rec_size recsize -> Forall is_byte from -> 0 < n <= Z.of_nat (length from) ->
  n + recsize <= size f - kfifo_len f ->
  exists f', __kfifo_from_user_rec (fun _ _ => 0) f from n recsize = Some (f', n) /\
    contents f' = contents f.
Proof.
  intros Hok Hrec Hf Hn Hfit. pose proof (kfifo_len_bounds f Hok).
  pose proof Hok as (b & Hb & Hr & Hl & _). pose proof (ring_size_bounds _ Hr).
  unfold __kfifo_from_user_rec, __kfifo_from_user_n. rewrite kfifo_avail_eq by done.
  rewrite (u32_small (n + recsize)) by (destruct Hrec; unfold is_u32; lia).
  rewrite (proj2 (Z.ltb_ge _ _)) by lia.
  destruct (from_user_data_spec (fun _ _ => 0) ltac:(intros; lia) f b from n recsize)
    as (b' & f' & Hf' & Hok' & Hc & Hcase); [done || (destruct Hrec; lia)..|].
  simpl in Hcase. destruct Hcase as [-> _]. simpl.
  rewrite (proj2 (Z.eqb_neq _ _)) by lia. eauto.
Qed.


(** C38: whatever page faults occur ([uleft at n] is how many of the [n] bytes from [at] of the user buffer
    copy_from_user or copy_to_user leaves uncopied), kfifo_to_user delivers exactly the queued bytes
    that its two copies, up to the end of the ring and from its start, bring to user space, stores their
    number, removes exactly them, and returns 0 when they are all that was asked for and -EFAULT
    otherwise; kfifo_from_user queues all the bytes that fit, stores their number and returns 0
    exactly when neither of its copies leaves a byte uncopied, and otherwise returns -EFAULT with the queue
    as it was (the number it stores then is that of the bytes not copied, after a whole first part added
    to that part). In three places the fifo does not do what its
    comments say: kfifo_out_peek does not honour the length of its destination: asked for [len] bytes at a
    positive [offset] that are all in the fifo, it copies [len + offset] of them, past the end of a
    destination of [len] bytes; the out-of-line peek of a fifo without records answers the free
    space where the inline one answers the fill level; and __kfifo_from_user_rec never queues a
    record of positive length that fits: without a fault it returns the record's length (its
    documented error indication) and leaves the queue as it was. *)
Theorem kfifo_user_correct :
  (forall uleft f to from,
    (forall at_ n, 0 <= n -> 0 <= uleft at_ n <= n) ->
      kfifo_ok f -> Forall is_byte from ->
      (let n := Z.min (kfifo_len f) (Z.of_nat (length to)) in
       let l := Z.min n (size f - out f mod size f) in
       let m := if uleft 0 l =? 0 then n - uleft l (n - l) else l - uleft 0 l in
       0 <= m <= n /\
       exists f', kfifo_to_user uleft f to (Z.of_nat (length to)) =
          Some (f', take (Z.to_nat m) (contents f) ++ drop (Z.to_nat m) to, m, if m =? n then 0 else - EFAULT) /\
        kfifo_ok f' /\ contents f' = drop (Z.to_nat m) (contents f)) /\
      (let n := Z.min (size f - kfifo_len f) (Z.of_nat (length from)) in
       let l := Z.min n (size f - in_ f mod size f) in
       exists f', kfifo_ok f' /\
         if (uleft 0 l =? 0) && (uleft l (n - l) =? 0) then
           kfifo_from_user uleft f from (Z.of_nat (length from)) = Some (f', n, 0) /\
           contents f' = contents f ++ take (Z.to_nat n) from
         else
           kfifo_from_user uleft f from (Z.of_nat (length from)) =
             Some (f', if uleft 0 l =? 0 then l + uleft l (n - l) else uleft 0 l, - EFAULT) /\
           contents f' = contents f)) /\
  (forall f,
    kfifo_ok f ->
      (forall to len offset, 0 <= len -> 0 < offset -> len + offset <= kfifo_len f -> Z.of_nat (length to) = len ->
       kfifo_out_peek f to len offset = None /\
       kfifo_peek_rec false f 0 = Some (size f - kfifo_len f) /\
       kfifo_peek_rec true f 0 = Some (kfifo_len f)) /\
      (forall from n recsize, rec_size recsize -> Forall is_byte from -> 0 < n <= Z.of_nat (length from) ->
       n + recsize <= size f - kfifo_len f ->
       exists f', __kfifo_from_user_rec (fun _ _ => 0) f from n recsize = Some (f', n) /\ contents f' = contents f)).
Proof.
  split.
  { intros uleft f to from.
    intros Hu Hok Hf. split.
    - apply (kfifo_to_user_spec uleft); [done|done|lia].
    - apply (kfifo_from_user_spec uleft); [done|done|done|lia]. }
  { intros f.
    intros Hok. split.
    - intros. by apply peek_overruns.
    - intros. by apply from_user_rec_drops. }
Qed.

Lemma kfifo_user_correct_witness :
  (exists f', kfifo_to_user fault_at_2 (Kfifo (Some [1; 2; 3; 4]) 4 5 2) [0; 0; 0] 3
      = Some (f', [3; 4; 0], 2, -14) /\ contents f' = [1]) /\
  (exists f', kfifo_from_user fault_at_2 (Kfifo (Some [1; 2; 3; 4]) 4 5 2) [7] 1 = Some (f', 1, 0) /\
      contents f' = [3; 4; 1; 7]) /\
  (kfifo_out_peek (Kfifo (Some [1; 2; 3; 4]) 4 2 0) [0] 1 1 = None /\
    exists f', __kfifo_from_user_rec (fun _ _ => 0) (Kfifo (Some [1; 2; 3; 4]) 4 2 0) [5] 1 1 = Some (f', 1) /\
      contents f' = [1; 2]).
Proof.
  assert (kfifo_ok (Kfifo (Some [1; 2; 3; 4]) 4 5 2)) as Hok.
  { exists [1; 2; 3; 4].
    split_and!; [done|by exists 2|done|solve_words|solve_words|solve_words|vm_compute; congruence]. }
  assert (kfifo_ok (Kfifo (Some [1; 2; 3; 4]) 4 2 0)) as Hok2.
  { exists [1; 2; 3; 4].
    split_and!; [done|by exists 2|done|solve_words|solve_words|solve_words|vm_compute; congruence]. }
  destruct (proj1 kfifo_user_correct fault_at_2 (Kfifo (Some [1; 2; 3; 4]) 4 5 2) [0; 0; 0] [7])
    as [(_ & f' & Hrun & _ & Hc) (f2 & _ & Hrun2)]; [intros; unfold fault_at_2; lia|done|solve_words|].
  split; [by exists f'|]. split; [by exists f2|].
  destruct (proj2 kfifo_user_correct (Kfifo (Some [1; 2; 3; 4]) 4 2 0) Hok2) as [H1 H2]. split.
  - destruct (H1 [0] 1 1) as [H _]; [lia|lia|vm_compute; congruence|reflexivity|exact H].
  - destruct (H2 [5] 1 1) as (f3 & Hf & Hc3);
      [left; reflexivity|solve_words|simpl; lia|vm_compute; congruence|]. by exists f3.
Defined.
