(* ===== verification/KfifoConc.v ===== *)
(** One writer and one reader on a fifo of kernel/kfifo.c without a lock: kfifo_in and kfifo_out
    split at their accesses to the shared indices (sampling the other side's index, copying,
    publishing the own index), the steps of the two sides interleaved in any order. *)

From stdpp Require Import relations.
From S2P Require Import Prelude Word Kfifo KfifoRec KfifoUser.
From Stdlib Require Import Lia.

Open Scope Z_scope.

(** * The step relation *)

(** Where the writer is inside kfifo_in(fifo, from, len), with the clipped length. *)
Inductive wpc : Type :=
| WIdle
| WSampled (from : list Z) (len : Z)
| WCopied (from : list Z) (len : Z).

(** Where the reader is inside kfifo_out(fifo, to, len). *)
Inductive rpc : Type :=
| RIdle
| RSampled (to : list Z) (len : Z)
| RCopied (to : list Z) (len : Z).

(** The shared fifo, the two program counters, and the bytes each side has been told are
    transferred. *)
Record conc : Type := Conc {
  shared : kfifo;
  writer : wpc;
  reader : rpc;
  sent : list Z;
  received : list Z;
}.

Inductive step : conc -> conc -> Prop :=
| step_w_sample f r s v from :
    Forall is_byte from ->
    step (Conc f WIdle r s v)
         (Conc f (WSampled from (Z.min (kfifo_avail f) (Z.of_nat (length from)))) r s v)
| step_w_copy f f' r s v from len :
    __kfifo_in_data f from len 0 = Some f' ->
    step (Conc f (WSampled from len) r s v) (Conc f' (WCopied from len) r s v)
| step_w_publish f r s v from len :
    step (Conc f (WCopied from len) r s v)
         (Conc (__kfifo_add_in f len) WIdle r (s ++ take (Z.to_nat len) from) v)
| step_r_sample f w s v to :
    step (Conc f w RIdle s v)
         (Conc f w (RSampled to (Z.min (kfifo_len f) (Z.of_nat (length to)))) s v)
| step_r_copy f w s v to to' len :
    __kfifo_out_data f to len 0 = Some to' ->
    step (Conc f w (RSampled to len) s v) (Conc f w (RCopied to' len) s v)
| step_r_publish f w s v to len :
    step (Conc f w (RCopied to len) s v)
         (Conc (__kfifo_add_out f len) w RIdle s (v ++ take (Z.to_nat len) to)).

(** * The invariant *)

Definition writer_ok (f : kfifo) (w : wpc) : Prop :=
  match w with
  | WIdle => True
  | WSampled from len =>
      Forall is_byte from /\ 0 <= len <= Z.of_nat (length from) /\ len <= size f - kfifo_len f
  | WCopied from len =>
      0 <= len <= Z.of_nat (length from) /\ len <= size f - kfifo_len f /\
      forall k, 0 <= k < len -> Some (cell (bytes_of (buffer f)) (size f) (in_ f + k)) = rd from k
  end.

Definition reader_ok (f : kfifo) (r : rpc) : Prop :=
  match r with
  | RIdle => True
  | RSampled to len => 0 <= len <= Z.of_nat (length to) /\ len <= kfifo_len f
  | RCopied to len =>
      0 <= len <= kfifo_len f /\ take (Z.to_nat len) to = take (Z.to_nat len) (contents f)
  end.

Definition conc_inv (c : conc) : Prop :=
  kfifo_ok (shared c) /\ writer_ok (shared c) (writer c) /\ reader_ok (shared c) (reader c) /\
  received c ++ contents (shared c) = sent c.

(** A write into the free part keeps what the reader relies on. *)
Lemma reader_frame f f' r :
  kfifo_len f' = kfifo_len f -> contents f' = contents f -> reader_ok f r -> reader_ok f' r.
Proof. intros Hl Hc. destruct r; simpl; rewrite ?Hl, ?Hc; auto. Qed.

Lemma reader_append f f' r data :
  kfifo_ok f -> kfifo_len f' = kfifo_len f + Z.of_nat (length data) ->
  contents f' = contents f ++ data -> reader_ok f r -> reader_ok f' r.
Proof.
  intros Hok Hl Hc. pose proof (contents_length f Hok).
  destruct r as [|to len|to len]; simpl; rewrite ?Hl, ?Hc; [done|lia|].
  intros [Hlen ->]. split; [lia|]. rewrite take_app_le by lia. done.
Qed.

Lemma writer_consume f n w :
  0 <= n <= kfifo_len f -> writer_ok f w -> writer_ok (__kfifo_add_out f n) w.
Proof.
  intros Hn. assert (kfifo_len (__kfifo_add_out f n) = kfifo_len f - n) as Hl
    by (exact (len_add_out f n Hn)).
  destruct w; cbn [writer_ok]; rewrite ?Hl; change (size (__kfifo_add_out f n)) with (size f);
    [done|intuition lia|]. intros (? & ? & Hcells). split_and!; [lia..|done].
Qed.

Lemma copy_in_inv f f' from len r s v :
  conc_inv (Conc f (WSampled from len) r s v) -> __kfifo_in_data f from len 0 = Some f' ->
  conc_inv (Conc f' (WCopied from len) r s v).
Proof.
  intros (Hok & (Hf & Hlen & Hfit) & Hr & Hlog) Hcopy. simpl in *.
  pose proof Hok as (b & Hb & Hring & Hl & Hbytes & _). pose proof (kfifo_len_bounds f Hok).
  destruct (in_data_spec f b from len 0) as (b' & Hin & Hl' & Hb' & Hnew & Hold); [done || lia..|].
  rewrite Hin in Hcopy. simplify_eq. rewrite Z.add_0_r in Hnew, Hold.
  destruct (contents_frame f b b') as [Hok' Hc']; [done..| |].
  { intros k Hk. apply Hold. lia. }
  split; [done|]. split; [done|]. simpl. rewrite Hc'. split; [|done].
  by apply (reader_frame f).
Qed.

Lemma publish_in_inv f from len r s v :
  conc_inv (Conc f (WCopied from len) r s v) ->
  conc_inv (Conc (__kfifo_add_in f len) WIdle r (s ++ take (Z.to_nat len) from) v).
Proof.
  intros (Hok & (Hlen & Hfit & Hcells) & Hr & Hlog). simpl in *.
  pose proof Hok as (b & Hb & Hring & Hl & Hbytes & Hin & Hout & _).
  rewrite Hb in Hcells. simpl in Hcells. pose proof (ring_size_bounds _ Hring).
  set (data := take (Z.to_nat len) from).
  assert (Z.of_nat (length data) = len) as Hd by (subst data; rewrite length_take; lia).
  destruct (append_contents f b b data) as [Hok' Hc']; [done|done|lia| |].
  { rewrite Hd. split_and!; auto. intros k Hk. rewrite Hcells by done. unfold rd, data.
    rewrite bool_decide_eq_true_2 by lia. symmetry. apply lookup_take_lt. lia. }
  rewrite <- Hb, Hd in Hok', Hc'. fold (__kfifo_add_in f len) in Hok', Hc'.
  split; [done|]. split; [done|]. simpl. rewrite Hc'. split.
  - apply (reader_append f _ r data); [done| |done|done]. rewrite Hd.
    apply (len_add_in f len); [done|lia|]. pose proof (kfifo_len_bounds f Hok). lia.
  - by rewrite app_assoc, Hlog.
Qed.

Lemma step_inv c c' : conc_inv c -> step c c' -> conc_inv c'.
Proof.
  intros Hinv Hstep. destruct Hstep as
    [f r s v from Hf|f f' r s v from len Hc|f r s v from len|f w s v to|f w s v to to' len Hc
    |f w s v to len].
  - destruct Hinv as (Hok & _ & Hr & Hlog). simpl in *. pose proof (kfifo_len_bounds f Hok).
    split; [done|]. simpl. rewrite kfifo_avail_eq by done. split_and!; auto; lia.
  - by apply copy_in_inv with f.
  - by apply publish_in_inv.
  - destruct Hinv as (Hok & Hw & _ & Hlog). simpl in *. pose proof (kfifo_len_bounds f Hok).
    split; [done|]. simpl. split_and!; auto; lia.
  - destruct Hinv as (Hok & Hw & [Hlen Hfit] & Hlog). simpl in *.
    pose proof (kfifo_len_bounds f Hok). pose proof Hok as (b & Hb & Hring & Hl & _).
    rewrite (out_data_spec f b) in Hc by (done || lia). simplify_eq.
    rewrite Z.add_0_r, contents_prefix by (done || lia). split; [done|]. simpl.
    split; [done|]. split; [|done]. split; [lia|]. pose proof (contents_length f Hok).
    rewrite take_app_le by (rewrite length_take; lia). rewrite take_take. f_equal. lia.
  - destruct Hinv as (Hok & Hw & [Hlen Hto] & Hlog). simpl in *.
    destruct (consume_contents f len) as [Hok' Hc']; [done|lia|]. split; [done|]. simpl.
    split; [by apply writer_consume|]. split; [done|].
    rewrite Hc', Hto, <- app_assoc, take_drop. done.
Qed.

(** In a reachable state neither side can get stuck: no copy leaves the buffers. *)
Lemma writer_progress c :
  conc_inv c -> exists c', step c c' /\ writer c' <> writer c /\ reader c' = reader c.
Proof.
  intros (Hok & Hw & _). destruct c as [f w r s v]. simpl in *.
  pose proof Hok as (b & Hb & Hring & Hl & Hbytes & _). pose proof (kfifo_len_bounds f Hok).
  destruct w as [|from len|from len].
  - eexists. split; [by apply step_w_sample with (from := [])|done].
  - destruct Hw as (Hf & Hlen & Hfit).
    destruct (in_data_spec f b from len 0) as (b' & Hin & _); [done || lia..|].
    eexists. split; [by eapply step_w_copy|done].
  - eexists. split; [apply step_w_publish|done].
Qed.

Lemma reader_progress c :
  conc_inv c -> exists c', step c c' /\ reader c' <> reader c /\ writer c' = writer c.
Proof.
  intros (Hok & _ & Hr & _). destruct c as [f w r s v]. simpl in *.
  pose proof Hok as (b & Hb & Hring & Hl & Hbytes & _). pose proof (kfifo_len_bounds f Hok).
  destruct r as [|to len|to len].
  - eexists. split; [by apply (step_r_sample f w s v [])|done].
  - destruct Hr as [Hlen Hfit]. eexists.
    split; [eapply step_r_copy, (out_data_spec f b); done || lia|done].
  - eexists. split; [apply step_r_publish|done].
Qed.

Lemma reachable_inv c0 c : conc_inv c0 -> rtc step c0 c -> conc_inv c.
Proof. intros H0 Hr. induction Hr; eauto using step_inv. Qed.

(** C9: one reader and one writer need no lock: however the steps of kfifo_in and kfifo_out
    interleave, what the reader has received followed by what is queued is exactly what the
    writer has sent (nothing lost, repeated or reordered), the fifo never holds more than its
    size, and neither side can get stuck or touch memory outside the buffers. *)
Theorem kfifo_one_reader_one_writer f c :
  kfifo_ok f -> contents f = [] -> rtc step (Conc f WIdle RIdle [] []) c ->
  received c ++ contents (shared c) = sent c /\ kfifo_ok (shared c) /\
  Z.of_nat (length (contents (shared c))) <= size (shared c) /\
  (exists c', step c c' /\ writer c' <> writer c /\ reader c' = reader c) /\
  (exists c', step c c' /\ reader c' <> reader c /\ writer c' = writer c).
Proof.
  intros Hok Hc Hr. assert (conc_inv c) as Hinv.
  { eapply reachable_inv, Hr. split; [done|]. simpl. by rewrite Hc. }
  pose proof Hinv as (Hok' & _ & _ & Hlog). split; [done|]. split; [done|].
  split; [rewrite contents_length by done; by apply kfifo_len_bounds|].
  split; [by apply writer_progress|by apply reader_progress].
Qed.

Lemma kfifo_one_reader_one_writer_witness :
  let f0 := Kfifo (Some [0; 0]) 2 4294967295 4294967295 in
  exists c, rtc step (Conc f0 WIdle RIdle [] []) c /\ sent c = [8] /\
    received c ++ contents (shared c) = [8].
Proof.
  intros f0.
  assert (rtc step (Conc f0 WIdle RIdle [] [])
    (Conc (Kfifo (Some [0; 8]) 2 0 4294967295) WIdle (RSampled [0] 0) [8] [])) as Hr.
  { eapply rtc_l; [apply step_w_sample with (from := [8]); solve_words|].
    eapply rtc_l; [apply (step_r_sample _ _ _ _ [0])|].
    eapply rtc_l; [eapply step_w_copy; reflexivity|].
    eapply rtc_l; [apply step_w_publish|]. apply rtc_refl. }
  edestruct (kfifo_one_reader_one_writer f0) as (Hlog & _);
    [|reflexivity|exact Hr|].
  - exists [0; 0].
    split_and!; [done|by exists 1|done|solve_words|solve_words|solve_words|vm_compute; congruence].
  - eexists. split; [exact Hr|]. split; [reflexivity|exact Hlog].
Defined.
