(* ===== verification/Order.v ===== *)
(** What sorting code asks of its callers' comparison functions, and heaps and swaps over arrays:
    shared by the models of lib/sort.c, lib/prio_heap.c and lib/list_sort.c. *)

From S2P Require Import Prelude.
From Stdlib Require Import Lia.

(** * Comparison functions *)

(** A C comparison function in the style of strcmp: its sign is a total preorder. *)
Class TotalCmp {A} (cmp : A -> A -> Z) : Prop := {
  cmp_total : forall x y, cmp x y < 0 -> 0 <= cmp y x;
  cmp_trans : forall x y z, 0 <= cmp x y -> 0 <= cmp y z -> 0 <= cmp x z;
}.

(** [x] is not smaller than [y]. *)
Definition cmp_ge {A} (cmp : A -> A -> Z) (x y : A) : Prop := 0 <= cmp x y.

Section Cmp.

Context {A : Type} (cmp : A -> A -> Z) `{!TotalCmp cmp}.

Lemma cmp_ge_refl x : cmp_ge cmp x x.
Proof.
  unfold cmp_ge. destruct (Z_lt_ge_dec (cmp x x) 0) as [H|H]; [|lia]. by apply cmp_total.
Qed.

Lemma cmp_ge_trans x y z : cmp_ge cmp x y -> cmp_ge cmp y z -> cmp_ge cmp x z.
Proof. apply cmp_trans. Qed.

Lemma cmp_lt_ge x y : cmp x y < 0 -> cmp_ge cmp y x.
Proof. apply cmp_total. Qed.

#[export] Instance cmp_ge_preorder : PreOrder (cmp_ge cmp).
Proof. split; [intros x; apply cmp_ge_refl|intros x y z; apply cmp_ge_trans]. Qed.

End Cmp.

(** Integer comparison, as most callers write it. *)
Definition cmp_Z (x y : Z) : Z := if x <? y then -1 else if y <? x then 1 else 0.

#[export] Instance cmp_Z_total : TotalCmp cmp_Z.
Proof.
  split; unfold cmp_Z; intros *;
    repeat match goal with |- context [?x <? ?y] => destruct (Z.ltb_spec x y) end; lia.
Qed.

(** * Arrays *)

Section Arrays.

Context `{Inhabited A}.

Implicit Types a : list A.

Definition at_ a (k : Z) : A := a !!! Z.to_nat k.

Definition swapped a (i j : Z) : list A :=
  <[Z.to_nat i := at_ a j]> (<[Z.to_nat j := at_ a i]> a).

Lemma at_insert a i k x :
  0 <= i < Z.of_nat (length a) -> 0 <= k ->
  at_ (<[Z.to_nat i := x]> a) k = if bool_decide (k = i) then x else at_ a k.
Proof.
  intros Hi Hk. unfold at_. case_bool_decide; subst.
  - apply list_lookup_total_insert_eq. lia.
  - apply list_lookup_total_insert_ne. lia.
Qed.

Lemma swapped_length a i j : length (swapped a i j) = length a.
Proof. unfold swapped. by rewrite !length_insert. Qed.

Lemma at_swapped a i j k :
  0 <= i < Z.of_nat (length a) -> 0 <= j < Z.of_nat (length a) -> 0 <= k ->
  at_ (swapped a i j) k =
    if bool_decide (k = i) then at_ a j else if bool_decide (k = j) then at_ a i else at_ a k.
Proof.
  intros Hi Hj Hk. unfold swapped. rewrite !at_insert by (rewrite ?length_insert; lia). done.
Qed.

Lemma insert_cons_perm a i x :
  (i < length a)%nat -> (a !!! i) :: <[i := x]> a ≡ₚ x :: a.
Proof.
  intros Hi. rewrite insert_take_drop by done. rewrite <- (take_drop_middle a i (a !!! i)) at 4
    by by apply list_lookup_lookup_total_lt.
  rewrite <- !Permutation_middle. apply perm_swap.
Qed.

Lemma swapped_perm a i j :
  0 <= i < Z.of_nat (length a) -> 0 <= j < Z.of_nat (length a) -> swapped a i j ≡ₚ a.
Proof.
  intros Hi Hj. destruct (decide (i = j)) as [->|Hne].
  { unfold swapped, at_. rewrite list_insert_insert, decide_True by done.
    rewrite list_insert_id; [done|]. apply list_lookup_lookup_total_lt. lia. }
  apply (Permutation_cons_inv (a := at_ a i)).
  pose proof (insert_cons_perm (<[Z.to_nat j:=at_ a i]> a) (Z.to_nat i) (at_ a j)) as H1.
  rewrite list_lookup_total_insert_ne in H1 by lia. rewrite length_insert in H1.
  specialize (H1 ltac:(lia)). unfold swapped.
  etrans; [apply H1|]. apply insert_cons_perm. lia.
Qed.

End Arrays.

(** * Heaps

    The array layout of sort() and prio_heap: the children of [k] are [2k+1] and [2k+2]. *)

Definition parent (j : Z) : Z := (j - 1) / 2.

Section Heap.

Context `{Inhabited A} (ge : A -> A -> Prop) `{!PreOrder ge}.

Implicit Types a : list A.

(** Every node below [m] whose parent is at least [k] is dominated by its parent. *)
Definition heap_from a (k m : Z) : Prop :=
  forall j, 0 < j < m -> k <= parent j -> ge (at_ a (parent j)) (at_ a j).

(** The same but for the children of [r], which the parent of [r] dominates instead. *)
Definition heap_but a (k m r : Z) : Prop :=
  (forall j, 0 < j < m -> k <= parent j -> parent j <> r -> ge (at_ a (parent j)) (at_ a j)) /\
  (0 < r -> k <= parent r -> forall j, 0 < j < m -> parent j = r ->
     ge (at_ a (parent r)) (at_ a j)).

Lemma heap_but_start a k m : 0 <= k -> heap_from a (k + 1) m -> heap_but a k m k.
Proof.
  intros Hk Hh. split.
  - intros j Hj Hp Hne. apply Hh; [done|lia].
  - intros H0 Hp. unfold parent in Hp. lia.
Qed.

Lemma heap_but_done a k m r :
  heap_but a k m r -> (forall j, 0 < j < m -> parent j = r -> ge (at_ a r) (at_ a j)) ->
  heap_from a k m.
Proof.
  intros [Hb _] Hr j Hj Hp. destruct (decide (parent j = r)) as [Heq|]; [|by apply Hb].
  rewrite Heq. by apply Hr.
Qed.

(** Moving the greater child [c] up moves the hole down. *)
Lemma heap_but_swap a k m r c :
  0 <= k <= r -> 0 < c < m -> m <= Z.of_nat (length a) -> parent c = r ->
  (forall j, 0 < j < m -> parent j = r -> ge (at_ a c) (at_ a j)) ->
  ge (at_ a c) (at_ a r) -> heap_but a k m r -> heap_but (swapped a r c) k m c.
Proof.
  intros Hk Hc Hm Hp Hmax Hge [Hb Hg]. unfold parent in Hp.
  assert (forall x, 0 <= x -> at_ (swapped a r c) x = if bool_decide (x = r) then at_ a c
    else if bool_decide (x = c) then at_ a r else at_ a x) as Hat
    by (intros; apply at_swapped; lia).
  split.
  - intros j Hj Hpj Hne. rewrite !Hat by (unfold parent in *; lia).
    rewrite (bool_decide_eq_false_2 (parent j = c)) by done.
    destruct (decide (parent j = r)) as [Hpr|Hpr].
    + rewrite (bool_decide_eq_true_2 (parent j = r)) by done.
      rewrite (bool_decide_eq_false_2 (j = r)) by (unfold parent in *; lia).
      case_bool_decide; [done|by apply Hmax].
    + rewrite (bool_decide_eq_false_2 (parent j = r)) by done. case_bool_decide as Hjr.
      * subst j. apply Hg; [lia|done|lia|unfold parent; lia].
      * rewrite bool_decide_eq_false_2 by (unfold parent in *; congruence). by apply Hb.
  - intros H0 Hpc j Hj Hpj. assert (parent c = r) as Hpr by (unfold parent; lia). rewrite Hpr.
    rewrite !Hat by (unfold parent in *; lia).
    rewrite bool_decide_eq_true_2 by done. rewrite !bool_decide_eq_false_2 by (unfold parent in *; lia).
    rewrite <- Hpj. apply Hb; unfold parent in *; lia.
Qed.

(** The root of a heap dominates it. *)
Lemma heap_root a m j : heap_from a 0 m -> 0 <= j < m -> ge (at_ a 0) (at_ a j).
Proof.
  intros Hh Hj. assert (forall i, (i < Z.to_nat m)%nat -> ge (at_ a 0) (at_ a (Z.of_nat i))) as H'.
  { induction i as [i IH] using lt_wf_ind. intros Hi.
    destruct (decide (i = 0%nat)) as [->|Hi0]; [done|].
    assert (0 <= parent (Z.of_nat i) < Z.of_nat i) as Hp by (unfold parent; lia).
    etrans; [|apply Hh; lia]. rewrite <- (Z2Nat.id (parent (Z.of_nat i))) by lia.
    apply IH; lia. }
  rewrite <- (Z2Nat.id j) by lia. apply H'. lia.
Qed.

Lemma heap_from_le a k m m' : m' <= m -> heap_from a k m -> heap_from a k m'.
Proof. intros Hm Hh j Hj. apply Hh. lia. Qed.

(** A heap only looks at the cells from [k] to [m]. *)
Lemma heap_from_ext a b k m :
  0 <= k -> (forall j, k <= j < m -> at_ a j = at_ b j) -> heap_from a k m -> heap_from b k m.
Proof.
  intros Hk He Hh j Hj Hp. rewrite <- !He; [by apply Hh|unfold parent in *; lia..].
Qed.

End Heap.
