(* ===== verification/Sort.v ===== *)
(** The heapsort of lib/sort.c, over an array of bytes with scaled counters as in the source:
    it terminates, sorts, and permutes the elements, with the default swap functions or any
    swap function that exchanges two elements. *)

From S2P Require Import Prelude Order.
From Stdlib Require Import Lia.

(** * The program *)

(** The [n] bytes at [base + off]. *)
Definition slice (base : list Z) (off n : Z) : option (list Z) :=
  if bool_decide (0 <= off /\ 0 <= n /\ off + n <= Z.of_nat (length base))
  then Some (take (Z.to_nat n) (drop (Z.to_nat off) base)) else None.

Definition u32_swap (base : list Z) (a b size : Z) : option (list Z) :=
  t ← slice base a 4;
  x ← slice base b 4;
  base ← memcpy base a x 0 4;
  memcpy base b t 0 4.

Definition generic_swap (base : list Z) (a b size : Z) : option (list Z) :=
  loop (S (Z.to_nat size)) (fun '(base, a, b, size) =>
    t ← rd base a;
    x ← rd base b;
    base ← wr base a x;
    base ← wr base b t;
    let size := size - 1 in
    Some (if 0 <? size then Next (base, a + 1, b + 1, size) else Ret base)) (base, a, b, size).

Section SortDef.

(** [cmp_func] looks at the bytes of two elements. *)
Context (cmp_func : list Z -> list Z -> Z).

Context (swap_func : list Z -> Z -> Z -> Z -> option (list Z)).

(** [for (; r * 2 + size < lim; r = c) { ... }], the body of both phases. *)
Definition sift (base : list Z) (r lim size : Z) : option (list Z) :=
  loop (S (length base)) (fun '(base, r) =>
    if u32 (r * 2 + size) <? u32 lim then
      let c := s32 (r * 2 + size) in
      c ← (if u32 c <? u32 (lim - size) then
             x ← slice base c size;
             y ← slice base (c + size) size;
             Some (if cmp_func x y <? 0 then s32 (c + size) else c)
           else Some c);
      x ← slice base r size;
      y ← slice base c size;
      if 0 <=? cmp_func x y then Some (Ret base)
      else
        base ← swap_func base r c size;
        Some (Next (base, c))
    else Some (Ret base)) (base, r).

Definition heapify (base : list Z) (i n size : Z) : option (list Z) :=
  loop (S (length base)) (fun '(base, i) =>
    if 0 <=? i then
      base ← sift base i n size;
      Some (Next (base, s32 (i - size)))
    else Some (Ret base)) (base, i).

Definition sort_down (base : list Z) (i size : Z) : option (list Z) :=
  loop (S (length base)) (fun '(base, i) =>
    if 0 <? i then
      base ← swap_func base 0 i size;
      base ← sift base 0 i size;
      Some (Next (base, s32 (i - size)))
    else Some (Ret base)) (base, i).

End SortDef.

(** [swap_func = None] is NULL. *)
Definition sort (base : list Z) (num size : Z) (cmp_func : list Z -> list Z -> Z)
    (swap_func : option (list Z -> Z -> Z -> Z -> option (list Z))) : option (list Z) :=
  let i := s32 (u32 ((num / 2 - 1) * size)) in
  let n := s32 (u32 (num * size)) in
  let swap_func := match swap_func with
                   | Some f => f
                   | None => if size =? 4 then u32_swap else generic_swap
                   end in
  base ← heapify cmp_func swap_func base i n size;
  sort_down cmp_func swap_func base (s32 (n - size)) size.

(** * Arrays of elements *)

Implicit Types es : list (list Z).

(** [es] are the elements of the byte array [concat es]. *)
Definition elems (size : Z) (es : list (list Z)) : Prop :=
  0 < size < 1073741824 /\ Forall (fun e => Z.of_nat (length e) = size) es /\
  Z.of_nat (length es) * size < 1073741824.

(** A swap function exchanges two elements. *)
Definition swap_ok (size : Z) (swap : list Z -> Z -> Z -> Z -> option (list Z)) : Prop :=
  forall es i j, elems size es -> 0 <= i < j -> j < Z.of_nat (length es) ->
    swap (concat es) (i * size) (j * size) size = Some (concat (swapped es i j)).

Lemma concat_length size es :
  Forall (fun e => Z.of_nat (length e) = size) es ->
  Z.of_nat (length (concat es)) = Z.of_nat (length es) * size.
Proof.
  induction 1 as [|e es He _ IH]; [done|]. simpl. rewrite length_app. lia.
Qed.

Lemma concat_split size es k :
  elems size es -> 0 <= k < Z.of_nat (length es) ->
  concat es = concat (take (Z.to_nat k) es) ++ at_ es k ++ concat (drop (S (Z.to_nat k)) es) /\
  Z.of_nat (length (concat (take (Z.to_nat k) es))) = k * size /\
  Z.of_nat (length (at_ es k)) = size.
Proof.
  intros (Hs & Hall & _) Hk. split_and!.
  - rewrite <- (take_drop_middle es (Z.to_nat k) (at_ es k)) at 1
      by (apply list_lookup_lookup_total_lt; lia).
    by rewrite concat_app.
  - rewrite (concat_length size) by by apply Forall_take. rewrite length_take. lia.
  - apply (Forall_lookup_total_1 _ _ _ Hall). lia.
Qed.

Lemma slice_elem size es k :
  elems size es -> 0 <= k < Z.of_nat (length es) ->
  slice (concat es) (k * size) size = Some (at_ es k).
Proof.
  intros He Hk. destruct (concat_split size es k He Hk) as (Hc & Hl & Hlk).
  unfold slice. pose proof He as (Hs & Hall & _).
  rewrite bool_decide_eq_true_2 by (rewrite (concat_length size) by done; nia).
  rewrite Hc. rewrite drop_app_length' by lia. rewrite take_app_length' by lia. done.
Qed.

Lemma rd_elem size es k q :
  elems size es -> 0 <= k < Z.of_nat (length es) -> 0 <= q < size ->
  rd (concat es) (k * size + q) = rd (at_ es k) q.
Proof.
  intros He Hk Hq. destruct (concat_split size es k He Hk) as (Hc & Hl & Hlk).
  unfold rd. pose proof He as (Hs & _). rewrite !bool_decide_eq_true_2 by nia.
  rewrite Hc, lookup_app_r, lookup_app_l by lia. f_equal. lia.
Qed.

(** Two arrays of elements with the same cells. *)
Lemma concat_ext size es' b :
  elems size es' -> length b = length (concat es') ->
  (forall k q, 0 <= k < Z.of_nat (length es') -> 0 <= q < size ->
     rd b (k * size + q) = rd (at_ es' k) q) ->
  b = concat es'.
Proof.
  intros He Hlen Hrd. pose proof He as (Hs & Hall & _). apply rd_ext; [done|].
  intros i Hi. rewrite Hlen, (concat_length size) in Hi by done.
  replace i with (i / size * size + i mod size) by (pose proof (Z_div_mod_eq_full i size); lia).
  pose proof (Z.mod_pos_bound i size (proj1 Hs)).
  assert (0 <= i / size < Z.of_nat (length es')) as Hk.
  { split; [apply Z.div_pos; lia|]. apply Z.div_lt_upper_bound; lia. }
  rewrite Hrd, (rd_elem size) by done. done.
Qed.

Lemma elems_perm size es es' : es' ≡ₚ es -> elems size es -> elems size es'.
Proof. intros Hp (Hs & Hall & Hlt). split; [done|]. rewrite Hp. done. Qed.

Lemma swapped_elems size es i j :
  elems size es -> 0 <= i < Z.of_nat (length es) -> 0 <= j < Z.of_nat (length es) ->
  elems size (swapped es i j).
Proof. intros He Hi Hj. eapply elems_perm; [by apply swapped_perm|done]. Qed.

(** A byte array with the bytes of elements [i] and [j] exchanged is the swapped array. *)
Lemma swapped_bytes size es i j b :
  elems size es -> 0 <= i < j -> j < Z.of_nat (length es) ->
  length b = length (concat es) ->
  (forall q, 0 <= q < size -> rd b (i * size + q) = rd (concat es) (j * size + q)) ->
  (forall q, 0 <= q < size -> rd b (j * size + q) = rd (concat es) (i * size + q)) ->
  (forall p, 0 <= p -> p < i * size \/ i * size + size <= p -> p < j * size \/ j * size + size <= p ->
     rd b p = rd (concat es) p) ->
  b = concat (swapped es i j).
Proof.
  intros He Hi Hj Hlen H1 H2 H3. pose proof He as (Hs & Hall & Hlt).
  pose proof (swapped_elems size es i j He ltac:(lia) ltac:(lia)) as He'.
  apply (concat_ext size); [done|by rewrite Hlen, (swapped_perm es i j) by lia|].
  intros k q Hk Hq. rewrite swapped_length in Hk. rewrite at_swapped by lia.
  repeat case_bool_decide; subst.
  - rewrite H1 by done. apply rd_elem; [done|lia|done].
  - rewrite H2 by done. apply rd_elem; [done|lia|done].
  - rewrite H3 by nia. by apply rd_elem.
Qed.

Lemma u32_swap_ok : swap_ok 4 u32_swap.
Proof.
  intros es i j He Hi Hj. unfold u32_swap. rewrite !slice_elem by (done || lia). simpl.
  pose proof He as (_ & Hall & _). pose proof (concat_length 4 es Hall) as Hcl.
  destruct (concat_split 4 es i He ltac:(lia)) as (_ & _ & Hli).
  destruct (concat_split 4 es j He ltac:(lia)) as (_ & _ & Hlj).
  destruct (memcpy_Some (concat es) (i * 4) (at_ es j) 0 4) as (b1 & -> & Hl1 & _ & Hr1); [lia..|].
  simpl. destruct (memcpy_Some b1 (j * 4) (at_ es i) 0 4) as (b2 & -> & Hl2 & _ & Hr2); [lia..|].
  f_equal. apply (swapped_bytes 4 es i j); [done..|congruence| | |].
  - intros q Hq. rewrite Hr2, Hr1. rewrite bool_decide_eq_false_2, bool_decide_eq_true_2 by lia.
    rewrite (rd_elem 4) by (done || lia). f_equal. lia.
  - intros q Hq. rewrite Hr2. rewrite bool_decide_eq_true_2 by lia.
    rewrite (rd_elem 4) by (done || lia). f_equal. lia.
  - intros p Hp Hpi Hpj. rewrite Hr2, Hr1. rewrite !bool_decide_eq_false_2 by lia. done.
Qed.

(** The first [t] bytes of two elements at [x] and [y] exchanged. *)
Definition part_swapped (L : list Z) (x y t : Z) (b : list Z) : Prop :=
  length b = length L /\ forall p, 0 <= p -> rd b p =
    if bool_decide (x <= p < x + t) then rd L (p - x + y)
    else if bool_decide (y <= p < y + t) then rd L (p - y + x)
    else rd L p.

Lemma part_swapped_step L x y t b :
  part_swapped L x y t b -> 0 <= x -> 0 <= t -> x + t < y -> y + t < Z.of_nat (length L) ->
  exists u v b', rd b (x + t) = Some u /\ rd b (y + t) = Some v /\
    wr b (x + t) v = Some b' /\ exists b'', wr b' (y + t) u = Some b'' /\ part_swapped L x y (t + 1) b''.
Proof.
  intros [Hl Hb] Hx Ht Hxy Hy.
  destruct (rd_Some L (x + t)) as [u Hu]; [lia|]. destruct (rd_Some L (y + t)) as [v Hv]; [lia|].
  exists u, v, (<[Z.to_nat (x + t) := v]> b). rewrite !Hb, !bool_decide_eq_false_2 by lia. rewrite Hu, Hv.
  rewrite wr_Some by lia. do 3 (split; [done|]). rewrite wr_Some by (rewrite length_insert; lia).
  eexists. split; [done|]. split; [by rewrite !length_insert|].
  intros p Hp. rewrite !rd_insert by (rewrite ?length_insert; lia). rewrite Hb by done.
  destruct (decide (p = y + t)) as [->|Hpj]; [|destruct (decide (p = x + t)) as [->|Hpi]].
  - rewrite bool_decide_eq_true_2 by done. rewrite bool_decide_eq_false_2 by lia.
    rewrite bool_decide_eq_true_2 by lia. rewrite <- Hu. f_equal. lia.
  - rewrite bool_decide_eq_false_2 by done. rewrite !bool_decide_eq_true_2 by lia.
    rewrite <- Hv. f_equal. lia.
  - rewrite (bool_decide_eq_false_2 (p = _)), (bool_decide_eq_false_2 (p = _)) by done.
    repeat case_bool_decide; (lia || done).
Qed.

Lemma generic_swap_ok size : 0 < size -> swap_ok size (generic_swap).
Proof.
  intros Hs es i j He Hi Hj. unfold generic_swap. pose proof He as (_ & Hall & _).
  pose proof (concat_length size es Hall) as Hcl. set (L := concat es) in *.
  assert (0 <= i * size /\ i * size + size <= j * size /\ j * size + size <= Z.of_nat (length L))
    as (H0 & H1 & H2) by nia.
  loop_with (fun '(b, a, bb, s) => exists t, 0 <= t < size /\ s = size - t /\
      a = i * size + t /\ bb = j * size + t /\ part_swapped L (i * size) (j * size) t b)
    (fun '(_, _, _, s) => Z.to_nat s)
    (part_swapped L (i * size) (j * size) size) as (b & -> & Hl & Hb).
  - intros [[[b a] bb] s] (t & Ht & -> & -> & -> & Hp).
    destruct (part_swapped_step L (i * size) (j * size) t b Hp) as (u & v & b' & -> & -> & Hw1 & b'' & Hw2 & Hp');
      [lia..|]. cbn [mbind option_bind]. rewrite Hw1. cbn [mbind option_bind]. rewrite Hw2. cbn [mbind option_bind].
    destruct (0 <? size - t - 1) eqn:E; zbool.
    + split; [|lia]. exists (t + 1). split_and!; (lia || done).
    + assert (t + 1 = size) as Ht1 by lia. by rewrite Ht1 in Hp'.
  - exists 0. split_and!; try lia. split; [done|]. intros p Hp. rewrite !bool_decide_eq_false_2 by lia. done.
  - lia.
  - f_equal. apply (swapped_bytes size es i j); [done..| | |]; fold L.
    + intros q Hq. rewrite Hb by lia. rewrite bool_decide_eq_true_2 by lia. f_equal. lia.
    + intros q Hq. rewrite Hb by lia. rewrite bool_decide_eq_false_2, bool_decide_eq_true_2 by lia.
      f_equal. lia.
    + intros p Hp Hpi Hpj. rewrite Hb by lia. rewrite !bool_decide_eq_false_2 by lia. done.
Qed.

(** * Correctness of the two phases *)

Section SortProof.

Context (cmp : list Z -> list Z -> Z) `{!TotalCmp cmp}.
Context (swap : list Z -> Z -> Z -> Z -> option (list Z)) (size : Z).
Hypothesis Hswap : swap_ok size swap.

Abbreviation ge := (cmp_ge cmp).

(** What a run of [sift] between the elements [k] and [m] may do. *)
Definition sifted (es es' : list (list Z)) (k m : Z) : Prop :=
  es' ≡ₚ es /\
  (forall j, 0 <= j -> j < k \/ m <= j -> at_ es' j = at_ es j) /\
  (forall P : list Z -> Prop, (forall j, k <= j < m -> P (at_ es j)) ->
     forall j, k <= j < m -> P (at_ es' j)).

Lemma sifted_refl es k m : sifted es es k m.
Proof. by repeat split. Qed.

Lemma sifted_swap es es' k m i j :
  0 <= k <= i -> i < j -> j < m -> m <= Z.of_nat (length es') ->
  sifted es es' k m -> sifted es (swapped es' i j) k m.
Proof.
  intros Hk Hi Hj Hm (Hp & Hout & Hin).
  assert (forall x, 0 <= x -> at_ (swapped es' i j) x = if bool_decide (x = i) then at_ es' j
    else if bool_decide (x = j) then at_ es' i else at_ es' x) as Hat
    by (intros; apply at_swapped; lia).
  split; [|split].
  - rewrite swapped_perm by lia. done.
  - intros x Hx Hxo. rewrite Hat by done. rewrite !bool_decide_eq_false_2 by lia. by apply Hout.
  - intros P HP x Hx. rewrite Hat by lia.
    repeat case_bool_decide; apply Hin; (done || lia).
Qed.

(** The greater child, as the loop picks it. *)
Definition best (es : list (list Z)) (r m : Z) : Z :=
  if (2 * r + 1 <? m - 1) && (cmp (at_ es (2 * r + 1)) (at_ es (2 * r + 2)) <? 0)
  then 2 * r + 2 else 2 * r + 1.

Lemma best_spec es r m :
  0 <= r -> 2 * r + 1 < m ->
  r < best es r m < m /\ parent (best es r m) = r /\
  forall j, 0 < j < m -> parent j = r -> ge (at_ es (best es r m)) (at_ es j).
Proof.
  intros Hr Hm. unfold best, parent. destruct (_ && _) eqn:E; zbool.
  - split; [lia|]. split; [lia|]. intros j Hj Hp.
    assert (j = 2 * r + 1 \/ j = 2 * r + 2) as [-> | ->] by lia; [by apply cmp_lt_ge|apply cmp_ge_refl; done].
  - split; [lia|]. split; [lia|]. intros j Hj Hp.
    assert (j = 2 * r + 1 \/ j = 2 * r + 2) as [-> | ->] by lia; [apply cmp_ge_refl; done|].
    unfold cmp_ge. destruct (2 * r + 1 <? m - 1) eqn:E1; zbool; [|lia]. simpl in E. zbool. lia.
Qed.

(** The statements that choose [c] compute [best]. *)
Lemma pick_spec es q m :
  elems size es -> 0 <= q -> 2 * q + 1 < m -> m <= Z.of_nat (length es) ->
  (if q * size * 2 + size <? u32 (m * size - size)
   then x ← slice (concat es) (q * size * 2 + size) size;
        y ← slice (concat es) (q * size * 2 + size + size) size;
        Some (if cmp x y <? 0 then s32 (q * size * 2 + size + size) else q * size * 2 + size)
   else Some (q * size * 2 + size)) = Some (best es q m * size).
Proof.
  intros He Hq Hc Hm. pose proof He as (Hs & _ & Hlt).
  rewrite u32_small by (unfold is_u32; nia). unfold best.
  assert ((q * size * 2 + size <? m * size - size) = (2 * q + 1 <? m - 1)) as ->.
  { apply Bool.eq_iff_eq_true. rewrite !Z.ltb_lt. nia. }
  destruct (2 * q + 1 <? m - 1) eqn:E1; zbool; [|simpl; f_equal; lia].
  replace (q * size * 2 + size) with ((2 * q + 1) * size) by lia.
  replace ((2 * q + 1) * size + size) with ((2 * q + 2) * size) by lia.
  rewrite !slice_elem by (done || lia). simpl. rewrite s32_small by nia. by destruct (_ <? 0).
Qed.

Lemma sift_spec es k m :
  elems size es -> 0 <= k < m -> m <= Z.of_nat (length es) -> heap_from ge es (k + 1) m ->
  exists es', sift cmp swap (concat es) (k * size) (m * size) size = Some (concat es') /\
    sifted es es' k m /\ heap_from ge es' k m.
Proof.
  intros He Hk Hm Hh. pose proof He as (Hs & Hall & Hlt). unfold sift.
  pose proof (concat_length size es Hall) as Hcl.
  loop_with (fun '(b, r) => exists es' q, b = concat es' /\ r = q * size /\ k <= q < m /\
      sifted es es' k m /\ heap_but ge es' k m q)
    (fun '(_, r) => Z.to_nat (m * size - r))
    (fun b => exists es', b = concat es' /\ sifted es es' k m /\ heap_from ge es' k m)
    as (b & -> & es' & -> & ?); [| | |by exists es'].
  - intros [b r] (es' & q & -> & -> & Hq & Hsift & Hbut). pose proof Hsift as (Hp & _).
    pose proof (elems_perm size es es' Hp He) as He'. pose proof (Permutation_length Hp) as Hlen.
    cbv zeta.
    rewrite (s32_small (q * size * 2 + size)), (u32_small (q * size * 2 + size)), (u32_small (m * size))
      by (unfold is_u32; nia).
    destruct (q * size * 2 + size <? m * size) eqn:E; zbool.
    2:{ exists es'. split; [done|]. split; [done|]. apply heap_but_done with q; [done|].
        intros j Hj Hpj. unfold parent in Hpj. nia. }
    assert (2 * q + 1 < m) as Hc by nia. destruct (best_spec es' q m) as (Hb & Hpar & Hmax); [lia..|].
    rewrite pick_spec by (done || lia). simpl. rewrite !slice_elem by (done || lia). simpl.
    destruct (0 <=? _) eqn:E2; zbool.
    + exists es'. split; [done|]. split; [done|]. apply heap_but_done with q; [done|].
      intros j Hj Hpj. etrans; [exact E2|]. by apply Hmax.
    + rewrite Hswap by (done || lia). simpl. split; [|nia].
      exists (swapped es' q (best es' q m)), (best es' q m). split; [done|]. split; [done|].
      split; [lia|]. split; [apply sifted_swap; (done || lia)|].
      apply heap_but_swap; try done; try lia. by apply cmp_lt_ge.
  - exists es, k. split; [done|]. split; [done|]. split; [lia|]. split; [apply sifted_refl|].
    apply heap_but_start; [lia|done].
  - nia.
Qed.

Lemma heapify_spec es :
  elems size es ->
  let n := Z.of_nat (length es) in
  exists es', heapify cmp swap (concat es) (s32 (u32 ((n / 2 - 1) * size))) (n * size) size =
      Some (concat es') /\ es' ≡ₚ es /\ heap_from ge es' 0 n.
Proof.
  intros He n. pose proof He as (Hs & Hall & Hlt). unfold heapify.
  pose proof (concat_length size es Hall) as Hcl.
  assert (s32 (u32 ((n / 2 - 1) * size)) = (n / 2 - 1) * size) as ->.
  { assert (0 <= n / 2 <= n) as Hh by lia.
    assert (- size <= (n / 2 - 1) * size < 1073741824) as Hr.
    { revert Hh. generalize (n / 2). intros h Hh. nia. }
    revert Hr. generalize ((n / 2 - 1) * size). intros x Hr. unfold s32, u32. lia. }
  loop_with (fun '(b, i) => exists es' q, b = concat es' /\ i = q * size /\ -1 <= q < n /\
      es' ≡ₚ es /\ heap_from ge es' (q + 1) n)
    (fun '(_, i) => Z.to_nat (i + size))
    (fun b => exists es', b = concat es' /\ es' ≡ₚ es /\ heap_from ge es' 0 n)
    as (b & -> & es' & -> & ?); [| | |by exists es'].
  - intros [b i] (es' & q & -> & -> & Hq & Hp & Hh).
    pose proof (elems_perm size es es' Hp He) as He'. pose proof (Permutation_length Hp) as Hlen.
    destruct (0 <=? q * size) eqn:E; zbool.
    + destruct (sift_spec es' q n) as (es1 & -> & (Hp1 & _) & Hh1); [done|nia|lia|done|]. simpl.
      rewrite s32_small by nia. split; [|nia]. exists es1, (q - 1).
      split; [done|]. split; [lia|]. split; [nia|]. split; [by rewrite Hp1|].
      by replace (q - 1 + 1) with q by lia.
    + exists es'. split; [done|]. split; [done|]. by replace 0 with (q + 1) by nia.
  - exists es, (n / 2 - 1). split; [done|]. split; [done|]. split; [lia|]. split; [done|].
    intros j Hj Hpj. unfold parent in Hpj. lia.
  - nia.
Qed.

(** After the elements from [m] on are in place. *)
Definition tail_sorted (es : list (list Z)) (m : Z) : Prop :=
  forall i j, 0 <= i -> m <= j -> i < j -> j < Z.of_nat (length es) -> ge (at_ es j) (at_ es i).

Lemma sort_step es m :
  elems size es -> 0 < m < Z.of_nat (length es) ->
  heap_from ge es 0 (m + 1) -> tail_sorted es (m + 1) ->
  exists es', (b ← swap (concat es) 0 (m * size) size; sift cmp swap b 0 (m * size) size) =
      Some (concat es') /\ es' ≡ₚ es /\ heap_from ge es' 0 m /\ tail_sorted es' m.
Proof.
  intros He Hm Hh Ht. pose proof He as (Hs & _).
  rewrite <- (Z.mul_0_l size), Hswap by (done || lia). simpl. set (s := swapped es 0 m).
  assert (forall x, 0 <= x -> at_ s x = if bool_decide (x = 0) then at_ es m
    else if bool_decide (x = m) then at_ es 0 else at_ es x) as Hat
    by (intros; apply at_swapped; lia).
  pose proof (swapped_perm es 0 m ltac:(lia) ltac:(lia)) as Hps. fold s in Hps.
  pose proof (Permutation_length Hps) as Hls.
  destruct (sift_spec s 0 m) as (es' & -> & (Hp & Hout & Hin) & Hh');
    [by eapply elems_perm|lia|lia| |].
  { apply (heap_from_ext ge es); [lia| |].
    - intros j Hj. rewrite Hat by lia. by rewrite !bool_decide_eq_false_2 by lia.
    - intros j Hj Hpj. apply Hh; [lia|unfold parent in *; lia]. }
  exists es'. split; [done|]. split; [by rewrite Hp|]. split; [done|].
  assert (forall j, 0 <= j < m -> ge (at_ es 0) (at_ es' j)) as Hle.
  { apply Hin. intros j Hj. rewrite Hat by lia. case_bool_decide; [apply (heap_root ge es (m + 1)); done || lia|].
    rewrite bool_decide_eq_false_2 by lia. apply (heap_root ge es (m + 1)); (done || lia). }
  intros i j Hi Hj Hij Hlen. rewrite (Permutation_length Hp) in Hlen.
  rewrite (Hout j), (Hat j) by lia. rewrite (bool_decide_eq_false_2 (j = 0)) by lia.
  case_bool_decide as Hjm; [apply Hle; lia|].
  destruct (decide (i < m)).
  - etrans; [|apply Hle; lia]. apply Ht; lia.
  - rewrite (Hout i), (Hat i) by lia. rewrite (bool_decide_eq_false_2 (i = 0)) by lia.
    case_bool_decide; apply Ht; lia.
Qed.

Lemma sort_down_spec es :
  elems size es -> heap_from ge es 0 (Z.of_nat (length es)) ->
  exists es', sort_down cmp swap (concat es) (s32 (Z.of_nat (length es) * size - size)) size =
      Some (concat es') /\ es' ≡ₚ es /\ tail_sorted es' 0.
Proof.
  intros He Hh. pose proof He as (Hs & Hall & Hlt). unfold sort_down.
  pose proof (concat_length size es Hall) as Hcl. set (n := Z.of_nat (length es)) in *.
  rewrite s32_small by nia.
  loop_with (fun '(b, i) => exists es' q, b = concat es' /\ i = q * size /\ -1 <= q < n /\
      es' ≡ₚ es /\ heap_from ge es' 0 (q + 1) /\ tail_sorted es' (q + 1))
    (fun '(_, i) => Z.to_nat (i + size))
    (fun b => exists es', b = concat es' /\ es' ≡ₚ es /\ tail_sorted es' 0)
    as (b & -> & es' & -> & ?); [| | |by exists es'].
  - intros [b i] (es' & q & -> & -> & Hq & Hp & Hh' & Ht).
    pose proof (elems_perm size es es' Hp He) as He'. pose proof (Permutation_length Hp) as Hlen.
    destruct (0 <? q * size) eqn:E; zbool.
    + destruct (sort_step es' q) as (es1 & Hrun & Hp1 & Hh1 & Ht1); [done|nia|done|done|].
      destruct (swap (concat es') 0 (q * size) size) as [b1|]; [|done]. simpl in *. rewrite Hrun. simpl.
      rewrite s32_small by nia. split; [|nia]. exists es1, (q - 1).
      split; [done|]. split; [lia|]. split; [nia|]. split; [by rewrite Hp1|].
      by replace (q - 1 + 1) with q by lia.
    + exists es'. split; [done|]. split; [done|]. intros i j Hi Hj Hij Hlj. apply Ht; nia.
  - exists es, (n - 1). split; [done|]. split; [lia|]. split; [lia|]. split; [done|].
    replace (n - 1 + 1) with n by lia. split; [done|]. intros i j Hi Hj Hij Hlj. lia.
  - nia.
Qed.

End SortProof.

(** C21: sort() terminates and leaves the elements in ascending order and permuted, for any
    comparison function that is a total preorder and any element size, with less than 2^30 bytes in
    all, and the built-in swap functions or any swap function that exchanges two elements. *)
Theorem sort_sorts es size cmp_func swap_func :
  elems size es -> TotalCmp cmp_func ->
  (forall f, swap_func = Some f -> swap_ok size f) ->
  exists es', sort (concat es) (Z.of_nat (length es)) size cmp_func swap_func = Some (concat es') /\
    es' ≡ₚ es /\
    forall i j, 0 <= i < j -> j < Z.of_nat (length es') ->
      0 <= cmp_func (at_ es' j) (at_ es' i).
Proof.
  intros He Hcmp Hsw. pose proof He as (Hs & Hall & Hlt). unfold sort.
  set (swap := match swap_func with Some f => f | None => _ end).
  assert (swap_ok size swap) as Hswap.
  { subst swap. destruct swap_func as [f|]; [by apply Hsw|]. destruct (size =? 4) eqn:E; zbool.
    - subst. apply u32_swap_ok.
    - apply generic_swap_ok. lia. }
  assert (s32 (u32 (Z.of_nat (length es) * size)) = Z.of_nat (length es) * size) as ->
    by (rewrite u32_small by (unfold is_u32; nia); apply s32_small; nia).
  destruct (heapify_spec cmp_func swap size Hswap es He) as (es1 & -> & Hp1 & Hh1). simpl.
  rewrite <- (Permutation_length Hp1) in *.
  destruct (sort_down_spec cmp_func swap size Hswap es1) as (es2 & -> & Hp2 & Ht);
    [by eapply elems_perm|done|].
  exists es2. split; [done|]. split; [by rewrite Hp2|].
  intros i j Hi Hj. apply Ht; lia.
Qed.

(** Two-byte big-endian elements. *)
Definition cmp_be16 (x y : list Z) : Z :=
  cmp_Z (at_ x 0 * 256 + at_ x 1) (at_ y 0 * 256 + at_ y 1).

Lemma sort_sorts_witness :
  sort [1; 0; 0; 9; 0; 3] 3 2 cmp_be16 None = Some [0; 3; 0; 9; 1; 0] /\
  exists es', sort [1; 0; 0; 9; 0; 3] 3 2 cmp_be16 None = Some (concat es').
Proof.
  split; [reflexivity|].
  destruct (sort_sorts [[1; 0]; [0; 9]; [0; 3]] 2 cmp_be16 None) as (es' & Hr & _).
  - split; [lia|]. split; [by repeat constructor|simpl; lia].
  - split; unfold cmp_be16; [intros x y; apply cmp_Z_total|intros x y z; apply cmp_Z_total].
  - intros f Hf. discriminate.
  - exists es'. exact Hr.
Defined.
