(* ===== verification/PrioHeap.v ===== *)
(** The insertion-only priority heap of lib/prio_heap.c: a bounded max-heap of pointers that
    keeps the smallest elements it is given. *)

From S2P Require Import Prelude Order.
From Stdlib Require Import Lia.

(** * The program *)

(** [gt] is one of the functions a client puts into a ptr_heap: a strict weak order. *)
Class StrictWeak {A} (gt : A -> A -> bool) : Prop := {
  gt_irrefl : forall x, gt x x = false;
  gt_negtrans : forall x y z, gt y x = false -> gt z y = false -> gt z x = false;
  gt_asym : forall x y, gt x y = true -> gt y x = false;
}.

Section PrioHeap.

Context `{Inhabited A} (gt : A -> A -> bool).

(** [hsize] and [hmax] are the fields size and max; [ptrs] is the whole allocated array. *)
Record ptr_heap : Type := PtrHeap {
  ptrs : list A;
  hmax : Z;
  hsize : Z;
}.

(** [kmalloc size]: the new array of [size / sizeof(void * )] pointers, or NULL. *)
Definition heap_init (kmalloc : Z -> option (list A)) (size : Z) : option ptr_heap * Z :=
  match kmalloc size with
  | None => (None, - ENOMEM)
  | Some p => (Some (PtrHeap p (size / 4) 0), 0)
  end.

(** The upward loop of an insertion: the state is the array and [pos]. *)
Definition sift_up (a : list A) (pos : Z) (p : A) : option (list A * Z) :=
  loop (S (length a)) (fun '(a, pos) =>
    if 0 <? pos then
      x ← rd a ((pos - 1) `quot` 2);
      if gt p x then
        a ← wr a pos x;
        Some (Next (a, (pos - 1) `quot` 2))
      else Some (Ret (a, pos))
    else Some (Ret (a, pos))) (a, pos).

(** The downward loop of a replacement. *)
Definition sift_down (a : list A) (size pos : Z) (p : A) : option (list A) :=
  loop (S (length a)) (fun '(a, pos) =>
    let left := 2 * pos + 1 in
    let right := 2 * pos + 2 in
    largest ← (if left <? size then
                 x ← rd a left; Some (if gt x p then left else pos)
               else Some pos);
    largest ← (if right <? size then
                 x ← rd a right; y ← rd a largest; Some (if gt x y then right else largest)
               else Some largest);
    if largest =? pos then Some (Ret a)
    else
      x ← rd a largest;
      a ← wr a pos x;
      a ← wr a largest p;
      Some (Next (a, largest))) (a, pos).

(** The returned pointer is [None] for NULL. *)
Definition heap_insert (heap : ptr_heap) (p : A) : option (ptr_heap * option A) :=
  if hsize heap <? hmax heap then
    let pos := hsize heap in
    '(a, pos) ← sift_up (ptrs heap) pos p;
    a ← wr a pos p;
    Some (PtrHeap a (hmax heap) (hsize heap + 1), None)
  else
    x ← rd (ptrs heap) 0;
    if gt p x then Some (heap, Some p)
    else
      let res := x in
      a ← wr (ptrs heap) 0 p;
      a ← sift_down a (hsize heap) 0 p;
      Some (PtrHeap a (hmax heap) (hsize heap), Some res).

(** * Correctness *)

Context `{!StrictWeak gt}.

Implicit Types (a b : list A) (p : A).

(** [x] is not exceeded by [y]. *)
Definition hge (x y : A) : Prop := gt y x = false.

#[local] Instance hge_preorder : PreOrder hge.
Proof. split; [intros x; apply gt_irrefl|intros x y z; apply gt_negtrans]. Qed.

Lemma gt_hge x y : gt x y = true -> hge x y.
Proof. apply gt_asym. Qed.

(** The elements of the heap. *)
Definition held (h : ptr_heap) : list A := take (Z.to_nat (hsize h)) (ptrs h).

Definition heap_ok (h : ptr_heap) : Prop :=
  0 <= hsize h <= hmax h /\ Z.of_nat (length (ptrs h)) = hmax h /\ hmax h < 1073741824 /\
  heap_from hge (ptrs h) 0 (hsize h).

(** The upward counterpart of [heap_but]: the hole is above [r]. *)
Definition heap_up (a : list A) (m r : Z) : Prop :=
  (forall j, 0 < j < m -> j <> r -> hge (at_ a (parent j)) (at_ a j)) /\
  (0 < r -> forall j, 0 < j < m -> parent j = r -> hge (at_ a (parent r)) (at_ a j)).

Lemma heap_up_done a m r :
  heap_up a m r -> (0 < r -> hge (at_ a (parent r)) (at_ a r)) -> heap_from hge a 0 m.
Proof. intros [Hu _] Hr j Hj Hp. destruct (decide (j = r)) as [->|]; [apply Hr; lia|by apply Hu]. Qed.

Lemma heap_up_swap a m r :
  0 < r < m -> m <= Z.of_nat (length a) -> hge (at_ a r) (at_ a (parent r)) ->
  heap_up a m r -> heap_up (swapped a r (parent r)) m (parent r).
Proof.
  intros Hr Hm Hge [Hu Hg]. assert (0 <= parent r < r) as Hp by (unfold parent; lia).
  assert (forall x, 0 <= x -> at_ (swapped a r (parent r)) x = if bool_decide (x = r)
    then at_ a (parent r) else if bool_decide (x = parent r) then at_ a r else at_ a x) as Hat
    by (intros; apply at_swapped; lia).
  split.
  - intros j Hj Hne. rewrite !Hat by (unfold parent in *; lia).
    rewrite (bool_decide_eq_false_2 (j = parent r)) by done.
    destruct (decide (j = r)) as [->|Hjr].
    + rewrite (bool_decide_eq_false_2 (parent r = r)) by lia. by rewrite !bool_decide_eq_true_2 by done.
    + rewrite (bool_decide_eq_false_2 (j = r)) by done. case_bool_decide as H1; [by apply Hg; lia|].
      case_bool_decide as H2; [|by apply Hu]. rewrite <- H2 in Hge. etrans; [done|].
      by apply Hu.
  - intros H0 j Hj Hpj. rewrite !Hat by (unfold parent in *; lia).
    rewrite (bool_decide_eq_false_2 (parent (parent r) = r)) by (unfold parent in *; lia).
    rewrite (bool_decide_eq_false_2 (parent (parent r) = parent r)) by (unfold parent in *; lia).
    rewrite (bool_decide_eq_false_2 (j = parent r)) by (unfold parent in *; lia).
    case_bool_decide; [apply Hu; lia|]. etrans; [apply (Hu (parent r)); lia|].
    rewrite <- Hpj. apply Hu; lia.
Qed.

(** A permutation that leaves the cells from [m] on alone permutes the first [m]. *)
Definition rearranged (m : Z) (a b : list A) : Prop :=
  b ≡ₚ a /\ forall j, m <= j -> at_ b j = at_ a j.

Lemma rearranged_take m a b :
  0 <= m -> rearranged m a b -> take (Z.to_nat m) b ≡ₚ take (Z.to_nat m) a.
Proof.
  intros Hm [Hp Hout]. pose proof (Permutation_length Hp) as Hlen.
  assert (drop (Z.to_nat m) b = drop (Z.to_nat m) a) as Hd.
  { apply list_eq_same_length with (n := length (drop (Z.to_nat m) a)); [done|by rewrite !length_drop, Hlen|].
    intros i x y Hi Hx Hy. rewrite length_drop in Hi. rewrite lookup_drop in Hx, Hy.
    specialize (Hout (m + Z.of_nat i) ltac:(lia)). unfold at_ in Hout.
    replace (Z.to_nat (m + Z.of_nat i)) with (Z.to_nat m + i)%nat in Hout by lia.
    apply list_lookup_total_correct in Hx, Hy. congruence. }
  rewrite <- (take_drop (Z.to_nat m) b), <- (take_drop (Z.to_nat m) a), Hd in Hp.
  by apply Permutation_app_inv_r in Hp.
Qed.

Lemma rearranged_swap m a b i j :
  0 <= i < m -> 0 <= j < m -> m <= Z.of_nat (length b) -> rearranged m a b ->
  rearranged m a (swapped b i j).
Proof.
  intros Hi Hj Hm [Hp Hout]. split; [rewrite swapped_perm by lia; done|].
  intros k Hk. rewrite at_swapped by lia. rewrite !bool_decide_eq_false_2 by lia. by apply Hout.
Qed.

Lemma rd_at (a : list A) i : 0 <= i < Z.of_nat (length a) -> rd a i = Some (at_ a i).
Proof. apply rd_total. Qed.

(** Writing [x] at [r] and [p] at [q], where [p] stands at [r], swaps the two cells. *)
Lemma hole_swap a r q p :
  0 <= r < Z.of_nat (length a) -> 0 <= q < Z.of_nat (length a) -> r <> q ->
  <[Z.to_nat q := p]> (<[Z.to_nat r := at_ a q]> a) = swapped (<[Z.to_nat r := p]> a) r q.
Proof.
  intros Hr Hq Hne. apply rd_ext; [by rewrite swapped_length, !length_insert|].
  intros i Hi. rewrite !length_insert in Hi.
  rewrite !rd_at by (rewrite ?swapped_length, ?length_insert; lia). f_equal.
  rewrite at_swapped by (rewrite ?length_insert; lia).
  rewrite !at_insert by (rewrite ?length_insert; lia). repeat case_bool_decide; congruence.
Qed.

Lemma sift_up_spec a m p :
  0 < m <= Z.of_nat (length a) -> heap_from hge a 0 (m - 1) ->
  let v0 := <[Z.to_nat (m - 1) := p]> a in
  exists a' pos, sift_up a (m - 1) p = Some (a', pos) /\ 0 <= pos < m /\ length a' = length a /\
    rearranged m v0 (<[Z.to_nat pos := p]> a') /\ heap_from hge (<[Z.to_nat pos := p]> a') 0 m.
Proof.
  intros Hm Hh v0. unfold sift_up.
  loop_with (fun '(a', pos) => 0 <= pos < m /\ length a' = length a /\
      rearranged m v0 (<[Z.to_nat pos := p]> a') /\ heap_up (<[Z.to_nat pos := p]> a') m pos)
    (fun '(_, pos) => Z.to_nat pos)
    (fun '(a', pos) => 0 <= pos < m /\ length a' = length a /\
      rearranged m v0 (<[Z.to_nat pos := p]> a') /\ heap_from hge (<[Z.to_nat pos := p]> a') 0 m)
    as ([a' pos] & -> & ?); [| | |by exists a', pos].
  - intros [a' pos] (Hpos & Hlen & Hre & Hup). destruct (0 <? pos) eqn:E; zbool.
    2:{ split_and!; try done; try lia. apply heap_up_done with pos; [done|lia]. }
    assert ((pos - 1) `quot` 2 = parent pos) as -> by (unfold parent; apply Z.quot_div_nonneg; lia).
    assert (0 <= parent pos < pos) as Hpar by (unfold parent; lia).
    rewrite rd_at by lia. simpl. destruct (gt p (at_ a' (parent pos))) eqn:Eg.
    + rewrite wr_Some by lia. simpl. split; [|lia]. split; [lia|].
      split; [by rewrite length_insert|]. rewrite hole_swap by lia.
      split; [apply rearranged_swap; rewrite ?length_insert; (done || lia)|].
      apply heap_up_swap; rewrite ?length_insert; [lia|lia| |done].
      rewrite !at_insert by lia. rewrite bool_decide_eq_true_2, bool_decide_eq_false_2 by lia.
      by apply gt_hge.
    + split; [lia|]. split; [done|]. split; [done|]. apply heap_up_done with pos; [done|].
      intros _. rewrite !at_insert by lia. by rewrite bool_decide_eq_false_2, bool_decide_eq_true_2 by lia.
  - split; [lia|]. split; [done|]. split; [by split|]. split.
    + intros j Hj Hne. rewrite !at_insert by (unfold parent; lia).
      rewrite !bool_decide_eq_false_2 by (unfold parent; lia). apply Hh; [lia|unfold parent; lia].
    + intros H0 j Hj Hp. unfold parent in Hp. lia.
  - lia.
Qed.

Lemma heap_insert_room h p :
  heap_ok h -> hsize h < hmax h ->
  exists h', heap_insert h p = Some (h', None) /\ heap_ok h' /\ hmax h' = hmax h /\
    held h' ≡ₚ p :: held h.
Proof.
  intros (Hs & Hl & Hmax & Hh) Hroom. unfold heap_insert. rewrite (proj2 (Z.ltb_lt _ _)) by done.
  destruct (sift_up_spec (ptrs h) (hsize h + 1) p) as (a' & pos & Hrun & Hpos & Hlen & Hre & Hheap);
    [lia|by replace (hsize h + 1 - 1) with (hsize h) by lia|].
  replace (hsize h + 1 - 1) with (hsize h) in Hrun, Hre by lia. rewrite Hrun. simpl.
  rewrite wr_Some by lia. simpl. eexists. split; [done|]. split; [|split; [done|]].
  - split; simpl; [lia|]. by rewrite length_insert, Hlen.
  - unfold held. simpl. rewrite (rearranged_take (hsize h + 1) _ _ ltac:(lia) Hre).
    replace (Z.to_nat (hsize h + 1)) with (S (Z.to_nat (hsize h))) by lia.
    erewrite take_S_r by (apply list_lookup_insert_eq; lia).
    rewrite take_insert_ge by lia. by rewrite <- Permutation_cons_append.
Qed.

(** The child the downward loop moves up, or [pos] when [p] dominates both. *)
Definition child1 b (m pos : Z) p : Z :=
  if (2 * pos + 1 <? m) && gt (at_ b (2 * pos + 1)) p then 2 * pos + 1 else pos.

Definition largest_of b (m pos : Z) p : Z :=
  let l1 := child1 b m pos p in
  if (2 * pos + 2 <? m) && gt (at_ b (2 * pos + 2)) (at_ b l1) then 2 * pos + 2 else l1.

Lemma largest_run b m pos p :
  0 <= pos < m -> m <= Z.of_nat (length b) ->
  (largest ← (if 2 * pos + 1 <? m then
                x ← rd b (2 * pos + 1); Some (if gt x p then 2 * pos + 1 else pos)
              else Some pos);
   if 2 * pos + 2 <? m then
     x ← rd b (2 * pos + 2); y ← rd b largest; Some (if gt x y then 2 * pos + 2 else largest)
   else Some largest) = Some (largest_of b m pos p).
Proof.
  intros Hpos Hm. unfold largest_of, child1. destruct (2 * pos + 1 <? m) eqn:E1; zbool.
  - rewrite (rd_at b (2 * pos + 1)) by lia. simpl.
    destruct (2 * pos + 2 <? m) eqn:E2; zbool; [|done].
    rewrite (rd_at b (2 * pos + 2)) by lia.
    destruct (gt (at_ b (2 * pos + 1)) p); simpl; rewrite rd_at by lia; done.
  - simpl. destruct (2 * pos + 2 <? m) eqn:E2; zbool; [lia|done].
Qed.

Lemma largest_spec b m pos p :
  0 <= pos < m -> at_ b pos = p ->
  let l := largest_of b m pos p in
  (forall j, 0 < j < m -> parent j = pos -> hge (at_ b l) (at_ b j)) /\ hge (at_ b l) p /\
  (l <> pos -> parent l = pos /\ pos < l < m).
Proof.
  intros Hpos Hp l. assert (forall j, parent j = pos -> j = 2 * pos + 1 \/ j = 2 * pos + 2) as Hch
    by (unfold parent; lia).
  assert (hge (at_ b (child1 b m pos p)) p /\ (child1 b m pos p <> pos ->
    child1 b m pos p = 2 * pos + 1 /\ 2 * pos + 1 < m) /\
    (2 * pos + 1 < m -> hge (at_ b (child1 b m pos p)) (at_ b (2 * pos + 1)))) as (H1 & H2 & H3).
  { unfold child1. destruct (2 * pos + 1 <? m) eqn:E1; zbool; simpl; [|rewrite Hp; split_and!; [done|lia..]].
    destruct (gt _ p) eqn:Eg; [split_and!; [by apply gt_hge|done|done]|]. rewrite Hp. split_and!; done. }
  unfold largest_of in l. destruct (2 * pos + 2 <? m) eqn:E2; zbool; simpl in l.
  - destruct (gt _ _) eqn:Eg; subst l.
    + apply gt_hge in Eg. split; [|split; [by etrans|unfold parent; lia]].
      intros j Hj Hpj. destruct (Hch j Hpj) as [->| ->]; [etrans; [done|apply H3; lia]|done].
    + split; [|split; [done|unfold parent; lia]].
      intros j Hj Hpj. destruct (Hch j Hpj) as [->| ->]; [apply H3; lia|done].
  - subst l. split; [|split; [done|unfold parent; lia]].
    intros j Hj Hpj. destruct (Hch j Hpj) as [->| ->]; [apply H3; lia|lia].
Qed.

Lemma sift_down_spec a m p :
  0 < m <= Z.of_nat (length a) -> at_ a 0 = p -> heap_from hge a 1 m ->
  exists a', sift_down a m 0 p = Some a' /\ rearranged m a a' /\ heap_from hge a' 0 m.
Proof.
  intros Hm Hp0 Hh. unfold sift_down.
  loop_with (fun '(b, pos) => 0 <= pos < m /\ at_ b pos = p /\ rearranged m a b /\
      heap_but hge b 0 m pos)
    (fun '(_, pos) => Z.to_nat (m - pos))
    (fun b => rearranged m a b /\ heap_from hge b 0 m) as (b & -> & ?); [| | |by exists b].
  - intros [b pos] (Hpos & Hbp & Hre & Hbut). cbv zeta.
    pose proof Hre as [Hperm _]. pose proof (Permutation_length Hperm) as Hlen.
    pose proof (largest_run b m pos p ltac:(lia) ltac:(lia)) as Hrun.
    destruct (largest_spec b m pos p Hpos Hbp) as (Hmax & Hge & Hl).
    set (l := largest_of b m pos p) in *.
    destruct (if 2 * pos + 1 <? m then _ else _) as [l1|]; [|done]. cbn [mbind option_bind] in *.
    rewrite Hrun. simpl. destruct (l =? pos) eqn:E; zbool.
    + split; [done|]. apply heap_but_done with pos; [done|].
      intros j Hj Hpj. specialize (Hmax j Hj Hpj). by rewrite E in Hmax.
    + destruct (Hl E) as [Hpar Hlm]. rewrite rd_at by lia. simpl. rewrite wr_Some by lia. simpl.
      rewrite wr_Some by (rewrite length_insert; lia). simpl. split; [|lia].
      rewrite hole_swap by lia. rewrite (list_insert_id b) by
        (rewrite <- Hbp; apply list_lookup_lookup_total_lt; lia).
      split; [lia|]. split; [|split].
      * rewrite at_swapped by lia. by rewrite bool_decide_eq_false_2, bool_decide_eq_true_2 by lia.
      * apply rearranged_swap; (done || lia).
      * apply heap_but_swap; try done; try lia. by rewrite Hbp.
  - split; [lia|]. split; [done|]. split; [by split|]. apply heap_but_start; [lia|done].
  - lia.
Qed.

(** A full heap gives up its greatest element, or refuses the new one. *)
Lemma heap_insert_full h p :
  heap_ok h -> hsize h = hmax h -> 0 < hmax h ->
  exists h' x, heap_insert h p = Some (h', Some x) /\ heap_ok h' /\ hmax h' = hmax h /\
    hsize h' = hsize h /\ x :: held h' ≡ₚ p :: held h /\ Forall (hge x) (held h').
Proof.
  intros Hok Hfull Hpos. pose proof Hok as (Hs & Hl & Hmax & Hh).
  unfold heap_insert. rewrite (proj2 (Z.ltb_ge _ _)) by lia. rewrite rd_at by lia. simpl.
  assert (forall h', hsize h' = hmax h -> Z.of_nat (length (ptrs h')) = hmax h -> held h' = ptrs h')
    as Hheld by (intros h' H1 H2; unfold held; rewrite take_ge; [done|lia]).
  assert (Forall (hge (at_ (ptrs h) 0)) (ptrs h)) as Hroot.
  { apply Forall_lookup. intros i y Hy. pose proof (lookup_lt_Some _ _ _ Hy).
    apply list_lookup_total_correct in Hy. subst y. rewrite <- (Nat2Z.id i).
    apply (heap_root hge (ptrs h) (hsize h)); [done|lia]. }
  destruct (gt p (at_ (ptrs h) 0)) eqn:Eg.
  - exists h, p. rewrite Hheld by lia. split_and!; try done. eapply Forall_impl; [|exact Hroot].
    intros y Hy. etrans; [by apply gt_hge|done].
  - rewrite wr_Some by lia. cbn [mbind option_bind].
    destruct (sift_down_spec (<[Z.to_nat 0 := p]> (ptrs h)) (hsize h) p) as (a' & -> & Hre & Hheap).
    + rewrite length_insert. lia.
    + rewrite (at_insert _ 0) by lia. by rewrite bool_decide_eq_true_2.
    + intros j Hj Hp. rewrite !(at_insert _ 0) by (unfold parent in *; lia).
      rewrite !bool_decide_eq_false_2 by (unfold parent in *; lia). apply Hh; [lia|lia].
    + destruct Hre as [Hperm _]. pose proof (Permutation_length Hperm) as Hlen.
      rewrite length_insert in Hlen. simpl. eexists _, _. split; [done|].
      assert (at_ (ptrs h) 0 :: a' ≡ₚ p :: ptrs h) as Hp.
      { rewrite Hperm. apply insert_cons_perm. lia. }
      rewrite !Hheld by (simpl; lia). simpl. split_and!; try done; [split; simpl; [lia|]; split_and!; (lia || done)|].
      assert (Forall (hge (at_ (ptrs h) 0)) (p :: ptrs h)) as Hall by (apply Forall_cons_2; done).
      rewrite <- Hp in Hall. by apply Forall_cons_1 in Hall as [_ ?].
Qed.

End PrioHeap.

(** C30: of the priority heaps for at least one element, one with room takes every new element and returns NULL; a full one keeps the
    [max] smallest of its elements and the new one, and returns an element that none of those it
    keeps exceeds; the heap order is preserved and no access leaves the array. *)
Theorem heap_insert_keeps_smallest `{Inhabited A} (gt : A -> A -> bool) h p :
  StrictWeak gt -> heap_ok gt h -> 0 < hmax h ->
  exists h' r, heap_insert gt h p = Some (h', r) /\ heap_ok gt h' /\ hmax h' = hmax h /\
    match r with
    | None => hsize h < hmax h /\ held h' ≡ₚ p :: held h
    | Some x => hsize h = hmax h /\ x :: held h' ≡ₚ p :: held h /\
        Forall (fun y => gt y x = false) (held h')
    end.
Proof.
  intros Hgt Hok Hmax. pose proof Hok as (Hs & _). destruct (decide (hsize h < hmax h)) as [Hr|Hr].
  - destruct (heap_insert_room gt h p Hok Hr) as (h' & -> & ? & ? & ?). by exists h', None.
  - destruct (heap_insert_full gt h p Hok) as (h' & x & -> & ? & ? & ? & ? & ?); [lia|lia|].
    exists h', (Some x). split_and!; (done || lia).
Qed.

Lemma heap_insert_keeps_smallest_witness :
  exists h', heap_insert Z.gtb (PtrHeap [9; 4; 7] 3 3) 5 = Some (h', Some 9) /\
    9 :: held h' ≡ₚ [5; 9; 4; 7].
Proof.
  destruct (heap_insert_keeps_smallest Z.gtb (PtrHeap [9; 4; 7] 3 3) 5)
    as (h' & r & Hrun & _ & _ & Hr).
  - split; intros *; rewrite ?Z.gtb_ltb; intros; zbool; apply Z.ltb_ge; lia.
  - split; [simpl; lia|]. split; [reflexivity|]. split; [simpl; lia|].
    intros j Hj _. simpl in Hj. assert (j = 1 \/ j = 2) as [-> | ->] by lia; reflexivity.
  - simpl. lia.
  - assert (r = Some 9) as -> by (vm_compute in Hrun; congruence).
    exists h'. split; [exact Hrun|]. apply Hr.
Defined.
