(* ===== verification/Crc.v ===== *)
(** The table-driven CRCs of lib/crc7.c, lib/crc16.c, lib/crc-ccitt.c, lib/crc-itu-t.c and
    lib/crc-t10dif.c, with their tables as in the source, shown equal to bit-at-a-time division
    by the polynomials their comments name. *)

From S2P Require Import Prelude.
From Stdlib Require Import Lia.

(** * The program *)

(** An entry of a 256-entry table, at an index that its caller masks with 0xff. *)
Definition tab (t : list Z) (i : Z) : Z := t !!! Z.to_nat i.

(** [while (len--) crc = byte(crc, *buffer++)] over the first [len] bytes. *)
Definition crc_bytes (byte : Z -> Z -> Z) (crc : Z) (buffer : list Z) (len : Z) : option Z :=
  foreach 0 len (fun i crc => b ← rd buffer i; Some (byte crc b)) crc.

Definition crc7_syndrome_table : list Z := [
  0x00; 0x09; 0x12; 0x1b; 0x24; 0x2d; 0x36; 0x3f;
  0x48; 0x41; 0x5a; 0x53; 0x6c; 0x65; 0x7e; 0x77;
  0x19; 0x10; 0x0b; 0x02; 0x3d; 0x34; 0x2f; 0x26;
  0x51; 0x58; 0x43; 0x4a; 0x75; 0x7c; 0x67; 0x6e;
  0x32; 0x3b; 0x20; 0x29; 0x16; 0x1f; 0x04; 0x0d;
  0x7a; 0x73; 0x68; 0x61; 0x5e; 0x57; 0x4c; 0x45;
  0x2b; 0x22; 0x39; 0x30; 0x0f; 0x06; 0x1d; 0x14;
  0x63; 0x6a; 0x71; 0x78; 0x47; 0x4e; 0x55; 0x5c;
  0x64; 0x6d; 0x76; 0x7f; 0x40; 0x49; 0x52; 0x5b;
  0x2c; 0x25; 0x3e; 0x37; 0x08; 0x01; 0x1a; 0x13;
  0x7d; 0x74; 0x6f; 0x66; 0x59; 0x50; 0x4b; 0x42;
  0x35; 0x3c; 0x27; 0x2e; 0x11; 0x18; 0x03; 0x0a;
  0x56; 0x5f; 0x44; 0x4d; 0x72; 0x7b; 0x60; 0x69;
  0x1e; 0x17; 0x0c; 0x05; 0x3a; 0x33; 0x28; 0x21;
  0x4f; 0x46; 0x5d; 0x54; 0x6b; 0x62; 0x79; 0x70;
  0x07; 0x0e; 0x15; 0x1c; 0x23; 0x2a; 0x31; 0x38;
  0x41; 0x48; 0x53; 0x5a; 0x65; 0x6c; 0x77; 0x7e;
  0x09; 0x00; 0x1b; 0x12; 0x2d; 0x24; 0x3f; 0x36;
  0x58; 0x51; 0x4a; 0x43; 0x7c; 0x75; 0x6e; 0x67;
  0x10; 0x19; 0x02; 0x0b; 0x34; 0x3d; 0x26; 0x2f;
  0x73; 0x7a; 0x61; 0x68; 0x57; 0x5e; 0x45; 0x4c;
  0x3b; 0x32; 0x29; 0x20; 0x1f; 0x16; 0x0d; 0x04;
  0x6a; 0x63; 0x78; 0x71; 0x4e; 0x47; 0x5c; 0x55;
  0x22; 0x2b; 0x30; 0x39; 0x06; 0x0f; 0x14; 0x1d;
  0x25; 0x2c; 0x37; 0x3e; 0x01; 0x08; 0x13; 0x1a;
  0x6d; 0x64; 0x7f; 0x76; 0x49; 0x40; 0x5b; 0x52;
  0x3c; 0x35; 0x2e; 0x27; 0x18; 0x11; 0x0a; 0x03;
  0x74; 0x7d; 0x66; 0x6f; 0x50; 0x59; 0x42; 0x4b;
  0x17; 0x1e; 0x05; 0x0c; 0x33; 0x3a; 0x21; 0x28;
  0x5f; 0x56; 0x4d; 0x44; 0x7b; 0x72; 0x69; 0x60;
  0x0e; 0x07; 0x1c; 0x15; 0x2a; 0x23; 0x38; 0x31;
  0x46; 0x4f; 0x54; 0x5d; 0x62; 0x6b; 0x70; 0x79].

(** The index is not masked: the lookup fails where it leaves the table. *)
Definition crc7_byte (crc data : Z) : option Z :=
  rd crc7_syndrome_table (Z.lxor (Z.shiftl crc 1) data).

Definition crc7 (crc : Z) (buffer : list Z) (len : Z) : option Z :=
  foreach 0 len (fun i crc => b ← rd buffer i; crc7_byte crc b) crc.

Definition crc16_table : list Z := [
  0x0000; 0xC0C1; 0xC181; 0x0140; 0xC301; 0x03C0; 0x0280; 0xC241;
  0xC601; 0x06C0; 0x0780; 0xC741; 0x0500; 0xC5C1; 0xC481; 0x0440;
  0xCC01; 0x0CC0; 0x0D80; 0xCD41; 0x0F00; 0xCFC1; 0xCE81; 0x0E40;
  0x0A00; 0xCAC1; 0xCB81; 0x0B40; 0xC901; 0x09C0; 0x0880; 0xC841;
  0xD801; 0x18C0; 0x1980; 0xD941; 0x1B00; 0xDBC1; 0xDA81; 0x1A40;
  0x1E00; 0xDEC1; 0xDF81; 0x1F40; 0xDD01; 0x1DC0; 0x1C80; 0xDC41;
  0x1400; 0xD4C1; 0xD581; 0x1540; 0xD701; 0x17C0; 0x1680; 0xD641;
  0xD201; 0x12C0; 0x1380; 0xD341; 0x1100; 0xD1C1; 0xD081; 0x1040;
  0xF001; 0x30C0; 0x3180; 0xF141; 0x3300; 0xF3C1; 0xF281; 0x3240;
  0x3600; 0xF6C1; 0xF781; 0x3740; 0xF501; 0x35C0; 0x3480; 0xF441;
  0x3C00; 0xFCC1; 0xFD81; 0x3D40; 0xFF01; 0x3FC0; 0x3E80; 0xFE41;
  0xFA01; 0x3AC0; 0x3B80; 0xFB41; 0x3900; 0xF9C1; 0xF881; 0x3840;
  0x2800; 0xE8C1; 0xE981; 0x2940; 0xEB01; 0x2BC0; 0x2A80; 0xEA41;
  0xEE01; 0x2EC0; 0x2F80; 0xEF41; 0x2D00; 0xEDC1; 0xEC81; 0x2C40;
  0xE401; 0x24C0; 0x2580; 0xE541; 0x2700; 0xE7C1; 0xE681; 0x2640;
  0x2200; 0xE2C1; 0xE381; 0x2340; 0xE101; 0x21C0; 0x2080; 0xE041;
  0xA001; 0x60C0; 0x6180; 0xA141; 0x6300; 0xA3C1; 0xA281; 0x6240;
  0x6600; 0xA6C1; 0xA781; 0x6740; 0xA501; 0x65C0; 0x6480; 0xA441;
  0x6C00; 0xACC1; 0xAD81; 0x6D40; 0xAF01; 0x6FC0; 0x6E80; 0xAE41;
  0xAA01; 0x6AC0; 0x6B80; 0xAB41; 0x6900; 0xA9C1; 0xA881; 0x6840;
  0x7800; 0xB8C1; 0xB981; 0x7940; 0xBB01; 0x7BC0; 0x7A80; 0xBA41;
  0xBE01; 0x7EC0; 0x7F80; 0xBF41; 0x7D00; 0xBDC1; 0xBC81; 0x7C40;
  0xB401; 0x74C0; 0x7580; 0xB541; 0x7700; 0xB7C1; 0xB681; 0x7640;
  0x7200; 0xB2C1; 0xB381; 0x7340; 0xB101; 0x71C0; 0x7080; 0xB041;
  0x5000; 0x90C1; 0x9181; 0x5140; 0x9301; 0x53C0; 0x5280; 0x9241;
  0x9601; 0x56C0; 0x5780; 0x9741; 0x5500; 0x95C1; 0x9481; 0x5440;
  0x9C01; 0x5CC0; 0x5D80; 0x9D41; 0x5F00; 0x9FC1; 0x9E81; 0x5E40;
  0x5A00; 0x9AC1; 0x9B81; 0x5B40; 0x9901; 0x59C0; 0x5880; 0x9841;
  0x8801; 0x48C0; 0x4980; 0x8941; 0x4B00; 0x8BC1; 0x8A81; 0x4A40;
  0x4E00; 0x8EC1; 0x8F81; 0x4F40; 0x8D01; 0x4DC0; 0x4C80; 0x8C41;
  0x4400; 0x84C1; 0x8581; 0x4540; 0x8701; 0x47C0; 0x4680; 0x8641;
  0x8201; 0x42C0; 0x4380; 0x8341; 0x4100; 0x81C1; 0x8081; 0x4040].

Definition crc16_byte (crc data : Z) : Z :=
  Z.lxor (Z.shiftr crc 8) (tab crc16_table (Z.land (Z.lxor crc data) 0xff)).

Definition crc16 (crc : Z) (buffer : list Z) (len : Z) : option Z :=
  crc_bytes crc16_byte crc buffer len.

Definition crc_ccitt_table : list Z := [
  0x0000; 0x1189; 0x2312; 0x329b; 0x4624; 0x57ad; 0x6536; 0x74bf;
  0x8c48; 0x9dc1; 0xaf5a; 0xbed3; 0xca6c; 0xdbe5; 0xe97e; 0xf8f7;
  0x1081; 0x0108; 0x3393; 0x221a; 0x56a5; 0x472c; 0x75b7; 0x643e;
  0x9cc9; 0x8d40; 0xbfdb; 0xae52; 0xdaed; 0xcb64; 0xf9ff; 0xe876;
  0x2102; 0x308b; 0x0210; 0x1399; 0x6726; 0x76af; 0x4434; 0x55bd;
  0xad4a; 0xbcc3; 0x8e58; 0x9fd1; 0xeb6e; 0xfae7; 0xc87c; 0xd9f5;
  0x3183; 0x200a; 0x1291; 0x0318; 0x77a7; 0x662e; 0x54b5; 0x453c;
  0xbdcb; 0xac42; 0x9ed9; 0x8f50; 0xfbef; 0xea66; 0xd8fd; 0xc974;
  0x4204; 0x538d; 0x6116; 0x709f; 0x0420; 0x15a9; 0x2732; 0x36bb;
  0xce4c; 0xdfc5; 0xed5e; 0xfcd7; 0x8868; 0x99e1; 0xab7a; 0xbaf3;
  0x5285; 0x430c; 0x7197; 0x601e; 0x14a1; 0x0528; 0x37b3; 0x263a;
  0xdecd; 0xcf44; 0xfddf; 0xec56; 0x98e9; 0x8960; 0xbbfb; 0xaa72;
  0x6306; 0x728f; 0x4014; 0x519d; 0x2522; 0x34ab; 0x0630; 0x17b9;
  0xef4e; 0xfec7; 0xcc5c; 0xddd5; 0xa96a; 0xb8e3; 0x8a78; 0x9bf1;
  0x7387; 0x620e; 0x5095; 0x411c; 0x35a3; 0x242a; 0x16b1; 0x0738;
  0xffcf; 0xee46; 0xdcdd; 0xcd54; 0xb9eb; 0xa862; 0x9af9; 0x8b70;
  0x8408; 0x9581; 0xa71a; 0xb693; 0xc22c; 0xd3a5; 0xe13e; 0xf0b7;
  0x0840; 0x19c9; 0x2b52; 0x3adb; 0x4e64; 0x5fed; 0x6d76; 0x7cff;
  0x9489; 0x8500; 0xb79b; 0xa612; 0xd2ad; 0xc324; 0xf1bf; 0xe036;
  0x18c1; 0x0948; 0x3bd3; 0x2a5a; 0x5ee5; 0x4f6c; 0x7df7; 0x6c7e;
  0xa50a; 0xb483; 0x8618; 0x9791; 0xe32e; 0xf2a7; 0xc03c; 0xd1b5;
  0x2942; 0x38cb; 0x0a50; 0x1bd9; 0x6f66; 0x7eef; 0x4c74; 0x5dfd;
  0xb58b; 0xa402; 0x9699; 0x8710; 0xf3af; 0xe226; 0xd0bd; 0xc134;
  0x39c3; 0x284a; 0x1ad1; 0x0b58; 0x7fe7; 0x6e6e; 0x5cf5; 0x4d7c;
  0xc60c; 0xd785; 0xe51e; 0xf497; 0x8028; 0x91a1; 0xa33a; 0xb2b3;
  0x4a44; 0x5bcd; 0x6956; 0x78df; 0x0c60; 0x1de9; 0x2f72; 0x3efb;
  0xd68d; 0xc704; 0xf59f; 0xe416; 0x90a9; 0x8120; 0xb3bb; 0xa232;
  0x5ac5; 0x4b4c; 0x79d7; 0x685e; 0x1ce1; 0x0d68; 0x3ff3; 0x2e7a;
  0xe70e; 0xf687; 0xc41c; 0xd595; 0xa12a; 0xb0a3; 0x8238; 0x93b1;
  0x6b46; 0x7acf; 0x4854; 0x59dd; 0x2d62; 0x3ceb; 0x0e70; 0x1ff9;
  0xf78f; 0xe606; 0xd49d; 0xc514; 0xb1ab; 0xa022; 0x92b9; 0x8330;
  0x7bc7; 0x6a4e; 0x58d5; 0x495c; 0x3de3; 0x2c6a; 0x1ef1; 0x0f78].

Definition crc_ccitt_byte (crc c : Z) : Z :=
  Z.lxor (Z.shiftr crc 8) (tab crc_ccitt_table (Z.land (Z.lxor crc c) 0xff)).

Definition crc_ccitt (crc : Z) (buffer : list Z) (len : Z) : option Z :=
  crc_bytes crc_ccitt_byte crc buffer len.

Definition crc_itu_t_table : list Z := [
  0x0000; 0x1021; 0x2042; 0x3063; 0x4084; 0x50a5; 0x60c6; 0x70e7;
  0x8108; 0x9129; 0xa14a; 0xb16b; 0xc18c; 0xd1ad; 0xe1ce; 0xf1ef;
  0x1231; 0x0210; 0x3273; 0x2252; 0x52b5; 0x4294; 0x72f7; 0x62d6;
  0x9339; 0x8318; 0xb37b; 0xa35a; 0xd3bd; 0xc39c; 0xf3ff; 0xe3de;
  0x2462; 0x3443; 0x0420; 0x1401; 0x64e6; 0x74c7; 0x44a4; 0x5485;
  0xa56a; 0xb54b; 0x8528; 0x9509; 0xe5ee; 0xf5cf; 0xc5ac; 0xd58d;
  0x3653; 0x2672; 0x1611; 0x0630; 0x76d7; 0x66f6; 0x5695; 0x46b4;
  0xb75b; 0xa77a; 0x9719; 0x8738; 0xf7df; 0xe7fe; 0xd79d; 0xc7bc;
  0x48c4; 0x58e5; 0x6886; 0x78a7; 0x0840; 0x1861; 0x2802; 0x3823;
  0xc9cc; 0xd9ed; 0xe98e; 0xf9af; 0x8948; 0x9969; 0xa90a; 0xb92b;
  0x5af5; 0x4ad4; 0x7ab7; 0x6a96; 0x1a71; 0x0a50; 0x3a33; 0x2a12;
  0xdbfd; 0xcbdc; 0xfbbf; 0xeb9e; 0x9b79; 0x8b58; 0xbb3b; 0xab1a;
  0x6ca6; 0x7c87; 0x4ce4; 0x5cc5; 0x2c22; 0x3c03; 0x0c60; 0x1c41;
  0xedae; 0xfd8f; 0xcdec; 0xddcd; 0xad2a; 0xbd0b; 0x8d68; 0x9d49;
  0x7e97; 0x6eb6; 0x5ed5; 0x4ef4; 0x3e13; 0x2e32; 0x1e51; 0x0e70;
  0xff9f; 0xefbe; 0xdfdd; 0xcffc; 0xbf1b; 0xaf3a; 0x9f59; 0x8f78;
  0x9188; 0x81a9; 0xb1ca; 0xa1eb; 0xd10c; 0xc12d; 0xf14e; 0xe16f;
  0x1080; 0x00a1; 0x30c2; 0x20e3; 0x5004; 0x4025; 0x7046; 0x6067;
  0x83b9; 0x9398; 0xa3fb; 0xb3da; 0xc33d; 0xd31c; 0xe37f; 0xf35e;
  0x02b1; 0x1290; 0x22f3; 0x32d2; 0x4235; 0x5214; 0x6277; 0x7256;
  0xb5ea; 0xa5cb; 0x95a8; 0x8589; 0xf56e; 0xe54f; 0xd52c; 0xc50d;
  0x34e2; 0x24c3; 0x14a0; 0x0481; 0x7466; 0x6447; 0x5424; 0x4405;
  0xa7db; 0xb7fa; 0x8799; 0x97b8; 0xe75f; 0xf77e; 0xc71d; 0xd73c;
  0x26d3; 0x36f2; 0x0691; 0x16b0; 0x6657; 0x7676; 0x4615; 0x5634;
  0xd94c; 0xc96d; 0xf90e; 0xe92f; 0x99c8; 0x89e9; 0xb98a; 0xa9ab;
  0x5844; 0x4865; 0x7806; 0x6827; 0x18c0; 0x08e1; 0x3882; 0x28a3;
  0xcb7d; 0xdb5c; 0xeb3f; 0xfb1e; 0x8bf9; 0x9bd8; 0xabbb; 0xbb9a;
  0x4a75; 0x5a54; 0x6a37; 0x7a16; 0x0af1; 0x1ad0; 0x2ab3; 0x3a92;
  0xfd2e; 0xed0f; 0xdd6c; 0xcd4d; 0xbdaa; 0xad8b; 0x9de8; 0x8dc9;
  0x7c26; 0x6c07; 0x5c64; 0x4c45; 0x3ca2; 0x2c83; 0x1ce0; 0x0cc1;
  0xef1f; 0xff3e; 0xcf5d; 0xdf7c; 0xaf9b; 0xbfba; 0x8fd9; 0x9ff8;
  0x6e17; 0x7e36; 0x4e55; 0x5e74; 0x2e93; 0x3eb2; 0x0ed1; 0x1ef0].

Definition crc_itu_t_byte (crc data : Z) : Z :=
  u16 (Z.lxor (Z.shiftl crc 8)
              (tab crc_itu_t_table (Z.land (Z.lxor (Z.shiftr crc 8) data) 0xff))).

Definition crc_itu_t (crc : Z) (buffer : list Z) (len : Z) : option Z :=
  crc_bytes crc_itu_t_byte crc buffer len.

Definition t10_dif_crc_table : list Z := [
  0x0000; 0x8BB7; 0x9CD9; 0x176E; 0xB205; 0x39B2; 0x2EDC; 0xA56B;
  0xEFBD; 0x640A; 0x7364; 0xF8D3; 0x5DB8; 0xD60F; 0xC161; 0x4AD6;
  0x54CD; 0xDF7A; 0xC814; 0x43A3; 0xE6C8; 0x6D7F; 0x7A11; 0xF1A6;
  0xBB70; 0x30C7; 0x27A9; 0xAC1E; 0x0975; 0x82C2; 0x95AC; 0x1E1B;
  0xA99A; 0x222D; 0x3543; 0xBEF4; 0x1B9F; 0x9028; 0x8746; 0x0CF1;
  0x4627; 0xCD90; 0xDAFE; 0x5149; 0xF422; 0x7F95; 0x68FB; 0xE34C;
  0xFD57; 0x76E0; 0x618E; 0xEA39; 0x4F52; 0xC4E5; 0xD38B; 0x583C;
  0x12EA; 0x995D; 0x8E33; 0x0584; 0xA0EF; 0x2B58; 0x3C36; 0xB781;
  0xD883; 0x5334; 0x445A; 0xCFED; 0x6A86; 0xE131; 0xF65F; 0x7DE8;
  0x373E; 0xBC89; 0xABE7; 0x2050; 0x853B; 0x0E8C; 0x19E2; 0x9255;
  0x8C4E; 0x07F9; 0x1097; 0x9B20; 0x3E4B; 0xB5FC; 0xA292; 0x2925;
  0x63F3; 0xE844; 0xFF2A; 0x749D; 0xD1F6; 0x5A41; 0x4D2F; 0xC698;
  0x7119; 0xFAAE; 0xEDC0; 0x6677; 0xC31C; 0x48AB; 0x5FC5; 0xD472;
  0x9EA4; 0x1513; 0x027D; 0x89CA; 0x2CA1; 0xA716; 0xB078; 0x3BCF;
  0x25D4; 0xAE63; 0xB90D; 0x32BA; 0x97D1; 0x1C66; 0x0B08; 0x80BF;
  0xCA69; 0x41DE; 0x56B0; 0xDD07; 0x786C; 0xF3DB; 0xE4B5; 0x6F02;
  0x3AB1; 0xB106; 0xA668; 0x2DDF; 0x88B4; 0x0303; 0x146D; 0x9FDA;
  0xD50C; 0x5EBB; 0x49D5; 0xC262; 0x6709; 0xECBE; 0xFBD0; 0x7067;
  0x6E7C; 0xE5CB; 0xF2A5; 0x7912; 0xDC79; 0x57CE; 0x40A0; 0xCB17;
  0x81C1; 0x0A76; 0x1D18; 0x96AF; 0x33C4; 0xB873; 0xAF1D; 0x24AA;
  0x932B; 0x189C; 0x0FF2; 0x8445; 0x212E; 0xAA99; 0xBDF7; 0x3640;
  0x7C96; 0xF721; 0xE04F; 0x6BF8; 0xCE93; 0x4524; 0x524A; 0xD9FD;
  0xC7E6; 0x4C51; 0x5B3F; 0xD088; 0x75E3; 0xFE54; 0xE93A; 0x628D;
  0x285B; 0xA3EC; 0xB482; 0x3F35; 0x9A5E; 0x11E9; 0x0687; 0x8D30;
  0xE232; 0x6985; 0x7EEB; 0xF55C; 0x5037; 0xDB80; 0xCCEE; 0x4759;
  0x0D8F; 0x8638; 0x9156; 0x1AE1; 0xBF8A; 0x343D; 0x2353; 0xA8E4;
  0xB6FF; 0x3D48; 0x2A26; 0xA191; 0x04FA; 0x8F4D; 0x9823; 0x1394;
  0x5942; 0xD2F5; 0xC59B; 0x4E2C; 0xEB47; 0x60F0; 0x779E; 0xFC29;
  0x4BA8; 0xC01F; 0xD771; 0x5CC6; 0xF9AD; 0x721A; 0x6574; 0xEEC3;
  0xA415; 0x2FA2; 0x38CC; 0xB37B; 0x1610; 0x9DA7; 0x8AC9; 0x017E;
  0x1F65; 0x94D2; 0x83BC; 0x080B; 0xAD60; 0x26D7; 0x31B9; 0xBA0E;
  0xF0D8; 0x7B6F; 0x6C01; 0xE7B6; 0x42DD; 0xC96A; 0xDE04; 0x55B3].

Definition crc_t10dif (buffer : list Z) (len : Z) : option Z :=
  foreach 0 len (fun i crc =>
    b ← rd buffer i;
    Some (u16 (Z.lxor (Z.shiftl crc 8)
                      (tab t10_dif_crc_table (Z.land (Z.lxor (Z.shiftr crc 8) b) 0xff))))) 0.

(** * Division of polynomials over GF(2), one bit at a time *)

(** Least significant bit first: [poly] is the reflected polynomial. *)
Definition step_le (poly x : Z) : Z :=
  Z.lxor (Z.shiftr x 1) (if Z.land x 1 =? 0 then 0 else poly).

(** Most significant bit first, in [w] bits. *)
Definition step_be (w poly x : Z) : Z :=
  Z.lxor (Z.shiftl x 1 mod 2 ^ w) (if Z.testbit x (w - 1) then poly else 0).

(** A byte enters at the low (reflected) or the high end of the register. *)
Definition byte_le (poly crc b : Z) : Z := Nat.iter 8 (step_le poly) (Z.lxor crc b).

Definition byte_be (w poly crc b : Z) : Z :=
  Nat.iter 8 (step_be w poly) (Z.lxor crc (Z.shiftl b (w - 8))).

(** The 7-bit register of CRC-7, fed one bit of the message at a time. *)
Definition step7 (crc : Z) (bit : bool) : Z :=
  Z.lxor (Z.land (Z.shiftl crc 1) 0x7f) (if xorb (Z.testbit crc 6) bit then 0x09 else 0).

Definition byte7 (crc b : Z) : Z :=
  fold_left (fun c i => step7 c (Z.testbit b i)) [7; 6; 5; 4; 3; 2; 1; 0] crc.

(** * Linearity *)

Lemma land_1_testbit x : (Z.land x 1 =? 0) = negb (Z.testbit x 0).
Proof.
  change 1 with (Z.ones 1). rewrite Z.land_ones by lia. change (2 ^ 1) with 2.
  rewrite Zmod_odd, Z.bit0_odd. by destruct (Z.odd x).
Qed.

Lemma step_le_lxor poly x y :
  step_le poly (Z.lxor x y) = Z.lxor (step_le poly x) (step_le poly y).
Proof.
  unfold step_le. rewrite !land_1_testbit, Z.lxor_spec, Z.shiftr_lxor.
  destruct (Z.testbit x 0), (Z.testbit y 0); simpl; apply Z.bits_inj'; intros n Hn;
    rewrite !Z.lxor_spec, ?Z.bits_0;
    destruct (Z.testbit (Z.shiftr x 1) n), (Z.testbit (Z.shiftr y 1) n), (Z.testbit poly n); done.
Qed.

Lemma iter_lxor (f : Z -> Z) n x y :
  (forall x y, f (Z.lxor x y) = Z.lxor (f x) (f y)) ->
  Nat.iter n f (Z.lxor x y) = Z.lxor (Nat.iter n f x) (Nat.iter n f y).
Proof. intros Hf. induction n as [|n IH]; simpl; [done|]. by rewrite IH, Hf. Qed.

Lemma step_le_shiftl poly n y :
  Nat.iter n (step_le poly) (Z.shiftl y (Z.of_nat n)) = y.
Proof.
  revert y. induction n as [|n IH]; intros y; [by rewrite Z.shiftl_0_r|].
  rewrite Nat.iter_succ_r. unfold step_le at 2. rewrite land_1_testbit.
  rewrite Z.shiftl_spec_low by lia. simpl. rewrite Z.lxor_0_r.
  rewrite Z.shiftr_shiftl_l by lia. replace (Z.of_nat (S n) - 1) with (Z.of_nat n) by lia. apply IH.
Qed.

(** Eight steps of a register are one lookup of its low byte. *)
Lemma iter8_le poly x :
  Nat.iter 8 (step_le poly) x =
  Z.lxor (Z.shiftr x 8) (Nat.iter 8 (step_le poly) (Z.land x 0xff)).
Proof.
  rewrite <- (step_le_shiftl poly 8 (Z.shiftr x 8)).
  rewrite <- iter_lxor by apply step_le_lxor. f_equal.
  apply Z.bits_inj'. intros n Hn. change (Z.of_nat 8) with 8. change 0xff with (Z.ones 8).
  rewrite Z.lxor_spec, Z.land_spec. destruct (decide (n < 8)).
  - rewrite Z.shiftl_spec_low, Z.ones_spec_low by lia. by rewrite andb_true_r.
  - rewrite Z.shiftl_spec_high, Z.shiftr_spec, Z.ones_spec_high by lia.
    rewrite andb_false_r, xorb_false_r. f_equal. lia.
Qed.

Lemma lxor_mod_pow2 w a b :
  0 <= w -> Z.lxor a b mod 2 ^ w = Z.lxor (a mod 2 ^ w) (b mod 2 ^ w).
Proof.
  intros Hw. rewrite <- !Z.land_ones by lia. apply Z.bits_inj'. intros i Hi.
  rewrite ?Z.land_spec, ?Z.lxor_spec, ?Z.land_spec.
  by destruct (Z.testbit a i), (Z.testbit b i), (Z.testbit (Z.ones w) i).
Qed.

Lemma step_be_lxor w poly x y :
  0 <= w -> step_be w poly (Z.lxor x y) = Z.lxor (step_be w poly x) (step_be w poly y).
Proof.
  intros Hw. unfold step_be. rewrite Z.lxor_spec, Z.shiftl_lxor, lxor_mod_pow2 by done.
  set (a := Z.shiftl x 1 mod 2 ^ w). set (b := Z.shiftl y 1 mod 2 ^ w).
  destruct (Z.testbit x (w - 1)), (Z.testbit y (w - 1)); simpl; apply Z.bits_inj'; intros i Hi;
    rewrite !Z.lxor_spec, ?Z.bits_0;
    destruct (Z.testbit a i), (Z.testbit b i), (Z.testbit poly i); done.
Qed.

(** Below the top [n] bits a register only shifts. *)
Lemma step_be_low w poly n y :
  Z.of_nat n <= w -> 0 <= y < 2 ^ (w - Z.of_nat n) ->
  Nat.iter n (step_be w poly) y = Z.shiftl y (Z.of_nat n).
Proof.
  revert y. induction n as [|n IH]; intros y Hn Hy; [by rewrite Z.shiftl_0_r|].
  assert (2 ^ (w - Z.of_nat n) = 2 * 2 ^ (w - Z.of_nat (S n))) as Hpow.
  { replace (w - Z.of_nat n) with (Z.succ (w - Z.of_nat (S n))) by lia. apply Z.pow_succ_r. lia. }
  assert (2 ^ (w - Z.of_nat n) <= 2 ^ w) by (apply Z.pow_le_mono_r; lia).
  rewrite Nat.iter_succ_r. assert (step_be w poly y = 2 * y) as ->.
  { unfold step_be. rewrite Z.shiftl_mul_pow2 by lia. change (2 ^ 1) with 2.
    rewrite Z.mod_small by lia.
    assert (Z.testbit y (w - 1) = false) as ->; [|rewrite Z.lxor_0_r; lia].
    rewrite <- (Z.mod_small y (2 ^ (w - Z.of_nat (S n)))) by lia.
    apply Z.mod_pow2_bits_high. lia. }
  rewrite IH by lia. rewrite !Z.shiftl_mul_pow2 by lia.
  replace (Z.of_nat (S n)) with (Z.succ (Z.of_nat n)) by lia. rewrite Z.pow_succ_r by lia. lia.
Qed.

Lemma split_high w x :
  8 <= w -> x = Z.lxor (x mod 2 ^ (w - 8)) (Z.shiftl (Z.shiftr x (w - 8)) (w - 8)).
Proof.
  intros Hw. apply Z.bits_inj'. intros n Hn. rewrite Z.lxor_spec, Z.shiftl_spec by lia.
  destruct (decide (n < w - 8)).
  - rewrite Z.mod_pow2_bits_low by lia. rewrite Z.testbit_neg_r with (n := n - (w - 8)) by lia.
    by rewrite xorb_false_r.
  - rewrite Z.mod_pow2_bits_high, Z.shiftr_spec by lia. rewrite xorb_false_l. f_equal. lia.
Qed.

(** Eight steps of a register are one lookup of its high byte. *)
Lemma iter8_be w poly x :
  8 <= w -> 0 <= x ->
  Nat.iter 8 (step_be w poly) x =
  Z.lxor (Z.shiftl x 8 mod 2 ^ w)
         (Nat.iter 8 (step_be w poly) (Z.shiftl (Z.shiftr x (w - 8)) (w - 8))).
Proof.
  intros Hw Hx. rewrite (split_high w x) at 1 by done.
  rewrite iter_lxor by (intros; apply step_be_lxor; lia). f_equal.
  pose proof (Z.mod_pos_bound x (2 ^ (w - 8)) ltac:(apply Z.pow_pos_nonneg; lia)).
  rewrite step_be_low by (simpl; lia). change (Z.of_nat 8) with 8.
  rewrite !Z.shiftl_mul_pow2 by lia. replace w with (w - 8 + 8) at 2 by lia.
  rewrite Z.pow_add_r by lia. rewrite Z.mul_mod_distr_r by lia. done.
Qed.

(** * The tables *)

Definition le_table (poly : Z) (t : list Z) : bool :=
  all_below 256 (fun i => tab t i =? Nat.iter 8 (step_le poly) i).

Definition be_table (w poly : Z) (t : list Z) : bool :=
  all_below 256 (fun i => (tab t i =? Nat.iter 8 (step_be w poly) (Z.shiftl i (w - 8))) &&
                          (0 <=? tab t i) && (tab t i <? 2 ^ w)).

Lemma le_table_spec poly t i :
  le_table poly t = true -> 0 <= i < 256 -> tab t i = Nat.iter 8 (step_le poly) i.
Proof. intros H Hi. apply Z.eqb_eq. exact (all_below_spec 256 _ H i Hi). Qed.

Lemma be_table_spec w poly t i :
  be_table w poly t = true -> 0 <= i < 256 ->
  tab t i = Nat.iter 8 (step_be w poly) (Z.shiftl i (w - 8)) /\ 0 <= tab t i < 2 ^ w.
Proof. intros H Hi. pose proof (all_below_spec 256 _ H i Hi) as Hc. cbv beta in Hc. zbool. lia. Qed.

Lemma crc16_table_ok : le_table 0xa001 crc16_table = true.
Proof. vm_compute. reflexivity. Qed.

Lemma crc_ccitt_table_ok : le_table 0x8408 crc_ccitt_table = true.
Proof. vm_compute. reflexivity. Qed.

Lemma crc_itu_t_table_ok : be_table 16 0x1021 crc_itu_t_table = true.
Proof. vm_compute. reflexivity. Qed.

Lemma t10_dif_crc_table_ok : be_table 16 0x8bb7 t10_dif_crc_table = true.
Proof. vm_compute. reflexivity. Qed.

Lemma crc7_table_ok :
  all_below 128 (fun crc => all_below 256 (fun b =>
    bool_decide (crc7_byte crc b = Some (byte7 crc b)) && (0 <=? byte7 crc b) && (byte7 crc b <? 128))) = true.
Proof. vm_compute. reflexivity. Qed.

(** A register of more than seven bits makes the lookup leave the table. *)
Lemma crc7_table_left :
  all_below 128 (fun k => all_below 256 (fun b => bool_decide (crc7_byte (128 + k) b = None))) = true.
Proof. vm_compute. reflexivity. Qed.

(** * One byte *)

Lemma land_ff x : 0 <= Z.land x 0xff < 256.
Proof. change 0xff with (Z.ones 8). rewrite Z.land_ones by lia. apply Z.mod_pos_bound. lia. Qed.

Lemma table_byte_le poly t crc b :
  le_table poly t = true -> is_byte b ->
  Z.lxor (Z.shiftr crc 8) (tab t (Z.land (Z.lxor crc b) 0xff)) = byte_le poly crc b.
Proof.
  intros Ht Hb. unfold byte_le. rewrite iter8_le.
  rewrite (le_table_spec poly t _ Ht (land_ff _)). f_equal.
  rewrite Z.shiftr_lxor. assert (Z.shiftr b 8 = 0) as ->; [|by rewrite Z.lxor_0_r].
  rewrite Z.shiftr_div_pow2 by lia. apply Z.div_small. exact Hb.
Qed.

Lemma table_byte_be16 poly t crc b :
  be_table 16 poly t = true -> 0 <= crc < 65536 -> is_byte b ->
  u16 (Z.lxor (Z.shiftl crc 8) (tab t (Z.land (Z.lxor (Z.shiftr crc 8) b) 0xff))) =
  byte_be 16 poly crc b.
Proof.
  intros Ht Hc Hb. unfold byte_be. pose proof Hb as [Hb0 Hb1].
  assert (0 <= Z.shiftl b 8 < 65536) by (rewrite Z.shiftl_mul_pow2 by lia; lia).
  change (16 - 8) with 8. rewrite iter8_be; [|lia|apply Z.lxor_nonneg; split; lia]. change (16 - 8) with 8.
  assert (Z.land (Z.lxor (Z.shiftr crc 8) b) 0xff = Z.shiftr (Z.lxor crc (Z.shiftl b 8)) 8) as ->.
  { rewrite Z.shiftr_lxor, Z.shiftr_shiftl_l, Z.shiftl_0_r by lia.
    change 0xff with (Z.ones 8). rewrite Z.land_ones, lxor_mod_pow2 by lia.
    rewrite !Z.mod_small by (rewrite ?Z.shiftr_div_pow2 by lia; lia). done. }
  assert (0 <= Z.shiftr (Z.lxor crc (Z.shiftl b 8)) 8 < 256) as Hi.
  { rewrite Z.shiftr_lxor, Z.shiftr_shiftl_l, Z.shiftl_0_r by lia.
    rewrite <- (Z.mod_small (Z.shiftr crc 8) (2 ^ 8)) by (rewrite Z.shiftr_div_pow2 by lia; lia).
    rewrite <- (Z.mod_small b (2 ^ 8)) by lia. rewrite <- lxor_mod_pow2 by lia.
    apply Z.mod_pos_bound. lia. }
  destruct (be_table_spec 16 poly t _ Ht Hi) as [Hv Hr]. change (16 - 8) with 8. unfold u16.
  change 65536 with (2 ^ 16). rewrite lxor_mod_pow2 by lia.
  rewrite (Z.mod_small (tab t _)) by done. rewrite Hv. f_equal.
  rewrite Z.shiftl_lxor, lxor_mod_pow2 by lia. rewrite Z.shiftl_shiftl by lia.
  rewrite (Z.shiftl_mul_pow2 b) by lia. change (8 + 8) with 16. rewrite Z.mod_mul by lia.
  by rewrite Z.lxor_0_r.
Qed.

(** * Whole buffers *)

(** A loop whose byte function agrees with [g] on a set of register values that [g] stays in. *)
Lemma crc_loop_spec (Inv : Z -> Prop) (f : Z -> Z -> option Z) (g : Z -> Z -> Z) crc buffer :
  (forall c b, Inv c -> is_byte b -> f c b = Some (g c b) /\ Inv (g c b)) ->
  Inv crc -> Forall is_byte buffer ->
  foreach 0 (Z.of_nat (length buffer)) (fun i crc => b ← rd buffer i; f crc b) crc = Some (fold_left g buffer crc).
Proof.
  intros Hfg Hc Hb.
  destruct (foreach_rule (fun k c => c = fold_left g (take (Z.to_nat k) buffer) crc /\ Inv c)
    (fun i crc => b ← rd buffer i; f crc b) 0 (Z.of_nat (length buffer)) crc)
    as (c & -> & -> & _); [lia| |done|].
  - intros k c Hk [-> HI]. destruct (rd_Some buffer k) as [b Hrd]; [lia|]. rewrite Hrd. simpl.
    pose proof (rd_Forall _ _ _ _ Hb Hrd) as Hbyte. destruct (Hfg _ _ HI Hbyte) as [-> HI'].
    eexists. split; [done|]. split; [|done]. apply rd_inv in Hrd as [_ Hrd].
    replace (Z.to_nat (k + 1)) with (S (Z.to_nat k)) by lia.
    by rewrite (take_S_r _ _ _ Hrd), fold_left_app.
  - by rewrite Nat2Z.id, firstn_all.
Qed.

Lemma crc_bytes_spec (Inv : Z -> Prop) (f g : Z -> Z -> Z) crc buffer :
  (forall c b, Inv c -> is_byte b -> f c b = g c b /\ Inv (g c b)) ->
  Inv crc -> Forall is_byte buffer ->
  crc_bytes f crc buffer (Z.of_nat (length buffer)) = Some (fold_left g buffer crc).
Proof.
  intros Hfg. apply (crc_loop_spec Inv (fun c b => Some (f c b)) g).
  intros c b HI Hb. by destruct (Hfg c b HI Hb) as [-> ?].
Qed.

Lemma byte_be_range w poly crc b :
  8 <= w -> 0 <= poly < 2 ^ w -> 0 <= byte_be w poly crc b < 2 ^ w.
Proof.
  intros Hw Hp. unfold byte_be. rewrite Nat.iter_succ. generalize (Nat.iter 7 (step_be w poly)
    (Z.lxor crc (Z.shiftl b (w - 8)))). intros x. unfold step_be.
  assert (0 < 2 ^ w) by (apply Z.pow_pos_nonneg; lia).
  rewrite <- (Z.mod_small (if Z.testbit x (w - 1) then poly else 0) (2 ^ w)) by (destruct (Z.testbit _ _); lia).
  rewrite <- lxor_mod_pow2 by lia. apply Z.mod_pos_bound. lia.
Qed.

(** C37: each table-driven CRC computes, for every buffer, the bit-at-a-time remainder modulo its
    polynomial: CRC-7 by x^7+x^3+1 for every seed of seven bits, CRC-16 by x^16+x^15+x^2+1 and CRC-CCITT by
    x^16+x^12+x^5+1 least significant bit first and CRC ITU-T by x^16+x^12+x^5+1 most significant bit first
    for every 16-bit seed, T10 DIF by 0x18bb7 most significant bit first. A seed of CRC-7 with the top bit
    of its byte set (128 to 255) makes the first byte read past the end of the table; the register
    itself never gets there from a seed of seven bits. *)
Theorem crc_tables_divide buffer :
  Forall is_byte buffer ->
  let len := Z.of_nat (length buffer) in
  (forall crc, 0 <= crc < 128 ->
     crc7 crc buffer len = Some (fold_left byte7 buffer crc) /\ 0 <= fold_left byte7 buffer crc < 128) /\
  (forall crc, 128 <= crc < 256 -> buffer <> [] -> crc7 crc buffer len = None) /\
  (forall crc, 0 <= crc < 65536 -> crc16 crc buffer len = Some (fold_left (byte_le 0xa001) buffer crc)) /\
  (forall crc, 0 <= crc < 65536 -> crc_ccitt crc buffer len = Some (fold_left (byte_le 0x8408) buffer crc)) /\
  (forall crc, 0 <= crc < 65536 ->
     crc_itu_t crc buffer len = Some (fold_left (byte_be 16 0x1021) buffer crc)) /\
  crc_t10dif buffer len = Some (fold_left (byte_be 16 0x8bb7) buffer 0).
Proof.
  intros Hb len.
  assert (forall c b, 0 <= c < 128 -> is_byte b -> crc7_byte c b = Some (byte7 c b) /\ 0 <= byte7 c b < 128) as H7.
  { intros c b Hcr Hbyte.
    pose proof (all_below_spec 256 _ (all_below_spec 128 _ crc7_table_ok c Hcr) b Hbyte) as H.
    cbv beta in H. apply andb_true_iff in H as [H ?]. apply andb_true_iff in H as [H ?].
    apply bool_decide_eq_true in H. zbool. done. }
  split_and!.
  - intros crc Hc. split; [by apply (crc_loop_spec (fun c => 0 <= c < 128))|].
    clear len. revert crc Hc. induction Hb as [|b l Hbyte _ IH]; intros crc Hc; [done|]. simpl. by apply IH, H7.
  - intros crc Hc Hne. destruct Hb as [|b l Hbyte _]; [done|]. unfold crc7, len.
    replace (Z.of_nat (length (b :: l))) with (Z.succ (Z.of_nat (length l))) by (simpl; lia).
    pose proof (all_below_spec 256 _ (all_below_spec 128 _ crc7_table_left (crc - 128) ltac:(lia)) b Hbyte) as H.
    cbv beta in H. apply bool_decide_eq_true in H. replace (128 + (crc - 128)) with crc in H by lia.
    unfold foreach. rewrite Z.sub_0_r, Z2Nat.inj_succ by lia. rewrite foreach_up_S.
    change (rd (b :: l) 0) with (Some b). cbn [mbind option_bind]. by rewrite H.
  - intros crc _. apply (crc_bytes_spec (fun _ => True)); [|done|done].
    intros c b _ Hbyte. split; [|done]. apply table_byte_le; [apply crc16_table_ok|done].
  - intros crc _. apply (crc_bytes_spec (fun _ => True)); [|done|done].
    intros c b _ Hbyte. split; [|done]. apply table_byte_le; [apply crc_ccitt_table_ok|done].
  - intros crc Hc. apply (crc_bytes_spec (fun c => 0 <= c < 65536)); [|done|done].
    intros c b Hcr Hbyte. split; [|by apply (byte_be_range 16)].
    apply table_byte_be16; [apply crc_itu_t_table_ok|done|done].
  - apply (crc_bytes_spec (fun c => 0 <= c < 65536)); [|lia|done].
    intros c b Hcr Hbyte. split; [|by apply (byte_be_range 16)].
    apply table_byte_be16; [apply t10_dif_crc_table_ok|done|done].
Qed.

Lemma crc_tables_divide_witness :
  crc7 0 [0x40; 0; 0; 0; 0] 5 = Some (fold_left byte7 [0x40; 0; 0; 0; 0] 0) /\
  crc7 0x80 [0x40; 0; 0; 0; 0] 5 = None /\
  crc16 0 [0x40; 0; 0; 0; 0] 5 = Some (fold_left (byte_le 0xa001) [0x40; 0; 0; 0; 0] 0).
Proof.
  destruct (crc_tables_divide [0x40; 0; 0; 0; 0]) as (H7 & Hn & H & _); [solve_words|].
  split; [apply (H7 0); lia|]. split; [apply (Hn 0x80); [lia|done]|apply (H 0); lia].
Defined.
