(* ===== verification/Crc32.v ===== *)
(** lib/crc32.c and the table generator lib/gen_crc32table.c: the CRC-32 that reads four bytes at
    a time through four tables, in both bit orders, shown equal to the bit-at-a-time version of
    the same source file (CRC_LE_BITS and CRC_BE_BITS of 1), for any alignment of the buffer.
    The processor is little-endian. *)

From S2P Require Import Prelude Word FindBit Crc.
From Stdlib Require Import Lia Btauto.

(** * The program *)

Definition CRCPOLY_LE : Z := 0xedb88320.

Definition CRCPOLY_BE : Z := 0x04c11db7.

(** [t[j][i]] for the tables of four rows. *)
Definition tab2 (t : list (list Z)) (j i : Z) : Z := (t !!! Z.to_nat j) !!! Z.to_nat i.

Definition wr2 (t : list (list Z)) (j i x : Z) : option (list (list Z)) :=
  row ← rd t j;
  row ← wr row i x;
  wr t j row.

Definition blank_table : list (list Z) := replicate 4 (replicate 256 0).

(** Rows 1 to 3 from row 0. *)
Definition fill_rows (next : list (list Z) -> Z -> Z) (t : list (list Z)) : option (list (list Z)) :=
  foreach 0 256 (fun i t =>
    '(t, _) ← foreach 1 4 (fun j '(t, crc) =>
      let crc := next t crc in
      t ← wr2 t j i crc;
      Some (t, crc)) (t, tab2 t 0 i);
    Some t) t.

(** The loop variable [i] runs through 128, 64, ..., 1. *)
Definition crc32init_le : option (list (list Z)) :=
  t ← wr2 blank_table 0 0 0;
  '(t, _) ← foreach 0 8 (fun k '(t, crc) =>
    let i := Z.shiftr 128 k in
    let crc := Z.lxor (Z.shiftr crc 1) (if negb (Z.land crc 1 =? 0) then CRCPOLY_LE else 0) in
    t ← foreach 0 (256 / (2 * i)) (fun m t =>
      let j := m * (2 * i) in
      wr2 t 0 (i + j) (Z.lxor crc (tab2 t 0 j))) t;
    Some (t, crc)) (t, 1);
  fill_rows (fun t crc => Z.lxor (tab2 t 0 (Z.land crc 0xff)) (Z.shiftr crc 8)) t.

(** The loop variable [i] runs through 1, 2, ..., 128. *)
Definition crc32init_be : option (list (list Z)) :=
  t ← wr2 blank_table 0 0 0;
  '(t, _) ← foreach 0 8 (fun k '(t, crc) =>
    let i := Z.shiftl 1 k in
    let crc := Z.lxor (ul_shl crc 1) (if negb (Z.land crc 0x80000000 =? 0) then CRCPOLY_BE else 0) in
    t ← foreach 0 i (fun j t =>
      wr2 t 0 (i + j) (Z.lxor crc (tab2 t 0 j))) t;
    Some (t, crc)) (t, 0x80000000);
  fill_rows (fun t crc =>
    Z.lxor (tab2 t 0 (Z.land (Z.shiftr crc 24) 0xff)) (ul_shl crc 8)) t.

(** The generated tables; the big-endian entries pass through tobe(). *)
Definition crc32table_le : list (list Z) := Eval vm_compute in default [] crc32init_le.

Definition crc32table_be : list (list Z) :=
  Eval vm_compute in map (map __swab32) (default [] crc32init_be).

Definition DO_CRC (t : list (list Z)) (crc x : Z) : Z :=
  Z.lxor (tab2 t 0 (Z.land (Z.lxor crc x) 255)) (Z.shiftr crc 8).

Definition DO_CRC4 (t : list (list Z)) (crc : Z) : Z :=
  Z.lxor (Z.lxor (Z.lxor (tab2 t 3 (Z.land crc 255))
                         (tab2 t 2 (Z.land (Z.shiftr crc 8) 255)))
                 (tab2 t 1 (Z.land (Z.shiftr crc 16) 255)))
         (tab2 t 0 (Z.land (Z.shiftr crc 24) 255)).

(** A 32-bit load from [buf + p]. *)
Definition load32 (buf : list Z) (p : Z) : option Z :=
  b0 ← rd buf p;
  b1 ← rd buf (p + 1);
  b2 ← rd buf (p + 2);
  b3 ← rd buf (p + 3);
  Some (Z.lxor (Z.lxor (Z.lxor b0 (Z.shiftl b1 8)) (Z.shiftl b2 16)) (Z.shiftl b3 24)).

(** [addr] is the address of the buffer; the state is (crc, position, length left). *)
Definition crc32_body (addr crc : Z) (buf : list Z) (len : Z) (t : list (list Z)) : option Z :=
  '(crc, p, len) ←
    (if negb (Z.land addr 3 =? 0) && negb (len =? 0) then
       loop (S (Z.to_nat len)) (fun '(crc, p, len) =>
         x ← rd buf p;
         let crc := DO_CRC t crc x in
         let p := p + 1 in
         let len := len - 1 in
         Some (if negb (len =? 0) && negb (Z.land (addr + p) 3 =? 0)
               then Next (crc, p, len) else Ret (crc, p, len))) (crc, 0, len)
     else Some (crc, 0, len));
  let rem_len := Z.land len 3 in
  let len := Z.shiftr len 2 in
  crc ← foreach 0 len (fun k crc =>
          w ← load32 buf (p + 4 * k);
          Some (DO_CRC4 t (Z.lxor crc w))) crc;
  foreach 0 rem_len (fun k crc =>
    x ← rd buf (p + 4 * len + k);
    Some (DO_CRC t crc x)) crc.

Definition crc32_le (addr crc : Z) (p : list Z) (len : Z) : option Z :=
  crc32_body addr crc p len crc32table_le.

Definition crc32_be (addr crc : Z) (p : list Z) (len : Z) : option Z :=
  crc ← crc32_body addr (__swab32 crc) p len crc32table_be;
  Some (__swab32 crc).

(** The versions for CRC_LE_BITS == 1 and CRC_BE_BITS == 1. *)
Definition crc32_le_1 (crc : Z) (p : list Z) (len : Z) : option Z :=
  foreach 0 len (fun k crc =>
    x ← rd p k;
    foreach 0 8 (fun _ crc =>
      Some (Z.lxor (Z.shiftr crc 1) (if negb (Z.land crc 1 =? 0) then CRCPOLY_LE else 0)))
      (Z.lxor crc x)) crc.

Definition crc32_be_1 (crc : Z) (p : list Z) (len : Z) : option Z :=
  foreach 0 len (fun k crc =>
    x ← rd p k;
    foreach 0 8 (fun _ crc =>
      Some (Z.lxor (ul_shl crc 1) (if negb (Z.land crc 0x80000000 =? 0) then CRCPOLY_BE else 0)))
      (Z.lxor crc (ul_shl x 24))) crc.

Example crc32_check : crc32_le 1 0xffffffff [0x31; 0x32; 0x33; 0x34; 0x35; 0x36; 0x37; 0x38; 0x39] 9
  = Some (4294967295 - 0xcbf43926).
Proof. vm_compute. reflexivity. Qed.

Example crc32_be_check :
  crc32_be 3 0xffffffff [0x31; 0x32; 0x33; 0x34; 0x35; 0x36; 0x37; 0x38; 0x39] 9
  = crc32_be_1 0xffffffff [0x31; 0x32; 0x33; 0x34; 0x35; 0x36; 0x37; 0x38; 0x39] 9.
Proof. vm_compute. reflexivity. Qed.

#[local] Opaque crc32table_le crc32table_be.

(** * The four-byte loop *)

(** The register after the first [k] bytes. *)
Definition after (t : list (list Z)) (crc : Z) (buf : list Z) (k : Z) : Z :=
  fold_left (DO_CRC t) (take (Z.to_nat k) buf) crc.

Lemma after_next t crc buf k x :
  rd buf k = Some x -> after t crc buf (k + 1) = DO_CRC t (after t crc buf k) x.
Proof.
  intros Hx. apply rd_inv in Hx as [Hk Hx]. unfold after.
  replace (Z.to_nat (k + 1)) with (S (Z.to_nat k)) by lia.
  by rewrite (take_S_r _ _ _ Hx), fold_left_app.
Qed.

Section Body.

Context (t : list (list Z)).

(** One four-byte step is four one-byte steps. *)
Hypothesis four : forall c b0 b1 b2 b3,
  is_u32 c -> is_byte b0 -> is_byte b1 -> is_byte b2 -> is_byte b3 ->
  DO_CRC4 t (Z.lxor c (Z.lxor (Z.lxor (Z.lxor b0 (Z.shiftl b1 8)) (Z.shiftl b2 16)) (Z.shiftl b3 24)))
  = DO_CRC t (DO_CRC t (DO_CRC t (DO_CRC t c b0) b1) b2) b3.

Hypothesis u32_tab : forall i, is_u32 (tab2 t 0 i).

Lemma DO_CRC_u32 c x : is_u32 c -> is_u32 (DO_CRC t c x).
Proof. intros Hc. unfold DO_CRC. apply is_u32_lxor; [done|]. apply is_u32_shiftr; [done|lia]. Qed.

Lemma after_u32 crc buf k : is_u32 crc -> is_u32 (after t crc buf k).
Proof.
  unfold after. generalize (take (Z.to_nat k) buf). intros l. revert crc.
  induction l as [|x l IH]; intros crc Hc; simpl; [done|]. apply IH. by apply DO_CRC_u32.
Qed.

Lemma word_step crc buf p :
  is_u32 crc -> Forall is_byte buf -> 0 <= p -> p + 4 <= Z.of_nat (length buf) ->
  exists w, load32 buf p = Some w /\
    DO_CRC4 t (Z.lxor (after t crc buf p) w) = after t crc buf (p + 4).
Proof.
  intros Hc Hb Hp Hlen. unfold load32.
  destruct (rd_Some buf p) as [b0 H0]; [lia|]. destruct (rd_Some buf (p + 1)) as [b1 H1]; [lia|].
  destruct (rd_Some buf (p + 2)) as [b2 H2]; [lia|]. destruct (rd_Some buf (p + 3)) as [b3 H3]; [lia|].
  rewrite H0, H1, H2, H3. simpl. eexists. split; [done|].
  rewrite four by (by apply after_u32 || by eapply (rd_Forall is_byte)).
  replace (p + 4) with (p + 1 + 1 + 1 + 1) by lia.
  rewrite (after_next t crc buf (p + 1 + 1 + 1) b3) by (rewrite <- H3; f_equal; lia).
  rewrite (after_next t crc buf (p + 1 + 1) b2) by (rewrite <- H2; f_equal; lia).
  by rewrite (after_next t crc buf (p + 1) b1), (after_next t crc buf p b0) by done.
Qed.

Lemma align_spec addr crc buf :
  let n := Z.of_nat (length buf) in
  exists p, 0 <= p <= n /\
    (if negb (Z.land addr 3 =? 0) && negb (n =? 0) then
       loop (S (Z.to_nat n)) (fun '(crc, p, len) =>
         x ← rd buf p;
         Some (if negb (len - 1 =? 0) && negb (Z.land (addr + (p + 1)) 3 =? 0)
               then Next (DO_CRC t crc x, p + 1, len - 1) else Ret (DO_CRC t crc x, p + 1, len - 1)))
         (crc, 0, n)
     else Some (crc, 0, n)) = Some (after t crc buf p, p, n - p).
Proof.
  intros n. destruct (_ && _) eqn:E.
  2:{ exists 0. split; [lia|]. unfold after. simpl. by rewrite Z.sub_0_r. }
  zbool. loop_with (fun '(c, p, len) => 0 <= p < n /\ c = after t crc buf p /\ len = n - p)
    (fun '(_, _, len) => Z.to_nat len)
    (fun '(c, p, len) => 0 <= p <= n /\ c = after t crc buf p /\ len = n - p)
    as ([[c p] len] & -> & Hp & -> & ->); [| |lia|by exists p].
  - intros [[c p] len] (Hp & -> & ->). destruct (rd_Some buf p) as [x Hx]; [lia|]. rewrite Hx. simpl.
    rewrite <- (after_next _ _ _ _ _ Hx).
    destruct (_ && _) eqn:E1; zbool; [split; [|lia]|]; (split; [lia|]); (split; [done|lia]).
  - split; [lia|]. split; [done|lia].
Qed.

Lemma crc32_body_spec addr crc buf :
  is_u32 crc -> Forall is_byte buf ->
  crc32_body addr crc buf (Z.of_nat (length buf)) t = Some (fold_left (DO_CRC t) buf crc).
Proof.
  intros Hc Hb. unfold crc32_body. cbv zeta.
  destruct (align_spec addr crc buf) as (p & Hp & ->). cbn [mbind option_bind].
  set (n := Z.of_nat (length buf)) in *.
  assert (Z.shiftr (n - p) 2 = (n - p) / 4) as -> by (rewrite Z.shiftr_div_pow2 by lia; done).
  assert (Z.land (n - p) 3 = (n - p) mod 4) as ->
    by (change 3 with (Z.ones 2); rewrite Z.land_ones by lia; done).
  set (q := (n - p) / 4). set (r := (n - p) mod 4).
  destruct (foreach_rule (fun k c => c = after t crc buf (p + 4 * k))
    (fun k crc => w ← load32 buf (p + 4 * k); Some (DO_CRC4 t (Z.lxor crc w)))
    0 q (after t crc buf p)) as (c1 & -> & ->); [lia| |by rewrite Z.add_0_r|].
  { intros k c Hk ->. destruct (word_step crc buf (p + 4 * k)) as (w & -> & Hw); [done|done|lia|lia|].
    simpl. rewrite Hw. eexists. split; [done|]. f_equal. lia. }
  simpl. destruct (foreach_rule (fun k c => c = after t crc buf (p + 4 * q + k))
    (fun k crc => x ← rd buf (p + 4 * q + k); Some (DO_CRC t crc x))
    0 r (after t crc buf (p + 4 * q))) as (c2 & -> & ->); [lia| |by rewrite Z.add_0_r|].
  { intros k c Hk ->. destruct (rd_Some buf (p + 4 * q + k)) as [x Hx]; [lia|]. rewrite Hx. simpl.
    rewrite <- (after_next _ _ _ _ _ Hx). eexists. split; [done|]. f_equal. lia. }
  unfold after. replace (Z.to_nat (p + 4 * q + r)) with (length buf) by lia. by rewrite firstn_all.
Qed.

End Body.

(** * Bytes of a register *)

Definition byte_of (x k : Z) : Z := Z.land (Z.shiftr x (8 * k)) 255.

Lemma byte_of_range x k : is_byte (byte_of x k).
Proof. apply land_ff. Qed.

Lemma byte_of_spec x k i :
  0 <= k -> 0 <= i -> Z.testbit (byte_of x k) i = (i <? 8) && Z.testbit x (i + 8 * k).
Proof.
  intros Hk Hi. unfold byte_of. change 255 with (Z.ones 8).
  rewrite Z.land_spec, Z.shiftr_spec by lia. destruct (i <? 8) eqn:E; zbool.
  - rewrite Z.ones_spec_low by lia. by rewrite andb_true_r.
  - rewrite Z.ones_spec_high by lia. by rewrite andb_false_r.
Qed.

Lemma four_bytes x :
  is_u32 x ->
  x = Z.lxor (Z.lxor (Z.lxor (byte_of x 0) (Z.shiftl (byte_of x 1) 8))
                     (Z.shiftl (byte_of x 2) 16)) (Z.shiftl (byte_of x 3) 24).
Proof.
  intros Hx. apply Z.bits_inj'. intros i Hi. rewrite !Z.lxor_spec, !Z.shiftl_spec by done.
  rewrite byte_of_spec by lia.
  assert (forall k m, 0 <= k -> m = 8 * k -> Z.testbit (byte_of x k) (i - m) =
    bool_decide (m <= i < m + 8) && Z.testbit x i) as Hb.
  { intros k m Hk ->. case_bool_decide.
    - rewrite byte_of_spec by lia. replace (i - 8 * k + 8 * k) with i by lia.
      by rewrite (proj2 (Z.ltb_lt _ _)) by lia.
    - destruct (decide (i < 8 * k)); [by rewrite Z.testbit_neg_r by lia|].
      rewrite byte_of_spec by lia. by rewrite (proj2 (Z.ltb_ge _ _)) by lia. }
  rewrite (Hb 1 8), (Hb 2 16), (Hb 3 24) by lia. replace (i + 8 * 0) with i by lia.
  destruct (decide (i < 32)).
  - destruct (Z.testbit x i); rewrite ?andb_true_r, ?andb_false_r; [|done].
    destruct (i <? 8) eqn:E; zbool; repeat case_bool_decide; (lia || done).
  - rewrite is_u32_bits by (done || lia). by rewrite !andb_false_r.
Qed.

Definition row_u32 (row : list Z) : bool := forallb (fun x => (0 <=? x) && (x <? 4294967296)) row.

Lemma row_u32_spec row i : row_u32 row = true -> is_u32 (tab row i).
Proof.
  intros Hr. unfold tab. rewrite list_lookup_total_alt.
  destruct (row !! Z.to_nat i) as [x|] eqn:E; simpl; [|unfold is_u32; simpl; lia].
  unfold row_u32 in Hr. rewrite forallb_forall in Hr.
  specialize (Hr x (proj1 (list_elem_of_In _ _) (list_elem_of_lookup_2 _ _ _ E))).
  unfold is_u32. zbool. lia.
Qed.

(** * Least significant bit first *)

Abbreviation S_le := (step_le CRCPOLY_LE).

(** Row [j] of the table advances a byte by [j + 1] bytes. *)
Definition le_rows : bool :=
  all_below 4 (fun j => all_below 256 (fun i =>
    tab2 crc32table_le j i =? Nat.iter (8 * S (Z.to_nat j)) S_le i)).

Lemma le_rows_ok : le_rows = true.
Proof. vm_compute. reflexivity. Qed.

Lemma le_row j i :
  0 <= j < 4 -> is_byte i -> tab2 crc32table_le j i = Nat.iter (8 * S (Z.to_nat j)) S_le i.
Proof.
  intros Hj Hi. apply Z.eqb_eq.
  exact (all_below_spec 256 _ (all_below_spec 4 _ le_rows_ok j Hj) i Hi).
Qed.

Lemma le_row0_u32 : row_u32 (crc32table_le !!! Z.to_nat 0) = true.
Proof. vm_compute. reflexivity. Qed.

Lemma le_u32 i : is_u32 (tab2 crc32table_le 0 i).
Proof. exact (row_u32_spec _ i le_row0_u32). Qed.

Lemma le_row0_table : le_table CRCPOLY_LE (crc32table_le !!! Z.to_nat 0) = true.
Proof. vm_compute. reflexivity. Qed.

Lemma le_byte c x : is_byte x -> DO_CRC crc32table_le c x = byte_le CRCPOLY_LE c x.
Proof.
  intros Hx. unfold DO_CRC. rewrite Z.lxor_comm. exact (table_byte_le _ _ c x le_row0_table Hx).
Qed.

(** A byte fed after [n] steps could have been fed before them, [n] bits higher. *)
Lemma feed_le n y b :
  Z.lxor (Nat.iter n S_le y) b = Nat.iter n S_le (Z.lxor y (Z.shiftl b (Z.of_nat n))).
Proof. rewrite iter_lxor by apply step_le_lxor. by rewrite step_le_shiftl. Qed.

Lemma iter_shift_le m n b :
  Nat.iter (m + n) S_le (Z.shiftl b (Z.of_nat n)) = Nat.iter m S_le b.
Proof. by rewrite Nat.iter_add, step_le_shiftl. Qed.

Lemma do_crc4_le x : is_u32 x -> DO_CRC4 crc32table_le x = Nat.iter 32 S_le x.
Proof.
  intros Hx. rewrite (four_bytes x Hx) at 2. rewrite !iter_lxor by apply step_le_lxor.
  rewrite (iter_shift_le 24 8), (iter_shift_le 16 16), (iter_shift_le 8 24).
  unfold DO_CRC4. change (Z.land x 255) with (byte_of x 0).
  change (Z.land (Z.shiftr x 8) 255) with (byte_of x 1).
  change (Z.land (Z.shiftr x 16) 255) with (byte_of x 2).
  change (Z.land (Z.shiftr x 24) 255) with (byte_of x 3).
  rewrite !le_row by (lia || apply byte_of_range). done.
Qed.

Lemma word_u32 b0 b1 b2 b3 :
  is_byte b0 -> is_byte b1 -> is_byte b2 -> is_byte b3 ->
  is_u32 (Z.lxor (Z.lxor (Z.lxor b0 (Z.shiftl b1 8)) (Z.shiftl b2 16)) (Z.shiftl b3 24)).
Proof.
  intros [? ?] [? ?] [? ?] [? ?].
  repeat apply is_u32_lxor; rewrite ?Z.shiftl_mul_pow2 by lia; unfold is_u32; lia.
Qed.

Lemma four_le c b0 b1 b2 b3 :
  is_u32 c -> is_byte b0 -> is_byte b1 -> is_byte b2 -> is_byte b3 ->
  DO_CRC4 crc32table_le
    (Z.lxor c (Z.lxor (Z.lxor (Z.lxor b0 (Z.shiftl b1 8)) (Z.shiftl b2 16)) (Z.shiftl b3 24)))
  = DO_CRC crc32table_le (DO_CRC crc32table_le (DO_CRC crc32table_le (DO_CRC crc32table_le c b0) b1) b2) b3.
Proof.
  intros Hc H0 H1 H2 H3. rewrite do_crc4_le by (apply is_u32_lxor; [done|by apply word_u32]).
  rewrite !le_byte by done. unfold byte_le.
  rewrite (feed_le 8 _ b1), <- Nat.iter_add, (feed_le 16 _ b2), <- Nat.iter_add, (feed_le 24 _ b3),
    <- Nat.iter_add. by rewrite !Z.lxor_assoc.
Qed.

Lemma iter_ext (f g : Z -> Z) n x : (forall x, f x = g x) -> Nat.iter n f x = Nat.iter n g x.
Proof. intros H. induction n as [|n IH]; simpl; [done|]. by rewrite IH, H. Qed.

(** The bit loop of the one-bit version. *)
Lemma foreach_iter (f : Z -> Z) n c :
  foreach 0 (Z.of_nat n) (fun _ c => Some (f c)) c = Some (Nat.iter n f c).
Proof.
  destruct (foreach_rule (fun k x => x = Nat.iter (Z.to_nat k) f c) (fun _ c => Some (f c))
    0 (Z.of_nat n) c) as (r & -> & ->); [lia| |done|by rewrite Nat2Z.id].
  intros k x Hk ->. eexists. split; [done|].
  replace (Z.to_nat (k + 1)) with (S (Z.to_nat k)) by lia. done.
Qed.

Lemma crc32_le_1_spec crc buf :
  crc32_le_1 crc buf (Z.of_nat (length buf)) =
  crc_bytes (byte_le CRCPOLY_LE) crc buf (Z.of_nat (length buf)).
Proof.
  unfold crc32_le_1, crc_bytes. apply foreach_ext. intros k c _.
  destruct (rd buf k); [|done]. cbn [mbind option_bind]. change 8 with (Z.of_nat 8) at 1.
  rewrite foreach_iter. unfold byte_le. f_equal. apply iter_ext. intros x. unfold step_le.
  by destruct (_ =? 0).
Qed.

(** * Byte order *)

Lemma swab_u32 x : is_u32 x -> is_u32 (__swab32 x).
Proof.
  intros Hx. unfold __swab32.
  repeat apply is_u32_lor; try apply is_u32_shl; (apply is_u32_shiftr; [|lia]);
    apply is_u32_land; try done; unfold is_u32; lia.
Qed.

Lemma swab_lxor x y :
  is_u32 x -> is_u32 y -> __swab32 (Z.lxor x y) = Z.lxor (__swab32 x) (__swab32 y).
Proof.
  intros Hx Hy. apply u32_bits_inj; auto using swab_u32, is_u32_lxor. intros i Hi.
  rewrite Z.lxor_spec, !swab32_spec by auto using is_u32_lxor. by rewrite Z.lxor_spec.
Qed.

Lemma swab_swab x : is_u32 x -> __swab32 (__swab32 x) = x.
Proof.
  intros Hx. apply u32_bits_inj; auto using swab_u32. intros i Hi.
  rewrite !swab32_spec by (auto using swab_u32; lia). f_equal. lia.
Qed.

Lemma swab_byte x k : is_u32 x -> 0 <= k < 4 -> byte_of (__swab32 x) k = byte_of x (3 - k).
Proof.
  intros Hx Hk. apply Z.bits_inj'. intros i Hi. rewrite !byte_of_spec by lia.
  destruct (i <? 8) eqn:E; zbool; [|done]. simpl. rewrite swab32_spec by (done || lia). f_equal. lia.
Qed.

Lemma swab_shl8 x : is_u32 x -> __swab32 (ul_shl x 8) = Z.shiftr (__swab32 x) 8.
Proof.
  intros Hx. apply u32_bits_inj; [apply swab_u32, is_u32_shl|apply is_u32_shiftr; [by apply swab_u32|lia]|].
  intros i Hi. rewrite swab32_spec by (apply is_u32_shl || lia). rewrite Z.shiftr_spec, ul_shl_spec by lia.
  destruct (decide (i + 8 < 32)).
  - rewrite swab32_spec by (done || lia). rewrite bool_decide_eq_true_2 by lia. simpl. f_equal. lia.
  - rewrite (is_u32_bits (__swab32 x)) by (auto using swab_u32; lia).
    rewrite (Z.testbit_neg_r x) by lia. apply andb_false_r.
Qed.

(** * Most significant bit first *)

Abbreviation S_be := (step_be 32 CRCPOLY_BE).

Definition be_rows : bool :=
  all_below 4 (fun j => all_below 256 (fun i =>
    tab2 crc32table_be j i =? __swab32 (Nat.iter (8 * S (Z.to_nat j)) S_be (Z.shiftl i 24)))).

Lemma be_rows_ok : be_rows = true.
Proof. vm_compute. reflexivity. Qed.

Lemma be_row j i :
  0 <= j < 4 -> is_byte i ->
  tab2 crc32table_be j i = __swab32 (Nat.iter (8 * S (Z.to_nat j)) S_be (Z.shiftl i 24)).
Proof.
  intros Hj Hi. apply Z.eqb_eq.
  exact (all_below_spec 256 _ (all_below_spec 4 _ be_rows_ok j Hj) i Hi).
Qed.

Lemma be_row0_u32 : row_u32 (crc32table_be !!! Z.to_nat 0) = true.
Proof. vm_compute. reflexivity. Qed.

Lemma be_u32 i : is_u32 (tab2 crc32table_be 0 i).
Proof. exact (row_u32_spec _ i be_row0_u32). Qed.

Lemma iter_be_u32 n x : is_u32 x -> is_u32 (Nat.iter n S_be x).
Proof.
  intros Hx. induction n as [|n IH]; [done|]. rewrite Nat.iter_succ. unfold step_be.
  apply is_u32_lxor; [apply (u32_is_u32 (Z.shiftl _ 1))|].
  destruct (Z.testbit _ _); unfold is_u32, CRCPOLY_BE; lia.
Qed.

Lemma shl24_u32 b : is_byte b -> is_u32 (Z.shiftl b 24).
Proof. intros [? ?]. rewrite Z.shiftl_mul_pow2 by lia. unfold is_u32. lia. Qed.

(** A byte below the top moves up to it before it takes part in the division. *)
Lemma low_be n b : (n <= 24)%nat -> is_byte b ->
  Nat.iter n S_be (Z.shiftl b (24 - Z.of_nat n)) = Z.shiftl b 24.
Proof.
  intros Hn [Hb0 Hb1]. rewrite step_be_low; [rewrite Z.shiftl_shiftl by lia; f_equal; lia|lia|].
  rewrite Z.shiftl_mul_pow2 by lia.
  replace (32 - Z.of_nat n) with (8 + (24 - Z.of_nat n)) by lia. rewrite Z.pow_add_r by lia.
  assert (0 < 2 ^ (24 - Z.of_nat n)) by (apply Z.pow_pos_nonneg; lia). nia.
Qed.

Lemma feed_be n y b :
  (n <= 24)%nat -> is_byte b ->
  Z.lxor (Nat.iter n S_be y) (Z.shiftl b 24) =
  Nat.iter n S_be (Z.lxor y (Z.shiftl b (24 - Z.of_nat n))).
Proof.
  intros Hn Hb. rewrite iter_lxor by (intros; apply step_be_lxor; lia). by rewrite low_be.
Qed.

Lemma iter_shift_be m n b :
  (n <= 24)%nat -> is_byte b ->
  Nat.iter (m + n) S_be (Z.shiftl b (24 - Z.of_nat n)) = Nat.iter m S_be (Z.shiftl b 24).
Proof. intros Hn Hb. by rewrite Nat.iter_add, low_be. Qed.

Lemma do_crc4_be x : is_u32 x -> DO_CRC4 crc32table_be (__swab32 x) = __swab32 (Nat.iter 32 S_be x).
Proof.
  intros Hx. rewrite (four_bytes x Hx) at 2. set (y := __swab32 x).
  rewrite !iter_lxor by (intros; apply step_be_lxor; lia).
  pose proof (iter_shift_be 8 24 (byte_of x 0) ltac:(lia) (byte_of_range _ _)) as H0.
  pose proof (iter_shift_be 16 16 (byte_of x 1) ltac:(lia) (byte_of_range _ _)) as H1.
  pose proof (iter_shift_be 24 8 (byte_of x 2) ltac:(lia) (byte_of_range _ _)) as H2.
  cbn [Nat.add] in H0, H1, H2. change (24 - Z.of_nat 24) with 0 in H0.
  change (24 - Z.of_nat 16) with 8 in H1. change (24 - Z.of_nat 8) with 16 in H2.
  rewrite Z.shiftl_0_r in H0. rewrite H0, H1, H2. clear H0 H1 H2.
  unfold DO_CRC4. change (Z.land y 255) with (byte_of y 0).
  change (Z.land (Z.shiftr y 8) 255) with (byte_of y 1).
  change (Z.land (Z.shiftr y 16) 255) with (byte_of y 2).
  change (Z.land (Z.shiftr y 24) 255) with (byte_of y 3).
  unfold y. rewrite !swab_byte by (done || lia).
  change (3 - 0) with 3. change (3 - 1) with 2. change (3 - 2) with 1. change (3 - 3) with 0.
  rewrite !be_row by (lia || apply byte_of_range).
  change (8 * S (Z.to_nat 3))%nat with 32%nat. change (8 * S (Z.to_nat 2))%nat with 24%nat.
  change (8 * S (Z.to_nat 1))%nat with 16%nat. change (8 * S (Z.to_nat 0))%nat with 8%nat.
  assert (forall n k, is_u32 (Nat.iter n S_be (Z.shiftl (byte_of x k) 24))) as Hu
    by (intros; apply iter_be_u32, shl24_u32, byte_of_range).
  generalize (Hu 8%nat 0), (Hu 16%nat 1), (Hu 24%nat 2), (Hu 32%nat 3).
  generalize (Nat.iter 8 S_be (Z.shiftl (byte_of x 0) 24)), (Nat.iter 16 S_be (Z.shiftl (byte_of x 1) 24)),
    (Nat.iter 24 S_be (Z.shiftl (byte_of x 2) 24)), (Nat.iter 32 S_be (Z.shiftl (byte_of x 3) 24)).
  intros a b c d Ha Hb Hc Hd. rewrite !swab_lxor by auto using is_u32_lxor.
  apply Z.bits_inj'. intros i _. rewrite !Z.lxor_spec. btauto.
Qed.

Lemma be_byte c x :
  is_u32 c -> is_byte x ->
  DO_CRC crc32table_be (__swab32 c) x = __swab32 (byte_be 32 CRCPOLY_BE c x).
Proof.
  intros Hc Hx. unfold DO_CRC, byte_be. change (32 - 8) with 24.
  pose proof (shl24_u32 x Hx) as Hs. set (i := Z.lxor (byte_of c 3) x).
  assert (is_byte i) as Hi.
  { destruct Hx as [? ?]. unfold is_byte, i. change 256 with (2 ^ 8).
    rewrite <- (Z.mod_small (byte_of c 3) (2 ^ 8)) by apply byte_of_range.
    rewrite <- (Z.mod_small x (2 ^ 8)) by lia. rewrite <- lxor_mod_pow2 by lia.
    apply Z.mod_pos_bound. lia. }
  assert (Z.land (Z.lxor (__swab32 c) x) 255 = i) as ->.
  { change 255 with (Z.ones 8). rewrite Z.land_ones, lxor_mod_pow2 by lia.
    rewrite (Z.mod_small x) by apply Hx. unfold i. f_equal.
    rewrite <- Z.land_ones by lia. change (Z.land (__swab32 c) (Z.ones 8)) with (byte_of (__swab32 c) 0).
    by rewrite swab_byte by (done || lia). }
  rewrite iter8_be; [|lia|apply is_u32_lxor; done]. change (32 - 8) with 24.
  assert (Z.shiftr (Z.lxor c (Z.shiftl x 24)) 24 = i) as ->.
  { rewrite Z.shiftr_lxor, Z.shiftr_shiftl_l, Z.shiftl_0_r by lia. unfold i. f_equal.
    unfold byte_of. change 255 with (Z.ones 8). rewrite Z.land_ones by lia. symmetry.
    apply Z.mod_small. rewrite Z.shiftr_div_pow2 by lia. destruct Hc. simpl (8 * 3). lia. }
  assert (Z.shiftl (Z.lxor c (Z.shiftl x 24)) 8 mod 2 ^ 32 = ul_shl c 8) as ->.
  { rewrite Z.shiftl_lxor, lxor_mod_pow2, Z.shiftl_shiftl by lia.
    rewrite (Z.shiftl_mul_pow2 x) by lia. change (24 + 8) with 32. rewrite Z.mod_mul by lia.
    by rewrite Z.lxor_0_r. }
  rewrite (be_row 0) by (done || lia). rewrite swab_lxor by (apply is_u32_shl || by apply iter_be_u32, shl24_u32).
  rewrite swab_shl8 by done. apply Z.lxor_comm.
Qed.

Lemma be_chain_u32 c b : is_u32 (byte_be 32 CRCPOLY_BE c b).
Proof. apply (byte_be_range 32); [lia|unfold CRCPOLY_BE; lia]. Qed.

Lemma swab_shifted_byte b :
  is_byte b -> __swab32 b = Z.shiftl b 24 /\ __swab32 (Z.shiftl b 8) = Z.shiftl b 16 /\
  __swab32 (Z.shiftl b 16) = Z.shiftl b 8 /\ __swab32 (Z.shiftl b 24) = b.
Proof.
  intros Hb. assert (all_below 256 (fun b => (__swab32 b =? Z.shiftl b 24) &&
    (__swab32 (Z.shiftl b 8) =? Z.shiftl b 16) && (__swab32 (Z.shiftl b 16) =? Z.shiftl b 8) &&
    (__swab32 (Z.shiftl b 24) =? b)) = true) as H by (vm_compute; reflexivity).
  pose proof (all_below_spec 256 _ H b Hb) as Hc. cbv beta in Hc. clear H.
  rewrite !andb_true_iff, !Z.eqb_eq in Hc. tauto.
Qed.

Lemma shl_u32 b k : is_byte b -> 0 <= k <= 24 -> is_u32 (Z.shiftl b k).
Proof.
  intros [? ?] Hk. rewrite Z.shiftl_mul_pow2 by lia. assert (0 < 2 ^ k <= 2 ^ 24)
    by (split; [lia|apply Z.pow_le_mono_r; lia]). unfold is_u32. nia.
Qed.

Lemma swab_word b0 b1 b2 b3 :
  is_byte b0 -> is_byte b1 -> is_byte b2 -> is_byte b3 ->
  __swab32 (Z.lxor (Z.lxor (Z.lxor b0 (Z.shiftl b1 8)) (Z.shiftl b2 16)) (Z.shiftl b3 24)) =
  Z.lxor (Z.lxor (Z.lxor (Z.shiftl b0 24) (Z.shiftl b1 16)) (Z.shiftl b2 8)) b3.
Proof.
  intros H0 H1 H2 H3.
  assert (is_u32 b0 /\ is_u32 (Z.shiftl b1 8) /\ is_u32 (Z.shiftl b2 16) /\ is_u32 (Z.shiftl b3 24))
    as (? & ? & ? & ?).
  { split_and!; [rewrite <- (Z.shiftl_0_r b0)|..]; apply shl_u32; done || lia. }
  rewrite !swab_lxor by auto using is_u32_lxor.
  rewrite (proj1 (swab_shifted_byte b0 H0)), (proj1 (proj2 (swab_shifted_byte b1 H1))).
  rewrite (proj1 (proj2 (proj2 (swab_shifted_byte b2 H2)))).
  by rewrite (proj2 (proj2 (proj2 (swab_shifted_byte b3 H3)))).
Qed.

Lemma four_be c b0 b1 b2 b3 :
  is_u32 c -> is_byte b0 -> is_byte b1 -> is_byte b2 -> is_byte b3 ->
  DO_CRC4 crc32table_be
    (Z.lxor c (Z.lxor (Z.lxor (Z.lxor b0 (Z.shiftl b1 8)) (Z.shiftl b2 16)) (Z.shiftl b3 24)))
  = DO_CRC crc32table_be (DO_CRC crc32table_be (DO_CRC crc32table_be (DO_CRC crc32table_be c b0) b1) b2) b3.
Proof.
  intros Hc H0 H1 H2 H3. pose proof (word_u32 b0 b1 b2 b3 H0 H1 H2 H3) as Hw.
  rewrite <- (swab_swab c), <- (swab_swab (Z.lxor (Z.lxor _ _) _)), swab_word by done.
  pose proof (swab_u32 c Hc) as Hd. generalize dependent (__swab32 c). clear c Hc. intros d Hd.
  assert (is_u32 (Z.lxor (Z.lxor (Z.lxor (Z.shiftl b0 24) (Z.shiftl b1 16)) (Z.shiftl b2 8)) b3)) as Hv
    by (rewrite <- swab_word by done; by apply swab_u32).
  rewrite <- swab_lxor, do_crc4_be by auto using is_u32_lxor.
  rewrite !be_byte by (done || apply be_chain_u32). f_equal. unfold byte_be. change (32 - 8) with 24.
  rewrite (feed_be 8 _ b1), <- Nat.iter_add by (done || lia).
  rewrite (feed_be 16 _ b2), <- Nat.iter_add by (done || lia).
  rewrite (feed_be 24 _ b3), <- Nat.iter_add by (done || lia).
  replace (24 - Z.of_nat 8) with 16 by lia. replace (24 - Z.of_nat 16) with 8 by lia.
  replace (24 - Z.of_nat 24) with 0 by lia. rewrite Z.shiftl_0_r, !Z.lxor_assoc.
  replace (8 + 24)%nat with 32%nat by lia. reflexivity.
Qed.

(** Two registers related by [h] stay related over a buffer. *)
Lemma fold_sim (f g : Z -> Z -> Z) (h : Z -> Z) (Inv : Z -> Prop) buf c :
  (forall c x, Inv c -> is_byte x -> f (h c) x = h (g c x) /\ Inv (g c x)) ->
  Inv c -> Forall is_byte buf ->
  fold_left f buf (h c) = h (fold_left g buf c) /\ Inv (fold_left g buf c).
Proof.
  intros Hfg. revert c. induction buf as [|x buf IH]; intros c Hc Hb; [done|].
  apply Forall_cons_1 in Hb as [Hx Hb]. destruct (Hfg c x Hc Hx) as [He Hi]. simpl.
  rewrite He. by apply IH.
Qed.

Lemma land_top x : (Z.land x 0x80000000 =? 0) = negb (Z.testbit x 31).
Proof.
  destruct (Z.testbit x 31) eqn:E; simpl.
  - apply Z.eqb_neq. apply (testbit_nonzero _ 31). by rewrite Z.land_spec, E.
  - apply Z.eqb_eq. apply Z.bits_inj'. intros i Hi. rewrite Z.land_spec, Z.bits_0.
    change 0x80000000 with (2 ^ 31). rewrite Z.pow2_bits_eqb by lia.
    destruct (31 =? i) eqn:Ei; [|apply andb_false_r]. zbool. subst i. by rewrite E.
Qed.

Lemma crc32_be_1_spec crc buf :
  Forall is_byte buf ->
  crc32_be_1 crc buf (Z.of_nat (length buf)) =
  crc_bytes (byte_be 32 CRCPOLY_BE) crc buf (Z.of_nat (length buf)).
Proof.
  intros Hb. unfold crc32_be_1, crc_bytes. apply foreach_ext. intros k c _.
  destruct (rd buf k) as [b|] eqn:E; [|done]. cbn [mbind option_bind]. change 8 with (Z.of_nat 8) at 1.
  rewrite foreach_iter. unfold byte_be. pose proof (rd_Forall is_byte _ _ _ Hb E) as Hbyte.
  change (32 - 8) with 24.
  assert (ul_shl b 24 = Z.shiftl b 24) as -> by (apply u32_small; by apply shl24_u32).
  f_equal. apply iter_ext. intros x. unfold step_be. rewrite land_top.
  change (32 - 1) with 31. change (2 ^ 32) with 4294967296.
  destruct (Z.testbit x 31); reflexivity.
Qed.

(** C27: the four-bytes-at-a-time CRC-32 agrees, in both bit orders, with the bit-at-a-time
    version of the same source file, for every seed, every buffer and every alignment of it,
    with the tables that the generator computes. *)
Theorem crc32_table_is_bitwise addr crc buf :
  is_u32 crc -> Forall is_byte buf ->
  let len := Z.of_nat (length buf) in
  crc32init_le = Some crc32table_le /\
  map (map __swab32) <$> crc32init_be = Some crc32table_be /\
  crc32_le addr crc buf len = crc32_le_1 crc buf len /\
  crc32_be addr crc buf len = crc32_be_1 crc buf len /\
  crc32_le_1 crc buf len = Some (fold_left (byte_le CRCPOLY_LE) buf crc) /\
  crc32_be_1 crc buf len = Some (fold_left (byte_be 32 CRCPOLY_BE) buf crc).
Proof.
  intros Hc Hb len. split; [vm_compute; reflexivity|]. split; [vm_compute; reflexivity|].
  assert (crc32_le_1 crc buf len = Some (fold_left (byte_le CRCPOLY_LE) buf crc)) as Hle.
  { unfold len. rewrite crc32_le_1_spec. by apply (crc_bytes_spec (fun _ => True)). }
  assert (crc32_be_1 crc buf len = Some (fold_left (byte_be 32 CRCPOLY_BE) buf crc)) as Hbe.
  { unfold len. rewrite crc32_be_1_spec by done. by apply (crc_bytes_spec (fun _ => True)). }
  split; [|split; [|done]].
  - rewrite Hle. unfold crc32_le, len. rewrite crc32_body_spec by (apply four_le || apply le_u32 || done).
    f_equal. apply (fold_sim _ _ (fun x => x) is_u32); [|done|done]. intros c x Hcr Hx.
    rewrite <- le_byte by done. split; [reflexivity|]. apply DO_CRC_u32; [apply le_u32|done].
  - rewrite Hbe. unfold crc32_be, len.
    rewrite crc32_body_spec by (apply four_be || apply be_u32 || done || by apply swab_u32). simpl.
    destruct (fold_sim (DO_CRC crc32table_be) (byte_be 32 CRCPOLY_BE) __swab32 is_u32 buf crc)
      as [-> Hu]; [|done|done|by rewrite swab_swab].
    intros c x Hcr Hx. split; [by apply be_byte|apply be_chain_u32].
Qed.

Lemma crc32_table_is_bitwise_witness :
  crc32_be 2 0xffffffff [1; 2; 3; 4; 5; 6; 7] 7 = crc32_be_1 0xffffffff [1; 2; 3; 4; 5; 6; 7] 7.
Proof.
  destruct (crc32_table_is_bitwise 2 0xffffffff [1; 2; 3; 4; 5; 6; 7]) as (_ & _ & _ & H & _);
    [solve_words|solve_words|exact H].
Defined.
