(* ===== verification/Str.v ===== *)
(** The string and memory functions of lib/string.c and the character classes of lib/ctype.c.

    Memory is one flat array of bytes and a pointer is an index into it, so that overlapping
    operands are what they are in C; [None] is an access outside it.  A returned pointer is an
    [option], NULL being [None].  [char] is unsigned, as on the target. *)

From S2P Require Import Prelude.
From Stdlib Require Import Lia.

(** * Character classes *)

Module Ctype.

Definition U : Z := 0x01.
Definition L : Z := 0x02.
Definition D : Z := 0x04.
Definition C : Z := 0x08.
Definition P : Z := 0x10.
Definition S_ : Z := 0x20.
Definition X : Z := 0x40.
Definition SP : Z := 0x80.
Definition CS : Z := Z.lor C S_.
Definition SSP : Z := Z.lor S_ SP.
Definition UX : Z := Z.lor U X.
Definition LX : Z := Z.lor L X.

Definition _ctype : list Z := [
  C; C; C; C; C; C; C; C;
  C; CS; CS; CS; CS; CS; C; C;
  C; C; C; C; C; C; C; C;
  C; C; C; C; C; C; C; C;
  SSP; P; P; P; P; P; P; P;
  P; P; P; P; P; P; P; P;
  D; D; D; D; D; D; D; D;
  D; D; P; P; P; P; P; P;
  P; UX; UX; UX; UX; UX; UX; U;
  U; U; U; U; U; U; U; U;
  U; U; U; U; U; U; U; U;
  U; U; U; P; P; P; P; P;
  P; LX; LX; LX; LX; LX; LX; L;
  L; L; L; L; L; L; L; L;
  L; L; L; L; L; L; L; L;
  L; L; L; P; P; P; P; C;
  0; 0; 0; 0; 0; 0; 0; 0; 0; 0; 0; 0; 0; 0; 0; 0;
  0; 0; 0; 0; 0; 0; 0; 0; 0; 0; 0; 0; 0; 0; 0; 0;
  SSP; P; P; P; P; P; P; P; P; P; P; P; P; P; P; P;
  P; P; P; P; P; P; P; P; P; P; P; P; P; P; P; P;
  U; U; U; U; U; U; U; U; U; U; U; U; U; U; U; U;
  U; U; U; U; U; U; U; P; U; U; U; U; U; U; U; L;
  L; L; L; L; L; L; L; L; L; L; L; L; L; L; L; L;
  L; L; L; L; L; L; L; P; L; L; L; L; L; L; L; L].

End Ctype.

Definition __ismask (x : Z) : Z := Ctype._ctype !!! Z.to_nat (u8 x).

Definition ismask (c m : Z) : bool := negb (Z.land (__ismask c) m =? 0).

Definition isspace (c : Z) : bool := ismask c Ctype.S_.
Definition isupper (c : Z) : bool := ismask c Ctype.U.
Definition islower (c : Z) : bool := ismask c Ctype.L.
Definition isdigit (c : Z) : bool := ismask c Ctype.D.
Definition isxdigit (c : Z) : bool := ismask c (Z.lor Ctype.D Ctype.X).

Definition tolower (c : Z) : Z := if isupper c then u8 (c - (65 - 97)) else c.
Definition toupper (c : Z) : Z := if islower c then u8 (c - (97 - 65)) else c.

(** * Measuring and searching *)

Abbreviation mem := (list Z).

(** Enough iterations for a scan of the memory. *)
Definition fuel (m : mem) : nat := S (length m).

Definition strlen (m : mem) (s : Z) : option Z :=
  loop (fuel m) (fun sc =>
    c ← rd m sc;
    Some (if c =? 0 then Ret (sc - s) else Next (sc + 1))) s.

Definition strnlen (m : mem) (s count : Z) : option Z :=
  loop (fuel m) (fun '(sc, count) =>
    if count =? 0 then Some (Ret (sc - s))
    else
      c ← rd m sc;
      Some (if c =? 0 then Ret (sc - s) else Next (sc + 1, count - 1))) (s, count).

Definition strchr (m : mem) (s c : Z) : option (option Z) :=
  loop (fuel m) (fun s =>
    x ← rd m s;
    Some (if x =? u8 c then Ret (Some s) else if x =? 0 then Ret None else Next (s + 1))) s.

Definition strrchr (m : mem) (s c : Z) : option (option Z) :=
  n ← strlen m s;
  loop (fuel m) (fun p =>
    x ← rd m p;
    Some (if x =? u8 c then Ret (Some p)
          else let p := p - 1 in if s <=? p then Next p else Ret None)) (s + n).

Definition strnchr (m : mem) (s count c : Z) : option (option Z) :=
  loop (fuel m) (fun '(s, count) =>
    if count =? 0 then Some (Ret None)
    else
      x ← rd m s;
      Some (if x =? 0 then Ret None
            else if x =? u8 c then Ret (Some s) else Next (s + 1, count - 1))) (s, count).

Definition memchr (m : mem) (s c n : Z) : option (option Z) :=
  loop (fuel m) (fun '(p, n) =>
    if n =? 0 then Some (Ret None)
    else
      x ← rd m p;
      Some (if u8 c =? x then Ret (Some p) else Next (p + 1, n - 1))) (s, n).

Definition memscan (m : mem) (addr c size : Z) : option Z :=
  loop (fuel m) (fun '(p, size) =>
    if size =? 0 then Some (Ret p)
    else
      x ← rd m p;
      Some (if x =? c then Ret p else Next (p + 1, size - 1))) (addr, size).

Definition skip_spaces (m : mem) (str : Z) : option Z :=
  loop (fuel m) (fun str =>
    c ← rd m str;
    Some (if isspace c then Next (str + 1) else Ret str)) str.

(** * Comparing *)

Definition strcmp (m : mem) (cs ct : Z) : option Z :=
  loop (fuel m) (fun '(cs, ct) =>
    c1 ← rd m cs;
    c2 ← rd m ct;
    Some (if negb (c1 =? c2) then Ret (if c1 <? c2 then -1 else 1)
          else if c1 =? 0 then Ret 0
          else Next (cs + 1, ct + 1))) (cs, ct).

Definition strncmp (m : mem) (cs ct count : Z) : option Z :=
  loop (fuel m) (fun '(cs, ct, count) =>
    if count =? 0 then Some (Ret 0)
    else
      c1 ← rd m cs;
      c2 ← rd m ct;
      Some (if negb (c1 =? c2) then Ret (if c1 <? c2 then -1 else 1)
            else if c1 =? 0 then Ret 0
            else Next (cs + 1, ct + 1, count - 1))) (cs, ct, count).

Definition strcasecmp (m : mem) (s1 s2 : Z) : option Z :=
  loop (fuel m) (fun '(s1, s2) =>
    c1 ← rd m s1;
    c2 ← rd m s2;
    let c1 := tolower c1 in
    let c2 := tolower c2 in
    Some (if (c1 =? c2) && negb (c1 =? 0) then Next (s1 + 1, s2 + 1) else Ret (c1 - c2))) (s1, s2).

(** [n] is a size_t: decrementing 0 wraps. *)
Definition strncasecmp (m : mem) (s1 s2 n : Z) : option Z :=
  loop (fuel m) (fun '(s1, s2, n) =>
    c1 ← rd m s1;
    c2 ← rd m s2;
    let c1 := tolower c1 in
    let c2 := tolower c2 in
    let n := u32 (n - 1) in
    Some (if (0 <? n) && (c1 =? c2) && negb (c1 =? 0) then Next (s1 + 1, s2 + 1, n)
          else Ret (c1 - c2))) (s1, s2, n).

Definition strnicmp (m : mem) (s1 s2 len : Z) : option Z :=
  if len =? 0 then Some 0
  else
    loop (fuel m) (fun '(s1, s2, len) =>
      c1 ← rd m s1;
      c2 ← rd m s2;
      let next c1 c2 :=
        let len := len - 1 in
        if negb (len =? 0) then Next (s1 + 1, s2 + 1, len) else Ret (c1 - c2) in
      Some (if (c1 =? 0) || (c2 =? 0) then Ret (c1 - c2)
            else if c1 =? c2 then next c1 c2
            else
              let c1 := tolower c1 in
              let c2 := tolower c2 in
              if negb (c1 =? c2) then Ret (c1 - c2) else next c1 c2)) (s1, s2, len).

Definition memcmp (m : mem) (cs ct count : Z) : option Z :=
  loop (fuel m) (fun '(su1, su2, count) =>
    if 0 <? count then
      x ← rd m su1;
      y ← rd m su2;
      let res := x - y in
      Some (if negb (res =? 0) then Ret res else Next (su1 + 1, su2 + 1, count - 1))
    else Some (Ret 0)) (cs, ct, count).

Definition sysfs_streq (m : mem) (s1 s2 : Z) : option bool :=
  '(s1, s2) ← loop (fuel m) (fun '(s1, s2) =>
    a ← rd m s1;
    if a =? 0 then Some (Ret (s1, s2))
    else
      b ← rd m s2;
      Some (if a =? b then Next (s1 + 1, s2 + 1) else Ret (s1, s2))) (s1, s2);
  a ← rd m s1;
  b ← rd m s2;
  if a =? b then Some true
  else
    r ← (if (a =? 0) && (b =? 10) then n ← rd m (s2 + 1); Some (n =? 0) else Some false);
    if (r : bool) then Some true
    else if a =? 10 then
      n ← rd m (s1 + 1);
      Some ((n =? 0) && (b =? 0))
    else Some false.

(** * Sets of characters *)

(** [for (a = accept; *a != '\0'; ++a) if (c == *a) break;]: the character at [a] afterwards. *)
Definition find_in (m : mem) (c set : Z) : option bool :=
  loop (fuel m) (fun a =>
    x ← rd m a;
    Some (if x =? 0 then Ret false else if c =? x then Ret true else Next (a + 1))) set.

Definition strspn (m : mem) (s accept : Z) : option Z :=
  loop (fuel m) (fun '(p, count) =>
    c ← rd m p;
    if c =? 0 then Some (Ret count)
    else
      b ← find_in m c accept;
      Some (if negb b then Ret count else Next (p + 1, count + 1))) (s, 0).

Definition strcspn (m : mem) (s reject : Z) : option Z :=
  loop (fuel m) (fun '(p, count) =>
    c ← rd m p;
    if c =? 0 then Some (Ret count)
    else
      b ← find_in m c reject;
      Some (if (b : bool) then Ret count else Next (p + 1, count + 1))) (s, 0).

Definition strpbrk (m : mem) (cs ct : Z) : option (option Z) :=
  loop (fuel m) (fun sc1 =>
    c ← rd m sc1;
    if c =? 0 then Some (Ret None)
    else
      b ← find_in m c ct;
      Some (if (b : bool) then Ret (Some sc1) else Next (sc1 + 1))) cs.

(** The argument and the result are ( *s, token ). *)
Definition strsep (m : mem) (s : option Z) (ct : Z) : option (mem * option Z * option Z) :=
  match s with
  | None => Some (m, None, None)
  | Some sbegin =>
      end_ ← strpbrk m sbegin ct;
      match end_ with
      | None => Some (m, None, Some sbegin)
      | Some e =>
          m ← wr m e 0;
          Some (m, Some (e + 1), Some sbegin)
      end
  end.

Definition strstr (m : mem) (s1 s2 : Z) : option (option Z) :=
  l2 ← strlen m s2;
  if l2 =? 0 then Some (Some s1)
  else
    l1 ← strlen m s1;
    loop (fuel m) (fun '(s1, l1) =>
      if l2 <=? l1 then
        let l1 := l1 - 1 in
        r ← memcmp m s1 s2 l2;
        Some (if r =? 0 then Ret (Some s1) else Next (s1 + 1, l1))
      else Some (Ret None)) (s1, l1).

Definition strnstr (m : mem) (s1 s2 len : Z) : option (option Z) :=
  l2 ← strlen m s2;
  if l2 =? 0 then Some (Some s1)
  else
    loop (fuel m) (fun '(s1, len) =>
      if l2 <=? len then
        let len := len - 1 in
        r ← memcmp m s1 s2 l2;
        Some (if r =? 0 then Ret (Some s1) else Next (s1 + 1, len))
      else Some (Ret None)) (s1, len).

(** * Copying *)

Definition strcpy (m : mem) (dest src : Z) : option mem :=
  loop (fuel m) (fun '(m, dest, src) =>
    c ← rd m src;
    m ← wr m dest c;
    Some (if negb (c =? 0) then Next (m, dest + 1, src + 1) else Ret m)) (m, dest, src).

Definition strncpy (m : mem) (dest src count : Z) : option mem :=
  loop (fuel m) (fun '(m, tmp, src, count) =>
    if count =? 0 then Some (Ret m)
    else
      c ← rd m src;
      m ← wr m tmp c;
      Some (Next (m, tmp + 1, if negb (c =? 0) then src + 1 else src, count - 1)))
    (m, dest, src, count).

Definition memcpy_bytes (m : mem) (dest src count : Z) : option mem :=
  loop (fuel m) (fun '(m, tmp, s, count) =>
    if count =? 0 then Some (Ret m)
    else
      c ← rd m s;
      m ← wr m tmp c;
      Some (Next (m, tmp + 1, s + 1, count - 1))) (m, dest, src, count).

Definition memset (m : mem) (s c count : Z) : option mem :=
  loop (fuel m) (fun '(m, xs, count) =>
    if count =? 0 then Some (Ret m)
    else
      m ← wr m xs (u8 c);
      Some (Next (m, xs + 1, count - 1))) (m, s, count).

Definition memmove (m : mem) (dest src count : Z) : option mem :=
  if dest <=? src then memcpy_bytes m dest src count
  else
    loop (fuel m) (fun '(m, tmp, s, count) =>
      if count =? 0 then Some (Ret m)
      else
        c ← rd m (s - 1);
        m ← wr m (tmp - 1) c;
        Some (Next (m, tmp - 1, s - 1, count - 1))) (m, dest + count, src + count, count).

Definition strlcpy (m : mem) (dest src size : Z) : option (mem * Z) :=
  ret ← strlen m src;
  if negb (size =? 0) then
    let len := if size <=? ret then size - 1 else ret in
    m ← memcpy_bytes m dest src len;
    m ← wr m (dest + len) 0;
    Some (m, ret)
  else Some (m, ret).

(** [while ( *dest ) dest++;] *)
Definition str_end (m : mem) (dest : Z) : option Z :=
  loop (fuel m) (fun dest =>
    c ← rd m dest;
    Some (if negb (c =? 0) then Next (dest + 1) else Ret dest)) dest.

Definition strcat (m : mem) (dest src : Z) : option mem :=
  dest ← str_end m dest;
  strcpy m dest src.

Definition strncat (m : mem) (dest src count : Z) : option mem :=
  if negb (count =? 0) then
    dest ← str_end m dest;
    loop (fuel m) (fun '(m, dest, src, count) =>
      c ← rd m src;
      m ← wr m dest c;
      if negb (c =? 0) then
        let count := count - 1 in
        if count =? 0 then m ← wr m (dest + 1) 0; Some (Ret m)
        else Some (Next (m, dest + 1, src + 1, count))
      else Some (Ret m)) (m, dest, src, count)
  else Some m.

(** [None] also stands for BUG_ON. *)
Definition strlcat (m : mem) (dest src count : Z) : option (mem * Z) :=
  dsize ← strlen m dest;
  len ← strlen m src;
  let res := dsize + len in
  if count <=? dsize then None
  else
    let dest := dest + dsize in
    let count := count - dsize in
    let len := if count <=? len then count - 1 else len in
    m ← memcpy_bytes m dest src len;
    m ← wr m (dest + len) 0;
    Some (m, res).

Definition strim (m : mem) (s : Z) : option (mem * Z) :=
  s ← skip_spaces m s;
  size ← strlen m s;
  if size =? 0 then Some (m, s)
  else
    end_ ← loop (fuel m) (fun e =>
      if s <=? e then
        c ← rd m e;
        Some (if isspace c then Next (e - 1) else Ret e)
      else Some (Ret e)) (s + size - 1);
    m ← wr m (end_ + 1) 0;
    Some (m, s).
