(* ===== verification/StrSpec.v ===== *)
(** Correctness of the measuring, searching and comparing functions of lib/string.c, modelled in
    [Str], on NUL-terminated strings anywhere in memory. *)

From S2P Require Import Prelude Str.
From Stdlib Require Import Lia.

(** * Strings in memory *)

(** The [k]-th character of [s] with its terminator. *)
Definition ch (s : list Z) (k : Z) : Z := default 0 (s !! Z.to_nat k).

Abbreviation len s := (Z.of_nat (length s)).

(** A string of non-NUL characters at [p], terminated. *)
Definition cstr (m : mem) (p : Z) (s : list Z) : Prop :=
  Forall (fun c => 0 < c < 256) s /\ 0 <= p /\
  forall k, 0 <= k <= len s -> rd m (p + k) = Some (ch s k).

Lemma ch_end s : ch s (len s) = 0.
Proof. unfold ch. by rewrite Nat2Z.id, lookup_ge_None_2 by lia. Qed.

Lemma ch_pos m p s k : cstr m p s -> 0 <= k < len s -> 0 < ch s k < 256.
Proof.
  intros (Hs & _) Hk. unfold ch. destruct (s !! Z.to_nat k) as [c|] eqn:E.
  - exact (Forall_lookup_1 _ _ _ _ Hs E).
  - apply lookup_ge_None in E. lia.
Qed.

Lemma ch_byte m p s k : cstr m p s -> 0 <= k <= len s -> 0 <= ch s k < 256.
Proof.
  intros Hs Hk. destruct (decide (k = len s)) as [->|]; [rewrite ch_end; lia|].
  pose proof (ch_pos m p s k Hs ltac:(lia)). lia.
Qed.

Lemma ch_zero m p s k : cstr m p s -> 0 <= k <= len s -> (ch s k =? 0) = (k =? len s).
Proof.
  intros Hs Hk. destruct (k =? len s) eqn:E; zbool.
  - subst. by rewrite ch_end.
  - pose proof (ch_pos m p s k Hs ltac:(lia)). lia.
Qed.

Lemma cstr_room m p s : cstr m p s -> 0 <= p /\ p + len s < Z.of_nat (length m).
Proof.
  intros (_ & Hp & Hrd). split; [done|]. specialize (Hrd (len s) ltac:(lia)).
  apply rd_inv in Hrd as [? _]. lia.
Qed.

Lemma cstr_rd m p s k : cstr m p s -> 0 <= k <= len s -> rd m (p + k) = Some (ch s k).
Proof. intros (_ & _ & H). apply H. Qed.

(** A check for concrete memories. *)
Lemma cstr_intro m p s :
  forallb (fun c => (0 <? c) && (c <? 256)) s = true -> 0 <= p ->
  take (S (length s)) (drop (Z.to_nat p) m) = s ++ [0] -> cstr m p s.
Proof.
  intros Hs Hp Hm. split; [|split; [done|]].
  - apply Forall_forall. intros c Hc. rewrite forallb_forall in Hs.
    specialize (Hs c Hc). zbool. done.
  - intros k Hk. unfold rd, ch. rewrite bool_decide_eq_true_2 by lia.
    replace (Z.to_nat (p + k)) with (Z.to_nat p + Z.to_nat k)%nat by lia.
    rewrite <- lookup_drop, <- (lookup_take_lt _ (S (length s))), Hm by lia.
    destruct (decide (k = len s)) as [->|].
    + rewrite Nat2Z.id, lookup_app_r by lia. rewrite Nat.sub_diag. simpl.
      by rewrite lookup_ge_None_2 by lia.
    + rewrite lookup_app_l by lia. destruct (s !! Z.to_nat k) eqn:E; [done|].
      apply lookup_ge_None in E. lia.
Qed.

(** The text that starts at offset [k] of a string. *)
Lemma cstr_drop m p s k :
  cstr m p s -> 0 <= k <= len s -> cstr m (p + k) (drop (Z.to_nat k) s).
Proof.
  intros Hs Hk. pose proof Hs as (Hc & Hp & Hrd). split; [by apply Forall_drop|]. split; [lia|].
  intros j Hj. rewrite length_drop in Hj. replace (p + k + j) with (p + (k + j)) by lia.
  rewrite Hrd by lia. unfold ch. rewrite lookup_drop. do 3 f_equal. lia.
Qed.

(** * Scans *)

(** A loop whose state after [k] rounds is [st k] and that stops at the first [k < n] with
    [P k], or at [n]. *)
Lemma scan_loop {St R} (st : Z -> St) (n : Z) (P : Z -> bool) (res : Z -> R) (final : R)
    (step : St -> option (ctl St R)) fuel s0 :
  s0 = st 0 -> 0 <= n < Z.of_nat fuel ->
  (forall k, 0 <= k < n -> (forall j, 0 <= j < k -> P j = false) ->
     step (st k) = Some (if P k then Ret (res k) else Next (st (k + 1)))) ->
  ((forall j, 0 <= j < n -> P j = false) -> step (st n) = Some (Ret final)) ->
  exists r, loop fuel step s0 = Some r /\
    ((exists k, 0 <= k < n /\ P k = true /\ (forall j, 0 <= j < k -> P j = false) /\ r = res k) \/
     (forall j, 0 <= j < n -> P j = false) /\ r = final).
Proof.
  intros -> Hn Hstep Hend.
  enough (forall d k, (d < fuel)%nat -> 0 <= k <= n -> n - k = Z.of_nat d ->
    (forall j, 0 <= j < k -> P j = false) ->
    exists r, loop (S d) step (st k) = Some r /\
      ((exists k, 0 <= k < n /\ P k = true /\ (forall j, 0 <= j < k -> P j = false) /\ r = res k) \/
       (forall j, 0 <= j < n -> P j = false) /\ r = final)) as H.
  { destruct (H (Z.to_nat n) 0) as (r & Hr & Hcase); [lia|lia|lia|intros; lia|].
    exists r. split; [|done]. destruct fuel as [|fuel]; [lia|].
    apply (loop_more (S (Z.to_nat n))); [lia|done]. }
  induction d as [|d IH]; intros k Hd Hk Hnk Hbefore.
  - assert (k = n) as -> by lia. exists final. unfold loop. rewrite Hend by done. auto.
  - rewrite loop_unfold, Hstep by (lia || done). destruct (P k) eqn:E.
    + eexists. split; [done|]. left. exists k. split_and!; (lia || done).
    + destruct (IH (k + 1)) as (r & -> & Hcase); [lia|lia|lia| |by exists r].
      by apply range_snoc.
Qed.

Tactic Notation "scan_with" uconstr(st) uconstr(n) uconstr(P) uconstr(res) uconstr(final)
    "as" simple_intropattern(pat) :=
  lazymatch goal with
  | |- context [loop ?fuel ?step ?s] => destruct (scan_loop st n P res final step fuel s) as pat
  end.

(** Where a search ends: the first offset below [n] that satisfies [P]. *)
Definition first (P : Z -> Prop) (n : Z) (r : option Z) : Prop :=
  match r with
  | Some k => 0 <= k < n /\ P k /\ forall j, 0 <= j < k -> ~ P j
  | None => forall j, 0 <= j < n -> ~ P j
  end.

Lemma fuel_room m p s k : cstr m p s -> k <= len s -> k < Z.of_nat (fuel m).
Proof. intros Hs Hk. pose proof (cstr_room m p s Hs). unfold fuel. lia. Qed.

(** * Measuring *)

Lemma strlen_spec m p s : cstr m p s -> strlen m p = Some (len s).
Proof.
  intros Hs. unfold strlen.
  scan_with (fun k => p + k) (len s) (fun _ => false) (fun _ => 0) (len s)
    as (r & -> & [(k & _ & ? & _)|[_ ->]]); [lia| | | |done|done].
  - split; [lia|by eapply fuel_room].
  - intros k Hk _. rewrite (cstr_rd m p s) by (done || lia). simpl.
    rewrite (ch_zero m p s) by (done || lia). rewrite (proj2 (Z.eqb_neq _ _)) by lia.
    do 2 f_equal. lia.
  - intros _. rewrite (cstr_rd m p s) by (done || lia). simpl. rewrite ch_end. simpl.
    do 2 f_equal. lia.
Qed.

Lemma str_end_spec m p s : cstr m p s -> str_end m p = Some (p + len s).
Proof.
  intros Hs. unfold str_end.
  scan_with (fun k => p + k) (len s) (fun _ => false) (fun _ => 0) (p + len s)
    as (r & -> & [(k & _ & ? & _)|[_ ->]]); [lia| | | |done|done].
  - split; [lia|by eapply fuel_room].
  - intros k Hk _. rewrite (cstr_rd m p s) by (done || lia). simpl.
    rewrite (ch_zero m p s) by (done || lia). rewrite (proj2 (Z.eqb_neq _ _)) by lia.
    simpl. do 2 f_equal. lia.
  - intros _. rewrite (cstr_rd m p s) by (done || lia). simpl. by rewrite ch_end.
Qed.

Lemma strnlen_spec m p s count :
  cstr m p s -> 0 <= count -> strnlen m p count = Some (Z.min count (len s)).
Proof.
  intros Hs Hc. unfold strnlen. set (n := Z.min count (len s)).
  scan_with (fun k => (p + k, count - k)) n (fun _ => false) (fun _ => 0) n
    as (r & -> & [(k & _ & ? & _)|[_ ->]]); [f_equal; lia| | | |done|done].
  - split; [lia|]. eapply fuel_room; [done|lia].
  - intros k Hk _. rewrite (proj2 (Z.eqb_neq (count - k) 0)) by lia.
    rewrite (cstr_rd m p s) by (done || lia). simpl.
    rewrite (ch_zero m p s) by (done || lia). rewrite (proj2 (Z.eqb_neq _ _)) by lia.
    do 2 f_equal. f_equal; lia.
  - intros _. destruct (count - n =? 0) eqn:E; zbool; [do 2 f_equal; lia|].
    rewrite (cstr_rd m p s) by (done || lia). simpl. replace n with (len s) by lia.
    rewrite ch_end. simpl. do 2 f_equal. lia.
Qed.

(** * Searching for a character *)

(** Reads of one character of a string. *)
Ltac at_char Hs := rewrite (cstr_rd _ _ _ _ Hs) by lia; cbn [mbind option_bind].

Ltac not_end Hs := rewrite (ch_zero _ _ _ _ Hs) by lia; rewrite (proj2 (Z.eqb_neq _ _)) by lia.

Lemma strchr_spec m p s c :
  cstr m p s ->
  exists r, strchr m p c = Some ((fun k => p + k) <$> r) /\
    first (fun k => ch s k = u8 c) (len s + 1) r.
Proof.
  intros Hs. unfold strchr.
  scan_with (fun k => p + k) (len s) (fun k => ch s k =? u8 c) (fun k => Some (p + k))
    (if u8 c =? 0 then Some (p + len s) else None)
    as (r & -> & [(k & Hk & HP & Hb & ->)|[Hb ->]]).
  - lia.
  - split; [lia|by eapply fuel_room].
  - intros k Hk Hb. at_char Hs. destruct (ch s k =? u8 c); [done|]. not_end Hs.
    do 2 f_equal. lia.
  - intros _. at_char Hs. rewrite ch_end. rewrite (Z.eqb_sym 0). by destruct (u8 c =? 0).
  - exists (Some k). split; [done|]. split; [lia|]. split; [lia|]. intros j Hj. specialize (Hb j Hj). lia.
  - destruct (u8 c =? 0) eqn:E; zbool; [exists (Some (len s))|exists None]; (split; [done|]).
    + split; [lia|]. split; [by rewrite ch_end|]. intros j Hj. specialize (Hb j Hj). lia.
    + intros j Hj. destruct (decide (j = len s)) as [->|]; [rewrite ch_end; lia|].
      specialize (Hb j ltac:(lia)). lia.
Qed.

Lemma strnchr_spec m p s count c :
  cstr m p s -> 0 <= count ->
  exists r, strnchr m p count c = Some ((fun k => p + k) <$> r) /\
    first (fun k => ch s k = u8 c) (Z.min count (len s)) r.
Proof.
  intros Hs Hc. unfold strnchr. set (n := Z.min count (len s)).
  scan_with (fun k => (p + k, count - k)) n (fun k => ch s k =? u8 c) (fun k => Some (p + k)) None
    as (r & -> & [(k & Hk & HP & Hb & ->)|[Hb ->]]).
  - f_equal; lia.
  - split; [lia|]. eapply fuel_room; [done|lia].
  - intros k Hk Hb. rewrite (proj2 (Z.eqb_neq (count - k) 0)) by lia. at_char Hs. not_end Hs.
    destruct (ch s k =? u8 c); [done|]. do 2 f_equal. f_equal; lia.
  - intros _. destruct (count - n =? 0) eqn:E; zbool; [done|]. at_char Hs.
    replace n with (len s) by lia. by rewrite ch_end.
  - exists (Some k). split; [done|]. split; [lia|]. split; [lia|]. intros j Hj. specialize (Hb j Hj). lia.
  - exists None. split; [done|]. intros j Hj. specialize (Hb j Hj). lia.
Qed.

(** Raw memory: [n] readable bytes at [p]. *)
Definition bytes_at (m : mem) (p : Z) (d : list Z) : Prop :=
  Forall is_byte d /\ 0 <= p /\ forall k, 0 <= k < len d -> rd m (p + k) = Some (ch d k).

Lemma bytes_fuel m p d : bytes_at m p d -> len d < Z.of_nat (fuel m).
Proof.
  intros (_ & Hp & Hrd). unfold fuel. destruct (decide (len d = 0)); [lia|].
  specialize (Hrd (len d - 1) ltac:(lia)). apply rd_inv in Hrd as [? _]. lia.
Qed.

Lemma bytes_rd m p d k : bytes_at m p d -> 0 <= k < len d -> rd m (p + k) = Some (ch d k).
Proof. intros (_ & _ & H). apply H. Qed.

(** memchr answers NULL when the byte is missing, memscan one past the area. *)
Lemma memchr_spec m p d c :
  bytes_at m p d ->
  exists r, memchr m p c (len d) = Some ((fun k => p + k) <$> r) /\
    memscan m p (u8 c) (len d) = Some (p + default (len d) r) /\
    first (fun k => ch d k = u8 c) (len d) r.
Proof.
  intros Hd. pose proof (bytes_fuel m p d Hd). unfold memchr, memscan.
  scan_with (fun k => (p + k, len d - k)) (len d) (fun k => ch d k =? u8 c) (fun k => Some (p + k)) None
    as (r & -> & Hr).
  - f_equal; lia.
  - lia.
  - intros k Hk Hb. rewrite (proj2 (Z.eqb_neq (len d - k) 0)) by lia.
    rewrite (bytes_rd m p d) by (done || lia). simpl. rewrite Z.eqb_sym.
    destruct (ch d k =? u8 c); [done|]. do 2 f_equal. f_equal; lia.
  - intros _. by rewrite Z.sub_diag.
  - scan_with (fun k => (p + k, len d - k)) (len d) (fun k => ch d k =? u8 c) (fun k => p + k)
      (p + len d) as (r' & -> & Hr').
    + f_equal; lia.
    + lia.
    + intros k Hk Hb. rewrite (proj2 (Z.eqb_neq (len d - k) 0)) by lia.
      rewrite (bytes_rd m p d) by (done || lia). simpl.
      destruct (ch d k =? u8 c); [done|]. do 2 f_equal. f_equal; lia.
    + intros _. by rewrite Z.sub_diag.
    + destruct Hr as [(k & Hk & HP & Hb & ->)|[Hb ->]];
        destruct Hr' as [(k' & Hk' & HP' & Hb' & ->)|[Hb' ->]].
      * assert (k = k') as <-.
        { destruct (Z.lt_trichotomy k k') as [Hl|[Hl|Hl]]; [|done|].
          - rewrite Hb' in HP by lia. done.
          - rewrite Hb in HP' by lia. done. }
        exists (Some k). split; [done|]. split; [done|]. split; [lia|]. split; [lia|].
        intros j Hj. specialize (Hb j Hj). lia.
      * rewrite Hb' in HP by lia. done.
      * rewrite Hb in HP' by lia. done.
      * exists None. split; [done|]. split; [done|]. intros j Hj. specialize (Hb j Hj). lia.
Qed.

(** The last occurrence; the terminator counts. *)
Lemma strrchr_spec m p s c :
  cstr m p s ->
  exists r, strrchr m p c = Some ((fun k => p + k) <$> r) /\
    match r with
    | Some k => 0 <= k <= len s /\ ch s k = u8 c /\ forall j, k < j <= len s -> ch s j <> u8 c
    | None => forall j, 0 <= j <= len s -> ch s j <> u8 c
    end.
Proof.
  intros Hs. unfold strrchr. rewrite (strlen_spec m p s Hs). cbn [mbind option_bind].
  scan_with (fun k => p + (len s - k)) (len s) (fun k => ch s (len s - k) =? u8 c)
    (fun k => Some (p + (len s - k))) (if ch s 0 =? u8 c then Some p else None)
    as (r & -> & Hr).
  - f_equal. lia.
  - split; [lia|by eapply fuel_room].
  - intros k Hk _. at_char Hs. destruct (_ =? u8 c); [done|].
    rewrite (proj2 (Z.leb_le _ _)) by lia. do 2 f_equal. lia.
  - intros _. rewrite Z.sub_diag, Z.add_0_r. rewrite <- (Z.add_0_r p) at 1. at_char Hs.
    destruct (ch s 0 =? u8 c); [done|]. by rewrite (proj2 (Z.leb_gt _ _)) by lia.
  - destruct Hr as [(k & Hk & HP & Hb & ->)|[Hb ->]].
    + exists (Some (len s - k)). split; [done|]. split; [lia|]. split; [lia|].
      intros j Hj. specialize (Hb (len s - j) ltac:(lia)).
      replace (len s - (len s - j)) with j in Hb by lia. lia.
    + assert (forall j, 0 < j <= len s -> ch s j <> u8 c) as Hrest.
      { intros j Hj. specialize (Hb (len s - j) ltac:(lia)).
        replace (len s - (len s - j)) with j in Hb by lia. lia. }
      destruct (ch s 0 =? u8 c) eqn:E; zbool; [exists (Some 0)|exists None].
      * simpl. rewrite Z.add_0_r. split; [done|]. split; [lia|]. split; [done|].
        intros j Hj. apply Hrest. lia.
      * split; [done|]. intros j Hj. destruct (decide (j = 0)) as [->|]; [done|]. apply Hrest. lia.
Qed.

Lemma isspace_0 : isspace 0 = false.
Proof. reflexivity. Qed.

Lemma skip_spaces_spec m p s :
  cstr m p s ->
  exists k, skip_spaces m p = Some (p + k) /\ 0 <= k <= len s /\ isspace (ch s k) = false /\
    forall j, 0 <= j < k -> isspace (ch s j) = true.
Proof.
  intros Hs. unfold skip_spaces.
  scan_with (fun k => p + k) (len s) (fun k => negb (isspace (ch s k))) (fun k => p + k) (p + len s)
    as (r & -> & Hr).
  - lia.
  - split; [lia|by eapply fuel_room].
  - intros k Hk _. at_char Hs. destruct (isspace (ch s k)); [|done]. simpl. do 2 f_equal. lia.
  - intros _. at_char Hs. by rewrite ch_end, isspace_0.
  - assert (forall n, (forall j, 0 <= j < n -> negb (isspace (ch s j)) = false) ->
      forall j, 0 <= j < n -> isspace (ch s j) = true) as Hneg
      by (intros n Hn j Hj; by apply negb_false_iff, Hn).
    destruct Hr as [(k & Hk & HP & Hb & ->)|[Hb ->]].
    + exists k. split; [done|]. split; [lia|]. split; [by apply negb_true_iff|by apply Hneg].
    + exists (len s). split; [done|]. split; [lia|]. split; [by rewrite ch_end|by apply Hneg].
Qed.

(** * Comparing *)

(** Lexicographic order of strings, as -1, 0 or 1. *)
Fixpoint lex (s t : list Z) : Z :=
  match s, t with
  | [], [] => 0
  | [], _ :: _ => -1
  | _ :: _, [] => 1
  | x :: s, y :: t => if x =? y then lex s t else if x <? y then -1 else 1
  end.

Definition cmpc (a b : Z) : Z := if a =? b then 0 else if a <? b then -1 else 1.

Definition text (s : list Z) : Prop := Forall (fun c => 0 < c) s.

Lemma ch_cons x s k : 0 < k -> ch (x :: s) k = ch s (k - 1).
Proof.
  intros Hk. unfold ch. replace (Z.to_nat k) with (S (Z.to_nat (k - 1))) by lia. done.
Qed.

Lemma ch_nil k : ch [] k = 0.
Proof. done. Qed.

Lemma ch_head x s : ch (x :: s) 0 = x.
Proof. done. Qed.

(** The order is decided at the first position that differs or ends. *)
Lemma lex_char s t k :
  text s -> text t -> 0 <= k ->
  (forall j, 0 <= j < k -> ch s j = ch t j /\ ch s j <> 0) ->
  ch s k <> ch t k \/ ch s k = 0 -> lex s t = cmpc (ch s k) (ch t k).
Proof.
  intros Hs Ht Hk. rewrite <- (Z2Nat.id k) by done. generalize (Z.to_nat k). clear k Hk. intros k.
  revert t Ht k. induction Hs as [|x s Hx Hs IH]; intros t Ht k Hb Hk.
  - destruct k as [|k]; [|by destruct (Hb 0 ltac:(lia)) as [_ []]].
    destruct Ht as [|y t Hy Ht]; [done|]. change (Z.of_nat 0) with 0.
    rewrite ch_nil, ch_head. unfold cmpc. cbn [lex]. rewrite (proj2 (Z.eqb_neq 0 y)), (proj2 (Z.ltb_lt 0 y)) by lia. done.
  - destruct Ht as [|y t Hy Ht].
    + destruct k as [|k]; [|destruct (Hb 0 ltac:(lia)) as [He _]; unfold ch in He; simpl in He; lia].
      change (Z.of_nat 0) with 0. rewrite ch_nil, ch_head. unfold cmpc. cbn [lex].
      rewrite (proj2 (Z.eqb_neq x 0)), (proj2 (Z.ltb_ge x 0)) by lia. done.
    + destruct k as [|k].
      * change (ch (x :: s) (Z.of_nat 0)) with x in *. change (ch (y :: t) (Z.of_nat 0)) with y in *.
        unfold cmpc. simpl. destruct (x =? y) eqn:E; zbool; [|done]. lia.
      * destruct (Hb 0 ltac:(lia)) as [He _].
        change (ch (x :: s) 0) with x in He. change (ch (y :: t) 0) with y in He. subst y.
        simpl. rewrite Z.eqb_refl. rewrite !ch_cons in * by lia.
        replace (Z.of_nat (S k) - 1) with (Z.of_nat k) in * by lia. apply IH; [done| |done].
        intros j Hj. specialize (Hb (j + 1) ltac:(lia)). rewrite !ch_cons in Hb by lia.
        by replace (j + 1 - 1) with j in Hb by lia.
Qed.

Lemma cstr_text m p s : cstr m p s -> text s.
Proof. intros (Hs & _). eapply Forall_impl; [|exact Hs]. simpl. lia. Qed.

Lemma ch_ge s k : len s <= k -> ch s k = 0.
Proof. intros Hk. unfold ch. by rewrite lookup_ge_None_2 by lia. Qed.

Lemma ch_take s n k : 0 <= k -> ch (take (Z.to_nat n) s) k = if k <? n then ch s k else 0.
Proof.
  intros Hk. unfold ch. destruct (k <? n) eqn:E; zbool.
  - by rewrite lookup_take_lt by lia.
  - by rewrite lookup_take_ge by lia.
Qed.

Lemma text_take s n : text s -> text (take n s).
Proof. apply Forall_take. Qed.

(** Where two strings part. *)
Definition parts (s t : list Z) (k : Z) : bool := negb (ch s k =? ch t k) || (ch s k =? 0).

Lemma parts_false s t k : parts s t k = false -> ch s k = ch t k /\ ch s k <> 0.
Proof. unfold parts. intros H. zbool. done. Qed.

Lemma parts_true s t k : parts s t k = true -> ch s k <> ch t k \/ ch s k = 0.
Proof. unfold parts. intros [H|H]%orb_true_iff; zbool; auto. Qed.

Lemma parts_end s t : parts s t (Z.min (len s) (len t)) = true.
Proof.
  unfold parts. destruct (Z.min_spec (len s) (len t)) as [[? ->]|[? ->]].
  - by rewrite ch_end, orb_true_r.
  - rewrite (ch_end t). destruct (ch s (len t) =? 0); [apply orb_true_r|done].
Qed.

Lemma lex_parts s t k :
  text s -> text t -> 0 <= k -> (forall j, 0 <= j < k -> parts s t j = false) ->
  parts s t k = true -> lex s t = cmpc (ch s k) (ch t k).
Proof.
  intros Hs Ht Hk Hb HP. apply lex_char; [done..| |by apply parts_true].
  intros j Hj. by apply parts_false, Hb.
Qed.

Lemma strcmp_spec m p q s t : cstr m p s -> cstr m q t -> strcmp m p q = Some (lex s t).
Proof.
  intros Hs Ht. unfold strcmp. set (n := Z.min (len s) (len t)).
  scan_with (fun k => (p + k, q + k)) (n + 1) (parts s t)
    (fun k => cmpc (ch s k) (ch t k)) 0 as (r & -> & Hr).
  - f_equal; lia.
  - split; [lia|]. pose proof (cstr_room m p s Hs). unfold fuel. lia.
  - intros k Hk _. at_char Hs. at_char Ht. unfold parts, cmpc.
    destruct (ch s k =? ch t k); [|done]. simpl. destruct (ch s k =? 0); [done|].
    do 2 f_equal. f_equal; lia.
  - intros Hall. specialize (Hall n ltac:(lia)). unfold n in Hall. by rewrite parts_end in Hall.
  - destruct Hr as [(k & Hk & HP & Hb & ->)|[Hb _]].
    + f_equal. symmetry. apply lex_parts; (done || lia || by eapply cstr_text).
    + specialize (Hb n ltac:(lia)). unfold n in Hb. by rewrite parts_end in Hb.
Qed.

Lemma lex_take_parts s t n k :
  text s -> text t -> 0 <= k <= n -> (forall j, 0 <= j < k -> parts s t j = false) ->
  k = n \/ parts s t k = true ->
  lex (take (Z.to_nat n) s) (take (Z.to_nat n) t) =
  if k <? n then cmpc (ch s k) (ch t k) else 0.
Proof.
  intros Hs Ht Hk Hb HP.
  rewrite (lex_parts _ _ k); [| | |lia| |]; auto using text_take.
  - rewrite !ch_take by lia. by destruct (k <? n).
  - intros j Hj. unfold parts. rewrite !ch_take by lia. rewrite (proj2 (Z.ltb_lt j n)) by lia. by apply Hb.
  - unfold parts. rewrite !ch_take by lia. destruct (k <? n) eqn:E; [|done]. zbool.
    destruct HP; [lia|done].
Qed.

Lemma strncmp_spec m p q s t count :
  cstr m p s -> cstr m q t -> 0 <= count ->
  strncmp m p q count = Some (lex (take (Z.to_nat count) s) (take (Z.to_nat count) t)).
Proof.
  intros Hs Ht Hc. unfold strncmp. set (n := Z.min (len s) (len t)).
  scan_with (fun k => (p + k, q + k, count - k)) (Z.min count (n + 1)) (parts s t)
    (fun k => cmpc (ch s k) (ch t k)) 0 as (r & -> & Hr).
  - repeat f_equal; lia.
  - split; [lia|]. pose proof (cstr_room m p s Hs). unfold fuel. lia.
  - intros k Hk _. rewrite (proj2 (Z.eqb_neq (count - k) 0)) by lia. at_char Hs. at_char Ht.
    unfold parts, cmpc. destruct (ch s k =? ch t k); [|done]. simpl.
    destruct (ch s k =? 0); [done|]. do 2 f_equal. f_equal; [f_equal|]; lia.
  - intros Hall. destruct (decide (count <= n)) as [Hle|Hgt].
    + rewrite Z.min_l by lia. by rewrite Z.sub_diag.
    + specialize (Hall n ltac:(lia)). unfold n in Hall. by rewrite parts_end in Hall.
  - pose proof (cstr_text m p s Hs). pose proof (cstr_text m q t Ht). f_equal. symmetry.
    destruct Hr as [(k & Hk & HP & Hb & ->)|[Hb ->]].
    + rewrite (lex_take_parts s t count k) by (auto; lia). by rewrite (proj2 (Z.ltb_lt _ _)) by lia.
    + destruct (decide (count <= n)) as [Hle|Hgt].
      * rewrite Z.min_l in Hb by lia. rewrite (lex_take_parts s t count count) by (auto; lia).
        by rewrite Z.ltb_irrefl.
      * specialize (Hb n ltac:(lia)). unfold n in Hb. by rewrite parts_end in Hb.
Qed.

(** * Comparing without case *)

Lemma tolower_bytes :
  all_below 256 (fun c => (0 <=? tolower c) && (tolower c <? 256) &&
    Bool.eqb (tolower c =? 0) (c =? 0)) = true.
Proof. vm_compute. reflexivity. Qed.

Lemma tolower_spec c :
  is_byte c -> 0 <= tolower c < 256 /\ (tolower c = 0 <-> c = 0).
Proof.
  intros Hc. pose proof (all_below_spec 256 _ tolower_bytes c Hc) as H. cbv beta in H.
  rewrite !andb_true_iff, eqb_true_iff in H. destruct H as ((H1 & H2) & H3). zbool.
  split; [done|]. rewrite <- !Z.eqb_eq. by rewrite H3.
Qed.

Definition lower (s : list Z) : list Z := tolower <$> s.

Lemma ch_lower s k : ch (lower s) k = tolower (ch s k).
Proof. unfold ch, lower. rewrite list_lookup_fmap. by destruct (s !! Z.to_nat k). Qed.

Lemma lower_text m p s : cstr m p s -> text (lower s).
Proof.
  intros (Hs & _). apply Forall_fmap. eapply Forall_impl; [|exact Hs]. intros c Hc. simpl in *.
  pose proof (tolower_spec c ltac:(unfold is_byte; lia)). lia.
Qed.

Lemma lower_length s : len (lower s) = len s.
Proof. unfold lower. by rewrite length_fmap. Qed.

(** Two strings part at the end of the shorter one at the latest. *)
Lemma parts_lower s t n :
  (forall j, 0 <= j < n -> parts (lower s) (lower t) j = false) ->
  n <= Z.min (len s) (len t).
Proof.
  intros Hb. destruct (decide (n <= Z.min (len s) (len t))) as [|Hn]; [done|].
  specialize (Hb (Z.min (len s) (len t)) ltac:(lia)).
  rewrite <- (lower_length s), <- (lower_length t), parts_end in Hb. done.
Qed.

(** A search for that place or the [n]-th character, whichever is first, ends. *)
Lemma parts_limit s t n e :
  e = Z.min (len s) (len t) -> 0 < n ->
  ~ (forall j, 0 <= j < Z.min n (e + 1) -> parts (lower s) (lower t) j || (j =? n - 1) = false).
Proof.
  intros -> Hn Hb. destruct (decide (n <= Z.min (len s) (len t))).
  - specialize (Hb (n - 1) ltac:(lia)). rewrite Z.eqb_refl, orb_true_r in Hb. done.
  - enough (Z.min (len s) (len t) + 1 <= Z.min (len s) (len t)) by lia. apply parts_lower.
    intros j Hj. specialize (Hb j ltac:(lia)). zbool. done.
Qed.

Lemma cmpc_sgn a b : Z.sgn (a - b) = cmpc a b.
Proof. unfold cmpc. destruct (a =? b) eqn:E, (a <? b) eqn:E'; zbool; lia. Qed.

Lemma strcasecmp_spec m p q s t :
  cstr m p s -> cstr m q t ->
  exists r, strcasecmp m p q = Some r /\ Z.sgn r = lex (lower s) (lower t).
Proof.
  intros Hs Ht. unfold strcasecmp. set (n := Z.min (len s) (len t)).
  scan_with (fun k => (p + k, q + k)) (n + 1) (parts (lower s) (lower t))
    (fun k => ch (lower s) k - ch (lower t) k) 0 as (r & -> & Hr).
  - f_equal; lia.
  - split; [lia|]. pose proof (cstr_room m p s Hs). unfold fuel. lia.
  - intros k Hk _. at_char Hs. at_char Ht. unfold parts. rewrite !ch_lower. cbv zeta.
    destruct (tolower (ch s k) =? tolower (ch t k)), (tolower (ch s k) =? 0); try done.
    simpl. do 2 f_equal. f_equal; lia.
  - intros Hall. apply parts_lower in Hall. lia.
  - destruct Hr as [(k & Hk & HP & Hb & ->)|[Hb _]].
    + eexists. split; [done|]. rewrite cmpc_sgn. symmetry.
      apply lex_parts; (done || lia || by eapply lower_text).
    + apply parts_lower in Hb. lia.
Qed.

(** A comparison limited to [n > 0] characters stops at the latest at the [n]-th. *)
Lemma lex_take_last s t n k :
  text s -> text t -> 0 <= k < n -> (forall j, 0 <= j < k -> parts s t j = false) ->
  parts s t k = true \/ k = n - 1 ->
  lex (take (Z.to_nat n) s) (take (Z.to_nat n) t) = cmpc (ch s k) (ch t k).
Proof.
  intros Hs Ht Hk Hb HP. destruct (parts s t k) eqn:E.
  - rewrite (lex_take_parts s t n k) by (auto; lia). by rewrite (proj2 (Z.ltb_lt _ _)) by lia.
  - destruct HP as [?| ->]; [done|]. rewrite (lex_take_parts s t n n); [|done|done|lia| |by left].
    + rewrite Z.ltb_irrefl. apply parts_false in E as [E _]. unfold cmpc. by rewrite E, Z.eqb_refl.
    + intros j Hj. destruct (decide (j = n - 1)) as [->|]; [done|]. apply Hb. lia.
Qed.

Lemma strncasecmp_spec m p q s t n :
  cstr m p s -> cstr m q t -> 0 < n < 4294967296 ->
  exists r, strncasecmp m p q n = Some r /\
    Z.sgn r = lex (take (Z.to_nat n) (lower s)) (take (Z.to_nat n) (lower t)).
Proof.
  intros Hs Ht Hn. unfold strncasecmp. set (e := Z.min (len s) (len t)).
  scan_with (fun k => (p + k, q + k, n - k)) (Z.min n (e + 1))
    (fun k => parts (lower s) (lower t) k || (k =? n - 1))
    (fun k => ch (lower s) k - ch (lower t) k) 0 as (r & -> & Hr).
  - repeat f_equal; lia.
  - split; [lia|]. pose proof (cstr_room m p s Hs). unfold fuel. lia.
  - intros k Hk _. at_char Hs. at_char Ht. unfold parts. rewrite !ch_lower. cbv zeta.
    rewrite (u32_small (n - k - 1)) by (unfold is_u32; lia).
    destruct (tolower (ch s k) =? tolower (ch t k)), (tolower (ch s k) =? 0), (k =? n - 1) eqn:E;
      simpl; rewrite ?andb_false_r; try done; zbool;
      [by rewrite (proj2 (Z.ltb_ge _ _)) by lia|].
    rewrite (proj2 (Z.ltb_lt 0 _)) by lia. simpl. do 2 f_equal. f_equal; [f_equal|]; lia.
  - intros Hall. by apply parts_limit in Hall; [|done|lia].
  - destruct Hr as [(k & Hk & HP & Hb & ->)|[Hb _]].
    + eexists. split; [done|]. rewrite cmpc_sgn. symmetry.
      apply lex_take_last; [by eapply lower_text|by eapply lower_text|lia| |].
      * intros j Hj. specialize (Hb j Hj). zbool. done.
      * apply orb_true_iff in HP as [?|?]; [by left|right; by apply Z.eqb_eq].
    + by apply parts_limit in Hb; [|done|lia].
Qed.

(** With a limit of 0 the counter wraps, and the whole strings are compared. *)
Lemma strncasecmp_0 m p q s t :
  cstr m p s -> cstr m q t -> len s < 4294967295 ->
  exists r, strncasecmp m p q 0 = Some r /\ Z.sgn r = lex (lower s) (lower t).
Proof.
  intros Hs Ht Hlen. unfold strncasecmp. set (e := Z.min (len s) (len t)).
  scan_with (fun k => (p + k, q + k, u32 (0 - k))) (e + 1) (parts (lower s) (lower t))
    (fun k => ch (lower s) k - ch (lower t) k) 0 as (r & -> & Hr).
  - repeat f_equal; lia.
  - split; [lia|]. pose proof (cstr_room m p s Hs). unfold fuel. lia.
  - intros k Hk _. at_char Hs. at_char Ht. unfold parts. rewrite !ch_lower. cbv zeta.
    assert (u32 (u32 (0 - k) - 1) = u32 (0 - (k + 1))) as -> by (unfold u32; lia).
    assert (0 < u32 (0 - (k + 1))) by (unfold u32; lia).
    destruct (tolower (ch s k) =? tolower (ch t k)), (tolower (ch s k) =? 0);
      simpl; rewrite ?andb_false_r; try done.
    rewrite (proj2 (Z.ltb_lt 0 _)) by lia. simpl. do 2 f_equal. f_equal; f_equal; lia.
  - intros Hall. apply parts_lower in Hall. lia.
  - destruct Hr as [(k & Hk & HP & Hb & ->)|[Hb _]].
    + eexists. split; [done|]. rewrite cmpc_sgn. symmetry.
      apply lex_parts; (done || lia || by eapply lower_text).
    + apply parts_lower in Hb. lia.
Qed.

(** What strnicmp subtracts at the position where it stops. *)
Definition nicmp_res (c1 c2 : Z) : Z :=
  if (c1 =? 0) || (c2 =? 0) then c1 - c2 else if c1 =? c2 then c1 - c2 else tolower c1 - tolower c2.

Lemma nicmp_sgn c1 c2 :
  is_byte c1 -> is_byte c2 -> Z.sgn (nicmp_res c1 c2) = cmpc (tolower c1) (tolower c2).
Proof.
  intros H1 H2. pose proof (tolower_spec c1 H1) as [? ?]. pose proof (tolower_spec c2 H2) as [? ?].
  unfold is_byte in *. rewrite <- cmpc_sgn. unfold nicmp_res.
  destruct (c1 =? 0) eqn:E1, (c2 =? 0) eqn:E2; simpl; zbool; subst; try lia.
  destruct (c1 =? c2) eqn:E; zbool; subst; lia.
Qed.

Lemma strnicmp_spec m p q s t n :
  cstr m p s -> cstr m q t -> 0 <= n ->
  exists r, strnicmp m p q n = Some r /\
    Z.sgn r = lex (take (Z.to_nat n) (lower s)) (take (Z.to_nat n) (lower t)).
Proof.
  intros Hs Ht Hn. unfold strnicmp. destruct (n =? 0) eqn:En; zbool.
  { subst. exists 0. done. }
  set (e := Z.min (len s) (len t)).
  scan_with (fun k => (p + k, q + k, n - k)) (Z.min n (e + 1))
    (fun k => parts (lower s) (lower t) k || (k =? n - 1))
    (fun k => nicmp_res (ch s k) (ch t k)) 0 as (r & -> & Hr).
  - repeat f_equal; lia.
  - split; [lia|]. pose proof (cstr_room m p s Hs). unfold fuel. lia.
  - intros k Hk _. at_char Hs. at_char Ht. unfold parts, nicmp_res. rewrite !ch_lower. cbv zeta.
    pose proof (tolower_spec (ch s k) (ch_byte m p s k Hs ltac:(lia))) as [_ H1].
    pose proof (tolower_spec (ch t k) (ch_byte m q t k Ht ltac:(lia))) as [_ H2].
    assert ((if negb (n - k - 1 =? 0) then Next (p + k + 1, q + k + 1, n - k - 1)
             else Ret 0) = if k =? n - 1 then Ret 0 else Next (p + (k + 1), q + (k + 1), n - (k + 1)))
      as Hnext.
    { destruct (k =? n - 1) eqn:E, (n - k - 1 =? 0) eqn:E'; zbool; try lia; [done|].
      simpl. f_equal. f_equal; [f_equal|]; lia. }
    destruct (ch s k =? 0) eqn:E1; zbool.
    { rewrite (proj2 (Z.eqb_eq (tolower (ch s k)) 0)) by tauto. by rewrite orb_true_r. }
    rewrite (proj2 (Z.eqb_neq (tolower (ch s k)) 0)) by tauto. rewrite orb_false_r.
    destruct (ch t k =? 0) eqn:E2; simpl; zbool.
    { rewrite (proj2 (Z.eqb_neq (tolower (ch s k)) (tolower (ch t k)))); [done|]. intros He.
      apply E1, H1. rewrite He. by apply H2. }
    destruct (ch s k =? ch t k) eqn:E3; zbool.
    { rewrite E3, Z.eqb_refl, Z.sub_diag. simpl. by rewrite Hnext. }
    destruct (tolower (ch s k) =? tolower (ch t k)) eqn:E4; simpl; zbool; [|done].
    rewrite E4, Z.sub_diag. by rewrite Hnext.
  - intros Hall. by apply parts_limit in Hall; [|done|lia].
  - destruct Hr as [(k & Hk & HP & Hb & ->)|[Hb _]].
    + eexists. split; [done|].
      rewrite nicmp_sgn; [|apply (ch_byte m p s k Hs); lia|apply (ch_byte m q t k Ht); lia].
      rewrite <- !ch_lower. symmetry.
      apply lex_take_last; [by eapply lower_text|by eapply lower_text|lia| |].
      * intros j Hj. specialize (Hb j Hj). zbool. done.
      * apply orb_true_iff in HP as [?|?]; [by left|right; by apply Z.eqb_eq].
    + by apply parts_limit in Hb; [|done|lia].
Qed.

(** * Raw memory *)

Lemma ch_ext d e : length d = length e -> (forall j, 0 <= j < len d -> ch d j = ch e j) -> d = e.
Proof.
  intros Hlen H. apply rd_ext; [done|]. intros i Hi. specialize (H i Hi). unfold ch in H.
  destruct (rd_Some d i Hi) as [x Hx]. destruct (rd_Some e i ltac:(lia)) as [y Hy].
  rewrite Hx, Hy. apply rd_inv in Hx as [_ Hx]. apply rd_inv in Hy as [_ Hy].
  rewrite Hx, Hy in H. simpl in H. by subst.
Qed.

Lemma memcmp_spec m p q d e :
  bytes_at m p d -> bytes_at m q e -> length d = length e ->
  exists r, memcmp m p q (len d) = Some r /\
    (d = e /\ r = 0 \/
     exists k, 0 <= k < len d /\ (forall j, 0 <= j < k -> ch d j = ch e j) /\ ch d k <> ch e k /\
       r = ch d k - ch e k).
Proof.
  intros Hd He Hlen. unfold memcmp.
  scan_with (fun k => (p + k, q + k, len d - k)) (len d) (fun k => negb (ch d k =? ch e k))
    (fun k => ch d k - ch e k) 0 as (r & -> & Hr).
  - repeat f_equal; lia.
  - pose proof (bytes_fuel m p d Hd). lia.
  - intros k Hk _. rewrite (proj2 (Z.ltb_lt 0 (len d - k))) by lia.
    rewrite (bytes_rd m p d), (bytes_rd m q e) by (done || lia). simpl.
    assert ((ch d k - ch e k =? 0) = (ch d k =? ch e k)) as ->.
    { apply Bool.eq_iff_eq_true. rewrite !Z.eqb_eq. lia. }
    destruct (ch d k =? ch e k); [|done]. simpl. do 2 f_equal. f_equal; [f_equal|]; lia.
  - intros _. by rewrite Z.sub_diag.
  - eexists. split; [done|]. destruct Hr as [(k & Hk & HP & Hb & ->)|[Hb ->]].
    + right. exists k. split; [done|]. zbool. split_and!; try done.
      intros j Hj. specialize (Hb j Hj). zbool. done.
    + left. split; [|done]. apply ch_ext; [done|]. intros j Hj. specialize (Hb j Hj). by zbool.
Qed.

Lemma bytes_slice m p d k n :
  bytes_at m p d -> 0 <= k -> 0 <= n -> k + n <= len d ->
  bytes_at m (p + k) (take (Z.to_nat n) (drop (Z.to_nat k) d)) /\
  len (take (Z.to_nat n) (drop (Z.to_nat k) d)) = n.
Proof.
  intros (Hc & Hp & Hrd) Hk Hn Hle.
  assert (len (take (Z.to_nat n) (drop (Z.to_nat k) d)) = n) as Hl
    by (rewrite length_take, length_drop; lia).
  split; [|done]. split; [|split; [lia|]]; [by apply Forall_take, Forall_drop|].
  rewrite Hl. intros j Hj. replace (p + k + j) with (p + (k + j)) by lia. rewrite Hrd by lia.
  rewrite ch_take by lia. rewrite (proj2 (Z.ltb_lt j n)) by lia. unfold ch. rewrite lookup_drop.
  do 3 f_equal. lia.
Qed.

(** The characters of a string, as raw memory. *)
Lemma cstr_bytes m p s : cstr m p s -> bytes_at m p s.
Proof.
  intros (Hc & Hp & Hrd). split; [|split; [done|intros; apply Hrd; lia]].
  eapply Forall_impl; [|exact Hc]. unfold is_byte. simpl. lia.
Qed.

(** * Substrings *)

Definition occurs_at (s t : list Z) (k : Z) : Prop := take (length t) (drop (Z.to_nat k) s) = t.

#[export] Instance occurs_at_dec s t k : Decision (occurs_at s t k).
Proof. unfold occurs_at. apply _. Defined.

Lemma strstr_loop m p q s t :
  bytes_at m p s -> cstr m q t -> 0 < len t -> let l1 := len s in
  exists r, loop (fuel m) (fun '(s1, l1) =>
      if len t <=? l1 then
        let l1 := l1 - 1 in
        r ← memcmp m s1 q (len t);
        Some (if r =? 0 then Ret (Some s1) else Next (s1 + 1, l1))
      else Some (Ret None)) (p, l1) = Some ((fun k => p + k) <$> r) /\
    first (occurs_at s t) (l1 - len t + 1) r.
Proof.
  intros Hs Ht Hpos l1. set (n := Z.max 0 (l1 - len t + 1)).
  scan_with (fun k => (p + k, l1 - k)) n (fun k => bool_decide (occurs_at s t k))
    (fun k => Some (p + k)) None as (r & -> & Hr).
  - f_equal; lia.
  - pose proof (bytes_fuel _ _ _ Hs). lia.
  - intros k Hk _. rewrite (proj2 (Z.leb_le _ _)) by lia. cbv zeta.
    destruct (bytes_slice m p s k (len t) Hs) as [Hd Hl]; [lia..|].
    pose proof (cstr_bytes _ _ _ Ht) as He. rewrite Nat2Z.id in *.
    destruct (memcmp_spec m (p + k) q _ t Hd He) as (r & Hr & Hcase); [lia|].
    rewrite Hl in Hr. rewrite Hr. cbn [mbind option_bind]. unfold occurs_at.
    destruct Hcase as [[Heq ->]|(j & Hj & _ & Hne & ->)].
    + by rewrite bool_decide_eq_true_2.
    + rewrite (proj2 (Z.eqb_neq _ _)) by lia. rewrite bool_decide_eq_false_2.
      * do 2 f_equal. f_equal; lia.
      * intros Heq. by rewrite Heq in Hne.
  - intros _. by rewrite (proj2 (Z.leb_gt _ _)) by lia.
  - destruct Hr as [(k & Hk & HP & Hb & ->)|[Hb ->]].
    + exists (Some k). split; [done|]. split; [lia|]. split; [by apply bool_decide_eq_true_1 in HP|].
      intros j Hj. exact (bool_decide_eq_false_1 _ (Hb j Hj)).
    + exists None. split; [done|]. intros j Hj. exact (bool_decide_eq_false_1 _ (Hb j ltac:(lia))).
Qed.

Lemma occurs_nil s k : occurs_at s [] k.
Proof. done. Qed.

Lemma strstr_spec m p q s t :
  cstr m p s -> cstr m q t ->
  exists r, strstr m p q = Some ((fun k => p + k) <$> r) /\
    first (occurs_at s t) (len s - len t + 1) r.
Proof.
  intros Hs Ht. unfold strstr. rewrite (strlen_spec m q t Ht). cbn [mbind option_bind].
  destruct (len t =? 0) eqn:E; zbool.
  - destruct t; [|simpl in E; lia]. exists (Some 0). simpl. rewrite Z.add_0_r. split; [done|].
    split; [simpl; lia|]. split; [done|lia].
  - rewrite (strlen_spec m p s Hs). cbn [mbind option_bind].
    apply strstr_loop; [by apply cstr_bytes|done|lia].
Qed.

Lemma strnstr_spec m p q d t :
  bytes_at m p d -> cstr m q t ->
  exists r, strnstr m p q (len d) = Some ((fun k => p + k) <$> r) /\
    first (occurs_at d t) (len d - len t + 1) r.
Proof.
  intros Hs Ht. unfold strnstr. rewrite (strlen_spec m q t Ht). cbn [mbind option_bind].
  destruct (len t =? 0) eqn:E; zbool.
  - destruct t; [|simpl in E; lia]. exists (Some 0). simpl. rewrite Z.add_0_r. split; [done|].
    split; [simpl; lia|]. split; [done|lia].
  - apply strstr_loop; [done|done|lia].
Qed.

(** * Sets of characters *)

Lemma find_in_spec m q t c :
  cstr m q t -> c <> 0 -> find_in m c q = Some (bool_decide (c ∈ t)).
Proof.
  intros Ht Hc. unfold find_in.
  scan_with (fun k => q + k) (len t) (fun k => c =? ch t k) (fun _ => true) false as (r & -> & Hr).
  - lia.
  - split; [lia|by eapply fuel_room].
  - intros k Hk _. at_char Ht. not_end Ht. destruct (c =? ch t k); [done|]. do 2 f_equal. lia.
  - intros _. at_char Ht. by rewrite ch_end.
  - f_equal. symmetry. destruct Hr as [(k & Hk & HP & Hb & ->)|[Hb ->]].
    + apply bool_decide_eq_true_2. zbool. rewrite HP. unfold ch.
      destruct (t !! Z.to_nat k) as [x|] eqn:E; [by eapply list_elem_of_lookup_2|].
      apply lookup_ge_None in E. lia.
    + apply bool_decide_eq_false_2. intros [i Hi]%list_elem_of_lookup_1.
      pose proof (lookup_lt_Some _ _ _ Hi). specialize (Hb (Z.of_nat i) ltac:(lia)).
      unfold ch in Hb. rewrite Nat2Z.id, Hi in Hb. simpl in Hb. lia.
Qed.

Lemma strpbrk_spec m p q s t :
  cstr m p s -> cstr m q t ->
  exists r, strpbrk m p q = Some ((fun k => p + k) <$> r) /\
    first (fun k => ch s k ∈ t) (len s) r.
Proof.
  intros Hs Ht. unfold strpbrk.
  scan_with (fun k => p + k) (len s) (fun k => bool_decide (ch s k ∈ t)) (fun k => Some (p + k)) None
    as (r & -> & Hr).
  - lia.
  - split; [lia|]. eapply fuel_room; [exact Hs|lia].
  - intros k Hk _. at_char Hs. not_end Hs. pose proof (ch_pos m p s k Hs Hk).
    rewrite (find_in_spec m q t) by (done || lia). cbn [mbind option_bind].
    case_bool_decide; [done|]. do 2 f_equal. lia.
  - intros _. at_char Hs. by rewrite ch_end.
  - destruct Hr as [(k & Hk & HP & Hb & ->)|[Hb ->]].
    + exists (Some k). split; [done|]. split; [lia|]. split; [by apply bool_decide_eq_true_1 in HP|].
      intros j Hj. exact (bool_decide_eq_false_1 _ (Hb j Hj)).
    + exists None. split; [done|]. intros j Hj. exact (bool_decide_eq_false_1 _ (Hb j Hj)).
Qed.

(** The length of the longest prefix of [s] whose characters satisfy [P]. *)
Definition prefix_len (P : Z -> Prop) (s : list Z) (k : Z) : Prop :=
  0 <= k <= len s /\ (forall j, 0 <= j < k -> P (ch s j)) /\ (k < len s -> ~ P (ch s k)).

Lemma strspn_spec m p q s t :
  cstr m p s -> cstr m q t ->
  exists k, strspn m p q = Some k /\ prefix_len (.∈ t) s k.
Proof.
  intros Hs Ht. unfold strspn.
  scan_with (fun k => (p + k, k)) (len s) (fun k => bool_decide (ch s k ∉ t)) (fun k => k) (len s)
    as (r & -> & Hr).
  - f_equal; lia.
  - split; [lia|]. eapply fuel_room; [exact Hs|lia].
  - intros k Hk _. at_char Hs. not_end Hs. pose proof (ch_pos m p s k Hs Hk).
    rewrite (find_in_spec m q t) by (done || lia). cbn [mbind option_bind]. rewrite bool_decide_not.
    case_bool_decide; simpl; [|done]. do 2 f_equal. f_equal; lia.
  - intros _. at_char Hs. by rewrite ch_end.
  - exists r. split; [done|].
    assert (forall n, (forall j, 0 <= j < n -> bool_decide (ch s j ∉ t) = false) ->
      forall j, 0 <= j < n -> ch s j ∈ t) as Hin.
    { intros n Hn j Hj. specialize (Hn j Hj). apply bool_decide_eq_false_1 in Hn.
      by apply dec_stable. }
    destruct Hr as [(k & Hk & HP & Hb & ->)|[Hb ->]].
    + split; [lia|]. split; [by apply Hin|]. intros _. by apply bool_decide_eq_true_1 in HP.
    + split; [lia|]. split; [by apply Hin|lia].
Qed.

Lemma strcspn_spec m p q s t :
  cstr m p s -> cstr m q t ->
  exists k, strcspn m p q = Some k /\ prefix_len (.∉ t) s k.
Proof.
  intros Hs Ht. unfold strcspn.
  scan_with (fun k => (p + k, k)) (len s) (fun k => bool_decide (ch s k ∈ t)) (fun k => k) (len s)
    as (r & -> & Hr).
  - f_equal; lia.
  - split; [lia|]. eapply fuel_room; [exact Hs|lia].
  - intros k Hk _. at_char Hs. not_end Hs. pose proof (ch_pos m p s k Hs Hk).
    rewrite (find_in_spec m q t) by (done || lia). cbn [mbind option_bind].
    case_bool_decide; simpl; [done|]. do 2 f_equal. f_equal; lia.
  - intros _. at_char Hs. by rewrite ch_end.
  - exists r. split; [done|]. destruct Hr as [(k & Hk & HP & Hb & ->)|[Hb ->]].
    + split; [lia|]. split; [|intros _ Hn; exact (Hn (bool_decide_eq_true_1 _ HP))].
      intros j Hj. exact (bool_decide_eq_false_1 _ (Hb j Hj)).
    + split; [lia|]. split; [|lia]. intros j Hj. exact (bool_decide_eq_false_1 _ (Hb j Hj)).
Qed.

(** * Equality up to a newline *)

Lemma ch_app s t k :
  0 <= k -> ch (s ++ t) k = if k <? len s then ch s k else ch t (k - len s).
Proof.
  intros Hk. unfold ch. destruct (k <? len s) eqn:E; zbool.
  - by rewrite lookup_app_l by lia.
  - rewrite lookup_app_r by lia. do 2 f_equal. lia.
Qed.

(** Strings that agree up to the end of the first, which the second exceeds by [u]. *)
Lemma text_prefix s t u k :
  text s -> text t -> 0 <= k -> (forall j, 0 <= j < k -> ch s j = ch t j /\ ch s j <> 0) ->
  ch s k = 0 -> (forall j, 0 <= j < len u -> ch t (k + j) = ch u j) -> ch t (k + len u) = 0 ->
  text u -> t = s ++ u.
Proof.
  intros Hs Ht Hk Hb Hsk Hu Hend Htu.
  assert (forall s k, text s -> 0 <= k -> (forall j, 0 <= j < k -> ch s j <> 0) -> ch s k = 0 ->
    len s = k) as Hlen.
  { clear. intros s k Hs Hk Hb Hz. destruct (Z.lt_trichotomy (len s) k) as [H|[H|H]]; [|done|].
    - by destruct (Hb (len s) ltac:(lia)); rewrite ch_end.
    - unfold ch in Hz. destruct (s !! Z.to_nat k) as [x|] eqn:E.
      + pose proof (Forall_lookup_1 _ _ _ _ Hs E). simpl in *. lia.
      + apply lookup_ge_None in E. lia. }
  assert (len s = k) as Hls by (apply Hlen; auto; intros j Hj; by apply Hb).
  assert (len t = k + len u) as Hlt.
  { apply Hlen; [done|lia| |done]. intros j Hj. destruct (decide (j < k)) as [Hjk|Hjk].
    - destruct (Hb j ltac:(lia)) as [<- ?]. done.
    - specialize (Hu (j - k) ltac:(lia)). replace (k + (j - k)) with j in Hu by lia. rewrite Hu.
      unfold ch. destruct (u !! Z.to_nat (j - k)) as [x|] eqn:E.
      + pose proof (Forall_lookup_1 _ _ _ _ Htu E). simpl in *. lia.
      + apply lookup_ge_None in E. lia. }
  apply ch_ext; [rewrite length_app; lia|]. intros j Hj. rewrite ch_app by lia.
  destruct (j <? len s) eqn:E; zbool; [symmetry; apply Hb; lia|].
  rewrite <- Hu by lia. f_equal. lia.
Qed.

(** [s] and [s ++ u] part where [s] ends. *)
Lemma parts_app s u k :
  text s -> 0 <= k -> (forall j, 0 <= j < k -> ch s j <> 0) -> parts s (s ++ u) k = true -> k = len s.
Proof.
  intros Hs Hk Hb HP. destruct (Z.lt_trichotomy k (len s)) as [H|[H|H]]; [|done|].
  - unfold parts in HP. rewrite ch_app in HP by lia. rewrite (proj2 (Z.ltb_lt _ _)), Z.eqb_refl in HP by lia.
    simpl in HP. zbool. unfold ch in HP. destruct (s !! Z.to_nat k) as [x|] eqn:E.
    + pose proof (Forall_lookup_1 _ _ _ _ Hs E). simpl in *. lia.
    + apply lookup_ge_None in E. lia.
  - by destruct (Hb (len s) ltac:(lia)); rewrite ch_end.
Qed.

Lemma parts_sym s t k :
  (forall j, 0 <= j < k -> ch s j = ch t j /\ ch s j <> 0) ->
  parts s t k = true -> parts t s k = true.
Proof.
  unfold parts. intros _. rewrite (Z.eqb_sym (ch t k)). destruct (ch s k =? ch t k) eqn:E; [|done].
  zbool. by rewrite E.
Qed.

(** The verdict, from the position where the strings part. *)
Definition streq_at (s t : list Z) (k : Z) : bool :=
  (ch s k =? ch t k) ||
  ((ch s k =? 0) && (ch t k =? 10) && (ch t (k + 1) =? 0)) ||
  ((ch s k =? 10) && (ch s (k + 1) =? 0) && (ch t k =? 0)).

Lemma streq_at_spec s t k :
  text s -> text t -> 0 <= k -> (forall j, 0 <= j < k -> ch s j = ch t j /\ ch s j <> 0) ->
  parts s t k = true ->
  streq_at s t k = bool_decide (s = t \/ t = s ++ [10] \/ s = t ++ [10]).
Proof.
  intros Hs Ht Hk Hb HP. symmetry.
  assert (forall a b, text a -> (forall j, 0 <= j < k -> ch a j = ch b j /\ ch a j <> 0) ->
    parts a b k = true -> b = a ++ [10] -> ch a k = 0 /\ ch b k = 10 /\ ch b (k + 1) = 0) as Hnl.
  { intros a b Ha Hab HPab ->. apply parts_app in HPab as ->; [|done|done|intros j Hj; by apply Hab].
    rewrite ch_end, !ch_app by lia. rewrite Z.ltb_irrefl, Z.sub_diag.
    rewrite (proj2 (Z.ltb_ge _ _)) by lia. replace (len a + 1 - len a) with 1 by lia. done. }
  assert (forall j, 0 <= j < k -> ch t j = ch s j /\ ch t j <> 0) as Hb'
    by (intros j Hj; destruct (Hb j Hj); split; congruence).
  assert (text [10]) as H10 by (apply Forall_cons_2; [lia|constructor]).
  assert (forall a b, text a -> text b -> (forall j, 0 <= j < k -> ch a j = ch b j /\ ch a j <> 0) ->
    ch a k = 0 -> ch b k = 10 -> ch b (k + 1) = 0 -> b = a ++ [10]) as Hmk.
  { intros a b Ha Hbt Hab H0 H1 H2. apply (text_prefix a b [10] k); auto.
    intros j Hj. simpl in Hj. assert (j = 0) as -> by lia. by rewrite Z.add_0_r. }
  unfold streq_at. case_bool_decide as Hcase.
  - symmetry. destruct Hcase as [->|[He|He]]; [by rewrite Z.eqb_refl| |].
    + destruct (Hnl s t Hs Hb HP He) as (-> & -> & ->). done.
    + destruct (Hnl t s Ht Hb' (parts_sym s t k Hb HP) He) as (-> & -> & ->). done.
  - symmetry. apply not_true_iff_false. intros Htrue. apply Hcase.
    apply orb_true_iff in Htrue as [[Heq|H1]%orb_true_iff|H1]; zbool.
    + left. apply parts_true in HP as [|Hz]; [done|].
      rewrite (text_prefix s t [] k), app_nil_r; auto; [intros j Hj; simpl in Hj; lia| |constructor].
      rewrite Z.add_0_r. congruence.
    + right. left. by apply Hmk.
    + right. right. by apply Hmk.
Qed.

Lemma sysfs_streq_spec m p q s t :
  cstr m p s -> cstr m q t ->
  sysfs_streq m p q = Some (bool_decide (s = t \/ t = s ++ [10] \/ s = t ++ [10])).
Proof.
  intros Hs Ht. unfold sysfs_streq. set (n := Z.min (len s) (len t)).
  scan_with (fun k => (p + k, q + k)) (n + 1) (parts s t) (fun k => (p + k, q + k)) (0, 0)
    as (r & -> & Hr).
  - f_equal; lia.
  - split; [lia|]. pose proof (cstr_room m p s Hs). unfold fuel. lia.
  - intros k Hk _. at_char Hs. unfold parts. destruct (ch s k =? 0); [by rewrite orb_true_r|].
    at_char Ht. rewrite orb_false_r. destruct (ch s k =? ch t k); [|done]. simpl. do 2 f_equal. f_equal; lia.
  - intros Hall. specialize (Hall n ltac:(lia)). unfold n in Hall. by rewrite parts_end in Hall.
  - destruct Hr as [(k & Hk & HP & Hb & ->)|[Hb _]].
    2:{ specialize (Hb n ltac:(lia)). unfold n in Hb. by rewrite parts_end in Hb. }
    cbn [mbind option_bind]. at_char Hs. at_char Ht.
    rewrite <- (streq_at_spec s t k); [|by eapply cstr_text..|lia| |done].
    2:{ intros j Hj. by apply parts_false, Hb. }
    unfold streq_at. destruct (ch s k =? ch t k) eqn:E; [done|]. simpl. zbool.
    destruct ((ch s k =? 0) && (ch t k =? 10)) eqn:E1; simpl.
    + zbool. assert (k <> len t) by (intros ->; rewrite ch_end in *; lia).
      replace (q + k + 1) with (q + (k + 1)) by lia. at_char Ht.
      destruct (ch t (k + 1) =? 0); [done|]. rewrite H. done.
    + destruct (ch s k =? 10) eqn:E2; simpl; [|done]. zbool.
      assert (k <> len s) by (intros ->; rewrite ch_end in *; lia).
      replace (p + k + 1) with (p + (k + 1)) by lia. at_char Hs. done.
Qed.




(** C39: on any NUL-terminated string, strlen, strnlen, strchr, strnchr, strrchr, strspn, strcspn and
    strpbrk return what their names say (the length, the first or last occurrence or NULL, the
    length of a prefix made of a set), and strstr the first occurrence of a substring, whatever the
    limit of strnlen and strnchr; none of them reads past the terminator. memchr, memscan and strnstr
    search the bytes of the given count, a NUL among them or not. strcmp and strncmp give
    the lexicographic order of the (truncated) strings; strcasecmp, strncasecmp with a positive
    limit and strnicmp the sign of that order after folding case; memcmp the difference at the first
    byte that differs; sysfs_streq is equality up to one trailing newline. A limit of 0 makes
    strncasecmp compare the whole strings (the first of them shorter than 2^32 - 1). *)
Theorem string_functions :
  (forall m p q s t c n,
    cstr m p s -> cstr m q t -> 0 <= n < 4294967296 ->
      strlen m p = Some (len s) /\
      strnlen m p n = Some (Z.min n (len s)) /\
      (exists r, strchr m p c = Some ((fun k => p + k) <$> r) /\
         first (fun k => ch s k = u8 c) (len s + 1) r) /\
      (exists r, strnchr m p n c = Some ((fun k => p + k) <$> r) /\
         first (fun k => ch s k = u8 c) (Z.min n (len s)) r) /\
      (exists r, strrchr m p c = Some ((fun k => p + k) <$> r) /\
         match r with
         | Some k => 0 <= k <= len s /\ ch s k = u8 c /\ forall j, k < j <= len s -> ch s j <> u8 c
         | None => forall j, 0 <= j <= len s -> ch s j <> u8 c
         end) /\
      (exists k, strspn m p q = Some k /\ prefix_len (.∈ t) s k) /\
      (exists k, strcspn m p q = Some k /\ prefix_len (.∉ t) s k) /\
      (exists r, strpbrk m p q = Some ((fun k => p + k) <$> r) /\ first (fun k => ch s k ∈ t) (len s) r) /\
      (exists r, strstr m p q = Some ((fun k => p + k) <$> r) /\
         first (occurs_at s t) (len s - len t + 1) r)) /\
  (forall m p q d t c,
    bytes_at m p d -> cstr m q t ->
      (exists r, memchr m p c (len d) = Some ((fun k => p + k) <$> r) /\
         memscan m p (u8 c) (len d) = Some (p + default (len d) r) /\
         first (fun k => ch d k = u8 c) (len d) r) /\
      (exists r, strnstr m p q (len d) = Some ((fun k => p + k) <$> r) /\
         first (occurs_at d t) (len d - len t + 1) r)) /\
  (forall m p q s t n,
    cstr m p s -> cstr m q t -> 0 <= n < 4294967296 -> len s < 4294967295 ->
      strcmp m p q = Some (lex s t) /\
      strncmp m p q n = Some (lex (take (Z.to_nat n) s) (take (Z.to_nat n) t)) /\
      (exists r, strcasecmp m p q = Some r /\ Z.sgn r = lex (lower s) (lower t)) /\
      (exists r, strnicmp m p q n = Some r /\
         Z.sgn r = lex (take (Z.to_nat n) (lower s)) (take (Z.to_nat n) (lower t))) /\
      (exists r, strncasecmp m p q n = Some r /\
         Z.sgn r = if n =? 0 then lex (lower s) (lower t)
                   else lex (take (Z.to_nat n) (lower s)) (take (Z.to_nat n) (lower t))) /\
      (forall a b d e, bytes_at m a d -> bytes_at m b e -> length d = length e ->
         exists r, memcmp m a b (len d) = Some r /\
           (d = e /\ r = 0 \/
            exists k, 0 <= k < len d /\ (forall j, 0 <= j < k -> ch d j = ch e j) /\ ch d k <> ch e k /\
              r = ch d k - ch e k)) /\
      sysfs_streq m p q = Some (bool_decide (s = t \/ t = s ++ [10] \/ s = t ++ [10]))).
Proof.
  split; [|split].
  { intros m p q s t c n.
    intros Hs Ht Hn. split_and!; [by apply strlen_spec|apply strnlen_spec; [done|lia]|
      by apply strchr_spec|apply strnchr_spec; [done|lia]|by apply strrchr_spec|
      by apply strspn_spec|by apply strcspn_spec|by apply strpbrk_spec|by apply strstr_spec]. }
  { intros m p q d t c Hd Ht. split; [by apply memchr_spec|by apply strnstr_spec]. }
  { intros m p q s t n.
    intros Hs Ht Hn Hlen. split_and!; [by apply strcmp_spec|apply strncmp_spec; (done || lia)|
      by apply strcasecmp_spec|apply strnicmp_spec; (done || lia)| | |by apply sysfs_streq_spec].
    - destruct (n =? 0) eqn:E; zbool; [subst; by apply strncasecmp_0|apply strncasecmp_spec; done || lia].
    - intros a b d e. apply memcmp_spec. }
Qed.

Lemma string_functions_witness :
  (exists r, strstr [97; 98; 97; 99; 0; 97; 99; 0] 0 5 = Some ((fun k => 0 + k) <$> r) /\
      first (occurs_at [97; 98; 97; 99] [97; 99]) 3 r) /\
  strnlen [97; 98; 97; 99; 0; 97; 99; 0] 0 100 = Some (Z.min 100 4) /\
  (exists r, strnstr [97; 98; 97; 99; 0; 97; 99; 0] 0 5 3 = Some ((fun k => 0 + k) <$> r) /\
      first (occurs_at [97; 98; 97] [97; 99]) 2 r) /\
  (strncmp [97; 98; 0; 97; 99; 10; 0] 0 3 1 = Some 0 /\
    sysfs_streq [97; 98; 0; 97; 98; 10; 0] 0 3 = Some true).
Proof.
  destruct string_functions as (H1 & H2 & H3).
  assert (cstr [97; 98; 97; 99; 0; 97; 99; 0] 0 [97; 98; 97; 99]) as Hs by (apply cstr_intro; [reflexivity|lia|reflexivity]).
  assert (cstr [97; 98; 97; 99; 0; 97; 99; 0] 5 [97; 99]) as Ht by (apply cstr_intro; [reflexivity|lia|reflexivity]).
  destruct (H1 _ _ _ _ _ 99 100 Hs Ht ltac:(lia)) as (_ & Hn & _ & _ & _ & _ & _ & _ & Hstr).
  split; [exact Hstr|]. split; [exact Hn|]. split.
  { apply (H2 [97; 98; 97; 99; 0; 97; 99; 0] 0 5 [97; 98; 97] [97; 99] 0); [|done]. split; [solve_words|].
    split; [lia|]. intros k Hk. simpl in Hk. assert (k = 0 \/ k = 1 \/ k = 2) as [-> |[-> | ->]] by lia; reflexivity. }
  destruct (H3 [97; 98; 0; 97; 99; 10; 0] 0 3 [97; 98] [97; 99; 10] 1)
      as (_ & H & _); [apply cstr_intro; [reflexivity|lia|reflexivity]..|lia|simpl; lia|].
  destruct (H3 [97; 98; 0; 97; 98; 10; 0] 0 3 [97; 98] [97; 98; 10] 1)
      as (_ & _ & _ & _ & _ & _ & H'); [apply cstr_intro; [reflexivity|lia|reflexivity]..|lia|simpl; lia|].
  split; [exact H|exact H'].
Defined.
