(* ===== verification/StrCopy.v ===== *)
(** Correctness of the copying and splitting functions of lib/string.c, modelled in [Str]: what
    they leave in memory, where they put the terminator, and which overlaps they allow. *)

From S2P Require Import Prelude Str StrSpec.
From Stdlib Require Import Lia.

Implicit Types (m : mem) (l s t d : list Z).

(** Equality of loop states, component by component. *)
Ltac same_state :=
  repeat lazymatch goal with
  | |- Some _ = Some _ => f_equal
  | |- Next _ = Next _ => f_equal
  | |- (_, _) = (_, _) => f_equal
  end; try done; try lia.

(** * Writing a block *)

(** Memory with [l] written at [d]. *)
Definition blit (m : mem) (d : Z) (l : list Z) : mem :=
  take (Z.to_nat d) m ++ l ++ drop (Z.to_nat d + length l) m.

Definition room (m : mem) (d n : Z) : Prop := 0 <= d /\ d + n <= Z.of_nat (length m).

Lemma blit_length m (d : Z) l : room m d (len l) -> length (blit m d l) = length m.
Proof. intros [Hd Hl]. unfold blit. rewrite !length_app, length_take, length_drop. lia. Qed.

Lemma rd_blit m (d : Z) l j :
  room m d (len l) ->
  rd (blit m d l) j = if bool_decide (d <= j < d + len l) then rd l (j - d) else rd m j.
Proof.
  intros [Hd Hl]. unfold rd, blit. destruct (decide (0 <= j)) as [Hj|Hj].
  2:{ rewrite !(bool_decide_eq_false_2 (0 <= j)) by lia. by rewrite bool_decide_eq_false_2 by lia. }
  rewrite !(bool_decide_eq_true_2 (0 <= j)) by lia. case_bool_decide.
  - rewrite bool_decide_eq_true_2 by lia. rewrite lookup_app_r by (rewrite length_take; lia).
    rewrite length_take, lookup_app_l by lia. f_equal. lia.
  - destruct (decide (j < d)).
    + rewrite lookup_app_l by (rewrite length_take; lia). apply lookup_take_lt. lia.
    + rewrite lookup_app_r, length_take by (rewrite length_take; lia).
      rewrite lookup_app_r, lookup_drop by lia. f_equal. lia.
Qed.

Lemma blit_nil m (d : Z) : 0 <= d -> blit m d [] = m.
Proof. intros Hd. unfold blit. simpl. by rewrite Nat.add_0_r, take_drop. Qed.

(** Reads outside the block. *)
Lemma rd_blit_out m (d : Z) l j :
  room m d (len l) -> j < d \/ d + len l <= j -> rd (blit m d l) j = rd m j.
Proof. intros Hr Hj. rewrite rd_blit by done. by rewrite bool_decide_eq_false_2 by lia. Qed.

(** One more byte at the end, or at the front. *)
Lemma blit_snoc m (d : Z) l x :
  room m d (len l + 1) -> wr (blit m d l) (d + len l) x = Some (blit m d (l ++ [x])).
Proof.
  intros [Hd Hl]. assert (room m d (len l)) as Hr by (split; lia).
  assert (room m d (len (l ++ [x]))) as Hr' by (split; rewrite ?length_app; simpl; lia).
  rewrite wr_Some by (rewrite blit_length by done; lia). f_equal.
  apply rd_ext; [by rewrite length_insert, !blit_length|]. intros i Hi.
  rewrite rd_insert by (rewrite blit_length by done; lia). rewrite !rd_blit by done.
  rewrite length_app. simpl. case_bool_decide as H1.
  - subst i. rewrite bool_decide_eq_true_2 by lia. unfold rd. rewrite bool_decide_eq_true_2 by lia.
    rewrite lookup_app_r by lia. replace (Z.to_nat (d + len l - d) - length l)%nat with 0%nat by lia. done.
  - repeat case_bool_decide; try lia; [|done].
    unfold rd. rewrite bool_decide_eq_true_2 by lia. by rewrite lookup_app_l by lia.
Qed.

Lemma blit_cons m (d : Z) l x :
  room m d (len l + 1) -> wr (blit m (d + 1) l) d x = Some (blit m d (x :: l)).
Proof.
  intros [Hd Hl]. assert (room m (d + 1) (len l)) as Hr by (split; lia).
  assert (room m d (len (x :: l))) as Hr' by (split; simpl; lia).
  rewrite wr_Some by (rewrite blit_length by done; lia). f_equal.
  apply rd_ext; [by rewrite length_insert, !blit_length|]. intros i Hi.
  rewrite rd_insert by (rewrite blit_length by done; lia). rewrite !rd_blit by done. simpl length.
  case_bool_decide as H1.
  - subst i. rewrite bool_decide_eq_true_2 by lia. by rewrite Z.sub_diag.
  - repeat case_bool_decide; try lia; [|done]. unfold rd. rewrite !bool_decide_eq_true_2 by lia.
    replace (Z.to_nat (i - d)) with (S (Z.to_nat (i - (d + 1)))) by lia. done.
Qed.

(** Prefixes and suffixes of a list, one element at a time. *)
Lemma take_ch l k : 0 <= k < len l -> take (Z.to_nat (k + 1)) l = take (Z.to_nat k) l ++ [ch l k].
Proof.
  intros Hk. replace (Z.to_nat (k + 1)) with (S (Z.to_nat k)) by lia.
  destruct (lookup_lt_is_Some_2 l (Z.to_nat k)) as [x Hx]; [lia|].
  rewrite (take_S_r _ _ _ Hx). unfold ch. by rewrite Hx.
Qed.

Lemma drop_ch l k : 0 <= k < len l -> drop (Z.to_nat k) l = ch l k :: drop (Z.to_nat (k + 1)) l.
Proof.
  intros Hk. destruct (lookup_lt_is_Some_2 l (Z.to_nat k)) as [x Hx]; [lia|].
  rewrite (drop_S _ _ _ Hx). unfold ch. rewrite Hx. simpl. do 2 f_equal. lia.
Qed.

Lemma len_take l k : 0 <= k <= len l -> len (take (Z.to_nat k) l) = k.
Proof. intros Hk. rewrite length_take. lia. Qed.

(** A byte written after the first [k] of a block. *)
Lemma blit_step m (d : Z) l k :
  room m d (len l) -> 0 <= k < len l ->
  wr (blit m d (take (Z.to_nat k) l)) (d + k) (ch l k) = Some (blit m d (take (Z.to_nat (k + 1)) l)).
Proof.
  intros [Hd Hl] Hk. rewrite take_ch by done. rewrite <- blit_snoc by (rewrite len_take; [split; lia|lia]).
  by rewrite len_take by lia.
Qed.

(** * Blocks of memory *)

Lemma bytes_room m p d : bytes_at m p d -> 0 < len d -> room m p (len d).
Proof.
  intros (_ & Hp & Hrd) Hpos. split; [done|]. specialize (Hrd (len d - 1) ltac:(lia)).
  apply rd_inv in Hrd as [? _]. lia.
Qed.

Lemma memcpy_bytes_spec m dest src d :
  bytes_at m src d -> room m dest (len d) -> dest <= src \/ src + len d <= dest ->
  memcpy_bytes m dest src (len d) = Some (blit m dest d).
Proof.
  intros Hd Hroom Hov. unfold memcpy_bytes. pose proof (bytes_fuel m src d Hd).
  pose proof Hroom as [Hd0 Hdl].
  scan_with (fun k => (blit m dest (take (Z.to_nat k) d), dest + k, src + k, len d - k)) (len d)
    (fun _ => false) (fun _ => m) (blit m dest d) as (r & -> & [(k & _ & ? & _)|[_ ->]]);
    [| | | |done|done].
  - simpl. rewrite blit_nil by lia. same_state.
  - lia.
  - intros k Hk _. rewrite (proj2 (Z.eqb_neq (len d - k) 0)) by lia.
    rewrite rd_blit_out; [|split; rewrite ?len_take; lia|rewrite len_take by lia; lia].
    rewrite (bytes_rd m src d) by done. cbn [mbind option_bind].
    rewrite blit_step by done. cbn [mbind option_bind]. same_state.
  - intros _. rewrite Z.sub_diag, Nat2Z.id, firstn_all. done.
Qed.

Lemma memmove_spec m dest src d :
  bytes_at m src d -> room m dest (len d) -> memmove m dest src (len d) = Some (blit m dest d).
Proof.
  intros Hd Hroom. unfold memmove. destruct (dest <=? src) eqn:E; zbool.
  { apply memcpy_bytes_spec; auto. }
  pose proof (bytes_fuel m src d Hd). pose proof Hroom as [Hd0 Hdl].
  scan_with (fun k => (blit m (dest + (len d - k)) (drop (Z.to_nat (len d - k)) d),
      dest + (len d - k), src + (len d - k), len d - k)) (len d)
    (fun _ => false) (fun _ => m) (blit m dest d) as (r & -> & [(k & _ & ? & _)|[_ ->]]);
    [| | | |done|done].
  - rewrite Z.sub_0_r, Nat2Z.id, drop_all, blit_nil by lia. done.
  - lia.
  - intros k Hk _. rewrite (proj2 (Z.eqb_neq (len d - k) 0)) by lia.
    set (j := len d - k - 1). replace (len d - k) with (j + 1) by lia.
    replace (len d - (k + 1)) with j by lia.
    assert (len (drop (Z.to_nat (j + 1)) d) = k) as Hlen by (rewrite length_drop; lia).
    replace (src + (j + 1) - 1) with (src + j) by lia. replace (dest + (j + 1) - 1) with (dest + j) by lia.
    rewrite rd_blit_out; [|split; lia|lia]. rewrite (bytes_rd m src d) by (done || lia).
    cbn [mbind option_bind]. replace (dest + (j + 1)) with (dest + j + 1) by lia.
    rewrite blit_cons by (split; lia). cbn [mbind option_bind]. rewrite <- drop_ch by lia.
    same_state.
  - intros _. rewrite Z.sub_diag, Z.add_0_r. done.
Qed.

Lemma ch_replicate n x k : 0 <= k < Z.of_nat n -> ch (replicate n x) k = x.
Proof. intros Hk. unfold ch. by rewrite lookup_replicate_2 by lia. Qed.

Lemma memset_spec m (s : Z) c count :
  0 <= count -> room m s count ->
  memset m s c count = Some (blit m s (replicate (Z.to_nat count) (u8 c))).
Proof.
  intros Hc [Hs Hr]. unfold memset. set (l := replicate (Z.to_nat count) (u8 c)).
  assert (len l = count) as Hl by (subst l; rewrite length_replicate; lia).
  scan_with (fun k => (blit m s (take (Z.to_nat k) l), s + k, count - k)) count
    (fun _ => false) (fun _ => m) (blit m s l) as (r & -> & [(k & _ & ? & _)|[_ ->]]);
    [| | | |done|done].
  - simpl. rewrite blit_nil by lia. same_state.
  - unfold fuel. lia.
  - intros k Hk _. rewrite (proj2 (Z.eqb_neq (count - k) 0)) by lia.
    rewrite <- (ch_replicate (Z.to_nat count) (u8 c) k) by lia. fold l.
    rewrite blit_step by (split || idtac; lia). cbn [mbind option_bind]. same_state.
  - intros _. rewrite Z.sub_diag. simpl. by rewrite <- Hl, Nat2Z.id, firstn_all.
Qed.

(** * Copies of strings *)

Definition apart (a n b k : Z) : Prop := a + n <= b \/ b + k <= a.

Lemma cstr_bytes_take m p s n :
  cstr m p s -> 0 <= n <= len s -> bytes_at m p (take (Z.to_nat n) s).
Proof.
  intros Hs Hn. destruct (bytes_slice m p s 0 n (cstr_bytes _ _ _ Hs)) as [H _]; [lia..|].
  by rewrite Z.add_0_r, drop_0 in H.
Qed.

Lemma ch_snoc s k : 0 <= k <= len s -> ch (s ++ [0]) k = ch s k.
Proof.
  intros Hk. rewrite ch_app by lia. destruct (k <? len s) eqn:E; [done|]. zbool.
  assert (k = len s) as -> by lia. by rewrite Z.sub_diag, ch_end.
Qed.

Lemma strcpy_spec m dest src s :
  cstr m src s -> room m dest (len s + 1) -> apart dest (len s + 1) src (len s + 1) ->
  strcpy m dest src = Some (blit m dest (s ++ [0])).
Proof.
  intros Hs [Hd Hr] Hap. unfold strcpy, apart in *. set (l := s ++ [0]).
  assert (len l = len s + 1) as Hl by (subst l; rewrite length_app; simpl; lia).
  assert (room m dest (len l)) as Hroom by (split; lia).
  assert (forall k, 0 <= k <= len s -> rd (blit m dest (take (Z.to_nat k) l)) (src + k) = Some (ch s k))
    as Hread.
  { intros k Hk. rewrite rd_blit_out; [by apply cstr_rd|split; rewrite ?len_take; lia|].
    rewrite len_take by lia. lia. }
  scan_with (fun k => (blit m dest (take (Z.to_nat k) l), dest + k, src + k)) (len s)
    (fun _ => false) (fun _ => m) (blit m dest l) as (r & -> & [(k & _ & ? & _)|[_ ->]]);
    [| | | |done|done].
  - simpl. rewrite blit_nil by lia. same_state.
  - split; [lia|by eapply fuel_room].
  - intros k Hk _. rewrite Hread by lia. cbn [mbind option_bind].
    rewrite <- (ch_snoc s k) by lia. fold l. rewrite blit_step by (done || lia). cbn [mbind option_bind].
    unfold l. rewrite ch_snoc by lia. not_end Hs. simpl. same_state.
  - intros _. rewrite Hread by lia. cbn [mbind option_bind]. rewrite <- (ch_snoc s (len s)) by lia.
    fold l. rewrite blit_step by (done || lia). cbn [mbind option_bind]. unfold l.
    rewrite ch_snoc, ch_end by lia. simpl. fold l.
    replace (Z.to_nat (len s + 1)) with (length l) by lia. by rewrite firstn_all.
Qed.

(** What strncpy writes: the string, cut or padded with NULs to [count] bytes. *)
Definition padded (s : list Z) (count : Z) : list Z :=
  take (Z.to_nat count) (s ++ replicate (Z.to_nat count) 0).

Lemma padded_ch s count k :
  0 <= k < count -> ch (padded s count) k = ch s k /\ len (padded s count) = count.
Proof.
  intros Hk. unfold padded. split.
  - rewrite ch_take, (proj2 (Z.ltb_lt k count)), ch_app by lia.
    destruct (k <? len s) eqn:E; [done|]. zbool. rewrite ch_replicate by lia. by rewrite ch_ge.
  - rewrite length_take, length_app, length_replicate. lia.
Qed.

Lemma strncpy_spec m dest src s count :
  cstr m src s -> 0 <= count -> room m dest count -> apart dest count src (len s + 1) ->
  strncpy m dest src count = Some (blit m dest (padded s count)).
Proof.
  intros Hs Hc [Hd Hr] Hap. unfold strncpy, apart in *. set (l := padded s count).
  assert (len l = count) as Hl.
  { destruct (decide (count = 0)) as [->|]; [done|]. by apply (padded_ch s count 0); lia. }
  scan_with (fun k => (blit m dest (take (Z.to_nat k) l), dest + k, src + Z.min k (len s), count - k))
    count (fun _ => false) (fun _ => m) (blit m dest l) as (r & -> & [(k & _ & ? & _)|[_ ->]]);
    [| | | |done|done].
  - simpl. rewrite blit_nil by lia. same_state.
  - unfold fuel. lia.
  - intros k Hk _. rewrite (proj2 (Z.eqb_neq (count - k) 0)) by lia.
    rewrite rd_blit_out; [|split; rewrite ?len_take; lia|rewrite len_take by lia; lia].
    at_char Hs. assert (ch s (Z.min k (len s)) = ch l k) as Hck.
    { unfold l. rewrite (proj1 (padded_ch s count k Hk)).
      destruct (decide (k <= len s)); [by rewrite Z.min_l by lia|].
      rewrite Z.min_r by lia. by rewrite ch_end, ch_ge by lia. }
    rewrite (ch_zero m src s) by (done || lia).
    rewrite Hck, blit_step by (split || idtac; lia). cbn [mbind option_bind].
    destruct (Z.min k (len s) =? len s) eqn:E; zbool; simpl; same_state.
  - intros _. rewrite Z.sub_diag. simpl. by rewrite <- Hl, Nat2Z.id, firstn_all.
Qed.

(** The bounded copies: at most [size - 1] characters and always a terminator. *)
Lemma cut_copy m dest src s n :
  cstr m src s -> 0 <= n <= len s -> room m dest (n + 1) -> apart dest (n + 1) src (len s + 1) ->
  exists m1, memcpy_bytes m dest src n = Some m1 /\
    wr m1 (dest + n) 0 = Some (blit m dest (take (Z.to_nat n) s ++ [0])).
Proof.
  intros Hs Hn [Hd Hr] Hap. unfold apart in Hap. pose proof (cstr_bytes_take m src s n Hs Hn) as Hb.
  pose proof (len_take s n Hn) as Hl.
  pose proof (memcpy_bytes_spec m dest src _ Hb) as Hm. rewrite Hl in Hm.
  eexists. split; [apply Hm; unfold room; lia|].
  rewrite <- blit_snoc by (rewrite Hl; split; lia). by rewrite Hl.
Qed.

Lemma strlcpy_spec m dest src s size :
  cstr m src s -> 0 <= size -> room m dest (Z.min size (len s + 1)) ->
  apart dest size src (len s + 1) ->
  strlcpy m dest src size =
  Some (if size =? 0 then m else blit m dest (take (Z.to_nat (size - 1)) s ++ [0]), len s).
Proof.
  intros Hs Hsz [Hd Hr] Hap. unfold strlcpy, apart in *. rewrite (strlen_spec m src s Hs).
  cbn [mbind option_bind]. destruct (size =? 0) eqn:E; zbool; [done|]. simpl.
  set (n := if size <=? len s then size - 1 else len s).
  assert (n = Z.min (size - 1) (len s)) as Hn by (subst n; destruct (size <=? len s) eqn:E1; zbool; lia).
  destruct (cut_copy m dest src s n Hs) as (m1 & -> & Hw); [unfold room, apart; lia..|].
  cbn [mbind option_bind]. rewrite Hw. cbn [mbind option_bind]. do 4 f_equal.
  destruct (decide (size - 1 <= len s)); [f_equal; lia|]. rewrite !take_ge by lia. done.
Qed.

(** Appending: the destination string grows at its end. *)
Lemma strcat_spec m dest src s t :
  cstr m dest t -> cstr m src s -> room m (dest + len t) (len s + 1) ->
  apart (dest + len t) (len s + 1) src (len s + 1) ->
  strcat m dest src = Some (blit m (dest + len t) (s ++ [0])).
Proof.
  intros Ht Hs Hr Hap. unfold strcat. rewrite (str_end_spec m dest t Ht). cbn [mbind option_bind].
  by apply strcpy_spec.
Qed.

Lemma strlcat_spec m dest src s t count :
  cstr m dest t -> cstr m src s -> len t < count ->
  room m dest (Z.min count (len t + len s + 1)) ->
  apart (dest + len t) (count - len t) src (len s + 1) ->
  strlcat m dest src count =
  Some (blit m (dest + len t) (take (Z.to_nat (count - len t - 1)) s ++ [0]), len t + len s).
Proof.
  intros Ht Hs Hc [Hd Hr] Hap. unfold strlcat, apart in *.
  rewrite (strlen_spec m dest t Ht). cbn [mbind option_bind]. rewrite (strlen_spec m src s Hs).
  cbn [mbind option_bind]. cbv zeta. rewrite (proj2 (Z.leb_gt _ _)) by lia.
  set (n := if count - len t <=? len s then count - len t - 1 else len s).
  assert (n = Z.min (count - len t - 1) (len s)) as Hn
    by (subst n; destruct (count - len t <=? len s) eqn:E1; zbool; lia).
  destruct (cut_copy m (dest + len t) src s n Hs) as (m1 & -> & Hw); [unfold room, apart; lia..|].
  cbn [mbind option_bind]. rewrite Hw. cbn [mbind option_bind]. do 4 f_equal.
  destruct (decide (count - len t - 1 <= len s)); [f_equal; lia|]. rewrite !take_ge by lia. done.
Qed.

Lemma strncat_spec m dest src s t count :
  cstr m dest t -> cstr m src s -> 0 < count ->
  room m (dest + len t) (Z.min count (len s) + 1) ->
  apart (dest + len t) (Z.min count (len s) + 1) src (len s + 1) ->
  strncat m dest src count = Some (blit m (dest + len t) (take (Z.to_nat count) s ++ [0])).
Proof.
  intros Ht Hs Hc [Hd Hr] Hap. unfold strncat, apart in *.
  rewrite (proj2 (Z.eqb_neq count 0)) by lia. simpl. rewrite (str_end_spec m dest t Ht).
  cbn [mbind option_bind]. set (D := dest + len t) in *. set (u := take (Z.to_nat count) s).
  set (n := Z.min count (len s)) in *.
  assert (len u = n) as Hu by (subst u; rewrite length_take; lia).
  set (l := u ++ [0]). assert (len l = n + 1) as Hl by (subst l; rewrite length_app; simpl; lia).
  assert (forall k, 0 <= k < count -> 0 <= k <= len s -> ch l k = ch s k) as Hch.
  { intros k H1 H2. unfold l. rewrite ch_snoc by lia. unfold u. rewrite ch_take by lia.
    by rewrite (proj2 (Z.ltb_lt _ _)) by lia. }
  assert (forall k, 0 <= k <= n -> 0 <= k <= len s ->
    rd (blit m D (take (Z.to_nat k) l)) (src + k) = Some (ch s k)) as Hread.
  { intros k H1 H2. rewrite rd_blit_out; [by apply cstr_rd|split; rewrite ?len_take; lia|].
    rewrite len_take by lia. lia. }
  scan_with (fun k => (blit m D (take (Z.to_nat k) l), D + k, src + k, count - k)) (Z.min (count - 1) (len s))
    (fun _ => false) (fun _ => m) (blit m D l) as (r & Hrun & Hcase).
  - simpl. rewrite blit_nil by lia. same_state.
  - split; [lia|]. eapply fuel_room; [exact Hs|lia].
  - intros k Hk _. rewrite Hread by lia. cbn [mbind option_bind]. rewrite <- Hch by lia.
    rewrite blit_step by (split || idtac; lia). cbn [mbind option_bind]. rewrite Hch by lia. not_end Hs.
    simpl. rewrite (proj2 (Z.eqb_neq (count - k - 1) 0)) by lia. same_state.
  - intros _. set (k := Z.min (count - 1) (len s)). rewrite Hread by lia. cbn [mbind option_bind].
    rewrite <- Hch by lia. rewrite blit_step by (split || idtac; lia). cbn [mbind option_bind].
    rewrite Hch by lia. rewrite (ch_zero m src s) by (done || lia).
    destruct (k =? len s) eqn:E; zbool; simpl.
    + replace (Z.to_nat (k + 1)) with (length l) by lia. by rewrite firstn_all.
    + rewrite (proj2 (Z.eqb_eq (count - k - 1) 0)) by lia.
      assert (ch l (k + 1) = 0) as Hz by (unfold l; replace (k + 1) with (len u) by lia; rewrite ch_snoc, ch_end by lia; done).
      rewrite <- Hz. replace (D + k + 1) with (D + (k + 1)) by lia.
      rewrite blit_step by (split || idtac; lia). cbn [mbind option_bind].
      replace (Z.to_nat (k + 1 + 1)) with (length l) by lia. by rewrite firstn_all.
  - rewrite Hrun. destruct Hcase as [(k & _ & ? & _)|[_ ->]]; done.
Qed.

(** * The strings the copies leave *)

(** A terminated block after the characters already at [dest]. *)
Lemma cstr_blit m dest t s :
  Forall (fun c => 0 < c < 256) s -> Forall (fun c => 0 < c < 256) t ->
  (forall k, 0 <= k < len t -> rd m (dest + k) = Some (ch t k)) ->
  0 <= dest -> room m (dest + len t) (len s + 1) ->
  cstr (blit m (dest + len t) (s ++ [0])) dest (t ++ s).
Proof.
  intros Hs Ht Hrd Hd Hr. split; [by apply Forall_app|]. split; [done|]. intros k Hk.
  rewrite length_app in Hk.
  assert (room m (dest + len t) (len (s ++ [0]))) as Hr'.
  { destruct Hr. split; [done|]. rewrite length_app. simpl. lia. }
  rewrite rd_blit by done. rewrite ch_app by lia. rewrite length_app. simpl.
  destruct (k <? len t) eqn:E; zbool.
  - rewrite bool_decide_eq_false_2 by lia. apply Hrd. lia.
  - rewrite bool_decide_eq_true_2 by lia. replace (dest + k - (dest + len t)) with (k - len t) by lia.
    rewrite <- (ch_snoc s) by lia. unfold rd, ch. rewrite bool_decide_eq_true_2 by lia.
    destruct (lookup_lt_is_Some_2 (s ++ [0]) (Z.to_nat (k - len t))) as [x ->]; [|done].
    rewrite length_app. simpl. lia.
Qed.

Lemma cstr_copied m dest s :
  Forall (fun c => 0 < c < 256) s -> room m dest (len s + 1) -> cstr (blit m dest (s ++ [0])) dest s.
Proof.
  intros Hs Hr. pose proof (cstr_blit m dest [] s Hs) as H. simpl in H. rewrite Z.add_0_r in H.
  apply H; [done|lia|by destruct Hr|done].
Qed.

Lemma cstr_appended m dest t s :
  cstr m dest t -> Forall (fun c => 0 < c < 256) s -> room m (dest + len t) (len s + 1) ->
  cstr (blit m (dest + len t) (s ++ [0])) dest (t ++ s).
Proof.
  intros (Ht & Hd & Hrd) Hs Hr. apply cstr_blit; [done|done| |done|done]. intros. apply Hrd. lia.
Qed.

Lemma cstr_chars m p s : cstr m p s -> Forall (fun c => 0 < c < 256) s.
Proof. by intros [H _]. Qed.

Lemma chars_take n s :
  Forall (fun c => 0 < c < 256) s -> Forall (fun c => 0 < c < 256) (take n s).
Proof. apply Forall_take. Qed.

#[export] Hint Resolve cstr_chars chars_take : kernel.

(** * Splitting *)

(** A terminator written inside a string cuts it in two. *)
Lemma cstr_cut m p s k :
  cstr m p s -> 0 <= k <= len s ->
  exists m', wr m (p + k) 0 = Some m' /\ cstr m' p (take (Z.to_nat k) s) /\
    (k < len s -> cstr m' (p + k + 1) (drop (Z.to_nat (k + 1)) s)) /\
    length m' = length m /\ forall i, i <> p + k -> rd m' i = rd m i.
Proof.
  intros Hs Hk. pose proof Hs as (Hc & Hp & Hrd). pose proof (cstr_room m p s Hs).
  exists (<[Z.to_nat (p + k) := 0]> m).
  assert (forall i, rd (<[Z.to_nat (p + k) := 0]> m) i =
    if bool_decide (i = p + k) then Some 0 else rd m i) as Hget by (intros; apply rd_insert; lia).
  split; [apply wr_Some; lia|]. split; [|split; [|split]].
  - split; [by apply Forall_take|]. split; [done|]. rewrite len_take by lia. intros j Hj.
    rewrite Hget, ch_take by lia. case_bool_decide.
    + rewrite (proj2 (Z.ltb_ge j k)) by lia. done.
    + rewrite (proj2 (Z.ltb_lt j k)) by lia. apply Hrd. lia.
  - intros Hlt. destruct (cstr_drop m p s (k + 1) Hs) as (Hc' & Hp' & Hrd'); [lia|].
    rewrite Z.add_assoc in *. split; [done|]. split; [lia|]. intros j Hj. rewrite Hget.
    rewrite bool_decide_eq_false_2 by lia. by apply Hrd'.
  - apply length_insert.
  - intros i Hi. rewrite Hget. by rewrite bool_decide_eq_false_2.
Qed.

(** strsep cuts the string at the first delimiter and leaves the rest for the next call. *)
Lemma strsep_spec m p q s t :
  cstr m p s -> cstr m q t ->
  exists r m', first (fun k => ch s k ∈ t) (len s) r /\
    strsep m (Some p) q = Some (m', (fun k => p + k + 1) <$> r, Some p) /\
    match r with
    | None => m' = m
    | Some k => cstr m' p (take (Z.to_nat k) s) /\ cstr m' (p + k + 1) (drop (Z.to_nat (k + 1)) s) /\
        forall i, i <> p + k -> rd m' i = rd m i
    end.
Proof.
  intros Hs Ht. unfold strsep. destruct (strpbrk_spec m p q s t Hs Ht) as (r & -> & Hr).
  exists r. destruct r as [k|]; cbn [fmap option_fmap option_map mbind option_bind]; [|eauto].
  destruct Hr as (Hk & Hin & Hno).
  destruct (cstr_cut m p s k Hs) as (m' & -> & H1 & H2 & _ & H3); [lia|]. simpl. exists m'.
  split; [done|]. split; [done|]. split; [done|]. split; [apply H2; lia|done].
Qed.

Definition spaces (l : list Z) : Prop := Forall (fun c => isspace c = true) l.

Lemma spaces_ch l : (forall k, 0 <= k < len l -> isspace (ch l k) = true) -> spaces l.
Proof.
  intros H. apply Forall_lookup. intros i c Hi. pose proof (lookup_lt_Some _ _ _ Hi).
  specialize (H (Z.of_nat i) ltac:(lia)). unfold ch in H. by rewrite Nat2Z.id, Hi in H.
Qed.

(** The backward scan of strim stops at the last character that is not a space. *)
Lemma trim_end m p s :
  cstr m p s -> s <> [] -> isspace (ch s 0) = false ->
  exists e, 0 <= e < len s /\ isspace (ch s e) = false /\
    (forall j, e < j < len s -> isspace (ch s j) = true) /\
    loop (fuel m) (fun e =>
      if p <=? e then
        c ← rd m e;
        Some (if isspace c then Next (e - 1) else Ret e)
      else Some (Ret e)) (p + len s - 1) = Some (p + e).
Proof.
  intros Hs Hne H0. assert (0 < len s) as Hpos by (destruct s; simpl; [done|lia]).
  pose proof (cstr_room m p s Hs).
  scan_with (fun k => p + (len s - 1 - k)) (len s - 1)
    (fun k => negb (isspace (ch s (len s - 1 - k)))) (fun k => p + (len s - 1 - k)) p
    as (r & Hrun & Hr).
  - lia.
  - split; [lia|]. unfold fuel. lia.
  - intros k Hk _. rewrite (proj2 (Z.leb_le _ _)) by lia. at_char Hs.
    destruct (isspace (ch s (len s - 1 - k))); simpl; same_state.
  - intros _. rewrite (proj2 (Z.leb_le _ _)) by lia. rewrite Z.sub_diag, Z.add_0_r.
    replace (rd m p) with (rd m (p + 0)) by (f_equal; lia). at_char Hs. by rewrite H0.
  - rewrite Hrun. destruct Hr as [(k & Hk & HP & Hb & ->)|[Hb ->]].
    + exists (len s - 1 - k). split; [lia|]. split; [by apply negb_true_iff|]. split; [|done].
      intros j Hj. specialize (Hb (len s - 1 - j) ltac:(lia)). apply negb_false_iff in Hb.
      rewrite <- Hb. do 2 f_equal. lia.
    + exists 0. split; [lia|]. split; [done|]. split; [|f_equal; lia].
      intros j Hj. specialize (Hb (len s - 1 - j) ltac:(lia)). apply negb_false_iff in Hb.
      rewrite <- Hb. do 2 f_equal. lia.
Qed.

Lemma ch_drop s k j : 0 <= k -> 0 <= j -> ch (drop (Z.to_nat k) s) j = ch s (k + j).
Proof. intros. unfold ch. rewrite lookup_drop. do 2 f_equal. lia. Qed.

Lemma strim_spec m p s :
  cstr m p s ->
  exists m' a u b, s = a ++ u ++ b /\ spaces a /\ spaces b /\
    (u <> [] -> isspace (ch u 0) = false /\ isspace (ch u (len u - 1)) = false) /\
    strim m p = Some (m', p + len a) /\ cstr m' (p + len a) u /\ length m' = length m /\
    forall i, i <> p + len a + len u -> rd m' i = rd m i.
Proof.
  intros Hs. unfold strim. destruct (skip_spaces_spec m p s Hs) as (k & -> & Hk & Hnk & Hbk).
  cbn [mbind option_bind]. set (a := take (Z.to_nat k) s). set (v := drop (Z.to_nat k) s).
  assert (len a = k) as Ha by (apply len_take; lia).
  assert (spaces a) as Hsp.
  { apply spaces_ch. intros j Hj. unfold a. rewrite ch_take by lia.
    rewrite (proj2 (Z.ltb_lt j k)) by lia. apply Hbk. lia. }
  assert (cstr m (p + k) v) as Hv by (by apply cstr_drop).
  rewrite (strlen_spec m (p + k) v Hv). cbn [mbind option_bind].
  assert (s = a ++ v) as Hsv by (subst a v; by rewrite take_drop).
  destruct (len v =? 0) eqn:E; zbool.
  { assert (v = []) as Hnil by (destruct v; [done|simpl in E; lia]).
    exists m, a, [], []. rewrite Ha. rewrite Hnil in *.
    split_and!; [by rewrite app_nil_r in *|done|by apply Forall_nil|done|done|done|done|done]. }
  assert (isspace (ch v 0) = false) as Hv0 by (unfold v; rewrite ch_drop, Z.add_0_r by lia; done).
  destruct (trim_end m (p + k) v Hv) as (e & He & Hne & Hbe & ->);
    [by intros -> | done |]. cbn [mbind option_bind].
  replace (p + k + e + 1) with (p + k + (e + 1)) by lia.
  destruct (cstr_cut m (p + k) v (e + 1) Hv) as (m' & -> & Hu & _ & Hlen & Hout); [lia|]. simpl.
  exists m', a, (take (Z.to_nat (e + 1)) v), (drop (Z.to_nat (e + 1)) v).
  rewrite Ha, take_drop, len_take by lia. split; [done|]. split; [done|]. split; [|split; [|done]].
  - apply spaces_ch. intros j Hj. rewrite length_drop in Hj. rewrite ch_drop by lia. apply Hbe. lia.
  - intros _. rewrite !ch_take by lia. rewrite !(proj2 (Z.ltb_lt _ _)) by lia.
    by replace (e + 1 - 1) with e by lia.
Qed.

(** * What the copies guarantee *)

(** [blit m dest l] is [m] with [l] at [dest] and nothing else changed. *)
Lemma blit_spec m dest l :
  room m dest (len l) ->
  length (blit m dest l) = length m /\
  (forall k, 0 <= k < len l -> rd (blit m dest l) (dest + k) = Some (ch l k)) /\
  (forall i, i < dest \/ dest + len l <= i -> rd (blit m dest l) i = rd m i).
Proof.
  intros Hr. split; [by apply blit_length|]. split; [|intros i; by apply rd_blit_out].
  intros k Hk. rewrite rd_blit, bool_decide_eq_true_2 by (done || lia). replace (dest + k - dest) with k by lia.
  unfold rd, ch. rewrite bool_decide_eq_true_2 by lia.
  destruct (lookup_lt_is_Some_2 l (Z.to_nat k)) as [x ->]; [lia|done].
Qed.

(** C34: every function that writes changes one block of memory and no byte outside it ([blit m dest l] is
    [m] with the bytes [l] at [dest], and nothing else changed). With room for what is written and the
    source apart from it, strcpy and strcat write the whole string, strncat at most [n] further
    characters (none, and no byte, for 0), strlcpy and strlcat as much as fits in [n] bytes of the
    destination, each with a terminator, and the bounded ones return the length they tried to create;
    strlcat is a BUG where the destination string already fills the [n] bytes; strncpy writes
    exactly [n] bytes, the string cut or padded with NULs. memset fills; memcpy copies a source that does
    not start below the destination and reach into it, and memmove copies whatever the overlap.
    strsep returns the token before the first delimiter, terminated in place, and moves the cursor to
    the rest of the string, or to NULL after the last token; on a NULL cursor it answers NULL. strim strips
    exactly the leading and trailing spaces and terminates what is left. *)
Theorem string_updates :
  (forall m dest l, room m dest (len l) ->
     length (blit m dest l) = length m /\
     (forall k, 0 <= k < len l -> rd (blit m dest l) (dest + k) = Some (ch l k)) /\
     (forall i, i < dest \/ dest + len l <= i -> rd (blit m dest l) i = rd m i)) /\
  (forall m dest src s n, cstr m src s -> 0 <= n ->
     (room m dest (len s + 1) -> apart dest (len s + 1) src (len s + 1) ->
        strcpy m dest src = Some (blit m dest (s ++ [0])) /\ cstr (blit m dest (s ++ [0])) dest s) /\
     (room m dest n -> apart dest n src (len s + 1) ->
        strncpy m dest src n = Some (blit m dest (padded s n)) /\ len (padded s n) = n) /\
     (room m dest (Z.min n (len s + 1)) -> apart dest n src (len s + 1) ->
        let u := take (Z.to_nat (n - 1)) s in
        strlcpy m dest src n = Some (if n =? 0 then m else blit m dest (u ++ [0]), len s) /\
        (0 < n -> cstr (blit m dest (u ++ [0])) dest u))) /\
  (forall m dest src s t n, cstr m dest t -> cstr m src s -> 0 <= n ->
     (room m (dest + len t) (len s + 1) -> apart (dest + len t) (len s + 1) src (len s + 1) ->
        strcat m dest src = Some (blit m (dest + len t) (s ++ [0])) /\
        cstr (blit m (dest + len t) (s ++ [0])) dest (t ++ s)) /\
     (room m (dest + len t) (Z.min n (len s) + 1) -> apart (dest + len t) (Z.min n (len s) + 1) src (len s + 1) ->
        let u := take (Z.to_nat n) s in
        strncat m dest src n = Some (if n =? 0 then m else blit m (dest + len t) (u ++ [0])) /\
        cstr (if n =? 0 then m else blit m (dest + len t) (u ++ [0])) dest (t ++ u)) /\
     (len t < n -> room m dest (Z.min n (len t + len s + 1)) -> apart (dest + len t) (n - len t) src (len s + 1) ->
        let u := take (Z.to_nat (n - len t - 1)) s in
        strlcat m dest src n = Some (blit m (dest + len t) (u ++ [0]), len t + len s) /\
        cstr (blit m (dest + len t) (u ++ [0])) dest (t ++ u)) /\
     (n <= len t -> strlcat m dest src n = None)) /\
  (forall m dest c n, 0 <= n -> room m dest n ->
     memset m dest c n = Some (blit m dest (replicate (Z.to_nat n) (u8 c)))) /\
  (forall m dest src d, bytes_at m src d -> room m dest (len d) ->
     memmove m dest src (len d) = Some (blit m dest d) /\
     (dest <= src \/ src + len d <= dest -> memcpy_bytes m dest src (len d) = Some (blit m dest d))) /\
  (forall m p q s t,
    cstr m p s -> cstr m q t ->
      strsep m None q = Some (m, None, None) /\
      (exists r m', first (fun k => ch s k ∈ t) (len s) r /\
        strsep m (Some p) q = Some (m', (fun k => p + k + 1) <$> r, Some p) /\
        match r with
        | None => m' = m
        | Some k => cstr m' p (take (Z.to_nat k) s) /\ cstr m' (p + k + 1) (drop (Z.to_nat (k + 1)) s) /\
            forall i, i <> p + k -> rd m' i = rd m i
        end) /\
      (exists m' a u b, s = a ++ u ++ b /\ spaces a /\ spaces b /\
        (u <> [] -> isspace (ch u 0) = false /\ isspace (ch u (len u - 1)) = false) /\
        strim m p = Some (m', p + len a) /\ cstr m' (p + len a) u /\ length m' = length m /\
        forall i, i <> p + len a + len u -> rd m' i = rd m i)).
Proof.
  assert (forall k s, len (take k s) = Z.min (Z.of_nat k) (len s)) as Htk by (intros; rewrite length_take; lia).
  split; [exact blit_spec|]. split; [|split; [|split; [|split]]].
  - intros m dest src s n Hs Hn. split; [|split]; intros Hr Hap.
    + split; [by apply strcpy_spec|apply cstr_copied; eauto with kernel].
    + split; [by apply strncpy_spec|]. unfold padded. rewrite length_take, length_app, length_replicate. lia.
    + split; [by apply strlcpy_spec|]. intros Hpos. apply cstr_copied; [eauto with kernel|].
      destruct Hr as [Hd Hr]. split; [done|]. rewrite Htk. lia.
  - intros m dest src s t n Ht Hs Hn. split; [|split; [|split]].
    + intros Hr Hap. split; [by apply strcat_spec|apply cstr_appended; eauto with kernel].
    + intros Hr Hap u. destruct (n =? 0) eqn:E; zbool.
      { subst n. unfold strncat, u. simpl. rewrite app_nil_r. done. }
      split; [apply strncat_spec; done || lia|]. apply cstr_appended; [done|eauto with kernel|].
      destruct Hr as [Hd Hr]. split; [done|]. unfold u. rewrite Htk. lia.
    + intros Hlt Hr Hap u. split; [by apply strlcat_spec|]. apply cstr_appended; [done|eauto with kernel|].
      destruct Hr as [Hd Hr]. split; [lia|]. unfold u. rewrite Htk. lia.
    + intros Hle. unfold strlcat. rewrite (strlen_spec m dest t Ht), (strlen_spec m src s Hs). cbn [mbind option_bind].
      by rewrite (proj2 (Z.leb_le _ _)).
  - intros. by apply memset_spec.
  - intros m dest src d Hd Hr. split; [by apply memmove_spec|intros; by apply memcpy_bytes_spec].
  - intros m p q s t Hs Ht. split; [done|]. split; [by apply strsep_spec|by apply strim_spec].
Qed.

Lemma string_updates_witness :
  (* strlcpy of "abc" into 3 bytes *)
  strlcpy [97; 98; 99; 0; 7; 7; 7; 7; 7; 7] 4 0 3 = Some (blit [97; 98; 99; 0; 7; 7; 7; 7; 7; 7] 4 [97; 98; 0], 3) /\
  (* strncat of two characters *)
  strncat [97; 98; 99; 0; 120; 0; 7; 7; 7; 7] 4 0 2 = Some (blit [97; 98; 99; 0; 120; 0; 7; 7; 7; 7] 5 [97; 98; 0]) /\
  (* an overlapping memmove *)
  memmove [97; 98; 99; 0; 7; 7] 1 0 3 = Some (blit [97; 98; 99; 0; 7; 7] 1 [97; 98; 99]) /\
  (exists m' a u b, [32; 97; 32; 98; 9] = a ++ u ++ b /\ spaces a /\ spaces b /\
      (u <> [] -> isspace (ch u 0) = false /\ isspace (ch u (len u - 1)) = false) /\
      strim [32; 97; 32; 98; 9; 0; 44; 0] 0 = Some (m', 0 + len a) /\ cstr m' (0 + len a) u /\
      length m' = 8%nat /\ forall i, i <> 0 + len a + len u -> rd m' i = rd [32; 97; 32; 98; 9; 0; 44; 0] i).
Proof.
  destruct string_updates as (_ & H1 & H2 & _ & H3 & H4). split; [|split; [|split]].
  - apply (H1 [97; 98; 99; 0; 7; 7; 7; 7; 7; 7] 4 0 [97; 98; 99] 3);
      [apply cstr_intro; [reflexivity|lia|reflexivity]|lia|split; simpl; lia|right; simpl; lia].
  - apply (H2 [97; 98; 99; 0; 120; 0; 7; 7; 7; 7] 4 0 [97; 98; 99] [120] 2);
      [apply cstr_intro; [reflexivity|lia|reflexivity]..|lia|split; simpl; lia|right; simpl; lia].
  - apply (H3 [97; 98; 99; 0; 7; 7] 1 0 [97; 98; 99]); [|split; simpl; lia]. split; [solve_words|]. split; [lia|].
    intros k Hk. simpl in Hk. assert (k = 0 \/ k = 1 \/ k = 2) as [-> |[-> | ->]] by lia; reflexivity.
  - apply (H4 [32; 97; 32; 98; 9; 0; 44; 0] 0 6 [32; 97; 32; 98; 9] [44]);
      (apply cstr_intro; [reflexivity|lia|reflexivity]).
Defined.
