(* ===== verification/Vsprintf.v ===== *)
(** Number parsing and formatted output: lib/vsprintf.c.

    The string memory [w] holds formats, string arguments and what their pointers reach; the
    output buffer and the local buffers of the functions are separate arrays.  The arguments of a
    call are the words a va_list delivers. *)

From S2P Require Import Prelude Str.
From Stdlib Require Import Lia.

Definition s16 (x : Z) : Z := (x + 32768) mod 65536 - 32768.
Definition s8 (x : Z) : Z := (x + 128) mod 256 - 128.

(** * Parsing *)

Definition TOLOWER (x : Z) : Z := Z.lor x 0x20.

Definition simple_guess_base (m : mem) (cp : Z) : option Z :=
  c0 ← rd m cp;
  if c0 =? 48 then
    c1 ← rd m (cp + 1);
    if TOLOWER c1 =? 120 then
      c2 ← rd m (cp + 2);
      Some (if isxdigit c2 then 16 else 8)
    else Some 8
  else Some 10.

(** The result is the value and the end pointer. *)
Definition simple_strtoull (m : mem) (cp base : Z) : option (Z * Z) :=
  base ← (if base =? 0 then simple_guess_base m cp else Some base);
  pfx ← (if base =? 16 then
           c0 ← rd m cp;
           if c0 =? 48 then c1 ← rd m (cp + 1); Some (TOLOWER c1 =? 120) else Some false
         else Some false);
  loop (fuel m) (fun '(cp, result) =>
    c ← rd m cp;
    Some (if isxdigit c then
            let value := u32 (if isdigit c then c - 48 else TOLOWER c - 97 + 10) in
            if base <=? value then Ret (result, cp)
            else Next (cp + 1, u64 (result * base + value))
          else Ret (result, cp))) (if (pfx : bool) then cp + 2 else cp, 0).

Definition simple_strtoul (m : mem) (cp base : Z) : option (Z * Z) :=
  '(v, e) ← simple_strtoull m cp base;
  Some (u32 v, e).

Definition simple_strtol (m : mem) (cp base : Z) : option (Z * Z) :=
  c ← rd m cp;
  if c =? 45 then
    '(v, e) ← simple_strtoul m (cp + 1) base;
    Some (s32 (u32 (- v)), e)
  else
    '(v, e) ← simple_strtoul m cp base;
    Some (s32 v, e).

Definition simple_strtoll (m : mem) (cp base : Z) : option (Z * Z) :=
  c ← rd m cp;
  if c =? 45 then
    '(v, e) ← simple_strtoull m (cp + 1) base;
    Some (s64 (u64 (- v)), e)
  else
    '(v, e) ← simple_strtoull m cp base;
    Some (s64 v, e).

(** The strict conversions return the error code and what they leave in *res. *)
Definition strict_strtoul (m : mem) (cp base : Z) : option (Z * Z) :=
  len ← strlen m cp;
  if len =? 0 then Some (- EINVAL, 0)
  else
    '(val, tail) ← simple_strtoul m cp base;
    if tail =? cp then Some (- EINVAL, 0)
    else
      c ← rd m tail;
      if (c =? 0) || ((len =? u32 (tail - cp) + 1) && (c =? 10)) then Some (0, val)
      else Some (- EINVAL, 0).

Definition strict_strtol (m : mem) (cp base : Z) : option (Z * Z) :=
  c ← rd m cp;
  if c =? 45 then
    '(ret, res) ← strict_strtoul m (cp + 1) base;
    Some (ret, if ret =? 0 then s32 (- s32 res) else s32 res)
  else
    '(ret, res) ← strict_strtoul m cp base;
    Some (ret, s32 res).

Definition strict_strtoull (m : mem) (cp base : Z) : option (Z * Z) :=
  len ← strlen m cp;
  if len =? 0 then Some (- EINVAL, 0)
  else
    '(val, tail) ← simple_strtoull m cp base;
    if tail =? cp then Some (- EINVAL, 0)
    else
      c ← rd m tail;
      if (c =? 0) || ((len =? u32 (tail - cp) + 1) && (c =? 10)) then Some (0, val)
      else Some (- EINVAL, 0).

Definition strict_strtoll (m : mem) (cp base : Z) : option (Z * Z) :=
  c ← rd m cp;
  if c =? 45 then
    '(ret, res) ← strict_strtoull m (cp + 1) base;
    Some (ret, if ret =? 0 then s64 (- s64 res) else s64 res)
  else
    '(ret, res) ← strict_strtoull m cp base;
    Some (ret, s64 res).

(** [int] arithmetic wraps (the kernel is built with -fno-strict-overflow). *)
Definition skip_atoi (m : mem) (s : Z) : option (Z * Z) :=
  loop (fuel m) (fun '(s, i) =>
    c ← rd m s;
    Some (if isdigit c then Next (s + 1, s32 (i * 10 + c - 48)) else Ret (i, s))) (s, 0).

(** * Decimal digits, least significant first *)

Definition put_dec_trunc (m : mem) (buf q : Z) : option (mem * Z) :=
  let d1 := Z.land (Z.shiftr q 4) 0xf in
  let d2 := Z.land (Z.shiftr q 8) 0xf in
  let d3 := Z.shiftr q 12 in
  let d0 := u32 (6 * (d3 + d2 + d1) + Z.land q 0xf) in
  let q := Z.shiftr (u32 (d0 * 0xcd)) 11 in
  let d0 := u32 (d0 - 10 * q) in
  m ← wr m buf (u8 (d0 + 48));
  let buf := buf + 1 in
  let d1 := u32 (q + 9 * d3 + 5 * d2 + d1) in
  if negb (d1 =? 0) then
    let q := Z.shiftr (u32 (d1 * 0xcd)) 11 in
    let d1 := u32 (d1 - 10 * q) in
    m ← wr m buf (u8 (d1 + 48));
    let buf := buf + 1 in
    let d2 := u32 (q + 2 * d2) in
    if negb (d2 =? 0) || negb (d3 =? 0) then
      let q := Z.shiftr (u32 (d2 * 0xd)) 7 in
      let d2 := u32 (d2 - 10 * q) in
      m ← wr m buf (u8 (d2 + 48));
      let buf := buf + 1 in
      let d3 := u32 (q + 4 * d3) in
      if negb (d3 =? 0) then
        let q := Z.shiftr (u32 (d3 * 0xcd)) 11 in
        let d3 := u32 (d3 - 10 * q) in
        m ← wr m buf (u8 (d3 + 48));
        let buf := buf + 1 in
        if negb (q =? 0) then
          m ← wr m buf (u8 (q + 48));
          Some (m, buf + 1)
        else Some (m, buf)
      else Some (m, buf)
    else Some (m, buf)
  else Some (m, buf).

Definition put_dec_full (m : mem) (buf q : Z) : option (mem * Z) :=
  let d1 := Z.land (Z.shiftr q 4) 0xf in
  let d2 := Z.land (Z.shiftr q 8) 0xf in
  let d3 := Z.shiftr q 12 in
  let d0 := u32 (6 * (d3 + d2 + d1) + Z.land q 0xf) in
  let q := Z.shiftr (u32 (d0 * 0xcd)) 11 in
  let d0 := u32 (d0 - 10 * q) in
  m ← wr m buf (u8 (d0 + 48));
  let d1 := u32 (q + 9 * d3 + 5 * d2 + d1) in
  let q := Z.shiftr (u32 (d1 * 0xcd)) 11 in
  let d1 := u32 (d1 - 10 * q) in
  m ← wr m (buf + 1) (u8 (d1 + 48));
  let d2 := u32 (q + 2 * d2) in
  let q := Z.shiftr (u32 (d2 * 0xd)) 7 in
  let d2 := u32 (d2 - 10 * q) in
  m ← wr m (buf + 2) (u8 (d2 + 48));
  let d3 := u32 (q + 4 * d3) in
  let q := Z.shiftr (u32 (d3 * 0xcd)) 11 in
  let d3 := u32 (d3 - 10 * q) in
  m ← wr m (buf + 3) (u8 (d3 + 48));
  m ← wr m (buf + 4) (u8 (q + 48));
  Some (m, buf + 5).

(** A 64-bit number has at most four groups of five digits. *)
Definition put_dec (m : mem) (buf num : Z) : option (mem * Z) :=
  loop 5 (fun '(m, buf, num) =>
    if num <? 100000 then r ← put_dec_trunc m buf num; Some (Ret r)
    else
      let rem := num mod 100000 in
      let num := num / 100000 in
      '(m, buf) ← put_dec_full m buf rem;
      Some (Next (m, buf, num))) (m, buf, num).

(** * Conversion specifications *)

Definition ZEROPAD : Z := 1.
Definition SIGN : Z := 2.
Definition PLUS : Z := 4.
Definition SPACE : Z := 8.
Definition LEFT : Z := 16.
Definition SMALL : Z := 32.
Definition SPECIAL : Z := 64.

Inductive format_type : Type :=
| FORMAT_TYPE_NONE | FORMAT_TYPE_WIDTH | FORMAT_TYPE_PRECISION | FORMAT_TYPE_CHAR | FORMAT_TYPE_STR
| FORMAT_TYPE_PTR | FORMAT_TYPE_PERCENT_CHAR | FORMAT_TYPE_INVALID | FORMAT_TYPE_LONG_LONG
| FORMAT_TYPE_ULONG | FORMAT_TYPE_LONG | FORMAT_TYPE_UBYTE | FORMAT_TYPE_BYTE | FORMAT_TYPE_USHORT
| FORMAT_TYPE_SHORT | FORMAT_TYPE_UINT | FORMAT_TYPE_INT | FORMAT_TYPE_NRCHARS | FORMAT_TYPE_SIZE_T
| FORMAT_TYPE_PTRDIFF.

#[global] Instance format_type_eq_dec : EqDecision format_type.
Proof. solve_decision. Defined.

(** The widths are s16, the other fields u8. *)
Record printf_spec : Type := PrintfSpec {
  type : format_type;
  flags : Z;
  base : Z;
  qualifier : Z;
  field_width : Z;
  precision : Z
}.

Definition set_type (t : format_type) (s : printf_spec) : printf_spec :=
  PrintfSpec t s.(flags) s.(base) s.(qualifier) s.(field_width) s.(precision).
Definition set_flags (f : Z) (s : printf_spec) : printf_spec :=
  PrintfSpec s.(type) f s.(base) s.(qualifier) s.(field_width) s.(precision).
Definition set_base (b : Z) (s : printf_spec) : printf_spec :=
  PrintfSpec s.(type) s.(flags) b s.(qualifier) s.(field_width) s.(precision).
Definition set_qualifier (q : Z) (s : printf_spec) : printf_spec :=
  PrintfSpec s.(type) s.(flags) s.(base) q s.(field_width) s.(precision).
Definition set_width (w : Z) (s : printf_spec) : printf_spec :=
  PrintfSpec s.(type) s.(flags) s.(base) s.(qualifier) (s16 w) s.(precision).
Definition set_precision (p : Z) (s : printf_spec) : printf_spec :=
  PrintfSpec s.(type) s.(flags) s.(base) s.(qualifier) s.(field_width) (s16 p).

Definition has (s : printf_spec) (f : Z) : bool := negb (Z.land s.(flags) f =? 0).
Definition add_flag (f : Z) (s : printf_spec) : printf_spec := set_flags (Z.lor s.(flags) f) s.

(** * Output

    [if (buf < end) *buf = c; ++buf;] *)

Definition put (end_ c : Z) (b : mem * Z) : option (mem * Z) :=
  let '(m, buf) := b in
  if buf <? end_ then m ← wr m buf c; Some (m, buf + 1) else Some (m, buf + 1).

(** An s16 counter that is decremented at each turn is done after 65536 turns. *)
Definition width_fuel : nat := Z.to_nat 65537.

(** [while (--fw >= 0) put(c);] on an s16 counter. *)
Definition pad (end_ c : Z) (fw : Z) (b : mem * Z) : option (Z * (mem * Z)) :=
  loop width_fuel (fun '(fw, b) =>
    let fw := s16 (fw - 1) in
    if 0 <=? fw then b ← put end_ c b; Some (Next (fw, b)) else Some (Ret (fw, b))) (fw, b).

(** The digits of an octal or hexadecimal number, reversed, in tmp. *)
Definition digits : list Z := [48; 49; 50; 51; 52; 53; 54; 55; 56; 57; 65; 66; 67; 68; 69; 70].

Definition put_pow2 (tmp : mem) (num base locase : Z) : option (mem * Z) :=
  let mask := base - 1 in
  let shift := if base =? 16 then 4 else 3 in
  loop 66 (fun '(tmp, i, num) =>
    d ← rd digits (Z.land (u8 num) mask);
    tmp ← wr tmp i (Z.lor d locase);
    let num := Z.shiftr num shift in
    Some (if negb (num =? 0) then Next (tmp, i + 1, num) else Ret (tmp, i + 1))) (tmp, 0, num).

(** The second half of number(): the sign, prefix, padding and the [i] digits of tmp. *)
Definition number_emit (m : mem) (buf end_ sign : Z) (need_pfx : bool) (locase : Z) (tmp : mem) (i : Z)
    (spec : printf_spec) : option (mem * Z) :=
  let spec := if spec.(precision) <? i then set_precision i spec else spec in
  let spec := set_width (spec.(field_width) - spec.(precision)) spec in
  '(fw, b) ← (if negb (has spec (ZEROPAD + LEFT)) then pad end_ 32 spec.(field_width) (m, buf)
              else Some (spec.(field_width), (m, buf)));
  b ← (if negb (sign =? 0) then put end_ sign b else Some b);
  b ← (if need_pfx then
         b ← put end_ 48 b;
         if spec.(base) =? 16 then put end_ (Z.lor 88 locase) b else Some b
       else Some b);
  '(fw, b) ← (if negb (has spec LEFT) then
                let c := if has spec ZEROPAD then 48 else 32 in
                pad end_ c fw b
              else Some (fw, b));
  b ← loop width_fuel (fun '(prec, b) =>
        let prec := s16 (prec - 1) in
        if i <=? prec then b ← put end_ 48 b; Some (Next (prec, b)) else Some (Ret b))
        (spec.(precision), b);
  b ← loop 67 (fun '(i, b) =>
        let i := i - 1 in
        if 0 <=? i then
          c ← rd tmp i;
          b ← put end_ c b;
          Some (Next (i, b))
        else Some (Ret b)) (i, b);
  '(_, b) ← pad end_ 32 fw b;
  Some b.

Definition number (m : mem) (buf end_ num : Z) (spec : printf_spec) : option (mem * Z) :=
  let tmp := replicate 66 0 in
  let need_pfx := has spec SPECIAL && negb (spec.(base) =? 10) in
  let locase := Z.land spec.(flags) SMALL in
  let spec := if has spec LEFT then set_flags (Z.land spec.(flags) (Z.lnot ZEROPAD)) spec else spec in
  let '(sign, num, spec) :=
    if has spec SIGN then
      if s64 num <? 0 then (45, u64 (- s64 num), set_width (spec.(field_width) - 1) spec)
      else if has spec PLUS then (43, num, set_width (spec.(field_width) - 1) spec)
      else if has spec SPACE then (32, num, set_width (spec.(field_width) - 1) spec)
      else (0, num, spec)
    else (0, num, spec) in
  let spec :=
    if (need_pfx : bool) then
      let spec := set_width (spec.(field_width) - 1) spec in
      if spec.(base) =? 16 then set_width (spec.(field_width) - 1) spec else spec
    else spec in
  '(tmp, i) ← (if num =? 0 then tmp ← wr tmp 0 48; Some (tmp, 1)
               else if negb (spec.(base) =? 10) then put_pow2 tmp num spec.(base) locase
               else put_dec tmp 0 num);
  number_emit m buf end_ sign need_pfx locase tmp i spec.

(** [while (len < spec.field_width--) put(' ');] *)
Definition pad_to (end_ len fw : Z) (b : mem * Z) : option (Z * (mem * Z)) :=
  loop width_fuel (fun '(fw, b) =>
    if len <? fw then b ← put end_ 32 b; Some (Next (s16 (fw - 1), b))
    else Some (Ret (s16 (fw - 1), b))) (fw, b).

Definition PAGE_SIZE : Z := 4096.

Definition null_text : mem := [40; 110; 117; 108; 108; 41; 0].

(** [string] on an array [w] and the position of the string in it. *)
Definition string_at (w : mem) (m : mem) (buf end_ s : Z) (spec : printf_spec) : option (mem * Z) :=
  len ← strnlen w s (u32 spec.(precision));
  '(fw, b) ← (if negb (has spec LEFT) then pad_to end_ len spec.(field_width) (m, buf)
              else Some (spec.(field_width), (m, buf)));
  b ← foreach 0 len (fun i b => c ← rd w (s + i); put end_ c b) b;
  '(_, b) ← pad_to end_ len fw b;
  Some b.

Definition string (w : mem) (m : mem) (buf end_ s : Z) (spec : printf_spec) : option (mem * Z) :=
  if s <? PAGE_SIZE then string_at null_text m buf end_ 0 spec else string_at w m buf end_ s spec.

(** * Pointers

    Each extension builds a string in a local buffer and prints it with [string].  The %pF, %pf,
    %pS, %ps (symbol table), %pR, %pr (struct resource) and %pI6c forms are not modelled. *)

Definition hex_asc : list Z := [48; 49; 50; 51; 52; 53; 54; 55; 56; 57; 97; 98; 99; 100; 101; 102].

Definition pack_hex_byte (b : mem * Z) (byte : Z) : option (mem * Z) :=
  let '(m, buf) := b in
  hi ← rd hex_asc (Z.shiftr (Z.land byte 0xf0) 4);
  m ← wr m buf hi;
  lo ← rd hex_asc (Z.land byte 0x0f);
  m ← wr m (buf + 1) lo;
  Some (m, buf + 2).

Definition mac_address_string (w : mem) (addr fmt : Z) : option mem :=
  f0 ← rd w fmt;
  f1 ← rd w (fmt + 1);
  let separator := if f1 =? 70 then 45 else 58 in
  '(m, p) ← foreach 0 6 (fun i b =>
    a ← rd w (addr + i);
    '(m, p) ← pack_hex_byte b a;
    if (f0 =? 77) && negb (i =? 5) then m ← wr m p separator; Some (m, p + 1) else Some (m, p))
    (replicate 18 0, 0);
  wr m p 0.

Definition ip4_string (w : mem) (addr fmt : Z) : option mem :=
  f0 ← rd w fmt;
  f2 ← rd w (fmt + 2);
  let leading_zeros := f0 =? 105 in
  let '(index, step) := if (f2 =? 104) || (f2 =? 108) then (3, -1) else (0, 1) in
  '(m, p, _) ← foreach 0 4 (fun i '(m, p, index) =>
    a ← rd w (addr + index);
    '(temp, digits) ← put_dec_trunc (replicate 3 0) 0 a;
    '(m, p) ← (if leading_zeros && (digits <? 3) then m ← wr m p 48; Some (m, p + 1) else Some (m, p));
    '(m, p) ← (if leading_zeros && (digits <? 2) then m ← wr m p 48; Some (m, p + 1) else Some (m, p));
    '(m, p) ← loop 4 (fun '(m, p, digits) =>
      if digits =? 0 then Some (Ret (m, p))
      else
        c ← rd temp (digits - 1);
        m ← wr m p c;
        Some (Next (m, p + 1, digits - 1))) (m, p, digits);
    '(m, p) ← (if i <? 3 then m ← wr m p 46; Some (m, p + 1) else Some (m, p));
    Some (m, p, index + step)) (replicate 16 0, 0, index);
  wr m p 0.

Definition ip6_string (w : mem) (addr fmt : Z) : option mem :=
  f0 ← rd w fmt;
  '(m, p) ← foreach 0 8 (fun i b =>
    a ← rd w (addr + 2 * i);
    b ← pack_hex_byte b a;
    a ← rd w (addr + 2 * i + 1);
    '(m, p) ← pack_hex_byte b a;
    if (f0 =? 73) && negb (i =? 7) then m ← wr m p 58; Some (m, p + 1) else Some (m, p))
    (replicate 46 0, 0);
  wr m p 0.

Definition uuid_be : list Z := [0; 1; 2; 3; 4; 5; 6; 7; 8; 9; 10; 11; 12; 13; 14; 15].
Definition uuid_le : list Z := [3; 2; 1; 0; 5; 4; 7; 6; 8; 9; 10; 11; 12; 13; 14; 15].

Definition uuid_string (w : mem) (addr fmt : Z) : option mem :=
  f1 ← rd w (fmt + 1);
  let '(index, uc) :=
    if f1 =? 76 then (uuid_le, true)
    else if f1 =? 108 then (uuid_le, false)
    else if f1 =? 66 then (uuid_be, true)
    else (uuid_be, false) in
  '(m, p) ← foreach 0 16 (fun i b =>
    k ← rd index i;
    a ← rd w (addr + k);
    '(m, p) ← pack_hex_byte b a;
    if (i =? 3) || (i =? 5) || (i =? 7) || (i =? 9) then m ← wr m p 45; Some (m, p + 1)
    else Some (m, p)) (replicate 37 0, 0);
  m ← wr m p 0;
  if (uc : bool) then
    loop 37 (fun '(m, p) =>
      c ← rd m p;
      m ← wr m p (toupper c);
      n ← rd m (p + 1);
      Some (if negb (n =? 0) then Next (m, p + 1) else Ret m)) (m, 0)
  else Some m.

(** The local string a %p extension prints; [None] when the pointer is printed as a number. *)
Definition pointer_text (w : mem) (fmt ptr : Z) : option (option mem) :=
  if ptr =? 0 then Some (Some null_text)
  else
    c ← rd w fmt;
    if (c =? 70) || (c =? 102) || (c =? 83) || (c =? 115) || (c =? 82) || (c =? 114) then None
    else if (c =? 77) || (c =? 109) then Some <$> mac_address_string w ptr fmt
    else if (c =? 73) || (c =? 105) then
      f1 ← rd w (fmt + 1);
      if f1 =? 54 then
        f2 ← rd w (fmt + 2);
        if (c =? 73) && (f2 =? 99) then None else Some <$> ip6_string w ptr fmt
      else if f1 =? 52 then Some <$> ip4_string w ptr fmt
      else Some None
    else if c =? 85 then Some <$> uuid_string w ptr fmt
    else Some None.

(** The specification of a pointer printed as a number. *)
Definition pointer_spec (spec : printf_spec) : printf_spec :=
  let spec := add_flag SMALL spec in
  let spec := if spec.(field_width) =? -1 then add_flag ZEROPAD (set_width 8 spec) else spec in
  set_base 16 spec.

Definition pointer (w : mem) (fmt : Z) (m : mem) (buf end_ ptr : Z) (spec : printf_spec)
  : option (mem * Z) :=
  t ← pointer_text w fmt ptr;
  match t with
  | Some s => string_at s m buf end_ 0 spec
  | None => number m buf end_ ptr (pointer_spec spec)
  end.

(** * Decoding a format

    The three labels of format_decode are three functions; each returns the number of characters
    read from [start] and the specification. *)

Definition fd_number (m : mem) (start fmt : Z) (spec : printf_spec) : option (Z * printf_spec) :=
  let sg := has spec SIGN in
  let q := spec.(qualifier) in
  let t :=
    if q =? 76 then FORMAT_TYPE_LONG_LONG
    else if q =? 108 then if sg then FORMAT_TYPE_LONG else FORMAT_TYPE_ULONG
    else if TOLOWER q =? 122 then FORMAT_TYPE_SIZE_T
    else if q =? 116 then FORMAT_TYPE_PTRDIFF
    else if q =? 72 then if sg then FORMAT_TYPE_BYTE else FORMAT_TYPE_UBYTE
    else if q =? 104 then if sg then FORMAT_TYPE_SHORT else FORMAT_TYPE_USHORT
    else if sg then FORMAT_TYPE_INT else FORMAT_TYPE_UINT in
  Some (fmt + 1 - start, set_type t spec).

Definition fd_qualifier (m : mem) (start fmt : Z) (spec : printf_spec) : option (Z * printf_spec) :=
  let spec := set_qualifier 255 spec in
  c ← rd m fmt;
  '(fmt, spec) ←
    (if (c =? 104) || (TOLOWER c =? 108) || (TOLOWER c =? 122) || (c =? 116) then
       let spec := set_qualifier c spec in
       let fmt := fmt + 1 in
       c' ← rd m fmt;
       Some (if c =? c' then
               if c =? 108 then (fmt + 1, set_qualifier 76 spec)
               else if c =? 104 then (fmt + 1, set_qualifier 72 spec)
               else (fmt, spec)
             else (fmt, spec))
     else Some (fmt, spec));
  let spec := set_base 10 spec in
  c ← rd m fmt;
  if c =? 99 then Some (fmt + 1 - start, set_type FORMAT_TYPE_CHAR spec)
  else if c =? 115 then Some (fmt + 1 - start, set_type FORMAT_TYPE_STR spec)
  else if c =? 112 then Some (fmt - start, set_type FORMAT_TYPE_PTR spec)
  else if c =? 110 then Some (fmt + 1 - start, set_type FORMAT_TYPE_NRCHARS spec)
  else if c =? 37 then Some (fmt + 1 - start, set_type FORMAT_TYPE_PERCENT_CHAR spec)
  else if c =? 111 then fd_number m start fmt (set_base 8 spec)
  else if c =? 120 then fd_number m start fmt (set_base 16 (add_flag SMALL spec))
  else if c =? 88 then fd_number m start fmt (set_base 16 spec)
  else if (c =? 100) || (c =? 105) then fd_number m start fmt (add_flag SIGN spec)
  else if c =? 117 then fd_number m start fmt spec
  else Some (fmt - start, set_type FORMAT_TYPE_INVALID spec).

Definition fd_precision (m : mem) (start fmt : Z) (spec : printf_spec) : option (Z * printf_spec) :=
  let spec := set_precision (-1) spec in
  c ← rd m fmt;
  if c =? 46 then
    let fmt := fmt + 1 in
    c ← rd m fmt;
    if isdigit c then
      '(i, fmt) ← skip_atoi m fmt;
      let spec := set_precision i spec in
      let spec := if spec.(precision) <? 0 then set_precision 0 spec else spec in
      fd_qualifier m start fmt spec
    else if c =? 42 then Some (fmt + 1 - start, set_type FORMAT_TYPE_PRECISION spec)
    else fd_qualifier m start fmt spec
  else fd_qualifier m start fmt spec.

(** The character of each flag. *)
Definition flag_of (c : Z) : option Z :=
  if c =? 45 then Some LEFT
  else if c =? 43 then Some PLUS
  else if c =? 32 then Some SPACE
  else if c =? 35 then Some SPECIAL
  else if c =? 48 then Some ZEROPAD
  else None.

Definition format_decode (m : mem) (fmt : Z) (spec : printf_spec) : option (Z * printf_spec) :=
  let start := fmt in
  match spec.(type) with
  | FORMAT_TYPE_WIDTH =>
      let spec :=
        if spec.(field_width) <? 0 then add_flag LEFT (set_width (- spec.(field_width)) spec)
        else spec in
      fd_precision m start fmt (set_type FORMAT_TYPE_NONE spec)
  | FORMAT_TYPE_PRECISION =>
      let spec := if spec.(precision) <? 0 then set_precision 0 spec else spec in
      fd_qualifier m start fmt (set_type FORMAT_TYPE_NONE spec)
  | _ =>
      let spec := set_type FORMAT_TYPE_NONE spec in
      fmt ← loop (fuel m) (fun fmt =>
        c ← rd m fmt;
        Some (if c =? 0 then Ret fmt else if c =? 37 then Ret fmt else Next (fmt + 1))) fmt;
      c ← rd m fmt;
      if negb (fmt =? start) || (c =? 0) then Some (fmt - start, spec)
      else
        '(fmt, spec) ← loop (fuel m) (fun '(fmt, spec) =>
          let fmt := fmt + 1 in
          c ← rd m fmt;
          Some (match flag_of c with
                | Some f => Next (fmt, add_flag f spec)
                | None => Ret (fmt, spec)
                end)) (fmt, set_flags 0 spec);
        let spec := set_width (-1) spec in
        c ← rd m fmt;
        if isdigit c then
          '(i, fmt) ← skip_atoi m fmt;
          fd_precision m start fmt (set_width i spec)
        else if c =? 42 then Some (fmt + 1 - start, set_type FORMAT_TYPE_WIDTH spec)
        else fd_precision m start fmt spec
  end.

(** * vsnprintf *)

(** One argument: a 32-bit word (int, long, size_t, pointer) or a 64-bit one. *)
Inductive arg : Type := W32 (x : Z) | W64 (x : Z).

Definition va_word (args : list arg) : option (Z * list arg) :=
  match args with W32 x :: args => Some (u32 x, args) | _ => None end.

(** The integer a conversion prints, as an unsigned long long. *)
Definition va_num (t : format_type) (args : list arg) : option (Z * list arg) :=
  match t with
  | FORMAT_TYPE_LONG_LONG =>
      match args with W64 x :: args => Some (u64 x, args) | _ => None end
  | _ =>
      '(x, args) ← va_word args;
      Some (match t with
            | FORMAT_TYPE_ULONG | FORMAT_TYPE_SIZE_T => x
            | FORMAT_TYPE_LONG | FORMAT_TYPE_PTRDIFF => u64 (s32 x)
            | FORMAT_TYPE_UBYTE => u8 x
            | FORMAT_TYPE_BYTE => u64 (s8 x)
            | FORMAT_TYPE_USHORT => u16 x
            | FORMAT_TYPE_SHORT => u64 (s16 x)
            | FORMAT_TYPE_INT => u64 (s32 x)
            | _ => x
            end, args)
  end.

(** [while (--spec.field_width > 0) put(' ');] *)
Definition pad_char (end_ fw : Z) (b : mem * Z) : option (Z * (mem * Z)) :=
  loop width_fuel (fun '(fw, b) =>
    let fw := s16 (fw - 1) in
    if 0 <? fw then b ← put end_ 32 b; Some (Next (fw, b)) else Some (Ret (fw, b))) (fw, b).

Definition print_char (m : mem) (str end_ c : Z) (spec : printf_spec) : option (mem * Z) :=
  '(fw, b) ← (if negb (has spec LEFT) then pad_char end_ spec.(field_width) (m, str)
              else Some (spec.(field_width), (m, str)));
  b ← put end_ (u8 c) b;
  '(_, b) ← pad_char end_ fw b;
  Some b.

(** A word stored little-endian, for %n. *)
Definition store32 (m : mem) (p x : Z) : option mem :=
  m ← wr m p (u8 x);
  m ← wr m (p + 1) (u8 (Z.shiftr x 8));
  m ← wr m (p + 2) (u8 (Z.shiftr x 16));
  wr m (p + 3) (u8 (Z.shiftr x 24)).

Definition isalnum (c : Z) : bool := ismask c (Z.lor (Z.lor Ctype.U Ctype.L) Ctype.D).

Definition skip_alnum (m : mem) (fmt : Z) : option Z :=
  loop (fuel m) (fun fmt =>
    c ← rd m fmt;
    Some (if isalnum c then Next (fmt + 1) else Ret fmt)) fmt.

(** [memcpy(str, old_fmt, copy)] of the literal part of a format. *)
Definition copy_literal (w m : mem) (str end_ old_fmt read : Z) : option (mem * Z) :=
  m ← (if str <? end_ then
         let copy := if end_ - str <? read then end_ - str else read in
         memcpy m str w old_fmt copy
       else Some m);
  Some (m, str + read).

(** One turn of the loop: the state is the string memory, the buffer and the position in it, the
    format, the specification and the arguments left. *)
Definition vsn_state : Type := mem * (mem * Z) * Z * printf_spec * list arg.

Definition vsn_step (buf end_ : Z) (s : vsn_state) : option (ctl vsn_state (mem * (mem * Z))) :=
  let '(w, (m, str), fmt, spec, args) := s in
  c ← rd w fmt;
  if c =? 0 then Some (Ret (w, (m, str)))
  else
    let old_fmt := fmt in
    '(read, spec) ← format_decode w fmt spec;
    let fmt := fmt + read in
    match spec.(type) with
    | FORMAT_TYPE_NONE =>
        b ← copy_literal w m str end_ old_fmt read;
        Some (Next (w, b, fmt, spec, args))
    | FORMAT_TYPE_WIDTH =>
        '(x, args) ← va_word args;
        Some (Next (w, (m, str), fmt, set_width (s32 x) spec, args))
    | FORMAT_TYPE_PRECISION =>
        '(x, args) ← va_word args;
        Some (Next (w, (m, str), fmt, set_precision (s32 x) spec, args))
    | FORMAT_TYPE_CHAR =>
        '(x, args) ← va_word args;
        b ← print_char m str end_ x spec;
        Some (Next (w, b, fmt, spec, args))
    | FORMAT_TYPE_STR =>
        '(x, args) ← va_word args;
        b ← string w m str end_ x spec;
        Some (Next (w, b, fmt, spec, args))
    | FORMAT_TYPE_PTR =>
        '(x, args) ← va_word args;
        b ← pointer w (fmt + 1) m str end_ x spec;
        fmt ← skip_alnum w fmt;
        Some (Next (w, b, fmt, spec, args))
    | FORMAT_TYPE_PERCENT_CHAR | FORMAT_TYPE_INVALID =>
        b ← put end_ 37 (m, str);
        Some (Next (w, b, fmt, spec, args))
    | FORMAT_TYPE_NRCHARS =>
        '(ip, args) ← va_word args;
        w ← store32 w ip (str - buf);
        Some (Next (w, (m, str), fmt, spec, args))
    | t =>
        '(num, args) ← va_num t args;
        b ← number m str end_ num spec;
        Some (Next (w, b, fmt, spec, args))
    end.

Definition spec0 : printf_spec := PrintfSpec FORMAT_TYPE_NONE 0 0 0 0 0.

(** A turn that reads nothing is followed by one that does. *)
Definition vsnprintf (w m : mem) (buf size fmt : Z) (args : list arg) : option (mem * mem * Z) :=
  if s32 size <? 0 then Some (w, m, 0)
  else
    let end_ := u32 (buf + size) in
    let '(end_, size) := if end_ <? buf then (4294967295, 4294967295 - buf) else (end_, size) in
    '(w, (m, str)) ← loop (2 * fuel w) (vsn_step buf end_) (w, (m, buf), fmt, spec0, args);
    m ← (if 0 <? size then if str <? end_ then wr m str 0 else wr m (end_ - 1) 0 else Some m);
    Some (w, m, s32 (str - buf)).

(** [(i >= size)] compares as size_t. *)
Definition vscnprintf (w m : mem) (buf size fmt : Z) (args : list arg) : option (mem * mem * Z) :=
  '(w, m, i) ← vsnprintf w m buf size fmt args;
  Some (w, m, if size <=? u32 i then s32 (size - 1) else i).

Definition snprintf (w m : mem) (buf size fmt : Z) (args : list arg) : option (mem * mem * Z) :=
  vsnprintf w m buf size fmt args.

Definition scnprintf (w m : mem) (buf size fmt : Z) (args : list arg) : option (mem * mem * Z) :=
  '(w, m, i) ← vsnprintf w m buf size fmt args;
  Some (w, m, if size <=? u32 i then s32 (size - 1) else i).

Definition INT_MAX : Z := 2147483647.

Definition vsprintf (w m : mem) (buf fmt : Z) (args : list arg) : option (mem * mem * Z) :=
  vsnprintf w m buf INT_MAX fmt args.

Definition sprintf (w m : mem) (buf fmt : Z) (args : list arg) : option (mem * mem * Z) :=
  vsnprintf w m buf INT_MAX fmt args.
