(* ===== verification/VsprintfNum.v ===== *)
(** Digits: what put_dec and the octal and hexadecimal loop of number() write, and that the
    parsers read it back. *)

From S2P Require Import Prelude Str StrSpec StrCopy Vsprintf.
From Stdlib Require Import Lia.

Implicit Types (m tmp : mem) (l ds : list Z).

(** * Positional notation *)

(** The digits of [n] in base [b], least significant first. *)
Fixpoint digs (k : nat) (b n : Z) : list Z :=
  match k with
  | O => []
  | S k => n mod b :: (if n / b =? 0 then [] else digs k b (n / b))
  end.

#[global] Arguments digs : simpl never.

Lemma digs_step k b n :
  digs (S k) b n = n mod b :: (if n / b =? 0 then [] else digs k b (n / b)).
Proof. done. Qed.

Definition digits_rev (b n : Z) : list Z := digs 64 b n.

(** The value of a list of digits, least significant first. *)
Fixpoint value_rev (b : Z) (ds : list Z) : Z :=
  match ds with
  | [] => 0
  | d :: ds => d + b * value_rev b ds
  end.

(** The character of a digit, upper or lower case. *)
Definition digit_char (locase d : Z) : Z := Z.lor (digits !!! Z.to_nat d) locase.

Lemma div_halves b n k : 2 <= b -> 0 <= n < 2 ^ Z.of_nat (S k) -> 0 <= n / b < 2 ^ Z.of_nat k.
Proof.
  intros Hb Hn. replace (Z.of_nat (S k)) with (Z.succ (Z.of_nat k)) in Hn by lia.
  rewrite Z.pow_succ_r in Hn by lia. split; [apply Z.div_pos; lia|].
  apply Z.div_lt_upper_bound; [lia|]. nia.
Qed.

Lemma digs_fuel b k k' n :
  2 <= b -> 0 <= n < 2 ^ Z.of_nat k -> (k <= k')%nat -> (0 < k)%nat -> digs k b n = digs k' b n.
Proof.
  intros Hb. revert k' n. induction k as [|k IH]; intros k' n Hn Hk Hpos; [lia|].
  destruct k' as [|k']; [lia|]. rewrite !digs_step. f_equal. destruct (n / b =? 0) eqn:E; [done|]. zbool.
  pose proof (div_halves b n k Hb Hn).
  destruct k as [|k]; [simpl in *; lia|]. apply IH; [done|lia|lia].
Qed.

(** The recursive equation of the notation. *)
Lemma digits_rev_eq b n :
  2 <= b -> 0 <= n < 18446744073709551616 ->
  digits_rev b n = n mod b :: (if n / b =? 0 then [] else digits_rev b (n / b)).
Proof.
  intros Hb Hn. unfold digits_rev. rewrite (digs_fuel b 64 65) by (change (2 ^ Z.of_nat 64) with 18446744073709551616; lia).
  rewrite digs_step. destruct (n / b =? 0); [done|]. done.
Qed.

Lemma digs_value b k n : 2 <= b -> 0 <= n < 2 ^ Z.of_nat k -> value_rev b (digs k b n) = n.
Proof.
  intros Hb. revert n. induction k as [|k IH]; intros n Hn; [simpl in *; lia|]. rewrite digs_step. simpl.
  pose proof (Z.div_mod n b ltac:(lia)). destruct (n / b =? 0) eqn:E; zbool; simpl.
  - rewrite E in *. lia.
  - rewrite IH by (by apply div_halves). lia.
Qed.

Lemma digits_rev_value b n :
  2 <= b -> 0 <= n < 18446744073709551616 -> value_rev b (digits_rev b n) = n.
Proof. intros Hb Hn. apply digs_value; [done|]. change (2 ^ Z.of_nat 64) with 18446744073709551616. lia. Qed.

Lemma digs_range b k n : 2 <= b -> Forall (fun d => 0 <= d < b) (digs k b n).
Proof.
  intros Hb. revert n. induction k as [|k IH]; intros n; [done|]. rewrite digs_step. constructor.
  - apply Z.mod_pos_bound. lia.
  - destruct (n / b =? 0); [done|apply IH].
Qed.

Lemma digits_rev_range b n : 2 <= b -> Forall (fun d => 0 <= d < b) (digits_rev b n).
Proof. apply digs_range. Qed.

Lemma digits_rev_length b n : (0 < length (digits_rev b n) <= 64)%nat.
Proof.
  unfold digits_rev. split; [rewrite digs_step; simpl; lia|]. generalize 64%nat. intros k. revert n.
  induction k as [|k IH]; intros n; [simpl; lia|]. rewrite digs_step.
  destruct (n / b =? 0); simpl; [lia|].
  specialize (IH (n / b)). lia.
Qed.

(** * Writing blocks one after the other *)

Lemma blit_app m (d : Z) l1 l2 :
  room m d (len l1 + len l2) -> blit (blit m d l1) (d + len l1) l2 = blit m d (l1 ++ l2).
Proof.
  intros [Hd Hr]. assert (room m d (len l1)) as H1 by (split; lia).
  pose proof (blit_length m d l1 H1) as Hlen.
  assert (room (blit m d l1) (d + len l1) (len l2)) as H2 by (split; lia).
  assert (room m d (len (l1 ++ l2))) as H3 by (split; rewrite ?length_app; lia).
  apply rd_ext; [by rewrite !blit_length|]. intros i _. rewrite !rd_blit by done.
  rewrite length_app. destruct (decide (0 <= i - d)) as [Hi|Hi].
  - unfold rd. rewrite (bool_decide_eq_true_2 (0 <= i - d)) by done.
    repeat case_bool_decide; try lia; try done.
    + rewrite lookup_app_r by lia. f_equal. lia.
    + by rewrite lookup_app_l by lia.
  - repeat case_bool_decide; try lia; done.
Qed.

(** A sequence of writes is one block. *)
Lemma wr_blit m (d : Z) x : room m d 1 -> wr m d x = Some (blit m d [x]).
Proof.
  intros Hr. pose proof (blit_snoc m d [] x) as H. simpl in H. rewrite Z.add_0_r in H.
  rewrite <- H by done. f_equal. symmetry. apply blit_nil. by destruct Hr.
Qed.

Lemma wr_after m (d : Z) l k x :
  k = d + len l -> room m d (len l + 1) -> wr (blit m d l) k x = Some (blit m d (l ++ [x])).
Proof. intros -> Hr. by apply blit_snoc. Qed.

(** * Decimal *)

Lemma u8_digit d : 0 <= d < 10 -> u8 (d + 48) = digit_char 0 d.
Proof.
  intros Hd. unfold digit_char. rewrite Z.lor_0_r.
  assert (d = 0 \/ d = 1 \/ d = 2 \/ d = 3 \/ d = 4 \/ d = 5 \/ d = 6 \/ d = 7 \/ d = 8 \/ d = 9) as H
    by lia.
  repeat (destruct H as [->|H]; [reflexivity|]). by subst.
Qed.

(** The multiplications that stand for divisions by ten. *)
Lemma mul_cd x : 0 <= x <= 1000 -> Z.shiftr (u32 (x * 0xcd)) 11 = x / 10.
Proof.
  intros Hx. unfold u32. rewrite Z.mod_small, Z.shiftr_div_pow2 by lia. change (2 ^ 11) with 2048. lia.
Qed.

Lemma mul_d x : 0 <= x <= 68 -> Z.shiftr (u32 (x * 0xd)) 7 = x / 10.
Proof.
  intros Hx. unfold u32. rewrite Z.mod_small, Z.shiftr_div_pow2 by lia. change (2 ^ 7) with 128. lia.
Qed.

Lemma nibbles q :
  0 <= q < 100000 ->
  exists d3 d2 d1 d0, q = 4096 * d3 + 256 * d2 + 16 * d1 + d0 /\
    0 <= d3 <= 24 /\ 0 <= d2 < 16 /\ 0 <= d1 < 16 /\ 0 <= d0 < 16 /\
    Z.shiftr q 12 = d3 /\ Z.land (Z.shiftr q 8) 0xf = d2 /\ Z.land (Z.shiftr q 4) 0xf = d1 /\
    Z.land q 0xf = d0.
Proof.
  intros Hq. exists (q / 4096), (q / 256 mod 16), (q / 16 mod 16), (q mod 16).
  rewrite !Z.shiftr_div_pow2 by lia.
  change 0xf with (Z.ones 4). rewrite !Z.land_ones by lia.
  change (2 ^ 12) with 4096. change (2 ^ 8) with 256. change (2 ^ 4) with 16. lia.
Qed.

(** The five digits put_dec_full and put_dec_trunc compute from the nibbles of [q]. *)
Record dec5 (q e0 e1 e2 e3 e4 : Z) : Prop := {
  dec5_value : q = e0 + 10 * e1 + 100 * e2 + 1000 * e3 + 10000 * e4;
  dec5_range : 0 <= e0 < 10 /\ 0 <= e1 < 10 /\ 0 <= e2 < 10 /\ 0 <= e3 < 10 /\ 0 <= e4 < 10
}.

(** One level of the nibble arithmetic: the quotient by ten and the digit. *)
Lemma dec_level x c : 0 <= x <= 400 -> x / 10 = c -> u32 (x - 10 * c) = x mod 10 /\ 0 <= x mod 10 < 10.
Proof. intros Hx <-. rewrite u32_small; unfold is_u32; lia. Qed.

(** The quotients and digits of the four levels, from the nibbles of [q]. *)
Ltac dec_levels q Hq :=
  destruct (nibbles q Hq) as (d3 & d2 & d1 & d0 & Hv & H3 & H2 & H1 & H0 & E3 & E2 & E1 & E0);
  rewrite E3, E2, E1, E0;
  clear E3 E2 E1 E0;
  cbv zeta;
  rewrite (u32_small (6 * _ + _)) by (unfold is_u32; lia);
  set (x0 := 6 * _ + _);
  rewrite (mul_cd x0) by lia;
  set (q1 := x0 / 10);
  rewrite (u32_small (q1 + _ + _ + _)) by (unfold is_u32; lia);
  set (x1 := q1 + _ + _ + _);
  rewrite (mul_cd x1) by lia;
  set (q2 := x1 / 10);
  rewrite (u32_small (q2 + _)) by (unfold is_u32; lia);
  set (x2 := q2 + _);
  rewrite (mul_d x2) by lia;
  set (q3 := x2 / 10);
  rewrite (u32_small (q3 + _)) by (unfold is_u32; lia);
  set (x3 := q3 + _);
  rewrite (mul_cd x3) by lia;
  set (q4 := x3 / 10);
  destruct (dec_level x0 q1) as [D0 R0]; [lia|done|]; rewrite D0; clear D0;
  destruct (dec_level x1 q2) as [D1 R1]; [lia|done|]; rewrite D1; clear D1;
  destruct (dec_level x2 q3) as [D2 R2]; [lia|done|]; rewrite D2; clear D2;
  destruct (dec_level x3 q4) as [D3 R3]; [lia|done|]; rewrite D3; clear D3.

Lemma put_dec_full_spec m buf q :
  0 <= q < 100000 -> room m buf 5 ->
  exists e0 e1 e2 e3 e4, dec5 q e0 e1 e2 e3 e4 /\
    put_dec_full m buf q = Some (blit m buf (digit_char 0 <$> [e0; e1; e2; e3; e4]), buf + 5).
Proof.
  intros Hq Hr. unfold put_dec_full. dec_levels q Hq.
  exists (x0 mod 10), (x1 mod 10), (x2 mod 10), (x3 mod 10), q4.
  assert (dec5 q (x0 mod 10) (x1 mod 10) (x2 mod 10) (x3 mod 10) q4) as Hd by (split; lia).
  split; [done|]. destruct Hd as [_ (_ & _ & _ & _ & R4)]. destruct Hr as [Hb Hr].
  rewrite !u8_digit by done. rewrite wr_blit by (split; lia). cbn [mbind option_bind].
  repeat (rewrite wr_after by (simpl; (lia || split; simpl; lia)); cbn [mbind option_bind app]). done.
Qed.

Lemma dec5_digits q e0 e1 e2 e3 e4 :
  dec5 q e0 e1 e2 e3 e4 ->
  digits_rev 10 q = e0 :: (if q <? 10 then [] else e1 :: (if q <? 100 then [] else
    e2 :: (if q <? 1000 then [] else e3 :: (if q <? 10000 then [] else [e4])))).
Proof.
  intros [Hv (R0 & R1 & R2 & R3 & R4)].
  rewrite digits_rev_eq by lia. f_equal; [lia|].
  destruct (q <? 10) eqn:E; zbool; [by rewrite (proj2 (Z.eqb_eq _ _)) by lia|].
  rewrite (proj2 (Z.eqb_neq _ _)) by lia. rewrite digits_rev_eq by lia. f_equal; [lia|].
  destruct (q <? 100) eqn:E1; zbool; [by rewrite (proj2 (Z.eqb_eq _ _)) by lia|].
  rewrite (proj2 (Z.eqb_neq _ _)) by lia. rewrite digits_rev_eq by lia. f_equal; [lia|].
  destruct (q <? 1000) eqn:E2; zbool; [by rewrite (proj2 (Z.eqb_eq _ _)) by lia|].
  rewrite (proj2 (Z.eqb_neq _ _)) by lia. rewrite digits_rev_eq by lia. f_equal; [lia|].
  destruct (q <? 10000) eqn:E3; zbool; [by rewrite (proj2 (Z.eqb_eq _ _)) by lia|].
  rewrite (proj2 (Z.eqb_neq _ _)) by lia. rewrite digits_rev_eq by lia. f_equal; [lia|].
  by rewrite (proj2 (Z.eqb_eq _ _)) by lia.
Qed.

Lemma put_dec_trunc_spec m buf q :
  0 <= q < 100000 -> room m buf (len (digits_rev 10 q)) ->
  put_dec_trunc m buf q =
  Some (blit m buf (digit_char 0 <$> digits_rev 10 q), buf + len (digits_rev 10 q)).
Proof.
  intros Hq Hr. unfold put_dec_trunc. dec_levels q Hq.
  assert (dec5 q (x0 mod 10) (x1 mod 10) (x2 mod 10) (x3 mod 10) q4) as Hd by (split; lia).
  pose proof (dec5_digits _ _ _ _ _ _ Hd) as Hds. rewrite Hds in *. clear Hds.
  destruct Hd as [Hval (_ & _ & _ & _ & R4)]. destruct Hr as [Hb Hr].
  rewrite !u8_digit by done. rewrite wr_blit by (split; simpl in Hr; lia). cbn [mbind option_bind].
  destruct (q <? 10) eqn:C1; zbool.
  { rewrite (proj2 (Z.eqb_eq x1 0)) by lia. done. }
  rewrite (proj2 (Z.eqb_neq x1 0)) by lia. cbn [negb]. simpl length in Hr.
  rewrite wr_after by (simpl; (lia || split; simpl; lia)). cbn [mbind option_bind app].
  destruct (q <? 100) eqn:C2; zbool.
  { rewrite (proj2 (Z.eqb_eq x2 0)), (proj2 (Z.eqb_eq d3 0)) by lia. simpl. do 2 f_equal. lia. }
  replace (negb (x2 =? 0) || negb (d3 =? 0)) with true
    by (destruct (x2 =? 0) eqn:?, (d3 =? 0) eqn:?; zbool; simpl; lia).
  simpl length in Hr. rewrite wr_after by (simpl; (lia || split; simpl; lia)). cbn [mbind option_bind app].
  destruct (q <? 1000) eqn:C3; zbool.
  { rewrite (proj2 (Z.eqb_eq x3 0)) by lia. simpl. do 2 f_equal. lia. }
  rewrite (proj2 (Z.eqb_neq x3 0)) by lia. cbn [negb]. simpl length in Hr.
  rewrite wr_after by (simpl; (lia || split; simpl; lia)). cbn [mbind option_bind app].
  destruct (q <? 10000) eqn:C4; zbool.
  { rewrite (proj2 (Z.eqb_eq q4 0)) by lia. simpl. do 2 f_equal. lia. }
  rewrite (proj2 (Z.eqb_neq q4 0)) by lia. cbn [negb]. simpl length in Hr.
  rewrite wr_after by (simpl; (lia || split; simpl; lia)). cbn [mbind option_bind app].
  simpl. do 2 f_equal. lia.
Qed.

Lemma dec5_step n e0 e1 e2 e3 e4 :
  100000 <= n < 18446744073709551616 -> dec5 (n mod 100000) e0 e1 e2 e3 e4 ->
  digits_rev 10 n = [e0; e1; e2; e3; e4] ++ digits_rev 10 (n / 100000).
Proof.
  intros Hn [Hv (R0 & R1 & R2 & R3 & R4)]. simpl.
  do 5 (rewrite digits_rev_eq by lia; f_equal; [lia|]; rewrite (proj2 (Z.eqb_neq _ _)) by lia).
  f_equal. lia.
Qed.

Lemma put_dec_loop k m buf n :
  (0 < k)%nat -> 0 <= n < 100000 ^ Z.of_nat k -> n < 18446744073709551616 ->
  room m buf (len (digits_rev 10 n)) ->
  loop k (fun '(m, buf, num) =>
    if num <? 100000 then r ← put_dec_trunc m buf num; Some (Ret r)
    else
      let rem := num mod 100000 in
      let num := num / 100000 in
      '(m, buf) ← put_dec_full m buf rem;
      Some (Next (m, buf, num))) (m, buf, n) =
  Some (blit m buf (digit_char 0 <$> digits_rev 10 n), buf + len (digits_rev 10 n)).
Proof.
  revert m buf n. induction k as [|k IH]; intros m buf n Hk Hn Hn64 Hr; [lia|].
  rewrite loop_unfold. destruct (n <? 100000) eqn:E; zbool.
  { rewrite put_dec_trunc_spec by (done || lia). done. }
  cbv zeta. pose proof Hr as [Hb Hl]. pose proof (digits_rev_length 10 (n / 100000)) as Hlen.
  assert (len (digits_rev 10 n) = 5 + len (digits_rev 10 (n / 100000))) as Hlens.
  { destruct (put_dec_full_spec (replicate 5 0) 0 (n mod 100000)) as (e0 & e1 & e2 & e3 & e4 & Hd & _);
      [lia|split; simpl; lia|]. rewrite (dec5_step n _ _ _ _ _ ltac:(lia) Hd), length_app. simpl. lia. }
  destruct (put_dec_full_spec m buf (n mod 100000)) as (e0 & e1 & e2 & e3 & e4 & Hd & ->);
    [lia|split; lia|]. cbn [mbind option_bind]. cbv beta iota.
  set (l := digit_char 0 <$> [e0; e1; e2; e3; e4]). assert (len l = 5) as Hl5 by done.
  destruct k as [|k]; [simpl in Hn; lia|].
  assert (0 <= n / 100000 < 100000 ^ Z.of_nat (S k)) as Hdiv.
  { replace (Z.of_nat (S (S k))) with (Z.succ (Z.of_nat (S k))) in Hn by lia.
    rewrite Z.pow_succ_r in Hn by lia. split; [lia|]. apply Z.div_lt_upper_bound; lia. }
  rewrite IH by (try done; try lia; split; rewrite ?blit_length by (split; lia); lia).
  replace (buf + 5) with (buf + len l) by lia.
  rewrite blit_app by (split; rewrite ?length_fmap; lia).
  rewrite (dec5_step n _ _ _ _ _ ltac:(lia) Hd), fmap_app. fold l. f_equal. f_equal.
  rewrite length_app. simpl. lia.
Qed.

Lemma put_dec_spec m buf n :
  0 <= n < 18446744073709551616 -> room m buf (len (digits_rev 10 n)) ->
  put_dec m buf n = Some (blit m buf (digit_char 0 <$> digits_rev 10 n), buf + len (digits_rev 10 n)).
Proof. intros Hn Hr. apply put_dec_loop; [lia|simpl; lia|lia|done]. Qed.

(** * Octal and hexadecimal *)

Lemma pow2_digit b num :
  b = 8 \/ b = 16 -> 0 <= num ->
  Z.land (u8 num) (b - 1) = num mod b /\
  Z.shiftr num (if b =? 16 then 4 else 3) = num / b.
Proof.
  intros Hb Hn. unfold u8. rewrite Z.shiftr_div_pow2 by (destruct (b =? 16); lia).
  destruct Hb as [-> | ->].
  - change (8 - 1) with (Z.ones 3). rewrite Z.land_ones by lia. change (2 ^ 3) with 8. split; [lia|done].
  - change (16 - 1) with (Z.ones 4). rewrite Z.land_ones by lia. change (2 ^ 4) with 16. split; [lia|done].
Qed.

Lemma put_pow2_loop k b locase m0 tmp i num l :
  b = 8 \/ b = 16 -> (0 < k)%nat -> 0 <= num < 2 ^ Z.of_nat k -> num < 18446744073709551616 ->
  tmp = blit m0 0 l -> i = len l -> room m0 0 (len l + len (digits_rev b num)) ->
  loop k (fun '(tmp, i, num) =>
    d ← rd digits (Z.land (u8 num) (b - 1));
    tmp ← wr tmp i (Z.lor d locase);
    let num := Z.shiftr num (if b =? 16 then 4 else 3) in
    Some (if negb (num =? 0) then Next (tmp, i + 1, num) else Ret (tmp, i + 1))) (tmp, i, num) =
  Some (blit m0 0 (l ++ (digit_char locase <$> digits_rev b num)), i + len (digits_rev b num)).
Proof.
  intros Hb. revert tmp i num l. induction k as [|k IH]; intros tmp i num l Hk Hn H64 -> -> Hr; [lia|].
  rewrite loop_unfold. destruct (pow2_digit b num Hb ltac:(lia)) as [-> ->].
  assert (0 <= num mod b < b) as Hd by (apply Z.mod_pos_bound; lia).
  rewrite (rd_total digits) by (simpl; lia). cbn [mbind option_bind].
  pose proof (digits_rev_length b num) as Hlen. pose proof Hr as [Hb0 Hrl].
  rewrite wr_after by (try lia; split; lia). cbn [mbind option_bind]. cbv zeta.
  fold (digit_char locase (num mod b)). rewrite (digits_rev_eq b num) in * by lia.
  pose proof (div_halves b num k ltac:(lia) Hn) as Hh.
  destruct (num / b =? 0) eqn:E; zbool; simpl negb; cbv iota; [done|].
  assert (len (l ++ [digit_char locase (num mod b)]) = len l + 1) as Hl1 by (rewrite length_app; simpl; lia).
  simpl length in *. destruct k as [|k]; [simpl in Hh; lia|].
  rewrite (IH _ _ _ (l ++ [digit_char locase (num mod b)])); [|lia|exact Hh| |done|done|].
  - rewrite fmap_cons, <- app_assoc. simpl. do 2 f_equal. lia.
  - apply Z.le_lt_trans with num; [|done]. apply Z.div_le_upper_bound; nia.
  - split; rewrite ?Hl1; lia.
Qed.

Lemma put_pow2_spec b num locase :
  b = 8 \/ b = 16 -> 0 <= num < 18446744073709551616 ->
  put_pow2 (replicate 66 0) num b locase =
  Some (blit (replicate 66 0) 0 (digit_char locase <$> digits_rev b num), len (digits_rev b num)).
Proof.
  intros Hb Hn. unfold put_pow2. pose proof (digits_rev_length b num).
  rewrite (put_pow2_loop 66 b locase (replicate 66 0) _ _ _ []); try done; try lia.
  split; [lia|]. rewrite length_replicate. change (length (@nil Z)) with 0%nat. lia.
Qed.
