(* ===== verification/VsprintfParse.v ===== *)
(** The parsers of lib/vsprintf.c: what part of a string they read, the value they return, and
    that they read back what the printing functions write. *)

From S2P Require Import Prelude Str StrSpec Vsprintf VsprintfNum.
From Stdlib Require Import Lia.

Implicit Types (m : mem) (s t l : list Z).

(** * Digits of a string *)

Definition hexval (c : Z) : Z := if isdigit c then c - 48 else TOLOWER c - 97 + 10.

Definition is_digit (b c : Z) : bool := isxdigit c && (hexval c <? b).

Definition value (b : Z) (s : list Z) : Z := fold_left (fun r c => r * b + hexval c) s 0.

(** The base in effect and the length of the 0x prefix. *)
Definition effective_base (b : Z) (s : list Z) : Z :=
  if b =? 0 then
    if ch s 0 =? 48 then if (TOLOWER (ch s 1) =? 120) && isxdigit (ch s 2) then 16 else 8 else 10
  else b.

Definition prefix_skip (b : Z) (s : list Z) : Z :=
  if (effective_base b s =? 16) && (ch s 0 =? 48) && (TOLOWER (ch s 1) =? 120) then 2 else 0.

Lemma hex_chars :
  all_below 256 (fun c => negb (isxdigit c) || ((0 <=? hexval c) && (hexval c <? 16) && negb (c =? 0)))
  = true.
Proof. vm_compute. done. Qed.

Lemma hexval_range c : 0 <= c < 256 -> isxdigit c = true -> 0 <= hexval c < 16 /\ c <> 0.
Proof.
  intros Hc Hx. pose proof (all_below_spec _ _ hex_chars c ltac:(lia)) as H. simpl in H.
  rewrite Hx in H. simpl in H. zbool. lia.
Qed.

Lemma value_app b s t : value b (s ++ t) = fold_left (fun r c => r * b + hexval c) t (value b s).
Proof. unfold value. apply fold_left_app. Qed.

Lemma value_snoc b s c : value b (s ++ [c]) = value b s * b + hexval c.
Proof. by rewrite value_app. Qed.

Lemma is_digit_0 b : is_digit b 0 = false.
Proof. reflexivity. Qed.

(** The digit loop of simple_strtoull. *)
Lemma parse_loop m p s b :
  cstr m p s ->
  exists k, prefix_len (fun c => is_digit b c = true) s k /\
    loop (fuel m) (fun '(cp, result) =>
      c ← rd m cp;
      Some (if isxdigit c then
              let value := u32 (if isdigit c then c - 48 else TOLOWER c - 97 + 10) in
              if b <=? value then Ret (result, cp)
              else Next (cp + 1, u64 (result * b + value))
            else Ret (result, cp))) (p, 0) = Some (u64 (value b (take (Z.to_nat k) s)), p + k).
Proof.
  intros Hs.
  scan_with (fun k => (p + k, u64 (value b (take (Z.to_nat k) s)))) (len s)
    (fun k => negb (is_digit b (ch s k))) (fun k => (u64 (value b (take (Z.to_nat k) s)), p + k))
    (u64 (value b s), p + len s) as (r & -> & Hr).
  - simpl. f_equal. lia.
  - split; [lia|]. by eapply fuel_room.
  - intros k Hk _. at_char Hs. unfold is_digit. destruct (isxdigit (ch s k)) eqn:Ex; [|done].
    pose proof (ch_pos m p s k Hs Hk). destruct (hexval_range (ch s k)) as [Hv _]; [lia|done|].
    fold (hexval (ch s k)). rewrite u32_small by (unfold is_u32; lia). simpl.
    destruct (b <=? hexval (ch s k)) eqn:Eb; zbool.
    + by rewrite (proj2 (Z.ltb_ge _ _)) by lia.
    + rewrite (proj2 (Z.ltb_lt _ _)) by lia. simpl. do 3 f_equal; [lia|].
      rewrite StrCopy.take_ch, value_snoc by lia. unfold u64. rewrite Zplus_mod, Zmult_mod_idemp_l.
      by rewrite <- Zplus_mod.
  - intros _. at_char Hs. rewrite ch_end. simpl. by rewrite Nat2Z.id, firstn_all.
  - destruct Hr as [(k & Hk & HP & Hb & ->)|[Hb ->]].
    + exists k. split; [|done]. split; [lia|]. split.
      * intros j Hj. by apply negb_false_iff, Hb.
      * intros _ Hd. by rewrite Hd in HP.
    + exists (len s). rewrite Nat2Z.id, firstn_all. split; [|done]. split; [lia|]. split; [|lia].
      intros j Hj. by apply negb_false_iff, Hb.
Qed.

Lemma cstr_rd0 m p s : cstr m p s -> rd m p = Some (ch s 0).
Proof. intros Hs. rewrite <- (cstr_rd m p s 0 Hs) by lia. f_equal. lia. Qed.

Lemma base_spec m p s b :
  cstr m p s ->
  (if b =? 0 then simple_guess_base m p else Some b) = Some (effective_base b s).
Proof.
  intros Hs. unfold effective_base. destruct (b =? 0); [|done]. unfold simple_guess_base.
  rewrite (cstr_rd0 m p s Hs). cbn [mbind option_bind].
  destruct (ch s 0 =? 48) eqn:E0; [|done]. zbool.
  assert (0 < len s) as Hpos by (destruct s; [done|simpl; lia]).
  rewrite (cstr_rd m p s 1 Hs) by lia. cbn [mbind option_bind].
  destruct (TOLOWER (ch s 1) =? 120) eqn:E1; [|done]. zbool.
  assert (1 < len s) as Hpos1.
  { destruct (decide (len s = 1)) as [E|]; [|lia]. rewrite <- E, ch_end in E1. done. }
  at_char Hs. by destruct (isxdigit (ch s 2)).
Qed.

Lemma prefix_spec m p s b :
  cstr m p s ->
  (if effective_base b s =? 16 then
     c0 ← rd m p;
     if c0 =? 48 then c1 ← rd m (p + 1); Some (TOLOWER c1 =? 120) else Some false
   else Some false) = Some (negb (prefix_skip b s =? 0)) /\
  0 <= prefix_skip b s <= len s.
Proof.
  intros Hs. unfold prefix_skip. destruct (effective_base b s =? 16); [|simpl; split; [done|lia]].
  rewrite (cstr_rd0 m p s Hs). cbn [mbind option_bind].
  destruct (ch s 0 =? 48) eqn:E0; [|simpl; split; [done|lia]]. zbool.
  assert (0 < len s) as Hpos by (destruct s; [done|simpl; lia]). at_char Hs. simpl.
  destruct (TOLOWER (ch s 1) =? 120) eqn:E1; [|simpl; split; [done|lia]]. zbool. split; [done|].
  destruct (decide (len s = 1)) as [E|]; [|lia]. rewrite <- E, ch_end in E1. done.
Qed.

(** The whole of simple_strtoull: the longest run of digits of the base, after the prefix. *)
Lemma simple_strtoull_spec m p s b :
  cstr m p s ->
  exists k, let off := prefix_skip b s in let base := effective_base b s in
    prefix_len (fun c => is_digit base c = true) (drop (Z.to_nat off) s) k /\
    simple_strtoull m p b =
    Some (u64 (value base (take (Z.to_nat k) (drop (Z.to_nat off) s))), p + off + k).
Proof.
  intros Hs. cbv zeta. unfold simple_strtoull. rewrite (base_spec m p s b Hs). cbn [mbind option_bind].
  destruct (prefix_spec m p s b Hs) as [-> Hoff]. cbn [mbind option_bind].
  assert (cstr m (p + prefix_skip b s) (drop (Z.to_nat (prefix_skip b s)) s)) as Hd
    by (apply cstr_drop; [done|lia]).
  destruct (parse_loop m _ _ (effective_base b s) Hd) as (k & Hk & Hloop).
  exists k. split; [done|].
  replace (if negb (prefix_skip b s =? 0) then p + 2 else p) with (p + prefix_skip b s).
  - exact Hloop.
  - unfold prefix_skip. destruct (_ && _ && _); simpl; lia.
Qed.

(** * Reading back *)

(** A number in base [b] as the printing code writes it. *)
Definition digit_text (b locase num : Z) : list Z := reverse (digit_char locase <$> digits_rev b num).

Lemma digit_chars locase :
  locase = 0 \/ locase = 32 ->
  forall d, 0 <= d < 16 -> let c := digit_char locase d in
    hexval c = d /\ isxdigit c = true /\ 0 < c < 256 /\ TOLOWER c <> 120 /\ (c = 48 -> d = 0).
Proof.
  intros Hl d Hd. cbv zeta.
  assert (all_below 16 (fun d => let c := digit_char locase d in
    (hexval c =? d) && isxdigit c && (0 <? c) && (c <? 256) && negb (TOLOWER c =? 120) &&
    (negb (c =? 48) || (d =? 0))) = true) as H by (destruct Hl as [-> | ->]; vm_compute; done).
  pose proof (all_below_spec _ _ H d Hd) as Hx. clear H. cbv beta zeta in Hx. zbool.
  split_and!; [done|done|lia|lia|done|]. intros Hc. rewrite Hc in *. lia.
Qed.

Lemma value_text b locase ds :
  locase = 0 \/ locase = 32 -> 2 <= b <= 16 -> Forall (fun d => 0 <= d < b) ds ->
  value b (reverse (digit_char locase <$> ds)) = value_rev b ds /\
  Forall (fun c => is_digit b c = true) (reverse (digit_char locase <$> ds)).
Proof.
  intros Hl Hb. induction 1 as [|d ds Hd Hds [IH1 IH2]]; [by split|].
  destruct (digit_chars locase Hl d ltac:(lia)) as (Hv & Hx & _).
  rewrite fmap_cons, reverse_cons, value_snoc, IH1, Hv. split; [simpl; lia|]. apply Forall_app. split; [done|].
  constructor; [|done]. unfold is_digit. rewrite Hx, Hv. simpl. lia.
Qed.

Lemma digit_text_value b locase num :
  locase = 0 \/ locase = 32 -> 2 <= b <= 16 -> 0 <= num < 18446744073709551616 ->
  value b (digit_text b locase num) = num /\
  Forall (fun c => is_digit b c = true) (digit_text b locase num) /\ 0 < len (digit_text b locase num).
Proof.
  intros Hl Hb Hn. unfold digit_text.
  destruct (value_text b locase (digits_rev b num) Hl Hb) as [Hv Hd]; [by apply digits_rev_range; lia|].
  rewrite Hv, digits_rev_value by lia. split; [done|]. split; [done|].
  rewrite length_reverse, length_fmap. pose proof (digits_rev_length b num). lia.
Qed.

(** A run of digits followed by something that is not a digit is read exactly. *)
Lemma prefix_len_app b s t k :
  Forall (fun c => is_digit b c = true) s -> is_digit b (ch t 0) = false ->
  prefix_len (fun c => is_digit b c = true) (s ++ t) k -> k = len s.
Proof.
  intros Hs Ht (Hk & Hin & Hout). rewrite length_app in *.
  destruct (Z.lt_trichotomy k (len s)) as [Hlt|[?|Hgt]]; [|done|].
  - exfalso. apply Hout; [lia|]. rewrite ch_app, (proj2 (Z.ltb_lt _ _)) by lia.
    unfold ch. destruct (lookup_lt_is_Some_2 s (Z.to_nat k)) as [c Hc]; [lia|]. rewrite Hc. simpl.
    exact (Forall_lookup_1 _ _ _ _ Hs Hc).
  - specialize (Hin (len s) ltac:(lia)). rewrite ch_app, (proj2 (Z.ltb_ge _ _)), Z.sub_diag in Hin by lia.
    congruence.
Qed.

(** The prefixes under which each base is recognised: none when the base is given, the ones %#o
    and %#x print when it is guessed. *)
Definition prefix_text (b0 b locase : Z) : list Z :=
  if b0 =? 0 then if b =? 16 then [48; Z.lor 88 locase] else if b =? 8 then [48] else [] else [].

Definition parse_case (b0 b num : Z) : Prop :=
  b0 = b /\ (b = 8 \/ b = 10 \/ b = 16) \/
  b0 = 0 /\ (b = 8 \/ b = 16 \/ b = 10 /\ 0 < num).

(** The first digit of a positive number is not 0. *)
Lemma digs_last b k n :
  2 <= b -> 0 < n < 2 ^ Z.of_nat k -> exists d ds, reverse (digs k b n) = d :: ds /\ d <> 0.
Proof.
  intros Hb. revert n. induction k as [|k IH]; intros n Hn; [simpl in *; lia|].
  rewrite digs_step, reverse_cons. destruct (n / b =? 0) eqn:E; zbool.
  - exists (n mod b), []. split; [done|]. pose proof (Z.div_mod n b ltac:(lia)). nia.
  - destruct (IH (n / b)) as (d & ds & -> & Hd); [pose proof (div_halves b n k Hb ltac:(lia)); lia|].
    by exists d, (ds ++ [n mod b]).
Qed.

Lemma digit_text_head b locase num :
  locase = 0 \/ locase = 32 -> 2 <= b <= 16 -> 0 < num < 18446744073709551616 ->
  ch (digit_text b locase num) 0 <> 48.
Proof.
  intros Hl Hb Hn. unfold digit_text. rewrite <- fmap_reverse.
  destruct (digs_last b 64 num) as (d & ds & Hds & Hd); [lia|exact Hn|].
  unfold digits_rev. rewrite Hds. rewrite fmap_cons, ch_head. intros Hc.
  assert (0 <= d < b) as Hr.
  { assert (Forall (fun d => 0 <= d < b) (reverse (digs 64 b num))) as HF
      by (apply Forall_reverse, digs_range; lia). rewrite Hds in HF. by inversion HF. }
  destruct (digit_chars locase Hl d ltac:(lia)) as (_ & _ & _ & _ & H). auto.
Qed.

(** The characters of the digits are never an x, even with what follows them. *)
Lemma second_not_x b locase num t :
  locase = 0 \/ locase = 32 -> 2 <= b <= 16 -> 0 <= num < 18446744073709551616 ->
  ch t 0 = 0 \/ ch t 0 = 10 ->
  forall j, 0 <= j <= len (digit_text b locase num) ->
    TOLOWER (ch (digit_text b locase num ++ t) j) <> 120.
Proof.
  intros Hl Hb Hn Ht j Hj. rewrite ch_app by lia. destruct (j <? _) eqn:E; zbool.
  - unfold digit_text, ch in *. rewrite length_reverse in *.
    destruct (lookup_lt_is_Some_2 (reverse (digit_char locase <$> digits_rev b num)) (Z.to_nat j)) as [c Hc];
      [rewrite length_reverse; lia|]. rewrite Hc. simpl.
    apply list_elem_of_lookup_2, elem_of_reverse, list_elem_of_fmap in Hc as (d & -> & Hd).
    pose proof (digits_rev_range b num ltac:(lia)) as HF. rewrite Forall_forall in HF.
    apply list_elem_of_In, HF in Hd. by apply (digit_chars locase Hl d ltac:(lia)).
  - replace (j - _) with 0 by lia. by destruct Ht as [-> | ->].
Qed.

(** The digits the parser meets after the prefix it skips. *)
Lemma readable b0 b locase num t :
  locase = 0 \/ locase = 32 -> parse_case b0 b num -> 0 <= num < 18446744073709551616 ->
  ch t 0 = 0 \/ ch t 0 = 10 ->
  let s := prefix_text b0 b locase ++ digit_text b locase num ++ t in
  effective_base b0 s = b /\
  exists R, drop (Z.to_nat (prefix_skip b0 s)) s = R ++ t /\ value b R = num /\
    Forall (fun c => is_digit b c = true) R /\
    prefix_skip b0 s + len R = len (prefix_text b0 b locase) + len (digit_text b locase num).
Proof.
  intros Hl Hcase Hn Ht. cbv zeta.
  assert (2 <= b <= 16) as Hb by (destruct Hcase as [[_ H]|[_ H]]; lia).
  destruct (digit_text_value b locase num Hl Hb Hn) as (Hv & Hd & Hpos).
  pose proof (second_not_x b locase num t Hl Hb Hn Ht) as Hx.
  destruct Hcase as [[-> Hbs]|[-> Hbs]].
  - unfold prefix_text, prefix_skip, effective_base. rewrite (proj2 (Z.eqb_neq b 0)) by lia. simpl app.
    split; [done|]. exists (digit_text b locase num).
    rewrite (proj2 (Z.eqb_neq _ 120)) by (apply Hx; lia). rewrite andb_false_r.
    change (len []) with 0. split_and!; [done..|lia].
  - unfold prefix_text, prefix_skip, effective_base. simpl (0 =? 0). cbv iota.
    destruct Hbs as [->|[->|[-> Hnum]]].
    + change (8 =? 16) with false. change (8 =? 8) with true. cbv iota. cbn [app]. rewrite ch_head, ch_cons by lia. simpl (1 - 1). simpl (48 =? 48). cbv iota.
      rewrite (proj2 (Z.eqb_neq (TOLOWER _) 120)) by (apply Hx; lia). simpl andb. cbv iota.
      split; [done|]. exists (48 :: digit_text 8 locase num). simpl (8 =? 16). cbv iota. simpl andb.
      split; [done|]. split; [|split; [by constructor|simpl length; lia]].
      rewrite <- Hv at 2. reflexivity.
    + change (16 =? 16) with true. cbv iota. cbn [app].
      rewrite ch_head, (ch_cons _ _ 2), (ch_cons _ _ (2 - 1)), (ch_cons _ _ 1) by lia.
      change (2 - 1) with 1. change (1 - 1) with 0. rewrite ch_head.
      assert (isxdigit (ch (digit_text 16 locase num ++ t) 0) = true) as Hh.
      { rewrite ch_app, (proj2 (Z.ltb_lt _ _)) by lia. unfold ch.
        destruct (digit_text 16 locase num) as [|c l]; [done|]. inversion Hd as [|? ? Hc]. subst.
        unfold is_digit in Hc. simpl. by apply andb_true_iff in Hc as [? _]. }
      replace (TOLOWER (Z.lor 88 locase) =? 120) with true by (destruct Hl as [-> | ->]; done).
      rewrite Hh. simpl. split; [done|]. exists (digit_text 16 locase num). split_and!; [done..|lia].
    + change (10 =? 16) with false. change (10 =? 8) with false. cbv iota. cbn [app].
      rewrite (proj2 (Z.eqb_neq _ 48)); [|].
      2:{ rewrite ch_app, (proj2 (Z.ltb_lt _ _)) by lia. apply digit_text_head; lia || done. }
      simpl. split; [done|]. exists (digit_text 10 locase num). split_and!; [done..|lia].
Qed.

Lemma not_digit_end b c : c = 0 \/ c = 10 -> is_digit b c = false.
Proof. intros [-> | ->]; reflexivity. Qed.

Lemma strtoull_readback m p b0 b locase num t :
  locase = 0 \/ locase = 32 -> parse_case b0 b num -> 0 <= num < 18446744073709551616 ->
  ch t 0 = 0 \/ ch t 0 = 10 ->
  cstr m p (prefix_text b0 b locase ++ digit_text b locase num ++ t) ->
  simple_strtoull m p b0 =
  Some (num, p + len (prefix_text b0 b locase) + len (digit_text b locase num)).
Proof.
  intros Hl Hcase Hn Ht Hs. destruct (simple_strtoull_spec m p _ b0 Hs) as (k & Hk & ->).
  destruct (readable b0 b locase num t Hl Hcase Hn Ht) as (Hbase & R & HR & Hv & Hd & Hlen).
  rewrite Hbase, HR in *. apply prefix_len_app in Hk as ->; [|done|by apply not_digit_end].
  rewrite Nat2Z.id, take_app_length, Hv. unfold u64. rewrite Z.mod_small by lia. do 2 f_equal. lia.
Qed.

(** * The strict conversions *)

(** What a conversion leaves unread: nothing, or one final newline. *)
Definition ends_well (s : list Z) (n : Z) : bool :=
  (n =? len s) || ((n + 1 =? len s) && (ch s n =? 10)).

(** Both strict conversions, over the value [v] and the length [n] of what the parser read. *)
Lemma strict_end m p s n v :
  cstr m p s -> 0 <= n <= len s -> len s < 4294967295 -> s <> [] ->
  (if p + n =? p then Some (- EINVAL, 0)
   else
     c ← rd m (p + n);
     if (c =? 0) || ((len s =? u32 (p + n - p) + 1) && (c =? 10)) then Some (0, v)
     else Some (- EINVAL, 0)) =
  Some (if (0 <? n) && ends_well s n then (0, v) else (- EINVAL, 0)).
Proof.
  intros Hs Hn Hlen Hne. destruct (0 <? n) eqn:E0; zbool.
  - rewrite (proj2 (Z.eqb_neq _ _)) by lia. at_char Hs. rewrite (ch_zero m p s) by (done || lia).
    rewrite u32_small by (unfold is_u32; lia). unfold ends_well. rewrite (Z.eqb_sym (len s)).
    replace (p + n - p + 1) with (n + 1) by lia. simpl. by destruct (_ || _).
  - by rewrite (proj2 (Z.eqb_eq _ _)) by lia.
Qed.

Lemma strict_strtoull_spec m p s b :
  cstr m p s -> len s < 4294967295 ->
  exists n v, simple_strtoull m p b = Some (v, p + n) /\ 0 <= n <= len s /\
    strict_strtoull m p b = Some (if (0 <? n) && ends_well s n then (0, v) else (- EINVAL, 0)) /\
    strict_strtoul m p b = Some (if (0 <? n) && ends_well s n then (0, u32 v) else (- EINVAL, 0)).
Proof.
  intros Hs Hlen. destruct (simple_strtoull_spec m p s b Hs) as (k & Hk & Hp).
  set (off := prefix_skip b s) in *. destruct (prefix_spec m p s b Hs) as [_ Hoff]. fold off in Hoff.
  destruct Hk as [Hk _]. rewrite length_drop in Hk.
  exists (off + k). eexists. rewrite Z.add_assoc. split; [exact Hp|]. split; [lia|].
  unfold strict_strtoull, strict_strtoul, simple_strtoul. rewrite (strlen_spec m p s Hs).
  cbn [mbind option_bind]. destruct (len s =? 0) eqn:E; zbool.
  { destruct s; [|done]. replace (off + k) with 0 by (simpl in *; lia). done. }
  rewrite Hp. cbn [mbind option_bind]. cbv beta iota. rewrite <- Z.add_assoc.
  assert (s <> []) as Hne by (by intros ->).
  split; (apply strict_end; [done|lia|done|done]).
Qed.

(** The text of a number, with an optional newline, is accepted and read exactly. *)
Lemma strict_readback m p b0 b locase num t :
  locase = 0 \/ locase = 32 -> parse_case b0 b num -> 0 <= num < 18446744073709551616 ->
  t = [] \/ t = [10] ->
  cstr m p (prefix_text b0 b locase ++ digit_text b locase num ++ t) ->
  strict_strtoull m p b0 = Some (0, num) /\ strict_strtoul m p b0 = Some (0, u32 num).
Proof.
  intros Hl Hcase Hn Ht Hs. set (s := prefix_text b0 b locase ++ digit_text b locase num ++ t) in *.
  assert (2 <= b <= 16) as Hb by (destruct Hcase as [[_ H]|[_ H]]; lia).
  assert (len s = len (prefix_text b0 b locase) + len (digit_text b locase num) + len t) as Hlen
    by (subst s; rewrite !length_app; lia).
  assert (len (digit_text b locase num) <= 64) as Hd.
  { unfold digit_text. rewrite length_reverse, length_fmap. pose proof (digits_rev_length b num). lia. }
  assert (len (prefix_text b0 b locase) <= 2) as Hp.
  { unfold prefix_text. repeat case_match; simpl; lia. }
  assert (len t <= 1) as Hlt by (destruct Ht as [-> | ->]; simpl; lia).
  assert (ch t 0 = 0 \/ ch t 0 = 10) as Ht0 by (destruct Ht as [-> | ->]; auto).
  destruct (strict_strtoull_spec m p s b0 Hs ltac:(lia)) as (n & v & Hp1 & Hn1 & -> & ->).
  rewrite (strtoull_readback m p b0 b locase num t Hl Hcase Hn Ht0 Hs) in Hp1. simplify_eq Hp1.
  intros <- Hn2. destruct (digit_text_value b locase num Hl Hb Hn) as (_ & _ & Hpos).
  assert (n = len s - len t) as -> by lia. rewrite (proj2 (Z.ltb_lt _ _)) by lia. simpl.
  assert (ends_well s (len s - len t) = true) as ->; [|done]. unfold ends_well.
  destruct Ht as [-> | ->]; simpl length.
  - by rewrite (proj2 (Z.eqb_eq _ _)) by lia.
  - apply orb_true_iff. right. rewrite (proj2 (Z.eqb_eq _ _)) by lia. simpl in Hlen |- *.
    subst s. rewrite app_assoc, ch_app, (proj2 (Z.ltb_ge _ _)) by (rewrite ?length_app; simpl in *; lia).
    rewrite !length_app. simpl length. by replace (_ - _) with 0 by lia.
Qed.

(** C33: simple_strtoull reads the prefix of a hexadecimal number (where the base allows one) and the
    longest run of digits of the base after it, and returns the value of the digits modulo 2^64 and the
    position behind them. strict_strtoull and strict_strtoul accept a string exactly when prefix and
    digits together are not empty and are followed by nothing or one newline; they then return the
    value of the digits, reduced modulo the width of the result, and otherwise -EINVAL with *res set
    to 0.  No range error is ever reported, and as the prefix alone counts, "0x" is accepted as 0 in
    base 16. *)
Theorem strict_conversions :
  (forall m p s b,
  cstr m p s -> len s < 4294967295 ->
  exists k, let off := prefix_skip b s in let base := effective_base b s in
    prefix_len (fun c => is_digit base c = true) (drop (Z.to_nat off) s) k /\
    let v := value base (take (Z.to_nat k) (drop (Z.to_nat off) s)) in
    let ok := (0 <? off + k) && ends_well s (off + k) in
    simple_strtoull m p b = Some (u64 v, p + off + k) /\
    strict_strtoull m p b = Some (if ok then (0, u64 v) else (- EINVAL, 0)) /\
    strict_strtoul m p b = Some (if ok then (0, u32 v) else (- EINVAL, 0))) /\
  strict_strtoul [48; 120; 0] 0 16 = Some (0, 0).
Proof.
  split; [|vm_compute; reflexivity]. intros m p s b Hs Hlen. destruct (simple_strtoull_spec m p s b Hs) as (k & Hk & Hp). exists k.
  cbv zeta. split; [done|]. split; [done|].
  destruct (strict_strtoull_spec m p s b Hs Hlen) as (n & v & Hp1 & _ & -> & ->).
  rewrite Hp in Hp1. injection Hp1 as Hv Hn.
  assert (n = prefix_skip b s + k) as -> by lia. rewrite <- Hv. split; [done|]. do 3 f_equal.
  case_match; [|done]. f_equal. unfold u32, u64.
  rewrite Z.mod_mod_divide; [done|]. by exists 4294967296.
Qed.

Lemma strict_conversions_witness :
  strict_strtoull [48; 88; 102; 10; 0] 0 0 = Some (0, 15) /\
  exists k, prefix_len (fun c => is_digit 16 c = true) [102; 10] k.
Proof.
  destruct (proj1 strict_conversions [48; 88; 102; 10; 0] 0 [48; 88; 102; 10] 0) as (k & Hk & _).
  - apply cstr_intro; [reflexivity|lia|reflexivity].
  - simpl. lia.
  - split; [reflexivity|]. exists k. exact Hk.
Defined.
