(* ===== verification/VsprintfFmt.v ===== *)
(** What number(), string() and the other emitters of lib/vsprintf.c print, and how vsnprintf puts
    it in the buffer: the text does not depend on the buffer, which receives as much of it as
    fits. *)

From S2P Require Import Prelude Str StrSpec StrCopy Vsprintf VsprintfNum VsprintfParse.
From Stdlib Require Import Lia.

Implicit Types (m w : mem) (T l : list Z) (spec : printf_spec).

(** * Printing a text *)

(** The buffer and position after the text [T]. *)
Definition printed (end_ : Z) (b : mem * Z) (T : list Z) : mem * Z :=
  (blit b.1 b.2 (take (Z.to_nat (end_ - b.2)) T), b.2 + len T).

(** The part of [T] before [end_] is inside the buffer. *)
Definition fits (end_ : Z) (b : mem * Z) (T : list Z) : Prop :=
  0 <= b.2 /\ (b.2 < end_ -> Z.min end_ (b.2 + len T) <= len b.1).

Lemma take_min_len l n : 0 <= n -> len (take (Z.to_nat n) l) = Z.min n (len l).
Proof. intros. rewrite length_take. lia. Qed.

Lemma fits_room end_ m buf T :
  fits end_ (m, buf) T -> buf < end_ -> room m buf (len (take (Z.to_nat (end_ - buf)) T)).
Proof.
  intros [H0 Hf] Hlt. specialize (Hf Hlt). simpl in *. rewrite take_min_len by lia. split; lia.
Qed.

Lemma printed_nil end_ b : 0 <= b.2 -> printed end_ b [] = b.
Proof.
  destruct b as [m buf]. simpl. intros Hb. unfold printed. simpl. rewrite take_nil, blit_nil by lia.
  f_equal. lia.
Qed.

Lemma printed_length end_ b T : fits end_ b T -> len (printed end_ b T).1 = len b.1.
Proof.
  destruct b as [m buf]. intros Hf. unfold printed. simpl.
  destruct (decide (buf < end_)) as [Hlt|Hge].
  - rewrite blit_length; [done|]. by apply fits_room.
  - replace (Z.to_nat (end_ - buf)) with 0%nat by lia. rewrite take_0, blit_nil; [done|]. destruct Hf. simpl in *. lia.
Qed.

(** Texts printed one after the other. *)
Lemma printed_app end_ b T1 T2 :
  fits end_ b (T1 ++ T2) -> printed end_ (printed end_ b T1) T2 = printed end_ b (T1 ++ T2).
Proof.
  destruct b as [m buf]. intros Hf. pose proof Hf as [H0 Hf']. unfold printed. simpl in *.
  rewrite length_app in *. f_equal; [|lia].
  destruct (decide (buf < end_)) as [Hlt|Hge].
  2:{ replace (Z.to_nat (end_ - buf)) with 0%nat by lia.
      replace (Z.to_nat (end_ - (buf + len T1))) with 0%nat by lia.
      rewrite !take_0. by rewrite !blit_nil by lia. }
  specialize (Hf' Hlt). rewrite take_app.
  destruct (decide (len T1 <= end_ - buf)) as [Hle|Hgt].
  - rewrite (take_ge T1) by lia.
    replace (Z.to_nat (end_ - (buf + len T1))) with (Z.to_nat (end_ - buf) - length T1)%nat by lia.
    rewrite blit_app; [done|]. split; [lia|]. rewrite length_take. lia.
  - replace (Z.to_nat (end_ - (buf + len T1))) with 0%nat by lia.
    replace (Z.to_nat (end_ - buf) - length T1)%nat with 0%nat by lia.
    rewrite !take_0, app_nil_r. apply blit_nil. lia.
Qed.

Lemma fits_app_l end_ b T1 T2 : fits end_ b (T1 ++ T2) -> fits end_ b T1.
Proof. intros [H0 H]. split; [done|]. intros Hlt. specialize (H Hlt). rewrite length_app in H. lia. Qed.

Lemma fits_app_r end_ b T1 T2 : fits end_ b (T1 ++ T2) -> fits end_ (printed end_ b T1) T2.
Proof.
  intros Hf. pose proof (fits_app_l _ _ _ _ Hf) as H1. pose proof Hf as [H0 H]. split; [simpl; lia|].
  intros Hlt. rewrite printed_length by done. simpl in *. rewrite length_app in H. lia.
Qed.

Lemma put_spec end_ c b : fits end_ b [c] -> put end_ c b = Some (printed end_ b [c]).
Proof.
  destruct b as [m buf]. intros [H0 H]. unfold put, printed. simpl in *.
  destruct (buf <? end_) eqn:E; zbool.
  - rewrite wr_blit by (split; lia). simpl. do 2 f_equal.
    destruct (Z.to_nat (end_ - buf)) eqn:En; [lia|]. simpl. by rewrite take_nil.
  - replace (Z.to_nat (end_ - buf)) with 0%nat by lia. rewrite take_0, blit_nil by lia. done.
Qed.

Lemma put_snoc end_ c b T :
  fits end_ b (T ++ [c]) -> put end_ c (printed end_ b T) = Some (printed end_ b (T ++ [c])).
Proof. intros Hf. rewrite put_spec by (by apply fits_app_r). f_equal. by apply printed_app. Qed.

(** * Padding *)

Lemma rep_snoc n (c : Z) : 0 <= n ->
  replicate (Z.to_nat (n + 1)) c = replicate (Z.to_nat n) c ++ [c].
Proof. intros. replace (Z.to_nat (n + 1)) with (Z.to_nat n + 1)%nat by lia. by rewrite replicate_add. Qed.

Definition reps (n c : Z) : list Z := replicate (Z.to_nat n) c.

Lemma reps_len n c : len (reps n c) = Z.max 0 n.
Proof. unfold reps. rewrite length_replicate. lia. Qed.

Lemma fits_weaken end_ b T T' : fits end_ b T -> len T' <= len T -> fits end_ b T'.
Proof. intros [H0 H] Hl. split; [done|]. intros Hlt. specialize (H Hlt). lia. Qed.

Lemma s16_small x : -32768 <= x < 32768 -> s16 x = x.
Proof. intros. unfold s16. rewrite Z.mod_small; lia. Qed.

Lemma width_fuel_val : Z.of_nat width_fuel = 65537.
Proof. reflexivity. Qed.

#[global] Opaque width_fuel.

(** One more copy of the padding character. *)
Lemma put_reps end_ c b n k :
  fits end_ b (reps n c) -> 0 <= k < n ->
  put end_ c (printed end_ b (reps k c)) = Some (printed end_ b (reps (k + 1) c)).
Proof.
  intros Hf Hk. unfold reps at 2. rewrite rep_snoc by lia. apply put_snoc.
  eapply fits_weaken; [exact Hf|]. rewrite length_app, Nat2Z.inj_add. fold (reps k c). rewrite !reps_len. cbn [length]. lia.
Qed.

(** A loop that prints [c] and counts down while its test holds. *)
Lemma pad_rule {R} (r : mem * Z -> R) (step : Z * (mem * Z) -> option (ctl (Z * (mem * Z)) R))
    end_ c fw n b :
  (forall k b, 0 <= k < n -> step (fw - k, b) = (b ← put end_ c b; Some (Next (fw - (k + 1), b)))) ->
  (forall b, step (fw - Z.max 0 n, b) = Some (Ret (r b))) ->
  n <= 65536 -> fits end_ b (reps n c) ->
  loop width_fuel step (fw, b) = Some (r (printed end_ b (reps n c))).
Proof.
  intros Hstep Hend Hn Hf. pose proof width_fuel_val.
  assert (reps n c = reps (Z.max 0 n) c) as Hmax by (unfold reps; f_equal; lia).
  scan_with (fun k => (fw - k, printed end_ b (reps k c))) (Z.max 0 n) (fun _ => false) (fun _ => r b)
    (r (printed end_ b (reps n c))) as (r' & -> & [(k & _ & ? & _)|[_ ->]]); [| | | |done|done].
  - rewrite Z.sub_0_r, printed_nil by (by destruct Hf). done.
  - lia.
  - intros k Hk _. rewrite Hstep by lia.
    rewrite (put_reps end_ c b n k Hf) by lia. reflexivity.
  - intros _. by rewrite Hend, <- Hmax.
Qed.

Lemma pad_spec end_ c fw b :
  fits end_ b (reps fw c) -> -32768 < fw < 32768 ->
  pad end_ c fw b = Some (Z.min fw 0 - 1, printed end_ b (reps fw c)).
Proof.
  intros Hf Hfw. apply (pad_rule (fun b => (Z.min fw 0 - 1, b))); [| |lia|done].
  - intros k b' Hk. cbv beta iota zeta. rewrite s16_small, (proj2 (Z.leb_le _ _)) by lia.
    by replace (fw - k - 1) with (fw - (k + 1)) by lia.
  - intros b'. cbv beta iota zeta. rewrite s16_small, (proj2 (Z.leb_gt _ _)) by lia. do 3 f_equal. lia.
Qed.

Lemma pad_to_spec end_ n fw b :
  fits end_ b (reps (fw - n) 32) -> 0 <= n -> -32768 < fw < 32768 ->
  pad_to end_ n fw b = Some (Z.min fw n - 1, printed end_ b (reps (fw - n) 32)).
Proof.
  intros Hf Hn Hfw. apply (pad_rule (fun b => (Z.min fw n - 1, b))); [| |lia|done].
  - intros k b' Hk. cbv beta iota zeta. rewrite (proj2 (Z.ltb_lt _ _)), s16_small by lia.
    by replace (fw - k - 1) with (fw - (k + 1)) by lia.
  - intros b'. cbv beta iota zeta. rewrite (proj2 (Z.ltb_ge _ _)), s16_small by lia. do 3 f_equal. lia.
Qed.

Lemma pad_char_spec end_ fw b :
  fits end_ b (reps (fw - 1) 32) -> -32768 < fw < 32768 ->
  pad_char end_ fw b = Some (Z.min fw 1 - 1, printed end_ b (reps (fw - 1) 32)).
Proof.
  intros Hf Hfw. apply (pad_rule (fun b => (Z.min fw 1 - 1, b))); [| |lia|done].
  - intros k b' Hk. cbv beta iota zeta. rewrite s16_small, (proj2 (Z.ltb_lt _ _)) by lia.
    by replace (fw - k - 1) with (fw - (k + 1)) by lia.
  - intros b'. cbv beta iota zeta. rewrite s16_small, (proj2 (Z.ltb_ge _ _)) by lia. do 3 f_equal. lia.
Qed.

Lemma pad_after end_ c fw b T :
  fits end_ b (T ++ reps fw c) -> -32768 < fw < 32768 ->
  pad end_ c fw (printed end_ b T) = Some (Z.min fw 0 - 1, printed end_ b (T ++ reps fw c)).
Proof.
  intros Hf Hfw. rewrite pad_spec by (done || by apply fits_app_r). by rewrite printed_app.
Qed.

(** Zeros up to the precision. *)
Lemma prec_after end_ i prec b T :
  fits end_ b (T ++ reps (prec - i) 48) -> 0 <= i -> -32768 < prec < 32768 ->
  loop width_fuel (fun '(prec, b) =>
    let prec := s16 (prec - 1) in
    if i <=? prec then b ← put end_ 48 b; Some (Next (prec, b)) else Some (Ret b))
    (prec, printed end_ b T) = Some (printed end_ b (T ++ reps (prec - i) 48)).
Proof.
  intros Hf Hi Hp. rewrite <- printed_app by done.
  apply (pad_rule (fun b => b)); [| |lia|by apply fits_app_r].
  - intros k b' Hk. cbv beta iota zeta. rewrite s16_small, (proj2 (Z.leb_le _ _)) by lia.
    by replace (prec - k - 1) with (prec - (k + 1)) by lia.
  - intros b'. cbv beta iota zeta. by rewrite s16_small, (proj2 (Z.leb_gt _ _)) by lia.
Qed.

(** A list printed element by element. *)
Lemma put_take end_ b T l k :
  fits end_ b (T ++ l) -> 0 <= k < len l ->
  put end_ (ch l k) (printed end_ b (T ++ take (Z.to_nat k) l)) =
  Some (printed end_ b (T ++ take (Z.to_nat (k + 1)) l)).
Proof.
  intros Hf Hk. rewrite take_ch by done. rewrite app_assoc. apply put_snoc. rewrite <- app_assoc.
  eapply fits_weaken; [exact Hf|]. rewrite !length_app, length_take. simpl. lia.
Qed.

(** The digits of tmp, last one first. *)
Lemma digits_after end_ (ds tmp : list Z) b T :
  fits end_ b (T ++ reverse ds) -> (length ds <= 66)%nat ->
  (forall k, 0 <= k < len ds -> rd tmp k = Some (ch ds k)) ->
  loop 67 (fun '(i, b) =>
    let i := i - 1 in
    if 0 <=? i then
      c ← rd tmp i;
      b ← put end_ c b;
      Some (Next (i, b))
    else Some (Ret b)) (len ds, printed end_ b T) = Some (printed end_ b (T ++ reverse ds)).
Proof.
  intros Hf Hlen Htmp. pose proof (length_reverse ds) as Hr.
  scan_with (fun k => (len ds - k, printed end_ b (T ++ take (Z.to_nat k) (reverse ds)))) (len ds)
    (fun _ => false) (fun _ => b) (printed end_ b (T ++ reverse ds))
    as (r & -> & [(k & _ & ? & _)|[_ ->]]); [| | | |done|done].
  - rewrite Z.sub_0_r. simpl. by rewrite app_nil_r.
  - lia.
  - intros k Hk _. cbv zeta. rewrite (proj2 (Z.leb_le _ _)) by lia.
    rewrite Htmp by lia. cbn [mbind option_bind].
    replace (ch ds (len ds - k - 1)) with (ch (reverse ds) k).
    + rewrite put_take by (done || lia). simpl. do 3 f_equal. lia.
    + unfold ch. rewrite reverse_lookup by lia. do 2 f_equal. lia.
  - intros _. cbv zeta. rewrite (proj2 (Z.leb_gt _ _)) by lia.
    by rewrite Nat2Z.id, <- Hr, firstn_all.
Qed.

(** * Numbers *)

(** Flags are single bits. *)
Lemma has_bit spec k : 0 <= k -> has spec (2 ^ k) = Z.testbit (flags spec) k.
Proof.
  intros Hk. unfold has. destruct (Z.testbit (flags spec) k) eqn:E.
  - apply negb_true_iff, Z.eqb_neq. apply (testbit_nonzero _ k).
    by rewrite Z.land_spec, E, Z.pow2_bits_true.
  - apply negb_false_iff, Z.eqb_eq. apply Z.bits_inj'. intros i Hi.
    rewrite Z.land_spec, Z.bits_0, Z.pow2_bits_eqb by lia.
    destruct (k =? i) eqn:Ek; [|by rewrite andb_false_r]. zbool. by subst; rewrite E.
Qed.

Lemma has_lor spec f g : has spec (Z.lor f g) = has spec f || has spec g.
Proof.
  unfold has. rewrite Z.land_lor_distr_r.
  destruct (Z.land (flags spec) f =? 0) eqn:E1, (Z.land (flags spec) g =? 0) eqn:E2; zbool; simpl.
  - by rewrite E1, E2.
  - rewrite E1, Z.lor_0_l. by apply negb_true_iff, Z.eqb_neq.
  - rewrite E2, Z.lor_0_r. by apply negb_true_iff, Z.eqb_neq.
  - apply negb_true_iff, Z.eqb_neq. intros H. by apply Z.lor_eq_0_iff in H as [? _].
Qed.

Lemma has_clear spec k f :
  0 <= k -> has (set_flags (Z.land (flags spec) (Z.lnot f)) spec) (2 ^ k) =
  has spec (2 ^ k) && negb (Z.testbit f k).
Proof. intros Hk. rewrite !has_bit by done. simpl. by rewrite Z.land_spec, Z.lnot_spec. Qed.

Section Number.
Context (spec : printf_spec).

Definition is_left : bool := has spec LEFT.
Definition is_zero : bool := has spec ZEROPAD && negb is_left.
Definition locase_of : Z := Z.land spec.(flags) SMALL.

(** The sign character, 0 for none. *)
Definition sign_of (num : Z) : Z :=
  if has spec SIGN then
    if s64 num <? 0 then 45 else if has spec PLUS then 43 else if has spec SPACE then 32 else 0
  else 0.

Definition magnitude (num : Z) : Z := if has spec SIGN && (s64 num <? 0) then - s64 num else num.

Definition sign_text (num : Z) : list Z := if sign_of num =? 0 then [] else [sign_of num].

Definition pfx_text : list Z :=
  if has spec SPECIAL && negb (spec.(base) =? 10) then
    if spec.(base) =? 16 then [48; Z.lor 88 locase_of] else [48]
  else [].

(** The text of an integer conversion: sign, prefix and digits, padded to the width. *)
Definition number_text (num : Z) : list Z :=
  let ds := digit_text spec.(base) locase_of (magnitude num) in
  let prec := Z.max spec.(precision) (len ds) in
  let w := spec.(field_width) - len (sign_text num) - len pfx_text - prec in
  (if is_left || is_zero then [] else reps w 32) ++ sign_text num ++ pfx_text ++
  (if is_zero then reps w 48 else []) ++ reps (prec - len ds) 48 ++ ds ++
  (if is_left then reps w 32 else []).

(** Widths whose countdown does not wrap around. *)
Definition spec_ok : Prop :=
  (spec.(base) = 8 \/ spec.(base) = 10 \/ spec.(base) = 16) /\
  -32768 <= spec.(field_width) < 32768 /\ -32768 <= spec.(precision) < 32768 /\
  -32600 < spec.(field_width) - Z.max spec.(precision) 0.

Lemma locase_cases : locase_of = 0 \/ locase_of = 32.
Proof.
  unfold locase_of, SMALL. change 32 with (2 ^ 5). destruct (Z.testbit (flags spec) 5) eqn:E.
  - right. apply Z.bits_inj'. intros i Hi. rewrite Z.land_spec, Z.pow2_bits_eqb by lia.
    destruct (5 =? i) eqn:Ei; [|by rewrite andb_false_r]. zbool. by subst; rewrite E.
  - left. apply Z.bits_inj'. intros i Hi. rewrite Z.land_spec, Z.bits_0, Z.pow2_bits_eqb by lia.
    destruct (5 =? i) eqn:Ei; [|by rewrite andb_false_r]. zbool. by subst; rewrite E.
Qed.

Lemma magnitude_range num : 0 <= num < 18446744073709551616 -> 0 <= magnitude num < 18446744073709551616.
Proof. intros Hn. unfold magnitude, s64. destruct (has spec SIGN && _) eqn:E; zbool; lia. Qed.

(** The digits in tmp, for every base. *)
Lemma digits_written num :
  spec_ok -> 0 <= num < 18446744073709551616 ->
  (if num =? 0 then tmp ← wr (replicate 66 0) 0 48; Some (tmp, 1)
   else if negb (spec.(base) =? 10) then put_pow2 (replicate 66 0) num spec.(base) locase_of
   else put_dec (replicate 66 0) 0 num) =
  let ds := digit_char locase_of <$> digits_rev spec.(base) num in
  Some (blit (replicate 66 0) 0 ds, len ds).
Proof.
  intros (Hb & _) Hn. cbv zeta. rewrite length_fmap. destruct (num =? 0) eqn:E0; zbool.
  - subst. rewrite digits_rev_eq by lia. rewrite Z.mod_0_l, Z.div_0_l by lia. simpl.
    by destruct locase_cases as [-> | ->].
  - destruct (base spec =? 10) eqn:E; zbool; simpl negb; cbv iota.
    + pose proof (digits_rev_length 10 num). rewrite E. rewrite put_dec_spec.
      * f_equal. f_equal. f_equal. apply list_fmap_ext. intros i d Hd.
        pose proof (digits_rev_range 10 num ltac:(lia)) as HF. apply (Forall_lookup_1 _ _ _ _ HF) in Hd.
        destruct locase_cases as [-> | ->]; [done|].
        assert (d = 0 \/ d = 1 \/ d = 2 \/ d = 3 \/ d = 4 \/ d = 5 \/ d = 6 \/ d = 7 \/ d = 8 \/ d = 9)
          as Hdd by lia. repeat (destruct Hdd as [->|Hdd]; [reflexivity|]). by subst.
      * done.
      * split; [lia|]. rewrite length_replicate. lia.
    + by apply put_pow2_spec; [lia|].
Qed.

End Number.

(** The text number_emit prints for the digits [ds] (reversed), with its own widths. *)
Definition emit_text (sign : Z) (need_pfx : bool) (locase : Z) (ds : list Z) (spec : printf_spec)
  : list Z :=
  let prec := Z.max spec.(precision) (len ds) in
  let w := spec.(field_width) - prec in
  let l := has spec LEFT in
  let z := has spec ZEROPAD in
  (if z || l then [] else reps w 32) ++ (if sign =? 0 then [] else [sign]) ++
  (if need_pfx then if spec.(base) =? 16 then [48; Z.lor 88 locase] else [48] else []) ++
  (if negb l && z then reps w 48 else []) ++ reps (prec - len ds) 48 ++ reverse ds ++
  (if l then reps w 32 else []).

Lemma reps_neg n c : n <= 0 -> reps n c = [].
Proof. intros. unfold reps. by replace (Z.to_nat n) with 0%nat by lia. Qed.

(** Printing what is left of a text after a part of it. *)
Ltac fits_part Hf :=
  eapply fits_weaken; [exact Hf|]; rewrite !length_app, ?Nat2Z.inj_add, ?reps_len; cbn [length]; lia.

Lemma pfx_after end_ b T (need_pfx : bool) base locase :
  let P := if need_pfx then if base =? 16 then [48; Z.lor 88 locase] else [48] else [] in
  fits end_ b (T ++ P) ->
  (if need_pfx then
     b ← put end_ 48 (printed end_ b T);
     if base =? 16 then put end_ (Z.lor 88 locase) b else Some b
   else Some (printed end_ b T)) = Some (printed end_ b (T ++ P)).
Proof.
  cbv zeta. intros Hf. destruct need_pfx; [|by rewrite app_nil_r].
  rewrite put_snoc by (destruct (base =? 16); fits_part Hf). cbn [mbind option_bind].
  destruct (base =? 16); [|done]. rewrite put_snoc.
  - by rewrite <- app_assoc.
  - by rewrite <- app_assoc.
Qed.

Lemma sign_after end_ b T sign :
  let P := if sign =? 0 then [] else [sign] in
  fits end_ b (T ++ P) ->
  (if negb (sign =? 0) then put end_ sign (printed end_ b T) else Some (printed end_ b T)) =
  Some (printed end_ b (T ++ P)).
Proof. cbv zeta. intros Hf. destruct (sign =? 0); simpl; [by rewrite app_nil_r|by apply put_snoc]. Qed.

Lemma number_emit_spec m buf end_ sign need_pfx locase tmp (ds : list Z) spec :
  fits end_ (m, buf) (emit_text sign need_pfx locase ds spec) -> (length ds <= 66)%nat ->
  (forall k, 0 <= k < len ds -> rd tmp k = Some (ch ds k)) ->
  -32768 <= spec.(precision) < 32768 -> spec.(field_width) < 32768 ->
  -32760 < spec.(field_width) - Z.max spec.(precision) (len ds) ->
  number_emit m buf end_ sign need_pfx locase tmp (len ds) spec =
  Some (printed end_ (m, buf) (emit_text sign need_pfx locase ds spec)).
Proof.
  intros Hf Hlen Htmp Hp Hw Hd. unfold number_emit.
  set (prec := Z.max (precision spec) (len ds)) in *.
  assert ((if precision spec <? len ds then set_precision (len ds) spec else spec) =
    PrintfSpec spec.(type) spec.(flags) spec.(base) spec.(qualifier) spec.(field_width) prec) as ->.
  { destruct (precision spec <? len ds) eqn:E; zbool; unfold set_precision.
    - rewrite s16_small by lia. f_equal. lia.
    - destruct spec. simpl in *. f_equal. lia. }
  cbv zeta. unfold set_width. cbn [type flags base qualifier field_width precision].
  set (w := field_width spec - prec) in *. rewrite (s16_small w) by lia.
  set (spec' := PrintfSpec _ _ _ _ w prec).
  change (ZEROPAD + LEFT) with (Z.lor ZEROPAD LEFT). rewrite has_lor.
  change (has spec' LEFT) with (has spec LEFT). change (has spec' ZEROPAD) with (has spec ZEROPAD).
  unfold emit_text in *. fold prec w in Hf |- *. revert Hf.
  set (l := has spec LEFT). set (z := has spec ZEROPAD).
  set (T0 := if z || l then [] else reps w 32). set (T1 := if sign =? 0 then [] else [sign]).
  set (T2 := if need_pfx then _ else []). set (T3 := if negb l && z then reps w 48 else []).
  set (T4 := reps (prec - len ds) 48). set (T5 := if l then reps w 32 else []). intros Hf.
  assert (0 <= buf) as Hbuf by (by destruct Hf).
  assert ((if negb (z || l) then pad end_ 32 w (m, buf) else Some (w, (m, buf))) =
    Some (if z || l then w else Z.min w 0 - 1, printed end_ (m, buf) T0)) as ->.
  { unfold T0. destruct (z || l) eqn:E; simpl negb; cbv iota; [by rewrite printed_nil|].
    apply pad_spec; [|lia]. apply fits_app_l in Hf. exact Hf. }
  cbn [mbind option_bind]. cbv beta iota. rewrite !app_assoc in Hf.
  rewrite sign_after by (repeat (apply fits_app_l in Hf; try exact Hf)). fold T1. cbn [mbind option_bind].
  rewrite pfx_after by (repeat (apply fits_app_l in Hf; try exact Hf)). fold T2. cbn [mbind option_bind].
  set (fw1 := if z || l then w else Z.min w 0 - 1).
  assert ((if negb l then pad end_ (if z then 48 else 32) fw1 (printed end_ (m, buf) ((T0 ++ T1) ++ T2))
      else Some (fw1, printed end_ (m, buf) ((T0 ++ T1) ++ T2))) =
    Some (if l then w else Z.min fw1 0 - 1, printed end_ (m, buf) (((T0 ++ T1) ++ T2) ++ T3))) as Hz.
  { do 3 apply fits_app_l in Hf. unfold T3, fw1 in *. destruct l; simpl.
    - rewrite orb_true_r, app_nil_r. done.
    - rewrite orb_false_r in *. destruct z; [by apply pad_after; [|lia]|].
      rewrite pad_after; [by rewrite reps_neg by lia|rewrite reps_neg by lia; exact Hf|lia]. }
  rewrite Hz. cbn [mbind option_bind]. cbv beta iota.
  rewrite prec_after by (repeat (apply fits_app_l in Hf; try exact Hf); lia). fold T4. cbn [mbind option_bind].
  rewrite digits_after by (repeat (apply fits_app_l in Hf; try exact Hf); done). cbn [mbind option_bind].
  assert (reps (if l then w else Z.min fw1 0 - 1) 32 = T5) as HT5.
  { unfold T5. destruct l; [done|]. apply reps_neg. lia. }
  rewrite pad_after; [|by rewrite HT5|unfold fw1; clearbody l z; destruct l, z; simpl; lia]. cbn [mbind option_bind]. rewrite HT5, <- !app_assoc. done.
Qed.

(** The first half of number() clears ZEROPAD under LEFT and takes the sign and the prefix off the
    width. *)
Definition with_width (w : Z) (spec : printf_spec) : printf_spec :=
  PrintfSpec spec.(type) spec.(flags) spec.(base) spec.(qualifier) w spec.(precision).

Definition cleared (spec : printf_spec) : printf_spec :=
  if has spec LEFT then set_flags (Z.land spec.(flags) (Z.lnot ZEROPAD)) spec else spec.

Lemma cleared_has spec k :
  0 <= k -> has (cleared spec) (2 ^ k) = has spec (2 ^ k) && negb (is_left spec && (k =? 0)).
Proof.
  intros Hk. unfold cleared, is_left. destruct (has spec LEFT); [|by rewrite andb_true_r].
  rewrite has_clear by done. do 2 f_equal.
Qed.

Lemma cleared_fields spec :
  field_width (cleared spec) = field_width spec /\ base (cleared spec) = base spec /\
  precision (cleared spec) = precision spec.
Proof. unfold cleared. by destruct (has spec LEFT). Qed.

Lemma sign_block spec num :
  spec_ok spec -> 0 <= num < 18446744073709551616 ->
  (if has (cleared spec) SIGN then
     if s64 num <? 0 then (45, u64 (- s64 num), set_width (field_width (cleared spec) - 1) (cleared spec))
     else if has (cleared spec) PLUS then (43, num, set_width (field_width (cleared spec) - 1) (cleared spec))
     else if has (cleared spec) SPACE then (32, num, set_width (field_width (cleared spec) - 1) (cleared spec))
     else (0, num, cleared spec)
   else (0, num, cleared spec)) =
  (sign_of spec num, magnitude spec num,
   with_width (field_width spec - len (sign_text spec num)) (cleared spec)).
Proof.
  intros (_ & Hw & _ & Hd) Hn. pose proof (cleared_has spec 1 ltac:(lia)) as H1.
  pose proof (cleared_has spec 2 ltac:(lia)) as H2. pose proof (cleared_has spec 3 ltac:(lia)) as H3.
  change (2 ^ 1) with SIGN in H1. change (2 ^ 2) with PLUS in H2. change (2 ^ 3) with SPACE in H3.
  simpl in H1, H2, H3. rewrite andb_false_r, andb_true_r in H1, H2, H3. rewrite H1, H2, H3.
  destruct (cleared_fields spec) as (Hfw & _). unfold set_width. rewrite Hfw, s16_small by lia.
  assert (with_width (field_width spec - 0) (cleared spec) = cleared spec) as H0.
  { rewrite Z.sub_0_r, <- Hfw. by destruct (cleared spec). }
  unfold sign_text, sign_of, magnitude.
  destruct (has spec SIGN); [|f_equal; symmetry; exact H0]. simpl andb. destruct (s64 num <? 0) eqn:E; zbool.
  - unfold u64. rewrite Z.mod_small; [done|]. unfold s64 in *. lia.
  - destruct (has spec PLUS); [done|]. destruct (has spec SPACE); [done|].
    f_equal. symmetry. exact H0.
Qed.

Lemma pfx_block spec num (w : Z) :
  w = field_width spec - len (sign_text spec num) -> spec_ok spec ->
  (if has spec SPECIAL && negb (base spec =? 10) then
     let spec0 := set_width (field_width (with_width w (cleared spec)) - 1) (with_width w (cleared spec)) in
     if base spec0 =? 16 then set_width (field_width spec0 - 1) spec0 else spec0
   else with_width w (cleared spec)) =
  with_width (w - len (pfx_text spec)) (cleared spec).
Proof.
  intros -> (Hb & Hw & _ & Hd). set (w := field_width spec - _).
  assert (-32710 < w < 32768) as Hwr.
  { unfold w, sign_text. destruct (_ =? 0); simpl; lia. }
  destruct (cleared_fields spec) as (_ & Hbase & _). unfold pfx_text.
  destruct (has spec SPECIAL && negb (base spec =? 10)); [|simpl; by rewrite Z.sub_0_r].
  cbv zeta. unfold set_width. cbn [field_width with_width base]. rewrite Hbase.
  rewrite (s16_small (w - 1)) by lia.
  destruct (base spec =? 16); [rewrite s16_small by lia|]; unfold with_width; simpl; rewrite ?Hbase;
    f_equal; lia.
Qed.

Lemma emit_number_text spec num :
  emit_text (sign_of spec num) (has spec SPECIAL && negb (base spec =? 10)) (locase_of spec)
    (digit_char (locase_of spec) <$> digits_rev (base spec) (magnitude spec num))
    (with_width (field_width spec - len (sign_text spec num) - len (pfx_text spec)) (cleared spec)) =
  number_text spec num.
Proof.
  destruct (cleared_fields spec) as (_ & Hbase & Hprec).
  pose proof (cleared_has spec 0 ltac:(lia)) as Hz. pose proof (cleared_has spec 4 ltac:(lia)) as Hl.
  change (2 ^ 0) with ZEROPAD in Hz. change (2 ^ 4) with LEFT in Hl.
  simpl in Hz, Hl. rewrite andb_true_r in Hz. rewrite andb_false_r, andb_true_r in Hl.
  unfold emit_text, number_text, with_width. cbn [field_width precision base].
  rewrite Hbase, Hprec. unfold has, ZEROPAD, LEFT in Hz, Hl |- *. cbn [flags]. rewrite Hz, Hl.
  unfold is_zero, is_left, digit_text, has, ZEROPAD, LEFT, sign_text, pfx_text.
  rewrite length_reverse, length_fmap.
  destruct (negb (Z.land (flags spec) 1 =? 0)), (negb (Z.land (flags spec) 16 =? 0)); done.
Qed.

(** number() prints [number_text]. *)
Lemma number_spec m buf end_ num spec :
  fits end_ (m, buf) (number_text spec num) -> spec_ok spec -> 0 <= num < 18446744073709551616 ->
  number m buf end_ num spec = Some (printed end_ (m, buf) (number_text spec num)).
Proof.
  intros Hf Hok Hn. pose proof Hok as (Hb & Hw & Hp & Hd). unfold number.
  fold (cleared spec). change (Z.land (flags spec) SMALL) with (locase_of spec). cbv zeta.
  rewrite (sign_block spec num Hok Hn). cbv beta iota.
  pose proof (pfx_block spec num _ eq_refl Hok) as Hpfx. cbv zeta in Hpfx. rewrite Hpfx. clear Hpfx.
  destruct (cleared_fields spec) as (_ & Hbase & Hprec).
  change (base (with_width _ (cleared spec))) with (base (cleared spec)). rewrite Hbase.
  rewrite (digits_written spec _ Hok (magnitude_range spec num Hn)). cbv zeta.
  cbn [mbind option_bind]. cbv beta iota.
  rewrite <- emit_number_text in Hf |- *.
  set (ds := digit_char (locase_of spec) <$> digits_rev (base spec) (magnitude spec num)) in *.
  pose proof (digits_rev_length (base spec) (magnitude spec num)) as Hlen.
  assert (length ds <= 64)%nat as Hds by (subst ds; rewrite length_fmap; lia).
  assert (len (sign_text spec num) <= 1) as Hs1 by (unfold sign_text; destruct (_ =? 0); simpl; lia).
  assert (len (pfx_text spec) <= 2) as Hp2 by (unfold pfx_text; repeat case_match; simpl; lia).
  apply number_emit_spec; cbn [with_width field_width precision]; rewrite ?Hprec; [exact Hf|lia| |lia|lia|lia].
  intros k Hk. assert (room (replicate 66 0) 0 (len ds)) as Hr by (split; [lia|rewrite length_replicate; lia]).
  rewrite rd_blit by done. rewrite bool_decide_eq_true_2, Z.sub_0_r by lia.
  unfold rd, ch. rewrite bool_decide_eq_true_2 by lia.
  by destruct (lookup_lt_is_Some_2 ds (Z.to_nat k) ltac:(lia)) as [x ->].
Qed.
