(* ===== verification/VsprintfOut.v ===== *)
(** Strings, characters and pointers, and vsnprintf as a whole: the text of a format and its
    arguments, which vsnprintf truncates to the buffer as C99 asks. *)

From S2P Require Import Prelude Str StrSpec StrCopy Vsprintf VsprintfNum VsprintfParse VsprintfFmt.
From Stdlib Require Import Lia.

Implicit Types (m w : mem) (T l : list Z) (spec : printf_spec).

(** * Strings and characters *)

Definition slice_of (w : mem) (s n : Z) : list Z := take (Z.to_nat n) (drop (Z.to_nat s) w).

Definition justify (spec : printf_spec) (pad : Z) (T : list Z) : list Z :=
  (if has spec LEFT then [] else reps pad 32) ++ T ++ (if has spec LEFT then reps pad 32 else []).

(** Widths whose countdown in string() and the %c loop does not wrap. *)
Definition width_ok (spec : printf_spec) : Prop := -32760 < spec.(field_width) < 32768.

Definition string_text (w : mem) (s : Z) (spec : printf_spec) : option (list Z) :=
  n ← strnlen w s (u32 spec.(precision));
  Some (justify spec (spec.(field_width) - n) (slice_of w s n)).

Definition char_text (c : Z) (spec : printf_spec) : list Z :=
  justify spec (spec.(field_width) - 1) [u8 c].

Lemma slice_ch w s n k :
  0 <= s -> s + n <= len w -> 0 <= k < n -> rd w (s + k) = Some (ch (slice_of w s n) k).
Proof.
  intros Hs Hn Hk. unfold slice_of. rewrite ch_take, (proj2 (Z.ltb_lt _ _)), ch_drop by lia.
  unfold rd, ch. rewrite bool_decide_eq_true_2 by lia.
  by destruct (lookup_lt_is_Some_2 w (Z.to_nat (s + k)) ltac:(lia)) as [x ->].
Qed.

Lemma slice_len w s n : 0 <= s -> s + n <= len w -> 0 <= n -> len (slice_of w s n) = n.
Proof. intros. unfold slice_of. rewrite length_take, length_drop. lia. Qed.

Lemma strnlen_bounds w s count n :
  0 <= s -> 0 <= count -> strnlen w s count = Some n -> 0 <= n /\ (n = 0 \/ s + n <= len w).
Proof.
  intros Hs Hc. apply (loop_partial (fun '(sc, _) => s <= sc /\ (sc = s \/ sc <= len w))
    (fun n => 0 <= n /\ (n = 0 \/ s + n <= len w))); [|split; [lia|by left]].
  intros [sc count'] c [Hsc Hin]. destruct (count' =? 0); [intros; simplify_eq; lia|].
  destruct (rd w sc) as [x|] eqn:Ex; [|done]. apply rd_inv in Ex as [Hx _]. cbn [mbind option_bind].
  destruct (x =? 0); intros; simplify_eq; lia.
Qed.

(** A slice printed character by character. *)
Lemma put_slice end_ w s n b T :
  fits end_ b (T ++ slice_of w s n) -> 0 <= s -> 0 <= n -> n = 0 \/ s + n <= len w ->
  foreach 0 n (fun i b => c ← rd w (s + i); put end_ c b) (printed end_ b T) =
  Some (printed end_ b (T ++ slice_of w s n)).
Proof.
  intros Hf Hs Hn [->|Hl].
  { unfold slice_of, foreach. simpl. by rewrite take_0, app_nil_r. }
  pose proof (slice_len w s n Hs Hl Hn) as Hlen.
  destruct (foreach_rule (fun i b' => b' = printed end_ b (T ++ take (Z.to_nat i) (slice_of w s n)))
    (fun i b => c ← rd w (s + i); put end_ c b) 0 n (printed end_ b T)) as (b' & -> & ->);
    [done| |by rewrite take_0, app_nil_r|].
  - intros i b' Hi ->. rewrite (slice_ch w s n) by lia. cbn [mbind option_bind].
    rewrite put_take by (done || lia). eauto.
  - rewrite take_ge; [done|]. lia.
Qed.

Lemma pad_to_after end_ n fw b T :
  fits end_ b (T ++ reps (fw - n) 32) -> 0 <= n -> -32768 < fw < 32768 ->
  pad_to end_ n fw (printed end_ b T) = Some (Z.min fw n - 1, printed end_ b (T ++ reps (fw - n) 32)).
Proof.
  intros Hf Hn Hfw. rewrite pad_to_spec by (done || by apply fits_app_r). by rewrite printed_app.
Qed.

Lemma pad_char_after end_ fw b T :
  fits end_ b (T ++ reps (fw - 1) 32) -> -32768 < fw < 32768 ->
  pad_char end_ fw (printed end_ b T) =
  Some (Z.min fw 1 - 1, printed end_ b (T ++ reps (fw - 1) 32)).
Proof.
  intros Hf Hfw. rewrite pad_char_spec by (done || by apply fits_app_r). by rewrite printed_app.
Qed.

Lemma string_at_spec w m buf end_ s spec T :
  string_text w s spec = Some T -> fits end_ (m, buf) T -> 0 <= s -> width_ok spec ->
  string_at w m buf end_ s spec = Some (printed end_ (m, buf) T).
Proof.
  intros HT Hf Hs Hw. unfold string_at, string_text, width_ok in *.
  destruct (strnlen w s (u32 (precision spec))) as [n|] eqn:En; [|done].
  cbn [mbind option_bind] in *. simplify_eq HT. intros <-. clear HT.
  apply strnlen_bounds in En as [Hn Hl]; [|done|by apply u32_is_u32].
  assert (0 <= buf) as Hbuf by (by destruct Hf). set (fw := field_width spec) in *.
  assert (exists fw' T0, (if negb (has spec LEFT) then pad_to end_ n fw (m, buf) else Some (fw, (m, buf)))
    = Some (fw', printed end_ (m, buf) T0) /\ -32768 < fw' < 32768 /\
    justify spec (fw - n) (slice_of w s n) = T0 ++ slice_of w s n ++ reps (fw' - n) 32)
    as (fw' & T0 & -> & Hfw' & HT0).
  { unfold justify in *. destruct (has spec LEFT); simpl negb; cbv iota.
    - exists fw, []. rewrite printed_nil by done. split; [done|]. split; [lia|done].
    - exists (Z.min fw n - 1), (reps (fw - n) 32).
      rewrite pad_to_spec by (try lia; by apply fits_app_l in Hf). split; [done|]. split; [lia|].
      by rewrite (reps_neg (Z.min fw n - 1 - n)) by lia. }
  rewrite HT0, app_assoc in Hf |- *. cbn [mbind option_bind]. cbv beta iota.
  rewrite put_slice by (try done; by apply fits_app_l in Hf). cbn [mbind option_bind].
  by rewrite pad_to_after by (done || lia).
Qed.

Lemma print_char_spec m str end_ c spec :
  fits end_ (m, str) (char_text c spec) -> width_ok spec ->
  print_char m str end_ c spec = Some (printed end_ (m, str) (char_text c spec)).
Proof.
  intros Hf Hw. unfold print_char, width_ok in *. assert (0 <= str) as Hbuf by (by destruct Hf).
  set (fw := field_width spec) in *. unfold char_text in *. fold fw in Hf |- *.
  assert (exists fw' T0, (if negb (has spec LEFT) then pad_char end_ fw (m, str) else Some (fw, (m, str)))
    = Some (fw', printed end_ (m, str) T0) /\ -32768 < fw' < 32768 /\
    justify spec (fw - 1) [u8 c] = T0 ++ [u8 c] ++ reps (fw' - 1) 32)
    as (fw' & T0 & -> & Hfw' & HT0).
  { unfold justify in *. destruct (has spec LEFT); simpl negb; cbv iota.
    - exists fw, []. rewrite printed_nil by done. split; [done|]. split; [lia|done].
    - exists (Z.min fw 1 - 1), (reps (fw - 1) 32).
      rewrite pad_char_spec by (try lia; by apply fits_app_l in Hf). split; [done|]. split; [lia|].
      by rewrite (reps_neg (Z.min fw 1 - 1 - 1)) by lia. }
  rewrite HT0, app_assoc in Hf |- *. cbn [mbind option_bind]. cbv beta iota.
  rewrite put_snoc by (by apply fits_app_l in Hf). cbn [mbind option_bind].
  by rewrite pad_char_after by (done || lia).
Qed.

(** * Literals and pointers *)

Lemma copy_literal_spec w m str end_ fmt read :
  fits end_ (m, str) (slice_of w fmt read) -> 0 <= fmt -> 0 <= read -> fmt + read <= len w ->
  copy_literal w m str end_ fmt read = Some (printed end_ (m, str) (slice_of w fmt read)).
Proof.
  intros [H0 Hf] Hfmt Hr Hl. unfold copy_literal, printed. simpl in *.
  pose proof (slice_len w fmt read Hfmt Hl Hr) as Hlen. rewrite Hlen in *.
  destruct (str <? end_) eqn:E; zbool.
  - set (copy := if end_ - str <? read then end_ - str else read).
    assert (copy = Z.min (end_ - str) read) as Hc
      by (subst copy; destruct (end_ - str <? read) eqn:?; zbool; lia).
    unfold memcpy. rewrite bool_decide_eq_true_2 by lia. cbn [mbind option_bind]. do 2 f_equal.
    unfold blit, slice_of. rewrite take_take, length_take, length_drop. f_equal. f_equal; f_equal; lia.
  - replace (Z.to_nat (end_ - str)) with 0%nat by lia. by rewrite take_0, blit_nil by lia.
Qed.

Definition ptr_text (w : mem) (fmt ptr : Z) (spec : printf_spec) : option (list Z) :=
  t ← pointer_text w fmt ptr;
  match t with
  | Some s => if bool_decide (width_ok spec) then string_text s 0 spec else None
  | None => if bool_decide (spec_ok (pointer_spec spec)) then Some (number_text (pointer_spec spec) ptr)
            else None
  end.

Lemma pointer_spec_ok w fmt m buf end_ ptr spec T :
  ptr_text w fmt ptr spec = Some T -> fits end_ (m, buf) T -> 0 <= ptr < 4294967296 ->
  pointer w fmt m buf end_ ptr spec = Some (printed end_ (m, buf) T).
Proof.
  unfold ptr_text, pointer. intros HT Hf Hp.
  destruct (pointer_text w fmt ptr) as [[s|]|]; [..|done]; cbn [mbind option_bind] in *;
    case_bool_decide; try done.
  - by apply string_at_spec.
  - simplify_eq. by apply number_spec; [| |lia].
Qed.

(** * The text of a format

    The literal characters and the conversions of [w] from [fmt] on, with the arguments they take;
    [None] for what the theorems leave out: a width or precision beyond the s16 counters, %n, a
    missing argument, a string that is not terminated. *)

Definition text_state : Type := list Z * Z * printf_spec * list arg.

Definition string_arg_text (w : mem) (s : Z) (spec : printf_spec) : option (list Z) :=
  if s <? PAGE_SIZE then string_text null_text 0 spec else string_text w s spec.

Definition text_step (w : mem) (s : text_state) : option (ctl text_state (list Z)) :=
  let '(T, fmt, spec, args) := s in
  c ← rd w fmt;
  if c =? 0 then Some (Ret T)
  else
    '(read, spec) ← format_decode w fmt spec;
    let next := fmt + read in
    match spec.(type) with
    | FORMAT_TYPE_NONE =>
        Some (Next (T ++ slice_of w fmt read, next, spec, args))
    | FORMAT_TYPE_WIDTH =>
        '(x, args) ← va_word args;
        Some (Next (T, next, set_width (s32 x) spec, args))
    | FORMAT_TYPE_PRECISION =>
        '(x, args) ← va_word args;
        Some (Next (T, next, set_precision (s32 x) spec, args))
    | FORMAT_TYPE_CHAR =>
        '(x, args) ← va_word args;
        if bool_decide (width_ok spec) then Some (Next (T ++ char_text x spec, next, spec, args)) else None
    | FORMAT_TYPE_STR =>
        '(x, args) ← va_word args;
        t ← string_arg_text w x spec;
        if bool_decide (width_ok spec) then Some (Next (T ++ t, next, spec, args)) else None
    | FORMAT_TYPE_PTR =>
        '(x, args) ← va_word args;
        t ← ptr_text w (next + 1) x spec;
        next ← skip_alnum w next;
        Some (Next (T ++ t, next, spec, args))
    | FORMAT_TYPE_PERCENT_CHAR | FORMAT_TYPE_INVALID => Some (Next (T ++ [37], next, spec, args))
    | FORMAT_TYPE_NRCHARS => None
    | t =>
        '(num, args) ← va_num t args;
        if bool_decide (spec_ok spec) then Some (Next (T ++ number_text spec num, next, spec, args))
        else None
    end.

Definition vsn_text (w : mem) (fmt : Z) (args : list arg) : option (list Z) :=
  loop (2 * fuel w) (text_step w) ([], fmt, spec0, args).

Lemma va_word_range args x args' : va_word args = Some (x, args') -> 0 <= x < 4294967296.
Proof. destruct args as [|[y|y]]; simpl; [done| |done]. intros. simplify_eq. apply u32_is_u32. Qed.

Lemma va_num_range t args x args' :
  va_num t args = Some (x, args') -> 0 <= x < 18446744073709551616.
Proof.
  unfold va_num. intros H.
  assert (t = FORMAT_TYPE_LONG_LONG \/ exists y, 0 <= y < 4294967296 /\
    (x = y \/ x = u64 (s32 y) \/ x = u64 (s16 y) \/ x = u64 (s8 y) \/ x = u8 y \/ x = u16 y)) as [->|H'].
  { destruct t; auto; right; destruct (va_word args) as [[y ?]|] eqn:E; try done;
      apply va_word_range in E; exists y; split; try lia; cbn [mbind option_bind] in H; simplify_eq; auto 7. }
  - destruct args as [|[y|y]]; try done. simplify_eq. unfold u64. lia.
  - destruct H' as (y & Hy & H'). unfold u64, u8, u16 in H'. lia.
Qed.

(** * Progress through the format *)

Definition pending (spec : printf_spec) : bool :=
  match spec.(type) with FORMAT_TYPE_WIDTH | FORMAT_TYPE_PRECISION => true | _ => false end.

(** A read in the code at [i] puts [i] inside the memory. *)
Ltac reads H :=
  repeat match type of H with
  | (rd ?w ?i ≫= _) = Some _ =>
      let E := fresh "E" in destruct (rd w i) as [?c|] eqn:E; [|discriminate H];
      apply rd_inv in E as [E _]; cbn [mbind option_bind] in H
  end.

Lemma skip_atoi_reads w s i s' :
  skip_atoi w s = Some (i, s') -> 0 <= s -> s <= s' < len w.
Proof.
  intros H Hs. revert H.
  apply (loop_partial (fun '(p, _) => s <= p) (fun '(_, s') => s <= s' < len w) _ _ _ (i, s')); [|lia].
  intros [p k] r Hp H. reads H. destruct (isdigit c); simplify_eq; lia.
Qed.

Lemma fd_qualifier_reads w start fmt spec read spec' :
  fd_qualifier w start fmt spec = Some (read, spec') -> 0 <= fmt ->
  fmt - start <= read /\ start + read <= len w /\ pending spec' = false.
Proof.
  unfold fd_qualifier. intros H Hf. reads H.
  assert (exists fmt2 spec2, fmt <= fmt2 /\ (c2 ← rd w fmt2;
    if c2 =? 99 then Some (fmt2 + 1 - start, set_type FORMAT_TYPE_CHAR spec2)
    else if c2 =? 115 then Some (fmt2 + 1 - start, set_type FORMAT_TYPE_STR spec2)
    else if c2 =? 112 then Some (fmt2 - start, set_type FORMAT_TYPE_PTR spec2)
    else if c2 =? 110 then Some (fmt2 + 1 - start, set_type FORMAT_TYPE_NRCHARS spec2)
    else if c2 =? 37 then Some (fmt2 + 1 - start, set_type FORMAT_TYPE_PERCENT_CHAR spec2)
    else if c2 =? 111 then fd_number w start fmt2 (set_base 8 spec2)
    else if c2 =? 120 then fd_number w start fmt2 (set_base 16 (add_flag SMALL spec2))
    else if c2 =? 88 then fd_number w start fmt2 (set_base 16 spec2)
    else if (c2 =? 100) || (c2 =? 105) then fd_number w start fmt2 (add_flag SIGN spec2)
    else if c2 =? 117 then fd_number w start fmt2 spec2
    else Some (fmt2 - start, set_type FORMAT_TYPE_INVALID spec2)) = Some (read, spec'))
    as (fmt2 & spec2 & Hle & H2).
  { destruct (_ || _ || _ || _); [|by eexists fmt, _].
    destruct (rd w (fmt + 1)) as [c'|]; [|discriminate H]. cbn [mbind option_bind] in H.
    destruct (c =? c'); [destruct (c =? 108); [|destruct (c =? 104)]|];
      (eexists _, _; split; [|exact H]; lia). }
  clear H. reads H2. unfold fd_number in H2.
  repeat match type of H2 with
  | (if ?b then _ else _) = _ => destruct b; [simplify_eq H2; intros <- <-; split_and!; try lia|]
  end; try (unfold pending; simpl; repeat case_match; done).
  simplify_eq H2. intros <- <-. split_and!; [lia|lia|done].
Qed.

Lemma fd_precision_reads w start fmt spec read spec' :
  fd_precision w start fmt spec = Some (read, spec') -> 0 <= fmt ->
  fmt - start <= read /\ start + read <= len w /\ (read = fmt - start -> pending spec' = false).
Proof.
  unfold fd_precision. intros H Hf. reads H. destruct (c =? 46).
  - reads H. destruct (isdigit c0).
    + destruct (skip_atoi w (fmt + 1)) as [[i fmt']|] eqn:Ei; [|done]. cbn [mbind option_bind] in H.
      apply skip_atoi_reads in Ei; [|lia]. apply fd_qualifier_reads in H; [|lia]. split_and!; [lia|lia|tauto].
    + destruct (c0 =? 42); [simplify_eq; lia|]. apply fd_qualifier_reads in H; [|lia].
      split_and!; [lia|lia|tauto].
  - apply fd_qualifier_reads in H; [|lia]. split_and!; [lia|lia|tauto].
Qed.

(** Decoding stays inside the format and moves on, or completes a pending width or precision. *)
Lemma format_decode_reads w fmt spec read spec' c :
  format_decode w fmt spec = Some (read, spec') -> 0 <= fmt -> rd w fmt = Some c -> c <> 0 ->
  0 <= read /\ fmt + read <= len w /\ (read = 0 -> pending spec = true /\ pending spec' = false).
Proof.
  unfold format_decode. intros H Hf Hc Hc0.
  destruct (decide (pending spec = true)) as [Hp|Hp].
  - unfold pending in *. destruct (type spec); try done.
    + apply fd_precision_reads in H; [|done]. split_and!; [lia|lia|]. intros. split; [done|].
      unfold pending in H. apply H. lia.
    + apply fd_qualifier_reads in H; [|done]. split_and!; [lia|lia|tauto].
  - assert (0 < read /\ fmt + read <= len w) as Hgoal; [|split_and!; lia].
    assert (forall X Y Z : option (Z * printf_spec),
      match type spec with FORMAT_TYPE_WIDTH => X | FORMAT_TYPE_PRECISION => Y | _ => Z end = Z) as Hm
      by (intros; unfold pending in Hp; destruct (type spec); done).
    rewrite Hm in H. clear Hm Hp.
    destruct (loop _ _ fmt) as [fmt1|] eqn:E1; [|done]. cbn [mbind option_bind] in H.
    assert (fmt <= fmt1) as Hle.
    { revert E1. apply (loop_partial (fun p => fmt <= p) (fun p => fmt <= p)); [|lia].
      intros p r Hp E1. reads E1. destruct (_ =? 0); [by simplify_eq|].
      destruct (_ =? 37); simplify_eq; lia. }
    destruct (rd w fmt1) as [c1|] eqn:Ec1; [|done]. cbn [mbind option_bind] in H.
    pose proof (rd_inv _ _ _ Ec1) as [Hb1 _].
    destruct (negb (fmt1 =? fmt) || (c1 =? 0)) eqn:Ec.
    { simplify_eq H. intros <- <-. apply orb_true_iff in Ec as [Ec|Ec]; zbool; [lia|].
      destruct (decide (fmt1 = fmt)) as [->|]; [congruence|lia]. }
    zbool. subst fmt1.
    destruct (loop _ _ (fmt, _)) as [[fmt2 spec2]|] eqn:E2; [|done]. cbn [mbind option_bind] in H.
    assert (fmt < fmt2 < len w) as Hlt.
    { revert E2. apply (loop_partial (fun '(p, _) => fmt <= p) (fun '(p, _) => fmt < p < len w)); [|simpl; lia].
      intros [p sp] r Hp E2. cbv beta iota zeta in E2. reads E2.
      destruct (flag_of c0); simplify_eq; lia. }
    reads H. destruct (isdigit c0).
    + destruct (skip_atoi w fmt2) as [[i fmt3]|] eqn:Ei; [|done]. cbn [mbind option_bind] in H.
      apply skip_atoi_reads in Ei; [|lia]. apply fd_precision_reads in H; lia.
    + destruct (c0 =? 42); [simplify_eq; lia|]. apply fd_precision_reads in H; lia.
Qed.

Lemma skip_alnum_reads w fmt fmt' : skip_alnum w fmt = Some fmt' -> 0 <= fmt -> fmt <= fmt' < len w.
Proof.
  intros H Hf. revert H. apply (loop_partial (fun p => fmt <= p) (fun p => fmt <= p < len w)); [|lia].
  intros p r Hp H. reads H. destruct (isalnum _); simplify_eq; lia.
Qed.

Lemma string_arg_spec w m buf end_ s spec T :
  string_arg_text w s spec = Some T -> fits end_ (m, buf) T -> 0 <= s -> width_ok spec ->
  string w m buf end_ s spec = Some (printed end_ (m, buf) T).
Proof. unfold string_arg_text, string. intros. destruct (s <? PAGE_SIZE); by apply string_at_spec. Qed.

(** Each turn brings the end of the format nearer. *)
Definition left_over (w : mem) (fmt : Z) (spec : printf_spec) : Z :=
  2 * (len w - fmt) + (if pending spec then 1 else 0).

(** One turn of the loop of vsnprintf prints what one step of the text adds. *)
Definition turn_ok (w : mem) (buf end_ : Z) (b : mem * Z) (T : list Z) (fmt : Z) (spec : printf_spec)
    (args : list arg) (c : ctl text_state (list Z)) : Prop :=
  match c with
  | Ret T' => T' = T /\ vsn_step buf end_ (w, printed end_ b T, fmt, spec, args) =
      Some (Ret (w, printed end_ b T))
  | Next (T', fmt', spec', args') =>
      (exists U, T' = T ++ U) /\ 0 <= fmt' <= len w /\ left_over w fmt' spec' < left_over w fmt spec /\
      (fits end_ b T' -> vsn_step buf end_ (w, printed end_ b T, fmt, spec, args) =
        Some (Next (w, printed end_ b T', fmt', spec', args')))
  end.

Lemma turn_print w buf end_ b T U fmt spec args fmt' spec' args'
    (emit : mem * Z -> option (mem * Z)) :
  0 <= fmt' <= len w -> left_over w fmt' spec' < left_over w fmt spec ->
  (forall b, fits end_ b U -> emit b = Some (printed end_ b U)) ->
  vsn_step buf end_ (w, printed end_ b T, fmt, spec, args) =
    (b' ← emit (printed end_ b T); Some (Next (w, b', fmt', spec', args'))) ->
  turn_ok w buf end_ b T fmt spec args (Next (T ++ U, fmt', spec', args')).
Proof.
  intros Hf Hm Hemit Hstep. split; [by exists U|]. split; [done|]. split; [done|]. intros Hfit.
  rewrite Hstep, Hemit by (by apply fits_app_r). cbn [mbind option_bind]. by rewrite printed_app.
Qed.

(** A conversion moves on in the format. *)
Lemma decode_progress w fmt spec read spec' c0 :
  format_decode w fmt spec = Some (read, spec') -> 0 <= fmt -> rd w fmt = Some c0 -> c0 <> 0 ->
  0 <= read /\ fmt + read <= len w /\
  forall q, pending q = pending spec' -> left_over w (fmt + read) q < left_over w fmt spec.
Proof.
  intros Ed Hf Ec E0. pose proof (format_decode_reads w fmt spec read spec' c0 Ed Hf Ec E0) as (Hr0 & Hrl & Hprog).
  split; [lia|]. split; [lia|]. intros q Hq. unfold left_over. rewrite Hq. destruct (decide (read = 0)) as [Hz|].
  - destruct (Hprog Hz) as [-> ->]. lia.
  - destruct (pending spec), (pending spec'); lia.
Qed.

(** A conversion of a number. *)
Lemma turn_number w buf end_ b T fmt read spec spec' args c t :
  0 <= fmt + read <= len w -> left_over w (fmt + read) spec' < left_over w fmt spec ->
  ('(num, args') ← va_num t args;
   if bool_decide (spec_ok spec') then Some (Next (T ++ number_text spec' num, fmt + read, spec', args'))
   else None) = Some c ->
  vsn_step buf end_ (w, printed end_ b T, fmt, spec, args) =
    (let '(m, str) := printed end_ b T in
     '(num, args') ← va_num t args;
     b' ← number m str end_ num spec';
     Some (Next (w, b', fmt + read, spec', args'))) ->
  turn_ok w buf end_ b T fmt spec args c.
Proof.
  intros Hr Hm Hc Hst. destruct (printed end_ b T) as [m1 str1] eqn:Eb.
  destruct (va_num t args) as [[num args']|] eqn:En; [|done].
  cbn [mbind option_bind] in Hc, Hst. case_bool_decide; [|done]. simplify_eq Hc. intros <-.
  apply (turn_print _ _ _ _ _ _ _ _ _ _ _ _ (fun '(m, str) => number m str end_ num spec')); [done|done| |by rewrite Eb].
  intros [m2 str2] Hfit. apply number_spec; [done|done|]. by eapply va_num_range.
Qed.

Lemma text_step_turn w buf end_ b T fmt spec args c :
  text_step w (T, fmt, spec, args) = Some c -> 0 <= fmt -> turn_ok w buf end_ b T fmt spec args c.
Proof.
  intros H Hf.
  assert (vsn_step buf end_ (w, printed end_ b T, fmt, spec, args) =
    vsn_step buf end_ (w, printed end_ b T, fmt, spec, args)) as Hs by done.
  unfold vsn_step at 2 in Hs. unfold text_step in H.
  destruct (printed end_ b T) as [m1 str1] eqn:Eb.
  destruct (rd w fmt) as [c0|] eqn:Ec; [|done]. cbn [mbind option_bind] in H, Hs.
  destruct (c0 =? 0) eqn:E0; zbool.
  { simplify_eq H. intros <-. split; [done|]. by rewrite Eb. }
  destruct (format_decode w fmt spec) as [[read spec']|] eqn:Ed; [|done]. cbn [mbind option_bind] in H, Hs.
  destruct (decode_progress w fmt spec read spec' c0 Ed Hf Ec E0) as (Hr0 & Hrl & Hm).
  assert (forall U emit q a, pending q = pending spec' ->
    vsn_step buf end_ (w, printed end_ b T, fmt, spec, args) =
      (b' ← emit (m1, str1); Some (Next (w, b', fmt + read, q, a))) ->
    (forall b, fits end_ b U -> emit b = Some (printed end_ b U)) ->
    turn_ok w buf end_ b T fmt spec args (Next (T ++ U, fmt + read, q, a))) as Hturn.
  { intros U emit q a Hq Hst Hem. apply (turn_print _ _ _ _ _ _ _ _ _ _ _ _ emit); [lia|by apply Hm|done|].
    by rewrite Hst, Eb. }
  destruct (type spec') eqn:Et;
    try (by eapply (turn_number w buf end_ b T fmt read spec spec' args c); [lia|by apply Hm|exact H|rewrite Eb; exact Hs]);
    try (destruct (va_word args) as [[x args']|] eqn:Ex; [|done]; apply va_word_range in Ex;
         cbn [mbind option_bind] in H, Hs).
  - simplify_eq H. intros <-.
    apply (Hturn _ (fun '(m, str) => copy_literal w m str end_ fmt read)); [done|by rewrite Eb|].
    intros [m2 str2] Hfit. by apply copy_literal_spec.
  - simplify_eq H. intros <-. rewrite <- (app_nil_r T) at 2. apply (Hturn _ Some); [done|by rewrite Eb|].
    intros b' [Hb _]. by rewrite printed_nil.
  - simplify_eq H. intros <-. rewrite <- (app_nil_r T) at 2. apply (Hturn _ Some); [done|by rewrite Eb|].
    intros b' [Hb _]. by rewrite printed_nil.
  - case_bool_decide; [|done]. simplify_eq H. intros <-.
    apply (Hturn _ (fun '(m, str) => print_char m str end_ x spec')); [done|by rewrite Eb|].
    intros [m2 str2] Hfit. by apply print_char_spec.
  - destruct (string_arg_text w x spec') as [t|] eqn:Est; [|done]. cbn [mbind option_bind] in H.
    case_bool_decide; [|done]. simplify_eq H. intros <-.
    apply (Hturn _ (fun '(m, str) => string w m str end_ x spec')); [done|by rewrite Eb|].
    intros [m2 str2] Hfit. apply string_arg_spec; [done|done|lia|done].
  - destruct (ptr_text w (fmt + read + 1) x spec') as [t|] eqn:Ept; [|done]. cbn [mbind option_bind] in H.
    destruct (skip_alnum w (fmt + read)) as [next|] eqn:En; [|done]. cbn [mbind option_bind] in H, Hs.
    simplify_eq H. intros <-. apply skip_alnum_reads in En; [|lia].
    apply (turn_print _ _ _ _ _ _ _ _ _ _ _ _
      (fun '(m, str) => pointer w (fmt + read + 1) m str end_ x spec')); [lia| | |by rewrite Eb].
    + specialize (Hm spec' eq_refl). unfold left_over in *. lia.
    + intros [m2 str2] Hfit. by apply pointer_spec_ok.
  - simplify_eq H. intros <-. apply (Hturn _ (put end_ 37)); [done|by rewrite Eb|]. intros. by apply put_spec.
  - simplify_eq H. intros <-. apply (Hturn _ (put end_ 37)); [done|by rewrite Eb|]. intros. by apply put_spec.
  - done.
Qed.

(** The loop of vsnprintf prints the text, with any fuel that gives the text. *)
Lemma vsn_loop k w buf end_ b T fmt spec args Tf :
  loop k (text_step w) (T, fmt, spec, args) = Some Tf -> 0 <= fmt ->
  (exists U, Tf = T ++ U) /\
  (fits end_ b Tf ->
   loop k (vsn_step buf end_) (w, printed end_ b T, fmt, spec, args) = Some (w, printed end_ b Tf)).
Proof.
  revert T fmt spec args. induction k as [|k IH]; intros T fmt spec args H Hf; [done|].
  rewrite (loop_unfold (text_step w)) in H. rewrite loop_unfold.
  destruct (text_step w (T, fmt, spec, args)) as [c|] eqn:Ec; [|done].
  pose proof (text_step_turn w buf end_ b T fmt spec args c Ec Hf) as Ht.
  destruct c as [[[[T' fmt'] spec'] args']|T']; cbn [turn_ok] in Ht.
  - destruct Ht as ([U ->] & Hf' & _ & Hstep). destruct (IH _ _ _ _ H) as [[V ->] Hloop]; [lia|].
    split; [exists (U ++ V); by rewrite app_assoc|]. intros Hfit.
    rewrite Hstep by (by apply fits_app_l in Hfit). by apply Hloop.
  - destruct Ht as [-> Hstep]. simplify_eq. split; [exists []; by rewrite app_nil_r|].
    intros _. by rewrite Hstep.
Qed.

(** Enough fuel: the turns are fewer than twice the characters of the memory. *)
Lemma text_loop_fuel k w T fmt spec args Tf :
  loop k (text_step w) (T, fmt, spec, args) = Some Tf -> 0 <= fmt ->
  loop (S (Z.to_nat (left_over w fmt spec))) (text_step w) (T, fmt, spec, args) = Some Tf.
Proof.
  revert T fmt spec args. induction k as [|k IH]; intros T fmt spec args H Hf; [done|].
  rewrite (loop_unfold (text_step w)) in H |- *.
  destruct (text_step w (T, fmt, spec, args)) as [c|] eqn:Ec; [|done].
  pose proof (text_step_turn w 0 0 ([], 0) T fmt spec args c Ec Hf) as Ht.
  destruct c as [[[[T' fmt'] spec'] args']|T']; cbn [turn_ok] in Ht; [|done].
  destruct Ht as (_ & Hf' & Hm & _). apply IH in H; [|lia].
  eapply loop_more; [|exact H]. unfold left_over in *. destruct (pending spec'); lia.
Qed.

(** * vsnprintf *)

(** The buffer vsnprintf uses, cut at the end of the address space. *)
Definition usable (buf size : Z) : Z := Z.min size (4294967295 - buf).

(** The buffer after a text of which [n - 1] characters and the terminator fit. *)
Definition delivered (m : mem) (buf n : Z) (T : list Z) : mem :=
  if n =? 0 then m else blit m buf (take (Z.to_nat (n - 1)) T ++ [0]).

(** The terminator, after the text or in place of the last character that fits. *)
Lemma terminated m buf end_ n T :
  0 <= buf -> 0 <= n -> end_ = buf + n -> room m buf (Z.min n (len T + 1)) ->
  (if 0 <? n then
     if (printed end_ (m, buf) T).2 <? end_ then wr (printed end_ (m, buf) T).1 (printed end_ (m, buf) T).2 0
     else wr (printed end_ (m, buf) T).1 (end_ - 1) 0
   else Some (printed end_ (m, buf) T).1) = Some (delivered m buf n T).
Proof.
  intros Hb Hn -> [_ Hr]. unfold printed, delivered. simpl.
  replace (buf + n - buf) with n by lia. destruct (n =? 0) eqn:E; zbool.
  { subst. simpl. by rewrite take_0, blit_nil. }
  rewrite (proj2 (Z.ltb_lt 0 n)) by lia. destruct (buf + len T <? buf + n) eqn:El; zbool.
  - rewrite !take_ge by lia. rewrite blit_snoc by (split; lia). done.
  - set (U := take (Z.to_nat (n - 1)) T). assert (len U = n - 1) as HU by (subst U; rewrite length_take; lia).
    replace (take (Z.to_nat n) T) with (U ++ [ch T (n - 1)]).
    2:{ subst U. rewrite <- take_ch by lia. do 2 f_equal. lia. }
    rewrite <- blit_app by (split; simpl; lia).
    assert (room m buf (len U)) as HrU by (split; lia).
    assert (room (blit m buf U) (buf + len U) 1) as HrU' by (split; [lia|rewrite blit_length by done; lia]).
    rewrite wr_Some by (rewrite !blit_length by done; lia). f_equal.
    apply rd_ext; [by rewrite length_insert, !blit_length by (done || split; rewrite ?length_app; simpl; lia)|].
    intros i _. rewrite rd_insert by (rewrite !blit_length by done; lia).
    rewrite <- blit_app by (split; simpl; lia). rewrite !(rd_blit (blit m buf U)) by done. simpl length.
    case_bool_decide as Hi; [|repeat case_bool_decide; try lia; done].
    subst i. rewrite bool_decide_eq_true_2 by lia. by replace (buf + n - 1 - _) with 0 by lia.
Qed.

Lemma vsnprintf_spec w m buf size fmt args T :
  vsn_text w fmt args = Some T -> 0 <= fmt -> 0 <= buf < 4294967296 -> 0 <= size < 2147483648 ->
  room m buf (Z.min (usable buf size) (len T + 1)) -> len T < 2147483648 ->
  vsnprintf w m buf size fmt args = Some (w, delivered m buf (usable buf size) T, len T).
Proof.
  intros HT Hf Hb Hs Hr Hlen. unfold vsnprintf.
  assert (s32 size = size) as -> by (unfold s32; lia). rewrite (proj2 (Z.ltb_ge _ _)) by lia.
  set (n := usable buf size) in *.
  assert ((if u32 (buf + size) <? buf then (4294967295, 4294967295 - buf) else (u32 (buf + size), size)) =
    (buf + n, n)) as ->.
  { unfold n, usable, u32 in *. destruct (_ <? _) eqn:E; zbool; f_equal; lia. }
  assert (0 <= n) as Hn by (unfold n, usable; lia).
  assert (fits (buf + n) (m, buf) T) as Hfit.
  { destruct Hr as [_ Hr]. split; [simpl; lia|]. simpl. intros. lia. }
  destruct (vsn_loop _ w buf (buf + n) (m, buf) [] fmt spec0 args T HT Hf) as [_ Hloop].
  rewrite printed_nil in Hloop by (simpl; lia). rewrite Hloop by done. cbn [mbind option_bind].
  pose proof (terminated m buf (buf + n) n T ltac:(lia) Hn eq_refl Hr) as Ht.
  destruct (printed (buf + n) (m, buf) T) as [m' str] eqn:Ep. cbn [fst snd] in Ht. cbv beta iota.
  rewrite Ht. cbn [mbind option_bind]. do 2 f_equal.
  assert (str = buf + len T) as -> by (injection Ep; lia). unfold s32. lia.
Qed.

(** * Printing and reading back *)

(** Without a width or a precision there is no padding. *)
Lemma number_text_plain spec num :
  spec.(field_width) <= 0 -> spec.(precision) <= 0 ->
  number_text spec num =
  sign_text spec num ++ pfx_text spec ++ digit_text spec.(base) (locase_of spec) (magnitude spec num).
Proof.
  intros Hw Hp. unfold number_text. set (ds := digit_text _ _ _).
  replace (Z.max (precision spec) (len ds)) with (len ds) by lia.
  rewrite !(reps_neg (field_width spec - _ - _ - _)) by lia. rewrite Z.sub_diag.
  rewrite (reps_neg 0) by lia. destruct (is_left spec), (is_zero spec); simpl; rewrite ?app_nil_r; done.
Qed.

(** A text of non-NUL characters and its terminator, printed into a buffer with room for both. *)
Lemma printed_cstr end_ m buf T :
  Forall (fun c => 0 < c < 256) T -> 0 <= buf -> buf + len T < end_ -> end_ <= len m ->
  exists m'', wr (printed end_ (m, buf) T).1 (buf + len T) 0 = Some m'' /\ cstr m'' buf T.
Proof.
  intros HT Hb He Hm. unfold printed. simpl. rewrite take_ge by lia.
  rewrite blit_snoc by (split; lia). eexists. split; [done|]. apply cstr_copied; [done|split; lia].
Qed.

Lemma digit_text_chars b locase num :
  locase = 0 \/ locase = 32 -> 2 <= b <= 16 -> Forall (fun c => 0 < c < 256) (digit_text b locase num).
Proof.
  intros Hl Hb. unfold digit_text. apply Forall_reverse, Forall_fmap. eapply Forall_impl; [|apply (digits_rev_range b num); lia].
  intros d Hd. simpl in Hd |- *. by apply (digit_chars locase Hl d ltac:(lia)).
Qed.

Lemma pfx_text_eq spec :
  spec_ok spec ->
  pfx_text spec = prefix_text (if has spec SPECIAL && negb (spec.(base) =? 10) then 0 else spec.(base))
    spec.(base) (locase_of spec) /\
  parse_case (if has spec SPECIAL && negb (spec.(base) =? 10) then 0 else spec.(base)) spec.(base) 0 /\
  Forall (fun c => 0 < c < 256) (pfx_text spec).
Proof.
  intros ([Hb|[Hb|Hb]] & _); unfold pfx_text, prefix_text, parse_case; rewrite Hb; simpl;
    destruct (has spec SPECIAL); simpl; (split; [done|]; split; [lia|]);
    destruct (locase_cases spec) as [El|El]; rewrite ?El; repeat constructor; simpl; lia.
Qed.

Lemma parse_case_any b0 b num : parse_case b0 b 0 -> parse_case b0 b num.
Proof. unfold parse_case. lia. Qed.


Lemma vsn_text_any k w fmt args T :
  loop k (text_step w) ([], fmt, spec0, args) = Some T -> 0 <= fmt -> vsn_text w fmt args = Some T.
Proof.
  intros H Hf. apply text_loop_fuel in H; [|done]. unfold vsn_text. eapply loop_more; [|exact H].
  unfold left_over, fuel. change (pending spec0) with false. cbv iota. lia.
Qed.

Lemma delivered_out m buf n T i :
  room m buf (Z.min n (len T + 1)) -> 0 <= n -> i < buf \/ buf + n <= i ->
  rd (delivered m buf n T) i = rd m i.
Proof.
  intros [Hb Hr] Hn Hi. unfold delivered. destruct (n =? 0) eqn:E; [done|]. zbool.
  assert (len (take (Z.to_nat (n - 1)) T ++ [0]) = Z.min n (len T + 1)) as Hl.
  { rewrite length_app, length_take. simpl. lia. }
  apply rd_blit_out; [split; lia|lia].
Qed.

Lemma delivered_cstr m buf n T :
  Forall (fun c => 0 < c < 256) T -> 0 < n -> room m buf (Z.min n (len T + 1)) ->
  cstr (delivered m buf n T) buf (take (Z.to_nat (n - 1)) T).
Proof.
  intros HT Hn [Hb Hr]. unfold delivered. rewrite (proj2 (Z.eqb_neq n 0)) by lia.
  apply cstr_copied; [by apply Forall_take|]. split; [done|]. rewrite length_take. lia.
Qed.



(** C22: vsnprintf terminates and, for a format whose text is [T] (whatever number [k] of steps that
    takes), writes the first size - 1 characters of [T] and a NUL and nothing else, returns the
    length of [T], and is the same text for every buffer; vscnprintf and scnprintf return the number
    of characters written, but -1 for a size of 0; sprintf writes all of [T]. An integer printed
    without padding by number() and terminated is read back exactly: by strict_strtoull (and, modulo
    2^32, strict_strtoul) with the base of the conversion, or with a guessed base when %#x or %#o
    wrote the prefix; and for %d by strict_strtoll, sign included. *)
Theorem formatted_output :
  (forall k w m buf size fmt args T,
    loop k (text_step w) ([], fmt, spec0, args) = Some T -> 0 <= fmt -> 0 <= buf < 4294967296 ->
      0 <= size < 2147483648 -> room m buf (Z.min (usable buf size) (len T + 1)) -> len T < 2147483647 ->
      buf + len T < 4294967295 ->
      let n := usable buf size in
      let m' := delivered m buf n T in
      vsnprintf w m buf size fmt args = Some (w, m', len T) /\
      (Forall (fun c => 0 < c < 256) T -> 0 < n -> cstr m' buf (take (Z.to_nat (n - 1)) T)) /\
      (forall i, i < buf \/ buf + n <= i -> rd m' i = rd m i) /\
      vscnprintf w m buf size fmt args =
        Some (w, m', if size =? 0 then -1 else Z.min (len T) (size - 1)) /\
      scnprintf w m buf size fmt args = vscnprintf w m buf size fmt args /\
      (room m buf (len T + 1) -> sprintf w m buf fmt args = Some (w, blit m buf (T ++ [0]), len T))) /\
  (forall m buf end_ num spec,
    spec_ok spec -> spec.(field_width) <= 0 -> spec.(precision) <= 0 ->
      0 <= num < 18446744073709551616 -> 0 <= buf ->
      buf + len (number_text spec num) < end_ -> end_ <= len m ->
      exists m' e m'', number m buf end_ num spec = Some (m', e) /\ wr m' e 0 = Some m'' /\
        (has spec SIGN = false ->
         let b0 := if has spec SPECIAL && negb (spec.(base) =? 10) then 0 else spec.(base) in
         strict_strtoull m'' buf b0 = Some (0, num) /\ strict_strtoul m'' buf b0 = Some (0, u32 num)) /\
        (has spec SIGN = true -> has spec PLUS = false -> has spec SPACE = false -> spec.(base) = 10 ->
         strict_strtoll m'' buf 10 = Some (0, s64 num))).
Proof.
  split.
  { intros k w m buf size fmt args T.
    intros HT Hf Hb Hs Hr Hl Ha. cbv zeta. pose proof (vsn_text_any k w fmt args T HT Hf) as Htext.
    pose proof (vsnprintf_spec w m buf size fmt args T Htext Hf Hb Hs Hr ltac:(lia)) as Hv.
    split; [done|]. split; [intros; by apply delivered_cstr|].
    split; [intros; apply delivered_out; [done|unfold usable; lia|done]|].
    split; [|split; [done|]].
    - unfold vscnprintf. rewrite Hv. cbn [mbind option_bind]. do 2 f_equal.
      rewrite u32_small by (unfold is_u32; lia).
      destruct (size <=? len T) eqn:E, (size =? 0) eqn:E0; zbool; unfold s32; lia.
    - intros Hr'. unfold sprintf, INT_MAX.
      rewrite (vsnprintf_spec w m buf 2147483647 fmt args T Htext Hf Hb); [|lia| |lia].
      + do 3 f_equal. unfold delivered, usable. rewrite (proj2 (Z.eqb_neq _ 0)) by lia.
        rewrite take_ge by lia. done.
      + destruct Hr'. split; [lia|]. unfold usable. lia. }
  { intros m buf end_ num spec.
    intros Hok Hw Hp Hn Hb He Hm. pose proof Hok as (Hbase & _).
    destruct (pfx_text_eq spec Hok) as (Hpfx & Hcase & Hpc). pose proof (locase_cases spec) as Hl.
    assert (fits end_ (m, buf) (number_text spec num)) as Hf by (split; simpl; lia).
    assert (Forall (fun c => 0 < c < 256) (number_text spec num)) as Hchars.
    { rewrite number_text_plain by done. apply Forall_app. split; [|apply Forall_app; split; [done|]].
      - unfold sign_text, sign_of. repeat case_match; repeat constructor; simpl; lia.
      - apply digit_text_chars; [done|lia]. }
    rewrite (number_spec m buf end_ num spec Hf Hok Hn). rewrite number_text_plain in * by done.
    destruct (printed_cstr end_ m buf _ Hchars Hb He Hm) as (m'' & Hwr & Hs).
    eexists _, _, m''. split; [reflexivity|]. split; [exact Hwr|].
    pose proof (magnitude_range spec num Hn) as Hmag. split.
    - intros Hsg. cbv zeta. unfold sign_text, sign_of, magnitude in *. rewrite Hsg in *. simpl in *.
      rewrite Hpfx in Hs. apply (strict_readback m'' buf _ (base spec) (locase_of spec) num []);
        [done|by apply parse_case_any|done|by left|by rewrite app_nil_r].
    - intros Hsg Hplus Hsp Hb10. unfold strict_strtoll. unfold pfx_text in Hs. rewrite Hb10, andb_false_r in Hs.
      simpl in Hs. unfold sign_text, sign_of, magnitude in *. rewrite Hsg, Hplus, Hsp in *. simpl in *.
      assert (forall p mag, 0 <= mag < 18446744073709551616 ->
        cstr m'' p (digit_text 10 (locase_of spec) mag) -> strict_strtoull m'' p 10 = Some (0, mag)) as Hread.
      { intros p mag Hmr Hc. apply (strict_readback m'' p 10 10 (locase_of spec) mag []);
          [done|left; lia|done|by left|by rewrite app_nil_r]. }
      destruct (s64 num <? 0) eqn:E; zbool; simpl in Hs.
      + rewrite (cstr_rd0 m'' buf _ Hs). cbn [mbind option_bind]. rewrite ch_head. simpl (45 =? 45). cbv iota.
        assert (cstr m'' (buf + 1) (digit_text 10 (locase_of spec) (- s64 num))) as Hc
          by (apply (cstr_drop m'' buf _ 1 Hs); simpl; lia).
        rewrite (Hread _ _ Hmag Hc). simpl. do 2 f_equal. unfold s64 in *. lia.
      + rewrite (cstr_rd0 m'' buf _ Hs). cbn [mbind option_bind].
        rewrite (proj2 (Z.eqb_neq _ 45)).
        * rewrite (Hread _ _ Hmag Hs). done.
        * destruct (digit_text_value 10 (locase_of spec) num Hl ltac:(lia) Hn) as (_ & Hd & Hpos).
          destruct (digit_text 10 (locase_of spec) num) as [|c l]; [simpl in Hpos; lia|].
          inversion Hd as [|? ? Hc]. rewrite ch_head. by intros ->. }
Qed.

Lemma formatted_output_witness :
  (vsnprintf [37; 45; 53; 100; 124; 37; 35; 120; 0] [7; 7; 7; 7; 7; 7] 0 4 0 [W32 (-12); W32 255] =
      Some ([37; 45; 53; 100; 124; 37; 35; 120; 0], [45; 49; 50; 0; 7; 7], 10)) /\
  (exists m' e m'', number [7; 7; 7; 7; 7] 0 5 255 (PrintfSpec FORMAT_TYPE_UINT 96 16 255 (-1) (-1)) =
        Some (m', e) /\ wr m' e 0 = Some m'' /\ strict_strtoull m'' 0 0 = Some (0, 255)).
Proof.
  split.
  {apply (proj1 formatted_output 4%nat [37; 45; 53; 100; 124; 37; 35; 120; 0] [7; 7; 7; 7; 7; 7] 0 4 0
      [W32 (-12); W32 255] [45; 49; 50; 32; 32; 124; 48; 120; 102; 102]);
      [vm_compute; reflexivity|lia|lia|lia| |simpl; lia|simpl; lia].
    split; [lia|]. unfold usable. simpl. lia. }
  {destruct (proj2 formatted_output [7; 7; 7; 7; 7] 0 5 255 (PrintfSpec FORMAT_TYPE_UINT 96 16 255 (-1) (-1)))
      as (m' & e & m'' & H1 & H2 & H3 & _);
      [repeat split; simpl; lia|simpl; lia|simpl; lia|lia|lia|vm_compute; reflexivity|simpl; lia|].
    exists m', e, m''. split; [exact H1|]. split; [exact H2|]. apply H3. reflexivity. }
Defined.
