(* ===== verification/BitmapText.v ===== *)
(** The text formats of bitmaps: the printing and parsing functions of lib/bitmap.c, which put
    the bitmaps of [Bitmap], the formatted output and the number parser of [Vsprintf] and the
    character classes of [Str] together.

    The string literals of the functions are in a memory of their own, above the first page, whose
    addresses "%s" takes for null pointers. *)

From S2P Require Import Prelude Word FindBit Bitmap Str Vsprintf.
From Stdlib Require Import Lia.

Definition CHUNKSZ : Z := 32.
Definition BASEDEC : Z := 10.

Definition nbits_to_hold_value (val : Z) : Z := fls val.

Definition unhex (c : Z) : Z := if isdigit c then c - 48 else toupper c - 65 + 10.

(** include/linux/kernel.h, on an int. *)
Definition ALIGN (x a : Z) : Z := Z.land (s32 (x + (a - 1))) (Z.lnot (a - 1)).

(** "%s%0*lx", "", ",", "%d" and "%d-%d" *)
Definition rodata : mem :=
  replicate (Z.to_nat PAGE_SIZE) 0 ++
  [37; 115; 37; 48; 42; 108; 120; 0] ++ [0] ++ [44; 0] ++ [37; 100; 0] ++ [37; 100; 45; 37; 100; 0].

Definition fmt_chunk : Z := PAGE_SIZE.
Definition str_empty : Z := PAGE_SIZE + 8.
Definition str_comma : Z := PAGE_SIZE + 9.
Definition fmt_d : Z := PAGE_SIZE + 11.
Definition fmt_range : Z := PAGE_SIZE + 14.

(** [len += scnprintf(buf + len, buflen - len, fmt, ...)] on the buffer and [len]. *)
Definition append (buf buflen fmt : Z) (args : list arg) (b : mem * Z) : option (mem * Z) :=
  let '(m, len) := b in
  '(_, m, n) ← scnprintf rodata m (u32 (buf + len)) (u32 (buflen - len)) fmt args;
  Some (m, s32 (len + n)).

(** * Hexadecimal *)

(** The loop over the chunks, from the last: the buffer, the bit [i], chunksz and sep. *)
Definition chunk_turn (buf buflen : Z) (maskp : list Z) (s : (mem * Z) * Z * Z * Z)
  : option (ctl ((mem * Z) * Z * Z * Z) (mem * Z)) :=
  let '(b, i, chunksz, sep) := s in
  if 0 <=? i then
    let chunkmask := u32 (Z.shiftl 1 chunksz - 1) in
    let word := i `quot` BITS_PER_LONG in
    let bit := i `rem` BITS_PER_LONG in
    x ← rd maskp word;
    let val := Z.land (Z.shiftr x bit) chunkmask in
    b ← append buf buflen fmt_chunk [W32 sep; W32 ((chunksz + 3) `quot` 4); W32 val] b;
    Some (Next (b, i - CHUNKSZ, CHUNKSZ, str_comma))
  else Some (Ret b).

Definition bitmap_scnprintf (m : mem) (buf buflen : Z) (maskp : list Z) (nmaskbits : Z)
  : option (mem * Z) :=
  let chunksz := Z.land nmaskbits (CHUNKSZ - 1) in
  let chunksz := if chunksz =? 0 then CHUNKSZ else chunksz in
  loop (S (S (length maskp))) (chunk_turn buf buflen maskp)
    ((m, 0), ALIGN nmaskbits CHUNKSZ - CHUNKSZ, chunksz, str_empty).

(** What the two loops of __bitmap_parse share: the position and the characters left of the
    input, the current and the previous character, and the count of digits.  (No count reaches
    2^32, so none is 0 after a digit.) *)
Record cursor : Type := Cursor {
  at_ : Z;
  buflen : Z;
  cur : Z;
  totaldigits : Z
}.

(** The inner loop: one character of a chunk with the chunk and its number of digits so far, or
    an error.  [fault p] says whether __get_user fails at the address [p]. *)
Definition char_turn (m : mem) (is_user : bool) (fault : Z -> bool) (st : cursor * Z * Z)
  : option (ctl (cursor * Z * Z) ((cursor * Z * Z) + Z)) :=
  let '(s, chunk, ndigits) := st in
  if s.(buflen) =? 0 then Some (Ret (inl (s, chunk, ndigits)))
  else
    let old_c := s.(cur) in
    if is_user && fault s.(at_) then Some (Ret (inr (- EFAULT)))
    else
      c ← rd m s.(at_);
      let s := Cursor (s.(at_) + 1) (s.(buflen) - 1) c s.(totaldigits) in
      if isspace c then Some (Next (s, chunk, ndigits))
      else if negb (s.(totaldigits) =? 0) && negb (c =? 0) && isspace old_c then
        Some (Ret (inr (- EINVAL)))
      else if (c =? 0) || (c =? 44) then Some (Ret (inl (s, chunk, ndigits)))
      else if negb (isxdigit c) then Some (Ret (inr (- EINVAL)))
      else if negb (Z.land chunk (ul_not (Z.shiftl 1 (CHUNKSZ - 4) - 1)) =? 0) then
        Some (Ret (inr (- EOVERFLOW)))
      else
        Some (Next (Cursor s.(at_) s.(buflen) c (s.(totaldigits) + 1),
                    Z.lor (ul_shl chunk 4) (unhex c), ndigits + 1)).

Definition next_chunk (m : mem) (is_user : bool) (fault : Z -> bool) (s : cursor)
  : option ((cursor * Z * Z) + Z) :=
  loop (S (Z.to_nat s.(buflen))) (char_turn m is_user fault) (s, 0, 0).

(** The rest of the body of the outer loop, once a chunk is read: it goes into the map, and the
    loop goes on after a comma.  The state is the map, the input, nchunks and nbits. *)
Definition add_chunk (nmaskbits : Z) (maskp : list Z) (s : cursor) (nchunks nbits chunk : Z)
  : option (ctl (list Z * cursor * Z * Z) (list Z * Z)) :=
  let again := negb (s.(buflen) =? 0) && (s.(cur) =? 44) in
  if (nchunks =? 0) && (chunk =? 0) then
    Some (if again then Next (maskp, s, nchunks, nbits) else Ret (maskp, 0))
  else
    maskp ← __bitmap_shift_left maskp SameAsDst CHUNKSZ nmaskbits;
    w ← rd maskp 0;
    maskp ← wr maskp 0 (Z.lor w chunk);
    let nchunks := nchunks + 1 in
    let nbits := s32 (nbits + (if nchunks =? 1 then nbits_to_hold_value chunk else CHUNKSZ)) in
    if nmaskbits <? nbits then Some (Ret (maskp, - EOVERFLOW))
    else Some (if again then Next (maskp, s, nchunks, nbits) else Ret (maskp, 0)).

Definition parse_turn (m : mem) (is_user : bool) (fault : Z -> bool) (nmaskbits : Z)
    (st : list Z * cursor * Z * Z) : option (ctl (list Z * cursor * Z * Z) (list Z * Z)) :=
  let '(maskp, s, nchunks, nbits) := st in
  r ← next_chunk m is_user fault s;
  match r with
  | inr err => Some (Ret (maskp, err))
  | inl (s, chunk, ndigits) =>
      if ndigits =? 0 then Some (Ret (maskp, - EINVAL))
      else add_chunk nmaskbits maskp s nchunks nbits chunk
  end.

Definition __bitmap_parse (m : mem) (buf len : Z) (is_user : bool) (fault : Z -> bool)
    (maskp : list Z) (nmaskbits : Z) : option (list Z * Z) :=
  maskp ← bitmap_zero maskp nmaskbits;
  loop (S (Z.to_nat len)) (parse_turn m is_user fault nmaskbits) (maskp, Cursor buf len 0 0, 0, 0).

Definition bitmap_parse (m : mem) (buf len : Z) (maskp : list Z) (nmaskbits : Z)
  : option (list Z * Z) :=
  __bitmap_parse m buf len false (fun _ => false) maskp nmaskbits.

(** arch/arm/include/asm/uaccess.h: the flag is 0 when the range ends below the limit of the
    thread; a limit of 0 is the kernel's, without a limit. *)
Definition __range_ok (addr_limit addr size : Z) : Z :=
  if (addr + size <? 4294967296) && (addr + size <=? addr_limit) then 0 else addr_limit.

Definition access_ok (addr_limit addr size : Z) : bool := __range_ok addr_limit addr size =? 0.

Definition bitmap_parse_user (addr_limit : Z) (m : mem) (ubuf ulen : Z) (fault : Z -> bool)
    (maskp : list Z) (nmaskbits : Z) : option (list Z * Z) :=
  if negb (access_ok addr_limit ubuf ulen) then Some (maskp, - EFAULT)
  else __bitmap_parse m ubuf ulen true fault maskp nmaskbits.

(** * Lists of ranges *)

Definition bscnl_emit (buf buflen rbot rtop : Z) (b : mem * Z) : option (mem * Z) :=
  b ← (if 0 <? b.2 then append buf buflen str_comma [] b else Some b);
  if rbot =? rtop then append buf buflen fmt_d [W32 rbot] b
  else append buf buflen fmt_range [W32 rbot; W32 rtop] b.

(** The loop over the set bits: the buffer, cur and rbot. *)
Definition run_turn (buf buflen : Z) (maskp : list Z) (nmaskbits : Z) (s : (mem * Z) * Z * Z)
  : option (ctl ((mem * Z) * Z * Z) (mem * Z)) :=
  let '(b, cur, rbot) := s in
  if cur <? nmaskbits then
    let rtop := cur in
    cur ← find_next_bit maskp nmaskbits (cur + 1);
    if (nmaskbits <=? cur) || (rtop + 1 <? cur) then
      b ← bscnl_emit buf buflen rbot rtop b;
      Some (Next (b, cur, cur))
    else Some (Next (b, cur, rbot))
  else Some (Ret b).

Definition bitmap_scnlistprintf (m : mem) (buf buflen : Z) (maskp : list Z) (nmaskbits : Z)
  : option (mem * Z) :=
  if buflen =? 0 then Some (m, 0)
  else
    m ← wr m buf 0;
    cur ← find_first_bit maskp nmaskbits;
    loop (S (Z.to_nat nmaskbits)) (run_turn buf buflen maskp nmaskbits) ((m, 0), cur, cur).

(** [while (a <= b) { set_bit(a, maskp); a++; }] *)
Definition set_range (maskp : list Z) (a b : Z) : option (list Z) :=
  loop (S (S (Z.to_nat (b - a)))) (fun '(maskp, a) =>
    if a <=? b then maskp ← set_bit a maskp; Some (Next (maskp, u32 (a + 1)))
    else Some (Ret maskp)) (maskp, a).

(** The numbers [a] and [b] of one item and the position after it; [None] is -EINVAL. *)
Definition parse_range (m : mem) (bp : Z) : option (option (Z * Z * Z)) :=
  c ← rd m bp;
  if negb (isdigit c) then Some None
  else
    '(a, bp) ← simple_strtoul m bp BASEDEC;
    c ← rd m bp;
    if c =? 45 then
      let bp := bp + 1 in
      c ← rd m bp;
      if negb (isdigit c) then Some None
      else
        '(b, bp) ← simple_strtoul m bp BASEDEC;
        Some (Some (a, b, bp))
    else Some (Some (a, a, bp)).

Definition list_turn (m : mem) (nmaskbits : Z) (s : list Z * Z)
  : option (ctl (list Z * Z) (list Z * Z)) :=
  let '(maskp, bp) := s in
  r ← parse_range m bp;
  match r with
  | None => Some (Ret (maskp, - EINVAL))
  | Some (a, b, bp) =>
      if negb (a <=? b) then Some (Ret (maskp, - EINVAL))
      else if u32 nmaskbits <=? b then Some (Ret (maskp, - ERANGE))
      else
        maskp ← set_range maskp a b;
        c ← rd m bp;
        let bp := if c =? 44 then bp + 1 else bp in
        c ← rd m bp;
        Some (if negb (c =? 0) && negb (c =? 10) then Next (maskp, bp) else Ret (maskp, 0))
  end.

Definition bitmap_parselist (m : mem) (bp : Z) (maskp : list Z) (nmaskbits : Z)
  : option (list Z * Z) :=
  maskp ← bitmap_zero maskp nmaskbits;
  loop (fuel m) (list_turn m nmaskbits) (maskp, bp).
