(* ===== verification/BitmapPrint.v ===== *)
(** What bitmap_scnprintf and bitmap_scnlistprintf print: the words of the map in hexadecimal, and
    its maximal runs of set bits in decimal, cut to the size of the buffer. *)

From S2P Require Import Prelude Word FindBit Bitmap Str StrSpec StrCopy Vsprintf VsprintfNum.
From S2P Require Import VsprintfParse VsprintfFmt VsprintfOut BitmapText.
From Stdlib Require Import Lia.

Implicit Types (m : mem) (T U : list Z).

#[global] Arguments append : simpl never.

(** * Appending to a buffer *)

(** The buffer and the length returned after the text [T] in [n] bytes at [buf]. *)
Definition out (m : mem) (buf n : Z) (T : list Z) : mem * Z :=
  (delivered m buf n T, Z.min (len T) (n - 1)).

(** A buffer of [n] bytes. *)
Definition buffer_ok (m : mem) (buf n : Z) : Prop :=
  0 < n < 2147483648 /\ room m buf n /\ buf + n < 4294967296.

Lemma delivered_length m buf n T : room m buf n -> 0 <= n -> length (delivered m buf n T) = length m.
Proof.
  intros [Hb Hr] Hn. unfold delivered. destruct (n =? 0) eqn:E; [done|]. zbool.
  apply blit_length. split; [done|]. rewrite length_app, length_take. simpl. lia.
Qed.

(** A second block in place of the last byte of the first. *)
Lemma blit_over m (d : Z) l x l' :
  room m d (len l + len l') -> 0 < len l' -> blit (blit m d (l ++ [x])) (d + len l) l' = blit m d (l ++ l').
Proof.
  intros [Hd Hr] Hpos. assert (room m d (len (l ++ [x]))) as H1 by (split; rewrite ?length_app; simpl; lia).
  assert (room m d (len (l ++ l'))) as H2 by (split; rewrite ?length_app; lia).
  pose proof (blit_length m d _ H1) as Hlen.
  assert (room (blit m d (l ++ [x])) (d + len l) (len l')) as H3 by (split; lia).
  apply rd_ext; [by rewrite !blit_length|]. intros i _. rewrite !rd_blit by done.
  rewrite !length_app. simpl length. destruct (decide (0 <= i - d)) as [Hi|Hi].
  - unfold rd. rewrite (bool_decide_eq_true_2 (0 <= i - d)) by done.
    repeat case_bool_decide; try lia; try done.
    + rewrite lookup_app_r by lia. f_equal. lia.
    + by rewrite !lookup_app_l by lia.
  - repeat case_bool_decide; try lia; done.
Qed.

Lemma delivered_app m buf n T U :
  0 < n -> room m buf n ->
  delivered (delivered m buf n T) (buf + Z.min (len T) (n - 1)) (n - Z.min (len T) (n - 1)) U =
  delivered m buf n (T ++ U).
Proof.
  intros Hn [Hb Hr]. unfold delivered. rewrite !(proj2 (Z.eqb_neq _ 0)) by lia.
  assert (len (take (Z.to_nat (n - 1)) T) = Z.min (len T) (n - 1)) as Hl by (rewrite length_take; lia).
  rewrite <- Hl. rewrite blit_over.
  - f_equal. rewrite app_assoc. f_equal. rewrite take_app. do 2 f_equal. rewrite length_take. lia.
  - split; [done|]. rewrite length_app, !length_take. simpl. lia.
  - rewrite length_app. simpl. lia.
Qed.

(** Before the first text the buffer is as it was. *)
Definition started (m : mem) (buf n : Z) (T : list Z) (b : mem * Z) : Prop :=
  b = out m buf n T \/ (T = [] /\ b = (m, 0)).

Lemma append_spec m buf n fmt args T b U :
  buffer_ok m buf n -> started m buf n T b -> vsn_text rodata fmt args = Some U -> 0 <= fmt ->
  len U < 2147483648 -> append buf n fmt args b = Some (out m buf n (T ++ U)).
Proof.
  intros (Hn & Hroom & Ha) Hst HU Hf Hl. pose proof Hroom as [Hb Hr].
  set (L := Z.min (len T) (n - 1)). assert (0 <= L <= n - 1) as HL by lia.
  assert (exists m', b = (m', L) /\ length m' = length m /\
    delivered m' (buf + L) (n - L) U = delivered m buf n (T ++ U)) as (m' & -> & Hlen & Hd).
  { destruct Hst as [->|[-> ->]].
    - eexists. split; [done|]. split; [apply delivered_length; done || lia|]. apply delivered_app; done || lia.
    - exists m. subst L. simpl. split; [f_equal; lia|]. split; [done|]. f_equal; lia. }
  unfold append. rewrite !u32_small by (unfold is_u32; lia). unfold scnprintf.
  assert (usable (buf + L) (n - L) = n - L) as Hu by (unfold usable; lia).
  rewrite (vsnprintf_spec rodata _ (buf + L) (n - L) fmt args U); [|done|done|lia|lia|rewrite Hu; split; lia|done].
  cbn [mbind option_bind]. rewrite Hu, Hd. unfold out. do 2 f_equal.
  rewrite u32_small by (unfold is_u32; lia). rewrite length_app.
  destruct (n - L <=? len U) eqn:E; zbool; unfold s32; lia.
Qed.

Lemma out_nil m buf n m' :
  0 < n -> wr m buf 0 = Some m' -> out m buf n [] = (m', 0).
Proof.
  intros Hn Hw. unfold out, delivered. rewrite (proj2 (Z.eqb_neq _ 0)) by lia. rewrite take_nil. simpl.
  apply wr_inv in Hw as [Hr ->]. f_equal; [|lia].
  pose proof (wr_blit m buf 0) as H. rewrite wr_Some in H by done. injection H; [done|split; lia].
Qed.

(** * The texts of the formats *)

(** [v] in hexadecimal with at least [w] digits, and in decimal. *)
Definition hex_pad (w v : Z) : list Z :=
  reps (w - len (digit_text 16 32 v)) 48 ++ digit_text 16 32 v.

Definition dec (v : Z) : list Z := digit_text 10 0 v.

Lemma digit_text_len b locase v : len (digit_text b locase v) <= 64.
Proof.
  unfold digit_text. rewrite length_reverse, length_fmap. pose proof (digits_rev_length b v). lia.
Qed.

(** A turn of [vsn_text] over the literals. *)
Lemma text_turn k T fmt c spec args read spec' :
  rd rodata fmt = Some c -> (c =? 0) = false -> format_decode rodata fmt spec = Some (read, spec') ->
  loop (S k) (text_step rodata) (T, fmt, spec, args) =
  match (match spec'.(type) with
    | FORMAT_TYPE_NONE => Some (Next (T ++ slice_of rodata fmt read, fmt + read, spec', args))
    | FORMAT_TYPE_WIDTH =>
        '(x, args) ← va_word args; Some (Next (T, fmt + read, set_width (s32 x) spec', args))
    | FORMAT_TYPE_STR =>
        '(x, args) ← va_word args;
        t ← string_arg_text rodata x spec';
        if bool_decide (width_ok spec') then Some (Next (T ++ t, fmt + read, spec', args)) else None
    | FORMAT_TYPE_ULONG | FORMAT_TYPE_INT =>
        '(num, args) ← va_num spec'.(type) args;
        if bool_decide (spec_ok spec') then
          Some (Next (T ++ number_text spec' num, fmt + read, spec', args))
        else None
    | _ => text_step rodata (T, fmt, spec, args)
    end) with
  | Some (Next s') => loop k (text_step rodata) s'
  | Some (Ret r) => Some r
  | None => None
  end.
Proof.
  intros Hc Hz Hd. rewrite loop_unfold. unfold text_step. rewrite Hc. cbn [mbind option_bind].
  rewrite Hz, Hd. cbn [mbind option_bind]. by destruct (type spec').
Qed.

Lemma text_done k T fmt spec args :
  rd rodata fmt = Some 0 -> loop (S k) (text_step rodata) (T, fmt, spec, args) = Some T.
Proof. intros Hc. rewrite loop_unfold. unfold text_step. by rewrite Hc. Qed.

Ltac turn := erewrite text_turn; [|vm_compute; reflexivity..]; cbn [type].

Lemma comma_text : vsn_text rodata str_comma [] = Some [44].
Proof. vm_compute. done. Qed.

Definition spec_d (fw : Z) : printf_spec := PrintfSpec FORMAT_TYPE_INT SIGN 10 255 fw (-1).

Lemma number_text_d v :
  0 <= v < 2147483648 -> number_text (spec_d (-1)) (u64 (s32 (u32 v))) = dec v.
Proof.
  intros Hv. assert (u64 (s32 (u32 v)) = v) as -> by (unfold u64, s32, u32; lia).
  rewrite number_text_plain by (simpl; lia). unfold sign_text, sign_of, magnitude, pfx_text, locase_of.
  change (has (spec_d (-1)) SIGN) with true. change (has (spec_d (-1)) PLUS) with false.
  change (has (spec_d (-1)) SPACE) with false. change (has (spec_d (-1)) SPECIAL) with false.
  assert (s64 v = v) as -> by (unfold s64; lia). rewrite (proj2 (Z.ltb_ge v 0)) by lia. done.
Qed.


Lemma dec_text v :
  0 <= v < 2147483648 -> vsn_text rodata fmt_d [W32 v] = Some (dec v).
Proof.
  intros Hv. apply (vsn_text_any 2); [|vm_compute; congruence]. turn. cbn [va_num va_word mbind option_bind].
  rewrite bool_decide_eq_true_2 by (repeat split; simpl; lia).
  rewrite text_done by (vm_compute; done). simpl app. by rewrite <- (number_text_d v).
Qed.

Lemma range_format_text x y :
  0 <= x < 2147483648 -> 0 <= y < 2147483648 ->
  vsn_text rodata fmt_range [W32 x; W32 y] = Some (dec x ++ [45] ++ dec y).
Proof.
  intros Hx Hy. apply (vsn_text_any 4); [|vm_compute; congruence]. turn. cbn [va_num va_word mbind option_bind].
  rewrite bool_decide_eq_true_2 by (repeat split; simpl; lia). turn. turn. cbn [va_num va_word mbind option_bind].
  rewrite bool_decide_eq_true_2 by (repeat split; simpl; lia).
  rewrite text_done by (vm_compute; done). rewrite <- (number_text_d x), <- (number_text_d y) by done.
  replace (slice_of rodata _ _) with [45] by (vm_compute; done). by rewrite app_nil_l, <- app_assoc.
Qed.

Definition sep_text (sep : Z) : list Z := if sep =? str_comma then [44] else [].

Lemma number_text_x w v :
  0 <= w -> 0 <= v < 4294967296 ->
  number_text (PrintfSpec FORMAT_TYPE_ULONG 33 16 108 w (-1)) v = hex_pad w v.
Proof.
  intros Hw Hv. unfold number_text, sign_text, sign_of, magnitude, pfx_text, locase_of, is_left, is_zero, has.
  simpl. set (ds := digit_text 16 _ v).
  replace (Z.max (-1) (len ds)) with (len ds) by lia. rewrite Z.sub_diag, (reps_neg 0) by lia.
  unfold hex_pad. simpl. rewrite app_nil_r. subst ds.
  change (Z.land 33 SMALL) with 32. do 2 f_equal. lia.
Qed.

Lemma decode_width w :
  0 <= w <= 8 ->
  format_decode rodata (fmt_chunk + 2 + 3) (PrintfSpec FORMAT_TYPE_WIDTH 1 10 255 w (-1)) =
  Some (2, PrintfSpec FORMAT_TYPE_ULONG 33 16 108 w (-1)).
Proof.
  intros Hw. assert (w = 0 \/ w = 1 \/ w = 2 \/ w = 3 \/ w = 4 \/ w = 5 \/ w = 6 \/ w = 7 \/ w = 8) as H by lia.
  by repeat (destruct H as [->|H]; [vm_compute; reflexivity|]); subst; vm_compute.
Qed.

Lemma chunk_text sep w v :
  sep = str_empty \/ sep = str_comma -> 0 <= w <= 8 -> 0 <= v < 4294967296 ->
  vsn_text rodata fmt_chunk [W32 sep; W32 w; W32 v] = Some (sep_text sep ++ hex_pad w v).
Proof.
  intros Hs Hw Hv. apply (vsn_text_any 4); [|vm_compute; congruence].
  turn. cbn [va_num va_word mbind option_bind].
  replace (string_arg_text _ (u32 sep) _) with (Some (sep_text sep)) by (destruct Hs as [-> | ->]; vm_compute; done).
  cbn [mbind option_bind]. rewrite bool_decide_eq_true_2 by (split; simpl; lia).
  turn. cbn [va_num va_word mbind option_bind].
  replace (set_width (s32 (u32 w)) _) with (PrintfSpec FORMAT_TYPE_WIDTH 1 10 255 w (-1))
    by (unfold set_width, s16, s32, u32; f_equal; simpl; lia).
  erewrite text_turn; [|vm_compute; reflexivity..|by apply decode_width]. cbn [type va_num va_word mbind option_bind].
  rewrite bool_decide_eq_true_2 by (repeat split; simpl; lia).
  rewrite text_done by (vm_compute; done). rewrite u32_small, number_text_x by (done || lia). done.
Qed.

Lemma hex_pad_len w v : 0 <= w <= 8 -> len (hex_pad w v) <= 72.
Proof. intros Hw. unfold hex_pad. rewrite length_app, Nat2Z.inj_add, reps_len. pose proof (digit_text_len 16 32 v). lia. Qed.

(** * Hexadecimal *)

(** The chunk [k] of a map: the bits of word [k], as far as they belong to the map. *)
Definition chunk_bits (bits k : Z) : Z := Z.min 32 (bits - 32 * k).

Definition chunk_val (a : list Z) (bits k : Z) : Z := (a !!! Z.to_nat k) mod 2 ^ chunk_bits bits k.

(** The chunks below [k], most significant first. *)
Fixpoint hex_chunks (a : list Z) (bits : Z) (k : nat) : list Z :=
  match k with
  | O => []
  | S k => hex_pad ((chunk_bits bits (Z.of_nat k) + 3) / 4) (chunk_val a bits (Z.of_nat k)) ++
           match k with O => [] | S _ => 44 :: hex_chunks a bits k end
  end.

Definition hex_text (a : list Z) (bits : Z) : list Z := hex_chunks a bits (Z.to_nat (longs bits)).

Lemma chunk_val_range a bits k :
  0 <= chunk_bits bits k -> 0 <= chunk_val a bits k < 4294967296 /\ chunk_val a bits k < 2 ^ chunk_bits bits k.
Proof.
  intros Hb. unfold chunk_val. pose proof (Z.mod_pos_bound (a !!! Z.to_nat k) (2 ^ chunk_bits bits k)).
  assert (2 ^ chunk_bits bits k <= 2 ^ 32) by (apply Z.pow_le_mono_r; unfold chunk_bits; lia).
  change (2 ^ 32) with 4294967296 in *. pose proof (Z.pow_pos_nonneg 2 (chunk_bits bits k)). lia.
Qed.

Lemma chunk_val_land a bits k :
  0 < chunk_bits bits k ->
  Z.land (Z.shiftr (a !!! Z.to_nat k) 0) (u32 (Z.shiftl 1 (chunk_bits bits k) - 1)) = chunk_val a bits k.
Proof.
  intros Hb. rewrite Z.shiftr_0_r, Z.shiftl_1_l.
  assert (2 ^ chunk_bits bits k <= 2 ^ 32) by (apply Z.pow_le_mono_r; unfold chunk_bits; lia).
  pose proof (Z.pow_pos_nonneg 2 (chunk_bits bits k)). change (2 ^ 32) with 4294967296 in *.
  rewrite u32_small by (unfold is_u32; lia). rewrite Z.sub_1_r, <- Z.ones_equiv. apply Z.land_ones. lia.
Qed.

(** One turn of the loop: the text of chunk [k], after the separator. *)
Lemma chunk_turn_spec buf n a bits k b sep :
  bitmap_ok a bits -> 0 <= k -> 32 * k < bits < 2147483616 -> sep = str_empty \/ sep = str_comma ->
  exists args U, vsn_text rodata fmt_chunk args = Some U /\ len U < 2147483648 /\
    U = sep_text sep ++ hex_pad ((chunk_bits bits k + 3) / 4) (chunk_val a bits k) /\
    chunk_turn buf n a (b, 32 * k, chunk_bits bits k, sep) =
    (b ← append buf n fmt_chunk args b;
     Some (Next (b, 32 * (k - 1), chunk_bits bits (k - 1), str_comma))).
Proof.
  intros Hok Hk Hb Hsep. unfold chunk_turn. rewrite (proj2 (Z.leb_le 0 _)) by lia. rewrite quot32, rem32 by lia.
  replace (32 * k / 32) with k by lia. replace ((32 * k) mod 32) with 0 by lia.
  destruct (rd_ok a bits k Hok) as [-> _]; [lia|lia|]. cbn [mbind option_bind].
  assert (0 < chunk_bits bits k <= 32) as Hcb by (unfold chunk_bits; lia).
  rewrite chunk_val_land by lia. rewrite Z.quot_div_nonneg by lia.
  pose proof (chunk_val_range a bits k ltac:(lia)) as [Hv _].
  set (w := (chunk_bits bits k + 3) / 4). set (v := chunk_val a bits k) in *.
  assert (0 <= w <= 8) as Hw by lia. eexists _, _. split; [by apply (chunk_text sep w v)|]. split; [|split; [done|]].
  - rewrite length_app, Nat2Z.inj_add. pose proof (hex_pad_len w v Hw).
    unfold sep_text. destruct (sep =? str_comma); simpl; lia.
  - replace (32 * k - CHUNKSZ) with (32 * (k - 1)) by (unfold CHUNKSZ; lia).
    by replace CHUNKSZ with (chunk_bits bits (k - 1)) by (unfold chunk_bits, CHUNKSZ; lia).
Qed.

Lemma hex_loop m buf n a bits (k : nat) T b sep fuel :
  buffer_ok m buf n -> bitmap_ok a bits -> 32 * (Z.of_nat k - 1) < bits < 2147483616 ->
  started m buf n T b -> sep = str_empty \/ sep = str_comma -> (k < fuel)%nat ->
  loop fuel (chunk_turn buf n a) (b, 32 * (Z.of_nat k - 1), chunk_bits bits (Z.of_nat k - 1), sep) =
  Some (match k with O => b | S _ => out m buf n (T ++ sep_text sep ++ hex_chunks a bits k) end).
Proof.
  intros Hbuf Hok. revert T b sep fuel.
  induction k as [|k IH]; intros T b sep [|fuel] Hk Hst Hsep Hfuel; [lia| |lia|]; rewrite loop_unfold.
  { unfold chunk_turn at 1. by rewrite (proj2 (Z.leb_gt 0 _)) by lia. }
  replace (Z.of_nat (S k) - 1) with (Z.of_nat k) by lia.
  destruct (chunk_turn_spec buf n a bits (Z.of_nat k) b sep Hok) as (args & U & HU & Hl & Ht & ->); [lia..|done|].
  rewrite (append_spec m buf n _ _ T b U); [|done|done|done|vm_compute; congruence|done]. cbn [mbind option_bind].
  rewrite (IH (T ++ U)); [|lia|by left|by right|lia]. rewrite Ht.
  cbn [hex_chunks]. rewrite <- !app_assoc. destruct k; [by rewrite app_nil_r|].
  by change (sep_text str_comma) with [44].
Qed.

(** In a buffer of no bytes the first text makes the length -1, and every further one is then a text in the
    one byte before the buffer. *)
Lemma append_none m buf fmt args U :
  vsn_text rodata fmt args = Some U -> 0 <= fmt -> len U < 2147483648 -> 0 <= buf <= Z.of_nat (length m) ->
  buf < 4294967296 ->
  append buf 0 fmt args (m, 0) = Some (m, -1).
Proof.
  intros HU Hf Hl Hb Hlt. unfold append. rewrite !u32_small by (unfold is_u32; lia). unfold scnprintf.
  rewrite Z.sub_diag, Z.add_0_r. assert (usable buf 0 = 0) as Hu by (unfold usable; lia).
  rewrite (vsnprintf_spec rodata m buf 0 fmt args U); [|done|done|lia|lia|rewrite Hu; split; lia|done].
  rewrite Hu. cbn [mbind option_bind]. rewrite (proj2 (Z.leb_le 0 _)) by (unfold u32; lia). done.
Qed.

Lemma append_before m buf fmt args U :
  vsn_text rodata fmt args = Some U -> 0 <= fmt -> len U < 2147483648 -> buffer_ok m (buf - 1) 1 ->
  append buf 0 fmt args (m, -1) = Some (blit m (buf - 1) [0], -1).
Proof.
  intros HU Hf Hl (_ & Hr & Hlt). pose proof Hr as [Hb Hr']. unfold append. rewrite !u32_small by (unfold is_u32; lia).
  unfold scnprintf. change (0 - -1) with 1. change (buf + -1) with (buf - 1).
  assert (usable (buf - 1) 1 = 1) as Hu by (unfold usable; lia).
  rewrite (vsnprintf_spec rodata m (buf - 1) 1 fmt args U); [|done|done|lia|lia|rewrite Hu; split; lia|done].
  rewrite Hu. cbn [mbind option_bind]. unfold delivered. cbn [Z.eqb Z.sub Z.to_nat take app]. do 2 f_equal.
  rewrite u32_small by (unfold is_u32; lia). destruct (1 <=? len U) eqn:E; zbool; [done|].
  by replace (len U) with 0 by lia.
Qed.

Lemma blit_twice m (d x : Z) : room m d 1 -> blit (blit m d [x]) d [x] = blit m d [x].
Proof.
  intros Hr. pose proof (blit_over m d [] x [x]) as H. simpl in H. rewrite Z.add_0_r in H. by apply H.
Qed.

Lemma hex_loop_before m buf a bits (k : nat) m' fuel :
  buffer_ok m (buf - 1) 1 -> bitmap_ok a bits -> 32 * (Z.of_nat k - 1) < bits < 2147483616 ->
  m' = m \/ m' = blit m (buf - 1) [0] -> (k < fuel)%nat ->
  loop fuel (chunk_turn buf 0 a) ((m', -1), 32 * (Z.of_nat k - 1), chunk_bits bits (Z.of_nat k - 1), str_comma) =
  Some (match k with O => m' | S _ => blit m (buf - 1) [0] end, -1).
Proof.
  intros Hbuf Hok. pose proof Hbuf as (Hn & Hr & Hlt). revert m' fuel.
  induction k as [|k IH]; intros m' [|fuel] Hk Hm Hfuel; [lia| |lia|]; rewrite loop_unfold.
  { unfold chunk_turn at 1. by rewrite (proj2 (Z.leb_gt 0 _)) by lia. }
  replace (Z.of_nat (S k) - 1) with (Z.of_nat k) by lia.
  destruct (chunk_turn_spec buf 0 a bits (Z.of_nat k) (m', -1) str_comma Hok) as (args & U & HU & Hl & _ & ->);
    [lia..|by right|].
  assert (blit m' (buf - 1) [0] = blit m (buf - 1) [0]) as Hb by (destruct Hm as [-> | ->]; [done|by apply blit_twice]).
  rewrite (append_before m' buf _ args U), Hb; [|done|vm_compute; congruence|done|].
  2:{ destruct Hm as [-> | ->]; [done|]. split; [done|]. split; [|done]. destruct Hr. split; [done|]. by rewrite blit_length. }
  cbn [mbind option_bind]. rewrite IH; [|lia|by right|lia]. by destruct k.
Qed.

Lemma land31 x : 0 <= x -> Z.land x (CHUNKSZ - 1) = x mod 32.
Proof. intros. change (CHUNKSZ - 1) with (Z.ones 5). by rewrite Z.land_ones by lia. Qed.

Lemma ALIGN_32 x : 0 <= x < 2147483616 -> ALIGN x CHUNKSZ = 32 * longs x.
Proof.
  intros Hx. unfold ALIGN, longs. replace (s32 (x + (CHUNKSZ - 1))) with (x + 31) by (unfold s32, CHUNKSZ; lia).
  change (CHUNKSZ - 1) with (Z.ones 5). rewrite <- Z.ldiff_land, Z.ldiff_ones_r by lia.
  rewrite Z.shiftl_mul_pow2, Z.shiftr_div_pow2 by lia. change (2 ^ 5) with 32. lia.
Qed.

(** The start of the loop, at the last chunk of the map. *)
Lemma bitmap_scnprintf_start m buf n a bits :
  0 < bits < 2147483616 ->
  exists k : nat, longs bits = Z.of_nat (S k) /\
  32 * Z.of_nat k < bits <= 32 * Z.of_nat (S k) /\
  bitmap_scnprintf m buf n a bits =
  loop (S (S (length a))) (chunk_turn buf n a) ((m, 0), 32 * Z.of_nat k, chunk_bits bits (Z.of_nat k), str_empty).
Proof.
  intros Hbits. exists (Z.to_nat (longs bits - 1)).
  assert (0 < longs bits /\ 32 * (longs bits - 1) < bits <= 32 * longs bits) as Hl by (unfold longs; lia).
  split; [lia|]. split; [lia|]. unfold bitmap_scnprintf. rewrite land31, ALIGN_32 by lia.
  replace (if bits mod 32 =? 0 then CHUNKSZ else bits mod 32) with (chunk_bits bits (longs bits - 1)).
  2:{ unfold chunk_bits, CHUNKSZ. destruct (_ =? 0) eqn:E; zbool; lia. }
  rewrite Z2Nat.id by lia. by replace (32 * longs bits - CHUNKSZ) with (32 * (longs bits - 1)) by (unfold CHUNKSZ; lia).
Qed.

Lemma bitmap_scnprintf_spec m buf n a bits :
  buffer_ok m buf n -> bitmap_ok a bits -> 0 < bits < 2147483616 ->
  bitmap_scnprintf m buf n a bits = Some (out m buf n (hex_text a bits)).
Proof.
  intros Hbuf Hok Hbits. pose proof Hok as (_ & Hsz & _).
  destruct (bitmap_scnprintf_start m buf n a bits Hbits) as (k & Hk & Hb & ->). unfold hex_text. rewrite Hk, Nat2Z.id.
  pose proof (hex_loop m buf n a bits (S k) [] (m, 0) str_empty) as H.
  replace (Z.of_nat (S k) - 1) with (Z.of_nat k) in H by lia.
  apply H; [done|done|lia|by right|by left|lia].
Qed.

(** With a size of 0: -1, and a NUL before the buffer when there is more than one chunk. *)
Lemma bitmap_scnprintf_zero m buf a bits :
  buffer_ok m (buf - 1) 1 -> bitmap_ok a bits -> 0 < bits < 2147483616 ->
  bitmap_scnprintf m buf 0 a bits = Some (if bits <=? 32 then m else blit m (buf - 1) [0], -1).
Proof.
  intros Hbuf Hok Hbits. pose proof Hok as (_ & Hsz & _). pose proof Hbuf as (_ & [H1 H2] & H3).
  destruct (bitmap_scnprintf_start m buf 0 a bits Hbits) as (k & Hk & Hb & ->). rewrite loop_unfold.
  destruct (chunk_turn_spec buf 0 a bits (Z.of_nat k) (m, 0) str_empty Hok) as (args & U & HU & Hl & _ & ->); [lia..|by left|].
  rewrite (append_none m buf _ args U); [|done|vm_compute; congruence|done|lia|lia]. cbn [mbind option_bind].
  rewrite (hex_loop_before m buf a bits k m); [|done|done|lia|by left|lia].
  destruct k as [|k]; [rewrite (proj2 (Z.leb_le _ _)) by lia|rewrite (proj2 (Z.leb_gt _ _)) by lia]; done.
Qed.

(** * Lists of ranges *)

(** [R] is the list of the maximal runs of set bits of [b] in [lo, n). *)
Fixpoint runs (b : Z -> bool) (lo n : Z) (R : list (Z * Z)) : Prop :=
  match R with
  | [] => forall i, lo <= i < n -> b i = false
  | (x, y) :: R =>
      lo <= x <= y /\ y < n /\ (forall i, lo <= i < x -> b i = false) /\
      (forall i, x <= i <= y -> b i = true) /\ (y + 1 < n -> b (y + 1) = false) /\ runs b (y + 1) n R
  end.

Definition range_text (r : Z * Z) : list Z :=
  if r.1 =? r.2 then dec r.1 else dec r.1 ++ [45] ++ dec r.2.

(** The ranges, separated by commas. *)
Fixpoint ranges_text (R : list (Z * Z)) : list Z :=
  match R with
  | [] => []
  | [r] => range_text r
  | r :: R => range_text r ++ [44] ++ ranges_text R
  end.

Lemma range_text_len r : 0 < len (range_text r) <= 200.
Proof.
  unfold range_text, dec. assert (forall v, 0 < len (digit_text 10 0 v) <= 64) as H.
  { intros v. unfold digit_text. rewrite length_reverse, length_fmap. pose proof (digits_rev_length 10 v). lia. }
  pose proof (H r.1). pose proof (H r.2). destruct (_ =? _); rewrite ?length_app; simpl; lia.
Qed.

(** The texts of a buffer of one byte are all the same. *)
Lemma out_one m buf T : out m buf 1 T = out m buf 1 [].
Proof. unfold out, delivered. simpl. f_equal. lia. Qed.

Definition comma_before (T : list Z) : list Z := match T with [] => [] | _ => [44] end.

Lemma bscnl_emit_spec m buf n x y T :
  buffer_ok m buf n -> 0 <= x < 2147483648 -> 0 <= y < 2147483648 ->
  bscnl_emit buf n x y (out m buf n T) =
  Some (out m buf n (T ++ comma_before T ++ range_text (x, y))).
Proof.
  intros Hbuf Hx Hy. pose proof Hbuf as (Hn & _). unfold bscnl_emit.
  assert (exists T', (if 0 <? (out m buf n T).2 then append buf n str_comma [] (out m buf n T)
    else Some (out m buf n T)) = Some (out m buf n T') /\ (T' = T ++ comma_before T \/ n = 1)) as (T' & -> & HT').
  { change (out m buf n T).2 with (Z.min (len T) (n - 1)). destruct (0 <? Z.min (len T) (n - 1)) eqn:E; zbool.
    - exists (T ++ [44]). destruct T as [|c T]; [simpl in *; lia|]. split; [|by left].
      apply append_spec; [done|by left|apply comma_text|vm_compute; congruence|simpl; lia].
    - exists T. split; [done|]. destruct T as [|c T]; [by left|right]. simpl in *. lia. }
  cbn [mbind option_bind].
  assert ((if x =? y then append buf n fmt_d [W32 x] (out m buf n T')
    else append buf n fmt_range [W32 x; W32 y] (out m buf n T')) =
    Some (out m buf n (T' ++ range_text (x, y)))) as ->.
  { pose proof (range_text_len (x, y)). unfold range_text in *. simpl in *.
    destruct (x =? y).
    - apply append_spec; [done|by left|by apply dec_text|vm_compute; congruence|lia].
    - apply append_spec; [done|by left|by apply range_format_text|vm_compute; congruence|lia]. }
  f_equal. destruct HT' as [-> | ->]; [by rewrite <- app_assoc|].
  by rewrite (out_one _ _ (T' ++ _)), (out_one _ _ (T ++ _)).
Qed.

(** Each range after a comma. *)
Definition more (R : list (Z * Z)) : list Z := concat ((fun r => 44 :: range_text r) <$> R).

Lemma ranges_text_cons r R : ranges_text (r :: R) = range_text r ++ more R.
Proof.
  revert r. induction R as [|r' R IH]; intros r; [by rewrite app_nil_r|].
  change (ranges_text (r :: r' :: R)) with (range_text r ++ [44] ++ ranges_text (r' :: R)). by rewrite IH.
Qed.

Definition tail_text (T : list Z) (R : list (Z * Z)) : list Z :=
  match T with [] => ranges_text R | _ => more R end.

Lemma tail_text_cons T r R :
  T ++ tail_text T (r :: R) = (T ++ comma_before T ++ range_text r) ++ tail_text (T ++ comma_before T ++ range_text r) R.
Proof.
  assert (forall U, U <> [] -> tail_text U R = more R) as H by (by intros [|]).
  rewrite (H (T ++ _)).
  - destruct T as [|c T]; [apply ranges_text_cons|]. unfold tail_text, more. simpl. by rewrite <- app_assoc.
  - pose proof (range_text_len r). intros Hn. apply (f_equal length) in Hn. rewrite !length_app in Hn. simpl in Hn. lia.
Qed.

Lemma runs_weaken b lo lo' n R :
  runs b lo n R -> lo' <= lo -> (forall i, lo' <= i < lo -> b i = false) -> runs b lo' n R.
Proof.
  intros HR Hle Hc. destruct R as [|[x y] R]; simpl in *.
  - intros i Hi. destruct (Z_lt_ge_dec i lo); [apply Hc; lia|apply HR; lia].
  - destruct HR as (H1 & H2 & H3 & H4). split; [lia|]. split; [lia|]. split; [|done].
    intros i Hi. destruct (Z_lt_ge_dec i lo); [apply Hc; lia|apply H3; lia].
Qed.

Lemma run_loop m buf n a bits T cur rbot fuel :
  buffer_ok m buf n -> bitmap_ok a bits -> bits < 2147483648 -> 0 <= cur <= bits ->
  0 <= rbot <= cur -> (forall i, rbot <= i <= cur -> i < bits -> bit_at a i = true) -> (cur = bits -> rbot = bits) ->
  bits - cur < Z.of_nat fuel ->
  exists R, runs (bit_at a) rbot bits R /\
    loop fuel (run_turn buf n a bits) (out m buf n T, cur, rbot) = Some (out m buf n (T ++ tail_text T R)).
Proof.
  intros Hbuf Hok Hlt. revert T cur rbot. induction fuel as [|fuel IH]; intros T cur rbot Hc Hr Hset Hend Hf; [lia|].
  rewrite loop_unfold. unfold run_turn at 1. destruct (cur <? bits) eqn:E; zbool.
  2:{ exists []. assert (rbot = bits) as -> by (apply Hend; lia). split; [simpl; lia|].
      by destruct T; simpl; rewrite ?app_nil_r. }
  destruct (find_next_bit_spec a bits (cur + 1) Hok) as (c & -> & Hn); [unfold is_u32; lia|].
  cbn [mbind option_bind].
  assert (cur < c <= bits /\ (forall i, cur + 1 <= i < c -> bit_at a i = false) /\ (c < bits -> bit_at a c = true))
    as (Hcr & Hclear & Hcs).
  { unfold is_next in Hn. destruct (bits <=? cur + 1) eqn:Eb; zbool; [|split; [lia|tauto]].
    subst c. split; [lia|]. split; [|lia]. intros. lia. }
  destruct ((bits <=? c) || (cur + 1 <? c)) eqn:E2.
  - rewrite bscnl_emit_spec by (done || lia). cbn [mbind option_bind].
    destruct (IH (T ++ comma_before T ++ range_text (rbot, cur)) c c) as (R & HR & ->); [lia..| |lia|lia|].
    { intros i Hi Hib. replace i with c by lia. apply Hcs. lia. }
    exists ((rbot, cur) :: R). split; [|by rewrite tail_text_cons]. simpl. split_and!; [lia|lia|lia|..].
    + intros i Hi. lia.
    + intros i Hi. apply Hset; lia.
    + intros Hi. apply Hclear. apply orb_true_iff in E2 as [E2|E2]; zbool; lia.
    + apply (runs_weaken _ c); [done|lia|]. intros. apply Hclear. lia.
  - zbool. assert (c = cur + 1) as -> by lia. apply IH; try lia. intros i Hi Hib.
    destruct (decide (i = cur + 1)) as [->|]; [by apply Hcs|apply Hset; lia].
Qed.

Lemma bitmap_scnlistprintf_spec m buf n a bits :
  buffer_ok m buf n -> bitmap_ok a bits -> bits < 2147483648 ->
  exists R, runs (bit_at a) 0 bits R /\
    bitmap_scnlistprintf m buf n a bits = Some (out m buf n (ranges_text R)).
Proof.
  intros Hbuf Hok Hlt. pose proof Hbuf as (Hn & [Hb Hr] & _). pose proof Hok as (_ & Hsz & _).
  unfold bitmap_scnlistprintf. rewrite (proj2 (Z.eqb_neq n 0)) by lia.
  rewrite wr_Some by lia. cbn [mbind option_bind].
  destruct (find_first_bit_spec a bits Hok) as (c & -> & Hc). cbn [mbind option_bind].
  rewrite <- (out_nil m buf n) by (lia || by rewrite wr_Some by lia).
  assert (0 <= c <= bits /\ (forall i, 0 <= i < c -> bit_at a i = false) /\ (c < bits -> bit_at a c = true))
    as (Hcr & Hclear & Hcs).
  { unfold is_next in Hc. destruct (bits <=? 0) eqn:Eb; zbool; [|split; [lia|tauto]].
    subst c. split; [lia|]. split; [|lia]. intros. lia. }
  destruct (run_loop m buf n a bits [] c c (S (Z.to_nat bits))) as (R & HR & ->); [done|done|lia..| |lia|lia|].
  { intros i Hi Hib. replace i with c by lia. apply Hcs. lia. }
  exists R. split; [|done]. apply (runs_weaken _ c); [done|lia|]. done.
Qed.
