(* ===== verification/BitmapHex.v ===== *)
(** __bitmap_parse: what the text of a map means, that the parser never leaves its input and that
    an accepted text is the map, and that it accepts exactly the lists of chunks that fit; what
    bitmap_scnprintf prints is read back. *)

From S2P Require Import Prelude Word FindBit Bitmap BitmapMap Str StrSpec StrCopy Vsprintf VsprintfNum.
From S2P Require Import VsprintfParse VsprintfFmt VsprintfOut BitmapText BitmapPrint.
From Stdlib Require Import Lia.

Implicit Types (m : mem) (d t u : list Z) (s : cursor).

(** * Numbers in maps *)

(** The first [bits] bits of [d] are those of [V]; [d0] was the array. *)
Definition holds (d0 d : list Z) (bits V : Z) : Prop :=
  length d = length d0 /\ Forall is_u32 d /\ forall i, 0 <= i < bits -> bit_at d i = Z.testbit V i.

(** [nbits] is the length of the number [V] of [nchunks] chunks. *)
Definition counted (nchunks nbits V : Z) : Prop :=
  0 <= nchunks /\ (nchunks = 0 -> V = 0 /\ nbits = 0) /\
  (0 < nchunks -> 2 ^ (nbits - 1) <= V < 2 ^ nbits /\ 0 < nbits).

Lemma push_testbit V c i :
  0 <= V -> is_u32 c -> 0 <= i ->
  Z.testbit (V * 4294967296 + c) i = if i <? 32 then Z.testbit c i else Z.testbit V (i - 32).
Proof.
  intros HV Hc Hi. change 4294967296 with (2 ^ 32) in *. destruct (i <? 32) eqn:E; zbool.
  - rewrite <- (Z.mod_pow2_bits_low _ 32 i), Z.add_comm, Z.mod_add by lia.
    by rewrite Z.mod_pow2_bits_low by lia.
  - replace i with (i - 32 + 32) at 1 by lia. rewrite <- Z.div_pow2_bits by lia.
    rewrite Z.add_comm, Z.div_add by lia. unfold is_u32 in Hc. by rewrite Z.div_small by lia.
Qed.

(** One more chunk: what the code does to the map and to nbits. *)
Lemma push_chunk d0 d bits V c :
  holds d0 d bits V -> bitmap_ok d0 bits -> 0 < bits < 2147483616 -> 0 <= V -> is_u32 c ->
  exists d1 w d2, __bitmap_shift_left d SameAsDst CHUNKSZ bits = Some d1 /\ rd d1 0 = Some w /\
    wr d1 0 (Z.lor w c) = Some d2 /\ holds d0 d2 bits (V * 4294967296 + c).
Proof.
  intros (Hlen & Hu & Hbits) (Hu0 & Hsz & Hlt) Hb HV Hc.
  assert (bitmap_ok d bits) as Hok by (split; [done|rewrite Hlen; done]).
  assert (0 < longs bits) as Hl by (unfold longs; lia).
  destruct (bitmap_shift_left_spec d SameAsDst CHUNKSZ bits) as (d1 & -> & Hok1 & Hlen1 & Hd1);
    [done|done|lia|vm_compute; congruence|change (CHUNKSZ / 32) with 1; lia|].
  destruct (rd_word d1 bits 0 Hok1) as [Hrd Hw]; [lia|lia|].
  exists d1, (d1 !!! Z.to_nat 0). eexists. split; [done|]. split; [done|].
  split; [apply wr_Some; lia|]. split; [rewrite length_insert; congruence|].
  split; [apply Forall_insert_total; [by destruct Hok1|auto with kernel]|].
  intros i Hi. rewrite bit_at_insert, push_testbit by (done || lia).
  assert (forall i, 0 <= i < bits -> bit_at d1 i = bool_decide (32 <= i < bits) && bit_at d (i - 32)) as Hb1
    by (intros; apply Hd1; unfold longs; lia). case_bool_decide as E.
  - rewrite (proj2 (Z.ltb_lt i 32)) by lia. rewrite Z.lor_spec. replace (i mod 32) with i by lia.
    assert (Z.testbit (d1 !!! Z.to_nat 0) i = false) as ->; [|done].
    rewrite <- (bit_at_word d1 0) by lia. rewrite Hb1 by lia. by rewrite bool_decide_eq_false_2 by lia.
  - rewrite (proj2 (Z.ltb_ge i 32)) by lia. rewrite Hb1 by lia. rewrite bool_decide_eq_true_2 by lia.
    apply Hbits. lia.
Qed.

Lemma pow_split a b : 0 <= a -> 0 <= b -> 2 ^ (a + b) = 2 ^ a * 2 ^ b.
Proof. apply Z.pow_add_r. Qed.

Lemma push_counted nchunks nbits V c :
  counted nchunks nbits V -> is_u32 c -> (nchunks =? 0) && (c =? 0) = false ->
  counted (nchunks + 1) (nbits + (if nchunks + 1 =? 1 then nbits_to_hold_value c else CHUNKSZ))
    (V * 4294967296 + c).
Proof.
  intros (H0 & Hz & Hp) Hc Hnz. split; [lia|]. split; [lia|]. intros _.
  unfold is_u32 in Hc. destruct (nchunks + 1 =? 1) eqn:E; zbool.
  - destruct Hz as [-> ->]; [lia|]. unfold nbits_to_hold_value. rewrite fls_spec by done.
    destruct (c =? 0) eqn:E0; zbool; [lia|].
    pose proof (Z.log2_spec c ltac:(lia)). pose proof (Z.log2_nonneg c).
    replace (0 + (Z.log2 c + 1)) with (Z.succ (Z.log2 c)) by lia.
    replace (Z.succ (Z.log2 c) - 1) with (Z.log2 c) by lia. lia.
  - destruct Hp as [Hp Hn]; [lia|]. unfold CHUNKSZ.
    replace (nbits + 32 - 1) with ((nbits - 1) + 32) by lia. rewrite !pow_split by lia.
    change (2 ^ 32) with 4294967296. lia.
Qed.

Lemma counted_nonneg nchunks nbits V : counted nchunks nbits V -> 0 <= V /\ 0 <= nbits /\ V < 2 ^ nbits.
Proof.
  intros (H0 & Hz & Hp). destruct (decide (nchunks = 0)) as [E|E].
  - destruct (Hz E) as [-> ->]. simpl. lia.
  - destruct Hp; [lia|]. pose proof (Z.pow_nonneg 2 (nbits - 1)). lia.
Qed.

(** What the code does with a chunk: the map and the counters take it, or the number is too long. *)
Lemma after_chunk d0 d bits V c nchunks nbits s :
  holds d0 d bits V -> bitmap_ok d0 bits -> 0 < bits < 2147483616 -> is_u32 c ->
  counted nchunks nbits V -> nbits <= bits ->
  exists d' nchunks' nbits', holds d0 d' bits (V * 4294967296 + c) /\
    counted nchunks' nbits' (V * 4294967296 + c) /\
    add_chunk bits d s nchunks nbits c =
    Some (if bits <? nbits' then Ret (d', - EOVERFLOW)
          else if negb (s.(buflen) =? 0) && (s.(cur) =? 44) then Next (d', s, nchunks', nbits')
          else Ret (d', 0)) /\
    (bits < nbits' -> 2 ^ bits <= V * 4294967296 + c).
Proof.
  intros Hh Hd0 Hbits Hc Hcnt Hnb. unfold add_chunk. destruct (counted_nonneg _ _ _ Hcnt) as (HV & Hn0 & _).
  destruct ((nchunks =? 0) && (c =? 0)) eqn:Ez.
  - apply andb_true_iff in Ez as [Ez Ec]. zbool. subst. pose proof Hcnt as (_ & Hz & _). destruct Hz as [-> ->]; [done|].
    exists d, 0, 0. split; [done|]. split; [done|]. rewrite (proj2 (Z.ltb_ge bits 0)) by lia. split; [done|lia].
  - destruct (push_chunk d0 d bits V c Hh Hd0 Hbits HV Hc) as (d1 & w & d2 & -> & Hw & Hwr & Hh2).
    cbn [mbind option_bind]. rewrite Hw. cbn [mbind option_bind]. rewrite Hwr. cbn [mbind option_bind].
    pose proof (push_counted nchunks nbits V c Hcnt Hc Ez) as Hcnt2.
    set (nb := nbits + _) in *. assert (0 <= nb < 2147483648) as Hnbr.
    { destruct (counted_nonneg _ _ _ Hcnt2) as (_ & ? & _). split; [done|]. subst nb.
      unfold nbits_to_hold_value, CHUNKSZ. rewrite fls_spec by done. unfold is_u32 in Hc.
      pose proof (Z.log2_le_mono c 4294967295 ltac:(lia)) as Hlog. change (Z.log2 4294967295) with 31 in Hlog.
      repeat case_match; lia. }
    cbv zeta. replace (s32 nb) with nb by (unfold s32; lia). exists d2, (nchunks + 1), nb.
    split; [done|]. split; [done|]. split; [by destruct (bits <? nb)|]. intros Hlt.
    destruct Hcnt2 as (_ & _ & Hp). destruct Hp as [Hp _]; [by destruct Hcnt; lia|].
    eapply Z.le_trans; [|apply Hp]. apply Z.pow_le_mono_r; lia.
Qed.

(** * The meaning of a text *)

(** The value of the whole chunks and that of the current one after one more character. *)
Definition feed (st : Z * Z) (c : Z) : Z * Z :=
  let '(hi, chunk) := st in
  if isspace c then (hi, chunk)
  else if c =? 44 then (hi * 4294967296 + chunk, 0)
  else (hi, chunk * 16 + hexval c).

Definition fed (t : list Z) : Z * Z := fold_left feed t (0, 0).

(** A comma at the end of the buffer is ignored. *)
Definition hex_num (t : list Z) : Z :=
  let '(hi, chunk) := fed t in
  if ch t (len t - 1) =? 44 then hi else hi * 4294967296 + chunk.

Lemma fed_snoc t c : fed (t ++ [c]) = feed (fed t) c.
Proof. unfold fed. by rewrite fold_left_app. Qed.

(** The text [t] in the [n] bytes at [buf]: it ends at the end of the buffer or at a NUL. *)
Definition input (m : mem) (buf n : Z) (t : list Z) : Prop :=
  Forall (fun c => 0 < c < 256) t /\ len t <= n /\
  forall k, 0 <= k <= len t -> k < n -> rd m (buf + k) = Some (ch t k).

Lemma hex_bytes :
  all_below 256 (fun c => negb (isxdigit c) || ((unhex c =? hexval c) && negb (isspace c) && negb (c =? 44))) = true.
Proof. vm_compute. done. Qed.

Lemma xdigit_facts c :
  0 <= c < 256 -> isxdigit c = true ->
  unhex c = hexval c /\ isspace c = false /\ c <> 44 /\ c <> 0 /\ 0 <= hexval c < 16.
Proof.
  intros Hc Hx. pose proof (all_below_spec _ _ hex_bytes c ltac:(lia)) as H. simpl in H.
  rewrite Hx in H. simpl in H. destruct (isspace c); [by rewrite andb_false_r in H|].
  zbool. pose proof (hexval_range c Hc Hx). split_and!; try done; lia.
Qed.

(** The test for four free bits, and the digit put there. *)
Lemma chunk_overflow chunk :
  is_u32 chunk ->
  negb (Z.land chunk (ul_not (Z.shiftl 1 (CHUNKSZ - 4) - 1)) =? 0) = (268435456 <=? chunk).
Proof.
  intros Hc. change (ul_not _) with (Z.shiftl (Z.ones 4) 28).
  assert (Z.land chunk (Z.shiftl (Z.ones 4) 28) = Z.shiftl (Z.shiftr chunk 28) 28) as ->.
  { apply Z.bits_inj'. intros i Hi. rewrite Z.land_spec, !Z.shiftl_spec by lia.
    destruct (Z_lt_ge_dec i 28); [by rewrite !(Z.testbit_neg_r _ (i - 28)), andb_false_r by lia|].
    rewrite Z.shiftr_spec by lia. replace (i - 28 + 28) with i by lia.
    destruct (Z_lt_ge_dec i 32).
    - rewrite Z.ones_spec_low by lia. by rewrite andb_true_r.
    - by rewrite is_u32_bits by (done || lia). }
  rewrite Z.shiftl_mul_pow2, Z.shiftr_div_pow2 by lia. change (2 ^ 28) with 268435456.
  unfold is_u32 in Hc. apply eq_true_iff_eq. rewrite negb_true_iff, Z.eqb_neq, Z.leb_le. lia.
Qed.

Lemma put_digit chunk c :
  0 <= chunk < 268435456 -> 0 <= c < 16 -> Z.lor (ul_shl chunk 4) c = chunk * 16 + c.
Proof.
  intros Hc Hd. unfold ul_shl. rewrite Z.shiftl_mul_pow2 by lia. change (2 ^ 4) with 16.
  rewrite u32_small by (unfold is_u32; lia). change 16 with (2 ^ 4) at 1. rewrite <- Z.shiftl_mul_pow2 by lia.
  rewrite <- Z.add_lor_land. rewrite Z.shiftl_mul_pow2 by lia. change (2 ^ 4) with 16.
  replace (Z.land _ c) with 0; [lia|]. symmetry. apply Z.bits_inj'. intros i Hi.
  rewrite Z.land_spec, Z.bits_0. change 16 with (2 ^ 4). rewrite Z.mul_pow2_bits by lia.
  destruct (Z_lt_ge_dec i 4); [by rewrite Z.testbit_neg_r by lia|].
  rewrite (Z.bits_above_log2 c i); [by rewrite andb_false_r|lia|].
  destruct (decide (c = 0)) as [->|]; [simpl; lia|]. apply Z.lt_le_trans with 4; [|lia]. apply Z.log2_lt_pow2; lia.
Qed.

(** * What the parser accepts is the map *)

Section sound.
Context (m : mem) (buf n : Z) (t : list Z) (is_user : bool) (fault : Z -> bool).
Context (Hin : input m buf n t).

Definition parse_error (e : Z) : Prop :=
  e = - EINVAL \/ e = - EOVERFLOW \/
  (e = - EFAULT /\ is_user = true /\ exists k, 0 <= k < n /\ fault (buf + k) = true).

(** The input [s] is at the position [k], after the whole chunks of value [V] and [chunk]. *)
Definition inside (k0 V : Z) (st : cursor * Z * Z) : Prop :=
  let '(s, chunk, nd) := st in
  exists k, k0 <= k <= len t /\ s.(at_) = buf + k /\ s.(buflen) = n - k /\
    fed (take (Z.to_nat k) t) = (V, chunk) /\ is_u32 chunk /\ 0 <= nd /\ (0 < nd -> k0 < k) /\
    (k0 < k -> ch t (k - 1) <> 44).

Definition chunk_read (k0 V : Z) (r : (cursor * Z * Z) + Z) : Prop :=
  match r with
  | inr e => parse_error e
  | inl (s, chunk, nd) =>
      exists k, k0 <= k <= len t /\ fed (take (Z.to_nat k) t) = (V, chunk) /\ is_u32 chunk /\ 0 <= nd /\
        (0 < nd -> k0 < k) /\ (k0 < k -> ch t (k - 1) <> 44) /\
        ((k = len t /\ (s.(buflen) = 0 \/ s.(cur) = 0)) \/
         (k < len t /\ ch t k = 44 /\ s.(at_) = buf + (k + 1) /\ s.(buflen) = n - (k + 1) /\ s.(cur) = 44))
  end.

Lemma char_turn_sound k0 V st :
  0 <= k0 -> inside k0 V st ->
  match char_turn m is_user fault st with
  | Some (Next st') => inside k0 V st' /\ (Z.to_nat (buflen st'.1.1) < Z.to_nat (buflen st.1.1))%nat
  | Some (Ret r) => chunk_read k0 V r
  | None => False
  end.
Proof.
  pose proof Hin as (Ht & Hlen & Hrd). intros Hk0. destruct st as [[s chunk] nd].
  intros (k & Hk & Hat & Hbl & Hfed & Hc & Hnd & Hpos & Hprev). unfold char_turn.
  destruct (buflen s =? 0) eqn:E; zbool.
  { exists k. split_and!; try done; try lia. }
  destruct (is_user && fault (at_ s)) eqn:Ef.
  { right. right. apply andb_true_iff in Ef as [-> Ef]. split; [done|]. split; [done|].
    exists k. split; [lia|]. by rewrite <- Hat. }
  rewrite Hat, Hrd by lia. cbn [mbind option_bind totaldigits].
  assert (k < len t -> 0 < ch t k < 256) as Hch.
  { intros Hkl. unfold ch. destruct (t !! Z.to_nat k) as [c|] eqn:Et; [|apply lookup_ge_None in Et; lia].
    exact (Forall_lookup_1 _ _ _ _ Ht Et). }
  assert (k < len t -> fed (take (Z.to_nat (k + 1)) t) = feed (V, chunk) (ch t k)) as Hfeed
    by (intros; by rewrite take_ch, fed_snoc, Hfed by lia).
  assert (k = len t -> ch t k = 0) as Hend by (intros ->; apply ch_end).
  unfold feed in Hfeed. destruct (isspace (ch t k)) eqn:Es.
  { assert (k < len t) as Hkl by (destruct (decide (k = len t)) as [Ek|]; [by rewrite (Hend Ek) in Es|lia]).
    split; [|simpl; lia]. exists (k + 1). simpl. split_and!; try lia; try done.
    + by rewrite Hfeed by lia.
    + intros _. replace (k + 1 - 1) with k by lia. by intros H44; rewrite H44 in Es. }
  destruct (_ && _ && isspace (cur s)); [by left|].
  destruct ((ch t k =? 0) || (ch t k =? 44)) eqn:Et.
  { exists k. split_and!; try done; try lia. cbn [buflen cur at_]. apply orb_true_iff in Et as [Et|Et]; zbool.
    - left. split; [|by right]. destruct (decide (k = len t)); [done|]. specialize (Hch ltac:(lia)). lia.
    - right. split_and!; lia. }
  zbool. destruct (isxdigit (ch t k)) eqn:Ex; [|by left]. cbv iota. simpl negb. cbv iota.
  assert (k < len t) as Hkl by (destruct (decide (k = len t)) as [Ek|]; [by rewrite (Hend Ek) in Ex|lia]).
  rewrite chunk_overflow by done. destruct (268435456 <=? chunk) eqn:Eo; [by right; left|]. zbool.
  destruct (xdigit_facts (ch t k)) as (-> & _ & H44 & _ & Hv); [pose proof (Hch Hkl); lia|done|].
  unfold is_u32 in Hc. rewrite put_digit by lia. cbn [fst snd buflen at_]. split; [|simpl; lia].
  exists (k + 1). cbn [at_ buflen]. split_and!; try (unfold is_u32; lia).
  - rewrite Hfeed by lia. by rewrite (proj2 (Z.eqb_neq _ 44)).
  - intros _. by replace (k + 1 - 1) with k by lia.
Qed.

Lemma next_chunk_sound k0 V s :
  0 <= k0 <= len t -> s.(at_) = buf + k0 -> s.(buflen) = n - k0 -> fed (take (Z.to_nat k0) t) = (V, 0) ->
  exists r, next_chunk m is_user fault s = Some r /\ chunk_read k0 V r.
Proof.
  intros Hk Hat Hbl Hfed. unfold next_chunk.
  apply (loop_rule (inside k0 V) (fun st => Z.to_nat (buflen st.1.1))).
  - intros st Hst. pose proof (char_turn_sound k0 V st ltac:(lia) Hst). by destruct (char_turn _ _ _ st) as [[|]|].
  - exists k0. split_and!; done || lia.
  - simpl. lia.
Qed.

Context (d0 : list Z) (bits : Z).
Context (Hd0 : bitmap_ok d0 bits) (Hbits : 0 < bits < 2147483616).

(** Between two chunks. *)
Definition between (st : list Z * cursor * Z * Z) : Prop :=
  let '(d, s, nchunks, nbits) := st in
  exists k V, 0 <= k <= len t /\ s.(at_) = buf + k /\ s.(buflen) = n - k /\
    fed (take (Z.to_nat k) t) = (V, 0) /\ counted nchunks nbits V /\ nbits <= bits /\ holds d0 d bits V.

Definition parsed (r : list Z * Z) : Prop :=
  length r.1 = length d0 /\ Forall is_u32 r.1 /\
  (parse_error r.2 \/ (r.2 = 0 /\ 0 <= hex_num t < 2 ^ bits /\ holds d0 r.1 bits (hex_num t))).

(** Where the parser stops, the value of the chunks is that of the text. *)
Lemma hex_num_end k V chunk :
  0 < k -> fed (take (Z.to_nat k) t) = (V, chunk) -> ch t (k - 1) <> 44 ->
  k = len t \/ (k + 1 = len t /\ ch t k = 44) -> hex_num t = V * 4294967296 + chunk.
Proof.
  intros Hk Hf Hc [-> | [He H44]]; unfold hex_num.
  - rewrite take_ge in Hf by lia. rewrite Hf. by rewrite (proj2 (Z.eqb_neq _ 44)).
  - assert (t = take (Z.to_nat k) t ++ [44]) as Ht.
    { rewrite <- H44, <- take_ch, take_ge by lia. done. }
    rewrite Ht at 1. rewrite fed_snoc, Hf. replace (len t - 1) with k by lia. by rewrite H44.
Qed.

(** Another turn, or the end, with the map [d] of value [V']. *)
Lemma turn_end d s chunk nchunks nbits k k0 V :
  0 <= k0 < k -> k <= len t -> fed (take (Z.to_nat k) t) = (V, chunk) -> ch t (k - 1) <> 44 ->
  counted nchunks nbits (V * 4294967296 + chunk) -> nbits <= bits ->
  holds d0 d bits (V * 4294967296 + chunk) ->
  ((k = len t /\ (s.(buflen) = 0 \/ s.(cur) = 0)) \/
   (k < len t /\ ch t k = 44 /\ s.(at_) = buf + (k + 1) /\ s.(buflen) = n - (k + 1) /\ s.(cur) = 44)) ->
  match (if negb (s.(buflen) =? 0) && (s.(cur) =? 44) then Next (d, s, nchunks, nbits) else Ret (d, 0)) with
  | Next st' => between st' /\ n - s.(buflen) = k + 1
  | Ret r => parsed r
  end.
Proof.
  pose proof Hin as (_ & Hlen & _). intros Hk0 Hk Hfed Hc Hcnt Hnb Hh Hcase.
  assert (hex_num t = V * 4294967296 + chunk -> parsed (d, 0)) as Hret.
  { intros Hv. pose proof Hh as (? & ? & _). split; [done|]. split; [done|]. right.
    split; [done|]. rewrite Hv. split; [|done]. destruct (counted_nonneg _ _ _ Hcnt) as (Hv0 & Hv1 & Hv2).
    split; [done|]. eapply Z.lt_le_trans; [exact Hv2|]. apply Z.pow_le_mono_r; lia. }
  destruct Hcase as [(-> & Hstop)|(Hlt & H44 & Hat & Hbl & Hcur)].
  - replace (_ && _) with false by (destruct Hstop as [-> | ->]; [done|by rewrite andb_false_r]).
    apply Hret. apply (hex_num_end (len t)); [lia|done|done|by left].
  - rewrite Hcur, andb_true_r. destruct (buflen s =? 0) eqn:E; zbool; cbn [negb].
    + apply Hret. apply (hex_num_end k); [lia|done|done|right]. split; [lia|done].
    + split; [|lia]. exists (k + 1), (V * 4294967296 + chunk). split_and!; try done; try lia.
      rewrite take_ch, fed_snoc, Hfed, H44 by lia. done.
Qed.

Lemma parse_turn_sound st :
  between st ->
  match parse_turn m is_user fault bits st with
  | Some (Next st') => between st' /\ (Z.to_nat (buflen st'.1.1.2) < Z.to_nat (buflen st.1.1.2))%nat
  | Some (Ret r) => parsed r
  | None => False
  end.
Proof.
  destruct st as [[[d s] nchunks] nbits]. intros (k0 & V & Hk0 & Hat & Hbl & Hfed & Hcnt & Hnb & Hh).
  unfold parse_turn. destruct (next_chunk_sound k0 V s Hk0 Hat Hbl Hfed) as (r & -> & Hr). cbn [mbind option_bind].
  pose proof Hh as (Hl & Hu & _). destruct r as [[[s' chunk] nd]|e]; [|split; [done|]; split; [done|by left]].
  destruct Hr as (k & Hk & Hf & Hc & Hnd & Hpos & Hprev & Hcase).
  destruct (nd =? 0) eqn:E; zbool; [split; [done|]; split; [done|left; by left]|].
  assert (k0 < k) as Hlt by lia. pose proof Hin as (_ & Hlen & _).
  destruct (after_chunk d0 d bits V chunk nchunks nbits s')
    as (d' & nc' & nb' & Hh' & Hcnt' & -> & _); [done..|].
  pose proof Hh' as (Hl' & Hu' & _). destruct (bits <? nb') eqn:Eo; zbool.
  - split; [done|]. split; [done|left; right; by left].
  - pose proof (turn_end d' s' chunk nc' nb' k k0 V ltac:(lia) ltac:(lia) Hf ltac:(by apply Hprev)
      Hcnt' Eo Hh' Hcase) as Ht.
    destruct (negb (buflen s' =? 0) && (cur s' =? 44)) eqn:Ea; [|exact Ht]. destruct Ht as [Ht Hb].
    split; [exact Ht|]. simpl. lia.
Qed.

Lemma bitmap_parse_sound :
  exists r, __bitmap_parse m buf n is_user fault d0 bits = Some r /\ parsed r.
Proof.
  unfold __bitmap_parse.
  destruct (image_start d0 bits (fun _ _ => False) Hd0 ltac:(lia)) as (d & -> & Hl & Hu & Hz). cbn [mbind option_bind].
  apply (loop_rule between (fun st => Z.to_nat (buflen st.1.1.2))).
  - intros st Hst. pose proof (parse_turn_sound st Hst). by destruct (parse_turn _ _ _ _ st) as [[|]|].
  - assert (counted 0 0 0) as Hc0 by (split; [lia|]; split; [done|lia]).
    exists 0, 0. split_and!; try (done || (simpl; lia)).
    split; [done|]. split; [done|]. intros i Hi. rewrite Z.bits_0. apply not_true_iff_false. rewrite Hz by (unfold longs; lia).
    intros (k & Hk & _). lia.
  - simpl. lia.
Qed.
End sound.

(** * What the parser accepts *)

(** The text after the last chunk, in a buffer with [n] bytes left for the text of [l] bytes: spaces, or
    a comma as the last byte of the buffer. *)
Definition tail_ok (tr : list Z) (n l : Z) : Prop :=
  Forall (fun c => isspace c = true) tr \/ (tr = [44] /\ n = l).

(** Chunks separated by commas. *)
Fixpoint join (cs : list (list Z)) : list Z :=
  match cs with
  | [] => []
  | [c] => c
  | c :: cs => c ++ 44 :: join cs
  end.

Definition total (V : Z) (cs : list (list Z)) : Z :=
  fold_left (fun V c => V * 4294967296 + value 16 c) cs V.

Definition spaces (t : list Z) : Prop := Forall (fun c => isspace c = true) t.

Definition hex_digits (t : list Z) : Prop := Forall (fun c => isxdigit c = true) t.

Lemma input_app m p n t u : input m p n (t ++ u) -> input m (p + len t) (n - len t) u.
Proof.
  intros (Hc & Hl & Hrd). apply Forall_app in Hc as [_ Hc]. rewrite length_app in *.
  split; [done|]. split; [lia|]. intros k Hk Hn. rewrite <- Z.add_assoc, Hrd by lia.
  rewrite ch_app by lia. rewrite (proj2 (Z.ltb_ge _ _)) by lia. do 2 f_equal. lia.
Qed.

Lemma input_head m p n c t : input m p n (c :: t) -> rd m p = Some c /\ 0 < c < 256 /\ 0 < n.
Proof.
  intros (Hc & Hl & Hrd). inversion Hc; subst. simpl in *. split; [|lia].
  rewrite <- (Z.add_0_r p). rewrite Hrd by lia. done.
Qed.

Lemma fold_hex_ge t v :
  hex_digits t -> Forall (fun c => 0 < c < 256) t -> 0 <= v -> v <= fold_left (fun r c => r * 16 + hexval c) t v.
Proof.
  intros Hx. revert v. induction Hx as [|c t Hc Hx IH]; intros v Hb Hv; simpl; [lia|]. inversion Hb; subst.
  destruct (xdigit_facts c) as (_ & _ & _ & _ & ?); [lia|done|]. etransitivity; [|apply IH; [done|lia]]. lia.
Qed.

Section accepts.
Context (m : mem) (is_user : bool) (fault : Z -> bool).
Context (Hnf : forall p, is_user && fault p = false).

Definition run (st : cursor * Z * Z) : option ((cursor * Z * Z) + Z) :=
  loop (S (Z.to_nat st.1.1.(buflen))) (char_turn m is_user fault) st.

(** Equal positions and counts. *)
Ltac same_cursor :=
  match goal with
  | |- run (Cursor ?a ?b ?c ?d, ?v, ?n) = run (Cursor ?a' ?b' ?c ?d', ?v, ?n') =>
      replace a' with a by lia; replace b' with b by lia; replace d' with d by lia;
      replace n' with n by lia; reflexivity
  end.

(** A character is read. *)
Lemma run_char s chunk nd c u :
  input m s.(at_) s.(buflen) (c :: u) ->
  run (s, chunk, nd) =
  let s' := Cursor (s.(at_) + 1) (s.(buflen) - 1) c s.(totaldigits) in
  if isspace c then run (s', chunk, nd)
  else if negb (s.(totaldigits) =? 0) && isspace s.(cur) then Some (inr (- EINVAL))
  else if c =? 44 then Some (inl (s', chunk, nd))
  else if negb (isxdigit c) then Some (inr (- EINVAL))
  else if negb (Z.land chunk (ul_not (Z.shiftl 1 (CHUNKSZ - 4) - 1)) =? 0) then Some (inr (- EOVERFLOW))
  else run (Cursor (s.(at_) + 1) (s.(buflen) - 1) c (s.(totaldigits) + 1),
            Z.lor (ul_shl chunk 4) (unhex c), nd + 1).
Proof.
  intros Hi. destruct (input_head _ _ _ _ _ Hi) as (Hrd & Hb & Hpos). unfold run. cbn [fst snd buflen].
  replace (S (Z.to_nat (buflen s - 1))) with (Z.to_nat (buflen s)) by lia. rewrite loop_unfold. unfold char_turn at 1.
  rewrite (proj2 (Z.eqb_neq (buflen s) 0)), Hnf, Hrd by lia. cbn [mbind option_bind totaldigits at_ buflen].
  rewrite (proj2 (Z.eqb_neq c 0)), andb_true_r by lia. cbv zeta.
  destruct (isspace c); [done|]. destruct (_ && isspace (cur s)); [done|]. simpl orb. destruct (c =? 44); [done|].
  destruct (isxdigit c); [|done]. by destruct (Z.land _ _ =? 0).
Qed.

Lemma skip_run s t u chunk nd :
  input m s.(at_) s.(buflen) (t ++ u) -> spaces t ->
  exists c, run (s, chunk, nd) =
      run (Cursor (s.(at_) + len t) (s.(buflen) - len t) c s.(totaldigits), chunk, nd) /\
    (t = [] -> c = s.(cur)).
Proof.
  intros Hi Ht. revert s Hi. induction Ht as [|c t Hc Ht IH]; intros s Hi.
  { exists s.(cur). cbn [length]. rewrite Z.add_0_r, Z.sub_0_r. split; [by destruct s|done]. }
  rewrite (run_char s chunk nd c (t ++ u)) by done. rewrite Hc. cbv zeta.
  destruct (IH (Cursor (at_ s + 1) (buflen s - 1) c (totaldigits s))) as (c' & -> & _).
  { simpl. by apply (input_app m _ _ [c]). }
  exists c'. split; [|done]. cbn [length at_ buflen totaldigits]. same_cursor.
Qed.

Lemma digits_run s t u chunk nd :
  input m s.(at_) s.(buflen) (t ++ u) -> hex_digits t -> is_u32 chunk ->
  s.(totaldigits) = 0 \/ isspace s.(cur) = false -> 0 <= s.(totaldigits) ->
  let v := fold_left (fun r c => r * 16 + hexval c) t chunk in
  if v <? 4294967296 then
    exists c, run (s, chunk, nd) =
        run (Cursor (s.(at_) + len t) (s.(buflen) - len t) c (s.(totaldigits) + len t), v, nd + len t) /\
      (isspace c = false \/ t = [] /\ c = s.(cur))
  else run (s, chunk, nd) = Some (inr (- EOVERFLOW)).
Proof.
  intros Hi Ht. revert s chunk nd Hi. induction Ht as [|c t Hc Ht IH]; intros s chunk nd Hi Hu Hsp Htd; cbv zeta.
  { unfold is_u32 in Hu. cbn [fold_left length]. rewrite (proj2 (Z.ltb_lt _ _)) by lia. exists s.(cur).
    rewrite !Z.add_0_r, Z.sub_0_r. split; [by destruct s|by right]. }
  destruct (input_head _ _ _ _ _ Hi) as (Hrd & Hb & Hpos).
  destruct (xdigit_facts c) as (Hx & Hs & H44 & H0 & Hv); [lia|done|].
  rewrite (run_char s chunk nd c (t ++ u)) by done. rewrite Hs, Hc, chunk_overflow, (proj2 (Z.eqb_neq c 44)) by done.
  replace (_ && isspace (cur s)) with false by (destruct Hsp as [-> | ->]; [done|by rewrite andb_false_r]).
  assert (Forall (fun c => 0 < c < 256) t) as Hbt.
  { destruct Hi as (Hf & _). apply Forall_app in Hf as [Hf _]. by inversion Hf. }
  unfold is_u32 in Hu. cbn [fold_left negb]. cbv zeta. destruct (268435456 <=? chunk) eqn:Eo; zbool.
  { pose proof (fold_hex_ge t (chunk * 16 + hexval c) Ht Hbt ltac:(lia)).
    by rewrite (proj2 (Z.ltb_ge _ _)) by lia. }
  rewrite Hx, put_digit by lia.
  specialize (IH (Cursor (at_ s + 1) (buflen s - 1) c (totaldigits s + 1)) (chunk * 16 + hexval c) (nd + 1)).
  cbn [at_ buflen cur totaldigits] in IH. specialize (IH (input_app m _ _ [c] _ Hi) ltac:(unfold is_u32; lia)
    ltac:(by right) ltac:(lia)). cbv zeta in IH.
  destruct (_ <? 4294967296); [|done]. destruct IH as (c' & -> & Hcs). exists c'.
  split; [cbn [length]; same_cursor|]. left. by destruct Hcs as [|[_ ->]].
Qed.

(** The end of the buffer, or a NUL. *)
Lemma end_run s chunk nd :
  input m s.(at_) s.(buflen) [] ->
  exists s', run (s, chunk, nd) = Some (inl (s', chunk, nd)) /\ (s'.(buflen) = 0 \/ s'.(cur) = 0).
Proof.
  intros (_ & Hl & Hrd). simpl in *. unfold run. rewrite loop_unfold. unfold char_turn. cbn [fst].
  destruct (buflen s =? 0) eqn:E; zbool; [exists s; eauto|]. specialize (Hrd 0 ltac:(lia) ltac:(lia)).
  rewrite Z.add_0_r in Hrd. rewrite Hnf, Hrd. cbn [mbind option_bind ch lookup list_lookup default].
  change (isspace 0) with false. rewrite andb_false_r. simpl. eexists. split; [done|]. by right.
Qed.

(** A chunk [t] after spaces, which only the first may have, then the end or a comma. *)
Lemma read_chunk s sp t u :
  input m s.(at_) s.(buflen) (sp ++ t ++ u) -> spaces sp -> hex_digits t -> t <> [] ->
  0 <= s.(totaldigits) -> s.(totaldigits) = 0 \/ (sp = [] /\ isspace s.(cur) = false) ->
  if value 16 t <? 4294967296 then
    exists c, next_chunk m is_user fault s =
        run (Cursor (s.(at_) + len (sp ++ t)) (s.(buflen) - len (sp ++ t)) c (s.(totaldigits) + len t),
             value 16 t, len t) /\ isspace c = false
  else next_chunk m is_user fault s = Some (inr (- EOVERFLOW)).
Proof.
  intros Hi Hsp Ht Hne Htd Hcase. change (next_chunk m is_user fault s) with (run (s, 0, 0)).
  destruct (skip_run s sp (t ++ u) 0 0 Hi Hsp) as (c & -> & Hc). apply input_app in Hi.
  set (s1 := Cursor _ _ _ _). pose proof (digits_run s1 t u 0 0 Hi Ht ltac:(unfold is_u32; lia)) as Hd.
  assert (totaldigits s1 = 0 \/ isspace (cur s1) = false) as Hcond.
  { destruct Hcase as [|[E Es]]; [by left|right]. simpl. by rewrite Hc. }
  specialize (Hd Hcond Htd). cbv zeta in Hd. unfold value in *. destruct (_ <? 4294967296); [|done].
  destruct Hd as (c' & -> & Hc'). exists c'. split; [|by destruct Hc' as [|[? _]]].
  simpl. rewrite length_app. same_cursor.
Qed.

Lemma read_last s sp t tr :
  input m s.(at_) s.(buflen) (sp ++ t ++ tr) -> spaces sp -> tail_ok tr s.(buflen) (len (sp ++ t ++ tr)) ->
  hex_digits t -> t <> [] ->
  0 <= s.(totaldigits) -> s.(totaldigits) = 0 \/ (sp = [] /\ isspace s.(cur) = false) ->
  if value 16 t <? 4294967296 then
    exists s', next_chunk m is_user fault s = Some (inl (s', value 16 t, len t)) /\
      negb (s'.(buflen) =? 0) && (s'.(cur) =? 44) = false
  else next_chunk m is_user fault s = Some (inr (- EOVERFLOW)).
Proof.
  intros Hi Hsp Htr Ht Hne Htd Hcase. pose proof (read_chunk s sp t tr Hi Hsp Ht Hne Htd Hcase) as Hr.
  destruct (value 16 t <? 4294967296); [|done]. destruct Hr as (c & -> & Hc). set (s1 := Cursor _ _ _ _).
  destruct Htr as [Htr|[-> Hn]].
  2:{ rewrite app_assoc in Hi. apply input_app in Hi. rewrite (run_char s1 _ _ 44 [] Hi).
      change (isspace 44) with false. change (cur s1) with c. cbv iota zeta. rewrite Hc, andb_false_r.
      eexists. split; [reflexivity|]. subst s1. cbn [buflen]. rewrite !length_app in *. simpl in Hn.
      rewrite (proj2 (Z.eqb_eq _ 0)) by lia. done. }
  rewrite app_assoc, <- (app_nil_r tr) in Hi. apply input_app in Hi.
  destruct (skip_run s1 tr [] (value 16 t) (len t) Hi Htr) as (c' & -> & _). apply input_app in Hi.
  destruct (end_run (Cursor (at_ s1 + len tr) (buflen s1 - len tr) c' (totaldigits s1)) (value 16 t) (len t) Hi)
    as (s' & -> & Hstop). exists s'. split; [done|]. destruct Hstop as [-> | ->]; [done|by rewrite andb_false_r].
Qed.

Lemma read_next s sp t u :
  input m s.(at_) s.(buflen) (sp ++ t ++ 44 :: u) -> spaces sp -> hex_digits t -> t <> [] ->
  0 <= s.(totaldigits) -> s.(totaldigits) = 0 \/ (sp = [] /\ isspace s.(cur) = false) ->
  if value 16 t <? 4294967296 then
    exists s', next_chunk m is_user fault s = Some (inl (s', value 16 t, len t)) /\
      input m s'.(at_) s'.(buflen) u /\ s'.(cur) = 44 /\ s'.(totaldigits) = s.(totaldigits) + len t /\
      s'.(buflen) = s.(buflen) - len (sp ++ t) - 1
  else next_chunk m is_user fault s = Some (inr (- EOVERFLOW)).
Proof.
  intros Hi Hsp Ht Hne Htd Hcase. pose proof (read_chunk s sp t _ Hi Hsp Ht Hne Htd Hcase) as Hr.
  destruct (value 16 t <? 4294967296); [|done]. destruct Hr as (c & -> & Hc).
  rewrite app_assoc in Hi. apply input_app in Hi. set (s1 := Cursor _ _ _ _).
  rewrite (run_char s1 _ _ 44 u Hi). change (isspace 44) with false. change (cur s1) with c. cbv iota zeta.
  rewrite Hc, andb_false_r. eexists. split; [reflexivity|]. split; [|done]. exact (input_app m _ _ [44] _ Hi).
Qed.

Context (d0 : list Z) (bits : Z).
Context (Hd0 : bitmap_ok d0 bits) (Hbits : 0 < bits < 2147483616).

(** The chunks are words and their number has at most [bits] bits. *)
Definition fits_map (V : Z) (cs : list (list Z)) : bool :=
  forallb (fun c => value 16 c <? 4294967296) cs && (total V cs <? 2 ^ bits).

Definition chunks_ok (cs : list (list Z)) : Prop :=
  Forall (fun c => hex_digits c /\ Forall (fun c => 0 < c < 256) c /\ c <> []) cs.

Lemma total_ge V cs : chunks_ok cs -> 0 <= V -> V <= total V cs.
Proof.
  intros Hcs. revert V. induction Hcs as [|c cs (Hx & Hb & _) Hcs IH]; intros V HV; [done|]. unfold total in *. simpl.
  pose proof (fold_hex_ge c 0 Hx Hb ltac:(lia)) as Hv. fold (value 16 c) in Hv.
  etransitivity; [|apply IH; lia]. lia.
Qed.

Lemma total_cons V c cs : total V (c :: cs) = total (V * 4294967296 + value 16 c) cs.
Proof. done. Qed.

Lemma fits_cons V c cs :
  fits_map V (c :: cs) = (value 16 c <? 4294967296) && fits_map (V * 4294967296 + value 16 c) cs.
Proof. unfold fits_map. rewrite total_cons. cbn [forallb]. by rewrite andb_assoc. Qed.

Lemma fits_big V cs : chunks_ok cs -> 0 <= V -> 2 ^ bits <= V -> fits_map V cs = false.
Proof.
  intros Hcs HV Hb. unfold fits_map. pose proof (total_ge V cs Hcs HV).
  rewrite (proj2 (Z.ltb_ge _ (2 ^ bits))) by lia. apply andb_false_r.
Qed.

Lemma accept_loop cs c sp tr d s nchunks nbits V fuel :
  input m s.(at_) s.(buflen) (sp ++ join (c :: cs) ++ tr) -> spaces sp ->
  tail_ok tr s.(buflen) (len (sp ++ join (c :: cs) ++ tr)) -> chunks_ok (c :: cs) ->
  0 <= s.(totaldigits) -> s.(totaldigits) = 0 \/ (sp = [] /\ isspace s.(cur) = false) ->
  holds d0 d bits V -> counted nchunks nbits V -> nbits <= bits -> (length cs < fuel)%nat ->
  exists d', loop fuel (parse_turn m is_user fault bits) (d, s, nchunks, nbits) =
      Some (d', if fits_map V (c :: cs) then 0 else - EOVERFLOW) /\
    (fits_map V (c :: cs) = true -> holds d0 d' bits (total V (c :: cs))).
Proof.
  revert c sp d s nchunks nbits V fuel.
  induction cs as [|c2 cs IH]; intros c sp d s nchunks nbits V [|fuel] Hi Hsp Htr Hcs Htd Hcase Hh Hcnt Hnb Hf;
    [lia| |simpl in Hf; lia|]; inversion Hcs as [|? ? (Hx & Hb & Hne) Hcs']; subst; rewrite loop_unfold; unfold parse_turn at 1;
    destruct (counted_nonneg _ _ _ Hcnt) as (HV & _); pose proof (fold_hex_ge c 0 Hx Hb ltac:(lia)) as Hv0;
    fold (value 16 c) in Hv0; assert (0 < len c) as Hlc by (destruct c; [done|simpl; lia]).
  - pose proof (read_last s sp c tr Hi Hsp Htr Hx Hne Htd Hcase) as Hr. rewrite fits_cons, total_cons.
    destruct (value 16 c <? 4294967296) eqn:Ev; zbool; [|rewrite Hr; by exists d].
    destruct Hr as (s' & -> & Hstop). cbn [mbind option_bind]. rewrite (proj2 (Z.eqb_neq (len c) 0)), andb_true_l by lia.
    destruct (after_chunk d0 d bits V (value 16 c) nchunks nbits s') as (d' & nc' & nb' & Hh' & Hcnt' & -> & Hbig);
      [done..|unfold is_u32; lia|done|done|].
    rewrite Hstop. exists d'. destruct (bits <? nb') eqn:Eo; zbool.
    + by rewrite fits_big by (done || lia || by apply Hbig).
    + unfold fits_map. simpl forallb. cbn [total fold_left andb]. destruct (counted_nonneg _ _ _ Hcnt') as (_ & ? & ?).
      pose proof (Z.pow_le_mono_r 2 nb' bits ltac:(lia) ltac:(lia)). by rewrite (proj2 (Z.ltb_lt _ (2 ^ bits))) by lia.
  - change (join (c :: c2 :: cs)) with (c ++ 44 :: join (c2 :: cs)) in Hi. rewrite <- (app_assoc c) in Hi.
    pose proof (read_next s sp c _ Hi Hsp Hx Hne Htd Hcase) as Hr. rewrite fits_cons, total_cons.
    destruct (value 16 c <? 4294967296) eqn:Ev; zbool; [|rewrite Hr; by exists d].
    destruct Hr as (s' & -> & Hi' & Hcur & Htd' & Hbl'). cbn [mbind option_bind].
    rewrite (proj2 (Z.eqb_neq (len c) 0)), andb_true_l by lia.
    destruct (after_chunk d0 d bits V (value 16 c) nchunks nbits s') as (d' & nc' & nb' & Hh' & Hcnt' & -> & Hbig);
      [done..|unfold is_u32; lia|done|done|].
    destruct (bits <? nb') eqn:Eo; zbool; [exists d'; by rewrite fits_big by (done || lia || by apply Hbig)|].
    assert (buflen s' <> 0) as Hb2.
    { inversion Hcs' as [|? ? (_ & _ & Hne2) _]; subst. destruct c2 as [|x c2]; [done|].
      destruct cs; (eapply (input_head m (at_ s') (buflen s') x) in Hi'; lia). }
    rewrite (proj2 (Z.eqb_neq _ 0)), Hcur by done. change (negb false && (44 =? 44)) with true. cbv iota.
    apply (IH c2 [] d' s' nc' nb'); [done|constructor| |done|lia|right; by rewrite Hcur|done|done|done|simpl in Hf; lia].
    destruct Htr as [|[-> Hn]]; [by left|right]. split; [done|]. rewrite Hbl', Hn.
    change (join (c :: c2 :: cs)) with (c ++ 44 :: join (c2 :: cs)). cbn [app].
    rewrite !length_app. cbn [length]. rewrite ?length_app. cbn [length]. lia.
Qed.

Lemma bitmap_parse_accepts buf n sp cs tr :
  input m buf n (sp ++ join cs ++ tr) -> spaces sp -> tail_ok tr n (len (sp ++ join cs ++ tr)) ->
  chunks_ok cs -> cs <> [] ->
  exists d, __bitmap_parse m buf n is_user fault d0 bits = Some (d, if fits_map 0 cs then 0 else - EOVERFLOW) /\
    (fits_map 0 cs = true -> holds d0 d bits (total 0 cs)).
Proof.
  intros Hi Hsp Htr Hcs Hne. unfold __bitmap_parse.
  destruct (image_start d0 bits (fun _ _ => False) Hd0 ltac:(lia)) as (d & -> & Hl & Hu & Hz). cbn [mbind option_bind].
  destruct cs as [|c cs]; [done|]. apply (accept_loop cs c sp tr); try done; [by left| |lia|].
  - split; [done|]. split; [done|]. intros i Hi'. rewrite Z.bits_0. apply not_true_iff_false.
    rewrite Hz by (unfold longs; lia). intros (k & Hk & _). lia.
  - assert (forall cs c, chunks_ok (c :: cs) -> (length cs < length (join (c :: cs)))%nat) as Hlen.
    { clear. intros cs. induction cs as [|c2 cs IH]; intros c Hc; inversion Hc as [|? ? (_ & _ & Hn) Hc']; subst.
      - destruct c; [done|simpl; lia].
      - change (join (c :: c2 :: cs)) with (c ++ 44 :: join (c2 :: cs)). rewrite length_app. cbn [length].
        specialize (IH c2 Hc'). lia. }
    destruct Hi as (_ & Hle & _). rewrite !length_app in Hle. specialize (Hlen cs c Hcs). lia.
Qed.
End accepts.

(** * Nothing else is accepted *)

(** The chunks [cs] as a text of a buffer of [n] bytes. *)
Definition hex_syntax (n : Z) (t : list Z) (cs : list (list Z)) : Prop :=
  exists sp tr, t = sp ++ join cs ++ tr /\ spaces sp /\ tail_ok tr n (len t) /\ chunks_ok cs /\ cs <> [].

(** Chunks, each with its comma. *)
Definition commas (cs : list (list Z)) : list Z := concat ((fun c => c ++ [44]) <$> cs).

Lemma commas_snoc cs c : commas (cs ++ [c]) = commas cs ++ c ++ [44].
Proof. unfold commas. rewrite fmap_app, concat_app. simpl. by rewrite app_nil_r. Qed.

Lemma join_snoc cs c : join (cs ++ [c]) = commas cs ++ c.
Proof.
  induction cs as [|x cs IH]; [done|]. unfold commas in *. cbn [fmap list_fmap concat app]. rewrite <- !app_assoc.
  destruct cs as [|y cs]; [done|]. cbn [app] in *. rewrite <- IH. done.
Qed.

Section syntax.
Context (m : mem) (buf n : Z) (t : list Z) (is_user : bool) (fault : Z -> bool).
Context (Hin : input m buf n t).

(** The input [s] at the position [k], after the text [u] of leading spaces [sp], the chunks [cs] with their
    commas, the digits [c] of the current chunk and the spaces [tr]. *)
Definition consumed (s : cursor) (k : Z) (sp : list Z) (cs : list (list Z)) (c tr : list Z) : Prop :=
  0 <= k <= len t /\ s.(at_) = buf + k /\ s.(buflen) = n - k /\
  take (Z.to_nat k) t = sp ++ commas cs ++ c ++ tr /\
  spaces sp /\ Forall (fun c => hex_digits c /\ c <> []) cs /\ hex_digits c /\ spaces tr /\
  0 <= s.(totaldigits) /\ (s.(totaldigits) = 0 -> cs = [] /\ c = []) /\
  (tr <> [] -> s.(totaldigits) <> 0 /\ isspace s.(cur) = true).

Ltac consumed_parts :=
  unfold consumed; cbn [fst snd at_ buflen totaldigits cur]; split_and!; try done; try lia; try (by constructor).

Definition in_chunk (cs : list (list Z)) (st : cursor * Z * Z) : Prop :=
  exists k sp c tr, consumed st.1.1 k sp cs c tr /\ st.2 = len c.

(** A chunk ends with the text, or at a comma. *)
Definition chunk_ended (cs : list (list Z)) (r : (cursor * Z * Z) + Z) : Prop :=
  match r with
  | inr e => e <> 0
  | inl (s, _, nd) => exists sp c tr, nd = len c /\ spaces sp /\ hex_digits c /\
      ((t = sp ++ commas cs ++ c ++ tr /\ spaces tr /\ negb (s.(buflen) =? 0) && (s.(cur) =? 44) = false) \/
       (c <> [] -> s.(cur) = 44 /\ exists k, consumed s k sp (cs ++ [c]) [] []))
  end.

(** One more character. *)
Lemma consumed_take s k sp cs c tr :
  consumed s k sp cs c tr -> k < len t -> take (Z.to_nat (k + 1)) t = sp ++ commas cs ++ c ++ tr ++ [ch t k].
Proof.
  intros (Hk & _ & _ & Ht & _) Hlt. rewrite take_ch, Ht by lia. by rewrite <- !app_assoc.
Qed.

(** A space goes to the leading ones before the first digit, and to the trailing ones after it. *)
Lemma consumed_space s k sp cs c tr :
  consumed s k sp cs c tr -> k < len t -> isspace (ch t k) = true ->
  exists sp' tr', consumed (Cursor (at_ s + 1) (buflen s - 1) (ch t k) (totaldigits s)) (k + 1) sp' cs c tr'.
Proof.
  intros Hc Hlt Hs. pose proof (consumed_take _ _ _ _ _ _ Hc Hlt) as Hk'.
  destruct Hc as (Hk & Hat & Hbl & Ht & Hsp & Hcs & Hd & Htr & Htd & Hz & Hne).
  destruct (decide (totaldigits s = 0)) as [E|E].
  - destruct (Hz E) as [-> ->]. assert (tr = []) as -> by (destruct tr; [done|by destruct Hne]).
    exists (sp ++ [ch t k]), []. consumed_parts.
    + rewrite Hk'. unfold commas. simpl. by rewrite app_nil_r.
    + apply Forall_app. split; [done|]. by constructor.
  - exists sp, (tr ++ [ch t k]). consumed_parts.
    apply Forall_app. split; [done|]. by constructor.
Qed.

Lemma char_turn_syntax cs st r :
  in_chunk cs st -> char_turn m is_user fault st = Some r ->
  match r with Next st' => in_chunk cs st' | Ret r => chunk_ended cs r end.
Proof.
  pose proof Hin as (Hchars & Hlen & Hrd). destruct st as [[s chunk] nd]. intros (k & sp & c & tr & Hc & Hnd). simpl in Hc, Hnd.
  pose proof Hc as (Hk & Hat & Hbl & Ht & Hsp & Hcs & Hd & Htr & Htd & Hz & Hne). unfold char_turn.
  destruct (buflen s =? 0) eqn:E; zbool.
  { intros [= <-]. exists sp, c, tr. split_and!; try done. left. rewrite take_ge in Ht by lia. split_and!; [done|done|].
    by rewrite E. }
  destruct (is_user && fault (at_ s)); [by intros [= <-]|]. rewrite Hat, Hrd by lia. cbn [mbind option_bind totaldigits].
  destruct (isspace (ch t k)) eqn:Es.
  { assert (k < len t) as Hlt by (destruct (decide (k = len t)) as [->|]; [by rewrite ch_end in Es|lia]).
    destruct (consumed_space _ _ _ _ _ _ Hc Hlt Es) as (sp' & tr' & Hc'). intros [= <-].
    exists (k + 1), sp', c, tr'. simpl. rewrite <- Hat. by split. }
  destruct (_ && _ && isspace (cur s)) eqn:Ee; [by intros [= <-]|].
  assert (ch t k <> 0 -> k < len t /\ tr = []) as Hgo.
  { intros H0. split; [destruct (decide (k = len t)) as [->|]; [by rewrite ch_end in H0|lia]|].
    destruct tr as [|x tr]; [done|]. destruct Hne as [Ht0 Hsc]; [done|].
    rewrite Hsc, (proj2 (Z.eqb_neq _ 0)), (proj2 (Z.eqb_neq _ 0)) in Ee by done. done. }
  destruct ((ch t k =? 0) || (ch t k =? 44)) eqn:Et.
  { intros [= <-]. exists sp, c, tr. split_and!; try done. apply orb_true_iff in Et as [Et|Et]; zbool.
    - left. assert (k = len t) as ->.
      { destruct (decide (k = len t)); [done|]. unfold ch in Et.
        destruct (t !! Z.to_nat k) as [x|] eqn:Ex; [|apply lookup_ge_None in Ex; lia].
        pose proof (Forall_lookup_1 _ _ _ _ Hchars Ex). simpl in *. lia. }
      rewrite take_ge in Ht by lia. split; [done|]. split; [done|]. cbn [buflen cur]. by rewrite Et, andb_false_r.
    - right. intros Hcne. destruct Hgo as [Hlt ->]; [lia|]. pose proof (consumed_take _ _ _ _ _ _ Hc Hlt) as Hk'.
      split; [done|]. exists (k + 1). consumed_parts.
      + rewrite Hk', commas_snoc, Et. simpl. by rewrite <- !app_assoc, app_nil_r.
      + apply Forall_app. split; [done|]. by constructor.
      + intros H0. destruct (Hz H0). by subst c. }
  apply orb_false_iff in Et as [E0 E44]. zbool. destruct (isxdigit (ch t k)) eqn:Ex; [|by intros [= <-]]. cbn [negb].
  destruct (negb (Z.land _ _ =? 0)); intros Hr; injection Hr as <-; [done|].
  destruct Hgo as [Hlt ->]; [done|]. pose proof (consumed_take _ _ _ _ _ _ Hc Hlt) as Hk'.
  exists (k + 1), sp, (c ++ [ch t k]), []. cbn [fst snd]. split; [|rewrite length_app; simpl; lia].
  consumed_parts.
  - rewrite Hk'. simpl. by rewrite app_nil_r.
  - apply Forall_app. split; [done|]. by constructor.
Qed.

Definition between_chunks (st : list Z * cursor * Z * Z) : Prop := exists k sp cs, consumed st.1.1.2 k sp cs [] [].

Lemma consumed_chars sp cs c tr u :
  t = sp ++ commas cs ++ c ++ tr ++ u -> Forall (fun c => hex_digits c /\ c <> []) cs -> hex_digits c -> c <> [] ->
  chunks_ok (cs ++ [c]).
Proof.
  pose proof Hin as (Hchars & _). intros Ht Hcs Hc Hne. rewrite Ht in Hchars. apply Forall_app in Hchars as [_ Hch].
  apply Forall_app in Hch as [H1 H2]. apply Forall_app in H2 as [H2 _]. apply Forall_app. split; [|by constructor].
  clear Ht Hin. induction Hcs as [|x cs [Hx Hxne] _ IH]; [constructor|]. unfold commas in H1. cbn [fmap list_fmap concat] in H1.
  apply Forall_app in H1 as [Hx1 H1]. apply Forall_app in Hx1 as [Hx1 _]. constructor; [done|by apply IH].
Qed.

Lemma add_chunk_goes bits d s nchunks nbits chunk r :
  add_chunk bits d s nchunks nbits chunk = Some r ->
  let again := negb (s.(buflen) =? 0) && (s.(cur) =? 44) in
  match r with Next st' => st'.1.1.2 = s /\ again = true | Ret r => r.2 = 0 -> again = false end.
Proof.
  unfold add_chunk. set (again := negb _ && _). clearbody again. destruct ((nchunks =? 0) && (chunk =? 0)).
  { intros Hr. injection Hr as <-. by destruct again. }
  destruct (__bitmap_shift_left _ _ _ _) as [d1|]; [|done]. cbn [mbind option_bind].
  destruct (rd d1 0) as [w|]; [|done]. cbn [mbind option_bind]. destruct (wr d1 0 _) as [d2|]; [|done].
  cbn [mbind option_bind]. destruct (bits <? _); intros Hr; injection Hr as <-; [done|by destruct again].
Qed.

Lemma parse_turn_syntax bits st r :
  between_chunks st -> parse_turn m is_user fault bits st = Some r ->
  match r with Next st' => between_chunks st' | Ret r => r.2 = 0 -> exists cs, hex_syntax n t cs end.
Proof.
  destruct st as [[[d s] nchunks] nbits]. intros (k & sp & cs & Hc). simpl in Hc. unfold parse_turn.
  destruct (next_chunk m is_user fault s) as [x|] eqn:En; [|done]. cbn [mbind option_bind].
  assert (chunk_ended cs x) as Hx.
  { apply (loop_partial (in_chunk cs) (chunk_ended cs) _ _ _ _ (char_turn_syntax cs)) in En; [done|].
    exists k, sp, [], []. by split. }
  pose proof Hc as (_ & _ & _ & _ & _ & Hcs & _).
  destruct x as [[[s' chunk] nd]|e]; [|by intros [= <-]].
  destruct (nd =? 0) eqn:E; zbool; [by intros [= <-]|]. destruct Hx as (sp' & c & tr & -> & Hsp & Hd & Hcase).
  assert (c <> []) as Hne by (by intros ->). intros Ha. apply add_chunk_goes in Ha. cbv zeta in Ha.
  destruct Hcase as [(Ht & Htr & Hno)|Hcomma].
  - destruct r as [st'|r]; [destruct Ha; congruence|]. intros _. exists (cs ++ [c]), sp', tr.
    split; [by rewrite join_snoc, <- app_assoc|]. split; [done|]. split; [by left|]. split; [|by destruct cs].
    apply (consumed_chars sp' cs c tr []); [by rewrite app_nil_r|done..].
  - destruct (Hcomma Hne) as (Hcur & k' & Hc'). destruct r as [st'|r].
    { destruct Ha as [Hs _]. exists k', sp', (cs ++ [c]). by rewrite Hs. }
    intros Hr. specialize (Ha Hr). rewrite Hcur, andb_true_r in Ha. apply negb_false_iff in Ha. zbool.
    destruct Hc' as (Hk & _ & Hbl & Ht & _). pose proof Hin as (_ & Hlen & _). rewrite take_ge in Ht by lia.
    rewrite commas_snoc in Ht. simpl in Ht. rewrite app_nil_r in Ht. exists (cs ++ [c]), sp', [44].
    split; [by rewrite join_snoc, <- app_assoc|]. split; [done|]. split; [right; split; [done|lia]|].
    split; [|by destruct cs]. by apply (consumed_chars sp' cs c [] [44]).
Qed.

(** A text that is accepted is a list of chunks. *)
Lemma bitmap_parse_syntax d0 bits d :
  __bitmap_parse m buf n is_user fault d0 bits = Some (d, 0) -> exists cs, hex_syntax n t cs.
Proof.
  unfold __bitmap_parse. destruct (bitmap_zero d0 bits) as [d1|]; [|done]. cbn [mbind option_bind]. intros Hp.
  pose proof Hin as (_ & Hlen & _).
  refine (loop_partial between_chunks (fun r => r.2 = 0 -> exists cs, hex_syntax n t cs) _ _ _ _
    (parse_turn_syntax bits) _ Hp eq_refl).
  exists 0, [], []. consumed_parts.
Qed.
End syntax.

(** * Reading back what bitmap_scnprintf prints *)

Fixpoint chunk_list (a : list Z) (bits : Z) (k : nat) : list (list Z) :=
  match k with
  | O => []
  | S k => hex_pad ((chunk_bits bits (Z.of_nat k) + 3) / 4) (chunk_val a bits (Z.of_nat k)) :: chunk_list a bits k
  end.

Lemma hex_chunks_join a bits k : hex_chunks a bits k = join (chunk_list a bits k).
Proof.
  induction k as [|k IH]; [done|]. cbn [hex_chunks chunk_list]. rewrite IH. destruct k; [apply app_nil_r|done].
Qed.

Lemma hex_pad_ok w v :
  0 <= v < 4294967296 ->
  value 16 (hex_pad w v) = v /\ hex_digits (hex_pad w v) /\ Forall (fun c => 0 < c < 256) (hex_pad w v) /\
  hex_pad w v <> [].
Proof.
  intros Hv. unfold hex_pad. set (z := w - _). clearbody z.
  destruct (digit_text_value 16 32 v) as (Hval & Hd & Hl); [by right|lia|lia|].
  assert (value 16 (reps z 48) = 0) as Hz.
  { unfold value, reps. induction (Z.to_nat z) as [|k IH]; [done|]. exact IH. }
  split; [|split; [|split]].
  - by rewrite value_app, Hz.
  - apply Forall_app. split; [by apply Forall_replicate|]. eapply Forall_impl; [|exact Hd]. unfold is_digit.
    intros c Hc. by apply andb_true_iff in Hc as [? _].
  - apply Forall_app. split; [apply Forall_replicate; lia|]. apply digit_text_chars; [by right|lia].
  - intros Hn. apply app_eq_nil in Hn as [_ Hn]. rewrite Hn in Hl. simpl in Hl. lia.
Qed.

Lemma chunk_list_ok a bits k : 32 * (Z.of_nat k - 1) < bits -> chunks_ok (chunk_list a bits k).
Proof.
  induction k as [|k IH]; intros Hk; cbn [chunk_list]; constructor; [|apply IH; lia].
  destruct (hex_pad_ok ((chunk_bits bits (Z.of_nat k) + 3) / 4) (chunk_val a bits (Z.of_nat k))) as (_ & H1 & H2 & H3);
    [|done]. apply chunk_val_range. unfold chunk_bits. lia.
Qed.

Lemma chunk_list_words a bits k :
  32 * (Z.of_nat k - 1) < bits -> forallb (fun c => value 16 c <? 4294967296) (chunk_list a bits k) = true.
Proof.
  induction k as [|k IH]; intros Hk; [done|]. cbn [chunk_list forallb]. rewrite IH, andb_true_r by lia.
  destruct (chunk_val_range a bits (Z.of_nat k)) as [Hv _]; [unfold chunk_bits; lia|].
  destruct (hex_pad_ok ((chunk_bits bits (Z.of_nat k) + 3) / 4) _ Hv) as (-> & _). apply Z.ltb_lt. lia.
Qed.

(** The number of the chunks has the bits of the map. *)
Lemma total_testbit a bits k V i :
  32 * (Z.of_nat k - 1) < bits -> 0 <= V -> 0 <= i ->
  Z.testbit (total V (chunk_list a bits k)) i =
  if i <? 32 * Z.of_nat k then Z.testbit (chunk_val a bits (i / 32)) (i mod 32)
  else Z.testbit V (i - 32 * Z.of_nat k).
Proof.
  revert V. induction k as [|k IH]; intros V Hk HV Hi; cbn [chunk_list].
  - rewrite (proj2 (Z.ltb_ge _ _)) by lia. simpl. f_equal. lia.
  - assert (0 <= chunk_bits bits (Z.of_nat k)) as Hcb by (unfold chunk_bits; lia).
    pose proof (chunk_val_range a bits (Z.of_nat k) Hcb) as [Hv _].
    rewrite total_cons. destruct (hex_pad_ok ((chunk_bits bits (Z.of_nat k) + 3) / 4) _ Hv) as (-> & _).
    rewrite IH by lia. destruct (i <? 32 * Z.of_nat k) eqn:E; zbool.
    { by rewrite (proj2 (Z.ltb_lt _ _)) by lia. }
    rewrite push_testbit by (done || lia). destruct (i - _ <? 32) eqn:E2; zbool.
    + rewrite (proj2 (Z.ltb_lt _ _)) by lia. f_equal; [f_equal|]; lia.
    + rewrite (proj2 (Z.ltb_ge _ _)) by lia. f_equal. lia.
Qed.

Lemma below_of_bits x b : 0 <= x -> 0 <= b -> (forall i, b <= i -> Z.testbit x i = false) -> x < 2 ^ b.
Proof.
  intros Hx Hb H. replace x with (x mod 2 ^ b); [apply Z.mod_pos_bound, Z.pow_pos_nonneg; lia|].
  apply Z.bits_inj'. intros i Hi. destruct (Z_lt_ge_dec i b).
  - by rewrite Z.mod_pow2_bits_low by lia.
  - rewrite Z.mod_pow2_bits_high by lia. symmetry. apply H. lia.
Qed.

Lemma map_number a bits :
  bitmap_ok a bits -> 0 < bits ->
  let V := total 0 (chunk_list a bits (Z.to_nat (longs bits))) in
  0 <= V < 2 ^ bits /\ forall i, 0 <= i < bits -> Z.testbit V i = bit_at a i.
Proof.
  intros Hok Hb V. set (k := Z.to_nat (longs bits)) in *.
  assert (Z.of_nat k = longs bits) as Hk by (subst k; unfold longs; lia).
  assert (32 * (longs bits - 1) < bits <= 32 * longs bits) as Hl by (unfold longs; lia).
  assert (0 <= V) as HV by (apply (total_ge 0); [apply chunk_list_ok|]; lia).
  assert (forall i, 0 <= i -> Z.testbit V i = bool_decide (i < bits) && bit_at a i) as Hbit.
  { intros i Hi. subst V. rewrite total_testbit, Hk, Z.bits_0 by lia. destruct (i <? _) eqn:E; zbool.
    - unfold chunk_val, bit_at. case_bool_decide.
      + rewrite Z.mod_pow2_bits_low by (unfold chunk_bits; lia). done.
      + rewrite Z.mod_pow2_bits_high; [done|]. unfold chunk_bits. lia.
    - by rewrite bool_decide_eq_false_2 by lia. }
  split; [split; [done|]|].
  - apply below_of_bits; [done|lia|]. intros i Hi. rewrite Hbit by lia. by rewrite bool_decide_eq_false_2 by lia.
  - intros i Hi. rewrite Hbit by lia. by rewrite bool_decide_eq_true_2 by lia.
Qed.

Lemma join_chars cs : chunks_ok cs -> Forall (fun c => 0 < c < 256) (join cs).
Proof.
  intros Hcs. induction Hcs as [|c cs (_ & Hc & _) Hcs IH]; [done|]. destruct cs; [done|].
  change (join (c :: _ :: cs)) with (c ++ 44 :: join (l :: cs)). apply Forall_app. split; [done|]. by constructor; [lia|].
Qed.

(** A text that fits in the buffer is a string there. *)
Lemma out_fits m buf n T :
  buffer_ok m buf n -> Forall (fun c => 0 < c < 256) T -> len T < n ->
  (out m buf n T).2 = len T /\ cstr (out m buf n T).1 buf T.
Proof.
  intros (Hn & [Hb Hr] & _) HT Hl. split; [simpl; lia|]. simpl.
  pose proof (delivered_cstr m buf n T HT ltac:(lia) ltac:(split; lia)) as H. by rewrite take_ge in H by lia.
Qed.

Lemma hex_readback m buf n a d0 bits :
  buffer_ok m buf n -> bitmap_ok a bits -> bitmap_ok d0 bits -> 0 < bits < 2147483616 ->
  len (hex_text a bits) < n ->
  exists d, bitmap_parse (out m buf n (hex_text a bits)).1 buf n d0 bits = Some (d, 0) /\
    forall i, 0 <= i < bits -> bit_at d i = bit_at a i.
Proof.
  intros Hbuf Ha Hd0 Hb Hl. set (cs := chunk_list a bits (Z.to_nat (longs bits))).
  assert (0 < longs bits /\ 32 * (longs bits - 1) < bits) as Hlg by (unfold longs; lia).
  assert (chunks_ok cs) as Hcs by (apply chunk_list_ok; lia).
  assert (hex_text a bits = join cs) as HT by apply hex_chunks_join.
  destruct (out_fits m buf n (hex_text a bits) Hbuf) as (_ & Hc & Hp & Hrd); [rewrite HT; by apply join_chars|done|].
  destruct (map_number a bits Ha ltac:(lia)) as [Hrange Hbits]. fold cs in Hrange, Hbits.
  assert (fits_map bits 0 cs = true) as Hfit.
  { unfold fits_map. rewrite (proj2 (Z.ltb_lt _ (2 ^ bits))), andb_true_r by lia. apply chunk_list_words. lia. }
  destruct (bitmap_parse_accepts (out m buf n (hex_text a bits)).1 false (fun _ => false) ltac:(done) d0 bits Hd0 Hb
    buf n [] cs []) as (d & Hd & Hh); [|by constructor|by left|done| |].
  - simpl. rewrite app_nil_r, <- HT. split; [done|]. split; [lia|]. intros k Hk _. by apply Hrd.
  - subst cs. destruct (Z.to_nat (longs bits)) eqn:E; [lia|done].
  - rewrite Hfit in Hd, Hh. exists d. split; [exact Hd|]. destruct (Hh eq_refl) as (_ & _ & Hhb).
    intros i Hi. by rewrite Hhb, Hbits.
Qed.
