(* ===== verification/BitmapList.v ===== *)
(** bitmap_parselist: the grammar of the lists of ranges, that the parser accepts exactly it and
    sets the bits of the ranges, and that it reads back what bitmap_scnlistprintf prints; and the
    properties of the text formats as a whole. *)

From S2P Require Import Prelude Word FindBit Bitmap BitmapMap Str StrSpec StrCopy Vsprintf VsprintfNum.
From S2P Require Import VsprintfParse VsprintfFmt VsprintfOut BitmapText BitmapPrint BitmapHex.
From Stdlib Require Import Lia.

Implicit Types (m : mem) (d t u : list Z) (R : list (Z * Z)).

(** * The grammar *)

(** A number beyond the 32 bits is read modulo 2^32. *)
Definition dec_number (t : list Z) (v : Z) : Prop :=
  t <> [] /\ Forall (fun c => is_digit 10 c = true) t /\ v = u32 (value 10 t).

Definition range_syntax (t : list Z) (r : Z * Z) : Prop :=
  (dec_number t r.1 /\ r.2 = r.1) \/
  exists t1 t2, t = t1 ++ 45 :: t2 /\ dec_number t1 r.1 /\ dec_number t2 r.2.

(** The end of the string, or of the first line. *)
Definition line_end (t : list Z) : Prop := ch t 0 = 0 \/ ch t 0 = 10.

Inductive list_syntax : list Z -> list (Z * Z) -> Prop :=
| ls_last t r u : range_syntax t r -> line_end u -> list_syntax (t ++ u) [r]
| ls_comma t r u : range_syntax t r -> line_end u -> list_syntax (t ++ 44 :: u) [r]
| ls_more t r u R : range_syntax t r -> list_syntax u R -> list_syntax (t ++ 44 :: u) (r :: R).

(** The first range that is not one of the map gives the error. *)
Fixpoint verdict (bits : Z) (R : list (Z * Z)) : Z :=
  match R with
  | [] => 0
  | (a, b) :: R => if b <? a then - EINVAL else if bits <=? b then - ERANGE else verdict bits R
  end.

Definition covered (R : list (Z * Z)) (i : Z) : bool := existsb (fun r => (r.1 <=? i) && (i <=? r.2)) R.

(** * One range *)

Lemma digit_bytes : all_below 256 (fun c => Bool.eqb (isdigit c) (is_digit 10 c)) = true.
Proof. vm_compute. done. Qed.

Lemma isdigit_10 c : 0 <= c < 256 -> isdigit c = is_digit 10 c.
Proof. intros Hc. apply eqb_prop. exact (all_below_spec _ _ digit_bytes c ltac:(lia)). Qed.

Lemma strtoul_dec m p s :
  cstr m p s ->
  exists k, prefix_len (fun c => is_digit 10 c = true) s k /\
    simple_strtoul m p BASEDEC = Some (u32 (value 10 (take (Z.to_nat k) s)), p + k).
Proof.
  intros Hs. destruct (simple_strtoull_spec m p s 10 Hs) as (k & Hk & Hp).
  change (prefix_skip 10 s) with 0 in *. change (effective_base 10 s) with 10 in *. simpl drop in *.
  exists k. split; [done|]. unfold simple_strtoul, BASEDEC. rewrite Hp. cbn [mbind option_bind]. do 2 f_equal; [|lia].
  unfold u32, u64. apply Z.mod_mod_divide. by exists 4294967296.
Qed.

Lemma prefix_digits s k :
  prefix_len (fun c => is_digit 10 c = true) s k ->
  Forall (fun c => is_digit 10 c = true) (take (Z.to_nat k) s) /\ is_digit 10 (ch s k) = false.
Proof.
  intros (Hk & Hin & Hout). split.
  - apply Forall_lookup_2. intros i x Hi. apply lookup_take_Some in Hi as [Hi Hlt].
    specialize (Hin (Z.of_nat i) ltac:(lia)). unfold ch in Hin. by rewrite Nat2Z.id, Hi in Hin.
  - destruct (decide (k = len s)) as [->|]; [by rewrite ch_end|]. apply not_true_iff_false, Hout. lia.
Qed.

Lemma cstr_split m p t u : cstr m p (t ++ u) -> cstr m (p + len t) u.
Proof.
  intros Hs. pose proof (cstr_drop m p _ (len t) Hs) as H. rewrite length_app, Nat2Z.id, drop_app_length in H. apply H. lia.
Qed.

Lemma digit_head m p t u : cstr m p (t ++ u) -> Forall (fun c => is_digit 10 c = true) t -> t <> [] ->
  rd m p = Some (ch (t ++ u) 0) /\ isdigit (ch (t ++ u) 0) = true.
Proof.
  intros Hs Ht Hne. split; [by apply cstr_rd0|]. destruct t as [|c t]; [done|]. inversion Ht; subst.
  destruct Hs as (Hc & _). inversion Hc; subst. change (ch ((c :: t) ++ u) 0) with c. by rewrite isdigit_10 by lia.
Qed.

(** A decimal number is read to its end. *)
Lemma read_number m p t u v :
  cstr m p (t ++ u) -> dec_number t v -> is_digit 10 (ch u 0) = false ->
  simple_strtoul m p BASEDEC = Some (v, p + len t).
Proof.
  intros Hs (Hne & Hd & ->) Hu. destruct (strtoul_dec m p _ Hs) as (k & Hk & ->).
  apply prefix_len_app in Hk; [|done|done]. subst k. by rewrite Nat2Z.id, take_app_length.
Qed.

Lemma parse_range_ok m p t u r :
  cstr m p (t ++ u) -> range_syntax t r -> ch u 0 = 0 \/ ch u 0 = 10 \/ ch u 0 = 44 ->
  parse_range m p = Some (Some (r.1, r.2, p + len t)).
Proof.
  intros Hs Hr Hu. unfold parse_range.
  assert (is_digit 10 (ch u 0) = false /\ (ch u 0 =? 45) = false) as [Hnd Hn45]
    by (destruct Hu as [-> | [-> | ->]]; done).
  destruct Hr as [[Hn ->]|(t1 & t2 & -> & Hn1 & Hn2)].
  - pose proof Hn as (Hne & Hd & _). destruct (digit_head m p t u Hs Hd Hne) as [-> Hh].
    cbn [mbind option_bind]. rewrite Hh. simpl negb. cbv iota. rewrite (read_number m p t u r.1) by done.
    cbn [mbind option_bind]. rewrite (cstr_rd0 _ _ _ (cstr_split m p t u Hs)). cbn [mbind option_bind]. by rewrite Hn45.
  - pose proof Hn1 as (Hne & Hd & _). rewrite <- app_assoc in Hs. simpl in Hs.
    destruct (digit_head m p t1 _ Hs Hd Hne) as [-> Hh]. cbn [mbind option_bind]. rewrite Hh. simpl negb. cbv iota.
    rewrite (read_number m p t1 (45 :: t2 ++ u) r.1) by done. apply cstr_split in Hs.
    cbn [mbind option_bind]. rewrite (cstr_rd0 _ _ _ Hs). rewrite ch_head. cbn [mbind option_bind Z.eqb Pos.eqb].
    apply (cstr_split m _ [45]) in Hs. change (Z.of_nat (length [45])) with 1 in Hs.
    pose proof Hn2 as (Hne2 & Hd2 & _). destruct (digit_head m _ t2 u Hs Hd2 Hne2) as [-> Hh2].
    cbn [mbind option_bind]. rewrite Hh2. simpl negb. cbv iota. rewrite (read_number m _ t2 u r.2) by done.
    cbn [mbind option_bind]. rewrite length_app. simpl length. do 3 f_equal. lia.
Qed.

(** A number at the head of a string. *)
Lemma head_number m p s :
  cstr m p s -> isdigit (ch s 0) = true ->
  exists t u v, s = t ++ u /\ dec_number t v /\ simple_strtoul m p BASEDEC = Some (v, p + len t) /\
    is_digit 10 (ch u 0) = false.
Proof.
  intros Hs Hd. destruct (strtoul_dec m p s Hs) as (k & Hk & ->). pose proof Hk as (Hkr & _ & _).
  destruct (prefix_digits s k Hk) as [Ht Hu]. exists (take (Z.to_nat k) s), (drop (Z.to_nat k) s), (u32 (value 10 (take (Z.to_nat k) s))).
  assert (len (take (Z.to_nat k) s) = k) as Hl by (rewrite length_take; lia).
  rewrite take_drop, Hl, ch_drop, Z.add_0_r by lia. split; [done|]. split; [|done]. split; [|done].
  intros Hn. rewrite Hn in Hl. simpl in Hl. subst k. rewrite isdigit_10 in Hd by (apply (ch_byte m p s); [done|lia]). change (Z.of_nat 0) with 0 in Hu. congruence.
Qed.

Lemma parse_range_sound m p s :
  cstr m p s ->
  exists r, parse_range m p = Some r /\
    match r with
    | None => True
    | Some (a, b, q) => exists t u, s = t ++ u /\ range_syntax t (a, b) /\ q = p + len t /\
        is_digit 10 (ch u 0) = false
    end.
Proof.
  intros Hs. unfold parse_range. rewrite (cstr_rd0 _ _ _ Hs). cbn [mbind option_bind].
  destruct (isdigit (ch s 0)) eqn:E; simpl negb; cbv iota; [|by exists None].
  destruct (head_number m p s Hs E) as (t & u & v & -> & Hn & -> & Hu). apply cstr_split in Hs.
  cbn [mbind option_bind]. rewrite (cstr_rd0 _ _ _ Hs). cbn [mbind option_bind].
  destruct (ch u 0 =? 45) eqn:E45; [|exists (Some (v, v, p + len t)); split; [done|]; exists t, u; split; [done|]; split; [by left|]; done].
  destruct u as [|c u]; [done|]. rewrite ch_head in E45. zbool. subst c. apply (cstr_split m _ [45]) in Hs.
  change (Z.of_nat (length [45])) with 1 in Hs. rewrite (cstr_rd0 _ _ _ Hs). cbn [mbind option_bind].
  destruct (isdigit (ch u 0)) eqn:E2; simpl negb; cbv iota; [|by exists None].
  destruct (head_number m _ u Hs E2) as (t2 & u2 & v2 & -> & Hn2 & -> & Hu2). cbn [mbind option_bind].
  eexists. split; [done|]. exists (t ++ 45 :: t2), u2. rewrite <- app_assoc. split; [done|]. split; [right; eauto|].
  split; [rewrite length_app; simpl; lia|done].
Qed.

(** * Setting the bits of a range *)

Lemma set_range_spec d a b :
  Forall is_u32 d -> 0 <= a <= b -> b < 32 * Z.of_nat (length d) -> b < 4294967295 ->
  exists d', set_range d a b = Some d' /\ length d' = length d /\ Forall is_u32 d' /\
    forall i, 0 <= i -> bit_at d' i = bit_at d i || ((a <=? i) && (i <=? b)).
Proof.
  intros Hu Ha Hb Hlt. unfold set_range.
  apply (loop_rule (fun '(e, k) => length e = length d /\ Forall is_u32 e /\ a <= k <= b + 1 /\
      forall i, 0 <= i -> bit_at e i = bit_at d i || ((a <=? i) && (i <? k)))
    (fun '(_, k) => Z.to_nat (b + 1 - k))).
  - intros [e k] (Hl & He & Hk & Hbits). destruct (k <=? b) eqn:E; zbool.
    + destruct (set_bit_spec k e He) as (e' & -> & Hl' & He' & Hb'); [lia|]. cbn [mbind option_bind].
      rewrite u32_small by (unfold is_u32; lia). split; [|lia]. split; [congruence|]. split; [done|]. split; [lia|].
      intros i Hi. rewrite Hb', Hbits by lia. destruct (bit_at d i); [by rewrite orb_true_r|].
      apply eq_true_iff_eq. rewrite !orb_true_iff, !andb_true_iff, bool_decide_eq_true, !Z.leb_le, !Z.ltb_lt. intuition lia.
    + split; [done|]. split; [done|]. intros i Hi. rewrite Hbits by done. do 2 f_equal.
      apply eq_true_iff_eq. rewrite Z.leb_le, Z.ltb_lt. lia.
  - split; [done|]. split; [done|]. split; [lia|]. intros i Hi.
    replace ((a <=? i) && (i <? a)) with false; [by rewrite orb_false_r|]. symmetry. apply andb_false_iff.
    rewrite Z.leb_gt, Z.ltb_ge. lia.
  - lia.
Qed.

(** * The parser *)

Section parselist.
Context (m : mem) (d0 : list Z) (bits : Z).
Context (Hd0 : bitmap_ok d0 bits) (Hbits : bits < 2147483648).

Definition map_ok (d : list Z) : Prop := length d = length d0 /\ Forall is_u32 d.

(** A turn on a range [r] followed by [u]. *)
Lemma list_turn_range d q a b u q' :
  map_ok d -> parse_range m q = Some (Some (a, b, q')) -> is_u32 a -> cstr m q' u ->
  exists d', map_ok d' /\
    (a <= b -> b < bits -> forall i, 0 <= i < bits -> bit_at d' i = bit_at d i || ((a <=? i) && (i <=? b))) /\
    list_turn m bits (d, q) =
    Some (if b <? a then Ret (d, - EINVAL) else if bits <=? b then Ret (d, - ERANGE)
          else let skip := if ch u 0 =? 44 then 1 else 0 in
               if negb (ch u skip =? 0) && negb (ch u skip =? 10) then Next (d', q' + skip) else Ret (d', 0)).
Proof.
  intros (Hl & Hu) Hp Ha Hs. unfold list_turn. rewrite Hp. cbn [mbind option_bind].
  pose proof Hd0 as (_ & Hsz & _). rewrite (u32_small bits) by (unfold is_u32; lia). unfold is_u32 in Ha.
  destruct (b <? a) eqn:E; zbool.
  { exists d. rewrite (proj2 (Z.leb_gt a b)) by lia. split; [done|]. split; [lia|done]. }
  rewrite (proj2 (Z.leb_le a b)) by lia. simpl negb. cbv iota. destruct (bits <=? b) eqn:Eb; zbool.
  { exists d. split; [done|]. split; [lia|done]. }
  destruct (set_range_spec d a b Hu) as (d' & -> & Hl' & Hu' & Hb'); [lia..|]. cbn [mbind option_bind].
  exists d'. split; [split; [congruence|done]|]. split; [intros _ _ i Hi; apply Hb'; lia|].
  rewrite (cstr_rd0 _ _ _ Hs). cbn [mbind option_bind]. cbv zeta.
  assert (0 <= (if ch u 0 =? 44 then 1 else 0) <= len u) as Hskip.
  { destruct (ch u 0 =? 44) eqn:E4; [|lia]. destruct u; [done|simpl; lia]. }
  replace (if ch u 0 =? 44 then q' + 1 else q') with (q' + (if ch u 0 =? 44 then 1 else 0)) by (destruct (_ =? 44); lia).
  rewrite (cstr_rd m q' u _ Hs Hskip). cbn [mbind option_bind]. by destruct (_ && _).
Qed.

Lemma range_u32 t r : range_syntax t r -> is_u32 r.1.
Proof. intros [[(_ & _ & ->) _]|(t1 & t2 & _ & (_ & _ & ->) & _)]; apply u32_is_u32. Qed.

Lemma list_syntax_head t R : list_syntax t R -> is_digit 10 (ch t 0) = true.
Proof.
  assert (forall t r u, range_syntax t r -> is_digit 10 (ch (t ++ u) 0) = true) as H.
  { intros t' r u [[(Hne & Hd & _) _]|(t1 & t2 & -> & (Hne & Hd & _) & _)];
      [destruct t'|destruct t1]; try done; by inversion Hd. }
  intros [t' r u Hr|t' r u Hr|t' r u R' Hr]; by eapply H.
Qed.

(** Whatever is accepted is a list of ranges. *)
Lemma list_loop_sound fuel d q u :
  cstr m q u -> map_ok d -> len u < Z.of_nat fuel ->
  exists d' r, loop fuel (list_turn m bits) (d, q) = Some (d', r) /\ map_ok d' /\
    ((r = - EINVAL \/ r = - ERANGE) \/ (r = 0 /\ exists R, list_syntax u R)).
Proof.
  revert d q u. induction fuel as [|fuel IH]; intros d q u Hs Hd Hf; [lia|]. rewrite loop_unfold.
  destruct (parse_range_sound m q u Hs) as (r & Hp & Hr). destruct r as [[[a b] q']|].
  2:{ unfold list_turn. rewrite Hp. cbn [mbind option_bind]. exists d, (- EINVAL). auto. }
  destruct Hr as (t & u' & -> & Hr & -> & Hnd). pose proof (cstr_split m q t u' Hs) as Hs'.
  assert (0 < len t) as Ht by (destruct t; [|simpl; lia]; by destruct Hr as [[(? & _) _]|([|] & ? & ? & _)]).
  destruct (list_turn_range d q a b u' _ Hd Hp (range_u32 _ _ Hr) Hs') as (d' & Hd' & _ & ->).
  destruct (b <? a) eqn:Eab; [exists d, (- EINVAL); auto|]. destruct (bits <=? b) eqn:Eb; [exists d, (- ERANGE); auto|].
  cbv zeta. destruct (ch u' 0 =? 44) eqn:E4; zbool.
  - destruct u' as [|c u2]; [done|]. rewrite ch_head in E4. subst c. rewrite ch_cons by lia. change (1 - 1) with 0.
    apply (cstr_split m _ [44]) in Hs'. change (Z.of_nat (length [44])) with 1 in Hs'.
    destruct (negb (ch u2 0 =? 0) && negb (ch u2 0 =? 10)) eqn:Ee.
    + destruct (IH d' _ u2 Hs' Hd') as (d'' & r & -> & Hd'' & Hr'); [rewrite length_app in Hf; simpl in Hf; lia|].
      exists d'', r. split; [done|]. split; [done|]. destruct Hr' as [?|(-> & R & HR)]; [by left|right].
      split; [done|]. exists ((a, b) :: R). by apply ls_more.
    + exists d', 0. split; [done|]. split; [done|]. right. split; [done|]. exists [(a, b)].
      apply ls_comma; [done|]. unfold line_end. apply andb_false_iff in Ee as [Ee|Ee]; zbool; auto.
  - destruct (negb (ch u' 0 =? 0) && negb (ch u' 0 =? 10)) eqn:Ee.
    + rewrite Z.add_0_r. destruct (IH d' _ u' Hs' Hd') as (d'' & r & -> & Hd'' & Hr'); [rewrite length_app in Hf; lia|].
      exists d'', r. split; [done|]. split; [done|]. destruct Hr' as [?|(-> & R & HR)]; [by left|]. exfalso.
      apply list_syntax_head in HR. congruence.
    + exists d', 0. split; [done|]. split; [done|]. right. split; [done|]. exists [(a, b)].
      apply ls_last; [done|]. unfold line_end. apply andb_false_iff in Ee as [Ee|Ee]; zbool; auto.
Qed.

(** Every list of ranges is read to its end or to its first error. *)
Lemma loop_range fuel d q t r u c :
  range_syntax t r -> cstr m q (t ++ u) -> map_ok d ->
  (ch u 0 = 44 /\ c = ch u 1) \/ (ch u 0 <> 44 /\ c = ch u 0) -> ch u 0 = 44 \/ line_end u ->
  exists d', map_ok d' /\
    (r.1 <= r.2 -> r.2 < bits -> forall i, 0 <= i < bits ->
       bit_at d' i = bit_at d i || ((r.1 <=? i) && (i <=? r.2))) /\
    loop (S fuel) (list_turn m bits) (d, q) =
    if r.2 <? r.1 then Some (d, - EINVAL) else if bits <=? r.2 then Some (d, - ERANGE)
    else if negb (c =? 0) && negb (c =? 10) then
      loop fuel (list_turn m bits) (d', q + len t + (if ch u 0 =? 44 then 1 else 0))
    else Some (d', 0).
Proof.
  destruct r as [a b]. intros Hr Hs Hd Hc Hu. rewrite loop_unfold. cbn [fst snd].
  assert (parse_range m q = Some (Some (a, b, q + len t))) as Hp.
  { apply (parse_range_ok m q t u (a, b)); [done|done|]. destruct Hu as [?|[?|?]]; auto. }
  destruct (list_turn_range d q a b u _ Hd Hp (range_u32 _ _ Hr) (cstr_split m q t u Hs)) as (d' & Hd' & Hb & ->).
  exists d'. split; [done|]. split; [done|]. cbv zeta.
  assert (ch u (if ch u 0 =? 44 then 1 else 0) = c) as ->.
  { destruct Hc as [[E ->]|[E ->]]; [by rewrite E|by rewrite (proj2 (Z.eqb_neq _ 44))]. }
  destruct (b <? a); [done|]. destruct (bits <=? b); [done|]. by destruct (_ && _).
Qed.

Lemma list_loop_complete s R :
  list_syntax s R -> forall fuel d q, cstr m q s -> map_ok d -> len s < Z.of_nat fuel ->
  exists d', loop fuel (list_turn m bits) (d, q) = Some (d', verdict bits R) /\
    (verdict bits R = 0 -> forall i, 0 <= i < bits -> bit_at d' i = bit_at d i || covered R i).
Proof.
  assert (forall c, c = 0 \/ c = 10 -> negb (c =? 0) && negb (c =? 10) = false) as Hz by (by intros c [-> | ->]).
  assert (forall fuel d q t r u, range_syntax t r -> cstr m q (t ++ u) -> map_ok d ->
    line_end u \/ (exists u', u = 44 :: u' /\ line_end u') ->
    exists d', loop (S fuel) (list_turn m bits) (d, q) = Some (d', verdict bits [r]) /\
      (verdict bits [r] = 0 -> forall i, 0 <= i < bits -> bit_at d' i = bit_at d i || covered [r] i)) as Hlast.
  { intros fuel d q t [a b] u Hr Hs Hd Hu.
    assert (exists c, ((ch u 0 = 44 /\ c = ch u 1) \/ (ch u 0 <> 44 /\ c = ch u 0)) /\ (c = 0 \/ c = 10) /\
      (ch u 0 = 44 \/ line_end u)) as (c & Hc & Hc0 & Hend).
    { destruct Hu as [Hu|(u' & -> & Hu)]; [exists (ch u 0)|exists (ch u' 0)]; (split; [|split; [done|]]); auto.
      right. split; [|done]. destruct Hu as [-> | ->]; done. }
    destruct (loop_range fuel d q t (a, b) u c Hr Hs Hd Hc Hend) as (d' & _ & Hb & ->). rewrite Hz by done.
    cbn [fst snd verdict] in *. destruct (b <? a) eqn:E1; [exists d; done|]. destruct (bits <=? b) eqn:E2; [exists d; done|].
    zbool. exists d'. split; [done|]. intros _ i Hi. rewrite Hb by done. simpl. by rewrite orb_false_r. }
  induction 1 as [t r u Hr Hu|t r u Hr Hu|t [a b] u R Hr HR IH]; intros [|fuel] d q Hs Hd Hf; try lia.
  - apply (Hlast fuel d q t r u); auto.
  - apply (Hlast fuel d q t r (44 :: u)); eauto.
  - destruct (loop_range fuel d q t (a, b) (44 :: u) (ch u 0) Hr Hs Hd) as (d' & Hd' & Hb & ->); [by left|by left|].
    cbn [fst snd verdict] in *. destruct (b <? a) eqn:E1; [exists d; done|]. destruct (bits <=? b) eqn:E2; [exists d; done|].
    zbool. apply cstr_split, (cstr_split m _ [44]) in Hs. apply list_syntax_head in HR.
    rewrite (proj2 (Z.eqb_neq (ch u 0) 0)), (proj2 (Z.eqb_neq (ch u 0) 10)) by (by intros E; rewrite E in HR).
    rewrite ch_head. destruct (IH fuel d' _ Hs Hd') as (d'' & Hl & Hb'); [rewrite length_app in Hf; simpl in Hf; lia|].
    exists d''. split; [exact Hl|]. intros Hv i Hi. rewrite Hb', Hb by done. simpl. by rewrite orb_assoc.
Qed.

Lemma parselist_spec p s :
  cstr m p s ->
  exists d r, bitmap_parselist m p d0 bits = Some (d, r) /\ map_ok d /\
    (r = 0 \/ r = - EINVAL \/ r = - ERANGE) /\
    (r = 0 -> exists R, list_syntax s R) /\
    forall R, list_syntax s R ->
      r = verdict bits R /\ (r = 0 -> forall i, 0 <= i < bits -> bit_at d i = covered R i).
Proof.
  intros Hs. unfold bitmap_parselist.
  destruct (image_start d0 bits (fun _ _ => False) Hd0 ltac:(lia)) as (d & -> & Hl & Hu & Hz). cbn [mbind option_bind].
  assert (len s < Z.of_nat (fuel m)) as Hf by (pose proof (cstr_room m p s Hs); unfold fuel; lia).
  destruct (list_loop_sound (fuel m) d p s Hs) as (d' & r & Hloop & Hd' & Hr); [done|done|].
  exists d', r. split; [done|]. split; [done|]. split; [tauto|]. split.
  { intros ->. by destruct Hr as [[|]|[_ HR]]. }
  intros R HR. destruct (list_loop_complete s R HR (fuel m) d p Hs) as (d'' & Hloop' & Hb); [done|done|].
  rewrite Hloop in Hloop'. simplify_eq. split; [done|]. intros Hv i Hi. rewrite Hb by done.
  replace (bit_at d i) with false; [done|]. symmetry. apply not_true_iff_false.
  rewrite Hz by (unfold longs; lia). intros (k & Hk & _). lia.
Qed.
End parselist.

Lemma parselist_empty m p d0 bits :
  cstr m p [] -> bitmap_ok d0 bits -> bits < 2147483648 ->
  exists d, bitmap_parselist m p d0 bits = Some (d, - EINVAL).
Proof.
  intros Hs Hd0 Hb. unfold bitmap_parselist.
  destruct (image_start d0 bits (fun _ _ => False) Hd0 ltac:(lia)) as (d & -> & _). cbn [mbind option_bind].
  unfold fuel. rewrite loop_unfold. unfold list_turn, parse_range. rewrite (cstr_rd0 _ _ _ Hs).
  cbn [mbind option_bind]. rewrite ch_nil. by exists d.
Qed.

(** * Reading back what bitmap_scnlistprintf prints *)

Lemma dec_number_dec v : 0 <= v < 2147483648 -> dec_number (dec v) v.
Proof.
  intros Hv. destruct (digit_text_value 10 0 v) as (Hval & Hd & Hl); [by left|lia|lia|]. unfold dec.
  split; [by destruct (digit_text 10 0 v)|]. split; [done|]. rewrite Hval. symmetry. apply u32_small. unfold is_u32. lia.
Qed.

Lemma range_text_syntax a b :
  0 <= a < 2147483648 -> 0 <= b < 2147483648 -> range_syntax (range_text (a, b)) (a, b).
Proof.
  intros Ha Hb. unfold range_text, range_syntax. simpl. destruct (a =? b) eqn:E; zbool.
  - subst. left. split; [by apply dec_number_dec|done].
  - right. exists (dec a), (dec b). auto using dec_number_dec.
Qed.

Lemma runs_syntax b lo n R :
  runs b lo n R -> 0 <= lo -> n < 2147483648 -> R <> [] ->
  list_syntax (ranges_text R) R /\ verdict n R = 0 /\ Forall (fun c => 0 < c < 256) (ranges_text R).
Proof.
  intros HR Hlo Hn Hne. revert lo HR Hlo. induction R as [|[x y] R IH]; intros lo HR Hlo; [done|].
  destruct HR as (Hx & Hy & _ & _ & _ & HR). clear Hne.
  pose proof (range_text_syntax x y ltac:(lia) ltac:(lia)) as Hs.
  assert (forall v, Forall (fun c => 0 < c < 256) (dec v)) as Hdec by (intros; apply digit_text_chars; [by left|lia]).
  assert (Forall (fun c => 0 < c < 256) (range_text (x, y))) as Hc.
  { unfold range_text. destruct (_ =? _); [apply Hdec|]. apply Forall_app. split; [apply Hdec|]. constructor; [lia|apply Hdec]. }
  simpl verdict. rewrite (proj2 (Z.ltb_ge y x)), (proj2 (Z.leb_gt n y)) by lia. destruct R as [|r R].
  - split; [|done]. rewrite <- (app_nil_r (ranges_text _)). apply ls_last; [done|by left].
  - destruct (IH ltac:(done) (y + 1) HR ltac:(lia)) as (Hl & Hv & Hcs).
    change (ranges_text ((x, y) :: r :: R)) with (range_text (x, y) ++ 44 :: ranges_text (r :: R)).
    split; [by apply ls_more|]. split; [done|]. apply Forall_app. split; [done|]. by constructor; [lia|].
Qed.

Lemma runs_before b lo n R i : runs b lo n R -> i < lo -> covered R i = false.
Proof.
  revert lo. induction R as [|[x y] R IH]; intros lo HR Hi; [done|]. simpl in *.
  destruct HR as (Hx & Hy & _ & _ & _ & HR). rewrite (proj2 (Z.leb_gt x i)) by lia. simpl.
  apply (IH (y + 1)); [done|lia].
Qed.

Lemma runs_covered b lo n R i : runs b lo n R -> lo <= i < n -> covered R i = b i.
Proof.
  revert lo. induction R as [|[x y] R IH]; intros lo HR Hi; simpl in *; [symmetry; by apply HR|].
  destruct HR as (Hx & Hy & Hbefore & Hset & _ & HR).
  destruct (Z_lt_ge_dec y i); [|destruct (Z_lt_ge_dec i x)].
  - rewrite (proj2 (Z.leb_gt i y)), andb_false_r by lia. simpl. apply (IH (y + 1)); [done|lia].
  - rewrite (proj2 (Z.leb_gt x i)) by lia. simpl. rewrite Hbefore by lia. eapply runs_before; [exact HR|lia].
  - rewrite (proj2 (Z.leb_le x i)), (proj2 (Z.leb_le i y)) by lia. simpl. symmetry. apply Hset. lia.
Qed.

Lemma list_readback m buf n a d0 bits R :
  buffer_ok m buf n -> bitmap_ok d0 bits -> bits < 2147483648 -> runs (bit_at a) 0 bits R ->
  R <> [] -> len (ranges_text R) < n ->
  exists d, bitmap_parselist (out m buf n (ranges_text R)).1 buf d0 bits = Some (d, 0) /\
    forall i, 0 <= i < bits -> bit_at d i = bit_at a i.
Proof.
  intros Hbuf Hd0 Hb HR Hne Hl. destruct (runs_syntax _ _ _ _ HR ltac:(lia) Hb Hne) as (Hs & Hv & Hc).
  destruct (out_fits m buf n _ Hbuf Hc Hl) as [_ Hcs].
  destruct (parselist_spec _ d0 bits Hd0 Hb buf _ Hcs) as (d & r & Hp & _ & _ & _ & Hall).
  destruct (Hall R Hs) as [-> Hbits]. exists d. rewrite Hv in Hp. split; [done|]. intros i Hi.
  rewrite Hbits by done. eapply runs_covered; [exact HR|lia].
Qed.

(** * The properties of the text formats *)






(** C26: __bitmap_parse never reads outside its input, whatever it holds, and returns 0, -EINVAL,
    -EOVERFLOW or, if the user's memory faults, -EFAULT; a text it accepts is the number whose bits
    it leaves in the map. Where no memory faults it accepts exactly the texts of one or more chunks of
    one or more hexadecimal digits, separated by commas, with spaces before and after but not
    between, whose chunks are words and whose number has at most [bits] bits, and answers -EOVERFLOW to
    the others of this form; one comma after the last chunk is let through where it is the last byte
    of the buffer, and nowhere else. So "1,,5", ",44", the empty text and "1, 5" are refused with -EINVAL.
    bitmap_parse_user refuses a range that ends beyond the limit of the thread with -EFAULT and the map
    untouched, and otherwise parses (a limit of 0 is that of the kernel, without a range).
    bitmap_parselist accepts exactly the comma-separated lists of numbers and ranges, up to the end
    of the string or line, whose ranges are not reversed (-EINVAL) and lie in the map (-ERANGE), and
    sets exactly their bits; any other text gives one of the errors. Numbers are read modulo 2^32,
    so 4294967297 is the bit 1. *)
Theorem bitmap_parsing :
  (forall m buf n t is_user fault d0 bits limit,
    input m buf n t -> bitmap_ok d0 bits -> 0 < bits < 2147483616 ->
      (exists d r, __bitmap_parse m buf n is_user fault d0 bits = Some (d, r) /\
         length d = length d0 /\ Forall is_u32 d /\
         (r = 0 \/ r = - EINVAL \/ r = - EOVERFLOW \/
          (r = - EFAULT /\ is_user = true /\ exists k, 0 <= k < n /\ fault (buf + k) = true)) /\
         (r = 0 -> 0 <= hex_num t < 2 ^ bits /\ forall i, 0 <= i < bits -> bit_at d i = Z.testbit (hex_num t) i) /\
         (r = 0 -> exists cs, hex_syntax n t cs) /\
         (forall cs, hex_syntax n t cs -> (forall p, is_user && fault p = false) ->
            r = (if fits_map bits 0 cs then 0 else - EOVERFLOW) /\
            (r = 0 -> forall i, 0 <= i < bits -> bit_at d i = Z.testbit (total 0 cs) i))) /\
      (limit <> 0 -> limit < buf + n \/ 4294967296 <= buf + n ->
         bitmap_parse_user limit m buf n fault d0 bits = Some (d0, - EFAULT)) /\
      (limit = 0 \/ buf + n <= limit /\ buf + n < 4294967296 ->
         bitmap_parse_user limit m buf n fault d0 bits = __bitmap_parse m buf n true fault d0 bits) /\
      (Forall (fun u => snd <$> bitmap_parse (u ++ [0]) 0 (len u + 1) [0] 32 = Some (- EINVAL))
         [ [49; 44; 44; 53]; [44; 52; 52]; []; [49; 44; 32; 53]; [49; 44] ])) /\
  (forall m p s d0 bits,
    cstr m p s -> bitmap_ok d0 bits -> bits < 2147483648 ->
      (exists d r, bitmap_parselist m p d0 bits = Some (d, r) /\ length d = length d0 /\ Forall is_u32 d /\
         (r = 0 \/ r = - EINVAL \/ r = - ERANGE) /\
         (r = 0 -> exists R, list_syntax s R) /\
         forall R, list_syntax s R ->
           r = verdict bits R /\ (r = 0 -> forall i, 0 <= i < bits -> bit_at d i = covered R i)) /\
      bitmap_parselist [52; 50; 57; 52; 57; 54; 55; 50; 57; 55; 0] 0 [0] 32 = Some ([2], 0)).
Proof.
  split.
  { intros m buf n t is_user fault d0 bits limit.
    intros Hin Hd0 Hb. split; [|split; [|split]].
    2,3: unfold bitmap_parse_user, access_ok, __range_ok; destruct ((buf + n <? 4294967296) && (buf + n <=? limit)) eqn:E.
    2:{ apply andb_true_iff in E as [? ?]. zbool. lia. }
    2:{ intros Hl _. by rewrite (proj2 (Z.eqb_neq limit 0)). }
    2:{ done. }
    2:{ intros [->|[? ?]]; [done|]. apply andb_false_iff in E as [E|E]; zbool; lia. }
    2:{ repeat (apply Forall_cons_2; [vm_compute; reflexivity|]). by apply Forall_nil_2. }
    destruct (bitmap_parse_sound m buf n t is_user fault Hin d0 bits Hd0 Hb) as ([d r] & Hp & Hl & Hu & Hr).
    exists d, r. split; [done|]. split; [done|]. split; [done|]. simpl in Hr. split; [|split; [|split]].
    - destruct Hr as [He|[-> _]]; [right; exact He|by left].
    - intros ->. destruct Hr as [[|[|[? _]]]|(_ & Hv & _ & _ & Hbits)]; done.
    - intros ->. exact (bitmap_parse_syntax m buf n t is_user fault Hin d0 bits d Hp).
    - intros cs (sp & tr & -> & Hsp & Htr & Hcs & Hne) Hnf.
      destruct (bitmap_parse_accepts m is_user fault Hnf d0 bits Hd0 Hb buf n sp cs tr Hin Hsp Htr Hcs Hne) as (d' & Hp' & Hh).
      rewrite Hp in Hp'. simplify_eq. split; [done|]. intros H0. destruct (fits_map bits 0 cs); [|done].
      by destruct (Hh eq_refl) as (_ & _ & ?). }
  { intros m p s d0 bits.
    intros Hs Hd0 Hb. split; [|vm_compute; reflexivity].
    destruct (parselist_spec m d0 bits Hd0 Hb p s Hs) as (d & r & H1 & [H2 H3] & H4). exists d, r. auto. }
Qed.

Lemma bitmap_parsing_witness :
  (exists d, __bitmap_parse [32; 97; 44; 49; 10; 0] 0 6 false (fun _ => false) [7; 7] 40 = Some (d, 0) /\
      bit_at d 33 = true) /\
  (exists d, bitmap_parselist [49; 45; 51; 44; 54; 0] 0 [7; 7] 35 = Some (d, 0) /\ bit_at d 2 = true /\ bit_at d 4 = false).
Proof.
  split.
  {destruct (proj1 bitmap_parsing [32; 97; 44; 49; 10; 0] 0 6 [32; 97; 44; 49; 10] false (fun _ => false) [7; 7] 40 0)
      as ((d & r & Hp & _ & _ & _ & _ & _ & Hacc) & _).
    - split; [repeat constructor; lia|]. split; [simpl; lia|]. intros k Hk _. simpl in Hk.
      assert (k = 0 \/ k = 1 \/ k = 2 \/ k = 3 \/ k = 4 \/ k = 5) as H by lia.
      repeat (destruct H as [->|H]; [reflexivity|]). subst. reflexivity.
    - split; [repeat constructor; unfold is_u32; lia|simpl; lia].
    - lia.
    - destruct (Hacc [[97]; [49]]) as [Hr Hbits]; [|reflexivity|].
      { exists [32], [10]. split; [reflexivity|]. split; [repeat constructor|]. split; [left; repeat constructor|].
        split; [repeat constructor; discriminate|discriminate]. }
      assert (r = 0) as -> by (rewrite Hr; vm_compute; reflexivity).
      exists d. split; [exact Hp|]. rewrite (Hbits eq_refl 33) by lia. vm_compute. reflexivity. }
  {destruct (proj2 bitmap_parsing [49; 45; 51; 44; 54; 0] 0 [49; 45; 51; 44; 54] [7; 7] 35)
      as ((d & r & Hp & _ & _ & _ & _ & Hall) & _);
      [apply cstr_intro; [reflexivity|lia|reflexivity]|split; [repeat constructor; unfold is_u32; lia|simpl; lia]|lia|].
    destruct (Hall [(1, 3); (6, 6)]) as [Hr Hb].
    { apply (ls_more [49; 45; 51] (1, 3) [54]).
      - right. exists [49], [51]. split; [reflexivity|]. split; (split; [discriminate|]; split; [repeat constructor|reflexivity]).
      - apply (ls_last [54] (6, 6) []); [|by left]. left. split; [|reflexivity].
        split; [discriminate|]. split; [repeat constructor|reflexivity]. }
    change (verdict 35 [(1, 3); (6, 6)]) with 0 in Hr. subst r. exists d. split; [exact Hp|].
    rewrite !Hb by (reflexivity || lia). split; reflexivity. }
Defined.


(** C25: in a buffer of [n] bytes bitmap_scnprintf prints the words of the map in hexadecimal, most
    significant first, separated by commas, with exactly the digits of the bits of the map, and
    bitmap_scnlistprintf its maximal runs of set bits in decimal; both cut the text to n - 1
    characters, terminate it, touch no other byte and return the number of characters written. With
    a size of 0 bitmap_scnlistprintf writes nothing and returns 0, but bitmap_scnprintf returns -1 and, for
    a map of more than 32 bits, writes a NUL before the buffer. What the two printing functions write
    into a buffer that holds it, the two parsers read back as the same map; only the text of an
    empty map, which the list format prints as an empty string, is refused by bitmap_parselist. *)
Theorem bitmap_text_output :
  (forall m buf n a bits,
    buffer_ok m buf n -> bitmap_ok a bits -> 0 < bits < 2147483616 ->
      exists R m1 m2, runs (bit_at a) 0 bits R /\
        bitmap_scnprintf m buf n a bits = Some (m1, Z.min (len (hex_text a bits)) (n - 1)) /\
        cstr m1 buf (take (Z.to_nat (n - 1)) (hex_text a bits)) /\
        bitmap_scnlistprintf m buf n a bits = Some (m2, Z.min (len (ranges_text R)) (n - 1)) /\
        cstr m2 buf (take (Z.to_nat (n - 1)) (ranges_text R)) /\
        (forall i, i < buf \/ buf + n <= i -> rd m1 i = rd m i /\ rd m2 i = rd m i) /\
        bitmap_scnlistprintf m buf 0 a bits = Some (m, 0)) /\
  (forall m buf a bits,
    buffer_ok m (buf - 1) 1 -> bitmap_ok a bits -> 0 < bits < 2147483616 ->
      bitmap_scnprintf m buf 0 a bits = Some (if bits <=? 32 then m else blit m (buf - 1) [0], -1)) /\
  (forall m buf n a d0 bits,
    buffer_ok m buf n -> bitmap_ok a bits -> bitmap_ok d0 bits -> 0 < bits < 2147483616 ->
      (len (hex_text a bits) < n ->
       exists m' d, bitmap_scnprintf m buf n a bits = Some (m', len (hex_text a bits)) /\
         bitmap_parse m' buf n d0 bits = Some (d, 0) /\ forall i, 0 <= i < bits -> bit_at d i = bit_at a i) /\
      exists R, runs (bit_at a) 0 bits R /\
        (len (ranges_text R) < n ->
         exists m' d r, bitmap_scnlistprintf m buf n a bits = Some (m', len (ranges_text R)) /\
           bitmap_parselist m' buf d0 bits = Some (d, r) /\
           (R = [] -> r = - EINVAL) /\
           (R <> [] -> r = 0 /\ forall i, 0 <= i < bits -> bit_at d i = bit_at a i))).
Proof.
  split; [|split; [exact bitmap_scnprintf_zero|]].
  { intros m buf n a bits.
    intros Hbuf Ha Hb. pose proof Hbuf as (Hn & Hr & _).
    destruct (bitmap_scnlistprintf_spec m buf n a bits Hbuf Ha ltac:(lia)) as (R & HR & Hlist).
    assert (Forall (fun c => 0 < c < 256) (hex_text a bits)) as Hc1.
    { unfold hex_text. rewrite hex_chunks_join. apply join_chars, chunk_list_ok. unfold longs. lia. }
    assert (Forall (fun c => 0 < c < 256) (ranges_text R)) as Hc2.
    { destruct (decide (R = [])) as [->|Hne]; [constructor|].
      by destruct (runs_syntax _ _ _ _ HR ltac:(lia) ltac:(lia) Hne) as (_ & _ & ?). }
    assert (forall T : list Z, room m buf (Z.min n (len T + 1))) as Hroom by (intros; destruct Hr; split; lia).
    exists R, (delivered m buf n (hex_text a bits)), (delivered m buf n (ranges_text R)).
    split; [done|]. split; [by apply bitmap_scnprintf_spec|]. split; [apply delivered_cstr; [done|lia|apply Hroom]|].
    split; [done|]. split; [apply delivered_cstr; [done|lia|apply Hroom]|].
    split; [|done]. intros i Hi. split; (apply delivered_out; [apply Hroom|lia|done]). }
  { intros m buf n a d0 bits.
    intros Hbuf Ha Hd0 Hb. split.
    - intros Hl. destruct (hex_readback m buf n a d0 bits Hbuf Ha Hd0 Hb Hl) as (d & Hp & Hbits).
      exists (out m buf n (hex_text a bits)).1, d. split; [|done]. rewrite bitmap_scnprintf_spec by done.
      unfold out. simpl. do 2 f_equal. lia.
    - destruct (bitmap_scnlistprintf_spec m buf n a bits Hbuf Ha ltac:(lia)) as (R & HR & Hlist).
      exists R. split; [done|]. intros Hl. exists (out m buf n (ranges_text R)).1.
      assert (bitmap_scnlistprintf m buf n a bits = Some ((out m buf n (ranges_text R)).1, len (ranges_text R))) as Hp
        by (rewrite Hlist; unfold out; simpl; do 2 f_equal; lia).
      destruct (decide (R = [])) as [->|Hne].
      + destruct (out_fits m buf n [] Hbuf) as [_ Hcs]; [constructor|simpl; lia|].
        destruct (parselist_empty _ buf d0 bits Hcs Hd0 ltac:(lia)) as (d & Hpl).
        exists d, (- EINVAL). split; [done|]. split; [done|]. by split.
      + destruct (list_readback m buf n a d0 bits R) as (d & Hpl & Hbits); [done|done|lia|done|done|done|].
        exists d, 0. split; [done|]. split; [done|]. split; [done|]. auto. }
Qed.

Lemma bitmap_text_output_witness :
  (exists R m1, runs (bit_at [0x1d; 5]) 0 35 R /\
      bitmap_scnprintf (replicate 16 7) 2 12 [0x1d; 5] 35 = Some (m1, 10) /\ cstr m1 2 [53; 44; 48; 48; 48; 48; 48; 48; 49; 100]) /\
  bitmap_scnprintf [7; 7] 1 0 [0x1d; 5] 35 = Some ([0; 7], -1) /\
  (exists m' d, bitmap_scnprintf (replicate 16 7) 2 12 [0x1d; 5] 35 = Some (m', 10) /\
      bitmap_parse m' 2 12 [9; 9] 35 = Some (d, 0) /\ bit_at d 34 = true).
Proof.
  split; [|split].
  {destruct (proj1 bitmap_text_output (replicate 16 7) 2 12 [0x1d; 5] 35) as (R & m1 & _ & HR & H1 & H2 & _);
      [split; [lia|]; split; [split; simpl; lia|lia]|split; [repeat constructor; unfold is_u32; lia|simpl; lia]|lia|].
    exists R, m1. split; [exact HR|]. split; [exact H1|exact H2]. }
  {apply (proj1 (proj2 bitmap_text_output) [7; 7] 1 [0x1d; 5] 35);
      [split; [lia|]; split; [split; simpl; lia|lia]|split; [repeat constructor; unfold is_u32; lia|simpl; lia]|lia]. }
  {destruct (proj2 (proj2 bitmap_text_output) (replicate 16 7) 2 12 [0x1d; 5] [9; 9] 35) as [Hhex _];
      [split; [lia|]; split; [split; simpl; lia|lia]|split; [repeat constructor; unfold is_u32; lia|simpl; lia]..|lia|].
    destruct Hhex as (m' & d & Hp & Hd & Hbits); [vm_compute; reflexivity|].
    exists m', d. split; [exact Hp|]. split; [exact Hd|]. rewrite Hbits by lia. reflexivity. }
Defined.
