(* ===== verification/Groups.v ===== *)
(** Supplementary group lists: kernel/groups.c.

    A group_info is a table of blocks of 1024 group ids (or one small block of 32); its accesses go
    through [GROUP_AT].  The sort and the search are written, as in the source, over those accesses,
    and verified against the interface [ArrayLaws] of an array of ids that the blocks implement. *)

From S2P Require Import Prelude Order.
From Stdlib Require Import Lia.

(** * Data *)

Definition NGROUPS_SMALL : Z := 32.
Definition NGROUPS_PER_BLOCK : Z := 1024.
Definition NGROUPS_MAX : Z := 65536.
Definition EPERM : Z := 1.

Record group_info : Type := GroupInfo {
  usage : Z;
  ngroups : Z;
  nblocks : Z;
  blocks : list (list Z)
}.

Record cred : Type := Cred {
  fsuid : Z;
  fsgid : Z;
  egid : Z;
  groups : group_info
}.

Definition get_group_info (gi : group_info) : group_info :=
  GroupInfo (gi.(usage) + 1) gi.(ngroups) gi.(nblocks) gi.(blocks).

(** The last reference frees the structure, which nobody reads afterwards. *)
Definition put_group_info (gi : group_info) : group_info :=
  GroupInfo (gi.(usage) - 1) gi.(ngroups) gi.(nblocks) gi.(blocks).

Definition GROUP_AT (gi : group_info) (i : Z) : option Z :=
  b ← rd gi.(blocks) (i / NGROUPS_PER_BLOCK);
  rd b (i mod NGROUPS_PER_BLOCK).

Definition GROUP_SET (gi : group_info) (i x : Z) : option group_info :=
  b ← rd gi.(blocks) (i / NGROUPS_PER_BLOCK);
  b ← wr b (i mod NGROUPS_PER_BLOCK) x;
  bs ← wr gi.(blocks) (i / NGROUPS_PER_BLOCK) b;
  Some (GroupInfo gi.(usage) gi.(ngroups) gi.(nblocks) bs).

(** * Allocation

    [kmalloc] and [page i] say whether the allocations succeed; fresh blocks hold [junk]. *)

Definition groups_alloc (kmalloc : bool) (page : Z -> bool) (junk gidsetsize : Z) : option group_info :=
  let nblocks := (gidsetsize + NGROUPS_PER_BLOCK - 1) / NGROUPS_PER_BLOCK in
  let nblocks := if nblocks =? 0 then 1 else nblocks in
  if negb kmalloc then None
  else if gidsetsize <=? NGROUPS_SMALL then
    Some (GroupInfo 1 gidsetsize nblocks [replicate (Z.to_nat NGROUPS_SMALL) junk])
  else
    match foreach 0 nblocks (fun i bs =>
      if page i then Some (bs ++ [replicate (Z.to_nat NGROUPS_PER_BLOCK) junk]) else None) [] with
    | Some bs => Some (GroupInfo 1 gidsetsize nblocks bs)
    | None => None
    end.

(** * Copies from and to user space

    [fault i] says that the copy of block [i] faults.  Results are (error, state). *)

Definition groups_to_user (fault : Z -> bool) (grouplist : list Z) (gi : group_info)
  : option (Z * list Z) :=
  r ← for_range 0 gi.(nblocks) (fun i '(gl, count) =>
    let cp_count := Z.min NGROUPS_PER_BLOCK count in
    if fault i then Some (Ret gl)
    else
      b ← rd gi.(blocks) i;
      gl ← memcpy gl (i * NGROUPS_PER_BLOCK) b 0 cp_count;
      Some (Next (gl, count - cp_count))) (grouplist, gi.(ngroups));
  Some (match r with Next (gl, _) => (0, gl) | Ret gl => (- EFAULT, gl) end).

Definition groups_from_user (fault : Z -> bool) (gi : group_info) (grouplist : list Z)
  : option (Z * group_info) :=
  r ← for_range 0 gi.(nblocks) (fun i '(bs, count) =>
    let cp_count := Z.min NGROUPS_PER_BLOCK count in
    if fault i then Some (Ret bs)
    else
      b ← rd bs i;
      b ← memcpy b 0 grouplist (i * NGROUPS_PER_BLOCK) cp_count;
      bs ← wr bs i b;
      Some (Next (bs, count - cp_count))) (gi.(blocks), gi.(ngroups));
  let with_blocks bs := GroupInfo gi.(usage) gi.(ngroups) gi.(nblocks) bs in
  Some (match r with Next (bs, _) => (0, with_blocks bs) | Ret bs => (- EFAULT, with_blocks bs) end).

(** * Sorting and searching, over any array of ids *)

Class Array (G : Type) : Type := {
  aget : G -> Z -> option Z;
  aset : G -> Z -> Z -> option G;
  asize : G -> Z
}.

Section Algorithms.
Context {G : Type} `{Array G}.

(** The inner while loop: shift the larger elements of the chain up, then store [tmp]. *)
Definition shell_insert (g : G) (base stride : Z) : option G :=
  tmp ← aget g (base + stride);
  '(g, rgt) ← loop (Z.to_nat (base + 2)) (fun '(g, lft, rgt) =>
    if 0 <=? lft then
      x ← aget g lft;
      if tmp <? x then
        g ← aset g rgt x;
        Some (Next (g, lft - stride, lft))
      else Some (Ret (g, rgt))
    else Some (Ret (g, rgt))) (g, base, base + stride);
  aset g rgt tmp.

(** The initial stride; 3 * stride + 1 reaches the size in fewer than 64 steps. *)
Definition shell_stride (size : Z) : option Z :=
  stride ← loop 64 (fun stride => Some (if stride <? size then Next (s32 (3 * stride + 1)) else Ret stride)) 1;
  Some (stride / 3).

Definition shell_sort (g : G) : option G :=
  let gidsetsize := asize g in
  stride ← shell_stride gidsetsize;
  loop 64 (fun '(g, stride) =>
    if negb (stride =? 0) then
      let max := gidsetsize - stride in
      g ← foreach 0 max (fun base g => shell_insert g base stride) g;
      Some (Next (g, stride / 3))
    else Some (Ret g)) (g, stride).

(** [int cmp = grp - GROUP_AT(group_info, mid)] keeps 32 bits of the difference. *)
Definition bsearch (g : G) (grp : Z) : option Z :=
  loop 64 (fun '(lft, rgt) =>
    if lft <? rgt then
      let mid := (lft + rgt) / 2 in
      x ← aget g mid;
      let cmp := s32 (u32 (grp - x)) in
      Some (if 0 <? cmp then Next (mid + 1, rgt)
            else if cmp <? 0 then Next (lft, mid)
            else Ret 1)
    else Some (Ret 0)) (0, asize g).

End Algorithms.

#[global] Instance group_array : Array group_info := {
  aget := GROUP_AT;
  aset := GROUP_SET;
  asize := ngroups
}.

Definition groups_sort (gi : group_info) : option group_info := shell_sort gi.

(** [None] as argument is the NULL group_info. *)
Definition groups_search (gi : option group_info) (grp : Z) : option Z :=
  match gi with
  | None => Some 0
  | Some gi => bsearch gi grp
  end.

(** * Credentials *)

Definition set_group_info (new : cred) (gi : group_info) : cred :=
  Cred new.(fsuid) new.(fsgid) new.(egid) gi.

(** The result is the new credentials and the group list they held, one reference less. *)
Definition set_groups (new : cred) (gi : group_info) : option (cred * group_info) :=
  let old := put_group_info new.(groups) in
  gi ← groups_sort gi;
  Some (set_group_info new (get_group_info gi), old).

(** prepare_creds copies the credentials and takes a reference to their group list; [prepare] says
    whether it finds memory.  commit_creds installs the copy. *)
Definition prepare_creds (prepare : bool) (c : cred) : option cred :=
  if prepare then Some (set_group_info c (get_group_info c.(groups))) else None.

Definition set_current_groups (prepare : bool) (current : cred) (gi : group_info)
  : option (Z * cred) :=
  match prepare_creds prepare current with
  | None => Some (- ENOMEM, current)
  | Some new =>
      '(new, _) ← set_groups new gi;
      Some (0, new)
  end.

(** The outcomes of the allocations, copies and capability checks of one call. *)
Record env : Type := Env {
  capable_setgid : bool;
  kmalloc_ok : bool;
  page_ok : Z -> bool;
  junk : Z;
  fault_at : Z -> bool;
  prepare_ok : bool
}.

Definition setgroups (e : env) (current : cred) (gidsetsize : Z) (grouplist : list Z)
  : option (Z * cred) :=
  if negb e.(capable_setgid) then Some (- EPERM, current)
  else if NGROUPS_MAX <? u32 gidsetsize then Some (- EINVAL, current)
  else
    match groups_alloc e.(kmalloc_ok) e.(page_ok) e.(junk) gidsetsize with
    | None => Some (- ENOMEM, current)
    | Some gi =>
        '(retval, gi) ← groups_from_user e.(fault_at) gi grouplist;
        if negb (retval =? 0) then Some (retval, current)
        else
          '(retval, current) ← set_current_groups e.(prepare_ok) current gi;
          Some (retval, if retval =? 0 then set_group_info current (put_group_info current.(groups))
                        else current)
    end.

(** The result is the return value and the user array. *)
Definition getgroups (fault : Z -> bool) (current : cred) (gidsetsize : Z) (grouplist : list Z)
  : option (Z * list Z) :=
  if gidsetsize <? 0 then Some (- EINVAL, grouplist)
  else
    let i := current.(groups).(ngroups) in
    if negb (gidsetsize =? 0) then
      if gidsetsize <? i then Some (- EINVAL, grouplist)
      else
        '(r, gl) ← groups_to_user fault grouplist current.(groups);
        Some (if negb (r =? 0) then (- EFAULT, gl) else (i, gl))
    else Some (i, grouplist).

Definition in_group_p (c : cred) (grp : Z) : option Z :=
  if negb (grp =? c.(fsgid)) then groups_search (Some c.(groups)) grp else Some 1.

Definition in_egroup_p (c : cred) (grp : Z) : option Z :=
  if negb (grp =? c.(egid)) then groups_search (Some c.(groups)) grp else Some 1.
