(* ===== verification/GroupsSpec.v ===== *)
(** Correctness of kernel/groups.c: the Shell sort against the array interface, the block table as
    an implementation of it, membership tests and the setgroups and getgroups system calls. *)

From S2P Require Import Prelude Order Groups.
From Stdlib Require Import Lia.

(** * The array interface *)

(** What the sort and the search rely on: [view] is the list of ids an array of [asize] cells
    holds, under its invariant [ok]. *)
Class ArrayLaws (G : Type) `{Array G} (ok : G -> Prop) (view : G -> list Z) : Prop := {
  asize_view g : ok g -> asize g = Z.of_nat (length (view g));
  aget_view g i : ok g -> 0 <= i < asize g -> aget g i = Some (at_ (view g) i);
  aset_view g i x : ok g -> 0 <= i < asize g ->
    exists g', aset g i x = Some g' /\ ok g' /\ view g' = <[Z.to_nat i := x]> (view g)
}.

Section Shell.
Context {G : Type} `{Array G} (ok : G -> Prop) (view : G -> list Z) `{!ArrayLaws G ok view}.

Abbreviation size g := (Z.of_nat (length (view g))).

Lemma aget_at g i : ok g -> 0 <= i < size g -> aget g i = Some (at_ (view g) i).
Proof. intros Hg Hi. apply aget_view; [done|]. by rewrite asize_view. Qed.

Lemma aset_at g i x : ok g -> 0 <= i < size g ->
  exists g', aset g i x = Some g' /\ ok g' /\ view g' = <[Z.to_nat i := x]> (view g) /\ size g' = size g.
Proof.
  intros Hg Hi. rewrite <- (asize_view g Hg) in Hi. destruct (aset_view g i x Hg Hi) as (g' & Hs & Hok & Hv).
  exists g'. split_and!; [done..|]. by rewrite Hv, length_insert.
Qed.

(** Pairs at distance [h] in order, for the first [n] left ends. *)
Definition ordered (h n : Z) (l : list Z) : Prop := forall i, 0 <= i < n -> at_ l i <= at_ l (i + h).

(** The chain of [rgt] with a hole: the other pairs are in order, and the neighbours of the hole
    too, and [tmp] belongs at or below it. *)
Record hole (h base tmp rgt : Z) (l : list Z) : Prop := {
  hole_others i : 0 <= i <= base -> i <> rgt -> i + h <> rgt -> at_ l i <= at_ l (i + h);
  hole_above : rgt <= base -> tmp <= at_ l (rgt + h);
  hole_around : rgt <= base -> 0 <= rgt - h -> at_ l (rgt - h) <= at_ l (rgt + h)
}.

Lemma hole_start h base l :
  0 < h -> ordered h base l -> hole h base (at_ l (base + h)) (base + h) l.
Proof. intros Hh Ho. split; [|lia|lia]. intros i Hi _ Hne. apply Ho. lia. Qed.

Lemma hole_move h base tmp rgt l :
  0 < h -> 0 <= rgt - h -> 0 <= rgt <= base + h -> base + h < Z.of_nat (length l) ->
  tmp < at_ l (rgt - h) -> hole h base tmp rgt l ->
  hole h base tmp (rgt - h) (<[Z.to_nat rgt := at_ l (rgt - h)]> l).
Proof.
  intros Hh H0 Hr Hl Hlt [Ho Ha Hd]. split.
  - intros i Hi H1 H2. rewrite !at_insert by lia. destruct (decide (i = rgt)) as [->|].
    + rewrite bool_decide_eq_true_2, bool_decide_eq_false_2 by lia. apply Hd; lia.
    + rewrite !bool_decide_eq_false_2 by lia. apply Ho; lia.
  - intros _. rewrite at_insert, bool_decide_eq_true_2 by lia. lia.
  - intros _ H1. rewrite !at_insert by lia. rewrite bool_decide_eq_false_2, bool_decide_eq_true_2 by lia.
    replace (rgt - h) with (rgt - h - h + h) at 2 by lia. apply Ho; lia.
Qed.

Lemma hole_fill h base tmp rgt l :
  0 < h -> 0 <= rgt <= base + h -> base + h < Z.of_nat (length l) ->
  (0 <= rgt - h -> at_ l (rgt - h) <= tmp) -> hole h base tmp rgt l ->
  ordered h (base + 1) (<[Z.to_nat rgt := tmp]> l).
Proof.
  intros Hh Hr Hl Hle [Ho Ha Hd] i Hi. rewrite !at_insert by lia.
  destruct (decide (i = rgt)) as [->|H1].
  - rewrite bool_decide_eq_true_2, bool_decide_eq_false_2 by lia. apply Ha. lia.
  - rewrite (bool_decide_eq_false_2 (i = rgt)) by lia. destruct (decide (i + h = rgt)) as [H2|H2].
    + rewrite bool_decide_eq_true_2 by lia. replace i with (rgt - h) by lia. apply Hle. lia.
    + rewrite bool_decide_eq_false_2 by lia. apply Ho; lia.
Qed.

(** Moving the hole permutes what it is filled with. *)
Lemma hole_perm (l : list Z) (i j tmp : Z) :
  0 <= i < Z.of_nat (length l) -> 0 <= j < Z.of_nat (length l) -> i <> j ->
  <[Z.to_nat i := tmp]> (<[Z.to_nat j := at_ l i]> l) ≡ₚ <[Z.to_nat j := tmp]> l.
Proof.
  intros Hi Hj Hne.
  assert (<[Z.to_nat i := tmp]> (<[Z.to_nat j := at_ l i]> l) = swapped (<[Z.to_nat j := tmp]> l) i j) as ->.
  - unfold swapped. rewrite !at_insert by lia.
    rewrite (bool_decide_eq_true_2 (j = j)), (bool_decide_eq_false_2 (i = j)) by lia.
    by rewrite list_insert_insert_eq.
  - apply swapped_perm; rewrite length_insert; lia.
Qed.

Lemma shell_insert_spec g base h :
  ok g -> 0 < h -> 0 <= base -> base + h < size g -> ordered h base (view g) ->
  exists g', shell_insert g base h = Some g' /\ ok g' /\ view g' ≡ₚ view g /\
    ordered h (base + 1) (view g').
Proof.
  intros Hg Hh Hb Hl Ho. unfold shell_insert. rewrite aget_at by (done || lia). cbn [mbind option_bind].
  set (tmp := at_ (view g) (base + h)).
  loop_with (fun '(g', lft, rgt) => ok g' /\ lft = rgt - h /\ 0 <= rgt <= base + h /\
      size g' = size g /\ <[Z.to_nat rgt := tmp]> (view g') ≡ₚ view g /\ hole h base tmp rgt (view g'))
    (fun '(_, lft, _) => Z.to_nat (lft + 1))
    (fun '(g', rgt) => ok g' /\ 0 <= rgt <= base + h /\ size g' = size g /\
      (0 <= rgt - h -> at_ (view g') (rgt - h) <= tmp) /\
      <[Z.to_nat rgt := tmp]> (view g') ≡ₚ view g /\ hole h base tmp rgt (view g'))
    as ([g1 rgt] & -> & Hg1 & Hr & Hs1 & Hle & Hp & Hh1).
  - intros [[g' lft] rgt] (Hg' & -> & Hr & Hs & Hp & Hho).
    destruct (0 <=? rgt - h) eqn:E; zbool; [|split_and!; (done || lia)].
    rewrite aget_at by (done || lia). cbn [mbind option_bind].
    destruct (tmp <? at_ (view g') (rgt - h)) eqn:Et; zbool; [|split_and!; (done || lia)].
    destruct (aset_at g' rgt (at_ (view g') (rgt - h)) Hg') as (g2 & -> & Hg2 & Hv2 & Hs2); [lia|].
    cbn [mbind option_bind]. split; [|lia]. split_and!; [done|lia|lia|lia|lia| |].
    + rewrite Hv2, hole_perm by lia. done.
    + rewrite Hv2. apply hole_move; try done; lia.
  - split_and!; [done|lia|lia|lia|done| |by apply hole_start].
    unfold tmp, at_. rewrite list_insert_id; [done|]. apply list_lookup_lookup_total_lt. lia.
  - lia.
  - cbn [mbind option_bind]. destruct (aset_at g1 rgt tmp Hg1) as (g2 & -> & Hg2 & Hv2 & _); [lia|].
    exists g2. split; [done|]. split; [done|]. rewrite Hv2. split; [done|]. apply hole_fill; try done; lia.
Qed.

(** A pass with stride [h] orders every pair at that distance. *)
Lemma shell_pass g h :
  ok g -> 0 < h ->
  exists g', foreach 0 (size g - h) (fun base g => shell_insert g base h) g = Some g' /\ ok g' /\
    view g' ≡ₚ view g /\ ordered h (size g - h) (view g').
Proof.
  intros Hg Hh. destruct (decide (size g <= h)) as [Hle|Hgt].
  { exists g. unfold foreach. replace (Z.to_nat (size g - h - 0)) with 0%nat by lia.
    split_and!; [done..|]. intros i Hi. lia. }
  destruct (foreach_rule (fun base g' => ok g' /\ view g' ≡ₚ view g /\ ordered h base (view g'))
    (fun base g => shell_insert g base h) 0 (size g - h) g) as (g' & -> & Hg' & Hp & Ho); [lia| | |].
  - intros base g' Hbase (Hg' & Hp & Ho). pose proof (Permutation_length Hp) as Hlen.
    destruct (shell_insert_spec g' base h Hg') as (g2 & -> & Hg2 & Hp2 & Ho2); [lia|lia|lia|done|].
    exists g2. split_and!; [done|done| |done]. by rewrite Hp2.
  - split_and!; [done|done|]. intros i Hi. lia.
  - by exists g'.
Qed.

(** The strides 1, 4, 13, 40, ... of the source. *)
Inductive good_stride : Z -> Prop :=
| good_1 : good_stride 1
| good_S s : good_stride s -> good_stride (3 * s + 1).

Lemma good_pos s : good_stride s -> 1 <= s.
Proof. induction 1; lia. Qed.

(** Number of bits, 0 for 0: it shrinks when a length is halved or a stride divided by three. *)
Definition bits (x : Z) : nat := if x <=? 0 then 0%nat else S (Z.to_nat (Z.log2 x)).

Lemma bits_lt x y : 0 < y -> 2 * x <= y -> (bits x < bits y)%nat.
Proof.
  intros Hy Hxy. unfold bits. rewrite (proj2 (Z.leb_gt y 0)) by lia. destruct (x <=? 0) eqn:E; zbool; [lia|].
  pose proof (Z.log2_le_mono (2 * x) y Hxy) as Hl. rewrite Z.log2_double in Hl by lia.
  pose proof (Z.log2_nonneg x). lia.
Qed.

Lemma bits_bound x k : x < 2 ^ Z.of_nat k -> (bits x <= k)%nat.
Proof.
  intros Hx. unfold bits. destruct (x <=? 0) eqn:E; zbool; [lia|].
  assert (Z.log2 x < Z.of_nat k) by (apply Z.log2_lt_pow2; lia). pose proof (Z.log2_nonneg x). lia.
Qed.

(** The strides lie between powers of three: the last one that does not overflow an int is
    1743392200, and the one before it 581130733. *)
Lemma good_stride_power s k : good_stride s -> 2 * s + 1 < 3 ^ (k + 1) -> 0 <= k -> 2 * s + 1 <= 3 ^ k.
Proof.
  intros Hs. revert k. induction Hs as [|s Hs IH]; intros k Hlt Hk.
  - destruct (decide (k = 0)) as [->|]; [simpl in Hlt; lia|]. change (2 * 1 + 1) with (3 ^ 1).
    apply Z.pow_le_mono_r; lia.
  - rewrite Z.pow_add_r in Hlt by lia. change (3 ^ 1) with 3 in Hlt. pose proof (good_pos s Hs).
    destruct (decide (k = 0)) as [->|]; [simpl in Hlt; lia|]. specialize (IH (k - 1)).
    replace (k - 1 + 1) with k in IH by lia. specialize (IH ltac:(lia) ltac:(lia)).
    replace k with (k - 1 + 1) by lia. rewrite Z.pow_add_r by lia. change (3 ^ 1) with 3. lia.
Qed.

Lemma shell_stride_spec n :
  0 <= n <= 1743392200 ->
  exists s, shell_stride n = Some s /\ (s = 0 /\ n <= 1 \/ good_stride s /\ s < n).
Proof.
  intros Hn. unfold shell_stride.
  loop_with (fun s => good_stride s /\ (s = 1 \/ exists t, s = 3 * t + 1 /\ good_stride t /\ t < n))
    (fun s => (61 - bits s)%nat)
    (fun s => n <= s /\ (s = 1 \/ exists t, s = 3 * t + 1 /\ good_stride t /\ t < n))
    as (s & -> & Hns & Hs).
  - intros s [Hg Hs]. pose proof (good_pos s Hg). destruct (s <? n) eqn:E; zbool; [|done].
    pose proof (good_stride_power s 19 Hg) as Hpow. change (3 ^ (19 + 1)) with 3486784401 in Hpow.
    change (3 ^ 19) with 1162261467 in Hpow. rewrite s32_small by lia. split; [split; [by constructor|right; eauto]|].
    pose proof (bits_lt s (3 * s + 1) ltac:(lia) ltac:(lia)). pose proof (bits_bound s 60). simpl in *. lia.
  - split; [constructor|by left].
  - lia.
  - cbn [mbind option_bind]. destruct Hs as [-> | (t & -> & Hg & Ht)].
    + exists 0. split; [done|]. left. lia.
    + exists t. split; [f_equal; lia|]. by right.
Qed.

Lemma shell_sort_spec g :
  ok g -> size g <= 1743392200 ->
  exists g', shell_sort g = Some g' /\ ok g' /\ view g' ≡ₚ view g /\ ordered 1 (size g - 1) (view g').
Proof.
  intros Hg Hs. unfold shell_sort. rewrite (asize_view g Hg).
  destruct (shell_stride_spec (size g)) as (s & -> & Hst); [lia|]. cbn [mbind option_bind].
  loop_with (fun '(g', s) => ok g' /\ view g' ≡ₚ view g /\
      (s = 0 /\ ordered 1 (size g - 1) (view g') \/ good_stride s /\ s < size g))
    (fun '(_, s) => bits s)
    (fun g' => ok g' /\ view g' ≡ₚ view g /\ ordered 1 (size g - 1) (view g'))
    as (g' & -> & Hg' & Hp & Ho); [| | |by exists g'].
  - intros [g' t] (Hg' & Hp & Ht). pose proof (Permutation_length Hp) as Hlen.
    destruct (t =? 0) eqn:E; zbool; simpl negb; cbv iota zeta.
    + destruct Ht as [[_ Ho]|[Ht _]]; [done|]. apply good_pos in Ht. lia.
    + destruct Ht as [[? _]|[Ht Hlt]]; [lia|]. pose proof (good_pos t Ht).
      destruct (shell_pass g' t Hg' ltac:(lia)) as (g2 & Hf & Hg2 & Hp2 & Ho2).
      rewrite Hlen in Hf, Ho2. rewrite Hf. cbn [mbind option_bind]. split.
      * split; [done|]. split; [by rewrite Hp2|]. destruct Ht as [|t Ht]; [left; by split|right].
        replace ((3 * t + 1) / 3) with t by lia. split; [done|lia].
      * apply bits_lt; lia.
  - split; [done|]. split; [done|]. destruct Hst as [[-> Hle]|Hst]; [|by right]. left.
    split; [done|]. intros i Hi. lia.
  - pose proof (bits_bound s 60). destruct Hst as [[-> _]|[_ Hlt]]; [simpl; lia|]. simpl in *. lia.
Qed.

(** Pairwise order from the order of neighbours. *)
Lemma ordered_le (l : list Z) i j :
  ordered 1 (Z.of_nat (length l) - 1) l -> 0 <= i <= j -> j < Z.of_nat (length l) -> at_ l i <= at_ l j.
Proof.
  intros Ho [Hi Hij] Hj. replace j with (i + Z.of_nat (Z.to_nat (j - i))) in * by lia.
  induction (Z.to_nat (j - i)) as [|d IH]; [by rewrite Z.add_0_r|].
  etransitivity; [apply IH; lia|]. etransitivity; [apply Ho; lia|]. apply Z.eq_le_incl. f_equal. lia.
Qed.

Lemma bsearch_spec g grp :
  ok g -> size g <= 1743392200 -> ordered 1 (size g - 1) (view g) ->
  (forall x, x ∈ view g -> -2147483648 <= grp - x < 2147483648) ->
  bsearch g grp = Some (if bool_decide (grp ∈ view g) then 1 else 0).
Proof.
  intros Hg Hs Ho Hw. unfold bsearch. rewrite (asize_view g Hg).
  loop_with (fun '(lft, rgt) => 0 <= lft <= rgt /\ rgt <= size g /\
      forall i, 0 <= i < size g -> at_ (view g) i = grp -> lft <= i < rgt)
    (fun '(lft, rgt) => bits (rgt - lft))
    (fun r => r = if bool_decide (grp ∈ view g) then 1 else 0) as (r & -> & ->); [| | |done].
  - intros [lft rgt] (Hl & Hr & Hin). destruct (lft <? rgt) eqn:E; zbool; cbv zeta.
    + set (mid := (lft + rgt) / 2). rewrite aget_at by (done || lia). cbn [mbind option_bind].
      set (x := at_ (view g) mid).
      assert (x ∈ view g) as Hx by (apply list_elem_of_lookup_total_2; lia).
      pose proof (Hw x Hx) as Hd. assert (s32 (u32 (grp - x)) = grp - x) as -> by (unfold s32, u32; lia).
      destruct (0 <? grp - x) eqn:E1; zbool; [|destruct (grp - x <? 0) eqn:E2; zbool].
      * split; [|apply bits_lt; lia]. split_and!; [lia|lia|lia|]. intros i Hi Hgrp.
        specialize (Hin i Hi Hgrp). destruct (decide (i <= mid)); [|lia].
        pose proof (ordered_le (view g) i mid Ho ltac:(lia) ltac:(lia)) as Hle. fold x in Hle. lia.
      * split; [|apply bits_lt; lia]. split_and!; [lia|lia|lia|]. intros i Hi Hgrp.
        specialize (Hin i Hi Hgrp). destruct (decide (mid <= i)); [|lia].
        pose proof (ordered_le (view g) mid i Ho ltac:(lia) ltac:(lia)) as Hle. fold x in Hle. lia.
      * rewrite bool_decide_eq_true_2; [done|]. by replace grp with x by lia.
    + rewrite bool_decide_eq_false_2; [done|]. intros (i & Hi)%list_elem_of_lookup.
      pose proof (lookup_lt_Some _ _ _ Hi). specialize (Hin (Z.of_nat i) ltac:(lia)).
      unfold at_ in Hin. rewrite Nat2Z.id in Hin. apply list_lookup_total_correct in Hi. specialize (Hin Hi). lia.
  - split_and!; [lia|lia|lia|]. intros. lia.
  - rewrite Z.sub_0_r. pose proof (bits_bound (size g) 60). simpl in *. lia.
Qed.
End Shell.

(** * The block table as an array *)

Definition gids (gi : group_info) : list Z :=
  (fun i => default 0 (GROUP_AT gi i)) <$> seqZ 0 gi.(ngroups).

Definition gi_ok (gi : group_info) : Prop :=
  0 <= gi.(ngroups) /\ forall i, 0 <= i < gi.(ngroups) -> is_Some (GROUP_AT gi i).

Lemma gids_length gi : length (gids gi) = Z.to_nat gi.(ngroups).
Proof. unfold gids. by rewrite length_fmap, length_seqZ. Qed.

Lemma gids_at gi i : 0 <= i < gi.(ngroups) -> at_ (gids gi) i = default 0 (GROUP_AT gi i).
Proof.
  intros Hi. unfold at_, gids. apply list_lookup_total_correct. rewrite list_lookup_fmap.
  rewrite lookup_seqZ_lt by lia. rewrite Z.add_0_l, Z2Nat.id by lia. done.
Qed.

(** Two positions are the same cell only if they are the same. *)
Lemma same_cell i j :
  i / NGROUPS_PER_BLOCK = j / NGROUPS_PER_BLOCK -> i mod NGROUPS_PER_BLOCK = j mod NGROUPS_PER_BLOCK ->
  i = j.
Proof. unfold NGROUPS_PER_BLOCK. lia. Qed.

Lemma GROUP_SET_spec gi i x y :
  GROUP_AT gi i = Some y ->
  exists gi', GROUP_SET gi i x = Some gi' /\ gi'.(ngroups) = gi.(ngroups) /\
    forall j, 0 <= j -> GROUP_AT gi' j = if bool_decide (j = i) then Some x else GROUP_AT gi j.
Proof.
  unfold GROUP_AT, GROUP_SET. intros Hy.
  destruct (rd (blocks gi) (i / NGROUPS_PER_BLOCK)) as [b|] eqn:Eb; [|done]. cbn [mbind option_bind] in *.
  pose proof (rd_inv _ _ _ Eb) as [Hb _]. pose proof (rd_inv _ _ _ Hy) as [Hi _].
  rewrite wr_Some by done. cbn [mbind option_bind]. rewrite wr_Some by done. cbn [mbind option_bind].
  eexists. split; [done|]. split; [done|]. intros j Hj. simpl. rewrite rd_insert by done.
  case_bool_decide as H1; cbn [mbind option_bind].
  - rewrite rd_insert by done. case_bool_decide as H2.
    + rewrite bool_decide_eq_true_2; [done|]. by apply same_cell.
    + rewrite H1, Eb. cbn [mbind option_bind]. rewrite bool_decide_eq_false_2; [done|]. by intros ->.
  - rewrite bool_decide_eq_false_2; [done|]. by intros ->.
Qed.

(** Sorting keeps the layout: stores do not change the shape of the table. *)
Definition same_shape (gi gi' : group_info) : Prop :=
  usage gi' = usage gi /\ ngroups gi' = ngroups gi /\ nblocks gi' = nblocks gi /\
  (length <$> blocks gi') = (length <$> blocks gi).

Lemma GROUP_SET_shape gi i x gi' : GROUP_SET gi i x = Some gi' -> same_shape gi gi'.
Proof.
  unfold GROUP_SET. destruct (rd (blocks gi) _) as [b|] eqn:Eb; [|done]. cbn [mbind option_bind].
  destruct (wr b _ x) as [b'|] eqn:Ew; [|done]. cbn [mbind option_bind].
  destruct (wr (blocks gi) _ b') as [bs|] eqn:Es; [|done]. cbn [mbind option_bind]. intros. simplify_eq.
  split_and!; [done..|]. simpl. apply wr_inv in Es as [Hi ->]. apply wr_inv in Ew as [_ ->].
  rewrite list_fmap_insert, length_insert. apply list_insert_id. rewrite list_lookup_fmap.
  apply rd_inv in Eb as [_ ->]. done.
Qed.

(** The invariant of the array also fixes the shape of the table. *)
Definition gi_inv (gi0 gi : group_info) : Prop := gi_ok gi /\ same_shape gi0 gi.

#[global] Instance group_laws gi0 : ArrayLaws group_info (gi_inv gi0) gids.
Proof.
  split.
  - intros gi [[H0 _] _]. rewrite gids_length. simpl. lia.
  - intros gi i [[H0 Hok] _] Hi. simpl in *. rewrite gids_at by done. by destruct (Hok i Hi) as [x ->].
  - intros gi i x [[H0 Hok] Hsh] Hi. simpl in *. destruct (Hok i Hi) as [y Hy].
    destruct (GROUP_SET_spec gi i x y Hy) as (gi' & Hset & Hn & Hget). exists gi'. split; [done|].
    split; [split|].
    + split; [by rewrite Hn|]. rewrite Hn. intros j Hj. rewrite Hget by lia. case_bool_decide; eauto.
    + apply GROUP_SET_shape in Hset. unfold same_shape in *. intuition congruence.
    + apply list_eq_same_length with (n := Z.to_nat (ngroups gi)).
      * by rewrite length_insert, gids_length.
      * by rewrite gids_length, Hn.
      * intros k u v Hk Hu Hv. apply list_lookup_total_correct in Hu, Hv. subst u v.
        pose proof (gids_at gi' (Z.of_nat k) ltac:(lia)) as H1.
        pose proof (at_insert (gids gi) i (Z.of_nat k) x ltac:(rewrite gids_length; lia) ltac:(lia)) as H2.
        unfold at_ in *. rewrite !Nat2Z.id in *. rewrite H1, H2, Hget by lia.
        case_bool_decide; [done|]. pose proof (gids_at gi (Z.of_nat k) ltac:(lia)) as H3.
        unfold at_ in H3. by rewrite Nat2Z.id in H3.
Qed.

(** * Allocation and copies *)

(** Block [k] can hold its share of [n] ids. *)
Definition layout (n nb : Z) (bs : list (list Z)) : Prop :=
  0 <= n /\ 0 < nb /\ NGROUPS_PER_BLOCK * (nb - 1) <= n <= NGROUPS_PER_BLOCK * nb /\
  Z.of_nat (length bs) = nb /\
  forall k b, rd bs k = Some b -> Z.min NGROUPS_PER_BLOCK (n - NGROUPS_PER_BLOCK * k) <= Z.of_nat (length b).

Definition some_page_fails (page : Z -> bool) (n : Z) : Prop :=
  exists i, 0 <= i /\ NGROUPS_PER_BLOCK * i < n /\ page i = false.

Lemma alloc_pages (page : Z -> bool) (blk : list Z) n bs0 :
  match foreach_up n (Z.of_nat (length bs0)) (fun i bs => if page i then Some (bs ++ [blk]) else None) bs0 with
  | Some bs => bs = bs0 ++ replicate n blk /\
      forall i, Z.of_nat (length bs0) <= i < Z.of_nat (length bs0) + Z.of_nat n -> page i = true
  | None => exists i, Z.of_nat (length bs0) <= i < Z.of_nat (length bs0) + Z.of_nat n /\ page i = false
  end.
Proof.
  revert bs0. induction n as [|n IH]; intros bs0.
  - simpl. rewrite app_nil_r. split; [done|]. intros. lia.
  - rewrite foreach_up_S. destruct (page (Z.of_nat (length bs0))) eqn:E; [|exists (Z.of_nat (length bs0)); split; [lia|done]].
    specialize (IH (bs0 ++ [blk])). rewrite length_app in IH. simpl in IH.
    replace (Z.of_nat (length bs0 + 1)) with (Z.of_nat (length bs0) + 1) in IH by lia.
    destruct (foreach_up n _ _ _) as [bs|].
    + destruct IH as [-> Hp]. split; [by rewrite <- app_assoc|]. intros i Hi.
      destruct (decide (i = Z.of_nat (length bs0))) as [->|]; [done|]. apply Hp. lia.
    + destruct IH as (i & Hi & Hp). exists i. split; [lia|done].
Qed.

(** An allocation fails exactly when memory runs out, and otherwise has room for the ids. *)
Lemma groups_alloc_spec km page junk n :
  0 <= n <= NGROUPS_MAX ->
  match groups_alloc km page junk n with
  | Some gi => km = true /\ (NGROUPS_SMALL < n -> forall i, 0 <= i -> NGROUPS_PER_BLOCK * i < n -> page i = true) /\
      usage gi = 1 /\ ngroups gi = n /\ layout n (nblocks gi) (blocks gi)
  | None => km = false \/ NGROUPS_SMALL < n /\ some_page_fails page n
  end.
Proof.
  intros Hn. unfold groups_alloc, NGROUPS_MAX, NGROUPS_SMALL, NGROUPS_PER_BLOCK in *.
  set (nb := if (n + 1024 - 1) / 1024 =? 0 then 1 else (n + 1024 - 1) / 1024).
  assert (nb = Z.max 1 ((n + 1023) / 1024)) as Hnb
    by (subst nb; destruct ((n + 1024 - 1) / 1024 =? 0) eqn:E; zbool; lia).
  destruct km; [|by left]. simpl negb. cbv iota. destruct (n <=? 32) eqn:E; zbool.
  - simpl usage. split_and!; [done|lia|done|done|]. unfold layout, NGROUPS_PER_BLOCK. simpl.
    split_and!; [lia|lia|lia|lia|lia|]. intros k b Hk. apply rd_inv in Hk as [Hk Hb]. simpl in Hk.
    replace (Z.to_nat k) with 0%nat in Hb by lia. simpl in Hb. simplify_eq. simpl. lia.
  - unfold foreach. rewrite Z.sub_0_r. pose proof (length_replicate (Z.to_nat 1024) junk) as Hblk.
    set (blk := replicate (Z.to_nat 1024) junk) in *. clearbody blk.
    pose proof (alloc_pages page blk (Z.to_nat nb) []) as Ha.
    change (Z.of_nat (length [])) with 0 in Ha. rewrite app_nil_l in Ha.
    destruct (foreach_up _ _ _ _) as [bs|].
    + destruct Ha as [-> Hp]. split_and!; [done| |done|done|].
      * intros _ i Hi Hin. apply Hp. lia.
      * unfold layout, NGROUPS_PER_BLOCK. cbn [nblocks blocks]. rewrite length_replicate.
        split_and!; [lia|lia|lia|lia|lia|]. intros k b Hk. apply rd_inv in Hk as [Hk Hb].
        apply lookup_replicate in Hb as [-> _]. lia.
    + right. split; [lia|]. destruct Ha as (i & Hi & Hp). exists i. unfold NGROUPS_PER_BLOCK. split_and!; [lia|lia|done].
Qed.

(** Cells of a block table. *)
Definition cell_of (bs : list (list Z)) (i : Z) : option Z :=
  b ← rd bs (i / NGROUPS_PER_BLOCK); rd b (i mod NGROUPS_PER_BLOCK).

Definition faulty (fault : Z -> bool) (nb : Z) : Prop := exists i, 0 <= i < nb /\ fault i = true.

(** The body of the copy loops, on the blocks. *)
Definition copy_in (fault : Z -> bool) (L : list Z) (i : Z) (st : list (list Z) * Z)
  : option (ctl (list (list Z) * Z) (list (list Z))) :=
  let '(bs, count) := st in
  let cp_count := Z.min NGROUPS_PER_BLOCK count in
  if fault i then Some (Ret bs)
  else
    b ← rd bs i;
    b ← memcpy b 0 L (i * NGROUPS_PER_BLOCK) cp_count;
    bs ← wr bs i b;
    Some (Next (bs, count - cp_count)).

(** The first [k] blocks are copied and none of them faulted. *)
Definition copied (fault : Z -> bool) (L : list Z) (n nb k : Z) (st : list (list Z) * Z) : Prop :=
  layout n nb st.1 /\ st.2 = n - Z.min n (NGROUPS_PER_BLOCK * k) /\
  (forall i, 0 <= i < k -> fault i = false) /\
  forall i, 0 <= i < n -> i < NGROUPS_PER_BLOCK * k -> cell_of st.1 i = rd L i.

Lemma copy_in_step fault L n nb k st :
  n <= Z.of_nat (length L) -> 0 <= k < nb -> copied fault L n nb k st ->
  match copy_in fault L k st with
  | Some (Next st') => copied fault L n nb (k + 1) st'
  | Some (Ret _) => faulty fault nb
  | None => False
  end.
Proof.
  destruct st as [bs count]. intros HL Hk (Hlay & Hc & Hf & Hcell). simpl in *.
  destruct (fault k) eqn:Efk; [exists k; by split|]. subst count.
  set (cp := Z.min NGROUPS_PER_BLOCK (n - Z.min n (NGROUPS_PER_BLOCK * k))).
  pose proof Hlay as (H0 & Hnb & Hcap & Hlen & Hblk). unfold NGROUPS_PER_BLOCK in *.
  destruct (rd_Some bs k ltac:(lia)) as [b Hb]. rewrite Hb. cbn [mbind option_bind].
  pose proof (Hblk k b Hb) as Hbl.
  destruct (memcpy_Some b 0 L (k * 1024) cp) as (b' & -> & Hlb & _ & Hrd); [lia..|].
  cbn [mbind option_bind]. rewrite wr_Some by lia. cbn [mbind option_bind].
  unfold copied, NGROUPS_PER_BLOCK. simpl. split_and!; [|lia| |].
  - unfold layout, NGROUPS_PER_BLOCK. split_and!; [lia|lia|lia|lia|by rewrite length_insert|]. intros j c Hj. rewrite rd_insert in Hj by lia.
    case_bool_decide as Ej; [|by apply Hblk]. subst j. simplify_eq Hj. intros <-. rewrite Hlb. exact Hbl.
  - intros i Hi. destruct (decide (i = k)) as [->|]; [done|]. apply Hf. lia.
  - intros i Hi Hik. unfold cell_of, NGROUPS_PER_BLOCK. rewrite rd_insert by lia. case_bool_decide as Ek.
    + cbn [mbind option_bind]. rewrite Hrd, bool_decide_eq_true_2 by lia. f_equal. lia.
    + apply Hcell; lia.
Qed.

Lemma groups_from_user_spec fault gi L :
  layout (ngroups gi) (nblocks gi) (blocks gi) -> ngroups gi <= Z.of_nat (length L) ->
  exists r gi', groups_from_user fault gi L = Some (r, gi') /\ usage gi' = usage gi /\
    ngroups gi' = ngroups gi /\ nblocks gi' = nblocks gi /\
    (r = - EFAULT /\ faulty fault (nblocks gi) \/
     r = 0 /\ ~ faulty fault (nblocks gi) /\
     layout (ngroups gi) (nblocks gi) (blocks gi') /\
     forall i, 0 <= i < ngroups gi -> GROUP_AT gi' i = rd L i).
Proof.
  intros Hlay HL. pose proof Hlay as (H0 & Hnb & Hcap & Hlen & Hblk). unfold groups_from_user.
  pose proof (for_range_rule (copied fault L (ngroups gi) (nblocks gi)) (fun _ => faulty fault (nblocks gi))
    (copy_in fault L) 0 (nblocks gi) (blocks gi, ngroups gi) ltac:(lia)) as Hloop.
  change (fun i '(bs, count) => _) with (copy_in fault L).
  destruct (for_range 0 (nblocks gi) (copy_in fault L) _) as [[[bs count]|bs]|];
    [eexists _, _; split; [done|]; split_and!; [done..|]| eexists _, _; split; [done|]; split_and!; [done..|]|].
  - right. destruct Hloop as (Hl & _ & Hf & Hc); [by intros; apply copy_in_step| |].
    { split_and!; simpl; [done|lia|lia|lia]. }
    split_and!; [done| |done|intros i Hi; apply Hc; [done|lia]].
    intros (i & Hi & Hfi). rewrite Hf in Hfi by lia. done.
  - left. split; [done|]. apply Hloop; [by intros; apply copy_in_step|].
    split_and!; simpl; [done|lia|lia|lia].
  - exfalso. apply Hloop; [by intros; apply copy_in_step|]. split_and!; simpl; [done|lia|lia|lia].
Qed.

Definition copy_out (fault : Z -> bool) (bs : list (list Z)) (i : Z) (st : list Z * Z)
  : option (ctl (list Z * Z) (list Z)) :=
  let '(gl, count) := st in
  let cp_count := Z.min NGROUPS_PER_BLOCK count in
  if fault i then Some (Ret gl)
  else
    b ← rd bs i;
    gl ← memcpy gl (i * NGROUPS_PER_BLOCK) b 0 cp_count;
    Some (Next (gl, count - cp_count)).

Definition exported (fault : Z -> bool) (bs : list (list Z)) (gl0 : list Z) (n k : Z) (st : list Z * Z)
  : Prop :=
  length st.1 = length gl0 /\ st.2 = n - Z.min n (NGROUPS_PER_BLOCK * k) /\
  (forall i, 0 <= i < k -> fault i = false) /\
  forall j, rd st.1 j =
    if bool_decide (0 <= j < Z.min n (NGROUPS_PER_BLOCK * k)) then cell_of bs j else rd gl0 j.

Lemma copy_out_step fault bs gl0 n nb k st :
  layout n nb bs -> n <= Z.of_nat (length gl0) -> 0 <= k < nb -> exported fault bs gl0 n k st ->
  match copy_out fault bs k st with
  | Some (Next st') => exported fault bs gl0 n (k + 1) st'
  | Some (Ret _) => faulty fault nb
  | None => False
  end.
Proof.
  destruct st as [gl count]. intros (H0 & Hnb & Hcap & Hlen & Hblk) HL Hk (Hlg & Hc & Hf & Hcell). simpl in *.
  destruct (fault k) eqn:Efk; [exists k; by split|]. subst count.
  set (cp := Z.min NGROUPS_PER_BLOCK (n - Z.min n (NGROUPS_PER_BLOCK * k))).
  unfold NGROUPS_PER_BLOCK in *. destruct (rd_Some bs k ltac:(lia)) as [b Hb]. rewrite Hb.
  cbn [mbind option_bind]. pose proof (Hblk k b Hb) as Hbl.
  destruct (memcpy_Some gl (k * 1024) b 0 cp) as (gl' & -> & Hlb & _ & Hrd); [lia..|].
  cbn [mbind option_bind]. unfold exported, NGROUPS_PER_BLOCK. simpl. split_and!; [lia|lia| |].
  - intros i Hi. destruct (decide (i = k)) as [->|]; [done|]. apply Hf. lia.
  - intros j. rewrite Hrd. case_bool_decide as Hj.
    + rewrite bool_decide_eq_true_2 by lia. unfold cell_of, NGROUPS_PER_BLOCK.
      replace (j / 1024) with k by lia. rewrite Hb. cbn [mbind option_bind]. f_equal. lia.
    + rewrite Hcell. repeat case_bool_decide; (done || lia).
Qed.

Lemma groups_to_user_spec fault gi gl :
  layout (ngroups gi) (nblocks gi) (blocks gi) -> ngroups gi <= Z.of_nat (length gl) ->
  exists r gl', groups_to_user fault gl gi = Some (r, gl') /\
    (r = - EFAULT /\ faulty fault (nblocks gi) \/
     r = 0 /\ ~ faulty fault (nblocks gi) /\ length gl' = length gl /\
     forall j, rd gl' j = if bool_decide (0 <= j < ngroups gi) then GROUP_AT gi j else rd gl j).
Proof.
  intros Hlay HL. pose proof Hlay as (H0 & Hnb & Hcap & Hlen & Hblk). unfold groups_to_user.
  pose proof (for_range_rule (exported fault (blocks gi) gl (ngroups gi)) (fun _ => faulty fault (nblocks gi))
    (copy_out fault (blocks gi)) 0 (nblocks gi) (gl, ngroups gi) ltac:(lia)
    ltac:(by intros; apply copy_out_step)) as Hloop.
  assert (exported fault (blocks gi) gl (ngroups gi) 0 (gl, ngroups gi)) as Hstart.
  { split_and!; simpl; [done|lia|lia|]. intros j. by rewrite bool_decide_eq_false_2 by lia. }
  specialize (Hloop Hstart). change (fun i '(gl, count) => _) with (copy_out fault (blocks gi)).
  destruct (for_range 0 (nblocks gi) (copy_out fault (blocks gi)) _) as [[[gl' count]|gl']|];
    [| |done]; eexists _, _; (split; [done|]); [right|by left].
  destruct Hloop as (Hl & _ & Hf & Hc). simpl in Hl, Hc. split_and!; [done| |done|].
  - intros (i & Hi & Hfi). rewrite Hf in Hfi by lia. done.
  - intros j. rewrite Hc. rewrite Z.min_l by lia. done.
Qed.

(** * System calls *)

(** The ids of a list as the kernel holds them: sorted. *)
Definition sorted_ids (l : list Z) : Prop := ordered 1 (Z.of_nat (length l) - 1) l.

(** A group list in use: laid out in blocks, all ids readable. *)
Lemma layout_ok gi : layout (ngroups gi) (nblocks gi) (blocks gi) -> gi_ok gi.
Proof.
  intros (H0 & Hnb & Hcap & Hlen & Hblk). split; [done|]. intros i Hi. unfold GROUP_AT, NGROUPS_PER_BLOCK in *.
  destruct (rd_Some (blocks gi) (i / 1024) ltac:(lia)) as [b Hb]. rewrite Hb. cbn [mbind option_bind].
  pose proof (Hblk _ b Hb). apply rd_Some. lia.
Qed.

Lemma layout_shape gi gi' :
  same_shape gi gi' -> layout (ngroups gi) (nblocks gi) (blocks gi) ->
  layout (ngroups gi') (nblocks gi') (blocks gi').
Proof.
  intros (_ & -> & -> & Hl) (H0 & Hnb & Hcap & Hlen & Hblk).
  assert (length (blocks gi') = length (blocks gi)) as Hll
    by (rewrite <- (length_fmap length (blocks gi')), Hl; by rewrite length_fmap).
  split_and!; [done|done|lia|lia|lia|]. intros k b Hk.
  pose proof (rd_fmap length (blocks gi') k) as H1. pose proof (rd_fmap length (blocks gi) k) as H2.
  rewrite Hl, H2, Hk in H1. destruct (rd (blocks gi) k) as [b'|] eqn:E; [|done]. simpl in H1. simplify_eq H1.
  intros <-. by apply Hblk.
Qed.


Lemma groups_sort_spec gi :
  gi_ok gi -> ngroups gi <= 1743392200 ->
  exists gi', groups_sort gi = Some gi' /\ same_shape gi gi' /\ gi_ok gi' /\
    gids gi' ≡ₚ gids gi /\ sorted_ids (gids gi').
Proof.
  intros Hok Hn. assert (gi_inv gi gi) as Hinv by (by repeat split; destruct Hok).
  pose proof Hok as [H0 _].
  destruct (shell_sort_spec (gi_inv gi) gids gi Hinv) as (gi' & Hs & [Hok' Hsh] & Hp & Ho);
    [rewrite gids_length; lia|].
  exists gi'. split_and!; [done|apply Hsh..|done|done|]. unfold sorted_ids. by rewrite (Permutation_length Hp).
Qed.

Lemma groups_search_spec gi grp :
  gi_ok gi -> ngroups gi <= 1743392200 -> sorted_ids (gids gi) ->
  (forall x, x ∈ gids gi -> -2147483648 <= grp - x < 2147483648) ->
  groups_search (Some gi) grp = Some (if bool_decide (grp ∈ gids gi) then 1 else 0).
Proof.
  intros Hok Hn Hs Hw. assert (gi_inv gi gi) as Hinv by (by repeat split; destruct Hok).
  pose proof Hok as [H0 _]. apply (bsearch_spec (gi_inv gi) gids); [done|rewrite gids_length; lia|done|done].
Qed.

(** The ids read from user space. *)
Lemma gids_from gi L :
  gi_ok gi -> ngroups gi <= Z.of_nat (length L) ->
  (forall i, 0 <= i < ngroups gi -> GROUP_AT gi i = rd L i) -> gids gi = take (Z.to_nat (ngroups gi)) L.
Proof.
  intros [H0 _] HL Hg. apply list_eq_same_length with (n := Z.to_nat (ngroups gi)).
  - rewrite length_take. lia.
  - by rewrite gids_length.
  - intros k x y Hk Hx Hy. rewrite lookup_take_lt in Hy by lia.
    pose proof (gids_at gi (Z.of_nat k) ltac:(lia)) as Hat. rewrite Hg in Hat by lia.
    unfold at_, rd in Hat. rewrite bool_decide_eq_true_2, Nat2Z.id in Hat by lia.
    apply list_lookup_total_correct in Hx. rewrite Hy in Hat. simpl in Hat. congruence.
Qed.

(** The reasons why setgroups fails, each after the checks before it. *)
Inductive setgroups_error (e : env) (n : Z) : Z -> Prop :=
| err_perm : capable_setgid e = false -> setgroups_error e n EPERM
| err_size : capable_setgid e = true -> NGROUPS_MAX < u32 n -> setgroups_error e n EINVAL
| err_alloc : capable_setgid e = true -> u32 n <= NGROUPS_MAX ->
    kmalloc_ok e = false \/ NGROUPS_SMALL < n /\ some_page_fails (page_ok e) n ->
    setgroups_error e n ENOMEM
| err_fault : capable_setgid e = true -> u32 n <= NGROUPS_MAX -> kmalloc_ok e = true ->
    (exists i, 0 <= i /\ NGROUPS_PER_BLOCK * i <= n /\ fault_at e i = true) -> setgroups_error e n EFAULT
| err_prepare : capable_setgid e = true -> u32 n <= NGROUPS_MAX -> kmalloc_ok e = true ->
    prepare_ok e = false -> setgroups_error e n ENOMEM.

Definition cred_ok (c : cred) : Prop :=
  layout (ngroups (groups c)) (nblocks (groups c)) (blocks (groups c)) /\
  ngroups (groups c) <= NGROUPS_MAX /\ sorted_ids (gids (groups c)).

Lemma small_size n : -2147483648 <= n < 2147483648 -> u32 n <= NGROUPS_MAX -> 0 <= n <= NGROUPS_MAX.
Proof. unfold u32, NGROUPS_MAX. lia. Qed.

Lemma setgroups_spec e c n L :
  -2147483648 <= n < 2147483648 -> n <= Z.of_nat (length L) ->
  (exists err, setgroups e c n L = Some (- err, c) /\ setgroups_error e n err) \/
  (exists c', setgroups e c n L = Some (0, c') /\ fsuid c' = fsuid c /\ fsgid c' = fsgid c /\
     egid c' = egid c /\ usage (groups c') = 1 /\ ngroups (groups c') = n /\ cred_ok c' /\
     gids (groups c') ≡ₚ take (Z.to_nat n) L).
Proof.
  intros Hn HL. unfold setgroups. destruct (capable_setgid e) eqn:Ec; simpl negb; cbv iota.
  2:{ left. exists EPERM. split; [done|by constructor]. }
  destruct (NGROUPS_MAX <? u32 n) eqn:Es; zbool.
  { left. exists EINVAL. split; [done|by constructor]. }
  pose proof (small_size n Hn Es) as Hn'.
  pose proof (groups_alloc_spec (kmalloc_ok e) (page_ok e) (junk e) n Hn') as Ha.
  destruct (groups_alloc _ _ _ n) as [gi|]; [|left; exists ENOMEM; split; [done|by apply err_alloc]].
  destruct Ha as (Hkm & _ & Hus & Hng & Hlay). rewrite <- Hng in Hlay.
  destruct (groups_from_user_spec (fault_at e) gi L Hlay ltac:(lia)) as (r & gi1 & -> & Hu1 & Hn1 & Hb1 & Hr).
  cbn [mbind option_bind]. destruct Hr as [[-> Hf]|(-> & _ & Hlay1 & Hg1)]; cbv beta iota.
  { left. exists EFAULT. split; [done|]. apply err_fault; [done..|]. destruct Hf as (i & Hi & Hfi).
    exists i. destruct Hlay as (_ & _ & Hcap & _). unfold NGROUPS_PER_BLOCK in *. split_and!; [lia|lia|done]. }
  simpl negb. cbv iota. unfold set_current_groups, prepare_creds. destruct (prepare_ok e) eqn:Ep.
  2:{ left. exists ENOMEM. split; [done|by apply err_prepare]. }
  assert (gi_ok gi1) as Hok1 by (apply layout_ok; by rewrite Hn1, Hb1).
  unfold set_groups. unfold NGROUPS_MAX in *.
  destruct (groups_sort_spec gi1 Hok1) as (gi2 & -> & Hsh & Hok2 & Hp2 & Hs2); [lia|].
  right. cbn [mbind option_bind]. cbv beta iota. simpl. eexists. split; [done|].
  pose proof Hsh as (Hu2 & Hn2 & Hb2 & _). cbn [fsuid fsgid egid groups usage ngroups nblocks blocks].
  assert (layout (ngroups gi2) (nblocks gi2) (blocks gi2)) as Hlay2.
  { apply (layout_shape gi1); [done|]. by rewrite Hn1, Hb1. }
  do 3 (split; [done|]). split; [simpl; lia|]. split; [simpl; lia|].
  split; [split_and!; [done|unfold NGROUPS_MAX; simpl; lia|done]|].
  change (gids (put_group_info (get_group_info gi2))) with (gids gi2). rewrite Hp2.
  rewrite (gids_from gi1 L Hok1) by (try (rewrite Hn1; done); lia). by rewrite Hn1, Hng.
Qed.

Lemma getgroups_spec c n gl :
  cred_ok c -> ngroups (groups c) <= n -> 0 < n -> ngroups (groups c) <= Z.of_nat (length gl) ->
  exists gl', getgroups (fun _ => false) c n gl = Some (ngroups (groups c), gl') /\
    gl' = gids (groups c) ++ drop (Z.to_nat (ngroups (groups c))) gl.
Proof.
  intros (Hlay & Hmax & _) Hn H0 HL. unfold getgroups. rewrite (proj2 (Z.ltb_ge n 0)) by lia.
  rewrite (proj2 (Z.eqb_neq n 0)) by lia. simpl negb. cbv iota. rewrite (proj2 (Z.ltb_ge n _)) by lia.
  destruct (groups_to_user_spec (fun _ => false) (groups c) gl Hlay HL)
    as (r & gl' & -> & [[_ (i & _ & ?)]|(-> & _ & Hl & Hrd)]); [done|].
  eexists. split; [done|]. pose proof (layout_ok _ Hlay) as [Hp Hok]. pose proof (gids_length (groups c)) as Hgl.
  apply rd_ext; [rewrite length_app, length_drop; lia|]. intros i Hi. rewrite Hrd. unfold rd at 2.
  rewrite (bool_decide_eq_true_2 (0 <= i)) by lia. case_bool_decide as Hin.
  - rewrite lookup_app_l by lia. pose proof (gids_at (groups c) i Hin) as Hat. unfold at_ in Hat.
    destruct (Hok i Hin) as [x Hx]. rewrite Hx in *. simpl in Hat. symmetry.
    rewrite <- Hat. apply list_lookup_lookup_total_lt. lia.
  - rewrite lookup_app_r, lookup_drop by lia. unfold rd. rewrite bool_decide_eq_true_2 by lia. f_equal. lia.
Qed.




(** C23: setgroups either fails with the code of a check that fails and leaves the credentials alone, or
    installs a sorted permutation of the [n] ids given, with one reference, changing nothing else;
    getgroups then returns those ids. groups_sort terminates and leaves the same ids in ascending
    order (for up to 1743392200 ids; beyond, the int stride overflows, but setgroups lets 65536 through), and on a sorted list groups_search answers membership whenever the ids are less than 2^31
    apart from the one searched. Beyond that the 32-bit difference has the wrong sign: a member of
    the list is missed. *)
Theorem groups_correct :
  (forall e c n L,
    -2147483648 <= n < 2147483648 -> n <= Z.of_nat (length L) ->
      (exists err, setgroups e c n L = Some (- err, c) /\ setgroups_error e n err) \/
      (exists c', setgroups e c n L = Some (0, c') /\ fsuid c' = fsuid c /\ fsgid c' = fsgid c /\
         egid c' = egid c /\ usage (groups c') = 1 /\ cred_ok c' /\ gids (groups c') ≡ₚ take (Z.to_nat n) L /\
         forall size gl, n <= size -> 0 < size -> n <= Z.of_nat (length gl) ->
           getgroups (fun _ => false) c' size gl = Some (n, gids (groups c') ++ drop (Z.to_nat n) gl))) /\
  (forall gi grp,
    gi_ok gi -> ngroups gi <= 1743392200 ->
      (forall x, x ∈ gids gi -> -2147483648 <= grp - x < 2147483648) ->
      (exists gi', groups_sort gi = Some gi' /\ gi_ok gi' /\ gids gi' ≡ₚ gids gi /\
         (forall i j, 0 <= i <= j -> j < ngroups gi -> at_ (gids gi') i <= at_ (gids gi') j) /\
         groups_search (Some gi') grp = Some (if bool_decide (grp ∈ gids gi) then 1 else 0)) /\
      groups_search None grp = Some 0 /\
      (let big := GroupInfo 1 3 1 [[1; 2; 2415919104]] in
       gi_ok big /\ sorted_ids (gids big) /\ 2415919104 ∈ gids big /\
       groups_search (Some big) 2415919104 = Some 0)).
Proof.
  split.
  { intros e c n L.
    intros Hn HL. destruct (setgroups_spec e c n L Hn HL) as [H|(c' & H & Hu & Hg & He & Hus & Hng & Hok & Hp)];
      [by left|right].
    exists c'. do 5 (split; [done|]). split; [exact Hok|]. split; [done|]. intros size gl Hsz H0 Hgl.
    destruct (getgroups_spec c' size gl Hok) as (gl' & -> & ->); [lia..|]. by rewrite Hng. }
  { intros gi grp.
    intros Hok Hn Hw. split; [|split; [done|]].
    - destruct (groups_sort_spec gi Hok) as (gi' & Hs & Hsh & Hok' & Hp & Ho); [lia|].
      exists gi'. split_and!; [done|apply Hok'..|done| |].
      + intros i j Hij Hj. apply ordered_le; [done|lia|]. rewrite gids_length. destruct Hsh as (_ & -> & _). lia.
      + pose proof Hsh as (_ & Hn' & _). rewrite groups_search_spec; [|done|lia|done|].
        * f_equal. case_bool_decide as H1; case_bool_decide as H2; try done; by rewrite Hp in H1.
        * intros x. rewrite Hp. apply Hw.
    - cbv zeta. split_and!.
      + split; [simpl; lia|]. intros i Hi. simpl in Hi. assert (i = 0 \/ i = 1 \/ i = 2) as [->|[->| ->]] by lia; eauto.
      + intros i Hi. simpl in Hi. assert (i = 0 \/ i = 1) as [-> | ->] by lia; vm_compute; done.
      + change (gids _) with [1; 2; 2415919104]. do 2 right. left.
      + vm_compute. done. }
Qed.

Lemma groups_correct_witness :
  (exists c', setgroups (Env true true (fun _ => true) 0 (fun _ => false) true)
       (Cred 0 0 0 (GroupInfo 1 0 1 [[]])) 2 [5; 3] = Some (0, c') /\
     getgroups (fun _ => false) c' 2 [0; 0] = Some (2, [3; 5])) /\
  (exists gi', groups_sort (GroupInfo 1 3 1 [[9; 4; 7]]) = Some gi' /\ groups_search (Some gi') 7 = Some 1).
Proof.
  split.
  { destruct (proj1 groups_correct (Env true true (fun _ => true) 0 (fun _ => false) true)
      (Cred 0 0 0 (GroupInfo 1 0 1 [[]])) 2 [5; 3]) as [(err & H & He)|(c' & H & _ & _ & _ & _ & _ & _ & Hg)];
      [lia|simpl; lia| |].
    - exfalso. inversion He; subst; vm_compute in H; discriminate H.
    - exists c'. split; [exact H|]. rewrite Hg by (simpl; lia). vm_compute in H. injection H as <-. reflexivity. }
  { destruct (proj2 groups_correct (GroupInfo 1 3 1 [[9; 4; 7]]) 7) as ((gi' & H1 & _ & _ & _ & H2) & _).
    - split; [simpl; lia|]. intros i Hi. simpl in Hi. assert (i = 0 \/ i = 1 \/ i = 2) as [->|[->| ->]] by lia; eauto.
    - simpl. lia.
    - change (gids _) with [9; 4; 7]. intros x Hx. apply elem_of_cons in Hx as [->|Hx]; [lia|].
      apply elem_of_cons in Hx as [->|Hx]; [lia|]. apply list_elem_of_singleton in Hx as ->. lia.
    - exists gi'. split; [exact H1|]. rewrite H2. reflexivity. }
Defined.
