(* ===== verification/PosixAcl.v ===== *)
(** POSIX access control lists: fs/posix_acl.c.

    An ACL is the array of its entries.  A mode is the 16-bit mode_t of the target; the results
    that the source stores through pointers are returned beside the error code. *)

From S2P Require Import Prelude Order Groups.
From Stdlib Require Import Lia.

Definition EACCES : Z := 13.
Definition EIO : Z := 5.

Definition ACL_UNDEFINED_ID : Z := 4294967295.

Definition ACL_USER_OBJ : Z := 0x01.
Definition ACL_USER : Z := 0x02.
Definition ACL_GROUP_OBJ : Z := 0x04.
Definition ACL_GROUP : Z := 0x08.
Definition ACL_MASK : Z := 0x10.
Definition ACL_OTHER : Z := 0x20.

Definition ACL_READ : Z := 0x04.
Definition ACL_WRITE : Z := 0x02.
Definition ACL_EXECUTE : Z := 0x01.

Definition S_IRWXU : Z := 448.
Definition S_IRWXG : Z := 56.
Definition S_IRWXO : Z := 7.
Definition S_IRWXUGO : Z := 511.

Record posix_acl_entry : Type := AclEntry {
  e_tag : Z;
  e_perm : Z;
  e_id : Z
}.

#[global] Instance posix_acl_entry_inhabited : Inhabited posix_acl_entry := populate (AclEntry 0 0 0).

Record posix_acl : Type := PosixAcl {
  a_refcount : Z;
  a_entries : list posix_acl_entry
}.

Definition set_perm (p : Z) (pa : posix_acl_entry) : posix_acl_entry :=
  AclEntry pa.(e_tag) (u16 p) pa.(e_id).

(** ** Allocation: [blk] is the memory kmalloc returned, with its uninitialised entries. *)

Definition posix_acl_alloc (blk : option (list posix_acl_entry)) : option posix_acl :=
  match blk with
  | Some es => Some (PosixAcl 1 es)
  | None => None
  end.

(** [dup] says whether kmemdup finds memory. *)
Definition posix_acl_clone (dup : bool) (acl : option posix_acl) : option posix_acl :=
  match acl with
  | None => None
  | Some acl => if dup then Some (PosixAcl 1 acl.(a_entries)) else None
  end.

(** ** References: [None] after a release is a freed ACL. *)

Definition posix_acl_dup (acl : option posix_acl) : option posix_acl :=
  match acl with
  | Some acl => Some (PosixAcl (acl.(a_refcount) + 1) acl.(a_entries))
  | None => None
  end.

Definition posix_acl_release (acl : option posix_acl) : option posix_acl :=
  match acl with
  | Some acl =>
      if acl.(a_refcount) - 1 =? 0 then None else Some (PosixAcl (acl.(a_refcount) - 1) acl.(a_entries))
  | None => None
  end.

(** ** Validity *)

Fixpoint valid_scan (es : list posix_acl_entry) (state id : Z) (needs_mask : bool) : Z :=
  match es with
  | [] => if state =? 0 then 0 else - EINVAL
  | pa :: es =>
      if negb (Z.land pa.(e_perm) (Z.lnot (Z.lor (Z.lor ACL_READ ACL_WRITE) ACL_EXECUTE)) =? 0)
      then - EINVAL
      else
        let t := pa.(e_tag) in
        if t =? ACL_USER_OBJ then
          if state =? ACL_USER_OBJ then valid_scan es ACL_USER 0 needs_mask else - EINVAL
        else if t =? ACL_USER then
          if negb (state =? ACL_USER) then - EINVAL
          else if (pa.(e_id) =? ACL_UNDEFINED_ID) || (pa.(e_id) <? id) then - EINVAL
          else valid_scan es state (u32 (pa.(e_id) + 1)) true
        else if t =? ACL_GROUP_OBJ then
          if state =? ACL_USER then valid_scan es ACL_GROUP 0 needs_mask else - EINVAL
        else if t =? ACL_GROUP then
          if negb (state =? ACL_GROUP) then - EINVAL
          else if (pa.(e_id) =? ACL_UNDEFINED_ID) || (pa.(e_id) <? id) then - EINVAL
          else valid_scan es state (u32 (pa.(e_id) + 1)) true
        else if t =? ACL_MASK then
          if negb (state =? ACL_GROUP) then - EINVAL else valid_scan es ACL_OTHER id needs_mask
        else if t =? ACL_OTHER then
          if (state =? ACL_OTHER) || ((state =? ACL_GROUP) && negb needs_mask)
          then valid_scan es 0 id needs_mask else - EINVAL
        else - EINVAL
  end.

Definition posix_acl_valid (acl : posix_acl) : Z := valid_scan acl.(a_entries) ACL_USER_OBJ 0 false.

(** ** Modes *)

Fixpoint equiv_scan (es : list posix_acl_entry) (mode not_equiv : Z) : option (Z * Z) :=
  match es with
  | [] => Some (mode, not_equiv)
  | pa :: es =>
      let t := pa.(e_tag) in
      let p := Z.land pa.(e_perm) S_IRWXO in
      if t =? ACL_USER_OBJ then equiv_scan es (u16 (Z.lor mode (Z.shiftl p 6))) not_equiv
      else if t =? ACL_GROUP_OBJ then equiv_scan es (u16 (Z.lor mode (Z.shiftl p 3))) not_equiv
      else if t =? ACL_OTHER then equiv_scan es (u16 (Z.lor mode p)) not_equiv
      else if t =? ACL_MASK then
        equiv_scan es (u16 (Z.lor (Z.land mode (Z.lnot S_IRWXG)) (Z.shiftl p 3))) 1
      else if (t =? ACL_USER) || (t =? ACL_GROUP) then equiv_scan es mode 1
      else None
  end.

(** Returns the result and the new *mode_p. *)
Definition posix_acl_equiv_mode (acl : posix_acl) (mode_p : Z) : Z * Z :=
  match equiv_scan acl.(a_entries) 0 0 with
  | None => (- EINVAL, mode_p)
  | Some (mode, not_equiv) => (not_equiv, u16 (Z.lor (Z.land mode_p (Z.lnot S_IRWXUGO)) mode))
  end.

(** [inl] is ERR_PTR; the outer [None] an access outside the three entries. *)
Definition posix_acl_from_mode (mode : Z) (blk : option (list posix_acl_entry))
  : option (Z + posix_acl) :=
  match posix_acl_alloc blk with
  | None => Some (inl (- ENOMEM))
  | Some acl =>
      es ← wr acl.(a_entries) 0 (AclEntry ACL_USER_OBJ (Z.shiftr (Z.land mode S_IRWXU) 6) ACL_UNDEFINED_ID);
      es ← wr es 1 (AclEntry ACL_GROUP_OBJ (Z.shiftr (Z.land mode S_IRWXG) 3) ACL_UNDEFINED_ID);
      es ← wr es 2 (AclEntry ACL_OTHER (Z.land mode S_IRWXO) ACL_UNDEFINED_ID);
      Some (inr (PosixAcl acl.(a_refcount) es))
  end.

(** ** Permission *)

Definition check_perm (pa : posix_acl_entry) (want : Z) : Z :=
  if Z.land pa.(e_perm) want =? want then 0 else - EACCES.

(** The label mask: the entries after [pa]. *)
Fixpoint mask_scan (pa : posix_acl_entry) (rest : list posix_acl_entry) (want : Z) : Z :=
  match rest with
  | [] => check_perm pa want
  | mask_obj :: rest =>
      if mask_obj.(e_tag) =? ACL_MASK then
        if Z.land (Z.land pa.(e_perm) mask_obj.(e_perm)) want =? want then 0 else - EACCES
      else mask_scan pa rest want
  end.

(** The calls to in_group_p look at the credentials [c]; [None] is a fault in them. *)
Fixpoint perm_scan (c : cred) (i_uid i_gid want : Z) (es : list posix_acl_entry) (found : bool)
  : option Z :=
  match es with
  | [] => Some (- EIO)
  | pa :: es =>
      let t := pa.(e_tag) in
      let group gid :=
        g ← in_group_p c gid;
        if negb (g =? 0) then
          if Z.land pa.(e_perm) want =? want then Some (mask_scan pa es want)
          else perm_scan c i_uid i_gid want es true
        else perm_scan c i_uid i_gid want es found in
      if t =? ACL_USER_OBJ then
        if i_uid =? c.(fsuid) then Some (check_perm pa want)
        else perm_scan c i_uid i_gid want es found
      else if t =? ACL_USER then
        if pa.(e_id) =? c.(fsuid) then Some (mask_scan pa es want)
        else perm_scan c i_uid i_gid want es found
      else if t =? ACL_GROUP_OBJ then group i_gid
      else if t =? ACL_GROUP then group pa.(e_id)
      else if t =? ACL_MASK then perm_scan c i_uid i_gid want es found
      else if t =? ACL_OTHER then
        if found then Some (- EACCES) else Some (check_perm pa want)
      else Some (- EIO)
  end.

Definition posix_acl_permission (c : cred) (i_uid i_gid : Z) (acl : posix_acl) (want : Z) : option Z :=
  perm_scan c i_uid i_gid want acl.(a_entries) false.

(** ** Masquerading

    The scans rewrite the entries in place and note the positions of the group and mask entries. *)

Record masq : Type := Masq {
  ms_mode : Z;
  group_obj : option nat;
  mask_obj : option nat;
  ms_not_equiv : Z
}.

(** The flag is false when the scan stops at an unknown tag; the entries before it stay modified. *)
Fixpoint create_scan (i : nat) (es : list posix_acl_entry) (s : masq)
  : list posix_acl_entry * masq * bool :=
  match es with
  | [] => ([], s, true)
  | pa :: es =>
      let t := pa.(e_tag) in
      let next pa s :=
        let '(es, s, fine) := create_scan (S i) es s in
        (pa :: es, s, fine) in
      if t =? ACL_USER_OBJ then
        let pa := set_perm (Z.land pa.(e_perm) (Z.lor (Z.shiftr s.(ms_mode) 6) (Z.lnot S_IRWXO))) pa in
        next pa (Masq (u16 (Z.land s.(ms_mode) (Z.lor (Z.shiftl pa.(e_perm) 6) (Z.lnot S_IRWXU))))
                   s.(group_obj) s.(mask_obj) s.(ms_not_equiv))
      else if (t =? ACL_USER) || (t =? ACL_GROUP) then
        next pa (Masq s.(ms_mode) s.(group_obj) s.(mask_obj) 1)
      else if t =? ACL_GROUP_OBJ then
        next pa (Masq s.(ms_mode) (Some i) s.(mask_obj) s.(ms_not_equiv))
      else if t =? ACL_OTHER then
        let pa := set_perm (Z.land pa.(e_perm) (Z.lor s.(ms_mode) (Z.lnot S_IRWXO))) pa in
        next pa (Masq (u16 (Z.land s.(ms_mode) (Z.lor pa.(e_perm) (Z.lnot S_IRWXO))))
                   s.(group_obj) s.(mask_obj) s.(ms_not_equiv))
      else if t =? ACL_MASK then
        next pa (Masq s.(ms_mode) s.(group_obj) (Some i) 1)
      else (pa :: es, s, false)
  end.

(** The group class: the mask entry if there is one, else the owning group. *)
Definition create_class (es : list posix_acl_entry) (k : nat) (mode : Z)
  : list posix_acl_entry * Z :=
  let pa := es !!! k in
  let pa := set_perm (Z.land pa.(e_perm) (Z.lor (Z.shiftr mode 3) (Z.lnot S_IRWXO))) pa in
  (<[k := pa]> es, u16 (Z.land mode (Z.lor (Z.shiftl pa.(e_perm) 3) (Z.lnot S_IRWXG)))).

(** Returns the result, the ACL and *mode_p. *)
Definition posix_acl_create_masq (acl : posix_acl) (mode_p : Z) : Z * posix_acl * Z :=
  let '(es, s, fine) := create_scan 0 acl.(a_entries) (Masq mode_p None None 0) in
  let finish k :=
    let '(es, mode) := create_class es k s.(ms_mode) in
    (s.(ms_not_equiv), PosixAcl acl.(a_refcount) es,
     u16 (Z.lor (Z.land mode_p (Z.lnot S_IRWXUGO)) mode)) in
  let fail := (- EIO, PosixAcl acl.(a_refcount) es, mode_p) in
  if negb fine then fail
  else
    match s.(mask_obj), s.(group_obj) with
    | Some k, _ => finish k
    | None, Some k => finish k
    | None, None => fail
    end.

Fixpoint chmod_scan (i : nat) (es : list posix_acl_entry) (mode : Z) (g k : option nat)
  : list posix_acl_entry * option nat * option nat * bool :=
  match es with
  | [] => ([], g, k, true)
  | pa :: es =>
      let t := pa.(e_tag) in
      let next pa g k :=
        let '(es, g, k, fine) := chmod_scan (S i) es mode g k in
        (pa :: es, g, k, fine) in
      if t =? ACL_USER_OBJ then next (set_perm (Z.shiftr (Z.land mode S_IRWXU) 6) pa) g k
      else if (t =? ACL_USER) || (t =? ACL_GROUP) then next pa g k
      else if t =? ACL_GROUP_OBJ then next pa (Some i) k
      else if t =? ACL_MASK then next pa g (Some i)
      else if t =? ACL_OTHER then next (set_perm (Z.land mode S_IRWXO) pa) g k
      else (pa :: es, g, k, false)
  end.

Definition posix_acl_chmod_masq (acl : posix_acl) (mode : Z) : Z * posix_acl :=
  let '(es, group_obj, mask_obj, fine) := chmod_scan 0 acl.(a_entries) mode None None in
  let finish k :=
    (0, PosixAcl acl.(a_refcount)
          (<[k := set_perm (Z.shiftr (Z.land mode S_IRWXG) 3) (es !!! k)]> es)) in
  let fail := (- EIO, PosixAcl acl.(a_refcount) es) in
  if negb fine then fail
  else
    match mask_obj, group_obj with
    | Some k, _ => finish k
    | None, Some k => finish k
    | None, None => fail
    end.
