(* ===== verification/PosixAclSpec.v ===== *)
(** Correctness of fs/posix_acl.c: the shape of a valid ACL, the access decision of POSIX 1003.1e,
    and the correspondence between ACLs and file modes. *)

From S2P Require Import Prelude Order Groups GroupsSpec PosixAcl.
From Stdlib Require Import Lia.

Implicit Types (es us gs : list posix_acl_entry) (e uo go ot : posix_acl_entry).

(** * The shape of an ACL *)

(** Owner, named users, owning group, named groups, mask, others. *)
Record parts : Type := Parts {
  p_owner : posix_acl_entry;
  p_users : list posix_acl_entry;
  p_group : posix_acl_entry;
  p_groups : list posix_acl_entry;
  p_mask : option posix_acl_entry;
  p_other : posix_acl_entry
}.

Definition entries_of (p : parts) : list posix_acl_entry :=
  p.(p_owner) :: p.(p_users) ++ p.(p_group) :: p.(p_groups) ++ option_list p.(p_mask) ++ [p.(p_other)].

Definition tag_perm (t : Z) e : Prop := e_tag e = t /\ 0 <= e_perm e <= 7.

(** Ids in ascending order, from [lo] on, none of them the undefined one. *)
Fixpoint ascending (lo : Z) (es : list posix_acl_entry) : Prop :=
  match es with
  | [] => True
  | e :: es => lo <= e_id e < ACL_UNDEFINED_ID /\ ascending (e_id e + 1) es
  end.

Definition extended (p : parts) : bool :=
  match p.(p_users), p.(p_groups), p.(p_mask) with [], [], None => false | _, _, _ => true end.

Record well_formed (p : parts) : Prop := {
  wf_owner : tag_perm ACL_USER_OBJ p.(p_owner);
  wf_users : Forall (tag_perm ACL_USER) p.(p_users) /\ ascending 0 p.(p_users);
  wf_group : tag_perm ACL_GROUP_OBJ p.(p_group);
  wf_groups : Forall (tag_perm ACL_GROUP) p.(p_groups) /\ ascending 0 p.(p_groups);
  wf_mask : match p.(p_mask) with
            | Some m => tag_perm ACL_MASK m
            | None => p.(p_users) = [] /\ p.(p_groups) = []
            end;
  wf_other : tag_perm ACL_OTHER p.(p_other)
}.

(** Entries as they are stored: u16 permissions, u32 ids. *)
Definition entry_ok e : Prop := 0 <= e_perm e < 65536 /\ 0 <= e_id e < 4294967296.

Lemma perm_test x :
  0 <= x < 65536 ->
  negb (Z.land x (Z.lnot (Z.lor (Z.lor ACL_READ ACL_WRITE) ACL_EXECUTE)) =? 0) = negb (x <=? 7).
Proof.
  intros Hx. change (Z.lor (Z.lor ACL_READ ACL_WRITE) ACL_EXECUTE) with (Z.ones 3).
  rewrite <- Z.ldiff_land. f_equal. apply eq_bool_prop_intro. rewrite !Is_true_true, Z.eqb_eq, Z.leb_le.
  rewrite Z.ldiff_ones_r by lia. rewrite Z.shiftl_mul_pow2, Z.shiftr_div_pow2 by lia.
  change (2 ^ 3) with 8. lia.
Qed.

(** ** From the code to the shape *)

(** One turn of the scan of posix_acl_valid. *)
Ltac scan_entry e es Hok :=
  let Hp := fresh "Hp" in
  let Hid := fresh "Hid" in
  let Hok' := fresh "Hok'" in
  let Hle := fresh "Hle" in
  simpl; inversion Hok as [|? ? [Hp Hid] Hok']; subst; rewrite (perm_test _ Hp);
  destruct (e_perm e <=? 7) eqn:Hle; zbool; simpl negb; cbv iota; [|done].

Ltac tags :=
  repeat match goal with
  | |- (if ?b then _ else _) = 0 -> _ => destruct b eqn:?; zbool; try done
  end.

Lemma scan_done es id nm : Forall entry_ok es -> valid_scan es 0 id nm = 0 -> es = [].
Proof.
  intros Hok. destruct es as [|e es]; [done|]. scan_entry e es Hok. tags; try discriminate.
Qed.

Lemma scan_other es id nm :
  Forall entry_ok es -> valid_scan es ACL_OTHER id nm = 0 -> exists ot, es = [ot] /\ tag_perm ACL_OTHER ot.
Proof.
  intros Hok. destruct es as [|e es]; [done|]. scan_entry e es Hok. tags; try discriminate.
  intros Hs. apply scan_done in Hs as ->; [|done]. exists e. split; [done|]. split; [done|lia].
Qed.

Lemma scan_group es id nm :
  Forall entry_ok es -> 0 <= id -> valid_scan es ACL_GROUP id nm = 0 ->
  exists gs mk ot, es = gs ++ option_list mk ++ [ot] /\ Forall (tag_perm ACL_GROUP) gs /\
    ascending id gs /\ tag_perm ACL_OTHER ot /\
    match mk with Some m => tag_perm ACL_MASK m | None => nm = false /\ gs = [] end.
Proof.
  revert id nm. induction es as [|e es IH]; intros id nm Hok Hid; [done|]. scan_entry e es Hok.
  tags; try discriminate.
  - intros Hs. unfold ACL_UNDEFINED_ID in *.
    rewrite u32_small in Hs by (unfold is_u32; lia).
    destruct (IH (e_id e + 1) true) as (gs & mk & ot & -> & Hg & Ha & Ho & Hm); [done|lia|done|].
    exists (e :: gs), mk, ot. split; [done|]. split; [constructor; [split; [done|lia]|done]|].
    split; [split; [unfold ACL_UNDEFINED_ID; lia|done]|]. split; [done|]. destruct mk; [done|]. by destruct Hm.
  - intros Hs. apply scan_other in Hs as (ot & -> & Ho); [|done].
    exists [], (Some e), ot. split_and!; [done..|]. split; [done|lia].
  - intros Hs. apply scan_done in Hs as ->; [|done]. exists [], None, e.
    split; [done|]. split; [done|]. split; [done|]. split; [split; [done|lia]|]. split; [|done].
    unfold ACL_GROUP, ACL_OTHER in *. simpl in *. by destruct nm.
Qed.

Lemma scan_user es id nm :
  Forall entry_ok es -> 0 <= id -> valid_scan es ACL_USER id nm = 0 ->
  exists us go rest, es = us ++ go :: rest /\ Forall (tag_perm ACL_USER) us /\ ascending id us /\
    tag_perm ACL_GROUP_OBJ go /\ Forall entry_ok rest /\
    valid_scan rest ACL_GROUP 0 (nm || bool_decide (us <> [])) = 0.
Proof.
  revert id nm. induction es as [|e es IH]; intros id nm Hok Hid; [done|]. scan_entry e es Hok.
  tags; try discriminate.
  - intros Hs. unfold ACL_UNDEFINED_ID in *.
    rewrite u32_small in Hs by (unfold is_u32; lia).
    destruct (IH (e_id e + 1) true) as (us & go & rest & -> & Hu & Ha & Hg & Hr & Hs'); [done|lia|done|].
    exists (e :: us), go, rest. split; [done|]. split; [constructor; [split; [done|lia]|done]|].
    split; [split; [unfold ACL_UNDEFINED_ID; lia|done]|]. split; [done|]. split; [done|].
    rewrite bool_decide_eq_true_2 by done. by rewrite orb_true_r.
  - intros Hs. exists [], e, es. do 3 (split; [done|]). split; [split; [done|lia]|]. split; [done|].
    rewrite bool_decide_eq_false_2 by auto. by rewrite orb_false_r.
Qed.

Lemma valid_shape es :
  Forall entry_ok es -> valid_scan es ACL_USER_OBJ 0 false = 0 ->
  exists p, es = entries_of p /\ well_formed p.
Proof.
  intros Hok. destruct es as [|uo es]; [done|]. scan_entry uo es Hok. tags; try discriminate.
  intros Hs. apply scan_user in Hs as (us & go & rest & -> & Hu & Hau & Hg & Hr & Hs); [|done|lia].
  apply scan_group in Hs as (gs & mk & ot & -> & Hgs & Hag & Ho & Hm); [|done|lia].
  exists (Parts uo us go gs mk ot). split; [done|]. split; simpl; [split; [done|lia]|done|done|done| |done].
  destruct mk; [done|]. destruct Hm as [Hm ->]. split; [|done].
  destruct us; [done|]. by rewrite bool_decide_eq_true_2 in Hm.
Qed.

(** ** From the shape to the code *)

Ltac known_tag H :=
  let Ht := fresh "Htag" in
  destruct H as [Ht ?]; simpl; rewrite perm_test by lia;
  rewrite (proj2 (Z.leb_le _ 7)) by lia; simpl negb; cbv iota; rewrite Ht; clear Ht; simpl.

Lemma scan_named_ok t l rest id nm :
  t = ACL_USER \/ t = ACL_GROUP -> 0 <= id -> Forall (tag_perm t) l -> ascending id l ->
  exists id', valid_scan (l ++ rest) t id nm = valid_scan rest t id' (nm || bool_decide (l <> [])).
Proof.
  intros Ht Hid Hl. revert id nm Hid. induction Hl as [|e l He Hl IH]; intros id nm Hid Ha.
  { exists id. rewrite bool_decide_eq_false_2 by auto. by rewrite orb_false_r. }
  destruct Ha as [Hr Ha]. unfold ACL_UNDEFINED_ID in *.
  destruct (IH (e_id e + 1) true) as [id' Hs]; [lia|done|]. rewrite orb_true_l in Hs.
  exists id'. rewrite (bool_decide_eq_true_2 (e :: l <> [])), orb_true_r by done. rewrite <- Hs. clear Hs.
  known_tag He. unfold ACL_UNDEFINED_ID.
  rewrite (proj2 (Z.eqb_neq (e_id e) 4294967295)), (proj2 (Z.ltb_ge (e_id e) id)) by lia. rewrite u32_small by (unfold is_u32; lia).
  by destruct Ht as [-> | ->].
Qed.

Lemma shape_valid p : well_formed p -> valid_scan (entries_of p) ACL_USER_OBJ 0 false = 0.
Proof.
  destruct p as [uo us go gs mk ot]. intros [Ho [Hu Hau] Hg [Hgs Hag] Hm Hot]. simpl in *. unfold entries_of.
  cbn [p_owner p_users p_group p_groups p_mask p_other].
  known_tag Ho.
  destruct (scan_named_ok ACL_USER us (go :: gs ++ option_list mk ++ [ot]) 0 false) as [id1 ->];
    [by left|lia|done|done|].
  remember (false || bool_decide (us <> [])) as nm eqn:Hnm. known_tag Hg.
  destruct (scan_named_ok ACL_GROUP gs (option_list mk ++ [ot]) 0 nm) as [id2 ->]; [by right|lia|done|done|].
  remember (nm || bool_decide (gs <> [])) as nm2 eqn:Hnm2.
  destruct mk as [m|]; simpl.
  - known_tag Hm. by known_tag Hot.
  - destruct Hm as [-> ->]. rewrite bool_decide_eq_false_2 in Hnm, Hnm2 by auto. subst.
    by known_tag Hot.
Qed.

(** Either verdict of posix_acl_valid. *)
Lemma valid_scan_result es st id nm : valid_scan es st id nm = 0 \/ valid_scan es st id nm = - EINVAL.
Proof.
  revert st id nm. induction es as [|e es IH]; intros st id nm; simpl.
  - destruct (st =? 0); auto.
  - repeat match goal with |- context [if ?b then _ else _] => destruct b end; auto.
Qed.

(** * Access *)

Lemma land_subset a b w :
  (Z.land (Z.land a b) w =? w) = (Z.land a w =? w) && (Z.land b w =? w).
Proof.
  destruct (Z.land a w =? w) eqn:Ea, (Z.land b w =? w) eqn:Eb; zbool; simpl.
  - rewrite <- Z.land_assoc, Eb. by apply Z.eqb_eq.
  - apply Z.eqb_neq. intros H. apply Eb. rewrite <- H at 1. rewrite (Z.land_comm a b), <- Z.land_assoc.
    rewrite Z.land_assoc, Z.land_diag, Z.land_assoc, (Z.land_comm b a). exact H.
  - apply Z.eqb_neq. intros H. apply Ea. rewrite <- H at 1. rewrite <- Z.land_assoc.
    rewrite Z.land_assoc, Z.land_diag, Z.land_assoc. exact H.
  - apply Z.eqb_neq. intros H. apply Ea. rewrite <- H at 1. rewrite <- Z.land_assoc.
    rewrite Z.land_assoc, Z.land_diag, Z.land_assoc. exact H.
Qed.

Section Access.
Context (c : cred) (i_uid i_gid want : Z).

(** Group membership: the group of file accesses or a supplementary one. *)
Definition member (g : Z) : bool := bool_decide (g = fsgid c \/ g ∈ gids (groups c)).

Definition allows e : bool := Z.land (e_perm e) want =? want.

(** Limited by the mask. *)
Definition masked (mk : option posix_acl_entry) e : bool :=
  allows e && match mk with Some m => allows m | None => true end.

(** The access check algorithm of POSIX 1003.1e. *)
Definition granted (p : parts) : bool :=
  if i_uid =? fsuid c then allows p.(p_owner)
  else
    match List.find (fun e => e_id e =? fsuid c) p.(p_users) with
    | Some e => masked p.(p_mask) e
    | None =>
        let own := member i_gid in
        if own || existsb (fun e => member (e_id e)) p.(p_groups) then
          own && masked p.(p_mask) p.(p_group) ||
          existsb (fun e => member (e_id e) && masked p.(p_mask) e) p.(p_groups)
        else allows p.(p_other)
    end.

(** The ids of the group list are close enough to [g] for the search to be exact. *)
Definition comparable (g : Z) : Prop :=
  forall x, x ∈ gids (groups c) -> -2147483648 <= g - x < 2147483648.

Lemma in_group_p_spec g : cred_ok c -> comparable g -> in_group_p c g = Some (Z.b2z (member g)).
Proof.
  intros (Hlay & Hmax & Hs) Hc. unfold in_group_p, member. unfold NGROUPS_MAX in Hmax.
  destruct (g =? fsgid c) eqn:E; zbool; simpl negb; cbv iota.
  - by rewrite bool_decide_eq_true_2 by auto.
  - rewrite groups_search_spec; [|by apply layout_ok|lia|done|done]. f_equal.
    case_bool_decide as H1; case_bool_decide as H2; simpl; try done; exfalso; tauto.
Qed.

Definition verdict (b : bool) : Z := if b then 0 else - EACCES.

Lemma mask_scan_spec e l mk ot :
  Forall (fun x => e_tag x <> ACL_MASK) l -> e_tag ot = ACL_OTHER ->
  match mk with Some m => e_tag m = ACL_MASK | None => True end ->
  mask_scan e (l ++ option_list mk ++ [ot]) want = verdict (masked mk e).
Proof.
  intros Hl Hot Hm. induction Hl as [|x l Hx Hl IH]; simpl.
  - unfold masked, allows, verdict, check_perm. destruct mk as [m|]; simpl.
    + rewrite Hm. simpl. by rewrite land_subset.
    + rewrite Hot. simpl. unfold check_perm. by rewrite andb_true_r.
  - by rewrite (proj2 (Z.eqb_neq _ _)).
Qed.

(** ** The scan of the entries *)

Lemma masked_mask mk e e' : allows e = true -> masked mk e = false -> masked mk e' = false.
Proof.
  unfold masked. intros ->. simpl. destruct mk as [m|]; [|done]. intros ->. apply andb_false_r.
Qed.

Lemma existsb_masked mk e gs (f : posix_acl_entry -> bool) :
  allows e = true -> masked mk e = false -> existsb (fun e => f e && masked mk e) gs = false.
Proof.
  intros Ha Hm. induction gs as [|x gs IH]; [done|]. simpl.
  by rewrite (masked_mask mk e x Ha Hm), andb_false_r.
Qed.

(** One group entry, of group [gid], and what follows it. *)
Lemma group_turn mk ot e gid gs found (rest : list posix_acl_entry) :
  cred_ok c -> comparable gid -> Forall (fun x => e_tag x <> ACL_MASK) gs -> e_tag ot = ACL_OTHER ->
  match mk with Some m => e_tag m = ACL_MASK | None => True end ->
  rest = gs ++ option_list mk ++ [ot] ->
  (forall found, perm_scan c i_uid i_gid want rest found = Some (verdict
     (if found || existsb (fun e => member (e_id e)) gs
      then existsb (fun e => member (e_id e) && masked mk e) gs else allows ot))) ->
  (g ← in_group_p c gid;
   if negb (g =? 0) then
     if Z.land (e_perm e) want =? want then Some (mask_scan e rest want)
     else perm_scan c i_uid i_gid want rest true
   else perm_scan c i_uid i_gid want rest found) =
  Some (verdict (if found || (member gid || existsb (fun e => member (e_id e)) gs)
    then member gid && masked mk e || existsb (fun e => member (e_id e) && masked mk e) gs
    else allows ot)).
Proof.
  intros Hc Hg Hgs Hot Hm Hrest IH. rewrite in_group_p_spec by done. cbn [mbind option_bind].
  destruct (member gid); simpl; [|by rewrite IH]. rewrite orb_true_r. fold (allows e).
  destruct (allows e) eqn:Ea.
  - rewrite Hrest, mask_scan_spec by done. do 2 f_equal. destruct (masked mk e) eqn:Em; [done|].
    symmetry. simpl. by apply (existsb_masked mk e).
  - rewrite IH. simpl. unfold masked at 2. by rewrite Ea.
Qed.

Lemma perm_groups mk ot gs found :
  cred_ok c -> Forall (fun e => e_tag e = ACL_GROUP /\ comparable (e_id e)) gs -> e_tag ot = ACL_OTHER ->
  match mk with Some m => e_tag m = ACL_MASK | None => True end ->
  perm_scan c i_uid i_gid want (gs ++ option_list mk ++ [ot]) found = Some (verdict
    (if found || existsb (fun e => member (e_id e)) gs
     then existsb (fun e => member (e_id e) && masked mk e) gs else allows ot)).
Proof.
  intros Hc Hgs Hot Hm. revert found. induction Hgs as [|e gs [He Hg] Hgs IH]; intros found.
  - destruct mk as [m|]; simpl; [rewrite Hm; simpl|]; rewrite Hot; simpl; by destruct found.
  - simpl. rewrite He. simpl. apply group_turn; try done.
    eapply Forall_impl; [|exact Hgs]. intros x [-> _]. done.
Qed.

Lemma perm_users us l mk ot found :
  Forall (fun e => e_tag e = ACL_USER) us -> Forall (fun x => e_tag x <> ACL_MASK) l ->
  e_tag ot = ACL_OTHER -> match mk with Some m => e_tag m = ACL_MASK | None => True end ->
  perm_scan c i_uid i_gid want (us ++ l ++ option_list mk ++ [ot]) found =
  match List.find (fun e => e_id e =? fsuid c) us with
  | Some e => Some (verdict (masked mk e))
  | None => perm_scan c i_uid i_gid want (l ++ option_list mk ++ [ot]) found
  end.
Proof.
  intros Hus Hl Hot Hm. induction Hus as [|e us He Hus IH]; [done|]. simpl. rewrite He. simpl.
  destruct (e_id e =? fsuid c); [|done]. f_equal. rewrite app_assoc. apply mask_scan_spec; [|done|done].
  apply Forall_app. split; [|done]. eapply Forall_impl; [|exact Hus]. intros x ->. done.
Qed.

Lemma perm_scan_spec p :
  cred_ok c -> well_formed p -> comparable i_gid ->
  Forall (fun e => comparable (e_id e)) p.(p_groups) ->
  perm_scan c i_uid i_gid want (entries_of p) false = Some (verdict (granted p)).
Proof.
  destruct p as [uo us go gs mk ot]. intros Hc [[Ho _] [Hu _] [Hg _] [Hgs _] Hm [Hot _]] Hig Hcg.
  unfold entries_of, granted in *. cbn [p_owner p_users p_group p_groups p_mask p_other] in *.
  assert (match mk with Some m => e_tag m = ACL_MASK | None => True end) as Hmt
    by (destruct mk; [apply Hm|done]).
  assert (Forall (fun e => e_tag e = ACL_GROUP /\ comparable (e_id e)) gs) as Hgc.
  { apply Forall_forall. intros x Hx. rewrite Forall_forall in Hgs, Hcg. split; [by apply Hgs|by apply Hcg]. }
  assert (Forall (fun x => e_tag x <> ACL_MASK) gs) as Hgm.
  { eapply Forall_impl; [|exact Hgc]. intros x [-> _]. done. }
  simpl. rewrite Ho. simpl. destruct (i_uid =? fsuid c); [done|].
  rewrite (app_comm_cons gs _ go). rewrite perm_users; [|by eapply Forall_impl; [|exact Hu]; intros x [? _]| |done|done].
  2:{ constructor; [by rewrite Hg|done]. }
  destruct (List.find _ us); [done|]. simpl. rewrite Hg. simpl.
  rewrite (group_turn mk ot go i_gid gs false _ Hc Hig Hgm Hot Hmt eq_refl); [done|].
  intros found. by apply perm_groups.
Qed.
End Access.

(** * Modes *)

Lemma tb_shl x k i : 0 <= i -> 0 <= k -> Z.testbit (Z.shiftl x k) i = bool_decide (k <= i) && Z.testbit x (i - k).
Proof.
  intros Hi Hk. rewrite Z.shiftl_spec by lia. case_bool_decide; [done|]. simpl. apply Z.testbit_neg_r. lia.
Qed.

Lemma tb_u16 x i : 0 <= i -> Z.testbit (u16 x) i = bool_decide (i < 16) && Z.testbit x i.
Proof.
  intros. unfold u16. change 65536 with (2 ^ 16). case_bool_decide.
  - by rewrite Z.mod_pow2_bits_low by lia.
  - by rewrite Z.mod_pow2_bits_high by lia.
Qed.

Lemma tb_ones n i : 0 <= i -> 0 <= n -> Z.testbit (Z.ones n) i = bool_decide (i < n).
Proof.
  intros Hi Hn. case_bool_decide; [apply Z.ones_spec_low; lia|apply Z.ones_spec_high; lia].
Qed.

Lemma tb_perm p i : 0 <= p <= 7 -> 3 <= i -> Z.testbit p i = false.
Proof.
  intros Hp Hi. destruct (decide (p = 0)) as [->|]; [apply Z.bits_0|]. apply Z.bits_above_log2; [lia|].
  assert (Z.log2 p <= Z.log2 7) by (apply Z.log2_le_mono; lia). change (Z.log2 7) with 2 in *. lia.
Qed.

Lemma tb_mode m i : 0 <= m < 65536 -> 16 <= i -> Z.testbit m i = false.
Proof.
  intros Hm Hi. destruct (decide (m = 0)) as [->|]; [apply Z.bits_0|]. apply Z.bits_above_log2; [lia|].
  apply Z.lt_le_trans with 16; [|lia]. apply Z.log2_lt_pow2; lia.
Qed.

(** Equality of modes and permissions, bit by bit. *)
Ltac mode_bits :=
  apply Z.bits_inj'; let i := fresh "i" in let Hi := fresh "Hi" in intros i Hi;
  change S_IRWXU with (Z.shiftl (Z.ones 3) 6); change S_IRWXG with (Z.shiftl (Z.ones 3) 3);
  change S_IRWXO with (Z.ones 3); change S_IRWXUGO with (Z.ones 9);
  repeat first
    [ rewrite Z.lor_spec | rewrite Z.land_spec | rewrite tb_u16 by lia | rewrite tb_shl by lia
    | rewrite Z.shiftr_spec by lia | rewrite Z.lnot_spec by lia | rewrite tb_ones by lia | rewrite Z.bits_0
    | rewrite Z.sub_add | rewrite Z.add_simpl_r | case_bool_decide; simpl; try lia ];
  repeat match goal with
  | |- context [Z.testbit ?x ?j] =>
      first [ rewrite (tb_perm x j) by lia | rewrite (tb_mode x j) by lia | rewrite (Z.testbit_neg_r x j) by lia ]
  end; rewrite ?andb_false_r, ?orb_false_r, ?andb_true_r, ?orb_true_r;
  try done; try (by repeat match goal with |- context [Z.testbit ?x ?j] => destruct (Z.testbit x j) end).

(** ** The three classes of an ACL *)

Definition class_perm (p : parts) : Z := e_perm (default p.(p_group) p.(p_mask)).

(** The permission bits that stand for an ACL. *)
Definition mode_of (p : parts) : Z :=
  Z.lor (Z.lor (Z.shiftl (e_perm p.(p_owner)) 6) (Z.shiftl (class_perm p) 3)) (e_perm p.(p_other)).

Definition with_perm (x : Z) e : posix_acl_entry := AclEntry (e_tag e) x (e_id e).

(** The ACL with the permissions of its three classes replaced. *)
Definition with_classes (p : parts) (u g o : Z) : parts :=
  Parts (with_perm u p.(p_owner)) p.(p_users)
    (match p.(p_mask) with Some _ => p.(p_group) | None => with_perm g p.(p_group) end)
    p.(p_groups) (with_perm g <$> p.(p_mask)) (with_perm o p.(p_other)).

Lemma with_classes_wf p u g o :
  well_formed p -> 0 <= u <= 7 -> 0 <= g <= 7 -> 0 <= o <= 7 -> well_formed (with_classes p u g o).
Proof.
  destruct p as [uo us go gs mk ot]. intros [[Ho _] Hu [Hg Hgp] Hgs Hm [Hot _]] ? ? ?.
  split; simpl in *; try done; destruct mk as [m|]; simpl; try done. split; [apply Hm|done].
Qed.

Lemma with_classes_mode p u g o :
  mode_of (with_classes p u g o) = Z.lor (Z.lor (Z.shiftl u 6) (Z.shiftl g 3)) o.
Proof. destruct p as [uo us go gs [m|] ot]; done. Qed.

Lemma with_classes_extended p u g o : extended (with_classes p u g o) = extended p.
Proof. destruct p as [uo us go gs [m|] ot]; done. Qed.

Lemma class_perm_range p : well_formed p -> 0 <= class_perm p <= 7.
Proof.
  destruct p as [uo us go gs [m|] ot]; intros [_ _ [_ Hg] _ Hm _]; simpl in *; [apply Hm|done].
Qed.

(** Named entries do not enter the mode. *)
Definition named e : Prop := e_tag e = ACL_USER \/ e_tag e = ACL_GROUP.

Definition note_named (l : list posix_acl_entry) (ne : Z) : Z := match l with [] => ne | _ => 1 end.

Lemma named_users us : Forall (tag_perm ACL_USER) us -> Forall named us.
Proof. apply Forall_impl. intros e [? _]. by left. Qed.

Lemma named_groups gs : Forall (tag_perm ACL_GROUP) gs -> Forall named gs.
Proof. apply Forall_impl. intros e [? _]. by right. Qed.

Ltac by_tag :=
  repeat match goal with H : e_tag ?e = _ |- context [e_tag ?e] => rewrite H end; simpl.

Lemma note_named_cons l : note_named l 1 = 1.
Proof. by destruct l. Qed.

Lemma equiv_named l rest mode ne :
  Forall named l -> equiv_scan (l ++ rest) mode ne = equiv_scan rest mode (note_named l ne).
Proof.
  intros Hl. revert ne. induction Hl as [|e l He Hl IH]; intros ne; [done|].
  simpl. destruct He as [He|He]; by_tag; by rewrite IH, note_named_cons.
Qed.

Lemma equiv_scan_spec p :
  well_formed p -> equiv_scan (entries_of p) 0 0 = Some (mode_of p, Z.b2z (extended p)).
Proof.
  destruct p as [uo us go gs mk ot]. intros [[Ho Hop] [Hu _] [Hg Hgp] [Hgs _] Hm [Hot Hotp]].
  unfold entries_of, mode_of, class_perm. cbn [p_owner p_users p_group p_groups p_mask p_other] in *.
  simpl. by_tag. rewrite equiv_named by by apply named_users. simpl. by_tag.
  rewrite equiv_named by by apply named_groups.
  destruct mk as [m|]; simpl.
  - destruct Hm as [Hm Hmp]. by_tag. do 2 f_equal; [mode_bits|]. by destruct us, gs.
  - destruct Hm as [-> ->]. by_tag. do 2 f_equal. mode_bits.
Qed.

(** ** Where the group and mask entries are *)

Definition group_pos (p : parts) : nat := S (length p.(p_users)).
Definition mask_pos (p : parts) : nat := S (length p.(p_users) + S (length p.(p_groups))).

(** The entry that holds the group class. *)
Definition class_pos (p : parts) : nat :=
  match p.(p_mask) with Some _ => mask_pos p | None => group_pos p end.

Lemma insert_middle {A} (l : list A) x y l' k : k = length l -> <[k := y]> (l ++ x :: l') = l ++ y :: l'.
Proof. intros ->. by rewrite insert_app_r_alt, Nat.sub_diag by lia. Qed.

Lemma class_entry p u g o :
  entries_of p !!! class_pos p = default p.(p_group) p.(p_mask) /\
  (forall e, e = with_perm g (default p.(p_group) p.(p_mask)) ->
   <[class_pos p := e]> (entries_of (Parts (with_perm u p.(p_owner)) p.(p_users) p.(p_group) p.(p_groups)
                                       p.(p_mask) (with_perm o p.(p_other)))) =
   entries_of (with_classes p u g o)).
Proof.
  destruct p as [uo us go gs [m|] ot]; unfold class_pos, entries_of; simpl.
  - split; [|intros ? ->; f_equal]; rewrite (app_comm_cons gs _ go), app_assoc.
    + apply list_lookup_total_middle. by rewrite length_app.
    + rewrite insert_middle by (by rewrite length_app). by rewrite <- app_assoc.
  - split; [by apply list_lookup_total_middle|intros ? ->; f_equal; by apply insert_middle].
Qed.

(** ** chmod *)

Lemma chmod_named i l rest mode g k :
  Forall named l ->
  chmod_scan i (l ++ rest) mode g k =
  let '(es, g, k, fine) := chmod_scan (i + length l) rest mode g k in (l ++ es, g, k, fine).
Proof.
  intros Hl. revert i. induction Hl as [|e l He Hl IH]; intros i; simpl.
  - rewrite Nat.add_0_r. by destruct (chmod_scan i rest mode g k) as [[[??]?]?].
  - destruct He as [He|He]; by_tag; rewrite IH, Nat.add_succ_r; simpl;
      by destruct (chmod_scan _ rest mode g k) as [[[??]?]?].
Qed.

Lemma chmod_scan_spec p mode :
  well_formed p -> 0 <= mode < 65536 ->
  chmod_scan 0 (entries_of p) mode None None =
  (entries_of (Parts (with_perm (Z.land (Z.shiftr mode 6) 7) p.(p_owner)) p.(p_users) p.(p_group)
     p.(p_groups) p.(p_mask) (with_perm (Z.land mode 7) p.(p_other))),
   Some (group_pos p), (fun _ => mask_pos p) <$> p.(p_mask), true).
Proof.
  destruct p as [uo us go gs mk ot]. intros [[Ho _] [Hu _] [Hg _] [Hgs _] Hm [Hot _]] Hmode.
  unfold entries_of, group_pos, mask_pos in *. cbn [p_owner p_users p_group p_groups p_mask p_other] in *.
  assert (set_perm (Z.shiftr (Z.land mode S_IRWXU) 6) uo = with_perm (Z.land (Z.shiftr mode 6) 7) uo) as Eu.
  { unfold set_perm, with_perm. f_equal. change 7 with S_IRWXO. mode_bits. }
  assert (set_perm (Z.land mode S_IRWXO) ot = with_perm (Z.land mode 7) ot) as Eo.
  { unfold set_perm, with_perm. f_equal. change 7 with S_IRWXO. mode_bits. }
  simpl. by_tag. rewrite Eu, chmod_named by by apply named_users. simpl. by_tag.
  rewrite chmod_named by by apply named_groups.
  destruct mk as [m|]; simpl; [destruct Hm as [Hm _]|]; by_tag; rewrite Eo; [|done].
  by rewrite Nat.add_succ_r.
Qed.

(** chmod writes the three classes. *)
Lemma chmod_spec p rc mode :
  well_formed p -> 0 <= mode < 65536 ->
  posix_acl_chmod_masq (PosixAcl rc (entries_of p)) mode =
  (0, PosixAcl rc (entries_of (with_classes p (Z.land (Z.shiftr mode 6) 7) (Z.land (Z.shiftr mode 3) 7)
                                 (Z.land mode 7)))).
Proof.
  intros Hp Hmode. unfold posix_acl_chmod_masq. cbn [a_entries a_refcount].
  rewrite chmod_scan_spec by done. simpl negb. cbv iota.
  assert (forall e, set_perm (Z.shiftr (Z.land mode S_IRWXG) 3) e = with_perm (Z.land (Z.shiftr mode 3) 7) e) as Eg.
  { intros e. unfold set_perm, with_perm. f_equal. change 7 with S_IRWXO. mode_bits. }
  destruct (class_entry p (Z.land (Z.shiftr mode 6) 7) (Z.land (Z.shiftr mode 3) 7) (Z.land mode 7)) as [_ Hi].
  set (q := Parts (with_perm _ (p_owner p)) _ _ _ _ _) in *.
  destruct (class_entry q 0 0 0) as [Hq _].
  assert (class_pos q = class_pos p) as Ec by done. rewrite Ec in Hq. unfold class_pos in *.
  destruct (p_mask p) eqn:Em; simpl fmap; cbv iota beta; rewrite Hq, Eg, Hi; done.
Qed.

(** ** Creation *)

Lemma create_named i l rest mode g k ne :
  Forall named l ->
  create_scan i (l ++ rest) (Masq mode g k ne) =
  let '(es, s, fine) := create_scan (i + length l) rest (Masq mode g k (note_named l ne)) in
  (l ++ es, s, fine).
Proof.
  intros Hl. revert i ne. induction Hl as [|e l He Hl IH]; intros i ne; simpl.
  - rewrite Nat.add_0_r. by destruct (create_scan i rest _) as [[??]?].
  - destruct He as [He|He]; by_tag; rewrite IH, Nat.add_succ_r, note_named_cons; simpl;
      by destruct (create_scan _ rest _) as [[??]?].
Qed.

(** The mode once the owner and the others are settled. *)
Definition settled (p : parts) (mode : Z) : Z :=
  Z.land (Z.land mode (Z.lor (Z.shiftl (e_perm p.(p_owner)) 6) (Z.lnot S_IRWXU)))
         (Z.lor (e_perm p.(p_other)) (Z.lnot S_IRWXO)).

Lemma create_scan_spec p mode :
  well_formed p -> 0 <= mode < 65536 ->
  create_scan 0 (entries_of p) (Masq mode None None 0) =
  (entries_of (Parts (with_perm (Z.land (e_perm p.(p_owner)) (Z.shiftr mode 6)) p.(p_owner)) p.(p_users)
     p.(p_group) p.(p_groups) p.(p_mask) (with_perm (Z.land (e_perm p.(p_other)) mode) p.(p_other))),
   Masq (settled p mode) (Some (group_pos p)) ((fun _ => mask_pos p) <$> p.(p_mask)) (Z.b2z (extended p)),
   true).
Proof.
  destruct p as [uo us go gs mk ot]. intros [[Ho Hop] [Hu _] [Hg _] [Hgs _] Hm [Hot Hotp]] Hmode.
  unfold entries_of, group_pos, mask_pos, settled in *. cbn [p_owner p_users p_group p_groups p_mask p_other] in *.
  assert (u16 (Z.land (e_perm uo) (Z.lor (Z.shiftr mode 6) (Z.lnot S_IRWXO))) =
          Z.land (e_perm uo) (Z.shiftr mode 6)) as Eu by mode_bits.
  set (mode1 := u16 (Z.land mode (Z.lor (Z.shiftl (Z.land (e_perm uo) (Z.shiftr mode 6)) 6) (Z.lnot S_IRWXU)))).
  assert (mode1 = Z.land mode (Z.lor (Z.shiftl (e_perm uo) 6) (Z.lnot S_IRWXU))) as E1 by (unfold mode1; mode_bits).
  assert (u16 (Z.land (e_perm ot) (Z.lor mode1 (Z.lnot S_IRWXO))) =
          Z.land (e_perm ot) mode) as Eo by (rewrite E1; mode_bits).
  assert (u16 (Z.land mode1 (Z.lor (Z.land (e_perm ot) mode) (Z.lnot S_IRWXO))) =
          Z.land mode1 (Z.lor (e_perm ot) (Z.lnot S_IRWXO))) as E2 by (rewrite E1; mode_bits).
  simpl. by_tag. unfold set_perm. rewrite Eu. fold mode1.
  rewrite create_named by by apply named_users. simpl. by_tag.
  rewrite create_named by by apply named_groups.
  destruct mk as [m|]; simpl; [destruct Hm as [Hm _]|destruct Hm as [-> ->]]; by_tag;
    unfold set_perm, with_perm; rewrite Eo, E2, E1, ?Ho, ?Hot; [|done].
  rewrite Nat.add_succ_r. by destruct us, gs.
Qed.

(** Creation restricts the three classes to the mode and the mode to the ACL. *)
Lemma create_spec p rc mode :
  well_formed p -> 0 <= mode < 65536 ->
  posix_acl_create_masq (PosixAcl rc (entries_of p)) mode =
  (Z.b2z (extended p),
   PosixAcl rc (entries_of (with_classes p (Z.land (e_perm p.(p_owner)) (Z.shiftr mode 6))
                              (Z.land (class_perm p) (Z.shiftr mode 3)) (Z.land (e_perm p.(p_other)) mode))),
   Z.land mode (Z.lor (Z.lnot S_IRWXUGO) (mode_of p))).
Proof.
  intros Hp Hmode. unfold posix_acl_create_masq. cbn [a_entries a_refcount].
  rewrite create_scan_spec by done. simpl negb. cbv iota.
  destruct (wf_owner _ Hp) as [_ Ho]. destruct (wf_other _ Hp) as [_ Hot]. pose proof (class_perm_range p Hp) as Hc.
  set (g := Z.land (class_perm p) (Z.shiftr mode 3)).
  destruct (class_entry p (Z.land (e_perm p.(p_owner)) (Z.shiftr mode 6)) g (Z.land (e_perm p.(p_other)) mode)) as [_ Hi].
  set (q := Parts (with_perm _ (p_owner p)) _ _ _ _ _) in *.
  destruct (class_entry q 0 0 0) as [Hq _]. assert (class_pos q = class_pos p) as Ec by done. rewrite Ec in Hq.
  assert (set_perm (Z.land (class_perm p) (Z.lor (Z.shiftr (settled p mode) 3) (Z.lnot S_IRWXO)))
            (default (p_group p) (p_mask p)) = with_perm g (default (p_group p) (p_mask p))) as Eg.
  { unfold set_perm, with_perm, g, settled. f_equal. mode_bits. }
  assert (u16 (Z.lor (Z.land mode (Z.lnot S_IRWXUGO))
            (u16 (Z.land (settled p mode) (Z.lor (Z.shiftl g 3) (Z.lnot S_IRWXG))))) =
          Z.land mode (Z.lor (Z.lnot S_IRWXUGO) (mode_of p))) as Em.
  { unfold settled, g, mode_of. mode_bits. }
  assert (create_class (entries_of q) (class_pos p) (settled p mode) =
    (entries_of (with_classes p (Z.land (e_perm p.(p_owner)) (Z.shiftr mode 6)) g (Z.land (e_perm p.(p_other)) mode)),
     u16 (Z.land (settled p mode) (Z.lor (Z.shiftl g 3) (Z.lnot S_IRWXG))))) as Hcc.
  { unfold create_class. rewrite Hq. change (default (p_group q) (p_mask q)) with (default (p_group p) (p_mask p)).
    fold (class_perm p). rewrite Eg, Hi by done. done. }
  unfold class_pos in Hcc. cbn [mask_obj group_obj ms_mode ms_not_equiv].
  destruct (p_mask p) eqn:Emk; simpl fmap; cbv iota beta; rewrite Hcc, Em; done.
Qed.

(** ** From a mode *)

Definition minimal (mode : Z) : parts :=
  Parts (AclEntry ACL_USER_OBJ (Z.land (Z.shiftr mode 6) 7) ACL_UNDEFINED_ID) []
        (AclEntry ACL_GROUP_OBJ (Z.land (Z.shiftr mode 3) 7) ACL_UNDEFINED_ID) [] None
        (AclEntry ACL_OTHER (Z.land mode 7) ACL_UNDEFINED_ID).

Lemma land7 x : 0 <= x -> 0 <= Z.land x 7 <= 7.
Proof.
  intros. assert (Z.land x 7 = x mod 8) as -> by (change 7 with (Z.ones 3); by rewrite Z.land_ones). lia.
Qed.

Lemma minimal_wf mode : 0 <= mode -> well_formed (minimal mode).
Proof.
  intros. pose proof (land7 mode H). pose proof (land7 (Z.shiftr mode 6)). pose proof (land7 (Z.shiftr mode 3)).
  rewrite !Z.shiftr_nonneg in *. split; simpl; try done; (split; [done|]); simpl; auto.
Qed.

Lemma from_mode_spec mode e0 e1 e2 :
  0 <= mode < 65536 ->
  posix_acl_from_mode mode (Some [e0; e1; e2]) = Some (inr (PosixAcl 1 (entries_of (minimal mode)))).
Proof.
  intros Hm. unfold posix_acl_from_mode, minimal, entries_of. simpl. unfold wr. simpl.
  do 3 f_equal. f_equal; [f_equal; change 7 with S_IRWXO; mode_bits|].
  do 2 f_equal; change 7 with S_IRWXO; mode_bits.
Qed.

(** ** Modes of the results *)

Lemma mode_of_range p : well_formed p -> 0 <= mode_of p < 512.
Proof.
  intros Hp. pose proof (class_perm_range p Hp). destruct (wf_owner _ Hp) as [_ ?]. destruct (wf_other _ Hp) as [_ ?].
  assert (mode_of p = Z.land (mode_of p) (Z.ones 9)) as ->.
  { unfold mode_of. mode_bits. }
  rewrite Z.land_ones by lia. change (2 ^ 9) with 512. lia.
Qed.

Lemma equiv_mode_spec p rc mode :
  well_formed p -> 0 <= mode < 65536 ->
  posix_acl_equiv_mode (PosixAcl rc (entries_of p)) mode =
  (Z.b2z (extended p), Z.lor (Z.land mode (Z.lnot S_IRWXUGO)) (mode_of p)).
Proof.
  intros Hp Hm. unfold posix_acl_equiv_mode. cbn [a_entries]. rewrite equiv_scan_spec by done.
  f_equal. pose proof (mode_of_range p Hp). mode_bits.
Qed.

Lemma land_le x y : 0 <= x <= 7 -> 0 <= y -> 0 <= Z.land x y <= 7.
Proof.
  intros Hx Hy. assert (Z.land x y = Z.land (Z.land x y) 7) as ->.
  { rewrite <- Z.land_assoc, (Z.land_comm y), Z.land_assoc. f_equal.
    symmetry. change 7 with (Z.ones 3). apply Z.land_ones_low; [lia|].
    destruct (decide (x = 0)) as [->|]; [done|]. apply Z.log2_lt_pow2; lia. }
  apply land7. apply Z.land_nonneg. lia.
Qed.

(** The ACL that creation leaves. *)
Definition created (p : parts) (mode : Z) : parts :=
  with_classes p (Z.land (e_perm p.(p_owner)) (Z.shiftr mode 6)) (Z.land (class_perm p) (Z.shiftr mode 3))
    (Z.land (e_perm p.(p_other)) mode).

Lemma created_wf p mode : well_formed p -> 0 <= mode < 65536 -> well_formed (created p mode).
Proof.
  intros Hp Hm. pose proof (class_perm_range p Hp). destruct (wf_owner _ Hp) as [_ ?]. destruct (wf_other _ Hp) as [_ ?].
  apply with_classes_wf; [done| | |]; apply land_le; rewrite ?Z.shiftr_nonneg; lia.
Qed.

Lemma created_mode p mode :
  well_formed p -> 0 <= mode < 65536 -> mode_of (created p mode) = Z.land (mode_of p) mode.
Proof.
  intros Hp Hm. pose proof (class_perm_range p Hp). destruct (wf_owner _ Hp) as [_ ?]. destruct (wf_other _ Hp) as [_ ?].
  unfold created. rewrite with_classes_mode. unfold mode_of. mode_bits.
Qed.

Lemma restrict_mode p mode :
  well_formed p -> 0 <= mode < 65536 ->
  Z.land mode (Z.lor (Z.lnot S_IRWXUGO) (mode_of p)) =
  Z.lor (Z.land mode (Z.lnot S_IRWXUGO)) (Z.land (mode_of p) mode).
Proof.
  intros Hp Hm. rewrite Z.land_lor_distr_r. f_equal. apply Z.land_comm.
Qed.

Lemma restrict_twice m mode :
  Z.lor (Z.land (Z.lor (Z.land mode (Z.lnot S_IRWXUGO)) (Z.land m mode)) (Z.lnot S_IRWXUGO)) (Z.land m mode) =
  Z.lor (Z.land mode (Z.lnot S_IRWXUGO)) (Z.land m mode).
Proof. mode_bits. Qed.

Lemma restrict_range m mode :
  0 <= m < 65536 -> 0 <= mode < 65536 ->
  0 <= Z.lor (Z.land mode (Z.lnot S_IRWXUGO)) (Z.land m mode) < 65536.
Proof.
  intros Hm Hmode. set (x := Z.lor _ _). assert (x = u16 x) as -> by (unfold x; mode_bits). unfold u16. lia.
Qed.

(** * The properties *)

(** A process in the groups 1, 2 and 3000000000, and an ACL that denies the last one what it grants to
    the others. *)
Definition wide_cred : cred := Cred 50 20 20 (GroupInfo 1 3 1 [[1; 2; 3000000000]]).

Definition wide_parts : parts :=
  Parts (AclEntry ACL_USER_OBJ 7 0) [] (AclEntry ACL_GROUP_OBJ 0 0) [AclEntry ACL_GROUP 0 3000000000]
    (Some (AclEntry ACL_MASK 7 0)) (AclEntry ACL_OTHER 4 0).

Lemma wide_parts_wf : well_formed wide_parts.
Proof.
  split; simpl; unfold tag_perm; simpl; try (split; [reflexivity|lia]); (split; [repeat constructor; simpl; lia|]);
    unfold ACL_UNDEFINED_ID; lia.
Qed.

Lemma wide_cred_ok : cred_ok wide_cred.
Proof.
  split; [|split]; [|vm_compute; congruence|].
  - unfold layout, NGROUPS_PER_BLOCK. simpl. do 4 (split; [lia|]). intros k b [Hk Hb]%rd_inv. simpl in Hk.
    assert (k = 0) as -> by lia. simplify_eq/=. lia.
  - intros i Hi. change (gids (groups wide_cred)) with [1; 2; 3000000000] in *. simpl in Hi.
    assert (i = 0 \/ i = 1) as [-> | ->] by lia; vm_compute; congruence.
Qed.

(** C19: posix_acl_valid accepts exactly the ACLs of the POSIX shape and answers -EINVAL to the others; on
    an ACL of that shape, for a process whose supplementary group ids all lie within 2^31 of the group of
    the file and of every group the ACL names, posix_acl_permission decides as the access check algorithm
    of POSIX 1003.1e: the owner entry, else a named user limited by the mask, else the groups of the
    process limited by the mask, one of which must grant the access by itself, else the others. For
    ids farther apart the search of the group list can miss a group of the process, and the decision is then
    wrong: a process in the groups 1, 2 and 3000000000 reads a file whose ACL denies that to the last
    one and grants it to the others. *)
Theorem acl_access_check :
  (forall acl, Forall entry_ok acl.(a_entries) ->
     (posix_acl_valid acl = 0 <-> exists p, acl.(a_entries) = entries_of p /\ well_formed p) /\
     (posix_acl_valid acl <> 0 -> posix_acl_valid acl = - EINVAL)) /\
  (forall c i_uid i_gid want rc p,
     cred_ok c -> comparable c i_gid -> Forall (fun e => comparable c (e_id e)) p.(p_groups) -> well_formed p ->
     posix_acl_permission c i_uid i_gid (PosixAcl rc (entries_of p)) want =
       Some (verdict (granted c i_uid i_gid want p))) /\
  (cred_ok wide_cred /\ well_formed wide_parts /\ granted wide_cred 10 21 ACL_READ wide_parts = false /\
   posix_acl_permission wide_cred 10 21 (PosixAcl 1 (entries_of wide_parts)) ACL_READ = Some 0).
Proof.
  split; [|split].
  - intros acl Hok. unfold posix_acl_valid. split; [split|].
    + by apply valid_shape.
    + intros (p & -> & Hp). by apply shape_valid.
    + by destruct (valid_scan_result acl.(a_entries) ACL_USER_OBJ 0 false).
  - intros c i_uid i_gid want rc p Hc Hig Hcmp Hw. by apply perm_scan_spec.
  - split; [exact wide_cred_ok|]. split; [exact wide_parts_wf|]. by split; vm_compute.
Qed.

Definition sample_parts : parts :=
  Parts (AclEntry ACL_USER_OBJ 7 0) [AclEntry ACL_USER 6 11] (AclEntry ACL_GROUP_OBJ 5 0)
    [AclEntry ACL_GROUP 4 30; AclEntry ACL_GROUP 6 31] (Some (AclEntry ACL_MASK 6 0)) (AclEntry ACL_OTHER 0 0).

Lemma sample_parts_wf : well_formed sample_parts.
Proof.
  split; simpl; unfold tag_perm; simpl; try (split; [reflexivity|lia]).
  - split; [repeat constructor; simpl; lia|]. unfold ACL_UNDEFINED_ID. lia.
  - split; [repeat constructor; simpl; lia|]. unfold ACL_UNDEFINED_ID. lia.
Qed.

Definition sample_cred : cred := Cred 50 20 20 (GroupInfo 1 2 1 [[29; 31]]).

Lemma sample_cred_ok : cred_ok sample_cred.
Proof.
  split; [|split]; [|vm_compute; congruence|].
  - unfold layout, NGROUPS_PER_BLOCK. simpl. do 4 (split; [lia|]). intros k b [Hk Hb]%rd_inv. simpl in Hk.
    assert (k = 0) as -> by lia. simplify_eq/=. lia.
  - intros i Hi. change (gids (groups sample_cred)) with [29; 31] in *. simpl in Hi.
    assert (i = 0) as -> by lia. vm_compute. congruence.
Qed.

(** A process in group 31 writes through the second group entry, the mask allowing it. *)
Lemma acl_access_check_witness :
  posix_acl_permission sample_cred 10 20 (PosixAcl 1 (entries_of sample_parts)) 2 = Some 0.
Proof.
  destruct acl_access_check as (_ & H & _). rewrite (H sample_cred 10 20 2 1 sample_parts).
  - reflexivity.
  - exact sample_cred_ok.
  - intros x Hx. change (gids (groups sample_cred)) with [29; 31] in Hx. rewrite !elem_of_cons in Hx.
    destruct Hx as [->|[->|Hx]]; [lia..|]. by apply elem_of_nil in Hx.
  - apply Forall_forall. intros e He x Hx. change (gids (groups sample_cred)) with [29; 31] in Hx.
    rewrite !elem_of_cons in Hx. simpl in He.
    destruct Hx as [->|[->|Hx]]; [| |by apply elem_of_nil in Hx];
      repeat destruct He as [<-|He]; simpl; try lia; done.
  - exact sample_parts_wf.
Defined.

(** C20: An ACL and a file mode stay in step.  On an ACL of the POSIX shape,
    posix_acl_equiv_mode stores the three classes in the permission bits and reports whether more
    than those bits is needed; posix_acl_chmod_masq gives the entries of the owner and of the others their
    bits of the mode, and those of the group to the mask or, without one, to the owning group, and
    changes nothing else ([with_classes]), so that the ACL stands for the mode;
    posix_acl_create_masq intersects the same three entries and the mode, so that they stand for each
    other, and changes nothing else; posix_acl_from_mode builds the minimal ACL of a mode or answers
    -ENOMEM.  Each result has the POSIX shape again. *)
Theorem acl_mode_coherence p rc mode :
  well_formed p -> 0 <= mode < 65536 ->
  posix_acl_equiv_mode (PosixAcl rc (entries_of p)) mode =
    (Z.b2z (extended p), Z.lor (Z.land mode (Z.lnot S_IRWXUGO)) (mode_of p)) /\
  (let p' := with_classes p (Z.land (Z.shiftr mode 6) 7) (Z.land (Z.shiftr mode 3) 7) (Z.land mode 7) in
     posix_acl_chmod_masq (PosixAcl rc (entries_of p)) mode = (0, PosixAcl rc (entries_of p')) /\
     well_formed p' /\ mode_of p' = Z.land mode S_IRWXUGO /\ extended p' = extended p) /\
  (let p' := with_classes p (Z.land (e_perm p.(p_owner)) (Z.shiftr mode 6))
               (Z.land (class_perm p) (Z.shiftr mode 3)) (Z.land (e_perm p.(p_other)) mode) in
   exists mode',
     posix_acl_create_masq (PosixAcl rc (entries_of p)) mode =
       (Z.b2z (extended p), PosixAcl rc (entries_of p'), mode') /\
     well_formed p' /\ mode_of p' = Z.land (mode_of p) mode /\
     mode' = Z.lor (Z.land mode (Z.lnot S_IRWXUGO)) (mode_of p') /\
     posix_acl_equiv_mode (PosixAcl rc (entries_of p')) mode' = (Z.b2z (extended p), mode')) /\
  posix_acl_from_mode mode None = Some (inl (- ENOMEM)) /\
  (forall e0 e1 e2,
     posix_acl_from_mode mode (Some [e0; e1; e2]) = Some (inr (PosixAcl 1 (entries_of (minimal mode)))) /\
     well_formed (minimal mode) /\ extended (minimal mode) = false /\
     mode_of (minimal mode) = Z.land mode S_IRWXUGO).
Proof.
  intros Hp Hm. split; [by apply equiv_mode_spec|]. split; [|split; [|split; [done|]]].
  - split; [by apply chmod_spec|]. rewrite with_classes_mode, with_classes_extended.
    split; [apply with_classes_wf; [done|apply land7..]; rewrite ?Z.shiftr_nonneg; lia|].
    split; [change 7 with S_IRWXO; mode_bits|done].
  - pose proof (created_wf p mode Hp Hm) as Hw. pose proof (created_mode p mode Hp Hm) as He.
    pose proof (mode_of_range p Hp). cbv zeta. fold (created p mode). exists (Z.land mode (Z.lor (Z.lnot S_IRWXUGO) (mode_of p))).
    split; [by apply create_spec|]. rewrite He. do 2 (split; [done|]). rewrite restrict_mode by done.
    split; [done|]. rewrite equiv_mode_spec, He; [|done|apply restrict_range; lia].
    unfold created. rewrite with_classes_extended. f_equal. by apply restrict_twice.
  - intros e0 e1 e2. split; [by apply from_mode_spec|].
    split; [apply minimal_wf; lia|]. split; [done|]. unfold mode_of, class_perm. simpl. change 7 with S_IRWXO. mode_bits.
Qed.

(** Mode 0760, changed to 0640. *)
Lemma acl_mode_coherence_witness :
  mode_of sample_parts = 496 /\
  posix_acl_chmod_masq (PosixAcl 1 (entries_of sample_parts)) 416 =
    (0, PosixAcl 1 (entries_of (with_classes sample_parts 6 4 0))) /\
  mode_of (with_classes sample_parts 6 4 0) = 416.
Proof.
  destruct (acl_mode_coherence sample_parts 1 416 sample_parts_wf ltac:(lia)) as (_ & (H1 & _ & H2 & _) & _).
  split; [reflexivity|]. split; [exact H1|exact H2].
Defined.
