(* ===== verification/Task.v ===== *)
(** Tasks as the sleeping locks see them: the scheduling state, the pending signals, sleeping with a
    timeout (include/linux/sched.h, kernel/timer.c), and runs of a labelled step relation. *)

From stdpp Require Export functions.
From S2P Require Import Prelude.
From Stdlib Require Import Lia.

Open Scope Z_scope.

(** * Tasks *)

Definition TASK_RUNNING : Z := 0.
Definition TASK_INTERRUPTIBLE : Z := 1.
Definition TASK_UNINTERRUPTIBLE : Z := 2.
Definition TASK_WAKEKILL : Z := 128.
Definition TASK_KILLABLE : Z := Z.lor TASK_WAKEKILL TASK_UNINTERRUPTIBLE.

Definition MAX_SCHEDULE_TIMEOUT : Z := 2147483647.

Record task_struct : Type := Task {
  tstate : Z;
  sigpending : bool;
  fatal_pending : bool
}.

(** [sigpending] is what signal_pending reads, [fatal_pending] what __fatal_signal_pending reads. *)
Definition signal_pending_state (state : Z) (p : task_struct) : bool :=
  if Z.land state (Z.lor TASK_INTERRUPTIBLE TASK_WAKEKILL) =? 0 then false
  else if negb p.(sigpending) then false
  else negb (Z.land state TASK_INTERRUPTIBLE =? 0) || p.(fatal_pending).

Definition set_task_state (state : Z) (p : task_struct) : task_struct :=
  Task state p.(sigpending) p.(fatal_pending).

(** A task woken while it sleeps in any state. *)
Definition wake_up_process (p : task_struct) : task_struct := set_task_state TASK_RUNNING p.

(** The result of schedule_timeout when the task runs again after [elapsed] jiffies. *)
Definition schedule_timeout (elapsed timeout : Z) : Z :=
  let timeout :=
    if timeout =? MAX_SCHEDULE_TIMEOUT then timeout
    else if timeout <? 0 then timeout
    else s32 (timeout - elapsed) in
  if timeout <? 0 then 0 else timeout.

Definition runnable (p : task_struct) : Prop := p.(tstate) = TASK_RUNNING.

Lemma uninterruptible_ignores_signals p : signal_pending_state TASK_UNINTERRUPTIBLE p = false.
Proof. done. Qed.

Lemma wait_for_ever elapsed : schedule_timeout elapsed MAX_SCHEDULE_TIMEOUT = MAX_SCHEDULE_TIMEOUT.
Proof. done. Qed.

(** * Runs *)

Section Runs.
Context {W L : Type} (step : W -> L -> W -> Prop).

Inductive run : W -> list L -> W -> Prop :=
| run_nil w : run w [] w
| run_cons w l w1 tr w2 : step w l w1 -> run w1 tr w2 -> run w (l :: tr) w2.

(** A property of states that every step preserves. *)
Lemma run_invariant (I : W -> Prop) :
  (forall w l w', I w -> step w l w' -> I w') -> forall w tr w', run w tr w' -> I w -> I w'.
Proof. intros Hstep w tr w' Hr. induction Hr; eauto. Qed.
End Runs.

#[global] Hint Constructors run : core.

(** How many labels of a run count as [f]. *)
Definition tally {L} (f : L -> Z) (tr : list L) : Z := foldr (fun l n => f l + n) 0 tr.

Lemma tally_nonneg {L} (f : L -> Z) tr : (forall l, 0 <= f l) -> 0 <= tally f tr.
Proof. intros Hf. induction tr as [|l tr IH]; simpl; [lia|]. specialize (Hf l). lia. Qed.

(** * Updates of a table indexed by tasks *)

Ltac table :=
  repeat match goal with
  | |- context [<[?i := ?x]> ?f ?j] =>
      first [ rewrite (fn_lookup_insert f i x)
            | rewrite (fn_lookup_insert_ne f i j x) by congruence
            | destruct (decide (i = j)); [subst; rewrite fn_lookup_insert
                                         | rewrite (fn_lookup_insert_ne f i j x) by done] ]
  | H : context [<[?i := ?x]> ?f ?j] |- _ =>
      first [ rewrite (fn_lookup_insert f i x) in H
            | rewrite (fn_lookup_insert_ne f i j x) in H by congruence
            | destruct (decide (i = j)); [subst; rewrite fn_lookup_insert in H
                                         | rewrite (fn_lookup_insert_ne f i j x) in H by done] ]
  end.

(** * Lists without repetition *)

(** list_del of the node of [t]. *)
Definition list_del (t : nat) (l : list nat) : list nat := filter (fun x => x <> t) l.

Lemma elem_of_del t l x : x ∈ list_del t l <-> x <> t /\ x ∈ l.
Proof. unfold list_del. by rewrite list_elem_of_filter. Qed.

Lemma NoDup_del t l : NoDup l -> NoDup (list_del t l).
Proof. apply list.NoDup_filter. Qed.

Lemma del_absent t l : t ∉ l -> list_del t l = l.
Proof.
  unfold list_del. induction l as [|x l IH]; [done|]. rewrite not_elem_of_cons. intros [Hx Hl].
  rewrite filter_cons_True by congruence. by rewrite IH.
Qed.

Lemma del_head t l : NoDup (t :: l) -> list_del t (t :: l) = l.
Proof.
  intros [Hn Hl]%list.NoDup_cons. unfold list_del. rewrite filter_cons_False by auto. by apply del_absent.
Qed.

Lemma del_last t l : t ∉ l -> list_del t (l ++ [t]) = l.
Proof.
  intros Ht. unfold list_del. rewrite list.filter_app, filter_cons_False, filter_nil, app_nil_r by auto.
  by apply del_absent.
Qed.

(** The position of the other elements does not grow. *)
Lemma del_position t x l i : l !! i = Some x -> x <> t -> exists j, (j <= i)%nat /\ list_del t l !! j = Some x.
Proof.
  intros Hl Hx. revert i Hl. induction l as [|y l IH]; intros i Hl; [done|].
  unfold list_del. rewrite filter_cons. destruct i as [|i]; simplify_eq/=.
  - rewrite decide_True by done. exists 0%nat. split; [lia|done].
  - destruct (IH i Hl) as (j & Hj & Hd). case_decide.
    + exists (S j). split; [lia|done].
    + exists j. split; [lia|done].
Qed.

Lemma length_del t l : NoDup l -> t ∈ l -> length l = S (length (list_del t l)).
Proof.
  intros Hn. induction Hn as [|x l Hx Hn IH]; [by intros []%elem_of_nil|].
  intros Ht. unfold list_del. rewrite filter_cons. case_decide as Hd; simpl.
  - f_equal. apply IH. apply elem_of_cons in Ht as [->|?]; done.
  - assert (x = t) as -> by (destruct (decide (x = t)); done). f_equal. f_equal. symmetry.
    by apply del_absent.
Qed.
