(* ===== verification/Semaphore.v ===== *)
(** Counting semaphores: kernel/semaphore.c.

    The code between spin_lock_irqsave and spin_unlock_irqrestore is one step.  A task inside
    __down_common is either between the lock and the unlock, which is part of a step, or inside
    schedule_timeout, from which a later step resumes it.  The waiter of a task lives on its stack:
    it is the entry of that task in a table shared by all tasks. *)

From S2P Require Import Prelude Task.
From Stdlib Require Import Lia.

Open Scope Z_scope.

Record semaphore : Type := Sem {
  count : Z;
  wait_list : list nat
}.

Record semaphore_waiter : Type := SemWaiter {
  w_task : nat;
  w_up : Z
}.

(** [asleep t]: the state and timeout with which task [t] is inside schedule_timeout. *)
Record world : Type := World {
  sem : semaphore;
  waiters : nat -> semaphore_waiter;
  tasks : nat -> task_struct;
  asleep : nat -> option (Z * Z)
}.

Definition set_sem (s : semaphore) (w : world) : world := World s w.(waiters) w.(tasks) w.(asleep).
Definition set_count (c : Z) (w : world) : world := set_sem (Sem c w.(sem).(wait_list)) w.
Definition set_wait_list (l : list nat) (w : world) : world := set_sem (Sem w.(sem).(count) l) w.
Definition set_waiter (t : nat) (x : semaphore_waiter) (w : world) : world :=
  World w.(sem) (<[t := x]> w.(waiters)) w.(tasks) w.(asleep).
Definition set_task (t : nat) (p : task_struct) (w : world) : world :=
  World w.(sem) w.(waiters) (<[t := p]> w.(tasks)) w.(asleep).
Definition set_asleep (t : nat) (x : option (Z * Z)) (w : world) : world :=
  World w.(sem) w.(waiters) w.(tasks) (<[t := x]> w.(asleep)).

Definition sema_init (val : Z) : semaphore := Sem (u32 val) [].

(** * The contended case *)

(** The head of the loop, and the labels timed_out and interrupted.  [None]: the task sleeps. *)
Definition down_loop (t : nat) (state timeout : Z) (w : world) : option Z * world :=
  let leave := set_wait_list (list_del t w.(sem).(wait_list)) (set_asleep t None w) in
  if signal_pending_state state (w.(tasks) t) then (Some (- EINTR), leave)
  else if timeout <=? 0 then (Some (- ETIME), leave)
  else (None, set_asleep t (Some (state, timeout)) (set_task t (set_task_state state (w.(tasks) t)) w)).

Definition __down_common (t : nat) (state timeout : Z) (w : world) : option Z * world :=
  let w := set_wait_list (w.(sem).(wait_list) ++ [t]) w in
  let w := set_waiter t (SemWaiter t 0) w in
  down_loop t state timeout w.

(** schedule_timeout returns after [elapsed] jiffies to a task that sleeps. *)
Definition down_resume (t : nat) (elapsed : Z) (w : world) : option Z * world :=
  match w.(asleep) t with
  | Some (state, timeout) =>
      let timeout := schedule_timeout elapsed timeout in
      if negb ((w.(waiters) t).(w_up) =? 0) then (Some 0, set_asleep t None w)
      else down_loop t state timeout w
  | None => (None, w)
  end.

Definition __down (t : nat) (w : world) : option Z * world :=
  __down_common t TASK_UNINTERRUPTIBLE MAX_SCHEDULE_TIMEOUT w.

Definition __down_interruptible (t : nat) (w : world) : option Z * world :=
  __down_common t TASK_INTERRUPTIBLE MAX_SCHEDULE_TIMEOUT w.

Definition __down_killable (t : nat) (w : world) : option Z * world :=
  __down_common t TASK_KILLABLE MAX_SCHEDULE_TIMEOUT w.

Definition __down_timeout (t : nat) (jiffies : Z) (w : world) : option Z * world :=
  __down_common t TASK_UNINTERRUPTIBLE jiffies w.

(** The waiter at the front; list_first_entry of an empty list would be the list head itself. *)
Definition __up (w : world) : option world :=
  match w.(sem).(wait_list) with
  | [] => None
  | waiter :: _ =>
      let w := set_wait_list (list_del waiter w.(sem).(wait_list)) w in
      let t := (w.(waiters) waiter).(w_task) in
      let w := set_waiter waiter (SemWaiter t 1) w in
      Some (set_task t (wake_up_process (w.(tasks) t)) w)
  end.

(** * The interface *)

Definition down (t : nat) (w : world) : option Z * world :=
  if 0 <? w.(sem).(count) then (Some 0, set_count (w.(sem).(count) - 1) w) else __down t w.

Definition down_interruptible (t : nat) (w : world) : option Z * world :=
  if 0 <? w.(sem).(count) then (Some 0, set_count (w.(sem).(count) - 1) w) else __down_interruptible t w.

Definition down_killable (t : nat) (w : world) : option Z * world :=
  if 0 <? w.(sem).(count) then (Some 0, set_count (w.(sem).(count) - 1) w) else __down_killable t w.

Definition down_timeout (t : nat) (jiffies : Z) (w : world) : option Z * world :=
  if 0 <? w.(sem).(count) then (Some 0, set_count (w.(sem).(count) - 1) w) else __down_timeout t jiffies w.

Definition down_trylock (w : world) : Z * world :=
  let c := s32 (w.(sem).(count) - 1) in
  let w := if 0 <=? c then set_count c w else w in
  (if c <? 0 then 1 else 0, w).

Definition up (w : world) : option world :=
  match w.(sem).(wait_list) with
  | [] => Some (set_count (u32 (w.(sem).(count) + 1)) w)
  | _ :: _ => __up w
  end.

(** * Interleavings *)

Inductive call : Type :=
| Down | DownInterruptible | DownKillable | DownTimeout (jiffies : Z).

Definition enter (t : nat) (k : call) (w : world) : option Z * world :=
  match k with
  | Down => down t w
  | DownInterruptible => down_interruptible t w
  | DownKillable => down_killable t w
  | DownTimeout jiffies => down_timeout t jiffies w
  end.

(** A call that returns carries its result; [Disturb] is any other event that makes a task
    runnable: a timer, a signal, another wait queue. *)
Inductive label : Type :=
| Enter (t : nat) (k : call) (r : option Z)
| Resume (t : nat) (elapsed : Z) (r : option Z)
| Try (r : Z)
| Up
| Disturb (t : nat) (pending fatal : bool).

Inductive step : world -> label -> world -> Prop :=
| step_enter w t k r w' :
    w.(asleep) t = None -> runnable (w.(tasks) t) -> enter t k w = (r, w') -> step w (Enter t k r) w'
| step_resume w t elapsed r w' :
    w.(asleep) t <> None -> runnable (w.(tasks) t) -> 0 <= elapsed ->
    down_resume t elapsed w = (r, w') -> step w (Resume t elapsed r) w'
| step_try w r w' : down_trylock w = (r, w') -> step w (Try r) w'
| step_up w w' : up w = Some w' -> step w Up w'
| step_disturb w t pending fatal :
    step w (Disturb t pending fatal) (set_task t (Task TASK_RUNNING pending fatal) w).

(** Nobody uses the semaphore yet. *)
Definition init_world (n : Z) (ts : nat -> task_struct) : world :=
  World (sema_init n) (fun _ => SemWaiter 0 0) ts (fun _ => None).
