(* ===== verification/SemaphoreSpec.v ===== *)
(** Correctness of kernel/semaphore.c under every interleaving of its callers: no unit is lost or
    made up, no wake-up is lost, failing callers leave nothing behind, waiters are served in turn. *)

From S2P Require Import Prelude Task Semaphore.
From Stdlib Require Import Lia.

Open Scope Z_scope.

Implicit Types (w : world) (t : nat) (tr : list label) (l : label).

(** * The invariant *)

(** __up has handed the semaphore to [t], which has not run since. *)
Definition granted w t : Prop := w.(asleep) t <> None /\ (w.(waiters) t).(w_up) = 1.

Record inv w : Prop := {
  inv_count : is_u32 w.(sem).(count);
  inv_busy : w.(sem).(wait_list) <> [] -> w.(sem).(count) = 0;
  inv_nodup : NoDup w.(sem).(wait_list);
  inv_listed t : t ∈ w.(sem).(wait_list) <-> w.(asleep) t <> None /\ (w.(waiters) t).(w_up) = 0;
  inv_waiter t : w.(asleep) t <> None ->
    (w.(waiters) t).(w_task) = t /\ ((w.(waiters) t).(w_up) = 0 \/ (w.(waiters) t).(w_up) = 1);
  inv_woken t : granted w t -> runnable (w.(tasks) t)
}.

(** The units of the semaphore that nobody has taken: the count and the grants under way. *)
Definition untaken w (k : Z) : Prop :=
  exists G : list nat, NoDup G /\ (forall t, t ∈ G <-> granted w t) /\ w.(sem).(count) + Z.of_nat (length G) = k.

Lemma untaken_ext w w' k :
  w'.(sem).(count) = w.(sem).(count) -> (forall t, granted w' t <-> granted w t) ->
  untaken w k -> untaken w' k.
Proof. intros Hc Hg (G & Hn & HG & Hk). exists G. rewrite Hc. split_and!; [done| |done]. intros t. by rewrite Hg. Qed.

Lemma inv_init n ts : 0 <= n < 2147483648 -> inv (init_world n ts) /\ untaken (init_world n ts) n.
Proof.
  intros Hn. split.
  - split; simpl; try done.
    + auto with kernel.
    + constructor.
    + intros t. rewrite elem_of_nil. intuition congruence.
    + intros t [? _]. done.
  - exists []. split_and!; [constructor| |].
    + intros t. rewrite elem_of_nil. unfold granted. simpl. intuition congruence.
    + simpl. rewrite u32_small by (unfold is_u32; lia). lia.
Qed.

(** * The contended case *)

(** [t] is on the list and its waiter is not up, as if it slept; it leaves. *)
Lemma leave_inv w t x :
  inv (set_asleep t (Some x) w) -> (w.(waiters) t).(w_up) = 0 ->
  inv (set_wait_list (list_del t w.(sem).(wait_list)) (set_asleep t None w)).
Proof.
  intros [Hc Hb Hn Hl Hw Hr] Hu. simpl in *. split; simpl.
  - done.
  - intros H. apply Hb. intros Hnil. by rewrite Hnil in H.
  - by apply NoDup_del.
  - intros t'. rewrite elem_of_del. specialize (Hl t'). table; intuition congruence.
  - intros t' Ht. apply Hw. table; done.
  - intros t' [Ha Hup]. apply Hr. split; simpl in *; table; done.
Qed.

Lemma sleep_inv w t x state timeout :
  inv (set_asleep t (Some x) w) -> (w.(waiters) t).(w_up) = 0 ->
  inv (set_asleep t (Some (state, timeout)) (set_task t (set_task_state state (w.(tasks) t)) w)).
Proof.
  intros [Hc Hb Hn Hl Hw Hr] Hu. simpl in *. split; simpl; try done.
  - intros t'. specialize (Hl t'). table; intuition congruence.
  - intros t' Ht. apply Hw. table; done.
  - intros t' [Ha Hup]. simpl in *. destruct (decide (t = t')) as [<-|Hne]; [congruence|].
    table. apply Hr. split; simpl; table; done.
Qed.

Lemma down_loop_spec w t x state timeout r w' :
  inv (set_asleep t (Some x) w) -> (w.(waiters) t).(w_up) = 0 ->
  down_loop t state timeout w = (r, w') ->
  inv w' /\ w'.(sem).(count) = w.(sem).(count) /\
  (forall t', granted w' t' <-> granted (set_asleep t (Some x) w) t') /\
  ((r = None /\ w'.(sem).(wait_list) = w.(sem).(wait_list) /\
    w'.(asleep) = <[t := Some (state, timeout)]> w.(asleep)) \/
   ((r = Some (- EINTR) \/ r = Some (- ETIME)) /\ w'.(sem).(wait_list) = list_del t w.(sem).(wait_list) /\
    w'.(asleep) = <[t := None]> w.(asleep) /\
    (signal_pending_state state (w.(tasks) t) = true \/ timeout <= 0))).
Proof.
  intros Hi Hu. unfold down_loop.
  destruct (signal_pending_state state (tasks w t)) eqn:Es; [|destruct (timeout <=? 0) eqn:Et; zbool];
    intros [= <- <-].
  1,2: split; [by eapply leave_inv|]; split; [done|]; split; [|right; by auto];
    intros t'; unfold granted; simpl; table; intuition congruence.
  split; [by eapply sleep_inv|]. split; [done|]. split; [|by left].
  intros t'. unfold granted. simpl. table; intuition congruence.
Qed.

(** __down_common, for a task that sleeps nowhere, on a semaphore without units. *)
Lemma down_common_ready w t x :
  inv w -> w.(sem).(count) = 0 -> w.(asleep) t = None ->
  inv (set_asleep t (Some x) (set_waiter t (SemWaiter t 0) (set_wait_list (w.(sem).(wait_list) ++ [t]) w))).
Proof.
  intros [Hc Hb Hn Hl Hw Hr] H0 Ha. split; simpl.
  - done.
  - done.
  - apply list.NoDup_app. split; [done|]. split; [|apply NoDup_singleton].
    intros t' Ht ->%list_elem_of_singleton. apply Hl in Ht as [? _]. done.
  - intros t'. rewrite elem_of_app, list_elem_of_singleton. specialize (Hl t'). table; simpl; [intuition congruence|].
    intuition congruence.
  - intros t' Ht. specialize (Hw t'). table; simpl; auto.
  - intros t' [Ht Hu]. simpl in *. table; [done|]. by apply Hr.
Qed.

Lemma down_common_spec w t state timeout r w' :
  inv w -> w.(sem).(count) = 0 -> w.(asleep) t = None ->
  __down_common t state timeout w = (r, w') ->
  inv w' /\ w'.(sem).(count) = w.(sem).(count) /\ (forall t', granted w' t' <-> granted w t') /\
  ((r = None /\ w'.(sem).(wait_list) = w.(sem).(wait_list) ++ [t]) \/
   ((r = Some (- EINTR) \/ r = Some (- ETIME)) /\ w'.(sem).(wait_list) = w.(sem).(wait_list))) /\
  (forall t', t' <> t -> w'.(asleep) t' = w.(asleep) t').
Proof.
  intros Hi H0 Ha Hd.
  pose proof (down_common_ready w t (state, timeout) Hi H0 Ha) as Hi'.
  apply (down_loop_spec _ _ _ _ _ _ _ Hi') in Hd; [|by simpl; table].
  destruct Hd as (Hw & Hc & Hg & Hr). split; [done|]. split; [done|]. split; [|split].
  - intros t'. rewrite Hg. unfold granted. simpl. table; simpl; [|done]. intuition congruence.
  - destruct Hr as [(-> & Hl & _)|(Hr & Hl & _)]; [by left|right]. split; [done|]. rewrite Hl. simpl.
    apply del_last. rewrite (inv_listed _ Hi). tauto.
  - intros t' Ht. destruct Hr as [(_ & _ & ->)|(_ & _ & -> & _)]; simpl; by table.
Qed.

(** * The steps *)

Lemma take_inv w : inv w -> 0 < w.(sem).(count) -> inv (set_count (w.(sem).(count) - 1) w).
Proof.
  intros [Hc Hb Hn Hl Hw Hr] H0. unfold is_u32 in *. split; simpl; try done; [unfold is_u32; lia|].
  intros H. apply Hb in H. lia.
Qed.

Lemma enter_spec w t k r w' :
  inv w -> w.(asleep) t = None -> enter t k w = (r, w') ->
  inv w' /\
  ((r = Some 0 /\ 0 < w.(sem).(count) /\ w' = set_count (w.(sem).(count) - 1) w) \/
   (w.(sem).(count) = 0 /\ exists state timeout, __down_common t state timeout w = (r, w'))).
Proof.
  intros Hi Ha He. pose proof (inv_count _ Hi) as Hc. unfold is_u32 in Hc.
  assert ((r, w') = (Some 0, set_count (w.(sem).(count) - 1) w) /\ 0 < w.(sem).(count) \/
          w.(sem).(count) = 0 /\ exists state timeout, __down_common t state timeout w = (r, w')) as Hd.
  { destruct k; unfold enter, down, down_interruptible, down_killable, down_timeout in He;
      (destruct (0 <? count (sem w)) eqn:E; zbool; [left; auto|right; split; [lia|]]); eexists _, _; exact He. }
  destruct Hd as [[[= -> ->] H0]|(H0 & state & timeout & Hd)].
  - split; [by apply take_inv|]. by left.
  - split; [by apply (down_common_spec _ _ _ _ _ _ Hi H0 Ha Hd)|]. right. eauto.
Qed.

Lemma resume_spec w t state timeout elapsed r w' :
  inv w -> w.(asleep) t = Some (state, timeout) -> down_resume t elapsed w = (r, w') ->
  inv w' /\
  ((granted w t /\ r = Some 0 /\ w' = set_asleep t None w) \/
   ((w.(waiters) t).(w_up) = 0 /\ w'.(sem).(count) = w.(sem).(count) /\
    (forall t', granted w' t' <-> granted w t') /\
    ((r = None /\ w'.(sem).(wait_list) = w.(sem).(wait_list) /\
      w'.(asleep) = <[t := Some (state, schedule_timeout elapsed timeout)]> w.(asleep)) \/
     ((r = Some (- EINTR) \/ r = Some (- ETIME)) /\ w'.(sem).(wait_list) = list_del t w.(sem).(wait_list) /\
      w'.(asleep) = <[t := None]> w.(asleep) /\
      (signal_pending_state state (w.(tasks) t) = true \/ schedule_timeout elapsed timeout <= 0))))).
Proof.
  intros Hi Ha. unfold down_resume. rewrite Ha. destruct (inv_waiter _ Hi t) as [_ Hup]; [congruence|].
  destruct (w_up (waiters w t) =? 0) eqn:E; zbool; simpl negb; cbv iota.
  - intros Hd. assert (inv (set_asleep t (Some (state, timeout)) w)) as Hi'.
    { destruct Hi as [Hc Hb Hn Hl Hw Hr]. split; simpl; try done.
      - intros t'. specialize (Hl t'). table; intuition congruence.
      - intros t' Ht. specialize (Hw t'). table; intuition congruence.
      - intros t' [Ht Hu]. simpl in *. apply Hr. split; [|done]. table; congruence. }
    destruct (down_loop_spec _ _ _ _ _ _ _ Hi' E Hd) as (Hw & Hc & Hg & Hr). split; [done|]. right.
    do 2 (split; [done|]). split; [|done]. intros t'. rewrite Hg. unfold granted. simpl. table; intuition congruence.
  - intros [= <- <-]. assert (granted w t) as Hg by (split; [congruence|lia]). split; [|by left].
    destruct Hi as [Hc Hb Hn Hl Hw Hr]. destruct Hg as [Hg1 Hg2]. split; simpl; try done.
    + intros t'. specialize (Hl t'). table; intuition congruence.
    + intros t' Ht. specialize (Hw t'). table; intuition congruence.
    + intros t' [Ht Hu]. simpl in *. apply Hr. split; [|done]. table; congruence.
Qed.

Lemma try_spec w r w' :
  inv w -> down_trylock w = (r, w') ->
  inv w' /\ ((r = 0 /\ 0 < w.(sem).(count) /\ w' = set_count (w.(sem).(count) - 1) w) \/ (r = 1 /\ w' = w)).
Proof.
  intros Hi. pose proof (inv_count _ Hi) as Hc. unfold is_u32 in Hc. unfold down_trylock, s32.
  set (c := (count (sem w) - 1 + 2147483648) mod 4294967296 - 2147483648).
  destruct (0 <=? c) eqn:E; zbool.
  - rewrite (proj2 (Z.ltb_ge c 0)) by lia. intros [= <- <-].
    assert (c = count (sem w) - 1 /\ 0 < count (sem w)) as [-> H0] by (unfold c in *; lia).
    split; [by apply take_inv|]. by left.
  - rewrite (proj2 (Z.ltb_lt c 0)) by lia. intros [= <- <-]. split; [done|]. by right.
Qed.

(** up serves the waiter at the front, or adds a unit. *)
Lemma up_spec w :
  inv w ->
  exists w', up w = Some w' /\ inv w' /\ w'.(asleep) = w.(asleep) /\
  match w.(sem).(wait_list) with
  | [] => w' = set_count (u32 (w.(sem).(count) + 1)) w
  | t :: l => w'.(sem).(count) = w.(sem).(count) /\ w'.(sem).(wait_list) = l /\ ~ granted w t /\ granted w' t /\
      forall t', t' <> t -> (granted w' t' <-> granted w t')
  end.
Proof.
  intros Hi. unfold up, __up. destruct (wait_list (sem w)) as [|t l] eqn:El.
  - eexists. split; [done|]. split; [|done]. destruct Hi as [Hc Hb Hn Hl Hw Hr].
    rewrite El in *. split; simpl; rewrite ?El; try done. auto with kernel.
  - destruct (proj1 (inv_listed _ Hi t)) as [Ha Hu]; [rewrite El; left|].
    destruct (inv_waiter _ Hi t Ha) as [Ht _]. cbn [waiters set_wait_list set_sem tasks set_waiter].
    rewrite Ht. eexists. split; [done|].
    pose proof (inv_nodup _ Hi) as Hn. rewrite El in Hn. rewrite del_head by done.
    apply list.NoDup_cons in Hn as [Htl Hnl]. split; [|split; [done|]].
    + destruct Hi as [Hc Hb _ Hl Hw Hr]. split; simpl.
      * done.
      * intros _. apply Hb. by rewrite El.
      * done.
      * intros t'. specialize (Hl t'). rewrite El, elem_of_cons in Hl. table; simpl.
        { split; [intros Hin; by destruct (Htl Hin)|]. intros [_ ?]. done. }
        rewrite <- Hl. split; [auto|]. intros [->|?]; done.
      * intros t' Ht'. specialize (Hw t' Ht'). table; simpl; auto.
      * intros t' [Ha' Hu']. simpl in *. table; [done|]. apply Hr. by split.
    + simpl. split; [done|]. split; [done|]. split; [intros [_ ?]; congruence|].
      split; [by split; simpl; [|table]|]. intros t' Hne. unfold granted. simpl. by table.
Qed.

(** * Accounting *)

Definition acquired l : Z :=
  match l with
  | Enter _ _ (Some 0) | Resume _ _ (Some 0) | Try 0 => 1
  | _ => 0
  end.

Definition released l : Z := match l with Up => 1 | _ => 0 end.

Lemma untaken_take w k : untaken w k -> untaken (set_count (w.(sem).(count) - 1) w) (k - 1).
Proof. intros (G & Hn & HG & Hk). exists G. simpl. split_and!; [done|done|lia]. Qed.

Lemma untaken_return w t k : granted w t -> untaken w k -> untaken (set_asleep t None w) (k - 1).
Proof.
  intros Ht (G & Hn & HG & Hk). exists (list_del t G). simpl. split; [by apply NoDup_del|]. split.
  - intros t'. rewrite elem_of_del, HG. unfold granted. simpl. table; intuition congruence.
  - rewrite (length_del t G Hn) in Hk; [lia|]. by apply HG.
Qed.

Lemma sem_step_inv w l w' : inv w -> step w l w' -> inv w'.
Proof.
  intros Hi Hs. destruct Hs as [w t k r w' Ha _ He|w t e r w' Ha _ _ Hr|w r w' Ht|w w' Hu|w t p f].
  - by apply (enter_spec w t k r w').
  - destruct (asleep w t) as [[state timeout]|] eqn:E; [|done]. by apply (resume_spec w t state timeout e r w').
  - by apply (try_spec w r w').
  - destruct (up_spec w Hi) as (w1 & Hu' & Hi' & _). congruence.
  - destruct Hi as [Hc Hb Hn Hl Hw Hr]. split; simpl; try done.
    intros t' Ht'. table; [done|]. by apply Hr.
Qed.

Lemma step_untaken w l w' k :
  inv w -> step w l w' -> untaken w k -> k + released l < 4294967296 ->
  untaken w' (k + released l - acquired l).
Proof.
  intros Hi Hs Hk Hb. destruct Hs as [w t c r w' Ha _ He|w t e r w' Ha _ _ Hr|w r w' Ht|w w' Hu|w t p f]; simpl.
  - destruct (enter_spec w t c r w' Hi Ha He) as (_ & [(-> & _ & ->)|(H0 & st & to & Hd)]).
    + rewrite Z.add_0_r. by apply untaken_take.
    + destruct (down_common_spec w t st to r w' Hi H0 Ha Hd) as (_ & Hc & Hg & Hr & _).
      replace (k + 0 - _) with k by (destruct Hr as [[-> _]|[[-> | ->] _]]; simpl; lia). by eapply untaken_ext.
  - destruct (asleep w t) as [[st to]|] eqn:E; [|done].
    destruct (resume_spec w t st to e r w' Hi E Hr) as (_ & [(Hg & -> & ->)|(_ & Hc & Hg & Hr')]).
    + rewrite Z.add_0_r. by apply untaken_return.
    + replace (k + 0 - _) with k by (destruct Hr' as [[-> _]|[[-> | ->] _]]; simpl; lia). by eapply untaken_ext.
  - destruct (try_spec w r w' Hi Ht) as (_ & [(-> & _ & ->)|(-> & ->)]).
    + rewrite Z.add_0_r. by apply untaken_take.
    + by rewrite Z.add_0_r, Z.sub_0_r.
  - destruct (up_spec w Hi) as (w1 & Hu' & _ & _ & Hup). simplify_eq. simpl in Hb. rewrite Z.sub_0_r.
    destruct Hk as (G & Hn & HG & Hk). destruct (wait_list (sem w)) as [|t l'].
    + subst. exists G. pose proof (inv_count _ Hi) as Hc. unfold is_u32 in Hc. simpl.
      rewrite u32_small by (unfold is_u32; lia). split_and!; [done|done|lia].
    + destruct Hup as (Hc & _ & Hng & Hg & Ho). exists (t :: G). split_and!.
      * apply list.NoDup_cons. by rewrite HG.
      * intros t'. rewrite elem_of_cons, HG. destruct (decide (t' = t)) as [->|]; [tauto|]. rewrite Ho by done. tauto.
      * simpl. rewrite Hc. lia.
  - rewrite Z.add_0_r, Z.sub_0_r. by eapply untaken_ext; [..|exact Hk].
Qed.

Lemma acquired_nonneg l : 0 <= acquired l.
Proof. destruct l as [t k [[]|]|t e [[]|]|[]| |t p f]; simpl; lia. Qed.

Lemma released_nonneg l : 0 <= released l.
Proof. destruct l; simpl; lia. Qed.

Lemma run_untaken w tr w' k :
  run step w tr w' -> inv w -> untaken w k -> k + tally released tr < 4294967296 ->
  untaken w' (k + tally released tr - tally acquired tr).
Proof.
  intros Hr. revert k. induction Hr as [w|w l w1 tr w2 Hs Hr IH]; intros k Hi Hk Hb; simpl in *.
  - by replace (k + 0 - 0) with k by lia.
  - pose proof (tally_nonneg released tr released_nonneg). pose proof (acquired_nonneg l).
    replace (k + _ - _) with (k + released l - acquired l + tally released tr - tally acquired tr) by lia.
    apply IH; [by eapply sem_step_inv| |lia]. apply step_untaken with w; [done..|lia].
Qed.

(** * Waiting *)

(** A caller that fails while it waits. *)
Definition gives_up t l : Prop := exists elapsed r, l = Resume t elapsed (Some r) /\ r <> 0.

(** A caller of down, whom neither a signal nor a timeout drives away. *)
Definition patient w t : Prop := w.(asleep) t = Some (TASK_UNINTERRUPTIBLE, MAX_SCHEDULE_TIMEOUT).

Lemma granted_stable w l w' t :
  inv w -> granted w t -> step w l w' -> granted w' t \/ exists elapsed, l = Resume t elapsed (Some 0).
Proof.
  intros Hi Hg Hs. destruct Hs as [w t' c r w' Ha _ He|w t' e r w' Ha _ _ Hr|w r w' Ht|w w' Hu|w t' p f]; simpl.
  - left. destruct (enter_spec w t' c r w' Hi Ha He) as (_ & [(-> & _ & ->)|(H0 & st & to & Hd)]); [done|].
    by apply (down_common_spec w t' st to r w' Hi H0 Ha Hd).
  - destruct (asleep w t') as [[st to]|] eqn:E; [|done].
    destruct (resume_spec w t' st to e r w' Hi E Hr) as (_ & [(Hg' & -> & ->)|(_ & Hc & Hg' & _)]).
    + destruct (decide (t' = t)) as [->|Hne]; [right; eauto|left].
      destruct Hg as [Hg1 Hg2]. split; simpl; [by table|done].
    + left. by apply Hg'.
  - left. by destruct (try_spec w r w' Hi Ht) as (_ & [(-> & _ & ->)|(-> & ->)]).
  - left. destruct (up_spec w Hi) as (w1 & Hu' & _ & _ & Hup). simplify_eq.
    destruct (wait_list (sem w)) as [|t' l']; [by subst|]. destruct Hup as (_ & _ & _ & Ht' & Ho).
    destruct (decide (t = t')) as [->|]; [done|]. by apply Ho.
  - by left.
Qed.

(** No step moves a waiter back, and up moves it forward. *)
Lemma step_position w l w' t i :
  inv w -> w.(sem).(wait_list) !! i = Some t -> step w l w' ->
  (exists j, w'.(sem).(wait_list) !! j = Some t /\ Z.of_nat j + released l <= Z.of_nat i /\
     (patient w t -> patient w' t)) \/
  (l = Up /\ granted w' t) \/ (gives_up t l /\ ~ patient w t).
Proof.
  intros Hi Hl Hs.
  assert (w.(asleep) t <> None /\ (w.(waiters) t).(w_up) = 0) as [Has Hup0]
    by (apply (inv_listed _ Hi); by eapply list_elem_of_lookup_2).
  destruct Hs as [w t' c r w' Ha _ He|w t' e r w' Ha _ _ Hr|w r w' Ht|w w' Hu|w t' p f]; simpl.
  - left. exists i. destruct (enter_spec w t' c r w' Hi Ha He) as (_ & [(-> & _ & ->)|(H0 & st & to & Hd)]).
    { split_and!; [done|lia|done]. }
    destruct (down_common_spec w t' st to r w' Hi H0 Ha Hd) as (_ & _ & _ & Hr & Ho).
    split; [|split; [lia|unfold patient; by rewrite Ho by congruence]].
    destruct Hr as [[_ ->]|[_ ->]]; [|done]. by apply lookup_app_l_Some.
  - destruct (asleep w t') as [[st to]|] eqn:E; [|done].
    destruct (resume_spec w t' st to e r w' Hi E Hr) as (_ & [([_ Hg] & -> & ->)|(_ & _ & _ & [(-> & Hl' & Ha')|Hf])]).
    + left. exists i. split_and!; [done|lia|]. unfold patient. simpl. destruct (decide (t' = t)) as [->|]; [congruence|by table].
    + left. exists i. rewrite Hl'. split_and!; [done|lia|]. unfold patient. rewrite Ha'. table; [|done].
      rewrite E. intros [= -> ->]. by rewrite wait_for_ever.
    + destruct Hf as (Hf & Hl' & Ha' & Hwhy). destruct (decide (t' = t)) as [->|Hne].
      * right. right. split; [destruct Hf as [-> | ->]; by eexists _, _|].
        unfold patient. rewrite E. intros [= -> ->]. rewrite wait_for_ever in Hwhy. by destruct Hwhy.
      * left. rewrite Hl'. destruct (del_position t' t _ i Hl) as (j & Hj & Hd); [done|].
        exists j. split_and!; [done|lia|]. unfold patient. rewrite Ha'. by table.
  - left. exists i. destruct (try_spec w r w' Hi Ht) as (_ & [(-> & _ & ->)|(-> & ->)]); split_and!; try done; lia.
  - destruct (up_spec w Hi) as (w1 & Hu' & _ & Ha' & Hup). simplify_eq.
    destruct (wait_list (sem w)) as [|t' l'] eqn:El; [done|]. destruct Hup as (_ & Hl' & _ & Hg & _).
    destruct i as [|i]; simplify_eq/=; [by right; left|]. left. exists i. split_and!; [done|lia|].
    unfold patient. by rewrite Ha'.
  - left. exists i. split_and!; [done|lia|done].
Qed.

Lemma run_granted w tr w' t :
  run step w tr w' -> inv w -> granted w t ->
  granted w' t \/ exists elapsed, Resume t elapsed (Some 0) ∈ tr.
Proof.
  induction 1 as [w|w l w1 tr w2 Hs Hr IH]; intros Hi Hg; [by left|].
  destruct (granted_stable w l w1 t Hi Hg Hs) as [Hg1|[e ->]]; [|right; exists e; left].
  destruct IH as [?|[e He]]; [by eapply sem_step_inv|done|by left|]. right. exists e. by right.
Qed.

(** As many releases as there are waiters up to [t] serve it. *)
Lemma run_served w tr w' t i :
  run step w tr w' -> inv w -> w.(sem).(wait_list) !! i = Some t ->
  patient w t \/ Forall (fun l => ~ gives_up t l) tr ->
  Z.of_nat i < tally released tr ->
  granted w' t \/ exists elapsed, Resume t elapsed (Some 0) ∈ tr.
Proof.
  intros Hr. revert i. induction Hr as [w|w l w1 tr w2 Hs Hr IH]; intros i Hi Hl Hp Hb; simpl in *; [lia|].
  pose proof (sem_step_inv _ _ _ Hi Hs) as Hi1.
  destruct (step_position w l w1 t i Hi Hl Hs) as [(j & Hj & Hle & Hpat)|[(-> & Hg)|(Hg & Hnp)]].
  - destruct (IH j Hi1 Hj) as [?|[e He]]; [| |by left|right; exists e; by right].
    + destruct Hp as [Hp|Hp]; [left; auto|right]. exact (Forall_inv_tail Hp).
    + lia.
  - destruct (run_granted w1 tr w2 t Hr Hi1 Hg) as [?|[e He]]; [by left|]. right. exists e. by right.
  - destruct Hp as [Hp|Hp]; [done|]. by apply Forall_inv in Hp.
Qed.

(** * The property *)

(** C10: From initialisation with [n] units on, under every interleaving of the callers: the count,
    the grants under way and the units taken add up to [n] plus the releases, so no more units are
    taken than exist; a unit is only free when nobody waits; exactly the sleeping callers that were
    not granted a unit are listed, each once, so a caller that failed leaves no trace; a granted
    caller is runnable and returns 0 whenever it runs; and a caller at position [i] of the list that
    does not give up (and a caller of down never does) is served by the next [i + 1] releases. *)
Theorem semaphore_correct n ts tr w :
  0 <= n < 2147483648 -> n + tally released tr < 4294967296 -> run step (init_world n ts) tr w ->
  (exists G : list nat, NoDup G /\ (forall t, t ∈ G <-> granted w t) /\
     w.(sem).(count) + Z.of_nat (length G) + tally acquired tr = n + tally released tr) /\
  (w.(sem).(wait_list) <> [] -> w.(sem).(count) = 0) /\ NoDup w.(sem).(wait_list) /\
  (forall t, t ∈ w.(sem).(wait_list) <-> w.(asleep) t <> None /\ ~ granted w t) /\
  (forall t, granted w t -> runnable (w.(tasks) t) /\
     forall elapsed, down_resume t elapsed w = (Some 0, set_asleep t None w)) /\
  (forall t i tr' w', w.(sem).(wait_list) !! i = Some t -> run step w tr' w' ->
     patient w t \/ Forall (fun l => ~ gives_up t l) tr' -> Z.of_nat i < tally released tr' ->
     granted w' t \/ exists elapsed, Resume t elapsed (Some 0) ∈ tr').
Proof.
  intros Hn Hb Hr. destruct (inv_init n ts Hn) as [Hi0 Hu0].
  pose proof (run_invariant step inv sem_step_inv _ _ _ Hr Hi0) as Hi.
  split; [|split; [by apply inv_busy|split; [by apply inv_nodup|split; [|split]]]].
  - destruct (run_untaken _ _ _ n Hr Hi0 Hu0 Hb) as (G & HN & HG & Hk). exists G. split_and!; [done|done|lia].
  - intros t. rewrite (inv_listed _ Hi). unfold granted. split; [intros [Ha Hu]; split; [done|]|].
    + intros [_ ?]. congruence.
    + intros [Ha Hu]. split; [done|]. destruct (inv_waiter _ Hi t Ha) as [_ [?|?]]; [done|]. tauto.
  - intros t Ht. split; [by apply inv_woken|]. intros elapsed. destruct Ht as [Ha Hu]. unfold down_resume.
    destruct (asleep w t) as [[st to]|]; [|done]. by rewrite Hu.
  - intros t i tr' w' Hl Hr' Hp Hb'. by eapply run_served.
Qed.

Definition idle_task : task_struct := Task TASK_RUNNING false false.

(** Two callers of down on a semaphore with one unit: the second waits and a release serves it. *)
Lemma semaphore_correct_witness :
  exists w w', run step (init_world 1 (fun _ => idle_task)) [Enter 1 Down (Some 0); Enter 2 Down None] w /\
    run step w [Up] w' /\ (granted w' 2 \/ exists elapsed, Resume 2 elapsed (Some 0) ∈ [Up]).
Proof.
  eexists _, _. split; [|split].
  - eapply run_cons; [by eapply step_enter|]. eapply run_cons; [by eapply step_enter|]. apply run_nil.
  - eapply run_cons; [by eapply step_up|]. apply run_nil.
  - eapply (semaphore_correct 1 (fun _ => idle_task) [Enter 1 Down (Some 0); Enter 2 Down None]).
    + lia.
    + simpl. lia.
    + eapply run_cons; [by eapply step_enter|]. eapply run_cons; [by eapply step_enter|]. apply run_nil.
    + instantiate (1 := 0%nat). reflexivity.
    + eapply run_cons; [by eapply step_up|]. apply run_nil.
    + left. reflexivity.
    + simpl. lia.
Defined.
