(* ===== verification/Rwsem.v ===== *)
(** Reader/writer semaphores: lib/rwsem-spinlock.c, the implementation ARM is built with.

    The code under wait_lock is one step.  The waiting loop runs outside the lock: it alternates
    between looking at the task field of the waiter, which the waker clears, and sleeping in
    schedule.  The waiter of a task lives on its stack: it is the entry of that task in a table. *)

From S2P Require Import Prelude Task.
From Stdlib Require Import Lia.

Open Scope Z_scope.

Record rw_semaphore : Type := RwSem {
  activity : Z;
  rw_wait_list : list nat
}.

Definition RWSEM_WAITING_FOR_READ : Z := 1.
Definition RWSEM_WAITING_FOR_WRITE : Z := 2.

(** A [task] of [None] is NULL. *)
Record rwsem_waiter : Type := RwWaiter {
  rw_task : option nat;
  flags : Z
}.

(** Where a task is inside its waiting loop: about to look, or in schedule. *)
Inductive wait_pc : Type := Look | InSchedule.

(** [refs] is the usage count of the task structures. *)
Record rw_world : Type := RwWorld {
  rwsem : rw_semaphore;
  rw_waiters : nat -> rwsem_waiter;
  rw_tasks : nat -> task_struct;
  refs : nat -> Z;
  waiting : nat -> option wait_pc
}.

Definition rw_set_sem (s : rw_semaphore) (w : rw_world) : rw_world :=
  RwWorld s w.(rw_waiters) w.(rw_tasks) w.(refs) w.(waiting).
Definition set_activity (a : Z) (w : rw_world) : rw_world := rw_set_sem (RwSem a w.(rwsem).(rw_wait_list)) w.
Definition rw_set_list (l : list nat) (w : rw_world) : rw_world := rw_set_sem (RwSem w.(rwsem).(activity) l) w.
Definition rw_set_waiter (t : nat) (x : rwsem_waiter) (w : rw_world) : rw_world :=
  RwWorld w.(rwsem) (<[t := x]> w.(rw_waiters)) w.(rw_tasks) w.(refs) w.(waiting).
Definition rw_set_task (t : nat) (p : task_struct) (w : rw_world) : rw_world :=
  RwWorld w.(rwsem) w.(rw_waiters) (<[t := p]> w.(rw_tasks)) w.(refs) w.(waiting).
Definition set_waiting (t : nat) (x : option wait_pc) (w : rw_world) : rw_world :=
  RwWorld w.(rwsem) w.(rw_waiters) w.(rw_tasks) w.(refs) (<[t := x]> w.(waiting)).

Definition get_task_struct (t : nat) (w : rw_world) : rw_world :=
  RwWorld w.(rwsem) w.(rw_waiters) w.(rw_tasks) (<[t := w.(refs) t + 1]> w.(refs)) w.(waiting).

Definition put_task_struct (t : nat) (w : rw_world) : rw_world :=
  RwWorld w.(rwsem) w.(rw_waiters) w.(rw_tasks) (<[t := w.(refs) t - 1]> w.(refs)) w.(waiting).

Definition __init_rwsem : rw_semaphore := RwSem 0 [].

(** [contended]: spin_trylock_irqsave fails. *)
Definition rwsem_is_locked (contended : bool) (s : rw_semaphore) : Z :=
  if contended then 1 else if s.(activity) =? 0 then 0 else 1.

(** * Waking *)

(** list_del, and the wake-up of the task of a waiter; waking NULL is a fault. *)
Definition wake_waiter (waiter : nat) (w : rw_world) : option rw_world :=
  let w := rw_set_list (list_del waiter w.(rwsem).(rw_wait_list)) w in
  tsk ← (w.(rw_waiters) waiter).(rw_task);
  let w := rw_set_waiter waiter (RwWaiter None (w.(rw_waiters) waiter).(flags)) w in
  let w := rw_set_task tsk (wake_up_process (w.(rw_tasks) tsk)) w in
  Some (put_task_struct tsk w).

Definition is_reader (x : rwsem_waiter) : bool := negb (Z.land x.(flags) RWSEM_WAITING_FOR_READ =? 0).
Definition is_writer (x : rwsem_waiter) : bool := negb (Z.land x.(flags) RWSEM_WAITING_FOR_WRITE =? 0).

(** The loop at dont_wake_writers, over the waiters still listed. *)
Fixpoint wake_readers (l : list nat) (w : rw_world) (woken : Z) : option (rw_world * Z) :=
  match l with
  | [] => Some (w, woken)
  | waiter :: next =>
      if is_reader (w.(rw_waiters) waiter) then
        w ← wake_waiter waiter w;
        wake_readers next w (woken + 1)
      else Some (w, woken)
  end.

(** The callers see to it that the list is not empty. *)
Definition __rwsem_do_wake (wakewrite : bool) (w : rw_world) : option rw_world :=
  match w.(rwsem).(rw_wait_list) with
  | [] => None
  | waiter :: _ =>
      let dont_wake_writers :=
        '(w, woken) ← wake_readers w.(rwsem).(rw_wait_list) w 0;
        Some (set_activity (w.(rwsem).(activity) + woken) w) in
      if negb wakewrite then
        if is_writer (w.(rw_waiters) waiter) then Some w else dont_wake_writers
      else if is_writer (w.(rw_waiters) waiter) then wake_waiter waiter (set_activity (-1) w)
      else dont_wake_writers
  end.

Definition __rwsem_wake_one_writer (w : rw_world) : option rw_world :=
  let w := set_activity (-1) w in
  match w.(rwsem).(rw_wait_list) with
  | [] => None
  | waiter :: _ => wake_waiter waiter w
  end.

(** * Locking *)

Definition list_empty (w : rw_world) : bool := match w.(rwsem).(rw_wait_list) with [] => true | _ => false end.

(** The part of the slow path under wait_lock. *)
Definition enqueue (t : nat) (fl : Z) (w : rw_world) : rw_world :=
  let w := rw_set_task t (set_task_state TASK_UNINTERRUPTIBLE (w.(rw_tasks) t)) w in
  let w := rw_set_waiter t (RwWaiter (Some t) fl) w in
  let w := get_task_struct t w in
  let w := rw_set_list (w.(rwsem).(rw_wait_list) ++ [t]) w in
  set_waiting t (Some Look) w.

(** The flag: whether the function returns without waiting. *)
Definition __down_read (t : nat) (w : rw_world) : bool * rw_world :=
  if (0 <=? w.(rwsem).(activity)) && list_empty w then
    (true, set_activity (w.(rwsem).(activity) + 1) w)
  else (false, enqueue t RWSEM_WAITING_FOR_READ w).

Definition __down_write_nested (t : nat) (w : rw_world) : bool * rw_world :=
  if (w.(rwsem).(activity) =? 0) && list_empty w then (true, set_activity (-1) w)
  else (false, enqueue t RWSEM_WAITING_FOR_WRITE w).

Definition __down_write (t : nat) (w : rw_world) : bool * rw_world := __down_write_nested t w.

(** One look at the waiter in the loop; [true]: the loop ends and the function returns. *)
Definition wait_look (t : nat) (w : rw_world) : bool * rw_world :=
  match (w.(rw_waiters) t).(rw_task) with
  | None => (true, rw_set_task t (set_task_state TASK_RUNNING (w.(rw_tasks) t)) (set_waiting t None w))
  | Some _ => (false, set_waiting t (Some InSchedule) w)
  end.

(** schedule has returned. *)
Definition wait_again (t : nat) (w : rw_world) : rw_world :=
  rw_set_task t (set_task_state TASK_UNINTERRUPTIBLE (w.(rw_tasks) t)) (set_waiting t (Some Look) w).

Definition __down_read_trylock (w : rw_world) : Z * rw_world :=
  if (0 <=? w.(rwsem).(activity)) && list_empty w then
    (1, set_activity (w.(rwsem).(activity) + 1) w)
  else (0, w).

Definition __down_write_trylock (w : rw_world) : Z * rw_world :=
  if (w.(rwsem).(activity) =? 0) && list_empty w then (1, set_activity (-1) w) else (0, w).

Definition __up_read (w : rw_world) : option rw_world :=
  let w := set_activity (w.(rwsem).(activity) - 1) w in
  if (w.(rwsem).(activity) =? 0) && negb (list_empty w) then __rwsem_wake_one_writer w else Some w.

Definition __up_write (w : rw_world) : option rw_world :=
  let w := set_activity 0 w in
  if negb (list_empty w) then __rwsem_do_wake true w else Some w.

Definition __downgrade_write (w : rw_world) : option rw_world :=
  let w := set_activity 1 w in
  if negb (list_empty w) then __rwsem_do_wake false w else Some w.

(** * Interleavings *)

(** What a task holds, as its caller knows it. *)
Inductive hold : Type := NotHeld | ReadHeld | WriteHeld.

Definition hold_of (fl : Z) : hold := if fl =? RWSEM_WAITING_FOR_READ then ReadHeld else WriteHeld.

(** Callers release what they hold, and only that. *)
Inductive rw_step : rw_world * (nat -> hold) -> unit -> rw_world * (nat -> hold) -> Prop :=
| rw_read w h t b w' :
    h t = NotHeld -> w.(waiting) t = None -> runnable (w.(rw_tasks) t) -> __down_read t w = (b, w') ->
    rw_step (w, h) () (w', if b then <[t := ReadHeld]> h else h)
| rw_write w h t b w' :
    h t = NotHeld -> w.(waiting) t = None -> runnable (w.(rw_tasks) t) -> __down_write t w = (b, w') ->
    rw_step (w, h) () (w', if b then <[t := WriteHeld]> h else h)
| rw_look w h t b w' :
    w.(waiting) t = Some Look -> wait_look t w = (b, w') ->
    rw_step (w, h) () (w', if b then <[t := hold_of (w.(rw_waiters) t).(flags)]> h else h)
| rw_again w h t :
    w.(waiting) t = Some InSchedule -> runnable (w.(rw_tasks) t) -> rw_step (w, h) () (wait_again t w, h)
| rw_try_read w h t r w' :
    h t = NotHeld -> w.(waiting) t = None -> __down_read_trylock w = (r, w') ->
    rw_step (w, h) () (w', if r =? 0 then h else <[t := ReadHeld]> h)
| rw_try_write w h t r w' :
    h t = NotHeld -> w.(waiting) t = None -> __down_write_trylock w = (r, w') ->
    rw_step (w, h) () (w', if r =? 0 then h else <[t := WriteHeld]> h)
| rw_up_read w h t w' :
    h t = ReadHeld -> __up_read w = Some w' -> rw_step (w, h) () (w', <[t := NotHeld]> h)
| rw_up_write w h t w' :
    h t = WriteHeld -> __up_write w = Some w' -> rw_step (w, h) () (w', <[t := NotHeld]> h)
| rw_downgrade w h t w' :
    h t = WriteHeld -> __downgrade_write w = Some w' -> rw_step (w, h) () (w', <[t := ReadHeld]> h)
| rw_disturb w h t p :
    runnable p -> rw_step (w, h) () (rw_set_task t p w, h).

Definition rw_init (ts : nat -> task_struct) (rs : nat -> Z) : rw_world * (nat -> hold) :=
  (RwWorld __init_rwsem (fun _ => RwWaiter None 0) ts rs (fun _ => None), fun _ => NotHeld).
