(* ===== verification/RwsemSpec.v ===== *)
(** Correctness of lib/rwsem-spinlock.c under every interleaving of its callers: readers and writers
    exclude each other, and no waiter is left behind. *)

From S2P Require Import Prelude Task Rwsem.
From Stdlib Require Import Lia.

Open Scope Z_scope.

Implicit Types (w : rw_world) (h : nat -> hold) (t : nat) (rs : nat -> Z).

(** * Who owns the semaphore *)

(** A woken waiter owns it before it runs. *)
Definition owner w h t : hold :=
  match w.(waiting) t with
  | None => h t
  | Some _ => match (w.(rw_waiters) t).(rw_task) with None => hold_of (w.(rw_waiters) t).(flags) | Some _ => NotHeld end
  end.

(** [l] lists the tasks of [o] that hold [k]. *)
Definition holders (o : nat -> hold) (k : hold) (l : list nat) : Prop := NoDup l /\ forall t, t ∈ l <-> o t = k.

(** What include/linux/rwsem-spinlock.h says of activity. *)
Definition activity_ok (a : Z) (R W : list nat) : Prop :=
  (W = [] /\ a = Z.of_nat (length R)) \/ (R = [] /\ length W = 1%nat /\ a = -1).

Section Holders.
Context (o o' : nat -> hold) (t : nat).
Hypothesis Hother : forall t', t' <> t -> o' t' = o t'.

Lemma holders_gain k l : o t <> k -> o' t = k -> holders o k l -> holders o' k (t :: l).
Proof.
  intros Hn Hk [HN Hl]. split; [apply list.NoDup_cons; by rewrite Hl|].
  intros t'. rewrite elem_of_cons, Hl. destruct (decide (t' = t)) as [->|Hne]; [tauto|]. rewrite Hother by done. tauto.
Qed.

Lemma holders_lose k l : o' t <> k -> holders o k l -> holders o' k (list_del t l).
Proof.
  intros Hn [HN Hl]. split; [by apply NoDup_del|]. intros t'. rewrite elem_of_del, Hl.
  destruct (decide (t' = t)) as [->|Hne]; [tauto|]. rewrite Hother by done. tauto.
Qed.

Lemma holders_same k l : o t <> k -> o' t <> k -> holders o k l -> holders o' k l.
Proof.
  intros Hn Hn' [HN Hl]. split; [done|]. intros t'. rewrite Hl.
  destruct (decide (t' = t)) as [->|Hne]; [tauto|]. by rewrite Hother.
Qed.
End Holders.

Lemma holders_ext o o' k l : (forall t, o' t = o t) -> holders o k l -> holders o' k l.
Proof. intros He [HN Hl]. split; [done|]. intros t. by rewrite He. Qed.

Lemma holders_none o k : (forall t, o t <> k) -> holders o k [].
Proof. intros Ho. split; [constructor|]. intros t. rewrite elem_of_nil. specialize (Ho t). tauto. Qed.

(** * The invariant *)

Record core w h rs : Prop := {
  c_nodup : NoDup w.(rwsem).(rw_wait_list);
  c_listed t : t ∈ w.(rwsem).(rw_wait_list) <-> w.(waiting) t <> None /\ (w.(rw_waiters) t).(rw_task) <> None;
  c_waiter t : w.(waiting) t <> None ->
    h t = NotHeld /\ ((w.(rw_waiters) t).(rw_task) = None \/ (w.(rw_waiters) t).(rw_task) = Some t) /\
    ((w.(rw_waiters) t).(flags) = RWSEM_WAITING_FOR_READ \/ (w.(rw_waiters) t).(flags) = RWSEM_WAITING_FOR_WRITE);
  c_woken t : w.(waiting) t = Some InSchedule -> (w.(rw_waiters) t).(rw_task) = None -> runnable (w.(rw_tasks) t);
  c_refs t : w.(refs) t = rs t + if bool_decide (t ∈ w.(rwsem).(rw_wait_list)) then 1 else 0
}.

Definition lock_ok w h : Prop :=
  exists R W, holders (owner w h) ReadHeld R /\ holders (owner w h) WriteHeld W /\
    activity_ok w.(rwsem).(activity) R W.

(** Somebody waits only while the semaphore is held, and a reader is first in the list only while a
    writer holds it. *)
Definition queue_ok w : Prop :=
  match w.(rwsem).(rw_wait_list) with
  | [] => True
  | t :: _ => w.(rwsem).(activity) <> 0 /\
      (0 < w.(rwsem).(activity) -> (w.(rw_waiters) t).(flags) = RWSEM_WAITING_FOR_WRITE)
  end.

Definition rw_inv rs (s : rw_world * (nat -> hold)) : Prop :=
  core s.1 s.2 rs /\ lock_ok s.1 s.2 /\ queue_ok s.1.

Lemma rw_inv_init ts rs : rw_inv rs (rw_init ts rs).
Proof.
  split; [|split].
  - split; simpl; try done.
    + constructor.
    + intros t. rewrite elem_of_nil. tauto.
    + intros t. lia.
  - exists [], []. split_and!; [apply holders_none; done..|by left].
  - done.
Qed.

(** The caller's record of a task that does not wait. *)
Lemma core_hold w h rs t x : w.(waiting) t = None -> core w h rs -> core w (<[t := x]> h) rs.
Proof.
  intros Ht [Hn Hl Hw Hk Hr]. split; try done. intros t' Ht'. table. by apply Hw.
Qed.

Lemma owner_hold w h t x : w.(waiting) t = None -> owner w (<[t := x]> h) t = x.
Proof. intros Ht. unfold owner. rewrite Ht. by table. Qed.

Lemma owner_hold_ne w h t x t' : t' <> t -> owner w (<[t := x]> h) t' = owner w h t'.
Proof. intros Ht. unfold owner. by table. Qed.

Lemma held_not_waiting w h rs t : core w h rs -> h t <> NotHeld -> w.(waiting) t = None.
Proof.
  intros Hc Hh. destruct (waiting w t) eqn:E; [|done]. destruct Hh. apply (c_waiter _ _ _ Hc). congruence.
Qed.

Lemma owner_held w h rs t k : core w h rs -> h t = k -> k <> NotHeld -> owner w h t = k.
Proof. intros Hc Hh Hk. unfold owner. rewrite (held_not_waiting w h rs t Hc) by congruence. done. Qed.

Lemma owner_listed w h rs t : core w h rs -> t ∈ w.(rwsem).(rw_wait_list) -> owner w h t = NotHeld.
Proof.
  intros Hc [Ht Hn]%(c_listed _ _ _ Hc). unfold owner.
  destruct (waiting w t); [|done]. by destruct (rw_task (rw_waiters w t)).
Qed.

(** * Waking *)

Lemma wake_waiter_spec w h rs t l :
  core w h rs -> w.(rwsem).(rw_wait_list) = t :: l ->
  exists w', wake_waiter t w = Some w' /\ core w' h rs /\ w'.(rwsem).(rw_wait_list) = l /\
    w'.(rwsem).(activity) = w.(rwsem).(activity) /\
    (forall t', (w'.(rw_waiters) t').(flags) = (w.(rw_waiters) t').(flags)) /\
    owner w' h t = hold_of (w.(rw_waiters) t).(flags) /\
    (forall t', t' <> t -> owner w' h t' = owner w h t').
Proof.
  intros Hc El. pose proof Hc as [Hn Hl Hw Hk Hr].
  destruct (proj1 (Hl t)) as [Hwt Htk]; [rewrite El; left|].
  destruct (Hw t Hwt) as (_ & [?|Ht] & _); [done|].
  rewrite El in Hn. assert ((t ∉ l) /\ NoDup l) as [Htl Hnl] by (by apply list.NoDup_cons).
  unfold wake_waiter. cbn [rw_waiters rw_set_list rw_set_sem]. rewrite Ht, El, del_head by done.
  cbn [mbind option_bind]. eexists. split; [done|]. split; [split; simpl|split; [|split; [|split; [|split]]]]; try done.
  - intros t'. specialize (Hl t'). rewrite El, elem_of_cons in Hl. table; simpl; [intuition congruence|].
    rewrite <- Hl. intuition congruence.
  - intros t' Ht'. specialize (Hw t' Ht'). table; simpl; intuition.
  - intros t' Ht' Hnone. table; simpl in *; [done|]. by apply Hk.
  - intros t'. specialize (Hr t'). rewrite El in Hr. table.
    + rewrite bool_decide_eq_true_2 in Hr by left. rewrite bool_decide_eq_false_2 by done. lia.
    + rewrite Hr. f_equal. assert (t' ∈ t :: l <-> t' ∈ l) as Hiff by (rewrite elem_of_cons; intuition congruence).
      by rewrite (bool_decide_ext _ _ Hiff).
  - intros t'. simpl. by table.
  - unfold owner. simpl. destruct (waiting w t); [|done]. by table.
  - intros t' Hne. unfold owner. simpl. by table.
Qed.

(** The readers at the front of the list. *)
Lemma wake_readers_spec w h rs R W n :
  core w h rs -> holders (owner w h) ReadHeld R -> holders (owner w h) WriteHeld W ->
  exists w' woken rest R', wake_readers w.(rwsem).(rw_wait_list) w n = Some (w', n + Z.of_nat (length woken)) /\
    core w' h rs /\ w.(rwsem).(rw_wait_list) = woken ++ rest /\ w'.(rwsem).(rw_wait_list) = rest /\
    w'.(rwsem).(activity) = w.(rwsem).(activity) /\
    holders (owner w' h) ReadHeld R' /\ length R' = (length R + length woken)%nat /\
    holders (owner w' h) WriteHeld W /\
    (forall t l, w.(rwsem).(rw_wait_list) = t :: l -> (w.(rw_waiters) t).(flags) = RWSEM_WAITING_FOR_READ -> woken <> []) /\
    match rest with [] => True | t :: _ => (w'.(rw_waiters) t).(flags) = RWSEM_WAITING_FOR_WRITE end.
Proof.
  remember (rw_wait_list (rwsem w)) as l eqn:El. symmetry in El.
  revert w n R El. induction l as [|t l IH]; intros w n R El Hc HR HW; simpl.
  { exists w, [], [], R. rewrite Z.add_0_r, Nat.add_0_r. done. }
  assert (t ∈ w.(rwsem).(rw_wait_list)) as Ht by (rewrite El; left).
  destruct (c_waiter _ _ _ Hc t) as (_ & _ & Hf); [by apply (c_listed _ _ _ Hc)|].
  destruct Hf as [Hf|Hf]; unfold is_reader; rewrite Hf; simpl.
  2:{ exists w, [], (t :: l), R. rewrite Z.add_0_r, Nat.add_0_r. split_and!; try done.
      intros t' l' [= <- <-]. by rewrite Hf. }
  pose proof (owner_listed w h rs t Hc Ht) as Ho.
  destruct (wake_waiter_spec w h rs t l Hc El) as (w1 & -> & Hc1 & El1 & Ha1 & Hf1 & Ho1 & Hoo). rewrite Hf in Ho1.
  destruct (IH w1 (n + 1) (t :: R) El1 Hc1) as (w' & woken & rest & R' & Hw & Hc' & -> & Hr & Ha & HR' & HL & HW' & _ & Hh).
  - eapply holders_gain; [exact Hoo| | |done]; [by rewrite Ho|done].
  - eapply holders_same; [exact Hoo| | |done]; [by rewrite Ho|by rewrite Ho1].
  - exists w', (t :: woken), rest, R'. simpl in *. rewrite Hw.
    split_and!; try done; [do 2 f_equal; lia|congruence|lia].
Qed.

(** The writer at the front of the list. *)
Lemma wake_writer_spec w h rs t l :
  core w h rs -> w.(rwsem).(rw_wait_list) = t :: l -> (w.(rw_waiters) t).(flags) = RWSEM_WAITING_FOR_WRITE ->
  holders (owner w h) ReadHeld [] -> holders (owner w h) WriteHeld [] -> w.(rwsem).(activity) = -1 ->
  exists w', wake_waiter t w = Some w' /\ core w' h rs /\ lock_ok w' h /\ queue_ok w'.
Proof.
  intros Hc El Hf HR HW Ha. assert (t ∈ w.(rwsem).(rw_wait_list)) as Ht by (rewrite El; left).
  pose proof (owner_listed w h rs t Hc Ht) as Ho.
  destruct (wake_waiter_spec w h rs t l Hc El) as (w1 & -> & Hc1 & El1 & Ha1 & Hf1 & Ho1 & Hoo). rewrite Hf in Ho1.
  exists w1. split_and!; [done|done| |].
  - exists [], [t]. split_and!.
    + eapply holders_same; [exact Hoo| | |done]; [by rewrite Ho|by rewrite Ho1].
    + eapply holders_gain; [exact Hoo| | |done]; [by rewrite Ho|done].
    + right. split_and!; [done|done|congruence].
  - unfold queue_ok. rewrite El1, Ha1, Ha. destruct l; [done|]. split; [done|lia].
Qed.

Lemma core_activity w h rs a : core w h rs -> core (set_activity a w) h rs.
Proof. intros [Hn Hl Hw Hk Hr]. by split. Qed.

(** __rwsem_do_wake on a semaphore without a writer. *)
Lemma do_wake_spec w h rs R (wakewrite : bool) :
  core w h rs -> w.(rwsem).(rw_wait_list) <> [] -> holders (owner w h) ReadHeld R ->
  holders (owner w h) WriteHeld [] -> w.(rwsem).(activity) = Z.of_nat (length R) ->
  (if wakewrite then R = [] else R <> []) ->
  exists w', __rwsem_do_wake wakewrite w = Some w' /\ core w' h rs /\ lock_ok w' h /\ queue_ok w'.
Proof.
  intros Hc Hne HR HW Ha Hwr. unfold __rwsem_do_wake. destruct (rw_wait_list (rwsem w)) as [|t l] eqn:El; [done|].
  assert (t ∈ w.(rwsem).(rw_wait_list)) as Ht by (rewrite El; left).
  destruct (c_waiter _ _ _ Hc t) as (_ & _ & Hf); [by apply (c_listed _ _ _ Hc)|].
  destruct Hf as [Hf|Hf]; unfold is_writer; rewrite Hf; simpl Z.land; simpl negb; cbv iota.
  - destruct (wake_readers_spec w h rs R [] 0 Hc HR HW)
      as (w' & woken & rest & R' & Hw & Hc' & Hs & Hr & Ha' & HR' & HL & HW' & Hnil & Hh).
    specialize (Hnil t l El Hf). rewrite El in Hw. rewrite Hw. cbn [mbind option_bind].
    exists (set_activity (w'.(rwsem).(activity) + (0 + Z.of_nat (length woken))) w').
    split; [by destruct wakewrite|]. split; [by apply core_activity|]. split.
    + exists R', []. split_and!; [done|done|]. left. simpl. split; [done|]. rewrite Ha', Ha, HL. lia.
    + unfold queue_ok. simpl. rewrite Hr. destruct rest; [done|]. split; [|done].
      rewrite Ha', Ha. destruct woken; [done|]. simpl. lia.
  - destruct wakewrite; simpl negb; cbv iota.
    + subst R. apply (wake_writer_spec (set_activity (-1) w) h rs t l); try done. by apply core_activity.
    + exists w. split_and!; [done|done| |].
      * exists R, []. split_and!; [done|done|by left].
      * unfold queue_ok. rewrite El, Ha. destruct R; [done|]. split; [simpl; lia|done].
Qed.

(** * The steps *)

Lemma list_empty_true w : list_empty w = true -> w.(rwsem).(rw_wait_list) = [].
Proof. unfold list_empty. by destruct (rw_wait_list (rwsem w)). Qed.

Lemma list_empty_false w : list_empty w = false -> w.(rwsem).(rw_wait_list) <> [].
Proof. unfold list_empty. by destruct (rw_wait_list (rwsem w)). Qed.

(** A task that does not wait takes the semaphore; nobody waits. *)
Lemma take_ok w h rs t k a :
  core w h rs -> w.(rwsem).(rw_wait_list) = [] -> h t = NotHeld -> w.(waiting) t = None ->
  (exists R W, holders (owner w h) ReadHeld R /\ holders (owner w h) WriteHeld W /\
     match k with
     | ReadHeld => activity_ok a (t :: R) W
     | WriteHeld => activity_ok a R (t :: W)
     | NotHeld => False
     end) ->
  rw_inv rs (set_activity a w, <[t := k]> h).
Proof.
  intros Hc El Hh Hw (R & W & HR & HW & Ha). split; [by apply core_hold, core_activity|]. cbn [fst snd]. split.
  - assert (forall t', t' <> t -> owner (set_activity a w) (<[t := k]> h) t' = owner w h t') as Ho
      by (intros t' Hne; by rewrite owner_hold_ne).
    assert (owner w h t = NotHeld) as H1 by (unfold owner; by rewrite Hw).
    assert (owner (set_activity a w) (<[t := k]> h) t = k) as H2 by by apply owner_hold.
    destruct k; [done|exists (t :: R), W|exists R, (t :: W)]; (split; [|split; [|done]]).
    + eapply holders_gain; [exact Ho|congruence|done|done].
    + eapply holders_same; [exact Ho|by rewrite H1|by rewrite H2|done].
    + eapply holders_same; [exact Ho|by rewrite H1|by rewrite H2|done].
    + eapply holders_gain; [exact Ho|congruence|done|done].
  - unfold queue_ok. simpl. by rewrite El.
Qed.

Lemma take_read w h rs t :
  rw_inv rs (w, h) -> (0 <=? w.(rwsem).(activity)) && list_empty w = true -> h t = NotHeld -> w.(waiting) t = None ->
  rw_inv rs (set_activity (w.(rwsem).(activity) + 1) w, <[t := ReadHeld]> h).
Proof.
  intros (Hc & (R & W & HR & HW & Ha) & _) [Hge He%list_empty_true]%andb_true_iff Hh Hw. simpl in *. zbool.
  apply take_ok; [done..|]. exists R, W. split_and!; [done|done|].
  destruct Ha as [[-> ->]|(_ & _ & ?)]; [left; simpl; split; [done|lia]|simpl in *; lia].
Qed.

Lemma take_write w h rs t :
  rw_inv rs (w, h) -> (w.(rwsem).(activity) =? 0) && list_empty w = true -> h t = NotHeld -> w.(waiting) t = None ->
  rw_inv rs (set_activity (-1) w, <[t := WriteHeld]> h).
Proof.
  intros (Hc & (R & W & HR & HW & Ha) & _) [Hge He%list_empty_true]%andb_true_iff Hh Hw. simpl in *. zbool.
  apply take_ok; [done..|]. exists R, W. split_and!; [done|done|]. simpl in *. right.
  destruct Ha as [[-> Ha]|(_ & _ & ?)]; [|lia]. destruct R; [done|]. simpl in Ha. lia.
Qed.

(** A task that does not wait joins the list, for a reason. *)
Lemma enqueue_ok w h rs t fl :
  rw_inv rs (w, h) -> h t = NotHeld -> w.(waiting) t = None ->
  fl = RWSEM_WAITING_FOR_READ \/ fl = RWSEM_WAITING_FOR_WRITE ->
  (w.(rwsem).(rw_wait_list) = [] -> w.(rwsem).(activity) <> 0 /\
     (0 < w.(rwsem).(activity) -> fl = RWSEM_WAITING_FOR_WRITE)) ->
  rw_inv rs (enqueue t fl w, h).
Proof.
  intros (Hc & (R & W & HR & HW & Ha) & Hq) Hh Hw Hfl Hwhy. simpl in *.
  assert (t ∉ w.(rwsem).(rw_wait_list)) as Ht by (rewrite (c_listed _ _ _ Hc); tauto).
  assert (forall t', owner (enqueue t fl w) h t' = owner w h t') as Ho.
  { intros t'. unfold owner. simpl. table; simpl; [by rewrite Hw|done]. }
  split; [|split].
  - destruct Hc as [Hn Hl Hwt Hk Hr]. split; simpl.
    + apply list.NoDup_app. split; [done|]. split; [|apply NoDup_singleton].
      intros t' Ht' ->%list_elem_of_singleton. done.
    + intros t'. rewrite elem_of_app, list_elem_of_singleton. specialize (Hl t'). table; simpl; intuition congruence.
    + intros t' Ht'. specialize (Hwt t'). table; simpl; auto.
    + intros t' Ht' Hnone. specialize (Hk t'). table; simpl in *; [done|]. auto.
    + intros t'. specialize (Hr t'). table.
      * rewrite bool_decide_eq_false_2 in Hr by done.
        rewrite bool_decide_eq_true_2 by (apply elem_of_app; right; by left). lia.
      * rewrite Hr. f_equal. assert (t' ∈ w.(rwsem).(rw_wait_list) <-> t' ∈ w.(rwsem).(rw_wait_list) ++ [t]) as Hiff
          by (rewrite elem_of_app, list_elem_of_singleton; intuition congruence).
        by rewrite (bool_decide_ext _ _ Hiff).
  - exists R, W. split_and!; [by eapply holders_ext|by eapply holders_ext|done].
  - unfold queue_ok in *. simpl. destruct (rw_wait_list (rwsem w)) as [|t0 l] eqn:El; simpl.
    + destruct Hwhy as [H0 H1]; [done|]. split; [done|]. by table.
    + rewrite not_elem_of_cons in Ht. destruct Ht as [Ht _]. by table.
Qed.

Lemma look_ok w h rs t b w' :
  rw_inv rs (w, h) -> w.(waiting) t = Some Look -> wait_look t w = (b, w') ->
  rw_inv rs (w', if b then <[t := hold_of (w.(rw_waiters) t).(flags)]> h else h).
Proof.
  intros (Hc & (R & W & HR & HW & Ha) & Hq) Hl Hd. simpl in *. unfold wait_look in Hd.
  pose proof Hc as [Hn Hls Hwt Hk Hr].
  destruct (rw_task (rw_waiters w t)) eqn:Et; injection Hd as <- <-; (split; [|split; [|done]]); simpl.
  - split; simpl; try done.
    + intros t'. specialize (Hls t'). table; intuition congruence.
    + intros t' Ht'. specialize (Hwt t'). table; apply Hwt; congruence.
    + intros t' Ht' Hnone. specialize (Hk t'). table; try congruence; auto.
  - exists R, W. assert (forall t', owner (set_waiting t (Some InSchedule) w) h t' = owner w h t') as Ho.
    { intros t'. unfold owner. simpl. table; [by rewrite Hl|done]. }
    split_and!; [by eapply holders_ext|by eapply holders_ext|done].
  - split; simpl; try done.
    + intros t'. specialize (Hls t'). table; intuition congruence.
    + intros t' Ht'. specialize (Hwt t'). table; try done; auto.
    + intros t' Ht' Hnone. specialize (Hk t'). table; try done; auto.
  - exists R, W. match goal with |- holders ?o _ _ /\ _ => assert (forall t', o t' = owner w h t') as Ho end.
    { intros t'. unfold owner. simpl. table; [by rewrite Hl, Et|done]. }
    split_and!; [by eapply holders_ext|by eapply holders_ext|done].
Qed.

Lemma again_ok w h rs t :
  rw_inv rs (w, h) -> w.(waiting) t = Some InSchedule -> rw_inv rs (wait_again t w, h).
Proof.
  intros (Hc & (R & W & HR & HW & Ha) & Hq) Hs. simpl in *. split; [|split; [|done]].
  - destruct Hc as [Hn Hl Hw Hk Hr]. split; simpl; try done.
    + intros t'. specialize (Hl t'). table; intuition congruence.
    + intros t' Ht'. specialize (Hw t'). table; apply Hw; congruence.
    + intros t' Ht' Hnone. specialize (Hk t'). table; try congruence; auto.
  - exists R, W. assert (forall t', owner (wait_again t w) h t' = owner w h t') as Ho.
    { intros t'. unfold owner. simpl. table; [by rewrite Hs|done]. }
    split_and!; [by eapply holders_ext|by eapply holders_ext|done].
Qed.

(** * Releases *)

(** The owners once the caller's record of [t] says [k]. *)
Lemma drop_holders w h rs t k R W :
  core w h rs -> w.(waiting) t = None -> holders (owner w h) ReadHeld R -> holders (owner w h) WriteHeld W ->
  (k <> ReadHeld -> holders (owner w (<[t := k]> h)) ReadHeld (list_del t R)) /\
  (k <> WriteHeld -> holders (owner w (<[t := k]> h)) WriteHeld (list_del t W)).
Proof.
  intros Hc Hw HR HW. split; intros Hk; (eapply holders_lose; [|by rewrite owner_hold|done]);
    intros t' Hne; by apply owner_hold_ne.
Qed.

Lemma up_read_ok w h rs t :
  rw_inv rs (w, h) -> h t = ReadHeld ->
  exists w', __up_read w = Some w' /\ rw_inv rs (w', <[t := NotHeld]> h).
Proof.
  intros (Hc & (R & W & HR & HW & Ha) & Hq) Hh. simpl in *.
  assert (w.(waiting) t = None) as Hwt by (apply (held_not_waiting w h rs); [done|congruence]).
  assert (t ∈ R) as HtR by (apply HR; unfold owner; by rewrite Hwt).
  destruct Ha as [[-> Ha]|(-> & _)]; [|by apply elem_of_nil in HtR].
  pose proof (length_del t R (proj1 HR) HtR) as HL.
  destruct (drop_holders w h rs t NotHeld R [] Hc Hwt HR HW) as [HR' HW'].
  specialize (HR' ltac:(done)). specialize (HW' ltac:(done)). simpl in HW'.
  apply (core_hold w h rs t NotHeld) in Hc; [|done].
  unfold __up_read. set (w1 := set_activity (activity (rwsem w) - 1) w).
  destruct (activity (rwsem w1) =? 0) eqn:E0; simpl in E0; zbool; simpl andb.
  - assert (list_del t R = []) as Hnil by (apply length_zero_iff_nil; lia). rewrite Hnil in HR'.
    destruct (list_empty w1) eqn:Ee; simpl negb; cbv iota.
    + apply list_empty_true in Ee. exists w1. split; [done|]. split; [by apply core_activity|]. split.
      * exists [], []. split_and!; [done|done|left]. split; [done|]. simpl. lia.
      * simpl in Ee. unfold queue_ok. simpl. by rewrite Ee.
    + apply list_empty_false in Ee. simpl in Ee. unfold __rwsem_wake_one_writer, queue_ok in *. simpl.
      destruct (rw_wait_list (rwsem w)) as [|t1 l] eqn:El; [done|]. destruct Hq as [_ Hq].
      destruct (wake_writer_spec (set_activity (-1) w1) (<[t := NotHeld]> h) rs t1 l)
        as (w' & Hw' & Hc' & Hl' & Hq'); try done.
      * by do 2 apply core_activity.
      * apply Hq. lia.
      * exists w'. split; [done|]. by split.
  - exists w1. split; [done|]. split; [by apply core_activity|]. split.
    + exists (list_del t R), []. split_and!; [done|done|left]. simpl. split; [done|lia].
    + unfold queue_ok in *. simpl. destruct (rw_wait_list (rwsem w)); [done|]. destruct Hq as [_ Hq].
      split; [done|]. intros _. apply Hq. lia.
Qed.

(** What the release of a writer leaves to wake. *)
Lemma writer_only w h rs t :
  core w h rs -> lock_ok w h -> h t = WriteHeld ->
  w.(waiting) t = None /\ holders (owner w h) ReadHeld [] /\ holders (owner w h) WriteHeld [t] /\
  w.(rwsem).(activity) = -1.
Proof.
  intros Hc (R & W & HR & HW & Ha) Hh.
  assert (w.(waiting) t = None) as Hwt by (apply (held_not_waiting w h rs); [done|congruence]).
  assert (t ∈ W) as HtW by (apply HW; unfold owner; by rewrite Hwt).
  destruct Ha as [[-> Ha]|(-> & HL & Ha)]; [by apply elem_of_nil in HtW|].
  destruct W as [|t' [|]]; try done. apply list_elem_of_singleton in HtW as ->. done.
Qed.

Lemma up_write_ok w h rs t :
  rw_inv rs (w, h) -> h t = WriteHeld ->
  exists w', __up_write w = Some w' /\ rw_inv rs (w', <[t := NotHeld]> h).
Proof.
  intros (Hc & Hl & Hq) Hh. simpl in *. destruct (writer_only w h rs t Hc Hl Hh) as (Hwt & HR & HW & Ha).
  destruct (drop_holders w h rs t NotHeld [] [t] Hc Hwt HR HW) as [HR' HW'].
  specialize (HR' ltac:(done)). specialize (HW' ltac:(done)). rewrite del_head in HW' by apply NoDup_singleton.
  apply (core_hold w h rs t NotHeld) in Hc; [|done]. unfold __up_write.
  destruct (list_empty (set_activity 0 w)) eqn:Ee; simpl negb; cbv iota.
  - apply list_empty_true in Ee. eexists. split; [done|]. split; [by apply core_activity|]. split.
    + exists [], []. split_and!; [done|done|by left].
    + simpl in Ee. unfold queue_ok. simpl. by rewrite Ee.
  - apply list_empty_false in Ee.
    destruct (do_wake_spec (set_activity 0 w) (<[t := NotHeld]> h) rs [] true) as (w' & Hw' & Hc' & Hl' & Hq'); try done.
    { by apply core_activity. }
    exists w'. split; [done|]. by split.
Qed.

Lemma downgrade_ok w h rs t :
  rw_inv rs (w, h) -> h t = WriteHeld ->
  exists w', __downgrade_write w = Some w' /\ rw_inv rs (w', <[t := ReadHeld]> h).
Proof.
  intros (Hc & Hl & Hq) Hh. simpl in *. destruct (writer_only w h rs t Hc Hl Hh) as (Hwt & HR & HW & Ha).
  destruct (drop_holders w h rs t ReadHeld [] [t] Hc Hwt HR HW) as [_ HW'].
  specialize (HW' ltac:(done)). rewrite del_head in HW' by apply NoDup_singleton.
  assert (holders (owner w (<[t := ReadHeld]> h)) ReadHeld [t]) as HR'.
  { eapply (holders_gain (owner w h)); [intros t' Hne; by apply owner_hold_ne| |by apply owner_hold|done].
    unfold owner. rewrite Hwt, Hh. done. }
  apply (core_hold w h rs t ReadHeld) in Hc; [|done]. unfold __downgrade_write.
  destruct (list_empty (set_activity 1 w)) eqn:Ee; simpl negb; cbv iota.
  - apply list_empty_true in Ee. eexists. split; [done|]. split; [by apply core_activity|]. split.
    + exists [t], []. split_and!; [done|done|by left].
    + simpl in Ee. unfold queue_ok. simpl. by rewrite Ee.
  - apply list_empty_false in Ee.
    destruct (do_wake_spec (set_activity 1 w) (<[t := ReadHeld]> h) rs [t] false) as (w' & Hw' & Hc' & Hl' & Hq'); try done.
    { by apply core_activity. }
    exists w'. split; [done|]. by split.
Qed.

Lemma rw_step_ok rs s l s' : rw_inv rs s -> rw_step s l s' -> rw_inv rs s'.
Proof.
  intros Hi Hs. destruct Hs as [w h t b w' Hh Hw _ Hd|w h t b w' Hh Hw _ Hd|w h t b w' Hw Hd|w h t Hw _
    |w h t r w' Hh Hw Hd|w h t r w' Hh Hw Hd|w h t w' Hh Hd|w h t w' Hh Hd|w h t w' Hh Hd|w h t p Hp].
  - unfold __down_read in Hd. destruct (_ && _) eqn:E in Hd; injection Hd as <- <-; [by apply take_read|].
    apply enqueue_ok; auto. intros He. unfold list_empty in E. rewrite He, andb_true_r in E. zbool. lia.
  - unfold __down_write, __down_write_nested in Hd. destruct (_ && _) eqn:E in Hd; injection Hd as <- <-; [by apply take_write|].
    apply enqueue_ok; auto. intros He. unfold list_empty in E. rewrite He, andb_true_r in E. zbool. auto.
  - by apply (look_ok w h rs t b w').
  - by apply again_ok.
  - unfold __down_read_trylock in Hd. destruct (_ && _) eqn:E in Hd; injection Hd as <- <-; [by apply take_read|done].
  - unfold __down_write_trylock in Hd. destruct (_ && _) eqn:E in Hd; injection Hd as <- <-; [by apply take_write|done].
  - destruct (up_read_ok w h rs t Hi Hh) as (w1 & Hd1 & Hi1). congruence.
  - destruct (up_write_ok w h rs t Hi Hh) as (w1 & Hd1 & Hi1). congruence.
  - destruct (downgrade_ok w h rs t Hi Hh) as (w1 & Hd1 & Hi1). congruence.
  - destruct Hi as (Hc & Hl & Hq). split; [|done]. destruct Hc as [Hn Hls Hwt Hk Hr]. split; simpl in *; try done.
    intros t' Ht' Hnone. table; [done|]. by apply Hk.
Qed.

(** * The property *)

(** C11: In every state the callers can reach by any interleaving, a writer excludes every other
    owner and activity is -1; otherwise activity is the number of readers, woken waiters included.
    Somebody waits only while the semaphore is held, and readers only behind a writer that holds it
    or waits before them.  The releases find their waiters, a woken task is never left asleep, and
    every task that does not wait has its reference count back. *)
Theorem rwsem_correct ts rs tr w h :
  run rw_step (rw_init ts rs) tr (w, h) ->
  (exists R W, holders (owner w h) ReadHeld R /\ holders (owner w h) WriteHeld W /\
     activity_ok w.(rwsem).(activity) R W) /\
  (forall t t', owner w h t = WriteHeld -> owner w h t' <> NotHeld -> t' = t) /\
  (w.(rwsem).(activity) = 0 -> forall t, w.(waiting) t <> None -> (w.(rw_waiters) t).(rw_task) <> None -> False) /\
  (forall t l, w.(rwsem).(rw_wait_list) = t :: l -> (w.(rw_waiters) t).(flags) = RWSEM_WAITING_FOR_READ ->
     w.(rwsem).(activity) = -1) /\
  (forall t, (h t = ReadHeld -> is_Some (__up_read w)) /\
     (h t = WriteHeld -> is_Some (__up_write w) /\ is_Some (__downgrade_write w))) /\
  (forall t, w.(waiting) t = Some InSchedule -> (w.(rw_waiters) t).(rw_task) = None -> runnable (w.(rw_tasks) t)) /\
  (forall t, w.(waiting) t = None -> w.(refs) t = rs t) /\
  (rwsem_is_locked false w.(rwsem) = 0 <-> forall t, owner w h t = NotHeld).
Proof.
  intros Hr. pose proof (run_invariant rw_step (rw_inv rs) (rw_step_ok rs) _ _ _ Hr (rw_inv_init ts rs)) as Hi.
  pose proof Hi as (Hc & Hl & Hq). simpl in *. destruct Hl as (R & W & HR & HW & Ha).
  split_and!.
  - by exists R, W.
  - intros t t' Ht Ht'. apply HW in Ht. destruct Ha as [[-> _]|(-> & HL & _)]; [by apply elem_of_nil in Ht|].
    destruct W as [|t1 [|]]; try done. apply list_elem_of_singleton in Ht as ->.
    destruct (owner w h t') eqn:E; [done|apply HR in E; by apply elem_of_nil in E|].
    apply HW in E. by apply list_elem_of_singleton in E.
  - intros H0 t Hw Ht. assert (t ∈ w.(rwsem).(rw_wait_list)) as Hin by by apply (c_listed _ _ _ Hc).
    unfold queue_ok in Hq. destruct (rw_wait_list (rwsem w)); [by apply elem_of_nil in Hin|]. by destruct Hq.
  - intros t l El Hf. unfold queue_ok in Hq. rewrite El, Hf in Hq. destruct Hq as [H0 H1].
    destruct Ha as [[_ Ha]|(_ & _ & Ha)]; [|done]. specialize (H1 ltac:(lia)). done.
  - intros t. split; [|split].
    + intros Hh. destruct (up_read_ok w h rs t Hi Hh) as (w' & -> & _). done.
    + destruct (up_write_ok w h rs t Hi H) as (w' & -> & _). done.
    + destruct (downgrade_ok w h rs t Hi H) as (w' & -> & _). done.
  - apply (c_woken _ _ _ Hc).
  - intros t Hw. rewrite (c_refs _ _ _ Hc), bool_decide_eq_false_2; [lia|]. rewrite (c_listed _ _ _ Hc). tauto.
  - unfold rwsem_is_locked. destruct (activity (rwsem w) =? 0) eqn:E; zbool.
    + split; [intros _ t|done]. destruct Ha as [[-> Ha]|(_ & _ & ?)]; [|lia]. destruct R; [|simpl in *; lia].
      destruct (owner w h t) eqn:Eo; [done|apply HR in Eo|apply HW in Eo]; by apply elem_of_nil in Eo.
    + split; [done|]. intros Ho. exfalso. apply E. destruct Ha as [[-> Ha]|(_ & HL & _)].
      * destruct R as [|t R]; [done|]. assert (owner w h t = ReadHeld) by (apply HR; left). by rewrite Ho in *.
      * destruct W as [|t W]; [done|]. assert (owner w h t = WriteHeld) by (apply HW; left). by rewrite Ho in *.
Qed.

(** A writer holds the semaphore, a reader and a writer wait; the release hands it to the reader. *)
Definition sample0 : rw_world := (rw_init (fun _ => Task TASK_RUNNING false false) (fun _ => 1)).1.
Definition sample1 : rw_world := (__down_write 1 sample0).2.
Definition sample2 : rw_world := (__down_read 2 sample1).2.
Definition sample3 : rw_world := (__down_write 3 sample2).2.
Definition sample4 : rw_world := default sample3 (__up_write sample3).

Lemma pair_second {A B} (x : A * B) a : x.1 = a -> x = (a, x.2).
Proof. by destruct x; intros <-. Qed.

Lemma default_some {A} (x : option A) d : is_Some x -> x = Some (default d x).
Proof. by intros [y ->]. Qed.

Lemma sample_run :
  run rw_step (rw_init (fun _ => Task TASK_RUNNING false false) (fun _ => 1)) [(); (); (); ()]
    (sample4, <[1%nat := NotHeld]> (<[1%nat := WriteHeld]> (fun _ => NotHeld))).
Proof.
  eapply run_cons.
  { apply (rw_write sample0 _ 1 true sample1); [done..|]. by apply pair_second. }
  eapply run_cons.
  { apply (rw_read sample1 _ 2 false sample2); [done..|]. by apply pair_second. }
  eapply run_cons.
  { apply (rw_write sample2 _ 3 false sample3); [done..|]. by apply pair_second. }
  eapply run_cons; [|apply run_nil].
  apply (rw_up_write sample3 _ 1 sample4); [done|]. apply default_some. vm_compute. eauto.
Qed.

Lemma rwsem_correct_witness :
  (rwsem sample4).(rw_wait_list) = [3%nat] /\ (rwsem sample4).(activity) = 1 /\ refs sample4 1 = 1.
Proof.
  split; [reflexivity|]. split; [reflexivity|].
  apply (rwsem_correct _ _ _ _ _ sample_run). reflexivity.
Defined.
