(* ===== verification/Rbtree.v ===== *)
(** Red-black trees: lib/rbtree.c and include/linux/rbtree.h.

    The nodes are cells of a heap and a pointer is their address, 0 for NULL; following a pointer
    to no node is [None].  The parent and the colour share one word, as in struct rb_node.  The
    branches of the source that mirror each other are one definition with the side as an
    argument. *)

From S2P Require Import Prelude.
From stdpp Require Import gmap.
From Stdlib Require Import Lia.
Open Scope Z_scope.

(** * Nodes and roots *)

Record rb_node : Type := RbNode {
  rb_parent_color : Z;
  rb_right : Z;
  rb_left : Z
}.

(** The nodes in memory and the root of the tree at hand. *)
Record world : Type := World {
  nodes : gmap Z rb_node;
  rb_root : Z
}.

(** * Programs over the nodes *)

Definition M (A : Type) : Type := world -> option (A * world).

#[global] Instance M_ret : MRet M := fun A x w => Some (x, w).
#[global] Instance M_bind : MBind M := fun A B f e w =>
  match e w with Some (x, w) => f x w | None => None end.

Definition load (p : Z) : M rb_node := fun w => n ← nodes w !! p; Some (n, w).

Definition store (p : Z) (f : rb_node -> rb_node) : M unit := fun w =>
  n ← nodes w !! p; Some (tt, World (<[p := f n]> (nodes w)) (rb_root w)).

Definition get_root : M Z := fun w => Some (rb_root w, w).

Definition set_root (p : Z) : M unit := fun w => Some (tt, World (nodes w) p).

Fixpoint iter {S R} (fuel : nat) (turn : S -> M (ctl S R)) (s : S) : M R :=
  match fuel with
  | O => fun _ => None
  | Datatypes.S fuel =>
      c ← turn s;
      match c with Next s => iter fuel turn s | Ret r => mret r end
  end.

(** A loop that visits no node twice. *)
Definition walk {S R} (turn : S -> M (ctl S R)) (s : S) : M R := fun w =>
  iter (Datatypes.S (Datatypes.S (size (nodes w)))) turn s w.

(** * Fields *)

Inductive side : Type := L | R.

#[global] Instance side_eq_dec : EqDecision side.
Proof. solve_decision. Defined.

Definition opp (d : side) : side := match d with L => R | R => L end.

Definition get_child (d : side) (n : rb_node) : Z := match d with L => rb_left n | R => rb_right n end.

Definition put_child (d : side) (v : Z) (n : rb_node) : rb_node :=
  match d with
  | L => RbNode (rb_parent_color n) (rb_right n) v
  | R => RbNode (rb_parent_color n) v (rb_left n)
  end.

Definition put_pc (v : Z) (n : rb_node) : rb_node := RbNode v (rb_right n) (rb_left n).

Definition child (d : side) (p : Z) : M Z := n ← load p; mret (get_child d n).

Definition set_child (d : side) (p v : Z) : M unit := store p (put_child d v).

Definition RB_RED : Z := 0.
Definition RB_BLACK : Z := 1.

Definition rb_parent (r : Z) : M Z := n ← load r; mret (Z.land (rb_parent_color n) (ul_not 3)).
Definition rb_color (r : Z) : M Z := n ← load r; mret (Z.land (rb_parent_color n) 1).
Definition rb_is_red (r : Z) : M bool := c ← rb_color r; mret (c =? 0).
Definition rb_is_black (r : Z) : M bool := c ← rb_color r; mret (negb (c =? 0)).

Definition rb_set_red (r : Z) : M unit :=
  store r (fun n => put_pc (Z.land (rb_parent_color n) (ul_not 1)) n).
Definition rb_set_black (r : Z) : M unit :=
  store r (fun n => put_pc (Z.lor (rb_parent_color n) 1) n).
Definition rb_set_parent (rb p : Z) : M unit :=
  store rb (fun n => put_pc (Z.lor (Z.land (rb_parent_color n) 3) p) n).
Definition rb_set_color (rb color : Z) : M unit :=
  store rb (fun n => put_pc (Z.lor (Z.land (rb_parent_color n) (ul_not 1)) color) n).

(** Where a new node is linked: &root->rb_node, &parent->rb_left or &parent->rb_right. *)
Inductive link : Type := RootLink | ChildLink (d : side) (p : Z).

Definition get_link (l : link) : M Z :=
  match l with RootLink => get_root | ChildLink d p => child d p end.

Definition set_link (l : link) (v : Z) : M unit :=
  match l with RootLink => set_root v | ChildLink d p => set_child d p v end.

Definition rb_link_node (node parent : Z) (rb_link : link) : M unit :=
  _ ← store node (put_pc parent);
  _ ← set_child R node 0;
  _ ← set_child L node 0;
  set_link rb_link node.

Definition RB_EMPTY_ROOT : M bool := r ← get_root; mret (r =? 0).
Definition RB_EMPTY_NODE (node : Z) : M bool := p ← rb_parent node; mret (p =? node).
Definition RB_CLEAR_NODE (node : Z) : M unit := rb_set_parent node node.

(** * Rotations *)

(** [if (parent) { if (old == parent->d) parent->d = new; else parent->opp = new; } else
    root->rb_node = new;] *)
Definition relink (d : side) (parent old new : Z) : M unit :=
  if negb (parent =? 0) then
    c ← child d parent;
    if old =? c then set_child d parent new else set_child (opp d) parent new
  else set_root new.

Definition rotate (d : side) (node : Z) : M unit :=
  right ← child (opp d) node;
  parent ← rb_parent node;
  c ← child d right;
  _ ← set_child (opp d) node c;
  _ ← (if negb (c =? 0) then c ← child d right; rb_set_parent c node else mret tt);
  _ ← set_child d right node;
  _ ← rb_set_parent right parent;
  _ ← relink d parent node right;
  rb_set_parent node right.

Definition __rb_rotate_left : Z -> M unit := rotate L.
Definition __rb_rotate_right : Z -> M unit := rotate R.

(** * Insertion *)

(** [d] is the side of the parent under the grandparent. *)
Definition insert_fix (d : side) (node parent gparent : Z) : M (ctl Z unit) :=
  uncle ← child (opp d) gparent;
  red ← (if negb (uncle =? 0) then rb_is_red uncle else mret false);
  if (red : bool) then
    _ ← rb_set_black uncle;
    _ ← rb_set_black parent;
    _ ← rb_set_red gparent;
    mret (Next gparent)
  else
    c ← child (opp d) parent;
    '(parent, node) ← (if c =? node then _ ← rotate d parent; mret (node, parent)
                       else mret (parent, node));
    _ ← rb_set_black parent;
    _ ← rb_set_red gparent;
    _ ← rotate (opp d) gparent;
    mret (Next node).

Definition insert_turn (node : Z) : M (ctl Z unit) :=
  parent ← rb_parent node;
  red ← (if negb (parent =? 0) then rb_is_red parent else mret false);
  if negb red then mret (Ret tt)
  else
    gparent ← rb_parent parent;
    l ← child L gparent;
    insert_fix (if parent =? l then L else R) node parent gparent.

Definition rb_insert_color (node : Z) : M unit :=
  _ ← walk insert_turn node;
  r ← get_root;
  rb_set_black r.

(** * Removal *)

(** [!p || rb_is_black(p)] *)
Definition null_or_black (p : Z) : M bool := if p =? 0 then mret true else rb_is_black p.

(** The loop goes on with a node and its parent, or is left with a node.  [d] is the side of the
    node under its parent; the other child of [other] is red here. *)
Definition erase_last (d : side) (parent other : Z) : M (ctl (Z * Z) Z) :=
  c ← rb_color parent;
  _ ← rb_set_color other c;
  _ ← rb_set_black parent;
  far ← child (opp d) other;
  _ ← rb_set_black far;
  _ ← rotate d parent;
  r ← get_root;
  mret (Ret r).

(** [other], the sibling, is black here. *)
Definition erase_black (d : side) (parent other : Z) : M (ctl (Z * Z) Z) :=
  near ← child d other;
  far ← child (opp d) other;
  nearb ← null_or_black near;
  farb ← (if (nearb : bool) then null_or_black far else mret false);
  if (farb : bool) then
    _ ← rb_set_red other;
    p ← rb_parent parent;
    mret (Next (parent, p))
  else
    farb ← null_or_black far;
    other ← (if (farb : bool) then
               near ← child d other;
               _ ← rb_set_black near;
               _ ← rb_set_red other;
               _ ← rotate (opp d) other;
               child (opp d) parent
             else mret other);
    erase_last d parent other.

Definition erase_fix (d : side) (parent : Z) : M (ctl (Z * Z) Z) :=
  other ← child (opp d) parent;
  red ← rb_is_red other;
  other ← (if (red : bool) then
             _ ← rb_set_black other;
             _ ← rb_set_red parent;
             _ ← rotate d parent;
             child (opp d) parent
           else mret other);
  erase_black d parent other.

Definition erase_turn (s : Z * Z) : M (ctl (Z * Z) Z) :=
  let '(node, parent) := s in
  b ← null_or_black node;
  r ← get_root;
  if (b : bool) && negb (node =? r) then
    l ← child L parent;
    erase_fix (if l =? node then L else R) parent
  else mret (Ret node).

Definition __rb_erase_color (node parent : Z) : M unit :=
  node ← walk erase_turn (node, parent);
  if negb (node =? 0) then rb_set_black node else mret tt.

(** The end of the chain of [d] children from [n]. *)
Definition descend (d : side) (n : Z) : M Z :=
  walk (fun n => c ← child d n; mret (if negb (c =? 0) then Next c else Ret n)) n.

(** The node leaves its place under [parent] to its child and gets the right child of [old]. *)
Definition splice (old node parent ch : Z) : M unit :=
  _ ← (if negb (ch =? 0) then rb_set_parent ch parent else mret tt);
  _ ← set_child L parent ch;
  r ← child R old;
  _ ← set_child R node r;
  r ← child R old;
  rb_set_parent r node.

(** The node gets the parent, the colour and the left child of [old]. *)
Definition take_over (old node : Z) : M unit :=
  n ← load old;
  _ ← store node (put_pc (rb_parent_color n));
  l ← child L old;
  _ ← set_child L node l;
  l ← child L old;
  rb_set_parent l node.

(** The rest of rb_erase for a node with two children, up to the label: the node after it takes
    its place.  The result is child, parent and color. *)
Definition erase_two (old : Z) : M (Z * Z * Z) :=
  node ← child R old;
  node ← descend L node;
  oldp ← rb_parent old;
  _ ← relink L oldp old node;
  ch ← child R node;
  parent ← rb_parent node;
  color ← rb_color node;
  parent ← (if parent =? old then mret node
            else _ ← splice old node parent ch; mret parent);
  _ ← take_over old node;
  mret (ch, parent, color).

(** The same for a node with at most one child. *)
Definition erase_one (node ch : Z) : M (Z * Z * Z) :=
  parent ← rb_parent node;
  color ← rb_color node;
  _ ← (if negb (ch =? 0) then rb_set_parent ch parent else mret tt);
  _ ← relink L parent node ch;
  mret (ch, parent, color).

Definition rb_erase (node : Z) : M unit :=
  l ← child L node;
  r ← child R node;
  '(ch, parent, color) ←
    (if l =? 0 then erase_one node r
     else if r =? 0 then erase_one node l
     else erase_two node);
  if color =? RB_BLACK then __rb_erase_color ch parent else mret tt.

(** * Walking the tree in order *)

Definition end_of (d : side) : M Z :=
  n ← get_root;
  if n =? 0 then mret 0 else descend d n.

Definition rb_first : M Z := end_of L.
Definition rb_last : M Z := end_of R.

(** The next node on the side [d]: [R] for rb_next, [L] for rb_prev. *)
Definition neighbour (d : side) (node : Z) : M Z :=
  p ← rb_parent node;
  if p =? node then mret 0
  else
    c ← child d node;
    if negb (c =? 0) then descend (opp d) c
    else
      walk (fun node =>
        parent ← rb_parent node;
        if parent =? 0 then mret (Ret parent)
        else
          c ← child d parent;
          mret (if node =? c then Next parent else Ret parent)) node.

Definition rb_next : Z -> M Z := neighbour R.
Definition rb_prev : Z -> M Z := neighbour L.

Definition rb_replace_node (victim new : Z) : M unit :=
  parent ← rb_parent victim;
  _ ← relink L parent victim new;
  l ← child L victim;
  _ ← (if negb (l =? 0) then rb_set_parent l new else mret tt);
  r ← child R victim;
  _ ← (if negb (r =? 0) then rb_set_parent r new else mret tt);
  n ← load victim;
  store new (fun _ => n).

(** * Augmented trees

    The callback works on the data that the caller keeps beside the nodes. *)

Section augment.
Context {D : Type} (func : Z -> D -> D).

Definition augment_turn (st : Z * D) : M (ctl (Z * D) D) :=
  let '(node, data) := st in
  let data := func node data in
  parent ← rb_parent node;
  if parent =? 0 then mret (Ret data)
  else
    l ← child L parent;
    r ← child R parent;
    let data := if (node =? l) && negb (r =? 0) then func r data
                else if negb (l =? 0) then func l data else data in
    mret (Next (parent, data)).

Definition rb_augment_path (node : Z) (data : D) : M D := walk augment_turn (node, data).

Definition rb_augment_insert (node : Z) (data : D) : M D :=
  l ← child L node;
  r ← child R node;
  rb_augment_path (if negb (l =? 0) then l else if negb (r =? 0) then r else node) data.

Definition rb_augment_erase_end (node : Z) (data : D) : M D :=
  if negb (node =? 0) then rb_augment_path node data else mret data.
End augment.

Definition rb_augment_erase_begin (node : Z) : M Z :=
  r ← child R node;
  l ← child L node;
  if (r =? 0) && (l =? 0) then rb_parent node
  else if r =? 0 then child L node
  else if l =? 0 then child R node
  else
    deepest ← rb_next node;
    dr ← child R deepest;
    if negb (dr =? 0) then child R deepest
    else
      p ← rb_parent deepest;
      if negb (p =? node) then rb_parent deepest else mret deepest.
