(* ===== verification/RbtreeRep.v ===== *)
(** The trees that the nodes of [Rbtree] represent, seen from any position in them, and the
    rotations and recolourings as operations on trees. *)

From S2P Require Import Prelude.
From stdpp Require Import gmap.
From Stdlib Require Import Lia.
From S2P Require Import Rbtree.
Open Scope Z_scope.

(** * Trees and positions *)

Inductive color : Type := Red | Black.

Inductive tree : Type :=
| Leaf
| Node (c : color) (l : tree) (x : Z) (r : tree).

(** The tree whose child on the side [d] is [a]. *)
Definition mk (d : side) (c : color) (a : tree) (x : Z) (b : tree) : tree :=
  match d with L => Node c a x b | R => Node c b x a end.

Definition ptr (t : tree) : Z := match t with Leaf => 0 | Node _ _ x _ => x end.

(** A step down to the side [d], past the node [x] and its other subtree. *)
Record frame : Type := Frame { fside : side; fcolor : color; faddr : Z; fsib : tree }.

Definition plug (f : frame) (t : tree) : tree := mk (fside f) (fcolor f) t (faddr f) (fsib f).

Definition plug_all (ctx : list frame) (t : tree) : tree := fold_left (fun t f => plug f t) ctx t.

Definition up (ctx : list frame) : Z := match ctx with [] => 0 | f :: _ => faddr f end.

Fixpoint inorder (t : tree) : list Z :=
  match t with Leaf => [] | Node _ l x r => inorder l ++ x :: inorder r end.

(** The nodes before and after a position. *)
Fixpoint before (ctx : list frame) : list Z :=
  match ctx with
  | [] => []
  | Frame L _ _ _ :: ctx => before ctx
  | Frame R _ x sib :: ctx => before ctx ++ inorder sib ++ [x]
  end.

Fixpoint after (ctx : list frame) : list Z :=
  match ctx with
  | [] => []
  | Frame L _ x sib :: ctx => x :: inorder sib ++ after ctx
  | Frame R _ _ _ :: ctx => after ctx
  end.

Definition around (ctx : list frame) (t : tree) : list Z := before ctx ++ inorder t ++ after ctx.

Lemma around_plug f ctx t : around (f :: ctx) t = around ctx (plug f t).
Proof.
  destruct f as [[] c x sib]; unfold around, plug; simpl; rewrite <- ?app_assoc; simpl; by rewrite <- ?app_assoc.
Qed.

Lemma around_plug_all ctx t : around ctx t = inorder (plug_all ctx t).
Proof.
  revert t. induction ctx as [|f ctx IH]; intros t; [unfold around; simpl; by rewrite app_nil_r|].
  rewrite around_plug. apply IH.
Qed.

(** * The parent and colour word *)

Definition bit (c : color) : Z := match c with Red => RB_RED | Black => RB_BLACK end.

Definition pack (p : Z) (c : color) : Z := Z.lor p (bit c).

(** Addresses of nodes are not NULL and are aligned, those of parents may be NULL. *)
Definition word (p : Z) : Prop := 0 <= p < 4294967296 /\ p mod 4 = 0.

Definition addr (p : Z) : Prop := 0 < p /\ word p.

Lemma word_low p i : word p -> 0 <= i < 2 -> Z.testbit p i = false.
Proof.
  intros [Hp Hm] Hi. rewrite <- (Z.mod_pow2_bits_low p 2) by lia. change (2 ^ 2) with 4. rewrite Hm. apply Z.bits_0.
Qed.

Lemma bit_spec c i : 0 <= i -> Z.testbit (bit c) i = match c with Red => false | Black => i =? 0 end.
Proof.
  intros Hi. destruct c; simpl; [apply Z.bits_0|]. change RB_BLACK with (2 ^ 0). rewrite Z.pow2_bits_eqb by lia. apply Z.eqb_sym.
Qed.

(** The masks of the macros, bit by bit. *)
Lemma mask3_spec i : 0 <= i -> Z.testbit 3 i = (i <? 2).
Proof.
  intros Hi. change 3 with (Z.ones 2). destruct (i <? 2) eqn:E; zbool; [apply Z.ones_spec_low|apply Z.ones_spec_high]; lia.
Qed.

Lemma not3_spec i : 0 <= i -> Z.testbit (ul_not 3) i = (2 <=? i) && (i <? 32).
Proof.
  intros Hi. rewrite ul_not_spec, mask3_spec by (done || unfold is_u32; lia).
  destruct (i <? 2) eqn:E, (2 <=? i) eqn:E2; zbool; try lia; case_bool_decide; simpl; try done.
  all: symmetry; first [apply Z.ltb_lt; lia|apply Z.ltb_ge; lia].
Qed.

Lemma one_spec i : 0 <= i -> Z.testbit 1 i = (i =? 0).
Proof. intros Hi. change 1 with (2 ^ 0). rewrite Z.pow2_bits_eqb by lia. apply Z.eqb_sym. Qed.

Lemma not1_spec i : 0 <= i -> Z.testbit (ul_not 1) i = (1 <=? i) && (i <? 32).
Proof.
  intros Hi. rewrite ul_not_spec, one_spec by (done || unfold is_u32; lia).
  destruct (i =? 0) eqn:E, (1 <=? i) eqn:E2; zbool; try lia; case_bool_decide; simpl; try done.
  all: symmetry; first [apply Z.ltb_lt; lia|apply Z.ltb_ge; lia].
Qed.

Lemma word_high p i : word p -> 32 <= i -> Z.testbit p i = false.
Proof. intros [Hp _] Hi. by apply is_u32_bits. Qed.

Ltac pack_bits :=
  apply Z.bits_inj'; intros; unfold pack;
  rewrite ?Z.lor_spec, ?Z.land_spec, ?Z.lor_spec, ?bit_spec, ?mask3_spec, ?not3_spec, ?not1_spec, ?one_spec by done;
  repeat match goal with
  | |- context [?a <? ?b] => destruct (a <? b) eqn:?; zbool; try lia
  | |- context [?a <=? ?b] => destruct (a <=? b) eqn:?; zbool; try lia
  | |- context [?a =? ?b] => destruct (a =? b) eqn:?; zbool; try lia
  end; rewrite ?andb_true_r, ?andb_false_r, ?orb_false_r, ?orb_true_r, ?andb_true_l;
  try done; rewrite ?word_low, ?word_high by (done || lia); done.

Lemma pack_parent p c : word p -> Z.land (pack p c) (ul_not 3) = p.
Proof. intros Hp. destruct c; pack_bits. Qed.

Lemma pack_color p c : word p -> Z.land (pack p c) 1 = bit c.
Proof. intros Hp. destruct c; pack_bits. Qed.

Lemma pack_red p c : word p -> Z.land (pack p c) (ul_not 1) = pack p Red.
Proof. intros Hp. destruct c; pack_bits. Qed.

Lemma pack_black p c : word p -> Z.lor (pack p c) 1 = pack p Black.
Proof. intros Hp. destruct c; pack_bits. Qed.

Lemma pack_set_parent p q c : word p -> word q -> Z.lor (Z.land (pack p c) 3) q = pack q c.
Proof. intros Hp Hq. destruct c; pack_bits. Qed.

Lemma pack_set_color p c c' : word p -> Z.lor (Z.land (pack p c) (ul_not 1)) (bit c') = pack p c'.
Proof. intros Hp. rewrite pack_red by done. destruct c'; pack_bits. Qed.

(** * Representation *)

(** A node with the child [a] on the side [d]. *)
Definition mkn (d : side) (pc a b : Z) : rb_node :=
  match d with L => RbNode pc b a | R => RbNode pc a b end.

(** The tree [t] is in memory, under the parent [p]. *)
Fixpoint rep (h : gmap Z rb_node) (p : Z) (t : tree) : Prop :=
  match t with
  | Leaf => True
  | Node c l x r => h !! x = Some (RbNode (pack p c) (ptr r) (ptr l)) /\ rep h x l /\ rep h x r
  end.

(** The path [ctx] leads from the root to [hole]. *)
Fixpoint rep_ctx (h : gmap Z rb_node) (root : Z) (ctx : list frame) (hole : Z) : Prop :=
  match ctx with
  | [] => root = hole
  | Frame d c x sib :: ctx =>
      h !! x = Some (mkn d (pack (up ctx) c) hole (ptr sib)) /\ rep h x sib /\ rep_ctx h root ctx x
  end.

(** The memory holds a tree of the nodes [s], here seen from the position [ctx] of its subtree [t]. *)
Definition at_pos (s : list Z) (w : world) (ctx : list frame) (t : tree) : Prop :=
  rep_ctx (nodes w) (rb_root w) ctx (ptr t) /\ rep (nodes w) (up ctx) t /\ around ctx t = s.

Definition wf (s : list Z) : Prop := NoDup s /\ Forall addr s.

(** Only nodes of [s] have changed. *)
Definition same_out (s : list Z) (w w' : world) : Prop :=
  forall q, q ∉ s -> nodes w' !! q = nodes w !! q.

Lemma rep_mk h p d c a x b :
  rep h p (mk d c a x b) <->
  h !! x = Some (mkn d (pack p c) (ptr a) (ptr b)) /\ rep h x a /\ rep h x b.
Proof. destruct d; simpl; tauto. Qed.

Lemma ptr_mk d c a x b : ptr (mk d c a x b) = x.
Proof. by destruct d. Qed.

Lemma at_plug s w f ctx t : at_pos s w (f :: ctx) t <-> at_pos s w ctx (plug f t).
Proof.
  destruct f as [d c x sib]. unfold at_pos, plug. rewrite around_plug. cbn [rep_ctx up faddr fside fcolor fsib].
  rewrite rep_mk, ptr_mk. tauto.
Qed.

Lemma at_plug_all s w ctx t : at_pos s w ctx t <-> at_pos s w [] (plug_all ctx t).
Proof. revert t. induction ctx as [|f ctx IH]; intros t; [done|]. rewrite at_plug. apply IH. Qed.

Lemma same_out_refl s w : same_out s w w.
Proof. by intros q _. Qed.

Lemma same_out_trans s w1 w2 w3 : same_out s w1 w2 -> same_out s w2 w3 -> same_out s w1 w3.
Proof. intros H1 H2 q Hq. by rewrite H2, H1. Qed.

(** * Frames of memory *)

Lemma rep_frame h h' p t : (forall q, q ∈ inorder t -> h' !! q = h !! q) -> rep h p t -> rep h' p t.
Proof.
  revert p. induction t as [|c l IHl x r IHr]; intros p H; simpl; [done|].
  intros (Hx & Hl & Hr). rewrite H by set_solver. split; [done|]. split; [apply IHl|apply IHr]; set_solver.
Qed.

Lemma rep_ctx_frame h h' root ctx hole :
  (forall q, q ∈ before ctx ++ after ctx -> h' !! q = h !! q) -> rep_ctx h root ctx hole -> rep_ctx h' root ctx hole.
Proof.
  revert hole. induction ctx as [|[d c x sib] ctx IH]; intros hole H; simpl; [done|].
  intros (Hx & Hs & Hc).
  assert (forall q, q = x \/ (q ∈ inorder sib) \/ (q ∈ before ctx ++ after ctx) -> h' !! q = h !! q) as H'
    by (intros q Hq; apply H; destruct d; simpl; set_solver).
  rewrite H' by auto. split; [done|]. split; [eapply rep_frame; [|done]; auto|]. apply IH; auto.
Qed.

(** A new parent for the root of a subtree. *)
Definition set_up (h : gmap Z rb_node) (p : Z) (t : tree) : gmap Z rb_node :=
  match t with Leaf => h | Node c l x r => <[x := RbNode (pack p c) (ptr r) (ptr l)]> h end.

Lemma rep_set_up h p q t : NoDup (inorder t) -> rep h p t -> rep (set_up h q t) q t.
Proof.
  destruct t as [|c l x r]; [done|]. simpl. intros Hnd (Hx & Hl & Hr).
  apply NoDup_app in Hnd as (_ & Hd & Hnd). apply NoDup_cons in Hnd as [Hxr _].
  rewrite lookup_insert_eq. split; [done|].
  split; (eapply rep_frame; [|done]); intros z Hz; apply lookup_insert_ne; [|by intros ->].
  intros ->. apply (Hd z Hz). set_solver.
Qed.

Lemma set_up_ne h p t q : q ∉ inorder t -> set_up h p t !! q = h !! q.
Proof. destruct t; simpl; [done|]. intros. apply lookup_insert_ne. set_solver. Qed.

(** A new pointer at the end of the path. *)
Definition set_hole (w : world) (ctx : list frame) (v : Z) : world :=
  match ctx with
  | [] => World (nodes w) v
  | Frame d c x sib :: ctx => World (<[x := mkn d (pack (up ctx) c) v (ptr sib)]> (nodes w)) (rb_root w)
  end.

Lemma set_hole_ne w ctx v q : q ∉ before ctx ++ after ctx -> nodes (set_hole w ctx v) !! q = nodes w !! q.
Proof.
  destruct ctx as [|[d c x sib] ctx]; simpl; [done|]. intros Hq. apply lookup_insert_ne. intros ->. apply Hq.
  destruct d; simpl; set_solver.
Qed.

Lemma rep_set_hole w ctx old new :
  NoDup (before ctx ++ after ctx) -> rep_ctx (nodes w) (rb_root w) ctx old ->
  rep_ctx (nodes (set_hole w ctx new)) (rb_root (set_hole w ctx new)) ctx new.
Proof.
  destruct ctx as [|[d c x sib] ctx]; simpl; [done|]. intros Hnd (Hx & Hs & Hc). rewrite lookup_insert_eq.
  split; [done|].
  assert ((x ∉ inorder sib) /\ (x ∉ before ctx ++ after ctx)) as [H1 H2].
  { destruct d; simpl in Hnd; rewrite ?NoDup_app, ?NoDup_cons, ?NoDup_app in Hnd; set_solver. }
  split; [eapply rep_frame; [|done]|eapply rep_ctx_frame; [|done]]; intros q Hq; apply lookup_insert_ne; by intros ->.
Qed.

(** * Running programs *)

Lemma bind_run {A B} (e : M A) (f : A -> M B) w x w' : e w = Some (x, w') -> (e ≫= f) w = f x w'.
Proof. intros He. unfold mbind, M_bind. by rewrite He. Qed.

Lemma load_run p w n : nodes w !! p = Some n -> load p w = Some (n, w).
Proof. intros Hn. unfold load. by rewrite Hn. Qed.

Lemma store_run p f w n :
  nodes w !! p = Some n -> store p f w = Some (tt, World (<[p := f n]> (nodes w)) (rb_root w)).
Proof. intros Hn. unfold store. by rewrite Hn. Qed.

Lemma child_run d p w n : nodes w !! p = Some n -> child d p w = Some (get_child d n, w).
Proof. intros Hn. unfold child. by rewrite (bind_run _ _ _ _ _ (load_run _ _ _ Hn)). Qed.

Lemma parent_run p w n q c :
  nodes w !! p = Some n -> rb_parent_color n = pack q c -> word q -> rb_parent p w = Some (q, w).
Proof.
  intros Hn Hpc Hq. unfold rb_parent. rewrite (bind_run _ _ _ _ _ (load_run _ _ _ Hn)), Hpc. by rewrite pack_parent.
Qed.

Lemma color_run p w n q c :
  nodes w !! p = Some n -> rb_parent_color n = pack q c -> word q -> rb_color p w = Some (bit c, w).
Proof.
  intros Hn Hpc Hq. unfold rb_color. rewrite (bind_run _ _ _ _ _ (load_run _ _ _ Hn)), Hpc. by rewrite pack_color.
Qed.

Lemma get_mkn d pc a b : get_child d (mkn d pc a b) = a.
Proof. by destruct d. Qed.
Lemma get_opp_mkn d pc a b : get_child (opp d) (mkn d pc a b) = b.
Proof. by destruct d. Qed.
Lemma put_mkn d pc a b v : put_child d v (mkn d pc a b) = mkn d pc v b.
Proof. by destruct d. Qed.
Lemma put_opp_mkn d pc a b v : put_child (opp d) v (mkn d pc a b) = mkn d pc a v.
Proof. by destruct d. Qed.
Lemma pc_mkn d pc a b : rb_parent_color (mkn d pc a b) = pc.
Proof. by destruct d. Qed.
Lemma put_pc_mkn d pc a b v : put_pc v (mkn d pc a b) = mkn d v a b.
Proof. by destruct d. Qed.

Lemma set_parent_run p w d q c a b q' :
  nodes w !! p = Some (mkn d (pack q c) a b) -> word q -> word q' ->
  rb_set_parent p q' w = Some (tt, World (<[p := mkn d (pack q' c) a b]> (nodes w)) (rb_root w)).
Proof.
  intros Hn Hq Hq'. unfold rb_set_parent. rewrite (store_run _ _ _ _ Hn).
  by rewrite put_pc_mkn, pc_mkn, pack_set_parent.
Qed.

Lemma set_child_run p w d pc a b v :
  nodes w !! p = Some (mkn d pc a b) ->
  set_child d p v w = Some (tt, World (<[p := mkn d pc v b]> (nodes w)) (rb_root w)).
Proof. intros Hn. unfold set_child. by rewrite (store_run _ _ _ _ Hn), put_mkn. Qed.

Lemma set_opp_run p w d pc a b v :
  nodes w !! p = Some (mkn d pc a b) ->
  set_child (opp d) p v w = Some (tt, World (<[p := mkn d pc a v]> (nodes w)) (rb_root w)).
Proof. intros Hn. unfold set_child. by rewrite (store_run _ _ _ _ Hn), put_opp_mkn. Qed.

Lemma iter_mono {S R} (turn : S -> M (ctl S R)) fuel fuel' x w r :
  iter fuel turn x w = Some r -> (fuel <= fuel')%nat -> iter fuel' turn x w = Some r.
Proof.
  revert fuel' x w. induction fuel as [|fuel IH]; intros fuel' x w H Hf; [done|]. destruct fuel' as [|fuel']; [lia|].
  simpl in *. unfold mbind, M_bind in *. destruct (turn x w) as [[[] w']|]; try done. apply IH; [done|lia].
Qed.

(** Loops that only read. *)
Definition readonly {A} (e : M A) : Prop := forall w v w', e w = Some (v, w') -> w' = w.

Lemma readonly_ret {A} (x : A) : readonly (mret x).
Proof. intros w v w' H. by injection H. Qed.

Lemma readonly_bind {A B} (e : M A) (f : A -> M B) : readonly e -> (forall x, readonly (f x)) -> readonly (e ≫= f).
Proof.
  intros He Hf w v w' H. unfold mbind, M_bind in H. destruct (e w) as [[x w1]|] eqn:E; [|done].
  apply He in E as ->. by eapply Hf.
Qed.

Lemma readonly_load p : readonly (load p).
Proof. intros w v w' H. unfold load in H. destruct (nodes w !! p); by simplify_option_eq. Qed.

#[export] Hint Resolve readonly_ret readonly_bind readonly_load : readonly.

Lemma readonly_child d p : readonly (child d p).
Proof. unfold child. auto with readonly. Qed.

Lemma readonly_parent p : readonly (rb_parent p).
Proof. unfold rb_parent. auto with readonly. Qed.

#[export] Hint Resolve readonly_child readonly_parent : readonly.

Lemma readonly_walk {S R} (turn : S -> M (ctl S R)) : (forall x, readonly (turn x)) -> forall x, readonly (walk turn x).
Proof.
  intros Ht x w v w'. unfold walk. generalize (Datatypes.S (Datatypes.S (size (nodes w)))). intros fuel. revert x w v w'.
  induction fuel as [|fuel IH]; intros x w v w'; [done|]. apply readonly_bind; [apply Ht|]. intros [y|y]; [exact (IH y)|apply readonly_ret].
Qed.

Lemma readonly_descend d n : readonly (descend d n).
Proof. apply readonly_walk. auto with readonly. Qed.

(** * Disjointness *)

Lemma elem_of_mk d c a x b q :
  q ∈ inorder (mk d c a x b) <-> q = x \/ (q ∈ inorder a) \/ (q ∈ inorder b).
Proof. destruct d; simpl; set_solver. Qed.

Lemma nodup_mk d c a x b :
  NoDup (inorder (mk d c a x b)) <->
  NoDup (inorder a) /\ NoDup (inorder b) /\ (x ∉ inorder a) /\ (x ∉ inorder b) /\
  forall q, q ∈ inorder a -> q ∉ inorder b.
Proof.
  destruct d; simpl; rewrite NoDup_app, NoDup_cons; split; intros H; decompose [and] H; split_and!; try done; set_solver.
Qed.

(** The nodes of a path. *)
Definition ctx_nodes (ctx : list frame) : list Z := before ctx ++ after ctx.

Lemma elem_of_around ctx t q : q ∈ around ctx t <-> (q ∈ inorder t) \/ (q ∈ ctx_nodes ctx).
Proof. unfold around, ctx_nodes. set_solver. Qed.

Lemma nodup_around ctx t :
  NoDup (around ctx t) <->
  NoDup (ctx_nodes ctx) /\ NoDup (inorder t) /\ forall q, q ∈ inorder t -> q ∉ ctx_nodes ctx.
Proof.
  unfold around, ctx_nodes.
  assert (before ctx ++ inorder t ++ after ctx ≡ₚ inorder t ++ (before ctx ++ after ctx)) as -> by solve_Permutation.
  rewrite NoDup_app. tauto.
Qed.

Lemma elem_of_frame d c x sib ctx q :
  q ∈ ctx_nodes (Frame d c x sib :: ctx) <-> q = x \/ (q ∈ inorder sib) \/ (q ∈ ctx_nodes ctx).
Proof. unfold ctx_nodes. destruct d; simpl; set_solver. Qed.

Lemma ptr_in t : ptr t = 0 \/ (ptr t ∈ inorder t).
Proof. destruct t; [by left|]. right. simpl. set_solver. Qed.

(** A tree seen from one of its nodes. *)
Lemma plug_all_app ctx ctx' t : plug_all (ctx ++ ctx') t = plug_all ctx' (plug_all ctx t).
Proof. apply fold_left_app. Qed.

Lemma locate t q : q ∈ inorder t -> exists ctx c l r, t = plug_all ctx (Node c l q r).
Proof.
  induction t as [|c l IHl x r IHr]; simpl; [set_solver|]. rewrite elem_of_app, elem_of_cons. intros [H|[->|H]].
  - destruct (IHl H) as (ctx & c' & l' & r' & ->). exists (ctx ++ [Frame L c x r]), c', l', r'. by rewrite plug_all_app.
  - by exists [], c, l, r.
  - destruct (IHr H) as (ctx & c' & l' & r' & ->). exists (ctx ++ [Frame R c x l]), c', l', r'. by rewrite plug_all_app.
Qed.

Lemma length_ctx ctx : (length ctx <= length (ctx_nodes ctx))%nat.
Proof.
  unfold ctx_nodes. induction ctx as [|[[] c x sib] ctx IH]; simpl; [lia| |]; rewrite ?length_app in *; simpl; rewrite ?length_app; simpl; lia.
Qed.

Lemma rep_dom h p t q : rep h p t -> q ∈ inorder t -> q ∈ dom h.
Proof.
  revert p. induction t as [|c l IHl x r IHr]; intros p; simpl; [set_solver|]. intros (Hx & Hl & Hr).
  rewrite elem_of_app, elem_of_cons. intros [H|[->|H]]; [by eapply IHl|by eapply elem_of_dom_2|by eapply IHr].
Qed.

Lemma relink_run d w ctx old new :
  rep_ctx (nodes w) (rb_root w) ctx old -> (forall q, q ∈ ctx_nodes ctx -> addr q) ->
  (old ∉ ctx_nodes ctx) -> old <> 0 -> relink d (up ctx) old new w = Some (tt, set_hole w ctx new).
Proof.
  intros Hc Ha Hno H0. unfold relink. destruct ctx as [|[d' c x sib] ctx]; [done|].
  cbn [up faddr rep_ctx] in *. destruct Hc as (Hx & _ & _).
  destruct (Ha x) as [Hx0 _]; [rewrite elem_of_frame; auto|]. rewrite (proj2 (Z.eqb_neq x 0)) by lia. cbn [negb].
  rewrite (bind_run _ _ _ _ _ (child_run d x w _ Hx)). destruct (decide (d = d')) as [->|Hne].
  - rewrite get_mkn, Z.eqb_refl. by rewrite (set_child_run _ _ _ _ _ _ _ Hx).
  - assert (d = opp d') as -> by (by destruct d, d'). rewrite get_opp_mkn.
    rewrite (proj2 (Z.eqb_neq old _)); [|intros ->; destruct (ptr_in sib); [done|];
      apply Hno; rewrite elem_of_frame; auto].
    replace (opp (opp d')) with d' by (by destruct d'). by rewrite (set_child_run _ _ _ _ _ _ _ Hx).
Qed.

(** Updating the parent of a subtree, if there is one. *)
Lemma set_up_run w p q t :
  rep (nodes w) p t -> word p -> word q -> (forall x, x ∈ inorder t -> addr x) ->
  (if negb (ptr t =? 0) then rb_set_parent (ptr t) q else mret tt) w =
  Some (tt, World (set_up (nodes w) q t) (rb_root w)).
Proof.
  intros Hr Hp Hq Ha. destruct t as [|c l x r]; [by destruct w|]. simpl in Hr. destruct Hr as (Hx & _ & _).
  destruct (Ha x) as [Hx0 _]; [simpl; set_solver|]. cbn [ptr]. rewrite (proj2 (Z.eqb_neq x 0)) by lia. cbn [negb].
  apply (set_parent_run x w L p c (ptr l) (ptr r) q Hx Hp Hq).
Qed.

Section wf.
Context (s : list Z) (Hs : wf s).

Lemma wf_addr q : q ∈ s -> addr q.
Proof. intros Hq. destruct Hs as [_ Ha]. rewrite Forall_forall in Ha. by apply Ha. Qed.

Lemma wf_word q : q ∈ s -> word q.
Proof. intros Hq. by apply wf_addr in Hq as [_ ?]. Qed.

Lemma word_0 : word 0.
Proof. split; [lia|done]. Qed.

Lemma wf_up w ctx t : at_pos s w ctx t -> word (up ctx).
Proof.
  intros (_ & _ & Hr). destruct ctx as [|[d c x sib] ctx]; [apply word_0|]. simpl. apply wf_word.
  rewrite <- Hr, elem_of_around, elem_of_frame. auto.
Qed.

Lemma at_disjoint w ctx t :
  at_pos s w ctx t ->
  NoDup (ctx_nodes ctx) /\ NoDup (inorder t) /\ (forall q, q ∈ inorder t -> q ∉ ctx_nodes ctx) /\
  (forall q, q ∈ inorder t -> addr q) /\ (forall q, q ∈ ctx_nodes ctx -> addr q).
Proof.
  intros (_ & _ & Hr). destruct Hs as [Hnd _]. rewrite <- Hr, nodup_around in Hnd. destruct Hnd as (H1 & H2 & H3).
  split_and!; try done; intros q Hq; apply wf_addr; rewrite <- Hr, elem_of_around; auto.
Qed.

Lemma at_size w ctx t : at_pos s w ctx t -> (length s <= size (nodes w))%nat.
Proof.
  intros Hat. rewrite at_plug_all in Hat. destruct Hat as (_ & Hr & Har), Hs as [Hnd _].
  rewrite <- (size_list_to_set (C := gset Z) s Hnd), <- size_dom. apply subseteq_size.
  intros q Hq%elem_of_list_to_set. rewrite <- Har in Hq. unfold around in Hq. simpl in Hq. rewrite app_nil_r in Hq. by eapply rep_dom.
Qed.

Lemma at_length w ctx t : at_pos s w ctx t -> (length ctx <= length s)%nat.
Proof.
  intros (_ & _ & <-). pose proof (length_ctx ctx) as H. unfold ctx_nodes, around in *. rewrite !length_app in *. lia.
Qed.

(** What a rotation leaves in memory. *)
Definition rotated (d : side) (w : world) ctx c1 a x c2 b y c : world :=
  let h := <[y := mkn d (pack (up ctx) c2) x (ptr c)]>
             (set_up (<[x := mkn d (pack (up ctx) c1) (ptr a) (ptr b)]> (nodes w)) x b) in
  let w := set_hole (World h (rb_root w)) ctx y in
  World (<[x := mkn d (pack y c1) (ptr a) (ptr b)]> (nodes w)) (rb_root w).

(** The nodes at hand are distinct and not NULL. *)
Lemma rotate_disjoint d w ctx c1 a x c2 b y c :
  at_pos s w ctx (mk d c1 a x (mk d c2 b y c)) ->
  NoDup (ctx_nodes ctx) /\ NoDup (inorder b) /\ x <> y /\ addr x /\ addr y /\
  (x ∉ inorder a) /\ (y ∉ inorder a) /\ (x ∉ inorder b) /\ (y ∉ inorder b) /\
  (x ∉ inorder c) /\ (y ∉ inorder c) /\
  (forall q, q ∈ inorder b -> (q ∉ inorder a) /\ (q ∉ inorder c) /\ addr q) /\
  (forall q, q = x \/ q = y \/ (q ∈ inorder a) \/ (q ∈ inorder b) \/ (q ∈ inorder c) -> q ∉ ctx_nodes ctx) /\
  (forall q, q ∈ ctx_nodes ctx -> addr q).
Proof.
  intros (Hndc & Hnd & Hdis & Hat & Hac)%at_disjoint. setoid_rewrite elem_of_mk in Hdis. setoid_rewrite elem_of_mk in Hdis.
  setoid_rewrite elem_of_mk in Hat. setoid_rewrite elem_of_mk in Hat. rewrite nodup_mk, nodup_mk in Hnd.
  setoid_rewrite elem_of_mk in Hnd. destruct Hnd as (Hna & (Hnb & Hnc & Hyb & Hyc & Hbc) & Hxa & Hxyr & Hayr).
  split_and!; try done; try tauto; try (apply Hat; tauto); [| |intros q Hq; apply Hdis; tauto].
  - intros Hy. apply (Hayr y Hy). tauto.
  - intros q Hq. split_and!; [intros Ha; apply (Hayr q Ha); tauto|by apply Hbc|apply Hat; tauto].
Qed.

Lemma rotate_run d w ctx c1 a x c2 b y c :
  at_pos s w ctx (mk d c1 a x (mk d c2 b y c)) -> rotate d x w = Some (tt, rotated d w ctx c1 a x c2 b y c).
Proof.
  intros Hat. pose proof (wf_up _ _ _ Hat) as HP.
  pose proof (rotate_disjoint _ _ _ _ _ _ _ _ _ _ Hat) as
    (_ & _ & Hxy & [Hx0 HxW] & [Hy0 HyW] & _ & _ & Hxb & Hyb & _ & _ & Hb' & Hdis & Hac).
  destruct Hat as (Hctx & Hrep & _). rewrite ptr_mk in Hctx. rewrite rep_mk, rep_mk, ptr_mk in Hrep.
  destruct Hrep as (Hx & _ & Hy & Hb & _).
  unfold rotate. rewrite (bind_run _ _ _ _ _ (child_run (opp d) x w _ Hx)), get_opp_mkn.
  erewrite bind_run; [|eapply parent_run; [exact Hx|apply pc_mkn|done]].
  rewrite (bind_run _ _ _ _ _ (child_run d y w _ Hy)), get_mkn.
  rewrite (bind_run _ _ _ _ _ (set_opp_run x w d _ _ _ (ptr b) Hx)). set (h1 := <[x := _]> (nodes w)).
  assert (h1 !! y = nodes w !! y) as Hy1 by (by apply lookup_insert_ne).
  assert (rep h1 y b) as Hb1 by (eapply rep_frame; [|exact Hb]; intros q Hq; apply lookup_insert_ne; by intros ->).
  erewrite bind_run.
  2:{ etransitivity; [|apply (set_up_run (World h1 (rb_root w)) y x b); done || (intros; by apply Hb')].
      destruct (negb (ptr b =? 0)); [|done]. erewrite bind_run; [|apply child_run; simpl; rewrite Hy1; exact Hy].
      by rewrite get_mkn. }
  cbn [nodes rb_root]. set (h2 := set_up h1 x b).
  assert (h2 !! y = Some (mkn d (pack x c2) (ptr b) (ptr c))) as Hy2 by (unfold h2; by rewrite set_up_ne, Hy1).
  rewrite (bind_run _ _ _ _ _ (set_child_run y (World h2 (rb_root w)) d _ _ _ x Hy2)). cbn [nodes rb_root].
  erewrite bind_run; [|apply (set_parent_run y (World _ (rb_root w)) d x c2 x (ptr c) (up ctx)); [apply lookup_insert_eq|done|done]].
  cbn [nodes rb_root]. rewrite insert_insert_eq. set (h4 := <[y := _]> h2).
  assert (forall q, q ∈ ctx_nodes ctx -> h4 !! q = nodes w !! q) as H4c.
  { intros q Hq. unfold h4, h2, h1. rewrite lookup_insert_ne, set_up_ne, lookup_insert_ne;
      [done|intros ->|intros Hqb|intros ->]; (eapply Hdis; [|exact Hq]; auto). }
  erewrite bind_run; [|apply (relink_run d (World h4 (rb_root w)) ctx x y); [by eapply rep_ctx_frame|done|apply Hdis; auto|lia]].
  apply (set_parent_run x _ d (up ctx) c1 (ptr a) (ptr b) y); [|done|done].
  rewrite set_hole_ne by (apply Hdis; auto). unfold h4, h2, h1. cbn [nodes].
  rewrite lookup_insert_ne, set_up_ne by done. apply lookup_insert_eq.
Qed.

Lemma rotate_spec d w ctx c1 a x c2 b y c :
  at_pos s w ctx (mk d c1 a x (mk d c2 b y c)) ->
  exists w', rotate d x w = Some (tt, w') /\ at_pos s w' ctx (mk d c2 (mk d c1 a x b) y c) /\ same_out s w w'.
Proof.
  intros Hat. exists (rotated d w ctx c1 a x c2 b y c). split; [by apply rotate_run|].
  pose proof (rotate_disjoint _ _ _ _ _ _ _ _ _ _ Hat) as
    (Hndc & Hnb & Hxy & _ & _ & Hxa & Hya & Hxb & Hyb & Hxc & Hyc & Hb' & Hdis & _).
  destruct Hat as (Hctx & Hrep & Har). rewrite ptr_mk in Hctx. rewrite rep_mk, rep_mk, ptr_mk in Hrep.
  destruct Hrep as (Hx & Ha & Hy & Hb & Hc). unfold rotated. set (h1 := <[x := _]> (nodes w)).
  set (h4 := <[y := _]> _). set (w5 := set_hole _ ctx y). set (h6 := <[x := _]> (nodes w5)).
  assert (forall q, q <> x -> q ∉ ctx_nodes ctx -> h6 !! q = h4 !! q) as H6.
  { intros q Hqx Hq. unfold h6, w5. rewrite lookup_insert_ne by done. by apply set_hole_ne. }
  assert (forall q, q <> x -> q <> y -> (q ∉ inorder b) -> h4 !! q = nodes w !! q) as H4.
  { intros q Hqx Hqy Hqb. unfold h4, h1. by rewrite lookup_insert_ne, set_up_ne, lookup_insert_ne by done. }
  assert (forall p t, (x ∉ inorder t) -> (y ∉ inorder t) ->
    (forall q, q ∈ inorder t -> (q ∉ inorder b) /\ (q ∉ ctx_nodes ctx)) -> rep (nodes w) p t -> rep h6 p t) as Hkeep.
  { intros p t Hxt Hyt Ht. apply rep_frame. intros q Hq. destruct (Ht q Hq). rewrite H6, H4; try done; by intros ->. }
  split; [split; [|split]|].
  - rewrite ptr_mk. eapply rep_ctx_frame; [|apply (rep_set_hole (World h4 (rb_root w)) ctx x y Hndc)].
    + intros q Hq. unfold h6. apply lookup_insert_ne. intros ->. eapply Hdis; [|exact Hq]. auto.
    + eapply rep_ctx_frame; [|exact Hctx]. intros q Hq. apply H4; intros Hn; subst; (eapply Hdis; [|exact Hq]; auto).
  - rewrite rep_mk, rep_mk, ptr_mk. cbn [nodes]. split_and!.
    + rewrite H6 by (done || apply Hdis; auto). apply lookup_insert_eq.
    + apply lookup_insert_eq.
    + apply Hkeep; try done. intros q Hq. split; [|apply Hdis; auto]. intros Hqb. by destruct (Hb' q Hqb) as (? & ? & _).
    + eapply rep_frame; [|apply (rep_set_up h1 y x b Hnb)].
      * intros q Hq. rewrite H6; [|by intros ->|apply Hdis; auto]. apply lookup_insert_ne. by intros ->.
      * eapply rep_frame; [|exact Hb]. intros q Hq. apply lookup_insert_ne. by intros ->.
    + apply Hkeep; try done. intros q Hq. split; [|apply Hdis; auto]. intros Hqb. by destruct (Hb' q Hqb) as (? & ? & _).
  - rewrite <- Har. unfold around. destruct d; simpl; rewrite <- ?app_assoc; simpl; by rewrite <- ?app_assoc.
  - intros q Hq. rewrite <- Har, elem_of_around, elem_of_mk, elem_of_mk in Hq. cbn [nodes]. rewrite H6, H4; tauto.
Qed.

(** * Programs on trees

    [runs ctx t e v ctx' t']: from a memory that holds the tree [t] at the position [ctx], the
    program [e] returns [v] and leaves the tree [t'] at [ctx'], in the same order and with nothing
    else in memory changed. *)
Definition runs {A} (ctx : list frame) (t : tree) (e : M A) (v : A) (ctx' : list frame) (t' : tree) : Prop :=
  forall w, at_pos s w ctx t -> exists w', e w = Some (v, w') /\ at_pos s w' ctx' t' /\ same_out s w w'.

Lemma runs_ret {A} ctx t (v : A) ctx' t' : plug_all ctx t = plug_all ctx' t' -> runs ctx t (mret v) v ctx' t'.
Proof.
  intros He w Hat. exists w. rewrite at_plug_all, He, <- at_plug_all in Hat. split; [done|]. split; [done|apply same_out_refl].
Qed.

(** One step, at another view [ctx1], [t1] of the same tree. *)
Lemma runs_bind {A B} ctx1 t1 ctx2 t2 ctx t ctx' t' (e : M A) (v : A) (f : A -> M B) u :
  runs ctx1 t1 e v ctx2 t2 -> plug_all ctx t = plug_all ctx1 t1 -> runs ctx2 t2 (f v) u ctx' t' ->
  runs ctx t (e ≫= f) u ctx' t'.
Proof.
  intros He Hp Hf w Hat. rewrite at_plug_all, Hp, <- at_plug_all in Hat.
  destruct (He w Hat) as (w1 & E1 & Hat1 & Ho1). destruct (Hf w1 Hat1) as (w2 & E2 & Hat2 & Ho2).
  exists w2. split; [by rewrite (bind_run _ _ _ _ _ E1)|]. split; [done|]. by eapply same_out_trans.
Qed.

Lemma runs_view {A} ctx1 t1 ctx t ctx2 t2 ctx' t' (e : M A) v :
  runs ctx1 t1 e v ctx2 t2 -> plug_all ctx t = plug_all ctx1 t1 -> plug_all ctx2 t2 = plug_all ctx' t' ->
  runs ctx t e v ctx' t'.
Proof.
  intros He Hp Hp' w Hat. rewrite at_plug_all, Hp, <- at_plug_all in Hat.
  destruct (He w Hat) as (w1 & E1 & Hat1 & Ho1). exists w1. split; [done|]. split; [|done].
  by rewrite at_plug_all, <- Hp', <- at_plug_all.
Qed.

(** A turn of a loop. *)
Lemma runs_next {S R} (turn : S -> M (ctl S R)) fuel ctx t x y ctx1 t1 v ctx' t' :
  runs ctx t (turn x) (Next y) ctx1 t1 -> runs ctx1 t1 (iter fuel turn y) v ctx' t' ->
  runs ctx t (iter (Datatypes.S fuel) turn x) v ctx' t'.
Proof. intros H1 H2. by eapply runs_bind; [exact H1|..]. Qed.

Lemma runs_stop {S R} (turn : S -> M (ctl S R)) fuel ctx t x v ctx' t' :
  runs ctx t (turn x) (Ret v) ctx' t' -> runs ctx t (iter (Datatypes.S fuel) turn x) v ctx' t'.
Proof. intros H1. eapply runs_bind; [exact H1|done|by apply runs_ret]. Qed.

(** The fuel of the loops: no more turns than nodes. *)
Lemma runs_walk {S R} (turn : S -> M (ctl S R)) ctx t x v ctx' t' :
  runs ctx t (iter (2 + length s) turn x) v ctx' t' -> runs ctx t (walk turn x) v ctx' t'.
Proof.
  intros Hr w Hat. destruct (Hr w Hat) as (w' & E & Hat' & Ho). exists w'. split; [|done].
  unfold walk. eapply iter_mono; [exact E|]. pose proof (at_size _ _ _ Hat). lia.
Qed.

(** A fact about the position. *)
Lemma runs_know {A} (P : Prop) ctx1 t1 ctx t (e : M A) v ctx' t' :
  (forall w, at_pos s w ctx1 t1 -> P) -> plug_all ctx t = plug_all ctx1 t1 ->
  (P -> runs ctx t e v ctx' t') -> runs ctx t e v ctx' t'.
Proof. intros HP Hp Hr w Hat. apply Hr; [|done]. apply (HP w). by rewrite at_plug_all, <- Hp, <- at_plug_all. Qed.

Lemma at_node w ctx d c a x b :
  at_pos s w ctx (mk d c a x b) ->
  nodes w !! x = Some (mkn d (pack (up ctx) c) (ptr a) (ptr b)) /\ word (up ctx) /\ addr x.
Proof.
  intros Hat. split; [|split; [by eapply wf_up|]].
  - destruct Hat as (_ & Hrep & _). apply rep_mk in Hrep. tauto.
  - apply at_disjoint in Hat as (_ & _ & _ & Ha & _). apply Ha. rewrite elem_of_mk. auto.
Qed.

Lemma child_runs ctx d c a x b : runs ctx (mk d c a x b) (child d x) (ptr a) ctx (mk d c a x b).
Proof.
  intros w Hat. exists w. split; [|split; [done|apply same_out_refl]]. apply at_node in Hat as (Hx & _ & _).
  by rewrite (child_run _ _ _ _ Hx), get_mkn.
Qed.

Lemma child_opp_runs ctx d c a x b : runs ctx (mk d c a x b) (child (opp d) x) (ptr b) ctx (mk d c a x b).
Proof.
  intros w Hat. exists w. split; [|split; [done|apply same_out_refl]]. apply at_node in Hat as (Hx & _ & _).
  by rewrite (child_run _ _ _ _ Hx), get_opp_mkn.
Qed.

Lemma parent_runs ctx d c a x b : runs ctx (mk d c a x b) (rb_parent x) (up ctx) ctx (mk d c a x b).
Proof.
  intros w Hat. exists w. split; [|split; [done|apply same_out_refl]]. apply at_node in Hat as (Hx & HP & _).
  eapply parent_run; [done|apply pc_mkn|done].
Qed.

Lemma color_runs ctx d c a x b : runs ctx (mk d c a x b) (rb_color x) (bit c) ctx (mk d c a x b).
Proof.
  intros w Hat. exists w. split; [|split; [done|apply same_out_refl]]. apply at_node in Hat as (Hx & HP & _).
  eapply color_run; [done|apply pc_mkn|done].
Qed.

Definition is_red (t : tree) : bool := match t with Node Red _ _ _ => true | _ => false end.

Lemma is_red_mk d c a x b : is_red (mk d c a x b) = match c with Red => true | Black => false end.
Proof. by destruct d, c. Qed.

Lemma is_red_runs ctx d c a x b :
  runs ctx (mk d c a x b) (rb_is_red x) (is_red (mk d c a x b)) ctx (mk d c a x b).
Proof.
  eapply runs_bind; [apply color_runs|done|]. replace (bit c =? 0) with (is_red (mk d c a x b)) by (by destruct c, d).
  by apply runs_ret.
Qed.

Lemma is_black_runs ctx d c a x b :
  runs ctx (mk d c a x b) (rb_is_black x) (negb (is_red (mk d c a x b))) ctx (mk d c a x b).
Proof.
  eapply runs_bind; [apply color_runs|done|].
  replace (negb (bit c =? 0)) with (negb (is_red (mk d c a x b))) by (by destruct c, d). by apply runs_ret.
Qed.

Lemma rotate_runs ctx d c1 a x c2 b y c :
  runs ctx (mk d c1 a x (mk d c2 b y c)) (rotate d x) tt ctx (mk d c2 (mk d c1 a x b) y c).
Proof. intros w. apply rotate_spec. Qed.

(** A new colour for a node. *)
Lemma recolor_runs f c' ctx d c a x b :
  (word (up ctx) -> f (pack (up ctx) c) = pack (up ctx) c') ->
  runs ctx (mk d c a x b) (store x (fun n => put_pc (f (rb_parent_color n)) n)) tt ctx (mk d c' a x b).
Proof.
  intros Hf w Hat. pose proof (at_node _ _ _ _ _ _ _ Hat) as (Hx & HP & _).
  pose proof (at_disjoint _ _ _ Hat) as (_ & Hnd & Hdis & _ & _). destruct Hat as (Hc & Hr & Har).
  rewrite (store_run _ _ _ _ Hx), put_pc_mkn, pc_mkn, Hf by done. eexists. split; [done|].
  rewrite nodup_mk in Hnd. destruct Hnd as (_ & _ & Hxa & Hxb & _). setoid_rewrite elem_of_mk in Hdis.
  rewrite ptr_mk in Hc. rewrite rep_mk in Hr. destruct Hr as (_ & Ha & Hb). split; [split_and!|].
  - rewrite ptr_mk. eapply rep_ctx_frame; [|exact Hc]. intros q Hq. apply lookup_insert_ne. intros ->. eapply Hdis; [|exact Hq]. auto.
  - rewrite rep_mk. split; [apply lookup_insert_eq|].
    split; (eapply rep_frame; [|done]); intros q Hq; apply lookup_insert_ne; by intros ->.
  - rewrite <- Har. unfold around. by destruct d.
  - intros q Hq. cbn [nodes]. apply lookup_insert_ne. intros ->. apply Hq. rewrite <- Har, elem_of_around, elem_of_mk. auto.
Qed.

Lemma set_red_runs ctx d c a x b : runs ctx (mk d c a x b) (rb_set_red x) tt ctx (mk d Red a x b).
Proof. apply (recolor_runs (fun v => Z.land v (ul_not 1)) Red). apply pack_red. Qed.

Lemma set_black_runs ctx d c a x b : runs ctx (mk d c a x b) (rb_set_black x) tt ctx (mk d Black a x b).
Proof. apply (recolor_runs (fun v => Z.lor v 1) Black). apply pack_black. Qed.

Lemma set_color_runs c' ctx d c a x b : runs ctx (mk d c a x b) (rb_set_color x (bit c')) tt ctx (mk d c' a x b).
Proof. apply (recolor_runs (fun v => Z.lor (Z.land v (ul_not 1)) (bit c')) c'). intros. by apply pack_set_color. Qed.

(** The root. *)
Lemma root_runs ctx t : runs ctx t get_root (ptr (plug_all ctx t)) ctx t.
Proof.
  intros w Hat. exists w. split; [|split; [done|apply same_out_refl]].
  rewrite at_plug_all in Hat. destruct Hat as (Hr & _ & _). unfold get_root. by rewrite Hr.
Qed.

(** The tests on a pointer that may be NULL. *)
Lemma ptr_node w ctx t : at_pos s w ctx t -> (ptr t =? 0) = match t with Leaf => true | _ => false end.
Proof.
  intros Hat. destruct t as [|c l x r]; [done|]. apply (at_node _ _ L) in Hat as (_ & _ & [Hx _]).
  apply Z.eqb_neq. simpl. lia.
Qed.

Lemma up_node w ctx t : at_pos s w ctx t -> (up ctx =? 0) = match ctx with [] => true | _ => false end.
Proof.
  intros Hat. destruct ctx as [|f ctx]; [done|]. rewrite at_plug in Hat. apply ptr_node in Hat. unfold plug in Hat.
  rewrite ptr_mk in Hat. simpl. rewrite Hat. by destruct (fside f).
Qed.

Lemma red_runs ctx t :
  runs ctx t (if negb (ptr t =? 0) then rb_is_red (ptr t) else mret false) (is_red t) ctx t.
Proof.
  intros w Hat. rewrite (ptr_node _ _ _ Hat). destruct t as [|c l x r]; [by apply (runs_ret ctx Leaf false)|].
  by apply (is_red_runs ctx L c l x r).
Qed.

Lemma null_or_black_runs ctx t : runs ctx t (null_or_black (ptr t)) (negb (is_red t)) ctx t.
Proof.
  intros w Hat. unfold null_or_black. rewrite (ptr_node _ _ _ Hat). destruct t as [|c l x r]; [by apply (runs_ret ctx Leaf true)|].
  by apply (is_black_runs ctx L c l x r).
Qed.

Definition up_red (ctx : list frame) : bool := match ctx with Frame _ Red _ _ :: _ => true | _ => false end.

Lemma up_red_runs ctx t :
  runs ctx t (if negb (up ctx =? 0) then rb_is_red (up ctx) else mret false) (up_red ctx) ctx t.
Proof.
  intros w Hat. rewrite (up_node _ _ _ Hat). destruct ctx as [|[d c x sib] ctx]; [by apply (runs_ret [] t false)|].
  replace (up_red _) with (is_red (mk d c t x sib)) by (by rewrite is_red_mk; destruct c).
  rewrite at_plug in Hat. destruct (is_red_runs ctx d c t x sib w Hat) as (w' & E & Hat' & Ho).
  exists w'. split; [done|]. by rewrite at_plug.
Qed.

(** Two subtrees of a node have different addresses unless both are empty. *)
Lemma ptr_ne w ctx d c a x b :
  at_pos s w ctx (mk d c a x b) -> (ptr a =? ptr b) = match a, b with Leaf, Leaf => true | _, _ => false end.
Proof.
  intros Hat. pose proof (at_disjoint _ _ _ Hat) as (_ & Hnd & _ & Ha & _). rewrite nodup_mk in Hnd.
  setoid_rewrite elem_of_mk in Ha. destruct Hnd as (_ & _ & _ & _ & Hd).
  destruct a as [|ca al ax ar], b as [|cb bl bx br]; [done| | |]; apply Z.eqb_neq; simpl; intros Heq.
  - destruct (Ha bx) as [? _]; [simpl; set_solver|lia].
  - destruct (Ha ax) as [? _]; [simpl; set_solver|lia].
  - subst. apply (Hd bx); simpl; set_solver.
Qed.

(** The test that finds the side of a node under its parent. *)
Lemma side_runs {B} (f : side -> M B) (test : Z -> bool) ctx e c t x sib v ctx' t' :
  (forall l, test l = (ptr t =? l)) -> t <> Leaf \/ sib <> Leaf ->
  runs (Frame e c x sib :: ctx) t (f e) v ctx' t' ->
  runs (Frame e c x sib :: ctx) t (l ← child L x; f (if test l then L else R)) v ctx' t'.
Proof.
  intros Ht Hne Hf w Hat. pose proof (proj1 (at_plug _ _ _ _ _) Hat) as Hat'. unfold plug in Hat'. cbn [fside fcolor faddr fsib] in Hat'.
  pose proof (ptr_ne _ _ _ _ _ _ _ Hat') as Hp. apply at_node in Hat' as (Hx & _ & _).
  rewrite (bind_run _ _ _ _ _ (child_run L x w _ Hx)), Ht. destruct e; cbn [mkn get_child rb_left].
  - rewrite Z.eqb_refl. by apply Hf.
  - rewrite Hp. destruct t, sib; try (by apply Hf). destruct Hne; done.
Qed.
End wf.
