(* ===== verification/RbtreeInsert.v ===== *)
(** The red-black invariant and insertion: rb_link_node and rb_insert_color. *)

From S2P Require Import Prelude.
From stdpp Require Import gmap.
From Stdlib Require Import Lia.
From S2P Require Import Rbtree RbtreeRep.
Open Scope Z_scope.

(** * The invariant *)

(** [rbt c t n]: below [t], whose root has the colour [c], no red node has a red child and every
    path down to a leaf has [n] black nodes. *)
Inductive rbt : color -> tree -> nat -> Prop :=
| rbt_leaf : rbt Black Leaf 0
| rbt_red l x r n : rbt Black l n -> rbt Black r n -> rbt Red (Node Red l x r) n
| rbt_black cl cr l x r n : rbt cl l n -> rbt cr r n -> rbt Black (Node Black l x r) (S n).

(** [rbc ctx c n]: the tree around [ctx] has the invariant when a tree of the colour [c] with [n]
    black nodes on its paths is put there. *)
Inductive rbc : list frame -> color -> nat -> Prop :=
| rbc_nil n : rbc [] Black n
| rbc_red d x sib n ctx : rbt Black sib n -> rbc ctx Red n -> rbc (Frame d Red x sib :: ctx) Black n
| rbc_black d x sib cs n ctx c : rbt cs sib n -> rbc ctx Black (S n) -> rbc (Frame d Black x sib :: ctx) c n.

(** A valid tree. *)
Definition balanced (t : tree) : Prop := exists n, rbt Black t n.

Lemma mk_red d a x b n : rbt Black a n -> rbt Black b n -> rbt Red (mk d Red a x b) n.
Proof. destruct d; by constructor. Qed.

Lemma mk_black d ca cb a x b n : rbt ca a n -> rbt cb b n -> rbt Black (mk d Black a x b) (S n).
Proof. destruct d; econstructor; eauto. Qed.

Lemma rbt_red_inv d t n :
  rbt Red t n -> exists a x b, t = mk d Red a x b /\ rbt Black a n /\ rbt Black b n.
Proof. inversion 1; subst; destruct d; do 3 eexists; eauto. Qed.

Lemma rbt_black_inv d t n :
  rbt Black t (S n) -> exists ca cb a x b, t = mk d Black a x b /\ rbt ca a n /\ rbt cb b n.
Proof. inversion 1; subst; destruct d; do 5 eexists; eauto. Qed.

Lemma rbt_color c t n : rbt c t n -> c = if is_red t then Red else Black.
Proof. by inversion 1. Qed.

Lemma rbt_not_red c t n : rbt c t n -> is_red t = false -> rbt Black t n.
Proof. intros H Hr. pose proof (rbt_color _ _ _ H) as Hc. rewrite Hr in Hc. by subst. Qed.

Lemma rbt_is_red c t n : rbt c t n -> is_red t = true -> rbt Red t n.
Proof. intros H Hr. pose proof (rbt_color _ _ _ H) as Hc. rewrite Hr in Hc. by subst. Qed.

Create HintDb rb.
#[export] Hint Constructors rbt rbc : rb.
#[export] Hint Resolve mk_red mk_black : rb.

Lemma rbc_fill ctx c t n : rbc ctx c n -> rbt c t n -> balanced (plug_all ctx t).
Proof.
  intros Hc. revert t. induction Hc as [n|d x sib n ctx Hs Hc IH|d x sib cs n ctx c Hs Hc IH]; intros t Ht.
  - by exists n.
  - apply IH. by apply mk_red.
  - apply IH. by eapply mk_black.
Qed.

(** The other way: a valid tree seen from a position in it. *)
Lemma rbc_split ctx t : balanced (plug_all ctx t) -> exists c n, rbc ctx c n /\ rbt c t n.
Proof.
  revert t. induction ctx as [|[d c x sib] ctx IH]; intros t; [intros [n Hn]; exists Black, n; auto with rb|].
  intros (c' & n & Hc & Ht)%IH. unfold plug in Ht. cbn [fside fcolor faddr fsib] in Ht. destruct c.
  - assert (c' = Red) as -> by (apply rbt_color in Ht; by rewrite is_red_mk in Ht).
    exists Black, n. destruct d; inversion Ht; subst; auto with rb.
  - assert (c' = Black) as -> by (apply rbt_color in Ht; by rewrite is_red_mk in Ht).
    destruct d; inversion Ht; subst; eexists _, _; split; try done; econstructor; eauto.
Qed.

(** * The loop of rb_insert_color *)

(** One step of a program at the view [ctx], [t] that the lemma is about. *)
Ltac view := unfold plug_all, plug; simpl; repeat match goal with d : side |- _ => destruct d end; reflexivity.
Tactic Notation "step" uconstr(H) := eapply runs_bind; [apply H|first [done|view]|cbn beta iota].

Section wf.
Context (s : list Z) (Hs : wf s).

Lemma insert_uncle ctx d e t p sib g ua ux ub :
  runs s (Frame d Red p sib :: Frame e Black g (mk e Red ua ux ub) :: ctx) t
    (insert_fix e (ptr t) p g) (Next g) ctx (mk e Red (mk d Black t p sib) g (mk e Black ua ux ub)).
Proof.
  unfold insert_fix.
  step (child_opp_runs s Hs ctx e Black (mk d Red t p sib) g (mk e Red ua ux ub)).
  step (red_runs s Hs (Frame (opp e) Black g (mk d Red t p sib) :: ctx) (mk e Red ua ux ub)).
  rewrite is_red_mk, ptr_mk. step (set_black_runs s Hs (Frame (opp e) Black g (mk d Red t p sib) :: ctx) e Red ua ux ub).
  step (set_black_runs s Hs (Frame e Black g (mk e Black ua ux ub) :: ctx) d Red t p sib).
  step (set_red_runs s Hs ctx e Black (mk d Black t p sib) g (mk e Black ua ux ub)). by apply runs_ret.
Qed.

(** The last two steps: the parent above the grandparent. *)
Lemma insert_turn_up ctx e t p sib g u x :
  runs s ctx (mk e Black (mk e Red t p sib) g u)
    (_ ← rb_set_black p; _ ← rb_set_red g; _ ← rotate (opp e) g; mret (@Next Z unit x)) (Next x)
    (Frame e Black p (mk e Red sib g u) :: ctx) t.
Proof.
  step (set_black_runs s Hs (Frame e Black g u :: ctx) e Red t p sib).
  step (set_red_runs s Hs ctx e Black (mk e Black t p sib) g u).
  step (rotate_runs s Hs ctx (opp e) Red u g Black sib p t). apply runs_ret. view.
Qed.

Lemma insert_outer ctx e t p sib g u :
  is_red u = false -> t <> Leaf ->
  runs s (Frame e Red p sib :: Frame e Black g u :: ctx) t (insert_fix e (ptr t) p g) (Next (ptr t))
    (Frame e Black p (mk e Red sib g u) :: ctx) t.
Proof.
  intros Hu Hne. unfold insert_fix. step (child_opp_runs s Hs ctx e Black (mk e Red t p sib) g u).
  step (red_runs s Hs (Frame (opp e) Black g (mk e Red t p sib) :: ctx) u). rewrite Hu.
  step (child_opp_runs s Hs (Frame e Black g u :: ctx) e Red t p sib).
  eapply (runs_know s _ (Frame e Black g u :: ctx) (mk e Red t p sib)); [intros w; apply (ptr_ne s Hs)|done|].
  intros Hp. rewrite Z.eqb_sym, Hp. destruct t; [done|].
  eapply runs_bind; [by apply runs_ret|done|]. cbn beta iota. eapply runs_view; [apply insert_turn_up|view|done].
Qed.

Lemma insert_inner ctx e ta x tb p sib g u :
  is_red u = false ->
  runs s (Frame (opp e) Red p sib :: Frame e Black g u :: ctx) (mk e Red ta x tb) (insert_fix e x p g) (Next p)
    (Frame e Black x (mk e Red tb g u) :: ctx) (mk e Red sib p ta).
Proof.
  intros Hu. unfold insert_fix. step (child_opp_runs s Hs ctx e Black (mk e Red sib p (mk e Red ta x tb)) g u).
  step (red_runs s Hs (Frame (opp e) Black g (mk e Red sib p (mk e Red ta x tb)) :: ctx) u). rewrite Hu.
  step (child_opp_runs s Hs (Frame e Black g u :: ctx) e Red sib p (mk e Red ta x tb)). rewrite ptr_mk, Z.eqb_refl.
  eapply runs_bind; [eapply runs_bind; [apply (rotate_runs s Hs (Frame e Black g u :: ctx) e Red sib p Red ta x tb)|view|]|view|].
  - by apply runs_ret.
  - cbn beta iota. eapply runs_view; [apply insert_turn_up|view|done].
Qed.

(** A turn that ends the loop. *)
Lemma insert_stop ctx d c a x b fuel :
  up_red ctx = false ->
  runs s ctx (mk d c a x b) (iter (S fuel) insert_turn x) tt [] (plug_all ctx (mk d c a x b)).
Proof.
  intros Hup. simpl iter. eapply runs_bind; [|done|].
  - unfold insert_turn. step (parent_runs s Hs). step (up_red_runs s Hs). rewrite Hup. by apply runs_ret.
  - by apply runs_ret.
Qed.

(** A turn under a red parent. *)
Lemma insert_turn_fix ctx d e dt c a x b p sib g u v ctx' t' :
  runs s (Frame d Red p sib :: Frame e Black g u :: ctx) (mk dt c a x b) (insert_fix e x p g) v ctx' t' ->
  runs s (Frame d Red p sib :: Frame e Black g u :: ctx) (mk dt c a x b) (insert_turn x) v ctx' t'.
Proof.
  intros Hfix. unfold insert_turn. step (parent_runs s Hs). step (up_red_runs s Hs). simpl.
  step (parent_runs s Hs (Frame e Black g u :: ctx) d Red (mk dt c a x b) p sib). simpl.
  eapply (runs_view s (Frame e Black g u :: ctx)); [|done|done].
  apply (side_runs s Hs (fun q => insert_fix q x p g) (fun l => p =? l)); [intros l; by rewrite ptr_mk|left; by destruct d|].
  eapply runs_view; [exact Hfix|done|done].
Qed.

Lemma insert_loop fuel ctx t n :
  rbt Red t n -> rbc ctx Black n -> (length ctx < fuel)%nat ->
  exists T c m, rbt c T m /\ runs s ctx t (iter fuel insert_turn (ptr t)) tt [] T.
Proof.
  revert ctx t n. induction fuel as [|fuel IH]; intros ctx t n Ht Hc Hf; [lia|].
  inversion Hc as [n'|d p sib n' ctx1 Hsib Hc1|d p sib cs n' ctx1 c' Hsib Hc1]; subst.
  - apply (rbt_red_inv L) in Ht as (a & x & b & -> & Ha & Hb). eexists _, Red, n. split; [|by apply insert_stop].
    by apply mk_red.
  - inversion Hc1 as [|? ? ? ? ? ? ? |e g u cu n' ctx2 c' Hu Hc2]; subst. simpl in Hf.
    apply (rbt_red_inv e) in Ht as (ta & x & tb & -> & Ha & Hb). rewrite ptr_mk. destruct (is_red u) eqn:Eu.
    + apply (rbt_is_red _ _ _ Hu), (rbt_red_inv e) in Eu as (ua & ux & ub & -> & Hua & Hub).
      destruct (IH ctx2 (mk e Red (mk d Black (mk e Red ta x tb) p sib) g (mk e Black ua ux ub)) (S n)) as (T & c & m & HT & Hr);
        [eauto with rb|done|lia|].
      pose proof (insert_uncle ctx2 d e (mk e Red ta x tb) p sib g ua ux ub) as Hu1. rewrite ptr_mk in Hu1, Hr.
      exists T, c, m. split; [done|]. eapply runs_bind; [apply insert_turn_fix, Hu1|done|exact Hr].
    + apply (rbt_not_red _ _ _ Hu) in Eu as Hu'. destruct fuel as [|fuel]; [lia|].
      assert (forall t' p' u', rbt Red t' n -> rbt Red u' n -> balanced (plug_all (Frame e Black p' u' :: ctx2) t')) as Hfill
        by (intros; eapply rbc_fill; [econstructor|]; eauto).
      destruct (decide (d = e)) as [->|Hne].
      * destruct (Hfill (mk e Red ta x tb) p (mk e Red sib g u)) as [m Hm]; [auto with rb..|].
        pose proof (insert_outer ctx2 e (mk e Red ta x tb) p sib g u Eu ltac:(by destruct e)) as Hu1. rewrite ptr_mk in Hu1.
        eexists _, _, _. split; [exact Hm|].
        eapply runs_bind; [apply insert_turn_fix, Hu1|done|by apply insert_stop].
      * assert (d = opp e) as -> by (by destruct d, e).
        destruct (Hfill (mk e Red sib p ta) x (mk e Red tb g u)) as [m Hm]; [auto with rb..|].
        eexists _, _, _. split; [exact Hm|].
        eapply runs_bind; [apply insert_turn_fix, insert_inner, Eu|done|by apply insert_stop].
  - destruct (rbc_fill _ _ t n (rbc_black d p sib cs n ctx1 Red Hsib Hc1) Ht) as [m Hm].
    apply (rbt_red_inv L) in Ht as (a & x & b & -> & Ha & Hb). eexists _, Black, m. split; [exact Hm|].
    by apply insert_stop.
Qed.

Lemma blacken d c a x b n : rbt c (mk d c a x b) n -> balanced (mk d Black a x b).
Proof.
  destruct c; [|intros H; exists n; by rewrite (rbt_color _ _ _ H), is_red_mk in H at 1].
  intros (a' & x' & b' & He & Ha & Hb)%(rbt_red_inv d). destruct d; injection He as -> -> ->; eexists; eauto with rb.
Qed.

Lemma insert_color_runs ctx t n :
  rbt Red t n -> rbc ctx Black n -> (length ctx <= length s)%nat -> s <> [] ->
  exists T, balanced T /\ runs s ctx t (rb_insert_color (ptr t)) tt [] T.
Proof.
  intros Ht Hc Hlen Hne. destruct (insert_loop (2 + length s) ctx t n Ht Hc) as (T & c & m & HT & Hr); [lia|].
  apply (runs_walk s Hs) in Hr. destruct T as [|c' l x r].
  - eexists Leaf. split; [by exists 0%nat; constructor|]. eapply runs_bind; [exact Hr|done|].
    intros w (_ & _ & Har). by destruct Hne.
  - assert (c = c') as -> by (apply rbt_color in HT; by destruct c').
    exists (Node Black l x r). split; [by apply (blacken L c' l x r m)|].
    eapply runs_bind; [exact Hr|done|]. step (root_runs s). apply (set_black_runs s Hs [] L c' l x r).
Qed.
End wf.

(** * Linking a new node *)

Definition link_of (ctx : list frame) : link :=
  match ctx with [] => RootLink | Frame d _ p _ :: _ => ChildLink d p end.

Lemma set_link_run w ctx old v :
  rep_ctx (nodes w) (rb_root w) ctx old -> set_link (link_of ctx) v w = Some (tt, set_hole w ctx v).
Proof.
  destruct ctx as [|[d c x sib] ctx]; [done|]. simpl. intros (Hx & _ & _). by rewrite (set_child_run _ _ _ _ _ _ _ Hx).
Qed.

Lemma pack_0 p : pack p Red = p.
Proof. apply Z.lor_0_r. Qed.

Lemma link_node_run w ctx x s :
  at_pos s w ctx Leaf -> wf (before ctx ++ x :: after ctx) -> is_Some (nodes w !! x) ->
  exists w', rb_link_node x (up ctx) (link_of ctx) w = Some (tt, w') /\
    at_pos (before ctx ++ x :: after ctx) w' ctx (Node Red Leaf x Leaf) /\
    same_out (before ctx ++ x :: after ctx) w w'.
Proof.
  intros (Hc & _ & Har) [Hnd Ha] [n Hn]. unfold around in Har. simpl in Har, Hc.
  assert (before ctx ++ x :: after ctx ≡ₚ x :: ctx_nodes ctx) as Hp by (unfold ctx_nodes; solve_Permutation).
  rewrite Hp, NoDup_cons in Hnd. destruct Hnd as [Hx Hnd].
  unfold rb_link_node. rewrite (bind_run _ _ _ _ _ (store_run _ _ _ _ Hn)).
  erewrite bind_run; [|apply store_run; cbn [nodes]; apply lookup_insert_eq]. cbn [nodes rb_root].
  erewrite bind_run; [|apply store_run; cbn [nodes]; apply lookup_insert_eq]. cbn [nodes rb_root]. rewrite !insert_insert_eq.
  set (h := <[x := _]> (nodes w)).
  assert (rep_ctx h (rb_root w) ctx 0) as Hc1
    by (eapply rep_ctx_frame; [|exact Hc]; intros q Hq; apply lookup_insert_ne; by intros ->).
  rewrite (set_link_run (World h (rb_root w)) ctx 0 x Hc1). eexists. split; [done|]. split; [split_and!|].
  - by apply (rep_set_hole (World h (rb_root w)) ctx 0 x).
  - simpl. rewrite set_hole_ne by done. unfold h. cbn [nodes]. rewrite lookup_insert_eq, pack_0. done.
  - done.
  - intros q Hq. rewrite Hp, not_elem_of_cons in Hq. destruct Hq. rewrite set_hole_ne by done. by apply lookup_insert_ne.
Qed.

(** * The promise of the library *)

(** The memory holds a valid tree of the nodes [s], in this order. *)
Definition rb_tree (s : list Z) (w : world) : Prop :=
  wf s /\ exists t, at_pos s w [] t /\ balanced t.

(** [lk] is the NULL pointer between the nodes [pre] and the nodes [post], and [parent] is the node
    it belongs to. *)
Definition free_link (w : world) (pre post : list Z) (parent : Z) (lk : link) : Prop :=
  get_link lk w = Some (0, w) /\
  match lk with
  | RootLink => parent = 0
  | ChildLink L p => parent = p /\ head post = Some p
  | ChildLink R p => parent = p /\ last pre = Some p
  end.

Lemma child_ptr w ctx s d c a x b :
  at_pos s w ctx (mk d c a x b) -> child d x w = Some (ptr a, w) /\ child (opp d) x w = Some (ptr b, w).
Proof.
  intros (_ & Hr & _). apply rep_mk in Hr as (Hx & _). by rewrite !(child_run _ _ _ _ Hx), get_mkn, get_opp_mkn.
Qed.

Lemma free_child s w ctx d c a x b :
  wf s -> at_pos s w ctx (mk d c a x b) -> child d x w = Some (0, w) -> a = Leaf.
Proof.
  intros Hs Hat Hg. pose proof (child_ptr _ _ _ _ _ _ _ _ Hat) as [Hc _]. rewrite Hc in Hg. injection Hg as Hg.
  apply (proj2 (at_plug s w (Frame d c x b) ctx a)), (ptr_node s Hs) in Hat. rewrite Hg in Hat. by destruct a.
Qed.

(** A node splits the sequence in one way. *)
Lemma split_at (x : Z) a b a' b' : NoDup (a ++ x :: b) -> a ++ x :: b = a' ++ x :: b' -> a = a' /\ b = b'.
Proof.
  intros Hnd. revert a'. induction a as [|y a IH]; intros [|y' a'] He; simpl in *; apply NoDup_cons in Hnd as [Hx Hnd].
  - by simplify_eq.
  - simplify_eq. set_solver.
  - simplify_eq. set_solver.
  - injection He as -> He. by destruct (IH Hnd _ He) as [-> ->].
Qed.

Lemma free_ctx s w t pre post parent lk :
  wf s -> at_pos s w [] t -> s = pre ++ post -> free_link w pre post parent lk ->
  exists ctx, plug_all ctx Leaf = t /\ up ctx = parent /\ link_of ctx = lk /\ before ctx = pre /\ after ctx = post.
Proof.
  intros Hs Hat Hsp [Hg Hl].
  assert (s = inorder t) as Hst by (destruct Hat as (_ & _ & <-); unfold around; simpl; by rewrite app_nil_r).
  destruct lk as [|d p].
  - exists []. subst parent. unfold get_link, get_root in Hg. injection Hg as Hg. pose proof (ptr_node s Hs _ _ _ Hat) as Hp.
    destruct Hat as (Hr & _ & _). simpl in Hr. rewrite <- Hr, Hg in Hp. destruct t; [|done].
    simpl in Hst. subst s. destruct pre; [|done]. by destruct post.
  - assert (p ∈ s /\ parent = p) as [Hps ->].
    { destruct d; destruct Hl as [-> Hl]; (split; [|done]); rewrite Hsp; apply elem_of_app.
      - right. destruct post; simplify_eq/=. set_solver.
      - left. by apply last_Some_elem_of. }
    rewrite Hst in Hps. apply locate in Hps as (ctx & c & l & r & ->).
    assert (exists sib, Node c l p r = mk d c Leaf p sib) as [sib Hn].
    { rewrite <- at_plug_all in Hat. destruct d.
      - rewrite (free_child s w ctx L c l p r Hs Hat Hg). by exists r.
      - rewrite (free_child s w ctx R c r p l Hs Hat Hg). by exists l. }
    rewrite Hn in *. exists (Frame d c p sib :: ctx). split; [done|]. split; [done|]. split; [done|].
    rewrite <- at_plug_all in Hat. apply (proj2 (at_plug s w (Frame d c p sib) ctx Leaf)) in Hat.
    destruct Hat as (_ & _ & Har). unfold around in Har. cbn [inorder app] in Har. rewrite <- Har in Hs. destruct Hs as [Hnd _].
    rewrite <- Har in Hsp. clear Hst Har. destruct d; destruct Hl as [_ Hl]; simpl in *.
    + destruct post as [|p' post]; simplify_eq/=. by destruct (split_at _ _ _ _ _ Hnd Hsp) as [-> ->].
    + apply last_Some in Hl as [pre' ->]. rewrite <- !app_assoc in Hsp, Hnd. rewrite app_assoc in Hsp, Hnd.
      rewrite <- (app_assoc pre') in Hsp. destruct (split_at _ _ _ _ _ Hnd Hsp) as [<- ->]. by rewrite app_assoc.
Qed.

Lemma same_out_weaken s s' w w' : (forall q, q ∈ s -> q ∈ s') -> same_out s w w' -> same_out s' w w'.
Proof. intros Hss H q Hq. apply H. set_solver. Qed.

(** Linking a new node between [pre] and [post] and repairing the colours. *)
Lemma insert_spec pre post x parent lk w :
  rb_tree (pre ++ post) w -> wf (pre ++ x :: post) -> is_Some (nodes w !! x) -> free_link w pre post parent lk ->
  exists w', (rb_link_node x parent lk ≫= fun _ => rb_insert_color x) w = Some (tt, w') /\
    rb_tree (pre ++ x :: post) w' /\ same_out (pre ++ x :: post) w w'.
Proof.
  intros [Hs (t & Hat & Hb)] Hs' Hx Hf. destruct (free_ctx _ _ _ _ _ _ _ Hs Hat eq_refl Hf) as (ctx & <- & <- & <- & <- & <-).
  rewrite <- at_plug_all in Hat. destruct (link_node_run _ _ _ _ Hat Hs' Hx) as (w1 & E1 & Hat1 & Ho1).
  rewrite (bind_run _ _ _ _ _ E1). apply rbc_split in Hb as (c & n & Hc & Hl). inversion Hl; subst.
  destruct (insert_color_runs _ Hs' ctx (Node Red Leaf x Leaf) 0) as (T & HT & Hr);
    [by repeat constructor|done|by eapply at_length|by destruct (before ctx)|].
  destruct (Hr w1 Hat1) as (w2 & E2 & Hat2 & Ho2). exists w2. split; [exact E2|]. split; [split; [done|by exists T]|].
  by eapply same_out_trans.
Qed.

(** The position of a node. *)
Lemma rb_locate pre x post w :
  rb_tree (pre ++ x :: post) w ->
  exists ctx c l r, at_pos (pre ++ x :: post) w ctx (Node c l x r) /\ balanced (plug_all ctx (Node c l x r)) /\
    pre = before ctx ++ inorder l /\ post = inorder r ++ after ctx.
Proof.
  intros [[Hnd _] (t & Hat & Hb)]. pose proof Hat as (_ & _ & Har). rewrite around_plug_all in Har. simpl in Har.
  destruct (locate t x) as (ctx & c & l & r & ->); [rewrite Har; set_solver|]. rewrite <- at_plug_all in Hat.
  exists ctx, c, l, r. split; [done|]. split; [done|].
  rewrite <- around_plug_all in Har. unfold around in Har. simpl in Har. rewrite <- app_assoc, app_assoc in Har. simpl in Har.
  symmetry in Har. by apply (split_at x).
Qed.

Lemma empty_tree w : rb_root w = 0 -> rb_tree [] w.
Proof.
  intros Hr. split; [split; constructor|]. exists Leaf. split; [by split_and!|]. by exists 0%nat; constructor.
Qed.
