(* ===== verification/RbtreeErase.v ===== *)
(** Removal: rb_erase. *)

From S2P Require Import Prelude.
From stdpp Require Import gmap.
From Stdlib Require Import Lia.
From S2P Require Import Rbtree RbtreeRep RbtreeInsert.
Open Scope Z_scope.

(** * The loop of __rb_erase_color *)

(** A tree that is one black node short: black, or red with subtrees of any colour. *)
Inductive short : tree -> nat -> Prop :=
| short_black t n : rbt Black t n -> short t n
| short_red cl cr l x r n : rbt cl l n -> rbt cr r n -> short (Node Red l x r) n.

Lemma short_mk_red d ca cb a x b n : rbt ca a n -> rbt cb b n -> short (mk d Red a x b) n.
Proof. intros Ha Hb. destruct d; [exact (short_red _ _ _ _ _ _ Ha Hb)|exact (short_red _ _ _ _ _ _ Hb Ha)]. Qed.

Definition black (t : tree) : tree := match t with Leaf => Leaf | Node _ l x r => Node Black l x r end.

Lemma short_red_black t n : short t n -> is_red t = true -> rbt Black (black t) (S n).
Proof. intros [? ? H|cl cr l x r ? Hl Hr] He; [apply rbt_color in H; by rewrite He in H|]. simpl. eauto with rb. Qed.

Lemma short_not_red t n : short t n -> is_red t = false -> rbt Black t n.
Proof. by intros [? ? H|cl cr l x r ? Hl Hr] He. Qed.

Lemma black_balanced t : balanced t -> black t = t.
Proof. intros [n Hn]. by inversion Hn. Qed.

Lemma rbc_any ctx c n : rbc ctx c n -> rbc ctx Black n.
Proof. intros H. destruct c; [|done]. inversion H; subst. eauto with rb. Qed.

(** The black nodes that a node of the colour [c] adds. *)
Definition level (c : color) (n : nat) : nat := match c with Red => n | Black => S n end.

Lemma root_in f ctx t : ptr (plug_all (f :: ctx) t) ∈ ctx_nodes (f :: ctx).
Proof.
  revert f t. induction ctx as [|f' ctx IH]; intros f t; destruct f as [d c x sib]; rewrite elem_of_frame.
  - left. unfold plug_all, plug. simpl. apply ptr_mk.
  - right. right. apply (IH f').
Qed.

Section wf.
Context (s : list Z) (Hs : wf s).

Lemma root_ne w f ctx t : at_pos s w (f :: ctx) t -> (ptr t =? ptr (plug_all (f :: ctx) t)) = false.
Proof.
  intros Hat. pose proof (at_disjoint s Hs _ _ _ Hat) as (_ & _ & Hd & _ & Ha). pose proof (root_in f ctx t) as Hr.
  apply Z.eqb_neq. intros He. rewrite <- He in Hr. destruct (ptr_in t) as [H0|Hin].
  - destruct (Ha _ Hr) as [? _]. lia.
  - by apply (Hd _ Hin).
Qed.

(** The tests of the loop. *)
Lemma erase_stop ctx t :
  is_red t = true \/ ctx = [] -> runs s ctx t (erase_turn (ptr t, up ctx)) (Ret (ptr t)) ctx t.
Proof.
  intros Hst. unfold erase_turn. step (null_or_black_runs s Hs ctx t). step (root_runs s ctx t).
  destruct Hst as [Hr | ->]; [rewrite Hr|simpl plug_all; rewrite Z.eqb_refl, andb_false_r]; by apply runs_ret.
Qed.

Lemma erase_go ctx d c p sib t v ctx' t' :
  is_red t = false -> sib <> Leaf ->
  runs s (Frame d c p sib :: ctx) t (erase_fix d p) v ctx' t' ->
  runs s (Frame d c p sib :: ctx) t (erase_turn (ptr t, p)) v ctx' t'.
Proof.
  intros Hr Hsib Hf. unfold erase_turn. step (null_or_black_runs s Hs (Frame d c p sib :: ctx) t).
  step (root_runs s (Frame d c p sib :: ctx) t).
  eapply (runs_know s _ (Frame d c p sib :: ctx) t); [intros w; apply root_ne|done|]. intros ->. rewrite Hr. simpl andb. cbn iota.
  apply (side_runs s Hs (fun q => erase_fix q p) (fun l => l =? ptr t)); [intros l; apply Z.eqb_sym|by right|done].
Qed.

(** * The cases of the sibling *)

Lemma erase_last_runs ctx d e cp co cf t p near o fa f fb :
  let T := mk d cp (mk d Black t p near) o (mk e Black fa f fb) in
  runs s ctx (mk d cp t p (mk d co near o (mk e cf fa f fb))) (erase_last d p o) (Ret (ptr (plug_all ctx T))) ctx T.
Proof.
  intros T. unfold erase_last. step (color_runs s Hs ctx d cp t p (mk d co near o (mk e cf fa f fb))).
  step (set_color_runs s Hs cp (Frame (opp d) cp p t :: ctx) d co near o (mk e cf fa f fb)).
  step (set_black_runs s Hs ctx d cp t p (mk d cp near o (mk e cf fa f fb))).
  step (child_opp_runs s Hs (Frame (opp d) Black p t :: ctx) d cp near o (mk e cf fa f fb)). rewrite ptr_mk.
  step (set_black_runs s Hs (Frame (opp d) cp o near :: Frame (opp d) Black p t :: ctx) e cf fa f fb).
  step (rotate_runs s Hs ctx d Black t p cp near o (mk e Black fa f fb)).
  step (root_runs s ctx T). by apply runs_ret.
Qed.

Lemma erase_both ctx d cp co t p near o far :
  is_red near = false -> is_red far = false ->
  runs s ctx (mk d cp t p (mk d co near o far)) (erase_black d p o) (Next (p, up ctx)) ctx
    (mk d cp t p (mk d Red near o far)).
Proof.
  intros Hn Hf. unfold erase_black.
  step (child_runs s Hs (Frame (opp d) cp p t :: ctx) d co near o far).
  step (child_opp_runs s Hs (Frame (opp d) cp p t :: ctx) d co near o far).
  step (null_or_black_runs s Hs (Frame d co o far :: Frame (opp d) cp p t :: ctx) near). rewrite Hn. simpl negb. cbn iota.
  step (null_or_black_runs s Hs (Frame (opp d) co o near :: Frame (opp d) cp p t :: ctx) far). rewrite Hf. simpl negb. cbn iota.
  step (set_red_runs s Hs (Frame (opp d) cp p t :: ctx) d co near o far).
  step (parent_runs s Hs ctx d cp t p (mk d Red near o far)). by apply runs_ret.
Qed.

Lemma erase_far ctx d e cp co t p near o fa f fb :
  let T := mk d cp (mk d Black t p near) o (mk e Black fa f fb) in
  runs s ctx (mk d cp t p (mk d co near o (mk e Red fa f fb))) (erase_black d p o) (Ret (ptr (plug_all ctx T))) ctx T.
Proof.
  intros T. unfold erase_black. set (far := mk e Red fa f fb). assert (is_red far = true) as Hf by (unfold far; by rewrite is_red_mk).
  step (child_runs s Hs (Frame (opp d) cp p t :: ctx) d co near o far).
  step (child_opp_runs s Hs (Frame (opp d) cp p t :: ctx) d co near o far).
  step (null_or_black_runs s Hs (Frame d co o far :: Frame (opp d) cp p t :: ctx) near).
  eapply (runs_bind s (Frame (opp d) co o near :: Frame (opp d) cp p t :: ctx) far _ _ _ _ _ _ _ false); [|view|].
  { destruct (negb (is_red near)); [|by apply runs_ret].
    replace false with (negb (is_red far)) by (by rewrite Hf). apply (null_or_black_runs s Hs). }
  cbn iota. step (null_or_black_runs s Hs (Frame (opp d) co o near :: Frame (opp d) cp p t :: ctx) far). rewrite Hf. simpl negb.
  cbn iota. eapply runs_bind; [by apply runs_ret|done|]. eapply runs_view; [apply erase_last_runs|view|done].
Qed.

Lemma erase_near ctx d cp co t p na x nb o far :
  is_red far = false ->
  let T := mk d cp (mk d Black t p na) x (mk d Black nb o far) in
  runs s ctx (mk d cp t p (mk d co (mk d Red na x nb) o far)) (erase_black d p o) (Ret (ptr (plug_all ctx T))) ctx T.
Proof.
  intros Hf T. unfold erase_black. set (near := mk d Red na x nb). assert (is_red near = true) as Hn by (unfold near; by rewrite is_red_mk).
  step (child_runs s Hs (Frame (opp d) cp p t :: ctx) d co near o far).
  step (child_opp_runs s Hs (Frame (opp d) cp p t :: ctx) d co near o far).
  step (null_or_black_runs s Hs (Frame d co o far :: Frame (opp d) cp p t :: ctx) near). rewrite Hn. simpl negb. cbn iota.
  eapply runs_bind; [by apply runs_ret|done|]. cbn iota.
  step (null_or_black_runs s Hs (Frame (opp d) co o near :: Frame (opp d) cp p t :: ctx) far). rewrite Hf. simpl negb. cbn iota.
  eapply runs_bind; [|done|].
  - step (child_runs s Hs (Frame (opp d) cp p t :: ctx) d co near o far). unfold near. rewrite ptr_mk.
    step (set_black_runs s Hs (Frame d co o far :: Frame (opp d) cp p t :: ctx) d Red na x nb).
    step (set_red_runs s Hs (Frame (opp d) cp p t :: ctx) d co (mk d Black na x nb) o far).
    step (rotate_runs s Hs (Frame (opp d) cp p t :: ctx) (opp d) Red far o Black nb x na).
    eapply runs_view; [apply (child_opp_runs s Hs ctx d cp t p (mk d Black na x (mk d Red nb o far)))|view|done].
  - rewrite ptr_mk. apply erase_last_runs.
Qed.

(** What a turn comes to: a smaller problem, or a valid tree. *)
Definition turned (ctx : list frame) (t : tree) (e : M (ctl (Z * Z) Z)) (len : nat) : Prop :=
  (exists ctx' t' n, short t' n /\ rbc ctx' Black (S n) /\ (is_red t' = true \/ (length ctx' < len)%nat) /\
     runs s ctx t e (Next (ptr t', up ctx')) ctx' t') \/
  (exists T, balanced T /\ runs s ctx t e (Ret (ptr T)) [] T).

Lemma erase_black_turned ctx d cp ca cb t p near o far n len :
  rbt Black t n -> rbt ca near n -> rbt cb far n -> rbc ctx cp (level cp (S n)) ->
  cp = Red \/ (length ctx < len)%nat ->
  turned ctx (mk d cp t p (mk d Black near o far)) (erase_black d p o) len.
Proof.
  intros Ht Hn Hf Hc Hlen.
  assert (forall T, rbt cp T (level cp (S n)) ->
    runs s ctx (mk d cp t p (mk d Black near o far)) (erase_black d p o) (Ret (ptr (plug_all ctx T))) ctx T ->
    turned ctx (mk d cp t p (mk d Black near o far)) (erase_black d p o) len) as Hdone.
  { intros T HT Hr. right. exists (plug_all ctx T). split; [by eapply rbc_fill|]. by eapply runs_view; [exact Hr|..]. }
  destruct (is_red far) eqn:Ef; [|destruct (is_red near) eqn:En].
  - apply (rbt_is_red _ _ _ Hf), (rbt_red_inv d) in Ef as (fa & f & fb & -> & Hfa & Hfb).
    eapply Hdone; [|apply erase_far]. destruct cp; cbn [level]; eauto with rb.
  - apply (rbt_is_red _ _ _ Hn), (rbt_red_inv d) in En as (na & x & nb & -> & Hna & Hnb).
    eapply Hdone; [|by apply erase_near]. destruct cp; cbn [level]; eauto with rb.
  - pose proof (rbt_not_red _ _ _ Hn En) as Hn'. pose proof (rbt_not_red _ _ _ Hf Ef) as Hf'.
    left. exists ctx, (mk d cp t p (mk d Red near o far)). rewrite ptr_mk, is_red_mk.
    destruct cp; simpl in Hc; [exists n|exists (S n)]; (split_and!; [..|by apply erase_both]).
    + eapply short_mk_red; eauto with rb.
    + by eapply rbc_any.
    + by left.
    + constructor. eauto with rb.
    + done.
    + destruct Hlen; [done|]. by right.
Qed.

Lemma turned_lift ctx1 t1 e1 ctx2 t2 e2 len :
  (forall v ctx' t', runs s ctx1 t1 e1 v ctx' t' -> runs s ctx2 t2 e2 v ctx' t') ->
  turned ctx1 t1 e1 len -> turned ctx2 t2 e2 len.
Proof.
  intros Hl [(ctx' & t' & n & H1 & H2 & H3 & H4)|(T & HT & Hr)]; [left|right]; eauto 10.
Qed.

Lemma erase_fix_black ctx d c t p near o far v ctx' t' :
  runs s ctx (mk d c t p (mk d Black near o far)) (erase_black d p o) v ctx' t' ->
  runs s (Frame d c p (mk d Black near o far) :: ctx) t (erase_fix d p) v ctx' t'.
Proof.
  intros Hr. unfold erase_fix. step (child_opp_runs s Hs ctx d c t p (mk d Black near o far)). rewrite ptr_mk.
  step (is_red_runs s Hs (Frame (opp d) c p t :: ctx) d Black near o far). rewrite is_red_mk. cbn iota.
  eapply runs_bind; [by apply runs_ret|done|]. eapply runs_view; [exact Hr|view|done].
Qed.

Lemma erase_fix_red ctx d c t p a o b v ctx' t' :
  runs s (Frame d Black o b :: ctx) (mk d Red t p a) (erase_black d p (ptr a)) v ctx' t' ->
  runs s (Frame d c p (mk d Red a o b) :: ctx) t (erase_fix d p) v ctx' t'.
Proof.
  intros Hr. unfold erase_fix. step (child_opp_runs s Hs ctx d c t p (mk d Red a o b)). rewrite ptr_mk.
  step (is_red_runs s Hs (Frame (opp d) c p t :: ctx) d Red a o b). rewrite is_red_mk. cbn iota.
  eapply runs_bind; [|done|exact Hr]. step (set_black_runs s Hs (Frame (opp d) c p t :: ctx) d Red a o b).
  step (set_red_runs s Hs ctx d c t p (mk d Black a o b)).
  step (rotate_runs s Hs ctx d Red t p Black a o b).
  eapply runs_view; [apply (child_opp_runs s Hs (Frame d Black o b :: ctx) d Red t p a)|view|done].
Qed.

Lemma erase_fix_turned ctx d c p sib t n :
  rbt Black t n -> rbc (Frame d c p sib :: ctx) Black (S n) ->
  sib <> Leaf /\ turned (Frame d c p sib :: ctx) t (erase_fix d p) (S (length ctx)).
Proof.
  intros Ht Hc.
  assert (exists cs, rbt cs sib (S n) /\ rbc ctx c (level c (S n)) /\ (c = Red -> cs = Black)) as (cs & Hsib & Hc' & Hcs).
  { inversion Hc; subst; eexists; split_and!; try done; by intros. }
  split; [intros ->; inversion Hsib|]. clear Hc. destruct cs.
  - destruct c; [by specialize (Hcs eq_refl)|]. apply (rbt_red_inv d) in Hsib as (a & o & b & -> & Ha & Hb).
    apply (rbt_black_inv d) in Ha as (ca & cb & near & x & far & -> & Hn & Hf).
    eapply turned_lift; [intros v ctx' t'; apply erase_fix_red|]. rewrite ptr_mk.
    eapply erase_black_turned; [done..|by econstructor; eauto|by left].
  - apply (rbt_black_inv d) in Hsib as (ca & cb & near & x & far & -> & Hn & Hf).
    eapply turned_lift; [intros v ctx' t'; apply erase_fix_black|].
    eapply erase_black_turned; [done..|right; simpl; lia].
Qed.

Lemma erase_loop fuel ctx t n :
  short t n -> rbc ctx Black (S n) -> ((if is_red t then 1 else 2 + length ctx) <= fuel)%nat ->
  exists ctx' t', balanced (plug_all ctx' (black t')) /\
    runs s ctx t (iter fuel erase_turn (ptr t, up ctx)) (ptr t') ctx' t'.
Proof.
  revert ctx t n. induction fuel as [|fuel IH]; intros ctx t n Ht Hc Hf; [destruct (is_red t); lia|].
  destruct (is_red t) eqn:Er.
  - exists ctx, t. split; [eapply rbc_fill; [done|by apply short_red_black]|].
    apply runs_stop, erase_stop. by left.
  - pose proof (short_not_red _ _ Ht Er) as Ht'. destruct ctx as [|[d c p sib] ctx].
    { exists [], t. assert (balanced t) as Hb by (by exists n). split; [simpl; by rewrite black_balanced|].
      apply runs_stop, erase_stop. by right. }
    destruct (erase_fix_turned ctx d c p sib t n Ht' Hc) as [Hsib [(ctx' & t' & n' & Hsh & Hc' & Hlen & Hr)|(T & HT & Hr)]];
      apply erase_go in Hr; try done.
    + destruct (IH ctx' t' n' Hsh Hc') as (ctxf & tf & Hb & Hrf).
      { simpl in Hf. destruct (is_red t'); [lia|]. destruct Hlen; [done|lia]. }
      exists ctxf, tf. split; [done|]. by eapply runs_next.
    + exists [], T. split; [simpl; by rewrite black_balanced|]. by apply runs_stop.
Qed.

Lemma erase_color_runs ctx t n :
  short t n -> rbc ctx Black (S n) -> (length ctx <= length s)%nat ->
  exists T, balanced T /\ runs s ctx t (__rb_erase_color (ptr t) (up ctx)) tt [] T.
Proof.
  intros Ht Hc Hlen. destruct (erase_loop (2 + length s) ctx t n Ht Hc) as (ctx' & t' & Hb & Hr); [destruct (is_red t); lia|].
  exists (plug_all ctx' (black t')). split; [done|]. eapply runs_bind; [apply (runs_walk s Hs), Hr|done|].
  intros w Hat. rewrite (ptr_node s Hs _ _ _ Hat). revert w Hat. destruct t' as [|c l x r].
  - by apply (runs_ret s ctx' Leaf tt).
  - by eapply (runs_view s ctx'); [apply (set_black_runs s Hs ctx' L c l x r)|..].
Qed.
End wf.

(** * Taking a node out *)

(** The memory after the subtree [ch] takes the place of its parent. *)
Definition unlinked (w : world) (ctx : list frame) (ch : tree) : world :=
  set_hole (World (set_up (nodes w) (up ctx) ch) (rb_root w)) ctx (ptr ch).

Lemma unlinked_at s w ctx d c ch x :
  wf s -> at_pos s w ctx (mk d c ch x Leaf) ->
  at_pos (around ctx ch) (unlinked w ctx ch) ctx ch /\ same_out (around ctx ch) w (unlinked w ctx ch).
Proof.
  intros Hs Hat. pose proof (at_disjoint s Hs _ _ _ Hat) as (Hndc & Hnd & Hdis & _ & _).
  destruct Hat as (Hc & Hr & _). rewrite ptr_mk in Hc. apply rep_mk in Hr as (Hx & Hch & _).
  apply nodup_mk in Hnd as (Hnd & _). setoid_rewrite elem_of_mk in Hdis.
  assert (forall q, q ∈ inorder ch -> q ∉ ctx_nodes ctx) as Hd by (intros q Hq; apply Hdis; auto).
  unfold unlinked. set (h := set_up (nodes w) (up ctx) ch).
  assert (rep_ctx h (rb_root w) ctx x) as Hc1.
  { eapply rep_ctx_frame; [|exact Hc]. intros q Hq. apply set_up_ne. intros Hi. by apply (Hd q). }
  split; [split_and!|].
  - by apply (rep_set_hole (World h (rb_root w)) ctx x).
  - eapply rep_frame; [|by apply (rep_set_up (nodes w) x (up ctx) ch)]. intros q Hq. apply set_hole_ne. by apply Hd.
  - done.
  - intros q Hq. rewrite elem_of_around in Hq. rewrite set_hole_ne by tauto. apply set_up_ne. tauto.
Qed.

Lemma erase_one_run s w ctx d c ch x :
  wf s -> at_pos s w ctx (mk d c ch x Leaf) ->
  erase_one x (ptr ch) w = Some ((ptr ch, up ctx, bit c), unlinked w ctx ch).
Proof.
  intros Hs Hat. pose proof (at_disjoint s Hs _ _ _ Hat) as (_ & Hnd & Hdis & Hat' & Hac).
  pose proof (at_node s Hs _ _ _ _ _ _ _ Hat) as (Hx & HP & [Hx0 HxW]). destruct Hat as (Hc & Hr & _).
  rewrite ptr_mk in Hc. apply rep_mk in Hr as (_ & Hch & _). setoid_rewrite elem_of_mk in Hdis. setoid_rewrite elem_of_mk in Hat'.
  unfold erase_one. erewrite bind_run; [|eapply parent_run; [exact Hx|apply pc_mkn|done]].
  erewrite bind_run; [|eapply color_run; [exact Hx|apply pc_mkn|done]].
  erewrite bind_run; [|apply (set_up_run w x (up ctx) ch); try done; intros; apply Hat'; auto].
  erewrite bind_run; [done|]. apply relink_run; [|done|apply Hdis; auto|lia].
  eapply rep_ctx_frame; [|exact Hc]. intros q Hq. apply set_up_ne. intros Hi. apply (Hdis q); auto.
Qed.

(** * The end of a chain of children *)

Lemma chain d t : t <> Leaf -> exists pth c x b, t = plug_all pth (mk d c Leaf x b) /\ Forall (fun f => fside f = d) pth.
Proof.
  induction t as [|c l IHl x r IHr]; [done|]. intros _.
  assert (exists a b, Node c l x r = mk d c a x b /\
    (a <> Leaf -> exists pth c x b, a = plug_all pth (mk d c Leaf x b) /\ Forall (fun f => fside f = d) pth)) as (a & b & -> & IH)
    by (destruct d; eauto).
  destruct a as [|ca la xa ra] eqn:Ea; [by exists [], c, x, b|]. rewrite <- Ea in *.
  destruct IH as (pth & c' & x' & b' & -> & Hp); [by subst|].
  exists (pth ++ [Frame d c x b]), c', x', b'. rewrite plug_all_app. split; [done|]. apply Forall_app. auto.
Qed.

Lemma plug_all_ne pth t : t <> Leaf -> plug_all pth t <> Leaf.
Proof. revert t. induction pth as [|[[] c x sib] pth IH]; intros t Ht; [done|by apply IH..]. Qed.

Section wf.
Context (s : list Z) (Hs : wf s).

Lemma descend_loop d pth c x b ctx fuel :
  Forall (fun f => fside f = d) pth -> (length pth < fuel)%nat ->
  runs s ctx (plug_all pth (mk d c Leaf x b))
    (iter fuel (fun n => c ← child d n; mret (if negb (c =? 0) then Next c else Ret n)) (ptr (plug_all pth (mk d c Leaf x b))))
    x (pth ++ ctx) (mk d c Leaf x b).
Proof.
  revert ctx fuel. induction pth as [|[d' c' y sib] pth IH] using rev_ind; intros ctx fuel Hp Hf;
    (destruct fuel as [|fuel]; [simpl in Hf; lia|]).
  - cbn [plug_all fold_left]. rewrite ptr_mk. apply runs_stop.
    step (child_runs s Hs ctx d c Leaf x b). by apply runs_ret.
  - apply Forall_app in Hp as [Hp Hd]. rewrite Forall_singleton in Hd. simpl in Hd. subst d'. rewrite length_app in Hf. simpl in Hf.
    rewrite plug_all_app, <- app_assoc. set (t := plug_all pth (mk d c Leaf x b)) in *.
    change (plug_all [Frame d c' y sib] t) with (mk d c' t y sib). rewrite ptr_mk.
    eapply runs_next; [|apply (IH (Frame d c' y sib :: ctx) fuel Hp); lia].
    step (child_runs s Hs ctx d c' t y sib).
    eapply (runs_know s _ (Frame d c' y sib :: ctx) t); [intros w; apply (ptr_node s Hs)|done|]. intros ->.
    pose proof (plug_all_ne pth (mk d c Leaf x b) ltac:(by destruct d)) as Ht. fold t in Ht.
    destruct t; [done|]. by apply runs_ret.
Qed.

Lemma descend_runs d pth c x b ctx :
  Forall (fun f => fside f = d) pth ->
  runs s ctx (plug_all pth (mk d c Leaf x b)) (descend d (ptr (plug_all pth (mk d c Leaf x b)))) x
    (pth ++ ctx) (mk d c Leaf x b).
Proof.
  intros Hp. eapply (runs_know s _ (pth ++ ctx) (mk d c Leaf x b)); [intros w; apply (at_length s Hs)|by rewrite plug_all_app|].
  intros Hlen. rewrite length_app in Hlen. apply (runs_walk s Hs), descend_loop; [done|lia].
Qed.
End wf.

(** The walk down a chain only reads. *)
Lemma descend_at s (Hs : wf s) d pth c x b ctx w :
  Forall (fun f => fside f = d) pth -> at_pos s w ctx (plug_all pth (mk d c Leaf x b)) ->
  descend d (ptr (plug_all pth (mk d c Leaf x b))) w = Some (x, w).
Proof.
  intros Hp Hat. destruct (descend_runs s Hs d pth c x b ctx Hp w Hat) as (w' & E & _).
  by rewrite (readonly_descend _ _ _ _ _ E) in E.
Qed.

(** * A node with two children *)

Lemma around_perm ctx t : around ctx t ≡ₚ inorder t ++ ctx_nodes ctx.
Proof. unfold around, ctx_nodes. solve_Permutation. Qed.

Lemma plug_all_perm pth t : inorder (plug_all pth t) ≡ₚ inorder t ++ ctx_nodes pth.
Proof. rewrite <- around_plug_all. apply around_perm. Qed.

(** The nodes at hand: [x] goes, and [y], the first node of its right subtree, takes its place. *)
Lemma two_disjoint s w ctx c l x pth cy y ry :
  wf s -> at_pos s w ctx (Node c l x (plug_all pth (Node cy Leaf y ry))) ->
  let r' := plug_all pth ry in
  NoDup (ctx_nodes ctx) /\ NoDup (inorder l) /\ NoDup (inorder r') /\
  x <> y /\ (x ∉ inorder l) /\ (x ∉ inorder r') /\ (x ∉ ctx_nodes ctx) /\
  (y ∉ inorder l) /\ (y ∉ inorder r') /\ (y ∉ ctx_nodes ctx) /\
  (forall q, q ∈ inorder l -> (q ∉ inorder r') /\ (q ∉ ctx_nodes ctx)) /\
  (forall q, q ∈ inorder r' -> q ∉ ctx_nodes ctx) /\
  addr x /\ addr y /\ (forall q, q ∈ inorder l \/ (q ∈ inorder r') \/ (q ∈ ctx_nodes ctx) -> addr q).
Proof.
  intros [Hnd Ha] (_ & _ & Har) r'.
  assert (s ≡ₚ x :: y :: inorder l ++ inorder r' ++ ctx_nodes ctx) as Hp.
  { rewrite <- Har, around_perm. unfold r'. simpl. rewrite !plug_all_perm. simpl. solve_Permutation. }
  rewrite Hp in Hnd. rewrite Hp in Ha. clear Hp Har. generalize dependent (ctx_nodes ctx). intros cn Hnd Ha.
  rewrite !Forall_cons, !Forall_app in Ha. rewrite !Forall_forall in Ha.
  rewrite !NoDup_cons, !NoDup_app, !not_elem_of_cons, !not_elem_of_app in Hnd. setoid_rewrite not_elem_of_app in Hnd.
  destruct Hnd as ((Hxy & Hxl & Hxr & Hxc) & (Hyl & Hyr & Hyc) & Hl & Hld & Hr & Hrd & Hc).
  destruct Ha as (Hax & Hay & Hal & Har' & Hac). split_and!; try done. intros q [?|[?|?]]; auto.
Qed.

Lemma take_over_run w x y pc pc' l rx ry ly :
  nodes w !! x = Some (RbNode pc rx (ptr l)) -> nodes w !! y = Some (RbNode pc' ry ly) -> rep (nodes w) x l ->
  l <> Leaf -> x <> y -> (x ∉ inorder l) -> (y ∉ inorder l) -> word x -> word y -> (forall q, q ∈ inorder l -> addr q) ->
  take_over x y w = Some (tt, World (set_up (<[y := RbNode pc ry (ptr l)]> (nodes w)) y l) (rb_root w)).
Proof.
  intros Hx Hy Hrl Hl Hxy Hxl Hyl HxW HyW Ha. unfold take_over. rewrite (bind_run _ _ _ _ _ (load_run _ _ _ Hx)).
  rewrite (bind_run _ _ _ _ _ (store_run _ _ _ _ Hy)). unfold put_pc. cbn [rb_parent_color rb_right rb_left].
  erewrite bind_run; [|apply child_run; cbn [nodes]; rewrite lookup_insert_ne by done; exact Hx]. cbn [get_child rb_left].
  erewrite bind_run; [|apply store_run; cbn [nodes]; apply lookup_insert_eq]. cbn [nodes rb_root put_child rb_parent_color rb_right].
  rewrite insert_insert_eq.
  erewrite bind_run; [|apply child_run; cbn [nodes]; rewrite lookup_insert_ne by done; exact Hx]. cbn [get_child rb_left].
  set (v := World (<[y := _]> (nodes w)) (rb_root w)).
  assert (rep (nodes v) x l) as Hrl' by (eapply rep_frame; [|exact Hrl]; intros q Hq; apply lookup_insert_ne; by intros ->).
  etransitivity; [|by apply (set_up_run v x y l)]. destruct l as [|cl ll lx lr]; [done|].
  destruct (Ha lx) as [? _]; [simpl; set_solver|]. cbn [ptr]. by rewrite (proj2 (Z.eqb_neq lx 0)) by lia.
Qed.

(** When [y] is the right child of [x]. *)
Lemma erase_two_child s w ctx c l x cy y ry :
  wf s -> l <> Leaf -> at_pos s w ctx (Node c l x (Node cy Leaf y ry)) ->
  exists w', erase_two x w = Some ((ptr ry, y, bit cy), w') /\
    at_pos (around ctx (Node c l y ry)) w' ctx (Node c l y ry) /\ same_out (around ctx (Node c l y ry)) w w'.
Proof.
  intros Hs Hl Hat. pose proof (wf_up s Hs _ _ _ Hat) as HP.
  pose proof (two_disjoint s w ctx c l x [] cy y ry Hs Hat) as
    (Hndc & Hndl & _ & Hxy & Hxl & _ & Hxc & Hyl & Hyr & Hyc & Hld & Hrd & [Hx0 HxW] & [Hy0 HyW] & Ha).
  pose proof (descend_at s Hs L [] cy y ry (Frame R c x l :: ctx) w (Forall_nil_2 _)
    (proj2 (at_plug s w (Frame R c x l) ctx (Node cy Leaf y ry)) Hat)) as Ed.
  destruct Hat as (Hc & (Hx & Hrl & Hy & _ & Hry) & Har). simpl in Hc, Hy, Hyr, Hld, Hrd, Ha.
  unfold erase_two. rewrite (bind_run _ _ _ _ _ (child_run R x w _ Hx)). simpl get_child.
  rewrite (bind_run _ _ _ _ _ Ed).
  erewrite bind_run; [|by eapply parent_run; [exact Hx|..]].
  erewrite bind_run; [|apply (relink_run L w ctx x y); [done|intros; apply Ha; auto|done|lia]].
  set (w1 := set_hole w ctx y).
  assert (forall q, q ∉ ctx_nodes ctx -> nodes w1 !! q = nodes w !! q) as H1 by (intros; by apply set_hole_ne).
  assert (nodes w1 !! y = Some (RbNode (pack x cy) (ptr ry) 0)) as Hy1 by (by rewrite H1).
  assert (nodes w1 !! x = Some (RbNode (pack (up ctx) c) y (ptr l))) as Hx1 by (by rewrite H1).
  assert (rep (nodes w1) x l) as Hrl1 by (eapply rep_frame; [|exact Hrl]; intros q Hq; apply H1, Hld, Hq).
  rewrite (bind_run _ _ _ _ _ (child_run R y w1 _ Hy1)). simpl get_child.
  erewrite bind_run; [|by eapply parent_run; [exact Hy1|..]].
  erewrite bind_run; [|by eapply color_run; [exact Hy1|..]]. rewrite Z.eqb_refl.
  erewrite bind_run; [|done].
  erewrite bind_run; [|by eapply (take_over_run w1 x y); eauto]. eexists. split; [done|].
  assert (forall q, (q ∉ inorder l) -> q <> y -> (q ∉ ctx_nodes ctx) ->
    set_up (<[y := RbNode (pack (up ctx) c) (ptr ry) (ptr l)]> (nodes w1)) y l !! q = nodes w !! q) as H2.
  { intros q Hql Hqy Hqc. by rewrite set_up_ne, lookup_insert_ne, H1. }
  split; [split_and!|].
  - eapply rep_ctx_frame; [|exact (rep_set_hole w ctx x y Hndc Hc)]. intros q Hq. cbn [nodes].
    rewrite set_up_ne, lookup_insert_ne; [done|by intros ->|]. intros Hql. by destruct (Hld q Hql).
  - simpl. split_and!.
    + rewrite set_up_ne by done. apply lookup_insert_eq.
    + eapply rep_set_up; [done|]. eapply rep_frame; [|exact Hrl1]. intros q Hq. apply lookup_insert_ne. by intros ->.
    + eapply rep_frame; [|exact Hry]. intros q Hq. apply H2; [|by intros ->|by apply Hrd]. intros Hql. by destruct (Hld q Hql).
  - done.
  - intros q Hq. rewrite elem_of_around in Hq. simpl in Hq. rewrite elem_of_app, elem_of_cons in Hq. apply H2; tauto.
Qed.

(** When [y] is deeper: first it is taken out, below its parent [q]. *)
Lemma set_up_agree h h' p t k : h !! k = h' !! k -> set_up h p t !! k = set_up h' p t !! k.
Proof.
  intros H. destruct t as [|c l x r]; [done|]. simpl. destruct (decide (k = x)) as [->|Hne]; [by rewrite !lookup_insert_eq|].
  by rewrite !lookup_insert_ne.
Qed.

Definition spliced (w : world) (ctx : list frame) (y : Z) (pth : list frame) (ry : tree) : gmap Z rb_node :=
  nodes (set_hole (World (set_up (nodes (set_hole w ctx y)) (up pth) ry) (rb_root w)) pth (ptr ry)).

Lemma ptr_plug_all f pth t t' : ptr (plug_all (f :: pth) t) = ptr (plug_all (f :: pth) t').
Proof.
  revert f t t'. induction pth as [|f' pth IH]; intros f t t'; [|apply IH]. destruct f as [d c x sib]. by destruct d.
Qed.

Lemma spliced_spec s w ctx c l x f pth cy y ry :
  wf s -> at_pos s w ctx (Node c l x (plug_all (f :: pth) (Node cy Leaf y ry))) ->
  let r' := plug_all (f :: pth) ry in
  let h := spliced w ctx y ((f :: pth) ++ Frame R c x l :: ctx) ry in
  rep_ctx h (rb_root (set_hole w ctx y)) ctx y /\ h !! x = Some (RbNode (pack (up ctx) c) (ptr r') (ptr l)) /\
  h !! y = Some (RbNode (pack (faddr f) cy) (ptr ry) 0) /\ rep h x l /\ rep h x r' /\
  (forall k, (k ∉ inorder r') -> (k ∉ ctx_nodes ctx) -> h !! k = nodes w !! k).
Proof.
  intros Hs Hat r' h. set (P := (f :: pth) ++ Frame R c x l :: ctx) in *.
  pose proof (two_disjoint _ _ _ _ _ _ _ _ _ _ Hs Hat) as (Hndc & _ & _ & Hxy & _ & Hxr & Hxc & _ & Hyr & Hyc & Hld & Hrd & _).
  fold r' in Hxr, Hyr, Hld, Hrd.
  assert (at_pos s w P (mk R cy ry y Leaf)) as HatP.
  { unfold P. rewrite at_plug_all, plug_all_app. rewrite at_plug_all in Hat. exact Hat. }
  destruct (unlinked_at _ _ _ _ _ _ _ Hs HatP) as [Hu Hou]. set (u := unlinked w P ry) in *.
  assert (forall k, k ∉ ctx_nodes ctx -> h !! k = nodes u !! k) as HA.
  { intros k Hk. unfold h, u, spliced, unlinked, P. destruct f as [d cq q sq]. simpl.
    destruct (decide (k = q)) as [->|Hne]; [by rewrite !lookup_insert_eq|]. rewrite !lookup_insert_ne by done.
    apply set_up_agree. by apply set_hole_ne. }
  assert (forall k, k ∉ inorder r' -> h !! k = nodes (set_hole w ctx y) !! k) as HB.
  { intros k Hk. unfold r' in Hk. rewrite plug_all_perm in Hk. unfold h, spliced, P. destruct f as [d cq q sq]. simpl.
    rewrite lookup_insert_ne, set_up_ne; [done| |intros ->]; [set_solver|]. apply Hk. rewrite elem_of_app, elem_of_frame. auto. }
  assert (at_pos (around P ry) u ctx (Node c l x r')) as (_ & (Hx & Hl & Hr) & _).
  { unfold P in Hu at 2. rewrite at_plug_all, plug_all_app in Hu. by rewrite at_plug_all. }
  split_and!.
  - destruct Hat as (Hc & _ & _). eapply rep_ctx_frame; [|exact (rep_set_hole w ctx x y Hndc Hc)].
    intros k Hk. apply HB. intros Hi. by apply (Hrd k).
  - by rewrite HA.
  - rewrite HB, set_hole_ne by done. destruct HatP as (_ & Hr0 & _). by apply rep_mk in Hr0 as (? & _).
  - eapply rep_frame; [|exact Hl]. intros k Hk. apply HA, Hld, Hk.
  - eapply rep_frame; [|exact Hr]. intros k Hk. apply HA, Hrd, Hk.
  - intros k Hk Hkc. by rewrite HB, set_hole_ne.
Qed.

(** Then it takes the place of [x]. *)
Definition moved (w : world) ctx c l x y pth cy ry : world :=
  let r' := plug_all pth ry in
  let h := spliced w ctx y (pth ++ Frame R c x l :: ctx) ry in
  World (set_up (<[y := RbNode (pack (up ctx) c) (ptr r') (ptr l)]>
    (set_up (<[y := RbNode (pack (up pth) cy) (ptr r') 0]> h) y r')) y l) (rb_root (set_hole w ctx y)).

Lemma moved_spec s w ctx c l x f pth cy y ry :
  wf s -> at_pos s w ctx (Node c l x (plug_all (f :: pth) (Node cy Leaf y ry))) ->
  let t' := Node c l y (plug_all (f :: pth) ry) in let w' := moved w ctx c l x y (f :: pth) cy ry in
  at_pos (around ctx t') w' ctx t' /\ same_out (around ctx t') w w'.
Proof.
  intros Hs Hat t' w'. pose proof (spliced_spec _ _ _ _ _ _ _ _ _ _ _ Hs Hat) as (Hc & _ & _ & Hl & Hr & Ho).
  pose proof (two_disjoint _ _ _ _ _ _ _ _ _ _ Hs Hat) as (_ & Hndl & Hndr & _ & _ & _ & _ & Hyl & Hyr & Hyc & Hld & Hrd & _).
  unfold w', moved, t'. set (r' := plug_all (f :: pth) ry) in *. set (h := spliced _ _ _ _ _) in *.
  set (h4 := <[y := RbNode (pack (up (f :: pth)) cy) _ _]> h).
  assert (forall k, k <> y -> (k ∉ inorder r') -> (k ∉ inorder l) ->
    set_up (<[y := RbNode (pack (up ctx) c) (ptr r') (ptr l)]> (set_up h4 y r')) y l !! k = h !! k) as H.
  { intros k Hky Hkr Hkl. unfold h4. by rewrite set_up_ne, lookup_insert_ne, set_up_ne, lookup_insert_ne. }
  split; [split_and!|].
  - eapply rep_ctx_frame; [|exact Hc]. intros k Hk. cbn [nodes]. apply H; [by intros ->| |]; intros Hi.
    + by apply (Hrd k).
    + by destruct (Hld k Hi).
  - simpl. split_and!.
    + rewrite set_up_ne by done. apply lookup_insert_eq.
    + eapply (rep_set_up _ x); [done|]. eapply rep_frame; [|exact Hl]. intros k Hk. destruct (Hld k Hk).
      unfold h4. rewrite lookup_insert_ne, set_up_ne, lookup_insert_ne; try done; by intros ->.
    + eapply rep_frame; [|apply (rep_set_up h4 x y r' Hndr)].
      * intros k Hk. rewrite set_up_ne, lookup_insert_ne; [done|by intros ->|]. intros Hi. by destruct (Hld k Hi).
      * eapply rep_frame; [|exact Hr]. intros k Hk. apply lookup_insert_ne. by intros ->.
  - done.
  - intros k Hk. rewrite elem_of_around in Hk. simpl in Hk. rewrite elem_of_app, elem_of_cons in Hk. cbn [nodes].
    rewrite H by tauto. apply Ho; tauto.
Qed.

Lemma plug_all_top d c q sq pth t :
  NoDup (inorder (plug_all (Frame d c q sq :: pth) t)) ->
  (q ∈ inorder (plug_all (Frame d c q sq :: pth) t)) /\ (q ∉ inorder t) /\
  forall k, k ∈ inorder t -> k ∈ inorder (plug_all (Frame d c q sq :: pth) t).
Proof.
  rewrite plug_all_perm. setoid_rewrite plug_all_perm. rewrite NoDup_app. intros (_ & Hd & _).
  assert (q ∈ ctx_nodes (Frame d c q sq :: pth)) as Hq by (apply elem_of_frame; auto).
  split_and!; [apply elem_of_app; auto|intros Hi; by apply (Hd q)|intros k Hk; apply elem_of_app; auto].
Qed.

(** The pointer of a subtree that is not empty. *)
Lemma set_up_run_ne w p q t :
  rep (nodes w) p t -> word p -> word q -> (forall x, x ∈ inorder t -> addr x) -> t <> Leaf ->
  rb_set_parent (ptr t) q w = Some (tt, World (set_up (nodes w) q t) (rb_root w)).
Proof.
  intros Hr Hp Hq Ha Ht. rewrite <- (set_up_run w p q t Hr Hp Hq Ha). destruct t as [|c l x r]; [done|].
  destruct (Ha x) as [? _]; [simpl; set_solver|]. cbn [ptr]. by rewrite (proj2 (Z.eqb_neq x 0)) by lia.
Qed.

Lemma splice_run w ctx c l x q cq sq pth cy y ry :
  let f := Frame L cq q sq in let P := (f :: pth) ++ Frame R c x l :: ctx in
  let r' := plug_all (f :: pth) ry in let w1 := set_hole w ctx y in let h := spliced w ctx y P ry in
  nodes w1 !! q = Some (mkn L (pack (up (pth ++ Frame R c x l :: ctx)) cq) y (ptr sq)) -> rep (nodes w1) y ry ->
  h !! x = Some (RbNode (pack (up ctx) c) (ptr r') (ptr l)) -> h !! y = Some (RbNode (pack q cy) (ptr ry) 0) ->
  rep h x r' -> x <> y -> (y ∉ inorder r') -> (q ∉ inorder ry) -> addr x -> addr y -> addr q ->
  (forall k, k ∈ inorder r' -> addr k) -> (forall k, k ∈ inorder ry -> addr k) ->
  splice x y q (ptr ry) w1 = Some (tt, World (set_up (<[y := RbNode (pack q cy) (ptr r') 0]> h) y r') (rb_root w1)).
Proof.
  intros f P r' w1 h Hq Hry Hx Hy Hr Hxy Hyr Hqr [Hx0 HxW] [Hy0 HyW] [Hq0 HqW] Ha Ha'. unfold splice.
  erewrite bind_run; [|by apply (set_up_run w1 y q ry); auto].
  erewrite bind_run; [|eapply (set_child_run q (World _ _) L); cbn [nodes]; rewrite set_up_ne by done; exact Hq].
  cbn [nodes rb_root]. change (<[q:=_]> (set_up (nodes w1) q ry)) with h.
  erewrite bind_run; [|by apply (child_run R x (World h _) _ Hx)].
  erewrite bind_run; [|by apply (set_child_run y (World h _) R _ _ _ _ Hy)]. cbn [get_child rb_right mkn nodes rb_root].
  erewrite bind_run; [|by apply child_run; cbn [nodes]; rewrite lookup_insert_ne, Hx by done]. cbn [get_child rb_right].
  apply (set_up_run_ne (World _ (rb_root w1)) x y r'); try done.
  - eapply rep_frame; [|exact Hr]. intros k Hk. apply lookup_insert_ne. by intros ->.
  - intros Hl. unfold r' in Hl. simpl in Hl. by apply (plug_all_ne pth (plug f ry)) in Hl.
Qed.

Lemma erase_two_deep s w ctx c l x q cq sq pth cy y ry :
  wf s -> l <> Leaf -> Forall (fun f => fside f = L) pth ->
  at_pos s w ctx (Node c l x (plug_all (Frame L cq q sq :: pth) (Node cy Leaf y ry))) ->
  erase_two x w = Some ((ptr ry, q, bit cy), moved w ctx c l x y (Frame L cq q sq :: pth) cy ry).
Proof.
  intros Hs Hl Hp Hat. set (f := Frame L cq q sq) in *. pose proof (wf_up s Hs _ _ _ Hat) as HP.
  pose proof (spliced_spec _ _ _ _ _ _ _ _ _ _ _ Hs Hat) as (_ & Hx3 & Hy3 & Hl3 & Hr3 & _).
  pose proof (two_disjoint _ _ _ _ _ _ _ _ _ _ Hs Hat) as
    (_ & _ & Hndr & Hxy & Hxl & Hxr & Hxc & Hyl & Hyr & Hyc & Hld & Hrd & [Hx0 HxW] & [Hy0 HyW] & Ha).
  pose proof (descend_at s Hs L (f :: pth) cy y ry (Frame R c x l :: ctx) w ltac:(by constructor)
    (proj2 (at_plug s w (Frame R c x l) ctx (plug_all (f :: pth) (Node cy Leaf y ry))) Hat)) as Ed.
  assert (at_pos s w (f :: pth ++ Frame R c x l :: ctx) (mk R cy ry y Leaf)) as HatP.
  { rewrite app_comm_cons, at_plug_all, plug_all_app. rewrite at_plug_all in Hat. exact Hat. }
  destruct HatP as ((Hq & _ & _) & Hry & _). apply rep_mk in Hry as (Hy & Hry & _). cbn [up f faddr ptr mk] in Hq, Hy, Hry.
  destruct Hat as (Hc & (Hx & _ & _) & _). simpl in Hc.
  destruct (plug_all_top L cq q sq pth ry Hndr) as (Hqr & Hqry & Hryr).
  unfold erase_two. rewrite (bind_run _ _ _ _ _ (child_run R x w _ Hx)). cbn [get_child rb_right].
  change (Node cy Leaf y ry) with (mk L cy Leaf y ry). rewrite (bind_run _ _ _ _ _ Ed).
  erewrite bind_run; [|by eapply parent_run; [exact Hx|..]].
  erewrite bind_run; [|apply (relink_run L w ctx x y); [done|intros; apply Ha; auto|done|lia]].
  set (w1 := set_hole w ctx y).
  assert (forall k, k ∉ ctx_nodes ctx -> nodes w1 !! k = nodes w !! k) as H1 by (intros; by apply set_hole_ne).
  assert (nodes w1 !! y = Some (RbNode (pack q cy) (ptr ry) 0)) as Hy1 by (by rewrite H1).
  destruct (Ha q) as [Hq0 HqW]; [auto|]. assert (q <> x) as Hqx by (by intros ->).
  rewrite (bind_run _ _ _ _ _ (child_run R y w1 _ Hy1)). cbn [get_child rb_right].
  erewrite bind_run; [|by eapply parent_run; [exact Hy1|..]].
  erewrite bind_run; [|by eapply color_run; [exact Hy1|..]]. rewrite (proj2 (Z.eqb_neq q x) Hqx).
  erewrite bind_run.
  2:{ erewrite bind_run; [reflexivity|]. apply splice_run; try done.
      - rewrite H1; [exact Hq|by apply Hrd].
      - eapply rep_frame; [|exact Hry]. intros k Hk. by apply H1, Hrd, Hryr.
      - intros k Hk. apply Ha. auto.
      - intros k Hk. apply Ha. auto. }
  cbn beta. set (r' := plug_all (f :: pth) ry) in *. set (h := spliced _ _ _ _ _) in *.
  assert (forall h', (forall k, (k ∉ inorder r') -> k <> y -> h' !! k = h !! k) -> rep h' x l) as Hkeep.
  { intros h' Hh. eapply rep_frame; [|exact Hl3]. intros k Hk. destruct (Hld k Hk). apply Hh; [done|by intros ->]. }
  erewrite bind_run; [reflexivity|]. eapply (take_over_run (World _ (rb_root w1)) x y); try done; cbn [nodes].
  - rewrite set_up_ne, lookup_insert_ne by done. exact Hx3.
  - rewrite set_up_ne by done. apply lookup_insert_eq.
  - apply Hkeep. intros k Hk Hky. by rewrite set_up_ne, lookup_insert_ne.
  - auto.
Qed.

(** * rb_erase *)

(** The two cases as one: the position of the child that takes the place of [y]. *)
Lemma erase_two_spec s w ctx c l x pth cy y ry :
  wf s -> l <> Leaf -> Forall (fun f => fside f = L) pth ->
  at_pos s w ctx (Node c l x (plug_all pth (Node cy Leaf y ry))) ->
  let ctx' := pth ++ Frame R c y l :: ctx in
  exists w', erase_two x w = Some ((ptr ry, up ctx', bit cy), w') /\
    at_pos (around ctx' ry) w' ctx' ry /\ same_out (around ctx' ry) w w'.
Proof.
  intros Hs Hl Hp Hat ctx'.
  assert (around ctx (Node c l y (plug_all pth ry)) = around ctx' ry) as Har
    by (unfold ctx'; by rewrite !around_plug_all, plug_all_app).
  assert (forall w', at_pos (around ctx (Node c l y (plug_all pth ry))) w' ctx (Node c l y (plug_all pth ry)) <->
    at_pos (around ctx' ry) w' ctx' ry) as Hpos.
  { intros w'. rewrite Har. unfold ctx'. rewrite at_plug_all, (at_plug_all _ _ (_ ++ _)), plug_all_app. done. }
  destruct pth as [|[d cq q sq] pth].
  - destruct (erase_two_child s w ctx c l x cy y ry Hs Hl Hat) as (w' & E & Hat' & Ho).
    exists w'. rewrite <- Hpos, <- Har. done.
  - apply Forall_cons in Hp as [Hd Hp]. simpl in Hd. subst d. eexists. split; [by apply (erase_two_deep s)|].
    destruct (moved_spec _ _ _ _ _ _ _ _ _ _ _ Hs Hat) as [Hat' Ho]. rewrite <- Hpos, <- Har. done.
Qed.

Lemma short_any c t n : rbt c t n -> short t n.
Proof. intros H. destruct c; [|by constructor]. inversion H; subst. by eapply short_red. Qed.

Lemma rbc_rename d c x y sib pth ctx c' n :
  rbc (pth ++ Frame d c x sib :: ctx) c' n -> rbc (pth ++ Frame d c y sib :: ctx) c' n.
Proof.
  revert c' n. induction pth as [|f pth IH]; intros c' n; simpl; inversion 1; subst; econstructor; eauto.
Qed.

(** The node that is gone was black or red. *)
Lemma erase_finish (e : M (Z * Z * Z)) s w w1 ctx d c y ch n :
  wf s -> e w = Some ((ptr ch, up ctx, bit c), w1) -> at_pos s w1 ctx ch -> same_out s w w1 ->
  rbc ctx c n -> rbt c (mk d c ch y Leaf) n ->
  exists w', ('(ch, parent, color) ← e; if color =? RB_BLACK then __rb_erase_color ch parent else mret tt) w = Some (tt, w') /\
    rb_tree s w' /\ same_out s w w'.
Proof.
  intros Hs He Hat Ho1 Hc Ht. rewrite (bind_run _ _ _ _ _ He).
  assert (exists cc m, rbt cc ch m /\ n = level c m /\ (c = Red -> cc = Black)) as (cc & m & Hch & -> & Hcc)
    by (destruct d; inversion Ht; subst; eexists _, _; split_and!; by eauto).
  destruct c; simpl in Hc; simpl bit; cbn [Z.eqb].
  - exists w1. split; [done|]. split; [|done]. split; [done|]. exists (plug_all ctx ch).
    rewrite <- at_plug_all. split; [done|]. eapply rbc_fill; [by eapply rbc_any|]. by rewrite <- Hcc.
  - destruct (erase_color_runs s Hs ctx ch m) as (T & HT & Hr'); [by eapply short_any|done|by eapply at_length|].
    destruct (Hr' w1 Hat) as (w' & E & Hat' & Ho). exists w'. split; [exact E|].
    split; [split; [done|by exists T]|by eapply same_out_trans].
Qed.

Lemma before_left pth : Forall (fun f => fside f = L) pth -> before pth = [].
Proof. induction 1 as [|[d c x sib] pth Hd Hp IH]; [done|]. simpl in Hd. by subst. Qed.

Lemma wf_sub pre x post : wf (pre ++ x :: post) -> wf (pre ++ post).
Proof.
  intros [Hnd Ha]. assert (pre ++ x :: post ≡ₚ x :: pre ++ post) as Hp by solve_Permutation. split.
  - rewrite Hp, NoDup_cons in Hnd. tauto.
  - rewrite Hp, Forall_cons in Ha. tauto.
Qed.

(** The sequence loses [x] only. *)
Lemma two_order pth cy y ry :
  Forall (fun f => fside f = L) pth -> inorder (plug_all pth (Node cy Leaf y ry)) = y :: inorder (plug_all pth ry).
Proof. intros Hp. rewrite <- !around_plug_all. unfold around. by rewrite (before_left _ Hp). Qed.

Lemma around_two pth c l y ry ctx :
  Forall (fun f => fside f = L) pth ->
  around (pth ++ Frame R c y l :: ctx) ry = (before ctx ++ inorder l) ++ (y :: inorder (plug_all pth ry)) ++ after ctx.
Proof.
  intros Hp. rewrite around_plug_all, plug_all_app. change (Frame R c y l :: ctx) with ([Frame R c y l] ++ ctx).
  rewrite plug_all_app, <- around_plug_all. unfold around. simpl. by rewrite <- !app_assoc.
Qed.

Lemma erase_spec pre x post w :
  rb_tree (pre ++ x :: post) w ->
  exists w', rb_erase x w = Some (tt, w') /\ rb_tree (pre ++ post) w' /\ same_out (pre ++ post) w w'.
Proof.
  intros Hw. pose proof Hw as [Hs _]. pose proof (wf_sub _ _ _ Hs) as Hs'.
  apply rb_locate in Hw as (ctx & c & l & r & Hat & Hb & -> & ->).
  apply rbc_split in Hb as (c0 & n & Hc & Ht). assert (c0 = c) as -> by (apply rbt_color in Ht; by destruct c).
  pose proof (child_ptr w ctx _ L c l x r Hat) as [EL ER]. cbn [opp] in ER. unfold rb_erase.
  rewrite (bind_run _ _ _ _ _ EL), (bind_run _ _ _ _ _ ER).
  rewrite (ptr_node _ Hs w (Frame L c x r :: ctx) l) by (by apply at_plug).
  rewrite (ptr_node _ Hs w (Frame R c x l :: ctx) r) by (by apply at_plug).
  destruct l as [|cl ll lx lr] eqn:El; [|destruct r as [|cr rl rx rr] eqn:Er].
  - destruct (unlinked_at _ w ctx R c r x Hs Hat) as [Hu Ho]. unfold around in Hu, Ho. simpl in *. rewrite app_nil_r in *.
    eapply (erase_finish _ _ _ _ ctx R c x r n); try done. by apply (erase_one_run _ w ctx R c r x Hs).
  - rewrite <- El in *. destruct (unlinked_at _ w ctx L c l x Hs Hat) as [Hu Ho]. unfold around in Hu, Ho. rewrite <- app_assoc in *.
    eapply (erase_finish _ _ _ _ ctx L c x l n); try done. by apply (erase_one_run _ w ctx L c l x Hs).
  - rewrite <- El in *. assert (l <> Leaf) as Hl by (by subst).
    destruct (chain L (Node cr rl rx rr)) as (pth & cy & y & ry & Hr & Hp); [done|]. cbn [mk] in Hr. rewrite Hr in *.
    destruct (erase_two_spec _ w ctx c l x pth cy y ry Hs Hl Hp Hat) as (w1 & E & Hat1 & Ho1).
    pose proof (rbc_fill _ _ _ _ Hc Ht) as Hb.
    change (balanced (plug_all ctx (plug_all [Frame R c x l] (plug_all pth (Node cy Leaf y ry))))) in Hb.
    rewrite <- !plug_all_app in Hb. apply rbc_split in Hb as (c1 & m & Hc1 & Ht1). apply (rbc_rename R c x y) in Hc1.
    assert (c1 = cy) as -> by (apply rbt_color in Ht1; by destruct cy).
    rewrite (two_order pth cy y ry Hp), <- (around_two pth c l y ry ctx Hp) in *.
    eapply (erase_finish _ _ _ _ (pth ++ Frame R c y l :: ctx) R cy y ry m); done.
Qed.
