(* ===== verification/RbtreeWalk.v ===== *)
(** Walking a tree in order, replacing a node, the callbacks of augmented trees, and the depth. *)

From S2P Require Import Prelude.
From stdpp Require Import gmap.
From Stdlib Require Import Lia.
From S2P Require Import Rbtree RbtreeRep RbtreeInsert RbtreeErase.
Open Scope Z_scope.

(** * The ends and the neighbours *)

(** The first node, 0 if there is none, and the last. *)
Definition first_of (s : list Z) : Z := default 0 (head s).
Definition last_of (s : list Z) : Z := default 0 (last s).

(** The node of the sequence [s] that is next to a position on its side: its first when the
    sequence is on the right, its last when it is on the left. *)
Definition near_of (d : side) (s : list Z) : Z := match d with R => first_of s | L => last_of s end.

(** The nodes on the side [d] of a position. *)
Definition beyond (d : side) (ctx : list frame) : list Z := match d with R => after ctx | L => before ctx end.

Lemma last_of_app s x : last_of (s ++ [x]) = x.
Proof. unfold last_of. by rewrite last_snoc. Qed.

Lemma last_of_app_cons s x s' : last_of (s ++ x :: s') = last_of (x :: s').
Proof. unfold last_of. rewrite last_app. destruct (last (x :: s')) eqn:E; [done|]. by apply last_None in E. Qed.

Lemma end_order d pth c x b :
  Forall (fun f => fside f = opp d) pth -> near_of d (inorder (plug_all pth (mk (opp d) c Leaf x b))) = x.
Proof.
  intros Hp. rewrite <- around_plug_all. unfold around. destruct d; simpl.
  - assert (after pth = []) as ->.
    { induction Hp as [|[e c' x' sib] pth Hd Hp IH]; [done|]. simpl in Hd. by subst. }
    rewrite app_nil_r, app_assoc. apply last_of_app.
  - by rewrite (before_left _ Hp).
Qed.

Section wf.
Context (s : list Z) (Hs : wf s).

Lemma descend_end d t ctx w :
  t <> Leaf -> at_pos s w ctx t -> descend (opp d) (ptr t) w = Some (near_of d (inorder t), w).
Proof.
  intros Ht Hat. destruct (chain (opp d) t Ht) as (pth & c & x & b & -> & Hp).
  rewrite (descend_at s Hs _ _ _ _ _ _ _ Hp Hat). by rewrite end_order.
Qed.

(** The way up from a node without a child on the side [d]. *)
Definition climb (d : side) (node : Z) : M (ctl Z Z) :=
  parent ← rb_parent node;
  if parent =? 0 then mret (Ret parent)
  else
    c ← child d parent;
    mret (if node =? c then Next parent else Ret parent).

Lemma climb_loop d fuel ctx e c a x b :
  (length ctx < fuel)%nat ->
  runs s ctx (mk e c a x b) (iter fuel (climb d) x) (near_of d (beyond d ctx)) [] (plug_all ctx (mk e c a x b)).
Proof.
  revert ctx e c a x b. induction fuel as [|fuel IH]; intros ctx e c a x b Hf; [lia|].
  destruct ctx as [|[e' c' p sib] ctx].
  - apply runs_stop. unfold climb. step (parent_runs s Hs). replace (near_of d (beyond d [])) with 0 by (by destruct d).
    by apply runs_ret.
  - set (t := mk e c a x b). simpl in Hf.
    assert (forall v ctx' t', runs s (Frame e' c' p sib :: ctx) t
      (q ← child d p; mret (if x =? q then Next p else @Ret Z Z p)) v ctx' t' ->
      runs s (Frame e' c' p sib :: ctx) t (climb d x) v ctx' t') as Hturn.
    { intros v ctx' t' H. unfold climb. step (parent_runs s Hs (Frame e' c' p sib :: ctx) e c a x b).
      eapply (runs_know s _ (Frame e' c' p sib :: ctx) t); [intros w; apply (up_node s Hs)|done|]. intros ->. exact H. }
    destruct (decide (d = e')) as [->|Hne].
    + eapply runs_next; [apply Hturn|].
      * step (child_runs s Hs ctx e' c' t p sib). unfold t at 2. rewrite ptr_mk, Z.eqb_refl. by apply runs_ret.
      * replace (beyond e' (Frame e' c' p sib :: ctx)) with (beyond e' ctx) by (by destruct e').
        eapply runs_view; [apply (IH ctx e' c' t p sib); lia|done|done].
    + assert (d = opp e') as -> by (by destruct d, e'). apply runs_stop, Hturn.
      step (child_opp_runs s Hs ctx e' c' t p sib).
      eapply (runs_know s _ ctx (mk e' c' t p sib)); [intros w; apply (ptr_ne s Hs)|done|]. unfold t at 1. rewrite ptr_mk. intros ->.
      replace (near_of (opp e') (beyond (opp e') (Frame e' c' p sib :: ctx))) with p
        by (destruct e'; simpl; [done|by rewrite app_assoc, last_of_app]).
      replace (match t with Leaf => _ | _ => _ end) with false by (by unfold t; destruct e). by apply runs_ret.
Qed.

Lemma climb_at d ctx e c a x b w :
  at_pos s w ctx (mk e c a x b) -> walk (climb d) x w = Some (near_of d (beyond d ctx), w).
Proof.
  intros Hat. pose proof (at_length s Hs _ _ _ Hat) as Hlen.
  destruct (runs_walk s Hs _ _ _ _ _ _ _ (climb_loop d (2 + length s) ctx e c a x b ltac:(lia)) w Hat) as (w' & E & _).
  assert (w' = w) as ->; [|exact E]. eapply readonly_walk; [|exact E]. intros y. unfold climb.
  apply readonly_bind; [apply readonly_parent|]. intros q. destruct (q =? 0); auto with readonly.
Qed.

(** A node is not its own parent. *)
Lemma up_ne w ctx d c a x b : at_pos s w ctx (mk d c a x b) -> (up ctx =? x) = false.
Proof.
  intros Hat. pose proof (at_disjoint s Hs _ _ _ Hat) as (_ & _ & Hd & Ha & _). apply Z.eqb_neq. intros He.
  destruct ctx as [|[d' c' p sib] ctx]; simpl in He.
  - destruct (Ha x) as [? _]; [apply elem_of_mk; auto|lia].
  - subst p. apply (Hd x); [apply elem_of_mk; auto|apply elem_of_frame; auto].
Qed.

Lemma neighbour_at d ctx c a x b w :
  at_pos s w ctx (mk d c a x b) -> neighbour d x w = Some (near_of d (match d with L => before ctx ++ inorder a | R => inorder a ++ after ctx end), w).
Proof.
  intros Hat. pose proof (at_node s Hs _ _ _ _ _ _ _ Hat) as (Hx & HP & _). unfold neighbour.
  erewrite bind_run; [|eapply parent_run; [exact Hx|apply pc_mkn|done]]. rewrite (up_ne _ _ _ _ _ _ _ Hat).
  rewrite (bind_run _ _ _ _ _ (child_run d x w _ Hx)), get_mkn.
  pose proof (proj2 (at_plug s w (Frame d c x b) ctx a) Hat) as Ha. rewrite (ptr_node s Hs _ _ _ Ha).
  destruct a as [|ca al ax ar] eqn:E; cbn [negb].
  - etransitivity; [apply (climb_at d ctx d c Leaf x b w Hat)|]. destruct d; simpl; by rewrite ?app_nil_r.
  - rewrite <- E in *. assert (a <> Leaf) as Hne by (by subst). rewrite (descend_end d a _ w Hne Ha). do 2 f_equal.
    assert (exists y i j, inorder a = i ++ y :: j) as (y & i & j & ->) by (subst; simpl; eauto). destruct d; simpl.
    + by rewrite app_assoc, !last_of_app_cons.
    + by destruct i.
Qed.
End wf.

Lemma end_of_spec s w d : rb_tree s w -> end_of (opp d) w = Some (near_of d s, w).
Proof.
  intros [Hs (t & Hat & _)]. pose proof Hat as (Hr & _ & Har). rewrite around_plug_all in Har. simpl in Hr, Har. unfold end_of, get_root.
  rewrite (bind_run _ _ w (rb_root w) w) by done. rewrite Hr, (ptr_node s Hs _ _ _ Hat). destruct t as [|c l x r] eqn:E.
  - rewrite <- Har. by destruct d.
  - rewrite <- E in *. rewrite <- Har. eapply (descend_end s Hs); [by subst|exact Hat].
Qed.

Lemma neighbour_spec pre x post w d :
  rb_tree (pre ++ x :: post) w -> neighbour d x w = Some (near_of d (match d with L => pre | R => post end), w).
Proof.
  intros Hw. pose proof Hw as [Hs _]. apply rb_locate in Hw as (ctx & c & l & r & Hat & _ & -> & ->).
  destruct d; [apply (neighbour_at _ Hs L ctx c l x r w Hat)|apply (neighbour_at _ Hs R ctx c r x l w Hat)].
Qed.

(** * Replacing a node *)

Definition replaced (w : world) ctx c l r y : world :=
  let w1 := set_hole w ctx y in
  World (<[y := RbNode (pack (up ctx) c) (ptr r) (ptr l)]> (set_up (set_up (nodes w1) y l) y r)) (rb_root w1).

Lemma replace_run s w ctx c l x r y :
  wf s -> at_pos s w ctx (Node c l x r) -> x <> y -> addr y -> is_Some (nodes w !! y) ->
  (y ∉ ctx_nodes ctx) -> (y ∉ inorder l) -> (y ∉ inorder r) ->
  rb_replace_node x y w = Some (tt, replaced w ctx c l r y).
Proof.
  intros Hs Hat Hxy [_ HyW] [n Hy] Hyc Hyl Hyr. pose proof (wf_up s Hs _ _ _ Hat) as HP.
  pose proof (at_disjoint s Hs _ _ _ Hat) as (_ & Hnd & Hdis & Ha & Hac). destruct (Ha x) as [Hx0 HxW]; [simpl; set_solver|].
  apply (nodup_mk L c l x r) in Hnd as (_ & _ & Hxl & Hxr & Hlr).
  destruct Hat as (Hc & (Hx & Hl & Hr) & _). simpl in Hc.
  setoid_rewrite (elem_of_mk L c l x r) in Hdis. setoid_rewrite (elem_of_mk L c l x r) in Ha.
  unfold rb_replace_node. erewrite bind_run; [|by eapply parent_run; [exact Hx|..]].
  erewrite bind_run; [|apply (relink_run L w ctx x y); [done|done|apply Hdis; auto|lia]].
  unfold replaced. set (w1 := set_hole w ctx y).
  assert (forall q, q ∉ ctx_nodes ctx -> nodes w1 !! q = nodes w !! q) as H1 by (intros; by apply set_hole_ne).
  assert (nodes w1 !! x = Some (RbNode (pack (up ctx) c) (ptr r) (ptr l))) as Hx1 by (rewrite H1; [done|apply Hdis; auto]).
  rewrite (bind_run _ _ _ _ _ (child_run L x w1 _ Hx1)). cbn [get_child rb_left].
  erewrite bind_run; [|apply (set_up_run w1 x y l); try done; auto].
  2:{ eapply rep_frame; [|exact Hl]. intros q Hq. apply H1, Hdis. auto. }
  set (h2 := set_up (nodes w1) y l).
  assert (h2 !! x = Some (RbNode (pack (up ctx) c) (ptr r) (ptr l))) as Hx2 by (unfold h2; by rewrite set_up_ne).
  rewrite (bind_run _ _ _ _ _ (child_run R x (World h2 _) _ Hx2)). cbn [get_child rb_right].
  erewrite bind_run; [|apply (set_up_run (World h2 _) x y r); try done; auto].
  2:{ eapply rep_frame; [|exact Hr]. intros q Hq. cbn [nodes]. unfold h2. rewrite set_up_ne, H1; [done|apply Hdis; auto|].
      intros Hi. by apply (Hlr q). }
  cbn [nodes rb_root]. erewrite bind_run; [|apply load_run; cbn [nodes]; rewrite set_up_ne by done; exact Hx2].
  erewrite store_run; [done|]. cbn [nodes]. unfold h2. rewrite !set_up_ne, H1 by done. exact Hy.
Qed.

Lemma replaced_at s w ctx c l x r y :
  wf s -> at_pos s w ctx (Node c l x r) -> (y ∉ ctx_nodes ctx) -> (y ∉ inorder l) -> (y ∉ inorder r) ->
  at_pos (around ctx (Node c l y r)) (replaced w ctx c l r y) ctx (Node c l y r) /\
  same_out (around ctx (Node c l y r)) w (replaced w ctx c l r y).
Proof.
  intros Hs Hat Hyc Hyl Hyr. pose proof (at_disjoint s Hs _ _ _ Hat) as (Hndc & Hnd & Hdis & _ & _).
  apply (nodup_mk L c l x r) in Hnd as (Hndl & Hndr & Hxl & Hxr & Hlr). setoid_rewrite (elem_of_mk L c l x r) in Hdis.
  destruct Hat as (Hc & (Hx & Hl & Hr) & _). simpl in Hc. unfold replaced. set (w1 := set_hole w ctx y).
  assert (forall q, q ∉ ctx_nodes ctx -> nodes w1 !! q = nodes w !! q) as H1 by (intros; by apply set_hole_ne).
  assert (rep (nodes w1) x l /\ rep (nodes w1) x r) as [Hl1 Hr1]
    by (split; (eapply rep_frame; [|done]); intros q Hq; apply H1, Hdis; auto).
  split; [split_and!|].
  - eapply rep_ctx_frame; [|exact (rep_set_hole w ctx x y Hndc Hc)]. intros q Hq. cbn [nodes].
    rewrite lookup_insert_ne, !set_up_ne; [done|intros Hi; apply (Hdis q); auto..|by intros ->].
  - simpl. split; [apply lookup_insert_eq|]. split.
    + eapply rep_frame; [|exact (rep_set_up (nodes w1) x y l Hndl Hl1)]. intros q Hq.
      rewrite lookup_insert_ne, set_up_ne; [done|by apply Hlr|by intros ->].
    + eapply rep_frame; [|apply (rep_set_up (set_up (nodes w1) y l) x y r Hndr)].
      * intros q Hq. apply lookup_insert_ne. by intros ->.
      * eapply rep_frame; [|exact Hr1]. intros q Hq. apply set_up_ne. intros Hi. by apply (Hlr q).
  - done.
  - intros q Hq. rewrite elem_of_around in Hq. rewrite (elem_of_mk L c l y r) in Hq. cbn [nodes].
    rewrite lookup_insert_ne, !set_up_ne, H1; [done|tauto..|]. intros ->; tauto.
Qed.

Lemma balanced_rename ctx c l x y r : balanced (plug_all ctx (Node c l x r)) -> balanced (plug_all ctx (Node c l y r)).
Proof.
  intros (c' & n & Hc & Ht)%rbc_split. eapply rbc_fill; [exact Hc|]. inversion Ht; subst; econstructor; eauto.
Qed.

Lemma replace_spec pre x post y w :
  rb_tree (pre ++ x :: post) w -> wf (pre ++ y :: post) -> x <> y -> is_Some (nodes w !! y) ->
  exists w', rb_replace_node x y w = Some (tt, w') /\ rb_tree (pre ++ y :: post) w' /\
    same_out (pre ++ y :: post) w w'.
Proof.
  intros Hw Hs' Hxy Hy. pose proof Hw as [Hs _]. apply rb_locate in Hw as (ctx & c & l & r & Hat & Hb & -> & ->).
  assert ((before ctx ++ inorder l) ++ y :: inorder r ++ after ctx = around ctx (Node c l y r)) as Har
    by (unfold around; simpl; by rewrite <- !app_assoc).
  rewrite Har in *. pose proof Hs' as [Hnd Ha]. rewrite Forall_forall in Ha.
  apply nodup_around in Hnd as (_ & Hnd & Hdis). apply (nodup_mk L c l y r) in Hnd as (_ & _ & Hyl & Hyr & _).
  assert (y ∈ inorder (Node c l y r)) as Hyi by (apply (elem_of_mk L c l y r); auto).
  destruct (replaced_at _ _ _ _ _ _ _ y Hs Hat (Hdis y Hyi) Hyl Hyr) as [Hat' Ho]. eexists. split; [|split; [split; [done|]|exact Ho]].
  - apply (replace_run _ _ _ _ _ _ _ _ Hs Hat); try done; [|by apply Hdis]. apply Ha, elem_of_around. auto.
  - exists (plug_all ctx (Node c l y r)). rewrite <- at_plug_all. split; [done|by eapply balanced_rename].
Qed.

(** * Depth *)

Fixpoint depth (t : tree) : nat := match t with Leaf => 0 | Node _ l _ r => S (Nat.max (depth l) (depth r)) end.

Lemma rbt_depth c t n : rbt c t n -> (depth t <= 2 * n + match c with Red => 1 | Black => 0 end)%nat.
Proof.
  induction 1 as [|l x r n Hl IHl Hr IHr|cl cr l x r n Hl IHl Hr IHr]; simpl; [lia..|]. destruct cl, cr; lia.
Qed.

Lemma rbt_size c t n : rbt c t n -> (2 ^ n <= S (length (inorder t)))%nat.
Proof.
  induction 1 as [|l x r n Hl IHl Hr IHr|cl cr l x r n Hl IHl Hr IHr]; simpl; rewrite ?length_app; simpl; lia.
Qed.

Lemma balanced_depth t : balanced t -> (depth t <= 2 * Nat.log2 (S (length (inorder t))))%nat.
Proof.
  intros [n Hn]. pose proof (rbt_depth _ _ _ Hn) as Hd. pose proof (rbt_size _ _ _ Hn) as Hz.
  apply Nat.log2_le_mono in Hz. rewrite Nat.log2_pow2 in Hz by lia. simpl in Hd. lia.
Qed.
