(* ===== verification/RbtreeAugment.v ===== *)
(** Augmented trees: the callbacks of rb_augment_path recompute what depends on a subtree.

    A value is kept for every node, and the callback computes the value of a node from the values
    of its children, as the users of rb_augment_insert do. *)

From S2P Require Import Prelude.
From stdpp Require Import gmap.
From Stdlib Require Import Lia.
From S2P Require Import Rbtree RbtreeRep RbtreeInsert RbtreeErase RbtreeWalk.
Open Scope Z_scope.

Section augment.
Context {A : Type} (base : A) (calc : Z -> A -> A -> A).

(** The value of a subtree, and that the kept values are those. *)
Fixpoint measure (t : tree) : A :=
  match t with Leaf => base | Node _ l x r => calc x (measure l) (measure r) end.

Fixpoint good (aug : gmap Z A) (t : tree) : Prop :=
  match t with Leaf => True | Node _ l x r => aug !! x = Some (measure t) /\ good aug l /\ good aug r end.

Fixpoint good_ctx (aug : gmap Z A) (ctx : list frame) : Prop :=
  match ctx with [] => True | f :: ctx => good aug (fsib f) /\ good_ctx aug ctx end.

(** The callback: it reads the children of the node in the memory [w]. *)
Definition kept (aug : gmap Z A) (p : Z) : A := if p =? 0 then base else default base (aug !! p).

Definition callback (w : world) (p : Z) (aug : gmap Z A) : gmap Z A :=
  match nodes w !! p with
  | Some n => <[p := calc p (kept aug (rb_left n)) (kept aug (rb_right n))]> aug
  | None => aug
  end.

Lemma good_frame aug aug' t : (forall q, q ∈ inorder t -> aug' !! q = aug !! q) -> good aug t -> good aug' t.
Proof.
  induction t as [|c l IHl x r IHr]; [done|]. intros H (Hx & Hl & Hr). simpl in H. setoid_rewrite elem_of_app in H.
  setoid_rewrite elem_of_cons in H. simpl. rewrite H by auto. split; [exact Hx|]. split; [apply IHl|apply IHr]; auto.
Qed.

Lemma good_ctx_frame aug aug' ctx :
  (forall q, q ∈ ctx_nodes ctx -> aug' !! q = aug !! q) -> good_ctx aug ctx -> good_ctx aug' ctx.
Proof.
  induction ctx as [|[d c x sib] ctx IH]; [done|]. intros H [Hs Hc]. setoid_rewrite elem_of_frame in H.
  split; [eapply good_frame; [|exact Hs]|apply IH]; auto.
Qed.

Lemma callback_ne w p aug q : q <> p -> callback w p aug !! q = aug !! q.
Proof. intros Hq. unfold callback. destruct (nodes w !! p); [|done]. by apply lookup_insert_ne. Qed.

Section wf.
Context (s : list Z) (Hs : wf s) (w : world).

Lemma kept_good ctx t aug : at_pos s w ctx t -> good aug t -> kept aug (ptr t) = measure t.
Proof.
  intros Hat Hg. unfold kept. rewrite (ptr_node s Hs _ _ _ Hat). destruct t as [|c l x r]; [done|].
  destruct Hg as [Hx _]. cbn [ptr]. by rewrite Hx.
Qed.

(** The callback on a node whose subtrees have their values. *)
Lemma callback_good ctx d c a x b aug :
  at_pos s w ctx (mk d c a x b) -> good aug a -> good aug b -> good (callback w x aug) (mk d c a x b).
Proof.
  intros Hat Ha Hb. pose proof (at_node s Hs _ _ _ _ _ _ _ Hat) as (Hx & _ & _).
  pose proof (kept_good (Frame d c x b :: ctx) a aug ltac:(by apply at_plug) Ha) as Ka.
  assert (mk d c a x b = plug (Frame (opp d) c x a) b) as Ho by (by destruct d).
  pose proof (kept_good (Frame (opp d) c x a :: ctx) b aug ltac:(by rewrite at_plug, <- Ho) Hb) as Kb.
  pose proof (at_disjoint s Hs _ _ _ Hat) as (_ & Hnd & _). apply nodup_mk in Hnd as (_ & _ & Hxa & Hxb & _).
  assert (good (callback w x aug) a /\ good (callback w x aug) b) as [Ga Gb].
  { split; (eapply good_frame; [|done]); intros q Hq; apply callback_ne; by intros ->. }
  assert (callback w x aug !! x = Some (measure (mk d c a x b))) as Gx.
  { unfold callback. rewrite Hx, lookup_insert_eq. destruct d; simpl; by rewrite Ka, Kb. }
  destruct d; simpl in *; auto.
Qed.

(** The sibling, when there is one, and else the node once more. *)
Definition beside (d : side) (x : Z) (sib : tree) (aug : gmap Z A) : gmap Z A :=
  match sib, d with Node _ _ y _, _ => callback w y aug | Leaf, L => callback w x aug | Leaf, R => aug end.

Lemma turn_run d' c' p sib ctx d c a x b aug :
  at_pos s w (Frame d' c' p sib :: ctx) (mk d c a x b) ->
  augment_turn (callback w) (x, aug) w = Some (Next (p, beside d' x sib (callback w x aug)), w).
Proof.
  intros Hat. pose proof (at_node s Hs _ _ _ _ _ _ _ Hat) as (Hx & HP & Hx0). pose proof (up_node s Hs _ _ _ Hat) as Hup.
  unfold augment_turn. erewrite bind_run; [|eapply parent_run; [exact Hx|apply pc_mkn|done]]. rewrite Hup.
  pose proof (proj1 (at_plug _ _ _ _ _) Hat) as Hat'. unfold plug in Hat'. cbn [fside fcolor faddr fsib up] in *.
  pose proof (ptr_ne s Hs _ _ _ _ _ _ _ Hat') as Hne. rewrite ptr_mk in Hne.
  assert (mk d' c' (mk d c a x b) p sib = plug (Frame (opp d') c' p (mk d c a x b)) sib) as Ho by (by destruct d').
  pose proof (ptr_node s Hs w (Frame (opp d') c' p (mk d c a x b) :: ctx) sib ltac:(by rewrite at_plug, <- Ho)) as Hsib.
  pose proof (at_node s Hs _ _ _ _ _ _ _ Hat') as (Hp & _ & _). rewrite ptr_mk in Hp.
  rewrite (bind_run _ _ _ _ _ (child_run L p w _ Hp)), (bind_run _ _ _ _ _ (child_run R p w _ Hp)).
  destruct Hx0 as [Hx0 _]. assert ((x =? 0) = false) as Hx1 by (apply Z.eqb_neq; lia).
  destruct d'; cbn [mkn get_child rb_left rb_right].
  - rewrite Z.eqb_refl, Hsib, Hx1. by destruct sib.
  - rewrite Hne, Hsib. destruct (mk d c a x b) eqn:E; [by destruct d|]. by destruct sib.
Qed.

(** The callback on another subtree that has its values. *)
Lemma callback_same ctx t aug y c l r :
  at_pos s w ctx (Node c l y r) -> good aug (Node c l y r) -> (y ∉ inorder t) -> good aug t ->
  good (callback w y aug) (Node c l y r) /\ good (callback w y aug) t.
Proof.
  intros Hat (_ & Hl & Hr) Hy Ht. split; [by apply (callback_good ctx L)|].
  eapply good_frame; [|exact Ht]. intros q Hq. apply callback_ne. by intros ->.
Qed.

Lemma beside_ne d x sib aug q : q <> x -> (q ∉ inorder sib) -> beside d x sib aug !! q = aug !! q.
Proof.
  intros Hx Hq. unfold beside. destruct sib as [|c l y r]; [destruct d; [by apply callback_ne|done]|].
  apply callback_ne. intros ->. apply Hq. simpl. set_solver.
Qed.

Lemma beside_good d' c' p sib ctx d c a x b aug :
  at_pos s w (Frame d' c' p sib :: ctx) (mk d c a x b) -> good aug (mk d c a x b) -> good aug sib ->
  good (beside d' x sib aug) (mk d c a x b) /\ good (beside d' x sib aug) sib.
Proof.
  intros Hat Ht Hsib. pose proof (proj1 (at_plug _ _ _ _ _) Hat) as Hat'. unfold plug in Hat'. cbn [fside fcolor faddr fsib] in Hat'.
  assert (mk d' c' (mk d c a x b) p sib = plug (Frame (opp d') c' p (mk d c a x b)) sib) as Ho by (by destruct d').
  pose proof (at_disjoint s Hs _ _ _ Hat') as (_ & Hnd & _). apply nodup_mk in Hnd as (_ & _ & _ & _ & Hd).
  rewrite Ho, <- at_plug in Hat'. unfold beside. destruct sib as [|cs l y r].
  - split; [|done]. destruct d'; [|done]. eapply callback_good; [exact Hat|destruct d; apply Ht..].
  - destruct (callback_same _ (mk d c a x b) aug y cs l r Hat' Hsib) as [H1 H2]; [|done|done].
    intros Hi. apply (Hd y Hi). simpl. set_solver.
Qed.

Lemma path_loop fuel ctx d c a x b aug :
  at_pos s w ctx (mk d c a x b) -> good aug a -> good aug b -> good_ctx aug ctx -> (length ctx < fuel)%nat ->
  exists aug', iter fuel (augment_turn (callback w)) (x, aug) w = Some (aug', w) /\
    good aug' (plug_all ctx (mk d c a x b)) /\ forall q, q ∉ s -> aug' !! q = aug !! q.
Proof.
  revert ctx d c a x b aug. induction fuel as [|fuel IH]; intros ctx d c a x b aug Hat Ha Hb Hc Hf; [lia|]. simpl iter.
  pose proof (callback_good _ _ _ _ _ _ _ Hat Ha Hb) as Hg. set (aug1 := callback w x aug) in *.
  assert (x ∈ s) as Hxs by (destruct Hat as (_ & _ & <-); apply elem_of_around; left; apply elem_of_mk; auto).
  assert (forall q, q ∉ s -> aug1 !! q = aug !! q) as H1 by (intros q Hq; apply callback_ne; by intros ->).
  destruct ctx as [|[d' c' p sib] ctx].
  - exists aug1. split; [|done]. pose proof (at_node s Hs _ _ _ _ _ _ _ Hat) as (Hx & HP & _).
    assert (augment_turn (callback w) (x, aug) w = Some (Ret aug1, w)) as E; [|by rewrite (bind_run _ _ _ _ _ E)].
    unfold augment_turn. by erewrite bind_run; [|eapply parent_run; [exact Hx|apply pc_mkn|done]].
  - pose proof (turn_run _ _ _ _ _ _ _ _ _ _ aug Hat) as Et. rewrite (bind_run _ _ _ _ _ Et). fold aug1. destruct Hc as [Hsib Hc].
    pose proof (at_disjoint s Hs _ _ _ Hat) as (Hndc & _ & Hd & _ & _). simpl in Hsib, Hf.
    assert (good aug1 sib) as Hsib1.
    { eapply good_frame; [|exact Hsib]. intros q Hq. apply callback_ne. intros ->. apply (Hd x); [apply elem_of_mk; auto|].
      apply elem_of_frame. auto. }
    destruct (beside_good _ _ _ _ _ _ _ _ _ _ _ Hat Hg Hsib1) as [Hg2 Hsib2].
    pose proof (proj1 (at_plug _ _ _ _ _) Hat) as Hat'.
    destruct (IH ctx d' c' (mk d c a x b) p sib (beside d' x sib aug1) Hat' Hg2 Hsib2) as (aug' & E & Hg' & Ho); [|lia|].
    + eapply good_ctx_frame; [|exact Hc]. intros q Hq. pose proof (at_disjoint s Hs _ _ _ Hat') as (_ & _ & Hd' & _).
      rewrite beside_ne; [unfold aug1; apply callback_ne|..]; first [intros ->|intros Hi]; (eapply Hd'; [|exact Hq]); apply elem_of_mk;
        rewrite ?elem_of_mk; auto.
    + exists aug'. split; [exact E|]. split; [exact Hg'|]. intros q Hq. rewrite Ho, beside_ne, H1; try done; [by intros ->|].
      intros Hi. apply Hq. destruct Hat as (_ & _ & <-). apply elem_of_around. right. apply elem_of_frame. auto.
Qed.
End wf.

(** The memory holds the tree, and every node but [x] and its ancestors has its value. *)
Lemma augment_path_good s w ctx c l x r aug :
  wf s -> at_pos s w ctx (Node c l x r) -> good aug l -> good aug r -> good_ctx aug ctx ->
  exists aug', rb_augment_path (callback w) x aug w = Some (aug', w) /\
    good aug' (plug_all ctx (Node c l x r)) /\ forall q, q ∉ s -> aug' !! q = aug !! q.
Proof.
  intros Hs Hat Hl Hr Hc. apply (path_loop s Hs w _ ctx L c l x r); try done.
  pose proof (at_length s Hs _ _ _ Hat). pose proof (at_size s Hs _ _ _ Hat). lia.
Qed.
End augment.
