(* ===== verification/RbtreeSpec.v ===== *)
(** What the red-black trees of lib/rbtree.c promise. *)

From S2P Require Import Prelude.
From stdpp Require Import gmap.
From Stdlib Require Import Lia.
From S2P Require Import Rbtree RbtreeRep RbtreeInsert RbtreeErase RbtreeWalk RbtreeAugment.
Open Scope Z_scope.

(** * Histories *)

(** One change of a tree, with the sequence of its nodes before and after. *)
Inductive rb_step : list Z -> world -> list Z -> world -> Prop :=
| step_insert pre x post parent lk w w' :
    wf (pre ++ x :: post) -> is_Some (nodes w !! x) -> free_link w pre post parent lk ->
    (rb_link_node x parent lk ≫= fun _ => rb_insert_color x) w = Some (tt, w') ->
    rb_step (pre ++ post) w (pre ++ x :: post) w'
| step_erase pre x post w w' :
    rb_erase x w = Some (tt, w') -> rb_step (pre ++ x :: post) w (pre ++ post) w'
| step_replace pre x post y w w' :
    wf (pre ++ y :: post) -> x <> y -> is_Some (nodes w !! y) -> rb_replace_node x y w = Some (tt, w') ->
    rb_step (pre ++ x :: post) w (pre ++ y :: post) w'.

Inductive rb_run : world -> list Z -> world -> Prop :=
| run_empty w : rb_root w = 0 -> rb_run w [] w
| run_step w0 s w s' w' : rb_run w0 s w -> rb_step s w s' w' -> rb_run w0 s' w'.

Lemma step_tree s w s' w' : rb_step s w s' w' -> rb_tree s w -> rb_tree s' w' /\ same_out (s ++ s') w w'.
Proof.
  intros Hst Ht. destruct Hst as [pre x post parent lk w w' Hs Hx Hf E|pre x post w w' E|pre x post y w w' Hs Hne Hy E].
  - destruct (insert_spec _ _ _ _ _ _ Ht Hs Hx Hf) as (w2 & E2 & Ht2 & Ho). rewrite E in E2. injection E2 as <-. split; [done|].
    eapply same_out_weaken; [|exact Ho]. set_solver.
  - destruct (erase_spec _ _ _ _ Ht) as (w2 & E2 & Ht2 & Ho). rewrite E in E2. injection E2 as <-. split; [done|].
    eapply same_out_weaken; [|exact Ho]. set_solver.
  - destruct (replace_spec _ _ _ _ _ Ht Hs Hne Hy) as (w2 & E2 & Ht2 & Ho). rewrite E in E2. injection E2 as <-. split; [done|].
    eapply same_out_weaken; [|exact Ho]. set_solver.
Qed.

Lemma run_tree w0 s w : rb_run w0 s w -> rb_tree s w.
Proof. induction 1 as [w Hr|w0 s w s' w' _ IH Hst]; [by apply empty_tree|]. by eapply step_tree. Qed.

(** * A sample *)

(** Memory for four nodes, and trees of the first three and of all four of them. *)
Definition sample0 : world := World (list_to_map [(4, RbNode 0 0 0); (8, RbNode 0 0 0); (12, RbNode 0 0 0); (16, RbNode 0 0 0)]) 0.

Definition sample_insert (x parent : Z) (lk : link) (w : world) : world :=
  match (rb_link_node x parent lk ≫= fun _ => rb_insert_color x) w with Some (_, w') => w' | None => w end.

Definition sample3 : world :=
  Eval vm_compute in
    sample_insert 12 8 (ChildLink R 8) (sample_insert 8 4 (ChildLink R 4) (sample_insert 4 0 RootLink sample0)).

Definition sample4 : world := Eval vm_compute in sample_insert 16 12 (ChildLink R 12) sample3.

Lemma wf_sample s : NoDup s -> forallb (fun p => (0 <? p) && (p <? 4294967296) && (p mod 4 =? 0)) s = true -> wf s.
Proof.
  intros Hnd Hb. split; [done|]. apply Forall_forall. intros p Hp. rewrite forallb_forall in Hb.
  specialize (Hb p (proj1 (list_elem_of_In _ _) Hp)). rewrite !andb_true_iff in Hb. destruct Hb as [[H1 H2] H3]. zbool. split; [lia|]. split; [lia|done].
Qed.

Ltac sample_wf := apply wf_sample; [repeat (constructor; [set_solver|]); constructor|reflexivity].

Lemma sample3_tree : rb_tree [4; 8; 12] sample3.
Proof.
  split; [sample_wf|]. exists (Node Black (Node Red Leaf 4 Leaf) 8 (Node Red Leaf 12 Leaf)). split.
  - split; [reflexivity|]. cbn [rep up]. split_and!; reflexivity || exact I.
  - exists 1%nat. repeat econstructor.
Qed.

Lemma sample4_tree : rb_tree [4; 8; 12; 16] sample4.
Proof.
  split; [sample_wf|].
  exists (Node Black (Node Black Leaf 4 Leaf) 8 (Node Black Leaf 12 (Node Red Leaf 16 Leaf))). split.
  - split; [reflexivity|]. cbn [rep up]. split_and!; reflexivity || exact I.
  - exists 2%nat. repeat econstructor.
Qed.

(** * Insertion and removal *)

(** C1: from a valid tree whose nodes are, in order, pre and post, rb_link_node of a new node at the
    NULL pointer between them followed by rb_insert_color terminates without following a NULL
    pointer and leaves a valid tree (parents, colours and black heights right, root black) of pre,
    the node and post in this order; no other memory changes. *)
Theorem rb_insert_correct pre x post parent lk w :
  rb_tree (pre ++ post) w -> wf (pre ++ x :: post) -> is_Some (nodes w !! x) -> free_link w pre post parent lk ->
  exists w', (rb_link_node x parent lk ≫= fun _ => rb_insert_color x) w = Some (tt, w') /\
    rb_tree (pre ++ x :: post) w' /\ same_out (pre ++ x :: post) w w'.
Proof. apply insert_spec. Qed.

Lemma rb_insert_correct_witness :
  exists w', (rb_link_node 16 12 (ChildLink R 12) ≫= fun _ => rb_insert_color 16) sample3 = Some (tt, w') /\
    rb_tree [4; 8; 12; 16] w' /\ same_out [4; 8; 12; 16] sample3 w'.
Proof.
  apply (rb_insert_correct [4; 8; 12] 16 [] 12 (ChildLink R 12) sample3); [exact sample3_tree|sample_wf|by eexists|].
  split; [reflexivity|by split].
Defined.

(** C2: rb_erase of any node of a valid tree terminates without following a NULL pointer and leaves
    a valid tree of the other nodes in their order, without touching other memory; and
    rb_replace_node puts a new node in the place of an old one, so that the tree stays valid and
    the order is that of the others with the new node instead. *)
Theorem rb_erase_replace_correct pre x post w :
  rb_tree (pre ++ x :: post) w ->
  (exists w', rb_erase x w = Some (tt, w') /\ rb_tree (pre ++ post) w' /\ same_out (pre ++ post) w w') /\
  (forall y, wf (pre ++ y :: post) -> x <> y -> is_Some (nodes w !! y) ->
     exists w', rb_replace_node x y w = Some (tt, w') /\ rb_tree (pre ++ y :: post) w' /\ same_out (pre ++ y :: post) w w').
Proof. intros Ht. split; [by apply erase_spec|]. intros y Hs Hne Hy. by apply replace_spec. Qed.

Lemma rb_erase_replace_correct_witness :
  (exists w', rb_erase 8 sample4 = Some (tt, w') /\ rb_tree [4; 12; 16] w' /\ same_out [4; 12; 16] sample4 w') /\
  (exists w', rb_replace_node 8 16 sample3 = Some (tt, w') /\ rb_tree [4; 16; 12] w' /\ same_out [4; 16; 12] sample3 w').
Proof.
  split.
  - exact (proj1 (rb_erase_replace_correct [4] 8 [12; 16] sample4 sample4_tree)).
  - refine (proj2 (rb_erase_replace_correct [4] 8 [12] sample3 sample3_tree) 16 _ _ _); [sample_wf|done|by eexists].
Defined.

(** * Walks *)

Lemma clear_word pc x : word x -> Z.land (Z.lor (Z.land pc 3) x) (ul_not 3) = x.
Proof.
  intros Hx. apply Z.bits_inj'. intros i Hi. rewrite !Z.land_spec, Z.lor_spec, Z.land_spec, mask3_spec, not3_spec by done.
  destruct (i <? 2) eqn:E1, (2 <=? i) eqn:E2; zbool; try lia; simpl.
  - rewrite andb_false_r. symmetry. apply word_low; [done|lia].
  - rewrite andb_false_r. simpl. destruct (i <? 32) eqn:E3; zbool; [apply andb_true_r|]. rewrite andb_false_r. symmetry. by apply word_high.
Qed.

Lemma clear_run w x :
  word x -> is_Some (nodes w !! x) ->
  exists w', RB_CLEAR_NODE x w = Some (tt, w') /\ same_out [x] w w' /\ rb_parent x w' = Some (x, w').
Proof.
  intros Hx [n Hn]. unfold RB_CLEAR_NODE, rb_set_parent. rewrite (store_run _ _ _ _ Hn). eexists. split; [done|]. split.
  - intros q Hq. apply lookup_insert_ne. set_solver.
  - unfold rb_parent. erewrite bind_run; [|apply load_run, lookup_insert_eq]. simpl. by rewrite clear_word.
Qed.

(** * Every history *)

(** C17: whatever sequence of insertions, removals and replacements is applied to an empty root, the
    memory holds a well-formed red-black tree of exactly the nodes that are in it: parent words and
    child pointers agree, no red node has a red child, all paths have the same number of black
    nodes; so no path is longer than twice the logarithm of the number of nodes plus one. *)
Theorem rb_reachable w0 s w :
  rb_run w0 s w ->
  rb_tree s w /\ exists t, at_pos s w [] t /\ balanced t /\ inorder t = s /\
    (depth t <= 2 * Nat.log2 (S (length s)))%nat.
Proof.
  intros Hrun%run_tree. split; [done|]. destruct Hrun as [_ (t & Hat & Hb)]. exists t. pose proof Hat as (_ & _ & Har).
  rewrite around_plug_all in Har. simpl in Har. split_and!; try done. rewrite <- Har. by apply balanced_depth.
Qed.

Lemma rb_reachable_witness : rb_tree [4; 8] (sample_insert 8 4 (ChildLink R 4) (sample_insert 4 0 RootLink sample0)).
Proof.
  eapply (rb_reachable sample0). eapply run_step; [eapply run_step; [by apply (run_empty sample0)|]|].
  - apply (step_insert [] 4 [] 0 RootLink); [sample_wf|by eexists|by split|]. vm_compute. reflexivity.
  - apply (step_insert [4] 8 [] 4 (ChildLink R 4)); [sample_wf|by eexists|by split|]. vm_compute. reflexivity.
Defined.

(** * Walks and augmented trees *)

(** C18: the walks of a valid tree read its order: rb_first and rb_last give the ends, rb_next and
    rb_prev the neighbours of a node, NULL where there is none, RB_EMPTY_ROOT whether there are
    nodes, and RB_EMPTY_NODE is false for every node in the tree; none of them writes.  A node that
    RB_CLEAR_NODE was applied to is RB_EMPTY_NODE, and rb_next and rb_prev of it are NULL.  When every
    node but x and its ancestors has the value that its subtree determines, rb_augment_path from x,
    with a callback that computes the value of a node from those of its children, terminates and
    gives every node of the tree its value. *)
Theorem rb_walk_correct :
  (forall s w, rb_tree s w ->
     rb_first w = Some (first_of s, w) /\ rb_last w = Some (last_of s, w) /\
     RB_EMPTY_ROOT w = Some (bool_decide (s = []), w) /\
     forall pre x post, s = pre ++ x :: post ->
       rb_next x w = Some (first_of post, w) /\ rb_prev x w = Some (last_of pre, w) /\
       RB_EMPTY_NODE x w = Some (false, w)) /\
  (forall w x, word x -> is_Some (nodes w !! x) ->
     exists w', RB_CLEAR_NODE x w = Some (tt, w') /\ same_out [x] w w' /\ RB_EMPTY_NODE x w' = Some (true, w') /\
       rb_next x w' = Some (0, w') /\ rb_prev x w' = Some (0, w')) /\
  (forall (A : Type) (base : A) (calc : Z -> A -> A -> A) s w ctx c l x r aug,
     wf s -> at_pos s w ctx (Node c l x r) -> good base calc aug l -> good base calc aug r -> good_ctx base calc aug ctx ->
     exists aug', rb_augment_path (callback base calc w) x aug w = Some (aug', w) /\
       good base calc aug' (plug_all ctx (Node c l x r)) /\ forall q, q ∉ s -> aug' !! q = aug !! q).
Proof.
  split; [|split; [|exact @augment_path_good]].
  - intros s w Ht. split; [apply (end_of_spec s w R Ht)|]. split; [apply (end_of_spec s w L Ht)|]. split.
    + destruct Ht as [Hs (t & Hat & _)]. pose proof (ptr_node s Hs _ _ _ Hat) as Hp. destruct Hat as (Hr & _ & Har).
      rewrite around_plug_all in Har. simpl in Hr, Har. unfold RB_EMPTY_ROOT, get_root, mbind, M_bind. rewrite Hr, Hp, <- Har.
      destruct t as [|c l x r]; [done|]. unfold mret, M_ret. do 2 f_equal. symmetry. apply bool_decide_eq_false. simpl. by destruct (inorder l).
    + intros pre x post ->. split; [apply (neighbour_spec pre x post w R Ht)|]. split; [apply (neighbour_spec pre x post w L Ht)|].
      pose proof Ht as [Hs _]. apply rb_locate in Ht as (ctx & c & l & r & Hat & _). unfold RB_EMPTY_NODE.
      pose proof (at_node _ Hs w ctx L c l x r Hat) as (Hx & HP & _).
      erewrite bind_run; [|by eapply parent_run; [exact Hx|..]]. by rewrite (up_ne _ Hs w ctx L c l x r Hat).
  - intros w x Hx Hn. destruct (clear_run w x Hx Hn) as (w' & E & Ho & Ep). exists w'. split; [done|]. split; [done|].
    unfold RB_EMPTY_NODE, rb_next, rb_prev, neighbour. rewrite !(bind_run _ _ _ _ _ Ep), Z.eqb_refl. done.
Qed.

(** With the sizes of the subtrees of a tree of three, after the first node was added. *)
Lemma rb_walk_correct_witness :
  (rb_first sample4 = Some (4, sample4) /\ rb_next 8 sample4 = Some (12, sample4) /\ rb_prev 4 sample4 = Some (0, sample4)) /\
  (exists aug', rb_augment_path (callback 0 (fun _ a b => a + b + 1) sample3) 4 {[8 := 2; 12 := 1]} sample3 = Some (aug', sample3) /\
    aug' !! 8 = Some 3).
Proof.
  split.
  { destruct (proj1 rb_walk_correct [4; 8; 12; 16] sample4 sample4_tree) as (H1 & _ & _ & H2).
    split; [exact H1|]. split; [apply (H2 [4] 8 [12; 16] eq_refl)|apply (H2 [] 4 [8; 12; 16] eq_refl)]. }
  destruct (proj2 (proj2 rb_walk_correct) Z 0 (fun _ a b => a + b + 1) [4; 8; 12] sample3
    [Frame L Black 8 (Node Red Leaf 12 Leaf)] Red Leaf 4 Leaf {[8 := 2; 12 := 1]}) as (aug' & E & Hg & _).
  - sample_wf.
  - split; [cbn [rep_ctx rep]; split_and!; reflexivity || exact I|]. cbn [rep up]. split_and!; reflexivity || exact I.
  - exact I.
  - exact I.
  - cbn [good_ctx good fsib measure]. split_and!; reflexivity || exact I.
  - exists aug'. split; [exact E|]. destruct Hg as [Hg _]. exact Hg.
Defined.
