(* ===== verification/Sched.v ===== *)
(** The completely fair scheduler on one processor: the parts of kernel/sched_fair.c and
    kernel/sched.c that keep the timeline of runnable entities.

    The configuration is that of the i.MX boards (arch/arm/configs/imx5_defconfig): no SMP, no
    group scheduling, no scheduler statistics or debugging.  A task, its scheduling entity and the
    rb_node in the entity go by one address, that of the rb_node, so that rb_entry, task_of and
    &p->se are the identity; 0 is NULL.  A pointer to no task is [None]. *)

From S2P Require Import Prelude.
From stdpp Require Import gmap.
From Stdlib Require Import Lia.
From S2P Require Import Rbtree.
Open Scope Z_scope.

(** * State *)

Record load_weight : Type := LoadWeight { weight : Z; inv_weight : Z }.

Record sched_entity : Type := Entity {
  se_load : load_weight;
  on_rq : bool;
  exec_start : Z;
  sum_exec_runtime : Z;
  vruntime : Z;
  prev_sum_exec_runtime : Z
}.

Record task_struct : Type := Task { se : sched_entity; policy : Z; prio : Z; fair_class : bool }.

Record cfs_rq : Type := Cfs {
  cfs_load : load_weight;
  nr_running : Z;
  min_vruntime : Z;
  rb_leftmost : Z;
  tasks : list Z;
  curr : Z;
  next : Z;
  last : Z
}.

(** The run queue of the processor: tasks_timeline is [timeline], [all_tasks] the tasks in memory,
    [need_resched] those with TIF_NEED_RESCHED. *)
Record rq : Type := Rq {
  cfs : cfs_rq;
  timeline : world;
  all_tasks : gmap Z task_struct;
  rq_load : load_weight;
  clock : Z;
  rq_curr : Z;
  idle : Z;
  need_resched : gset Z;
  skip_clock_update : bool
}.

(** * Programs *)

Definition K (A : Type) : Type := rq -> option (A * rq).

#[global] Instance K_ret : MRet K := fun A x q => Some (x, q).
#[global] Instance K_bind : MBind K := fun A B f e q =>
  match e q with Some (x, q) => f x q | None => None end.

(** A value that may be missing. *)
Definition value {A} (o : option A) : K A := fun q =>
  match o with Some x => Some (x, q) | None => None end.

Definition gets {A} (f : rq -> A) : K A := fun q => Some (f q, q).

Definition get_cfs {A} (f : cfs_rq -> A) : K A := gets (fun q => f (cfs q)).

Definition set_cfs (f : cfs_rq -> cfs_rq) : K unit := fun q =>
  Some (tt, Rq (f (cfs q)) (timeline q) (all_tasks q) (rq_load q) (clock q) (rq_curr q) (idle q) (need_resched q) (skip_clock_update q)).

Definition get_task (p : Z) : K task_struct := fun q => t ← all_tasks q !! p; Some (t, q).

Definition ent (p : Z) : K sched_entity := t ← get_task p; mret (se t).

Definition put_ent (p : Z) (f : sched_entity -> sched_entity) : K unit := fun q =>
  t ← all_tasks q !! p;
  Some (tt, Rq (cfs q) (timeline q) (<[p := Task (f (se t)) (policy t) (prio t) (fair_class t)]> (all_tasks q))
              (rq_load q) (clock q) (rq_curr q) (idle q) (need_resched q) (skip_clock_update q)).

(** The tree operations work on tasks_timeline. *)
Definition tree {A} (e : M A) : K A := fun q =>
  match e (timeline q) with
  | Some (x, w) =>
      Some (x, Rq (cfs q) w (all_tasks q) (rq_load q) (clock q) (rq_curr q) (idle q) (need_resched q) (skip_clock_update q))
  | None => None
  end.

Definition set_rq_load (f : load_weight -> load_weight) : K unit := fun q =>
  Some (tt, Rq (cfs q) (timeline q) (all_tasks q) (f (rq_load q)) (clock q) (rq_curr q) (idle q) (need_resched q) (skip_clock_update q)).

Definition set_clock (now : Z) : K unit := fun q =>
  Some (tt, Rq (cfs q) (timeline q) (all_tasks q) (rq_load q) now (rq_curr q) (idle q) (need_resched q) (skip_clock_update q)).

Definition set_skip (b : bool) : K unit := fun q =>
  Some (tt, Rq (cfs q) (timeline q) (all_tasks q) (rq_load q) (clock q) (rq_curr q) (idle q) (need_resched q) b).

(** [now]: what sched_clock_cpu reads. *)
Definition update_rq_clock (now : Z) : K unit :=
  skip ← gets skip_clock_update;
  if negb skip then set_clock now else mret tt.

Definition resched_task (p : Z) : K unit := fun q =>
  Some (tt, Rq (cfs q) (timeline q) (all_tasks q) (rq_load q) (clock q) (rq_curr q) (idle q) ({[p]} ∪ need_resched q) (skip_clock_update q)).

(** Updates of one field. *)
Definition put_load v c := Cfs v (nr_running c) (min_vruntime c) (rb_leftmost c) (tasks c) (curr c) (next c) (last c).
Definition put_nr v c := Cfs (cfs_load c) v (min_vruntime c) (rb_leftmost c) (tasks c) (curr c) (next c) (last c).
Definition put_min v c := Cfs (cfs_load c) (nr_running c) v (rb_leftmost c) (tasks c) (curr c) (next c) (last c).
Definition put_leftmost v c := Cfs (cfs_load c) (nr_running c) (min_vruntime c) v (tasks c) (curr c) (next c) (last c).
Definition put_tasks v c := Cfs (cfs_load c) (nr_running c) (min_vruntime c) (rb_leftmost c) v (curr c) (next c) (last c).
Definition put_curr v c := Cfs (cfs_load c) (nr_running c) (min_vruntime c) (rb_leftmost c) (tasks c) v (next c) (last c).
Definition put_next v c := Cfs (cfs_load c) (nr_running c) (min_vruntime c) (rb_leftmost c) (tasks c) (curr c) v (last c).
Definition put_last v c := Cfs (cfs_load c) (nr_running c) (min_vruntime c) (rb_leftmost c) (tasks c) (curr c) (next c) v.

Definition with_load v e := Entity v (on_rq e) (exec_start e) (sum_exec_runtime e) (vruntime e) (prev_sum_exec_runtime e).
Definition with_on_rq v e := Entity (se_load e) v (exec_start e) (sum_exec_runtime e) (vruntime e) (prev_sum_exec_runtime e).
Definition with_start v e := Entity (se_load e) (on_rq e) v (sum_exec_runtime e) (vruntime e) (prev_sum_exec_runtime e).
Definition with_sum v e := Entity (se_load e) (on_rq e) (exec_start e) v (vruntime e) (prev_sum_exec_runtime e).
Definition with_vruntime v e := Entity (se_load e) (on_rq e) (exec_start e) (sum_exec_runtime e) v (prev_sum_exec_runtime e).
Definition with_prev v e := Entity (se_load e) (on_rq e) (exec_start e) (sum_exec_runtime e) (vruntime e) v.

(** * Tunables and constants *)

Definition sysctl_sched_latency : Z := 6000000.
Definition sysctl_sched_min_granularity : Z := 2000000.
Definition sched_nr_latency : Z := 3.
Definition sysctl_sched_wakeup_granularity : Z := 1000000.
Definition sysctl_sched_compat_yield : Z := 0.
Definition sysctl_sched_child_runs_first : Z := 0.
Definition NICE_0_LOAD : Z := 1024.
Definition ENQUEUE_WAKEUP : Z := 1.
Definition ENQUEUE_WAKING : Z := 2.
Definition DEQUEUE_SLEEP : Z := 1.
Definition SCHED_NORMAL : Z := 0.
Definition SCHED_BATCH : Z := 3.
Definition SCHED_IDLE : Z := 5.
Definition MAX_RT_PRIO : Z := 100.

Inductive feature : Type := GENTLE_FAIR_SLEEPERS | START_DEBIT | WAKEUP_PREEMPT | NEXT_BUDDY | LAST_BUDDY.

Definition sched_feat (f : feature) : bool := match f with NEXT_BUDDY => false | _ => true end.

(** * Weights *)

Definition WMULT_CONST : Z := 4294967295.

Definition SRR (x y : Z) : Z := Z.shiftr (u64 (x + Z.shiftl 1 (y - 1))) y.

(** The result and the load with its inverse filled in. *)
Definition calc_delta_mine (delta_exec weight0 : Z) (lw : load_weight) : option (Z * load_weight) :=
  lw ← (if inv_weight lw =? 0 then
          if u32 (weight lw + 1) =? 0 then None
          else Some (LoadWeight (weight lw) (u32 (1 + u32 (WMULT_CONST - weight lw / 2) / u32 (weight lw + 1))))
        else Some lw);
  let tmp := u64 (delta_exec * weight0) in
  let tmp := if WMULT_CONST <? tmp then SRR (u64 (SRR tmp 16 * inv_weight lw)) 16
             else SRR (u64 (tmp * inv_weight lw)) 32 in
  Some (u32 (Z.min tmp 2147483647), lw).

Definition update_load_add (inc : Z) (lw : load_weight) : load_weight := LoadWeight (u32 (weight lw + inc)) 0.
Definition update_load_sub (dec : Z) (lw : load_weight) : load_weight := LoadWeight (u32 (weight lw - dec)) 0.

Definition WEIGHT_IDLEPRIO : Z := 3.
Definition WMULT_IDLEPRIO : Z := 1431655765.

Definition prio_to_weight : list Z :=
  [88761; 71755; 56483; 46273; 36291; 29154; 23254; 18705; 14949; 11916;
   9548; 7620; 6100; 4904; 3906; 3121; 2501; 1991; 1586; 1277;
   1024; 820; 655; 526; 423; 335; 272; 215; 172; 137;
   110; 87; 70; 56; 45; 36; 29; 23; 18; 15].

Definition prio_to_wmult : list Z :=
  [48388; 59856; 76040; 92818; 118348; 147320; 184698; 229616; 287308; 360437;
   449829; 563644; 704093; 875809; 1099582; 1376151; 1717300; 2157191; 2708050; 3363326;
   4194304; 5237765; 6557202; 8165337; 10153587; 12820798; 15790321; 19976592; 24970740; 31350126;
   39045157; 49367440; 61356676; 76695844; 95443717; 119304647; 148102320; 186737708; 238609294; 286331153].

(** [rt]: task_has_rt_policy. *)
Definition set_load_weight (rt : bool) (policy static_prio : Z) : option load_weight :=
  if rt then Some (LoadWeight 0 WMULT_CONST)
  else if policy =? SCHED_IDLE then Some (LoadWeight WEIGHT_IDLEPRIO WMULT_IDLEPRIO)
  else
    w ← rd prio_to_weight (static_prio - MAX_RT_PRIO);
    i ← rd prio_to_wmult (static_prio - MAX_RT_PRIO);
    Some (LoadWeight w i).

(** * The timeline *)

(** The functions max_vruntime and min_vruntime of the source. *)
Definition vmax (a b : Z) : Z := if 0 <? s64 (b - a) then b else a.
Definition vmin (a b : Z) : Z := if s64 (b - a) <? 0 then b else a.

Definition entity_before (a b : sched_entity) : bool := s64 (vruntime a - vruntime b) <? 0.

Definition entity_key (min : Z) (e : sched_entity) : Z := s64 (vruntime e - min).

Definition update_min_vruntime : K unit :=
  min ← get_cfs min_vruntime;
  c ← get_cfs curr;
  left ← get_cfs rb_leftmost;
  v ← (if negb (c =? 0) then e ← ent c; mret (vruntime e) else mret min);
  v ← (if negb (left =? 0) then
         e ← ent left;
         mret (if c =? 0 then vruntime e else vmin v (vruntime e))
       else mret v);
  set_cfs (put_min (vmax min v)).

(** The key of an entry of the tree. *)
Definition entry_key (all : gmap Z task_struct) (min p : Z) : M Z := fun w =>
  match all !! p with Some t => Some (entity_key min (se t), w) | None => None end.

(** The way down to the place of a new entity with the key [key]: the link, its node, and whether
    every turn was to the left. *)
Definition find_link (key : Z) (lookup_key : Z -> M Z) : M (link * Z * bool) :=
  walk (fun '(lk, parent, leftmost) =>
    p ← get_link lk;
    if p =? 0 then mret (Ret (lk, parent, leftmost))
    else
      k ← lookup_key p;
      mret (Next (if key <? k then (ChildLink L p, p, leftmost) else (ChildLink R p, p, false))))
    (RootLink, 0, true).

Definition __enqueue_entity (p : Z) : K unit :=
  min ← get_cfs min_vruntime;
  e ← ent p;
  all ← gets all_tasks;
  '(lk, parent, leftmost) ← tree (find_link (entity_key min e) (entry_key all min));
  _ ← (if (leftmost : bool) then set_cfs (put_leftmost p) else mret tt);
  _ ← tree (rb_link_node p parent lk);
  tree (rb_insert_color p).

Definition __dequeue_entity (p : Z) : K unit :=
  left ← get_cfs rb_leftmost;
  _ ← (if left =? p then n ← tree (rb_next p); set_cfs (put_leftmost n) else mret tt);
  tree (rb_erase p).

Definition __pick_next_entity : K Z := get_cfs rb_leftmost.

Definition __pick_last_entity : K Z := tree rb_last.

(** * Slices *)

(** Its side effect is the inverse of the weight kept in the entity. *)
Definition calc_delta_fair (delta p : Z) : K Z :=
  e ← ent p;
  if negb (weight (se_load e) =? NICE_0_LOAD) then
    '(d, lw) ← value (calc_delta_mine delta NICE_0_LOAD (se_load e));
    _ ← put_ent p (with_load lw);
    mret d
  else mret delta.

Definition __sched_period (nr : Z) : Z :=
  if sched_nr_latency <? nr then u64 (sysctl_sched_min_granularity * nr) else sysctl_sched_latency.

Definition sched_slice (p : Z) : K Z :=
  e ← ent p;
  nr ← get_cfs nr_running;
  let slice := __sched_period (u32 (nr + if on_rq e then 0 else 1)) in
  lw ← get_cfs cfs_load;
  if on_rq e then
    '(slice, lw) ← value (calc_delta_mine (u32 slice) (weight (se_load e)) lw);
    _ ← set_cfs (put_load lw);
    mret slice
  else
    '(slice, _) ← value (calc_delta_mine (u32 slice) (weight (se_load e)) (update_load_add (weight (se_load e)) lw));
    mret slice.

Definition sched_vslice (p : Z) : K Z := s ← sched_slice p; calc_delta_fair s p.

(** * Accounting *)

Definition __update_curr (c delta_exec : Z) : K unit :=
  _ ← put_ent c (fun e => with_sum (u64 (sum_exec_runtime e + delta_exec)) e);
  d ← calc_delta_fair delta_exec c;
  _ ← put_ent c (fun e => with_vruntime (u64 (vruntime e + d)) e);
  update_min_vruntime.

Definition update_curr : K unit :=
  c ← get_cfs curr;
  now ← gets clock;
  if c =? 0 then mret tt
  else
    e ← ent c;
    let delta_exec := u32 (now - exec_start e) in
    if delta_exec =? 0 then mret tt
    else
      _ ← __update_curr c delta_exec;
      put_ent c (with_start now).

Definition update_stats_curr_start (p : Z) : K unit :=
  now ← gets clock;
  put_ent p (with_start now).

Definition account_entity_enqueue (p : Z) : K unit :=
  e ← ent p;
  let w := weight (se_load e) in
  _ ← set_cfs (fun c => put_load (update_load_add w (cfs_load c)) c);
  _ ← set_rq_load (update_load_add w);
  _ ← set_cfs (fun c => put_tasks (p :: tasks c) c);
  _ ← set_cfs (fun c => put_nr (u32 (nr_running c + 1)) c);
  put_ent p (with_on_rq true).

Definition account_entity_dequeue (p : Z) : K unit :=
  e ← ent p;
  let w := weight (se_load e) in
  _ ← set_cfs (fun c => put_load (update_load_sub w (cfs_load c)) c);
  _ ← set_rq_load (update_load_sub w);
  _ ← set_cfs (fun c => put_tasks (filter (.≠ p) (tasks c)) c);
  _ ← set_cfs (fun c => put_nr (u32 (nr_running c - 1)) c);
  put_ent p (with_on_rq false).

(** * Entities *)

Definition place_entity (p : Z) (initial : bool) : K unit :=
  v ← get_cfs min_vruntime;
  v ← (if initial && sched_feat START_DEBIT then s ← sched_vslice p; mret (u64 (v + s)) else mret v);
  let v := if initial then v
           else
             let thresh := sysctl_sched_latency in
             let thresh := if sched_feat GENTLE_FAIR_SLEEPERS then Z.shiftr thresh 1 else thresh in
             u64 (v - thresh) in
  put_ent p (fun e => with_vruntime (vmax (vruntime e) v) e).

Definition enqueue_entity (p flags : Z) : K unit :=
  _ ← (if (Z.land flags ENQUEUE_WAKEUP =? 0) || negb (Z.land flags ENQUEUE_WAKING =? 0) then
         min ← get_cfs min_vruntime;
         put_ent p (fun e => with_vruntime (u64 (vruntime e + min)) e)
       else mret tt);
  _ ← update_curr;
  _ ← account_entity_enqueue p;
  _ ← (if negb (Z.land flags ENQUEUE_WAKEUP =? 0) then place_entity p false else mret tt);
  c ← get_cfs curr;
  if negb (p =? c) then __enqueue_entity p else mret tt.

Definition __clear_buddies (p : Z) : K unit :=
  _ ← set_cfs (fun c => if (p =? 0) || (last c =? p) then put_last 0 c else c);
  set_cfs (fun c => if (p =? 0) || (next c =? p) then put_next 0 c else c).

Definition clear_buddies (p : Z) : K unit := if p =? 0 then mret tt else __clear_buddies p.

Definition dequeue_entity (p flags : Z) : K unit :=
  _ ← update_curr;
  _ ← clear_buddies p;
  c ← get_cfs curr;
  _ ← (if negb (p =? c) then __dequeue_entity p else mret tt);
  _ ← account_entity_dequeue p;
  _ ← update_min_vruntime;
  if Z.land flags DEQUEUE_SLEEP =? 0 then
    min ← get_cfs min_vruntime;
    put_ent p (fun e => with_vruntime (u64 (vruntime e - min)) e)
  else mret tt.

Definition check_preempt_tick (c : Z) : K unit :=
  ideal ← sched_slice c;
  e ← ent c;
  let delta_exec := u32 (sum_exec_runtime e - prev_sum_exec_runtime e) in
  rc ← gets rq_curr;
  if ideal <? delta_exec then
    _ ← resched_task rc;
    clear_buddies c
  else if negb (sched_feat WAKEUP_PREEMPT) then mret tt
  else if delta_exec <? sysctl_sched_min_granularity then mret tt
  else
    nr ← get_cfs nr_running;
    if 1 <? nr then
      left ← __pick_next_entity;
      l ← ent left;
      if ideal <? s64 (vruntime e - vruntime l) then resched_task rc else mret tt
    else mret tt.

Definition set_next_entity (p : Z) : K unit :=
  e ← ent p;
  _ ← (if on_rq e then __dequeue_entity p else mret tt);
  _ ← update_stats_curr_start p;
  _ ← set_cfs (put_curr p);
  put_ent p (fun e => with_prev (sum_exec_runtime e) e).

Definition wakeup_gran (p : Z) : K Z :=
  e ← ent p;
  if negb (weight (se_load e) =? NICE_0_LOAD) then calc_delta_fair sysctl_sched_wakeup_granularity p
  else mret sysctl_sched_wakeup_granularity.

Definition wakeup_preempt_entity (c p : Z) : K Z :=
  ec ← ent c;
  ep ← ent p;
  let vdiff := s64 (vruntime ec - vruntime ep) in
  if vdiff <=? 0 then mret (-1)
  else
    gran ← wakeup_gran p;
    mret (if gran <? vdiff then 1 else 0).

(** [if (buddy && wakeup_preempt_entity(buddy, left) < 1) se = buddy;] *)
Definition prefer (buddy left p : Z) : K Z :=
  if negb (buddy =? 0) then
    r ← wakeup_preempt_entity buddy left;
    mret (if r <? 1 then buddy else p)
  else mret p.

Definition pick_next_entity : K Z :=
  left ← __pick_next_entity;
  n ← get_cfs next;
  p ← prefer n left left;
  l ← get_cfs last;
  p ← prefer l left p;
  _ ← clear_buddies p;
  mret p.

Definition put_prev_entity (p : Z) : K unit :=
  e ← ent p;
  _ ← (if on_rq e then update_curr else mret tt);
  e ← ent p;
  _ ← (if on_rq e then __enqueue_entity p else mret tt);
  set_cfs (put_curr 0).

Definition entity_tick (c : Z) : K unit :=
  _ ← update_curr;
  nr ← get_cfs nr_running;
  if (1 <? nr) || negb (sched_feat WAKEUP_PREEMPT) then check_preempt_tick c else mret tt.

(** * The scheduling class *)

Definition enqueue_task_fair (p flags : Z) : K unit :=
  e ← ent p;
  if on_rq e then mret tt else enqueue_entity p flags.

Definition dequeue_task_fair (p flags : Z) : K unit := dequeue_entity p flags.

Definition yield_task_fair (now : Z) : K unit :=
  c ← gets rq_curr;
  nr ← get_cfs nr_running;
  if nr =? 1 then mret tt
  else
    _ ← clear_buddies c;
    t ← get_task c;
    if (sysctl_sched_compat_yield =? 0) && negb (policy t =? SCHED_BATCH) then
      _ ← update_rq_clock now;
      update_curr
    else
      rightmost ← __pick_last_entity;
      if rightmost =? 0 then mret tt
      else
        er ← ent rightmost;
        if entity_before er (se t) then mret tt
        else put_ent c (with_vruntime (u64 (vruntime er + 1))).

Definition set_last_buddy (p : Z) : K unit :=
  t ← get_task p;
  if negb (policy t =? SCHED_IDLE) then set_cfs (put_last p) else mret tt.

Definition set_next_buddy (p : Z) : K unit :=
  t ← get_task p;
  if negb (policy t =? SCHED_IDLE) then set_cfs (put_next p) else mret tt.

(** From the label [preempt] on. *)
Definition preempt (c : Z) (scale : bool) : K unit :=
  _ ← resched_task c;
  e ← ent c;
  i ← gets idle;
  if negb (on_rq e) || (c =? i) then mret tt
  else if sched_feat LAST_BUDDY && scale then set_last_buddy c else mret tt.

Definition check_preempt_wakeup (p : Z) (fork : bool) : K unit :=
  c ← gets rq_curr;
  nr ← get_cfs nr_running;
  let scale := sched_nr_latency <=? nr in
  t ← get_task p;
  if prio t <? MAX_RT_PRIO then preempt c scale
  else if negb (fair_class t) then mret tt
  else if c =? p then mret tt
  else
    _ ← (if sched_feat NEXT_BUDDY && scale && negb fork then set_next_buddy p else mret tt);
    resched ← gets need_resched;
    if bool_decide (c ∈ resched) then mret tt
    else if negb (policy t =? SCHED_NORMAL) then mret tt
    else
      tc ← get_task c;
      if policy tc =? SCHED_IDLE then preempt c scale
      else if negb (sched_feat WAKEUP_PREEMPT) then mret tt
      else
        _ ← update_curr;
        r ← wakeup_preempt_entity c p;
        if r =? 1 then preempt c scale else mret tt.

Definition pick_next_task_fair : K Z :=
  nr ← get_cfs nr_running;
  if nr =? 0 then mret 0
  else
    p ← pick_next_entity;
    _ ← set_next_entity p;
    mret p.

Definition put_prev_task_fair (prev : Z) : K unit := put_prev_entity prev.

Definition set_curr_task_fair : K unit := c ← gets rq_curr; set_next_entity c.

Definition task_tick_fair (c : Z) : K unit := entity_tick c.

Definition task_fork_fair (p : Z) : K unit :=
  c ← get_cfs curr;
  _ ← update_curr;
  _ ← (if negb (c =? 0) then e ← ent c; put_ent p (with_vruntime (vruntime e)) else mret tt);
  _ ← place_entity p true;
  _ ← (if negb (sysctl_sched_child_runs_first =? 0) && negb (c =? 0) then
         ec ← ent c;
         ep ← ent p;
         if entity_before ec ep then
           _ ← put_ent c (with_vruntime (vruntime ep));
           _ ← put_ent p (with_vruntime (vruntime ec));
           rc ← gets rq_curr;
           resched_task rc
         else mret tt
       else mret tt);
  min ← get_cfs min_vruntime;
  put_ent p (fun e => with_vruntime (u64 (vruntime e - min)) e).

(** The methods of the other classes that the fair class reaches through rq->curr->sched_class; a
    current task that is not of the fair class is the idle task of the idle class or of the
    real-time class. *)
Definition check_preempt_curr_rt (p : Z) : K unit :=
  t ← get_task p;
  c ← gets rq_curr;
  tc ← get_task c;
  if prio t <? prio tc then resched_task c else mret tt.

Definition check_preempt_curr_idle : K unit := i ← gets idle; resched_task i.

Definition check_preempt_curr (p : Z) (fork : bool) : K unit :=
  c ← gets rq_curr;
  tc ← get_task c;
  i ← gets idle;
  _ ← (if fair_class tc then check_preempt_wakeup p fork
       else if c =? i then check_preempt_curr_idle
       else check_preempt_curr_rt p);
  resched ← gets need_resched;
  if bool_decide (p ∈ resched) then set_skip true else mret tt.

Definition prio_changed_fair (p oldprio : Z) (running : bool) : K unit :=
  if running then
    t ← get_task p;
    if oldprio <? prio t then c ← gets rq_curr; resched_task c else mret tt
  else check_preempt_curr p false.

Definition switched_to_fair (p : Z) (running : bool) : K unit :=
  if running then c ← gets rq_curr; resched_task c else check_preempt_curr p false.

(** With HZ = 100. *)
Definition NS_TO_JIFFIES (time : Z) : Z := u32 time / 10000000.

Definition get_rr_interval_fair (p : Z) : K Z :=
  lw ← get_cfs cfs_load;
  if negb (weight lw =? 0) then
    slice ← sched_slice p;
    mret (NS_TO_JIFFIES slice)
  else mret 0.

Definition init_cfs_rq : cfs_rq := Cfs (LoadWeight 0 0) 0 (u64 (- Z.shiftl 1 20)) 0 [] 0 0 0.
