(* ===== verification/SchedTime.v ===== *)
(** Virtual times: comparisons of 64-bit counters that wrap, and the division by weights. *)

From S2P Require Import Prelude.
From stdpp Require Import gmap.
From Stdlib Require Import Lia.
From S2P Require Import Rbtree Sched.
Open Scope Z_scope.

(** * Wrapping counters *)

(** The values are less than 2^63 apart: they lie in a window of that length. *)
Definition in_window (vs : list Z) : Prop :=
  exists b, Forall (fun v => u64 (v - b) < 9223372036854775808) vs.

Lemma s64_window b x y :
  u64 (x - b) < 9223372036854775808 -> u64 (y - b) < 9223372036854775808 -> s64 (y - x) = u64 (y - b) - u64 (x - b).
Proof. unfold s64, u64. lia. Qed.

Lemma s64_range x : -9223372036854775808 <= s64 x < 9223372036854775808.
Proof. unfold s64. lia. Qed.

Lemma s64_0 x : s64 (x - x) = 0.
Proof. by rewrite Z.sub_diag. Qed.

Lemma vmax_forward a b : 0 <= s64 (vmax a b - a).
Proof. unfold vmax. destruct (0 <? s64 (b - a)) eqn:E; zbool; [lia|]. by rewrite s64_0. Qed.

(** In a window the functions are the maximum and the minimum of the times. *)
Lemma vmax_window b x y :
  u64 (x - b) < 9223372036854775808 -> u64 (y - b) < 9223372036854775808 ->
  u64 (vmax x y - b) = Z.max (u64 (x - b)) (u64 (y - b)).
Proof.
  intros Hx Hy. unfold vmax. rewrite (s64_window b) by done. destruct (0 <? _) eqn:E; zbool; lia.
Qed.

Lemma vmin_window b x y :
  u64 (x - b) < 9223372036854775808 -> u64 (y - b) < 9223372036854775808 ->
  u64 (vmin x y - b) = Z.min (u64 (x - b)) (u64 (y - b)).
Proof.
  intros Hx Hy. unfold vmin. rewrite (s64_window b) by done. destruct (_ <? 0) eqn:E; zbool; lia.
Qed.

(** * Division by a weight *)

(** The inverse that calc_delta_mine fills in is 2^32 / (weight + 1), rounded. *)
Definition inverse (w : Z) : Z := 1 + (4294967295 - w / 2) / (w + 1).

Lemma inverse_bounds w : 0 < w < 4294967295 ->
  4294967296 - w / 2 <= (w + 1) * inverse w <= 4294967296 + w - w / 2 /\ 0 < inverse w <= 2147483648.
Proof.
  intros Hw. unfold inverse. set (k := (4294967295 - w / 2) / (w + 1)).
  assert ((w + 1) * k <= 4294967295 - w / 2 < (w + 1) * k + (w + 1)) as Hk.
  { unfold k. pose proof (Z.div_mod (4294967295 - w / 2) (w + 1)). pose proof (Z.mod_pos_bound (4294967295 - w / 2) (w + 1)). lia. }
  assert (0 <= w / 2 <= w /\ 0 <= k) as [? ?] by (split; [lia|unfold k; apply Z.div_pos; lia]).
  split; [nia|]. split; [lia|]. nia.
Qed.

Lemma calc_inverse d w0 w :
  0 < w < 4294967295 -> calc_delta_mine d w0 (LoadWeight w 0) = calc_delta_mine d w0 (LoadWeight w (inverse w)).
Proof.
  intros Hw. pose proof (inverse_bounds w Hw) as [_ Hi]. unfold calc_delta_mine. cbn [inv_weight weight Z.eqb].
  assert (u32 (w + 1) = w + 1) as -> by (unfold u32; apply Z.mod_small; lia).
  rewrite (proj2 (Z.eqb_neq (w + 1) 0)) by lia. rewrite (proj2 (Z.eqb_neq (inverse w) 0)) by lia.
  assert (u32 (WMULT_CONST - w / 2) = 4294967295 - w / 2) as -> by (unfold u32, WMULT_CONST; apply Z.mod_small; lia).
  change (1 + (4294967295 - w / 2) / (w + 1)) with (inverse w).
  assert (u32 (inverse w) = inverse w) as -> by (unfold u32; apply Z.mod_small; lia). done.
Qed.

Lemma srr_bounds x y : 0 < y -> 0 <= x -> x + 2 ^ (y - 1) < 18446744073709551616 ->
  2 ^ y * SRR x y <= x + 2 ^ (y - 1) < 2 ^ y * SRR x y + 2 ^ y.
Proof.
  intros Hy Hx Hb. unfold SRR. rewrite Z.shiftl_mul_pow2, Z.mul_1_l, Z.shiftr_div_pow2 by lia.
  assert (0 < 2 ^ (y - 1)) by (apply Z.pow_pos_nonneg; lia). assert (0 < 2 ^ y) by (apply Z.pow_pos_nonneg; lia).
  unfold u64. rewrite Z.mod_small by lia.
  pose proof (Z.div_mod (x + 2 ^ (y - 1)) (2 ^ y)). pose proof (Z.mod_pos_bound (x + 2 ^ (y - 1)) (2 ^ y)). lia.
Qed.

(** [tmp / m], by the inverse [i] of [m]. *)
Definition scaled (tmp i : Z) : Z :=
  if WMULT_CONST <? tmp then SRR (u64 (SRR tmp 16 * i)) 16 else SRR (u64 (tmp * i)) 32.

Lemma scaled_small tmp m i :
  0 < m -> 0 < i <= 2147483648 -> 4294967296 - m <= m * i <= 4294967296 + m -> 0 <= tmp <= 4294967295 ->
  tmp - 2 * m <= m * scaled tmp i <= tmp + 2 * m /\ 0 <= scaled tmp i.
Proof.
  intros Hm Hi Hmi Ht. unfold scaled, WMULT_CONST. rewrite (proj2 (Z.ltb_ge 4294967295 tmp)) by lia.
  assert (0 <= tmp * i <= 9223372036854775808) as Hti by nia.
  assert (u64 (tmp * i) = tmp * i) as -> by (unfold u64; apply Z.mod_small; lia).
  pose proof (srr_bounds (tmp * i) 32 ltac:(lia) ltac:(lia) ltac:(change (2 ^ (32 - 1)) with 2147483648; lia)) as Hr.
  set (r := SRR (tmp * i) 32) in *. change (2 ^ 32) with 4294967296 in Hr. change (2 ^ (32 - 1)) with 2147483648 in Hr.
  assert (m * (tmp * i) <= tmp * (4294967296 + m)) as Hu by nia. assert (tmp * (4294967296 - m) <= m * (tmp * i)) as Hl by nia.
  assert (tmp * m <= 4294967295 * m) by nia. split; [|lia].
  split; apply (Z.mul_le_mono_pos_l _ _ 4294967296); try lia; nia.
Qed.

Lemma scaled_large tmp m i :
  0 < m -> 0 < i <= 2147483648 -> 4294967296 - m <= m * i <= 4294967296 + m -> 4294967295 < tmp < 281474976710656 ->
  8589934592 * Z.abs (m * scaled tmp i - tmp) <= 17179869184 * m + tmp * (65536 + 2 * m) /\ 0 <= scaled tmp i.
Proof.
  intros Hm Hi Hmi Ht. unfold scaled, WMULT_CONST. rewrite (proj2 (Z.ltb_lt 4294967295 tmp)) by lia.
  pose proof (srr_bounds tmp 16 ltac:(lia) ltac:(lia) ltac:(change (2 ^ (16 - 1)) with 32768; lia)) as Ha.
  set (a := SRR tmp 16) in *. change (2 ^ 16) with 65536 in Ha. change (2 ^ (16 - 1)) with 32768 in Ha.
  assert (0 <= a <= 4294967296) as Ha' by lia. assert (0 <= a * i <= 9223372036854775808) as Hai by nia.
  assert (u64 (a * i) = a * i) as -> by (unfold u64; apply Z.mod_small; lia).
  pose proof (srr_bounds (a * i) 16 ltac:(lia) ltac:(lia) ltac:(change (2 ^ (16 - 1)) with 32768; lia)) as Hr.
  set (r := SRR (a * i) 16) in *. change (2 ^ 16) with 65536 in Hr. change (2 ^ (16 - 1)) with 32768 in Hr.
  split; [|lia].
  assert (m * (a * i) <= a * (4294967296 + m)) as Hu by nia. assert (a * (4294967296 - m) <= m * (a * i)) as Hl by nia.
  assert (65536 * (a * m) <= (tmp + 32768) * m) as Ham by nia.
  assert (65536 * (m * r) <= m * (a * i) + 32768 * m) as Hru by nia.
  assert (m * (a * i) + 32768 * m <= 65536 * (m * r) + 65536 * m) as Hrl by nia.
  lia.
Qed.
