(* ===== verification/SchedTree.v ===== *)
(** The timeline of runnable entities: __enqueue_entity, __dequeue_entity and the ends. *)

From S2P Require Import Prelude.
From stdpp Require Import gmap sorting.
From Stdlib Require Import Lia.
From S2P Require Import Rbtree RbtreeRep RbtreeInsert RbtreeErase RbtreeWalk.
From S2P Require Import Sched SchedTime.
Open Scope Z_scope.

(** * The way down *)

Section find.
Context (s : list Z) (Hs : wf s) (w : world) (key : Z) (k : Z -> Z) (lookup_key : Z -> M Z).
Context (Hk : forall p, p ∈ s -> lookup_key p w = Some (k p, w)).

Definition turns : link * Z * bool -> M (ctl (link * Z * bool) (link * Z * bool)) :=
  fun '(lk, parent, leftmost) =>
    p ← get_link lk;
    if p =? 0 then mret (Ret (lk, parent, leftmost))
    else
      k ← lookup_key p;
      mret (Next (if key <? k then (ChildLink L p, p, leftmost) else (ChildLink R p, p, false))).

(** Every step so far was to the left. *)
Definition all_left (ctx : list frame) : bool := forallb (fun f => match fside f with L => true | R => false end) ctx.

Lemma get_link_at ctx t : at_pos s w ctx t -> get_link (link_of ctx) w = Some (ptr t, w).
Proof.
  intros (Hc & _ & _). destruct ctx as [|[d c x sib] ctx]; simpl in *.
  - unfold get_root. by rewrite Hc.
  - destruct Hc as (Hx & _ & _). by rewrite (child_run _ _ _ _ Hx), get_mkn.
Qed.

(** The keys on both sides, where the sequence is sorted. *)
Definition between (ctx : list frame) : Prop :=
  Forall (fun a => k a <= key) (before ctx) /\ Forall (fun b => key < k b) (after ctx).

Lemma turn_at ctx t :
  at_pos s w ctx t ->
  turns (link_of ctx, up ctx, all_left ctx) w =
  Some (match t with
        | Leaf => Ret (link_of ctx, up ctx, all_left ctx)
        | Node c l x r =>
            Next (if key <? k x then (ChildLink L x, x, all_left ctx) else (ChildLink R x, x, false))
        end, w).
Proof.
  intros Hat. unfold turns. rewrite (bind_run _ _ _ _ _ (get_link_at ctx t Hat)), (ptr_node s Hs _ _ _ Hat).
  destruct t as [|c l x r]; [done|]. rewrite (bind_run _ _ w (k x) w); [done|]. apply Hk.
  destruct Hat as (_ & _ & <-). apply elem_of_around. left. apply (elem_of_mk L c l x r). auto.
Qed.

(** Sorted sequences around a node. *)
Lemma sorted_node ctx c l x r :
  StronglySorted (fun a b => k a <= k b) (around ctx (Node c l x r)) ->
  Forall (fun a => k a <= k x) (inorder l) /\ Forall (fun b => k x <= k b) (inorder r).
Proof.
  unfold around. simpl. intros H. apply StronglySorted_app in H as (_ & _ & H). apply StronglySorted_app in H as (_ & H & _).
  apply StronglySorted_app in H as (H1 & _ & H2). apply StronglySorted_inv in H2 as [_ H2]. split; [|done].
  apply Forall_forall. intros a Ha. apply H1; set_solver.
Qed.

Lemma find_loop fuel ctx t :
  at_pos s w ctx t -> (depth t < fuel)%nat ->
  exists ctx', iter fuel turns (link_of ctx, up ctx, all_left ctx) w =
      Some ((link_of ctx', up ctx', all_left ctx'), w) /\ at_pos s w ctx' Leaf /\
    (StronglySorted (fun a b => k a <= k b) s -> between ctx -> between ctx').
Proof.
  revert ctx t. induction fuel as [|fuel IH]; intros ctx t Hat Hf; [lia|]. simpl iter.
  rewrite (bind_run _ _ _ _ _ (turn_at ctx t Hat)). destruct t as [|c l x r]; [by exists ctx|]. simpl in Hf.
  assert (StronglySorted (fun a b => k a <= k b) s ->
    Forall (fun a => k a <= k x) (inorder l) /\ Forall (fun b => k x <= k b) (inorder r)) as Hsort.
  { intros H. apply (sorted_node ctx c l x r). by destruct Hat as (_ & _ & ->). }
  destruct (key <? k x) eqn:E; zbool.
  - destruct (IH (Frame L c x r :: ctx) l) as (ctx' & Hi & Hat' & Hb); [by apply at_plug|lia|].
    exists ctx'. split; [exact Hi|]. split; [done|]. intros Hst [Hbe Haf]. apply Hb; [done|]. split; [done|]. simpl.
    destruct (Hsort Hst) as [_ Hr]. constructor; [lia|]. apply Forall_app. split; [|done].
    eapply Forall_impl; [exact Hr|]. simpl. lia.
  - destruct (IH (Frame R c x l :: ctx) r) as (ctx' & Hi & Hat' & Hb); [by apply at_plug|lia|].
    exists ctx'. split; [exact Hi|]. split; [done|]. intros Hst [Hbe Haf]. apply Hb; [done|]. split; [|done]. simpl.
    destruct (Hsort Hst) as [Hl _]. rewrite !Forall_app, Forall_singleton. split; [done|]. split; [|lia].
    eapply Forall_impl; [exact Hl|]. simpl. lia.
Qed.
End find.

Lemma depth_length t : (depth t <= length (inorder t))%nat.
Proof. induction t as [|c l IHl x r IHr]; simpl; [lia|]. rewrite length_app. simpl. lia. Qed.

Lemma all_left_before ctx : all_left ctx = bool_decide (before ctx = []).
Proof.
  induction ctx as [|[[] c x sib] ctx IH]; simpl; [done|done|]. symmetry. apply bool_decide_eq_false.
  intros H. apply app_eq_nil in H as [_ H]. by apply app_eq_nil in H as [_ H].
Qed.

Lemma ctx_free s w ctx : at_pos s w ctx Leaf -> free_link w (before ctx) (after ctx) (up ctx) (link_of ctx).
Proof.
  intros Hat. split; [by rewrite (get_link_at s w ctx Leaf Hat)|].
  destruct ctx as [|[[] c x sib] ctx]; simpl; [done|done|]. split; [done|]. rewrite app_assoc. apply last_snoc.
Qed.

Lemma find_link_spec s w key k lookup_key :
  rb_tree s w -> (forall p, p ∈ s -> lookup_key p w = Some (k p, w)) ->
  exists pre post parent lk, find_link key lookup_key w = Some ((lk, parent, bool_decide (pre = [])), w) /\
    s = pre ++ post /\ free_link w pre post parent lk /\
    (StronglySorted (fun a b => k a <= k b) s -> Forall (fun a => k a <= key) pre /\ Forall (fun b => key < k b) post).
Proof.
  intros [Hs (t & Hat & _)] Hk. pose proof Hat as (_ & _ & Har). rewrite around_plug_all in Har. simpl in Har.
  destruct (find_loop s Hs w key k lookup_key Hk (S (S (size (nodes w)))) [] t Hat) as (ctx & E & Hat' & Hb).
  { pose proof (depth_length t). rewrite Har in *. pose proof (at_size s Hs _ _ _ Hat). lia. }
  exists (before ctx), (after ctx), (up ctx), (link_of ctx). rewrite <- all_left_before. split; [exact E|].
  split; [by destruct Hat' as (_ & _ & <-)|]. split; [by apply (ctx_free s)|]. intros Hst. apply Hb; [done|]. by split.
Qed.

(** * Programs on the run queue *)

Lemma kbind {A B} (e : K A) (f : A -> K B) q x q' : e q = Some (x, q') -> (e ≫= f) q = f x q'.
Proof. intros He. unfold mbind, K_bind. by rewrite He. Qed.

Lemma tree_run {A} (e : M A) q x w :
  e (timeline q) = Some (x, w) ->
  tree e q = Some (x, Rq (cfs q) w (all_tasks q) (rq_load q) (clock q) (rq_curr q) (idle q) (need_resched q) (skip_clock_update q)).
Proof. intros He. unfold tree. by rewrite He. Qed.

Lemma tree_read {A} (e : M A) q x : e (timeline q) = Some (x, timeline q) -> tree e q = Some (x, q).
Proof. intros He. rewrite (tree_run _ _ _ _ He). by destruct q. Qed.

Lemma ent_run q p t : all_tasks q !! p = Some t -> ent p q = Some (se t, q).
Proof. intros Ht. unfold ent, get_task, mbind, K_bind. by rewrite Ht. Qed.

(** Another tree and another leftmost entity. *)
Definition retree (q : rq) (w : world) (left : Z) : rq :=
  Rq (put_leftmost left (cfs q)) w (all_tasks q) (rq_load q) (clock q) (rq_curr q) (idle q) (need_resched q) (skip_clock_update q).

Lemma retree_same q w : retree q w (rb_leftmost (cfs q)) =
  Rq (cfs q) w (all_tasks q) (rq_load q) (clock q) (rq_curr q) (idle q) (need_resched q) (skip_clock_update q).
Proof. unfold retree, put_leftmost. by destruct (cfs q). Qed.

(** The virtual time of a task, and that one task is not later than another. *)
Definition vof (all : gmap Z task_struct) (p : Z) : Z := match all !! p with Some t => vruntime (se t) | None => 0 end.

Definition not_later (all : gmap Z task_struct) (a b : Z) : Prop := 0 <= s64 (vof all b - vof all a).

(** The timeline: a valid tree of tasks, and its leftmost. *)
Definition timeline_ok (q : rq) (s : list Z) : Prop :=
  rb_tree s (timeline q) /\ rb_leftmost (cfs q) = first_of s /\ Forall (fun p => is_Some (all_tasks q !! p)) s.

Lemma first_of_app pre p post : first_of (pre ++ p :: post) = if bool_decide (pre = []) then p else first_of (pre ++ post).
Proof. by destruct pre. Qed.

Lemma wf_perm s s' : s ≡ₚ s' -> wf s -> wf s'.
Proof. intros Hp [Hnd Ha]. split; by rewrite <- Hp. Qed.

Lemma enqueue_run q s p :
  timeline_ok q s -> wf (p :: s) -> is_Some (nodes (timeline q) !! p) -> is_Some (all_tasks q !! p) ->
  exists pre post w, s = pre ++ post /\
    __enqueue_entity p q = Some (tt, retree q w (first_of (pre ++ p :: post))) /\
    rb_tree (pre ++ p :: post) w /\ same_out (pre ++ p :: post) (timeline q) w /\
    (let min := min_vruntime (cfs q) in let key p := s64 (vof (all_tasks q) p - min) in
     StronglySorted (fun a b => key a <= key b) s ->
     Forall (fun a => key a <= key p) pre /\ Forall (fun b => key p < key b) post).
Proof.
  intros (Ht & Hl & Hall) Hs Hn [tp Htp]. set (key := fun p => s64 (vof (all_tasks q) p - min_vruntime (cfs q))).
  destruct (find_link_spec s (timeline q) (key p) key (entry_key (all_tasks q) (min_vruntime (cfs q))) Ht) as
    (pre & post & parent & lk & Ef & -> & Hfree & Hsort).
  { intros a Ha. rewrite Forall_forall in Hall. destruct (Hall a Ha) as [ta Hta]. unfold entry_key, key, vof. by rewrite Hta. }
  destruct (insert_spec pre post p parent lk (timeline q) Ht) as (w & Ei & Htw & Ho); [|done|done|].
  { eapply wf_perm; [|exact Hs]. solve_Permutation. }
  exists pre, post, w. split; [done|]. split; [|done].
  unfold __enqueue_entity. rewrite (kbind _ _ q (min_vruntime (cfs q)) q) by done. rewrite (kbind _ _ _ _ _ (ent_run q p tp Htp)).
  rewrite (kbind _ _ q (all_tasks q) q) by done.
  assert (entity_key (min_vruntime (cfs q)) (se tp) = key p) as -> by (unfold entity_key, key, vof; by rewrite Htp).
  rewrite (kbind _ _ _ _ _ (tree_read _ q _ Ef)). cbn beta iota.
  unfold mbind, M_bind in Ei. destruct (rb_link_node p parent lk (timeline q)) as [[[] w1]|] eqn:El; [|done].
  rewrite first_of_app. case_bool_decide as Hpre.
  - rewrite (kbind _ _ q tt (retree q (timeline q) p)) by done.
    rewrite (kbind _ _ _ _ _ (tree_run _ (retree q (timeline q) p) _ _ El)). by erewrite tree_run by exact Ei.
  - rewrite (kbind _ _ q tt q) by done. rewrite (kbind _ _ _ _ _ (tree_run _ q _ _ El)). erewrite tree_run by exact Ei.
    rewrite <- Hl, retree_same. done.
Qed.

Lemma dequeue_run q pre p post :
  timeline_ok q (pre ++ p :: post) ->
  exists w, __dequeue_entity p q = Some (tt, retree q w (first_of (pre ++ post))) /\
    rb_tree (pre ++ post) w /\ same_out (pre ++ post) (timeline q) w.
Proof.
  intros (Ht & Hl & _). destruct (erase_spec pre p post (timeline q) Ht) as (w & Ee & Htw & Ho). exists w. split; [|done].
  unfold __dequeue_entity. rewrite (kbind _ _ q (rb_leftmost (cfs q)) q) by done. rewrite Hl, first_of_app.
  case_bool_decide as Hpre; [subst pre|].
  - rewrite Z.eqb_refl. pose proof (neighbour_spec [] p post (timeline q) R Ht) as En.
    erewrite kbind; [|by rewrite (kbind _ _ _ _ _ (tree_read (rb_next p) q _ En))]. by erewrite tree_run by exact Ee.
  - assert ((first_of (pre ++ post) =? p) = false) as ->.
    { apply Z.eqb_neq. destruct pre as [|a pre]; [done|]. destruct Ht as [[Hnd _] _]. apply NoDup_cons in Hnd as [Hn _].
      intros Ha. change (a = p) in Ha. subst a. set_solver. }
    rewrite (kbind _ _ q tt q) by done. erewrite tree_run by exact Ee.
    rewrite <- retree_same, Hl, first_of_app. by rewrite bool_decide_eq_false_2.
Qed.

Lemma pick_run q s : timeline_ok q s ->
  __pick_next_entity q = Some (first_of s, q) /\ __pick_last_entity q = Some (last_of s, q).
Proof.
  intros (Ht & Hl & _). split; [unfold __pick_next_entity, get_cfs, gets; by rewrite Hl|].
  apply tree_read. apply (end_of_spec s (timeline q) L Ht).
Qed.

(** * Order *)

(** The virtual times of the queue, less than 2^63 apart, and of min_vruntime. *)
Definition close (q : rq) (s : list Z) : Prop := in_window (min_vruntime (cfs q) :: (vof (all_tasks q) <$> s)).

Lemma window_elem b vs v : Forall (fun v => u64 (v - b) < 9223372036854775808) vs -> v ∈ vs -> u64 (v - b) < 9223372036854775808.
Proof. rewrite Forall_forall. auto. Qed.

(** In a window the keys are ordered like the times. *)
Lemma key_order q s a b :
  close q s -> a ∈ s -> b ∈ s ->
  let key p := s64 (vof (all_tasks q) p - min_vruntime (cfs q)) in
  s64 (vof (all_tasks q) b - vof (all_tasks q) a) = key b - key a.
Proof.
  intros [c Hc] Ha Hb key. apply Forall_cons in Hc as [Hm Hc].
  assert (forall x, x ∈ s -> u64 (vof (all_tasks q) x - c) < 9223372036854775808) as Hw
    by (intros x Hx; eapply window_elem; [exact Hc|]; by apply list_elem_of_fmap_2).
  unfold key. rewrite !(s64_window c); auto. lia.
Qed.

Lemma sorted_keys q s s' :
  close q s -> (forall a, a ∈ s' -> a ∈ s) -> StronglySorted (not_later (all_tasks q)) s' ->
  StronglySorted (fun a b => s64 (vof (all_tasks q) a - min_vruntime (cfs q)) <= s64 (vof (all_tasks q) b - min_vruntime (cfs q))) s'.
Proof.
  intros Hc. induction s' as [|a s' IH]; intros Hin Hst; [constructor|]. apply StronglySorted_inv in Hst as [Hst Ha].
  constructor; [apply IH; [set_solver|done]|]. rewrite Forall_forall in *. intros b Hb. specialize (Ha b Hb).
  unfold not_later in Ha. rewrite (key_order q s a b Hc) in Ha by set_solver. lia.
Qed.

(** A new entity goes after those that are not later and before the others, so the order is kept. *)
Lemma insert_order q pre p post :
  close q (pre ++ p :: post) -> StronglySorted (not_later (all_tasks q)) (pre ++ post) ->
  (let key p := s64 (vof (all_tasks q) p - min_vruntime (cfs q)) in
   StronglySorted (fun a b => key a <= key b) (pre ++ post) ->
   Forall (fun a => key a <= key p) pre /\ Forall (fun b => key p < key b) post) ->
  StronglySorted (not_later (all_tasks q)) (pre ++ p :: post) /\
  Forall (fun b => s64 (vof (all_tasks q) p - vof (all_tasks q) b) < 0) post.
Proof.
  intros Hc Hst Hk. destruct Hk as [Hpre Hpost]; [apply (sorted_keys q (pre ++ p :: post)); [done|set_solver|done]|].
  rewrite Forall_forall in Hpre, Hpost. apply StronglySorted_app in Hst as (Hx & Hspre & Hspost).
  assert (forall b, b ∈ post -> s64 (vof (all_tasks q) p - vof (all_tasks q) b) < 0) as Hb.
  { intros b Hb. rewrite (key_order q _ b p Hc) by set_solver. specialize (Hpost b Hb). lia. }
  split; [|by apply Forall_forall]. apply StronglySorted_app_2; [|done|constructor; [done|]].
  - intros a b Ha. rewrite elem_of_cons. intros [->|Hbp]; [|by apply Hx].
    unfold not_later. rewrite (key_order q _ a p Hc) by set_solver. specialize (Hpre a Ha). lia.
  - apply Forall_forall. intros b Hbp. unfold not_later. rewrite (key_order q _ p b Hc) by set_solver.
    specialize (Hpost b Hbp). lia.
Qed.
