(* ===== verification/SchedInv.v ===== *)
(** The invariant of the run queue, and the operations that leave the queue alone. *)

From S2P Require Import Prelude.
From stdpp Require Import gmap sorting.
From Stdlib Require Import Lia.
From S2P Require Import Rbtree RbtreeRep RbtreeInsert RbtreeWalk.
From S2P Require Import Sched SchedTime SchedTree.
Open Scope Z_scope.

(** * The invariant *)

Definition wof (all : gmap Z task_struct) (p : Z) : Z :=
  match all !! p with Some t => weight (se_load (se t)) | None => 0 end.

Definition total (all : gmap Z task_struct) (l : list Z) : Z := foldr (fun p n => wof all p + n) 0 l.

(** A task of the fair class, and one that is on its queue. *)
Definition fair (q : rq) (p : Z) : Prop := exists t, all_tasks q !! p = Some t /\ fair_class t = true.

Definition runnable (q : rq) (p : Z) : Prop :=
  exists t, all_tasks q !! p = Some t /\ fair_class t = true /\ on_rq (se t) = true.

Definition known (q : rq) (p : Z) : Prop := is_Some (all_tasks q !! p).

Record cfs_ok (q : rq) (s : list Z) : Prop := CfsOk {
  ok_timeline : timeline_ok q s;
  ok_memory : forall p, known q p -> addr p /\ is_Some (nodes (timeline q) !! p);
  ok_weights : forall p t, all_tasks q !! p = Some t ->
    0 <= weight (se_load (se t)) < 4294967295;
  ok_curr : curr (cfs q) = 0 \/ fair q (curr (cfs q));
  ok_tasks : NoDup (tasks (cfs q));
  ok_runnable : forall p, p ∈ tasks (cfs q) <-> runnable q p;
  ok_nr : nr_running (cfs q) = Z.of_nat (length (tasks (cfs q)));
  ok_load : weight (cfs_load (cfs q)) = total (all_tasks q) (tasks (cfs q));
  ok_total : total (all_tasks q) (tasks (cfs q)) < 4294967295;
  ok_next : next (cfs q) = 0 \/ next (cfs q) ∈ tasks (cfs q);
  ok_last : last (cfs q) = 0 \/ last (cfs q) ∈ tasks (cfs q)
}.

(** The timeline holds the runnable tasks but the current one. *)
Definition linked (q : rq) (s : list Z) : Prop := forall p, p ∈ s <-> p ∈ tasks (cfs q) /\ p <> curr (cfs q).

(** * Changes that leave the queue alone *)

(** All of a task but its accounting and, for the tasks [cs], the virtual time. *)
Definition core (cs : list Z) (p : Z) (t : task_struct) : bool * Z * Z * Z * bool * Z :=
  (on_rq (se t), weight (se_load (se t)), policy t, prio t, fair_class t, if bool_decide (p ∈ cs) then 0 else vruntime (se t)).

Definition shape (c : cfs_rq) : Z * Z * Z * list Z * Z * Z * Z :=
  (weight (cfs_load c), nr_running c, rb_leftmost c, tasks c, curr c, next c, last c).

Definition quiet (cs : list Z) (q q' : rq) : Prop :=
  timeline q' = timeline q /\ shape (cfs q') = shape (cfs q) /\ rq_curr q' = rq_curr q /\ idle q' = idle q /\
  forall p, core cs p <$> all_tasks q' !! p = core cs p <$> all_tasks q !! p.

#[export] Instance quiet_preorder cs : PreOrder (quiet cs).
Proof.
  split; [by intros q|]. intros q1 q2 q3 (H1 & H2 & H3 & H4 & H5) (G1 & G2 & G3 & G4 & G5).
  split_and!; [congruence..|]. intros p. by rewrite G5.
Qed.

Lemma quiet_more cs cs' q q' : (forall p, p ∈ cs -> p ∈ cs') -> quiet cs q q' -> quiet cs' q q'.
Proof.
  intros Hss (H1 & H2 & H3 & H4 & H5). split_and!; [done..|]. intros p. specialize (H5 p). unfold core in *.
  destruct (all_tasks q !! p) as [t|], (all_tasks q' !! p) as [t'|]; simpl in *; try done.
  injection H5 as E1 E2 E3 E4 E5 Hv. rewrite E1, E2, E3, E4, E5. do 2 f_equal.
  destruct (decide (p ∈ cs')) as [Hp|Hp]; [by rewrite !bool_decide_eq_true_2|].
  rewrite !bool_decide_eq_false_2 in Hv by set_solver. by rewrite !bool_decide_eq_false_2.
Qed.

(** The facts about tasks that are left alone. *)
Lemma quiet_task cs q q' p t' :
  quiet cs q q' -> all_tasks q' !! p = Some t' ->
  exists t, all_tasks q !! p = Some t /\ on_rq (se t') = on_rq (se t) /\
    weight (se_load (se t')) = weight (se_load (se t)) /\ policy t' = policy t /\
    ((p ∉ cs) -> vruntime (se t') = vruntime (se t)) /\ fair_class t' = fair_class t /\ prio t' = prio t.
Proof.
  intros (_ & _ & _ & _ & H) Ht'. specialize (H p). rewrite Ht' in H. destruct (all_tasks q !! p) as [t|]; [|done].
  exists t. split; [done|]. unfold core in H. simpl in H. injection H as -> -> -> -> -> Hv. split_and!; try done.
  intros Hp. by rewrite bool_decide_eq_false_2 in Hv.
Qed.

Lemma quiet_sym cs q q' : quiet cs q q' -> quiet cs q' q.
Proof. intros (H1 & H2 & H3 & H4 & H5). split_and!; try done. Qed.

Lemma quiet_known cs q q' p : quiet cs q q' -> known q' p <-> known q p.
Proof.
  intros Hq. split; intros [t Ht].
  - destruct (quiet_task _ _ _ _ _ Hq Ht) as (t' & Ht' & _). by exists t'.
  - destruct (quiet_task _ _ _ _ _ (quiet_sym _ _ _ Hq) Ht) as (t' & Ht' & _). by exists t'.
Qed.

Lemma quiet_runnable cs q q' p : quiet cs q q' -> runnable q' p <-> runnable q p.
Proof.
  intros Hq. split; intros (t & Ht & Hf & Ho).
  - destruct (quiet_task _ _ _ _ _ Hq Ht) as (t' & Ht' & Ho' & _ & _ & _ & Hf' & _). exists t'. by rewrite <- Ho', <- Hf'.
  - destruct (quiet_task _ _ _ _ _ (quiet_sym _ _ _ Hq) Ht) as (t' & Ht' & Ho' & _ & _ & _ & Hf' & _). exists t'. by rewrite <- Ho', <- Hf'.
Qed.

Lemma quiet_fair cs q q' p : quiet cs q q' -> fair q' p <-> fair q p.
Proof.
  intros Hq. split; intros (t & Ht & Hf).
  - destruct (quiet_task _ _ _ _ _ Hq Ht) as (t' & Ht' & _ & _ & _ & _ & Hf' & _). exists t'. by rewrite <- Hf'.
  - destruct (quiet_task _ _ _ _ _ (quiet_sym _ _ _ Hq) Ht) as (t' & Ht' & _ & _ & _ & _ & Hf' & _). exists t'. by rewrite <- Hf'.
Qed.

Lemma fair_known q p : fair q p -> known q p.
Proof. intros (t & Ht & _). by exists t. Qed.

Lemma quiet_wof cs q q' p : quiet cs q q' -> wof (all_tasks q') p = wof (all_tasks q) p.
Proof.
  intros (_ & _ & _ & _ & H). specialize (H p). unfold wof, core in *.
  destruct (all_tasks q !! p), (all_tasks q' !! p); simpl in *; by simplify_eq.
Qed.

Lemma quiet_total cs q q' l : quiet cs q q' -> total (all_tasks q') l = total (all_tasks q) l.
Proof. intros Hq. induction l as [|p l IH]; simpl; [done|]. by rewrite IH, (quiet_wof _ _ _ _ Hq). Qed.

Lemma quiet_vof cs q q' p : quiet cs q q' -> (p ∉ cs) -> vof (all_tasks q') p = vof (all_tasks q) p.
Proof.
  intros (_ & _ & _ & _ & H) Hp. specialize (H p). unfold vof, core in *. rewrite bool_decide_eq_false_2 in H by done.
  destruct (all_tasks q !! p), (all_tasks q' !! p); simpl in *; by simplify_eq.
Qed.

Lemma quiet_cfs cs q q' :
  quiet cs q q' ->
  weight (cfs_load (cfs q')) = weight (cfs_load (cfs q)) /\ nr_running (cfs q') = nr_running (cfs q) /\
  rb_leftmost (cfs q') = rb_leftmost (cfs q) /\ tasks (cfs q') = tasks (cfs q) /\ curr (cfs q') = curr (cfs q) /\
  next (cfs q') = next (cfs q) /\ last (cfs q') = last (cfs q).
Proof. intros (_ & H & _). unfold shape in H. by simplify_eq. Qed.

Lemma quiet_ok cs q q' s : quiet cs q q' -> cfs_ok q s -> cfs_ok q' s.
Proof.
  intros Hq [Ht Hm Hw Hc Htk Hr Hn Hl Htot Hnx Hla]. pose proof (quiet_cfs _ _ _ Hq) as (E1 & E2 & E3 & E4 & E5 & E6 & E7).
  pose proof Hq as (E0 & _). constructor; rewrite ?E0, ?E1, ?E2, ?E3, ?E4, ?E5, ?E6, ?E7, ?(quiet_total _ _ _ _ Hq); try done.
  - destruct Ht as (H1 & H2 & H3). split; [by rewrite E0|]. split; [by rewrite E3|].
    eapply Forall_impl; [exact H3|]. intros p Hp. by apply (quiet_known _ _ _ _ Hq).
  - intros p Hp. apply Hm. by apply (quiet_known _ _ _ _ Hq).
  - intros p t' Ht'. destruct (quiet_task _ _ _ _ _ Hq Ht') as (t & Htt & _ & -> & _). by apply (Hw p).
  - by rewrite (quiet_fair _ _ _ _ Hq).
  - intros p. rewrite (quiet_runnable _ _ _ _ Hq). apply Hr.
Qed.

Lemma quiet_linked cs q q' s : quiet cs q q' -> linked q s -> linked q' s.
Proof. intros Hq H p. pose proof (quiet_cfs _ _ _ Hq) as (_ & _ & _ & -> & -> & _). apply H. Qed.

Definition ordered (q : rq) (s : list Z) : Prop := StronglySorted (not_later (all_tasks q)) s.

Lemma ordered_ext q q' s : (forall p, p ∈ s -> vof (all_tasks q') p = vof (all_tasks q) p) -> ordered q s -> ordered q' s.
Proof.
  unfold ordered. intros Hv. induction 1 as [|a s Hst IH Ha]; constructor; [apply IH; set_solver|].
  rewrite Forall_forall in *. intros b Hb. specialize (Ha b Hb). unfold not_later in *. rewrite !Hv by set_solver. done.
Qed.

Lemma quiet_ordered cs q q' s : quiet cs q q' -> (forall p, p ∈ cs -> p ∉ s) -> ordered q s -> ordered q' s.
Proof. intros Hq Hcs. apply ordered_ext. intros p Hp. apply (quiet_vof _ _ _ _ Hq). intros Hi. by apply (Hcs p). Qed.

(** * Programs that leave the queue alone *)

Definition quietly {A} (cs : list Z) (q : rq) (e : K A) : Prop := exists v q', e q = Some (v, q') /\ quiet cs q q'.

Lemma quietly_ret {A} cs q (v : A) : quietly cs q (mret v).
Proof. by exists v, q. Qed.

Lemma quietly_read {A B} cs q (e : K A) v (f : A -> K B) : e q = Some (v, q) -> quietly cs q (f v) -> quietly cs q (e ≫= f).
Proof. intros He (u & q' & Hf & Hq). exists u, q'. by rewrite (kbind _ _ _ _ _ He). Qed.

Lemma quietly_bind {A B} cs q (e : K A) (f : A -> K B) :
  quietly cs q e -> (forall v q', quiet cs q q' -> quietly cs q' (f v)) -> quietly cs q (e ≫= f).
Proof.
  intros (v & q1 & He & Hq1) Hf. destruct (Hf v q1 Hq1) as (u & q2 & Hf2 & Hq2). exists u, q2.
  rewrite (kbind _ _ _ _ _ He). split; [done|]. by transitivity q1.
Qed.

Lemma quietly_more {A} cs cs' q (e : K A) : (forall p, p ∈ cs -> p ∈ cs') -> quietly cs q e -> quietly cs' q e.
Proof. intros Hss (v & q' & He & Hq). exists v, q'. split; [done|]. by eapply quiet_more. Qed.

Lemma ent_read q p : known q p -> exists t, all_tasks q !! p = Some t /\ ent p q = Some (se t, q).
Proof. intros [t Ht]. exists t. split; [done|by apply ent_run]. Qed.

Lemma put_ent_quietly cs q p f :
  known q p ->
  (forall t, all_tasks q !! p = Some t -> on_rq (f (se t)) = on_rq (se t) /\
     weight (se_load (f (se t))) = weight (se_load (se t)) /\ (p ∈ cs \/ vruntime (f (se t)) = vruntime (se t))) ->
  quietly cs q (put_ent p f).
Proof.
  intros [t Ht] Hf. destruct (Hf t Ht) as (H1 & H2 & H3). unfold put_ent. eexists tt, _. rewrite Ht. split; [done|].
  split_and!; try done. intros r. cbn [all_tasks]. destruct (decide (r = p)) as [->|Hne]; [|by rewrite lookup_insert_ne].
  rewrite lookup_insert_eq, Ht. simpl. unfold core. simpl. rewrite H1, H2. do 2 f_equal.
  destruct (decide (p ∈ cs)) as [Hp|Hp]; [by rewrite !bool_decide_eq_true_2|]. destruct H3; [done|].
  by rewrite !bool_decide_eq_false_2.
Qed.

Lemma set_cfs_quietly cs q f : shape (f (cfs q)) = shape (cfs q) -> quietly cs q (set_cfs f).
Proof. intros Hf. eexists tt, _. split; [done|]. split_and!; try done. Qed.

Lemma resched_quietly cs q p : quietly cs q (resched_task p).
Proof. eexists tt, _. split; [done|]. split_and!; done. Qed.

Lemma calc_some d w lw :
  0 <= weight lw < 4294967295 -> exists r lw', calc_delta_mine d w lw = Some (r, lw') /\ weight lw' = weight lw.
Proof.
  intros Hw. unfold calc_delta_mine. destruct (inv_weight lw =? 0); [|by do 2 eexists].
  assert (u32 (weight lw + 1) = weight lw + 1) as -> by (unfold u32; apply Z.mod_small; lia).
  rewrite (proj2 (Z.eqb_neq (weight lw + 1) 0)) by lia. by do 2 eexists.
Qed.

Section ok.
Context (q : rq) (s : list Z) (Hok : cfs_ok q s).

Lemma calc_delta_fair_quietly cs d p : known q p -> quietly cs q (calc_delta_fair d p).
Proof.
  intros Hp. destruct (ent_read q p Hp) as (t & Ht & He). unfold calc_delta_fair. eapply quietly_read; [exact He|].
  destruct (negb _); [|apply quietly_ret].
  destruct (calc_some d NICE_0_LOAD (se_load (se t))) as (r & lw & Hr & Hw); [pose proof (ok_weights _ _ Hok p t Ht); lia|].
  eapply (quietly_read _ _ _ (r, lw)); [unfold value; by rewrite Hr|]. apply quietly_bind; [|intros; apply quietly_ret].
  apply put_ent_quietly; [done|]. intros t' Ht'. rewrite Ht in Ht'. injection Ht' as <-. simpl. auto.
Qed.

Lemma left_known : rb_leftmost (cfs q) = 0 \/ known q (rb_leftmost (cfs q)).
Proof.
  destruct (ok_timeline _ _ Hok) as (_ & -> & H). destruct s as [|p s']; [by left|]. right. by apply Forall_cons in H as [H _].
Qed.

Lemma update_min_quietly cs : quietly cs q update_min_vruntime.
Proof.
  unfold update_min_vruntime. do 3 (eapply quietly_read; [done|]).
  assert (forall v, quietly cs q (set_cfs (put_min v))) as Hset by (intros v; by apply set_cfs_quietly).
  assert (forall (f : Z -> K unit), (forall v, quietly cs q (f v)) -> quietly cs q
    ((if negb (curr (cfs q) =? 0) then e ← ent (curr (cfs q)); mret (vruntime e) else mret (min_vruntime (cfs q))) ≫= f)) as H1.
  { intros f Hf. destruct (curr (cfs q) =? 0) eqn:E; simpl; [by eapply quietly_read|]. zbool.
    destruct (ok_curr _ _ Hok) as [|Hc%fair_known]; [done|]. destruct (ent_read q _ Hc) as (t & _ & He).
    eapply (quietly_read _ _ _ (vruntime (se t))); [by rewrite (kbind _ _ _ _ _ He)|]. apply Hf. }
  apply H1. intros v. destruct (rb_leftmost (cfs q) =? 0) eqn:E; simpl; [by eapply quietly_read|]. zbool.
  destruct left_known as [|Hl]; [done|]. destruct (ent_read q _ Hl) as (t & _ & He).
  eapply quietly_read; [by rewrite (kbind _ _ _ _ _ He)|]. apply Hset.
Qed.
End ok.

Lemma update_curr_quietly q s : cfs_ok q s -> quietly [curr (cfs q)] q update_curr.
Proof.
  intros Hok. unfold update_curr. do 2 (eapply quietly_read; [done|]). destruct (curr (cfs q) =? 0) eqn:E; [apply quietly_ret|].
  zbool. destruct (ok_curr _ _ Hok) as [|Hc%fair_known]; [done|]. set (c := curr (cfs q)) in *. destruct (ent_read q c Hc) as (t & _ & He).
  eapply quietly_read; [exact He|]. destruct (_ =? 0); [apply quietly_ret|].
  assert (forall q1, quiet [c] q q1 -> cfs_ok q1 s /\ known q1 c) as Hk
    by (intros q1 Hq; split; [by eapply quiet_ok|by apply (quiet_known _ _ _ _ Hq)]).
  assert (forall q1 f, quiet [c] q q1 -> (forall e, on_rq (f e) = on_rq e /\ se_load (f e) = se_load e) ->
    quietly [c] q1 (put_ent c f)) as Hput.
  { intros q1 f Hq Hf. apply put_ent_quietly; [by apply Hk|]. intros t1 _. destruct (Hf (se t1)) as [-> ->].
    split_and!; [done..|]. left. set_solver. }
  apply quietly_bind; [|intros v q1 Hq1; by apply Hput]. unfold __update_curr. apply quietly_bind; [by apply Hput|].
  intros v q1 Hq1. apply quietly_bind; [eapply calc_delta_fair_quietly; by apply Hk|]. intros d q2 Hq2.
  assert (quiet [c] q q2) as Hq2' by (by transitivity q1). apply quietly_bind; [by apply Hput|]. intros u q3 Hq3.
  eapply update_min_quietly. apply Hk. by transitivity q2.
Qed.

(** A slice for a task that is not on the queue counts its weight in. *)
Definition fits (q : rq) (p : Z) : Prop :=
  runnable q p \/ total (all_tasks q) (tasks (cfs q)) + wof (all_tasks q) p < 4294967295.

Lemma total_nonneg q s l : cfs_ok q s -> 0 <= total (all_tasks q) l.
Proof.
  intros Hok. induction l as [|p l IH]; simpl; [lia|]. unfold wof at 1. destruct (all_tasks q !! p) as [t|] eqn:E; [|lia].
  pose proof (ok_weights _ _ Hok p t E). lia.
Qed.

Lemma sched_slice_quietly cs q s p : cfs_ok q s -> known q p -> fits q p -> quietly cs q (sched_slice p).
Proof.
  intros Hok Hp Hfit. destruct (ent_read q p Hp) as (t & Ht & He). unfold sched_slice. eapply quietly_read; [exact He|].
  do 2 (eapply quietly_read; [done|]). pose proof (ok_load _ _ Hok) as Hl. pose proof (ok_total _ _ Hok) as Hlt.
  pose proof (total_nonneg q s (tasks (cfs q)) Hok) as Hge. destruct (on_rq (se t)) eqn:Eo.
  - edestruct (calc_some) as (r & lw & Hr & Hw); cycle 1.
    + eapply (quietly_read _ _ _ (r, lw)); [unfold value; by rewrite Hr|]. apply quietly_bind; [|intros; apply quietly_ret].
      apply set_cfs_quietly. unfold shape. simpl. by rewrite Hw.
    + rewrite Hl. lia.
  - edestruct (calc_some) as (r & lw & Hr & Hw); cycle 1.
    + eapply (quietly_read _ _ _ (r, lw)); [unfold value; by rewrite Hr|]. apply quietly_ret.
    + simpl. rewrite Hl. destruct Hfit as [(t' & Ht' & _ & Ho)|Hfit]; [congruence|]. unfold wof in Hfit. rewrite Ht in Hfit.
      pose proof (ok_weights _ _ Hok p t Ht). unfold u32. rewrite Z.mod_small; lia.
Qed.

Lemma place_entity_quietly q s p initial :
  cfs_ok q s -> known q p -> (initial = true -> fits q p) -> quietly [p] q (place_entity p initial).
Proof.
  intros Hok Hp Hfit. unfold place_entity. eapply quietly_read; [done|].
  assert (forall q1 f, quiet [p] q q1 -> (forall e, on_rq (f e) = on_rq e /\ se_load (f e) = se_load e) ->
    quietly [p] q1 (put_ent p f)) as Hput.
  { intros q1 f Hq Hf. apply put_ent_quietly; [by apply (quiet_known _ _ _ _ Hq)|]. intros t1 _. destruct (Hf (se t1)) as [-> ->].
    split_and!; [done..|]. left. set_solver. }
  destruct initial; cbn [andb sched_feat].
  - apply quietly_bind; [|intros v q1 Hq1; by apply Hput]. apply quietly_bind; [|intros; apply quietly_ret].
    unfold sched_vslice. apply quietly_bind; [eapply sched_slice_quietly; eauto|]. intros v q1 Hq1.
    eapply calc_delta_fair_quietly; [by eapply quiet_ok|]. by apply (quiet_known _ _ _ _ Hq1).
  - eapply quietly_read; [done|]. apply Hput; [done|]. done.
Qed.

Lemma wakeup_preempt_quietly cs q s c p :
  cfs_ok q s -> known q c -> known q p -> quietly cs q (wakeup_preempt_entity c p).
Proof.
  intros Hok Hc Hp. destruct (ent_read q c Hc) as (tc & _ & Ec). destruct (ent_read q p Hp) as (tp & Htp & Ep).
  unfold wakeup_preempt_entity. eapply quietly_read; [exact Ec|]. eapply quietly_read; [exact Ep|].
  destruct (_ <=? 0); [apply quietly_ret|]. apply quietly_bind; [|intros; apply quietly_ret].
  unfold wakeup_gran. eapply quietly_read; [exact Ep|]. destruct (negb _); [|apply quietly_ret].
  by eapply calc_delta_fair_quietly.
Qed.
