(* ===== verification/SchedOps.v ===== *)
(** The operations of the scheduling class keep the invariant of the run queue. *)

From S2P Require Import Prelude.
From stdpp Require Import gmap sorting.
From Stdlib Require Import Lia.
From S2P Require Import Rbtree RbtreeRep RbtreeInsert RbtreeErase RbtreeWalk.
From S2P Require Import Sched SchedTime SchedTree SchedInv.
Open Scope Z_scope.

(** * The timeline under the invariant *)

Lemma rb_tree_node s w p : rb_tree s w -> p ∈ s -> is_Some (nodes w !! p).
Proof.
  intros [_ (t & (_ & Hr & Har) & _)] Hp. rewrite around_plug_all in Har. simpl in Har. rewrite <- Har in Hp.
  apply elem_of_dom. by eapply rep_dom.
Qed.

(** The same invariant with another tree. *)
Lemma retree_ok q s s' w :
  cfs_ok q s -> rb_tree s' w -> (forall p, p ∈ s' -> known q p) ->
  (forall p, known q p -> is_Some (nodes w !! p)) -> cfs_ok (retree q w (first_of s')) s'.
Proof.
  intros Hok Ht Hk Hn. destruct Hok. constructor; try done.
  - split; [done|]. split; [done|]. by apply Forall_forall.
  - intros p Hp. split; [by apply ok_memory|by apply Hn].
Qed.

Lemma tree_known q s p : cfs_ok q s -> p ∈ s -> known q p.
Proof. intros Hok Hp. destruct (ok_timeline _ _ Hok) as (_ & _ & H). rewrite Forall_forall in H. by apply H. Qed.

Lemma enqueue_task_ok q s p :
  cfs_ok q s -> known q p -> (p ∉ s) ->
  exists pre post w, s = pre ++ post /\ let q' := retree q w (first_of (pre ++ p :: post)) in
    __enqueue_entity p q = Some (tt, q') /\ cfs_ok q' (pre ++ p :: post) /\
    (ordered q s -> close q (pre ++ p :: post) -> ordered q' (pre ++ p :: post)).
Proof.
  intros Hok Hp Hps. destruct (ok_memory _ _ Hok p Hp) as [Ha Hn].
  assert (wf (p :: s)) as Hwf.
  { destruct (ok_timeline _ _ Hok) as ([[Hnd Hal] _] & _). split; constructor; done. }
  destruct (enqueue_run q s p (ok_timeline _ _ Hok) Hwf Hn Hp) as (pre & post & w & -> & E & Ht & Ho & Hord).
  exists pre, post, w. split; [done|]. split; [done|]. split.
  - eapply retree_ok; [done|done| |].
    + intros r. rewrite elem_of_app, elem_of_cons. intros [Hr|[->|Hr]]; [|done|]; (eapply tree_known; [done|]); set_solver.
    + intros r Hr. destruct (decide (r ∈ pre ++ p :: post)) as [Hi|Hi]; [by eapply rb_tree_node|]. rewrite Ho by done. by apply (ok_memory _ _ Hok).
  - intros Hst Hc. by apply (insert_order q pre p post).
Qed.

Lemma dequeue_ok q pre p post :
  cfs_ok q (pre ++ p :: post) ->
  exists w, let q' := retree q w (first_of (pre ++ post)) in
    __dequeue_entity p q = Some (tt, q') /\ cfs_ok q' (pre ++ post).
Proof.
  intros Hok. destruct (dequeue_run q pre p post (ok_timeline _ _ Hok)) as (w & E & Ht & Ho). exists w. split; [done|].
  eapply retree_ok; [done|done| |].
  - intros r Hr. eapply tree_known; [done|]. set_solver.
  - intros r Hr. destruct (decide (r ∈ pre ++ post)) as [Hi|Hi]; [by eapply rb_tree_node|]. rewrite Ho by done. by apply (ok_memory _ _ Hok).
Qed.

(** * Accounting *)

(** Only the queue's counters and the buddies change. *)
Definition calm (q q' : rq) : Prop :=
  timeline q' = timeline q /\ curr (cfs q') = curr (cfs q) /\ min_vruntime (cfs q') = min_vruntime (cfs q) /\
  (forall p, vof (all_tasks q') p = vof (all_tasks q) p) /\ (forall p, known q' p <-> known q p) /\ rq_curr q' = rq_curr q.

Lemma total_ext all all' l : (forall p, p ∈ l -> wof all' p = wof all p) -> total all' l = total all l.
Proof. induction l as [|p l IH]; intros H; simpl; [done|]. rewrite H, IH; [done|set_solver|set_solver]. Qed.

Definition flagged (b : bool) (t : task_struct) : task_struct :=
  Task (with_on_rq b (se t)) (policy t) (prio t) (fair_class t).

Lemma flag_same all p t b :
  all !! p = Some t -> let all' := <[p := flagged b t]> all in
  (forall r, vof all' r = vof all r) /\ (forall r, wof all' r = wof all r) /\
  (forall r, is_Some (all' !! r) <-> is_Some (all !! r)).
Proof.
  intros Ht all'. unfold vof, wof, all'. split_and!; intros r; (destruct (decide (r = p)) as [->|];
    [rewrite lookup_insert_eq, Ht|by rewrite lookup_insert_ne]); done.
Qed.

(** There are fewer tasks than addresses. *)
Lemma length_bound q s l : cfs_ok q s -> NoDup l -> (forall p, p ∈ l -> known q p) -> Z.of_nat (length l) <= 4294967295.
Proof.
  intros Hok Hnd Hl. assert (l ⊆+ seqZ 1 4294967295) as Hsub.
  { apply NoDup_submseteq; [done|]. intros p Hp%Hl. destruct (ok_memory _ _ Hok p Hp) as [[? [? _]] _]. apply elem_of_seqZ. lia. }
  apply submseteq_length in Hsub. rewrite length_seqZ in Hsub. lia.
Qed.

(** The invariant with other counters, for a task whose flag is set or cleared. *)
Lemma reaccount_ok q s p t b l lw nr rl :
  cfs_ok q s -> all_tasks q !! p = Some t -> fair_class t = true -> NoDup l ->
  (forall r, r ∈ l <-> (r = p /\ b = true) \/ (r <> p /\ r ∈ tasks (cfs q))) ->
  weight lw = total (all_tasks q) l -> total (all_tasks q) l < 4294967295 -> nr = Z.of_nat (length l) ->
  (next (cfs q) = 0 \/ next (cfs q) ∈ l) -> (last (cfs q) = 0 \/ last (cfs q) ∈ l) ->
  let q' := Rq (put_nr nr (put_tasks l (put_load lw (cfs q)))) (timeline q) (<[p := flagged b t]> (all_tasks q))
              rl (clock q) (rq_curr q) (idle q) (need_resched q) (skip_clock_update q) in
  cfs_ok q' s /\ calm q q'.
Proof.
  intros Hok Ht Hft Hnd Hl Hlw Htot Hnr Hnx Hla q'. destruct (flag_same (all_tasks q) p t b Ht) as (Hv & Hwo & Hk).
  split; [|split_and!; done]. destruct Hok. constructor; cbn [cfs all_tasks timeline q' cfs_load nr_running tasks next last curr put_load put_tasks put_nr].
  - destruct ok_timeline as (H1 & H2 & H3). split; [done|]. split; [done|]. eapply Forall_impl; [exact H3|]. intros r Hr. by apply Hk.
  - intros r Hr. apply ok_memory. by apply Hk.
  - intros r tr Hr. destruct (decide (r = p)) as [->|]; [rewrite lookup_insert_eq in Hr; injection Hr as <-; exact (ok_weights p t Ht)|].
    rewrite lookup_insert_ne in Hr by done. by apply (ok_weights r).
  - destruct ok_curr as [|(tc & Htc & Hfc)]; [by left|right]. unfold fair. cbn [all_tasks q' cfs put_nr put_tasks put_load curr].
    destruct (decide (curr (cfs q) = p)) as [->|]; [rewrite lookup_insert_eq|rewrite lookup_insert_ne by done]; by eexists.
  - done.
  - intros r. rewrite Hl. unfold runnable. cbn [all_tasks q']. destruct (decide (r = p)) as [->|Hne].
    + rewrite lookup_insert_eq. split; [intros [[_ ->]|[? _]]; [by eexists|done]|]. intros (t' & [= <-] & _ & Hb). left. by split.
    + rewrite lookup_insert_ne by done. rewrite ok_runnable. unfold runnable. split; [intros [[? _]|[_ ?]]; done|by right].
  - done.
  - by rewrite (total_ext (all_tasks q)).
  - by rewrite (total_ext (all_tasks q)).
  - done.
  - done.
Qed.

Lemma account_enqueue_ok q s p :
  cfs_ok q s -> fair q p -> ~ runnable q p -> total (all_tasks q) (tasks (cfs q)) + wof (all_tasks q) p < 4294967295 ->
  exists q', account_entity_enqueue p q = Some (tt, q') /\ cfs_ok q' s /\ calm q q' /\ tasks (cfs q') = p :: tasks (cfs q).
Proof.
  intros Hok (t & Ht & Hft) Hn Hw. pose proof (ent_run q p t Ht) as He. pose proof (ok_weights _ _ Hok p t Ht) as Hwt.
  assert (p ∉ tasks (cfs q)) as Hpt by (intros Hi; by apply Hn, (ok_runnable _ _ Hok)).
  assert (wof (all_tasks q) p = weight (se_load (se t))) as Hwp by (unfold wof; by rewrite Ht).
  pose proof (total_nonneg q s (tasks (cfs q)) Hok).
  assert (Z.of_nat (length (p :: tasks (cfs q))) <= 4294967295) as Hlen.
  { apply (length_bound q s); [done|constructor; [done|apply Hok]|]. intros r [->|(tr & Htr & _)%(ok_runnable _ _ Hok)]%elem_of_cons; by eexists. }
  unfold account_entity_enqueue. rewrite (kbind _ _ _ _ _ He). cbn zeta.
  do 4 (rewrite (kbind (set_cfs _) _ _ tt _ eq_refl) || rewrite (kbind (set_rq_load _) _ _ tt _ eq_refl)).
  unfold put_ent. cbn [all_tasks]. rewrite Ht. eexists. split; [reflexivity|]. match goal with |- ?A /\ ?B /\ _ => cut (A /\ B); [by intros [? ?]|] end.
  refine (reaccount_ok q s p t true (p :: tasks (cfs q)) _ _ _ Hok Ht Hft _ _ _ _ _ _ _).
  - constructor; [done|apply Hok].
  - intros r. rewrite elem_of_cons. destruct (decide (r = p)) as [->|]; tauto.
  - simpl. rewrite (ok_load _ _ Hok), Hwp. unfold u32. rewrite Z.mod_small; lia.
  - simpl. lia.
  - simpl in *. rewrite (ok_nr _ _ Hok). unfold u32. rewrite Z.mod_small; lia.
  - destruct (ok_next _ _ Hok); [by left|right; set_solver].
  - destruct (ok_last _ _ Hok); [by left|right; set_solver].
Qed.

Lemma filter_perm (p : Z) l : NoDup l -> p ∈ l -> l ≡ₚ p :: filter (.≠ p) l.
Proof.
  intros Hnd Hp. apply NoDup_Permutation; [done| |].
  - constructor; [rewrite list_elem_of_filter; by intros [? _]|by apply NoDup_filter].
  - intros r. rewrite elem_of_cons, list_elem_of_filter. destruct (decide (r = p)) as [->|]; naive_solver.
Qed.

#[export] Instance total_proper all : Proper ((≡ₚ) ==> (=)) (total all).
Proof. intros l l' Hp. induction Hp; simpl; lia. Qed.

Lemma account_dequeue_ok q s p :
  cfs_ok q s -> runnable q p -> next (cfs q) <> p -> last (cfs q) <> p ->
  exists q', account_entity_dequeue p q = Some (tt, q') /\ cfs_ok q' s /\ calm q q' /\
    tasks (cfs q') = filter (.≠ p) (tasks (cfs q)).
Proof.
  intros Hok Hr Hnx Hla. pose proof Hr as Hrt. apply (ok_runnable _ _ Hok) in Hrt. destruct Hr as (t & Ht & Hft & Ho).
  pose proof (ent_run q p t Ht) as He.
  pose proof (ok_weights _ _ Hok p t Ht) as Hwt. pose proof (ok_total _ _ Hok) as Hlt.
  assert (wof (all_tasks q) p = weight (se_load (se t))) as Hwp by (unfold wof; by rewrite Ht).
  pose proof (filter_perm p _ (ok_tasks _ _ Hok) Hrt) as Hperm.
  pose proof (total_proper (all_tasks q) _ _ Hperm) as Htf. pose proof (Permutation_length Hperm) as Hlf. simpl in Htf, Hlf.
  pose proof (total_nonneg q s (filter (.≠ p) (tasks (cfs q))) Hok).
  assert (Z.of_nat (length (tasks (cfs q))) <= 4294967295) as Hlen.
  { apply (length_bound q s); [done|apply Hok|]. intros r (tr & Htr & _)%(ok_runnable _ _ Hok). by eexists. }
  unfold account_entity_dequeue. rewrite (kbind _ _ _ _ _ He). cbn zeta.
  do 4 (rewrite (kbind (set_cfs _) _ _ tt _ eq_refl) || rewrite (kbind (set_rq_load _) _ _ tt _ eq_refl)).
  unfold put_ent. cbn [all_tasks]. rewrite Ht. eexists. split; [reflexivity|]. match goal with |- ?A /\ ?B /\ _ => cut (A /\ B); [by intros [? ?]|] end.
  refine (reaccount_ok q s p t false (filter (.≠ p) (tasks (cfs q))) _ _ _ Hok Ht Hft _ _ _ _ _ _ _).
  - apply NoDup_filter, Hok.
  - intros r. rewrite list_elem_of_filter. naive_solver.
  - simpl. rewrite (ok_load _ _ Hok), Htf, Hwp. unfold u32. rewrite Z.mod_small; lia.
  - lia.
  - simpl. rewrite (ok_nr _ _ Hok), Hlf. unfold u32. rewrite Z.mod_small; lia.
  - destruct (ok_next _ _ Hok); [by left|right]. by apply list_elem_of_filter.
  - destruct (ok_last _ _ Hok); [by left|right]. by apply list_elem_of_filter.
Qed.

(** * The operations *)

Definition inv (q : rq) (s : list Z) : Prop := cfs_ok q s /\ linked q s.

Lemma calm_ordered q q' s : calm q q' -> ordered q s -> ordered q' s.
Proof. intros (_ & _ & _ & Hv & _). apply ordered_ext. auto. Qed.

Lemma runnable_dec q p : runnable q p \/ ~ runnable q p.
Proof.
  unfold runnable. destruct (all_tasks q !! p) as [t|]; [|right; by intros (? & ? & _)].
  destruct (fair_class t && on_rq (se t)) eqn:E; [apply andb_true_iff in E; left; by exists t|right].
  intros (t' & [= <-] & Hf & Ho). by rewrite Hf, Ho in E.
Qed.

Lemma not_queued q s p : inv q s -> ~ runnable q p -> p ∉ s.
Proof. intros [Hok Hl] Hn Hp. apply Hl in Hp as [Hp _]. by apply Hn, (ok_runnable _ _ Hok). Qed.

Lemma curr_not_queued q s : inv q s -> curr (cfs q) ∉ s.
Proof. intros [_ Hl] Hp. apply Hl in Hp as [_ Hp]. done. Qed.

(** Into the timeline, unless the task is the current one. *)
Lemma link_ok q s p :
  cfs_ok q s -> known q p -> (p ∉ s) -> p <> curr (cfs q) ->
  (forall r, r ∈ s <-> r ∈ tasks (cfs q) /\ r <> curr (cfs q) /\ r <> p) -> p ∈ tasks (cfs q) ->
  exists q' s', __enqueue_entity p q = Some (tt, q') /\ inv q' s' /\ (ordered q s -> close q' s' -> ordered q' s') /\
    curr (cfs q') = curr (cfs q) /\ rq_curr q' = rq_curr q /\ tasks (cfs q') = tasks (cfs q).
Proof.
  intros Hok Hk Hps Hpc Hl Hpt. destruct (enqueue_task_ok q s p Hok Hk Hps) as (pre & post & w & -> & E & Hok' & Hord).
  eexists _, _. split; [exact E|]. split; [|by split; [exact Hord|]]. split; [exact Hok'|]. intros r.
  rewrite elem_of_app, elem_of_cons. specialize (Hl r). rewrite elem_of_app in Hl. simpl. destruct (decide (r = p)) as [->|]; tauto.
Qed.

Lemma enqueue_entity_ok q s p flags :
  inv q s -> fair q p -> ~ runnable q p -> total (all_tasks q) (tasks (cfs q)) + wof (all_tasks q) p < 4294967295 ->
  exists q' s', enqueue_entity p flags q = Some (tt, q') /\ inv q' s' /\
    (ordered q s -> close q' s' -> ordered q' s') /\ curr (cfs q') = curr (cfs q) /\ rq_curr q' = rq_curr q /\ runnable q' p.
Proof.
  intros Hinv Hpf Hn Hw. pose proof (fair_known _ _ Hpf) as Hp. pose proof (not_queued _ _ _ Hinv Hn) as Hps. pose proof (curr_not_queued _ _ Hinv) as Hcs.
  destruct Hinv as [Hok Hl]. unfold enqueue_entity.
  assert (quietly [p] q (if (Z.land flags ENQUEUE_WAKEUP =? 0) || negb (Z.land flags ENQUEUE_WAKING =? 0) then
    min ← get_cfs min_vruntime; put_ent p (fun e => with_vruntime (u64 (vruntime e + min)) e) else mret tt)) as (v1 & q1 & E1 & Hq1).
  { destruct (_ || _); [|apply quietly_ret]. eapply quietly_read; [done|]. apply put_ent_quietly; [done|].
    intros t _. split_and!; [done..|]. left. set_solver. }
  rewrite (kbind _ _ _ _ _ E1). pose proof (quiet_ok _ _ _ _ Hq1 Hok) as Hok1.
  destruct (update_curr_quietly q1 s Hok1) as (v2 & q2 & E2 & Hq2). rewrite (kbind _ _ _ _ _ E2).
  pose proof (quiet_cfs _ _ _ Hq1) as (_ & _ & _ & Et1 & Ec1 & _). rewrite Ec1 in Hq2.
  assert (quiet [p; curr (cfs q)] q q2) as Hq.
  { transitivity q1; [eapply quiet_more; [|exact Hq1]|eapply quiet_more; [|exact Hq2]]; set_solver. }
  pose proof (quiet_ok _ _ _ _ Hq Hok) as Hok2. pose proof (quiet_cfs _ _ _ Hq) as (_ & _ & _ & Et2 & Ec2 & _).
  destruct (account_enqueue_ok q2 s p Hok2) as (q3 & E3 & Hok3 & Hcalm & Et3).
  { by apply (quiet_fair _ _ _ _ Hq). }
  { by rewrite (quiet_runnable _ _ _ _ Hq). }
  { by rewrite (quiet_total _ _ _ _ Hq), (quiet_wof _ _ _ _ Hq), Et2. }
  rewrite (kbind _ _ _ _ _ E3). pose proof Hcalm as (_ & Ec3 & _ & _ & Hk3 & Er3).
  assert (known q3 p) as Hp3 by (by apply Hk3, (quiet_known _ _ _ _ Hq)).
  assert (quietly [p] q3 (if negb (Z.land flags ENQUEUE_WAKEUP =? 0) then place_entity p false else mret tt)) as (v4 & q4 & E4 & Hq4).
  { destruct (negb (Z.land flags ENQUEUE_WAKEUP =? 0)); [|apply quietly_ret]. by eapply place_entity_quietly. }
  rewrite (kbind _ _ _ _ _ E4). pose proof (quiet_ok _ _ _ _ Hq4 Hok3) as Hok4.
  pose proof (quiet_cfs _ _ _ Hq4) as (_ & _ & _ & Et4 & Ec4 & _). pose proof Hq as (_ & _ & Er2 & _). pose proof Hq4 as (_ & _ & Er4 & _).
  rewrite (kbind _ _ q4 (curr (cfs q4)) q4) by done.
  assert (ordered q s -> ordered q4 s) as Hord.
  { intros Ho. eapply (quiet_ordered _ q3 q4); [done|set_solver|]. eapply (calm_ordered q2); [done|].
    eapply (quiet_ordered _ q q2); [done| |done]. set_solver. }
  destruct (p =? curr (cfs q4)) eqn:E; zbool; cbn [negb].
  - exists q4, s. split; [done|]. split; [|split_and!; [by auto|congruence|congruence|apply (ok_runnable _ _ Hok4); rewrite Et4, Et3; set_solver]]. split; [done|]. intros r.
    rewrite (Hl r), Et4, Et3, Et2, Ec4, Ec3, Ec2, elem_of_cons. rewrite Ec4, Ec3, Ec2 in E. subst p. naive_solver.
  - destruct (link_ok q4 s p Hok4) as (q5 & s5 & E5 & Hinv5 & Hord5 & Ec5 & Er5 & Et5).
    + by apply (quiet_known _ _ _ _ Hq4).
    + done.
    + done.
    + intros r. rewrite (Hl r), Et4, Et3, Et2, Ec4, Ec3, Ec2, elem_of_cons.
      assert (r ∈ tasks (cfs q) -> r <> p) by (intros Hr ->; by apply Hn, (ok_runnable _ _ Hok)). naive_solver.
    + rewrite Et4, Et3. set_solver.
    + exists q5, s5. split; [exact E5|]. split; [done|]. split_and!; [by auto|congruence|congruence|].
      apply (ok_runnable _ _ (proj1 Hinv5)). rewrite Et5, Et4, Et3. set_solver.
Qed.

Lemma clear_buddies_ok q s p :
  cfs_ok q s -> p <> 0 ->
  exists q', clear_buddies p q = Some (tt, q') /\ cfs_ok q' s /\ calm q q' /\ tasks (cfs q') = tasks (cfs q) /\
    next (cfs q') <> p /\ last (cfs q') <> p.
Proof.
  intros Hok Hp. unfold clear_buddies. rewrite (proj2 (Z.eqb_neq p 0)) by done. unfold __clear_buddies.
  rewrite (kbind (set_cfs _) _ _ tt _ eq_refl). rewrite (proj2 (Z.eqb_neq p 0)) by done. cbn [orb]. eexists. split; [reflexivity|].
  cbn [cfs]. destruct (last (cfs q) =? p) eqn:El, (next (cfs q) =? p) eqn:En; zbool; cbn [next put_last]; rewrite ?En;
    rewrite ?Z.eqb_refl, ?(proj2 (Z.eqb_neq _ _) En); (split; [|split_and!; try done; simpl; congruence]);
    destruct Hok; constructor; try done; by left.
Qed.

Lemma quiet_inv cs q q' s : quiet cs q q' -> inv q s -> inv q' s.
Proof. intros Hq [Hok Hl]. split; [by eapply quiet_ok|by eapply quiet_linked]. Qed.

Lemma calm_inv q q' s : calm q q' -> tasks (cfs q') = tasks (cfs q) -> cfs_ok q' s -> inv q s -> inv q' s.
Proof.
  intros (_ & Hc & _) Ht Hok' [_ Hl]. split; [done|]. intros p. rewrite Ht, Hc. apply Hl.
Qed.

(** Out of the timeline, unless the task is the current one. *)
Lemma unlink_ok q s p :
  inv q s -> runnable q p ->
  exists q' s', (if negb (p =? curr (cfs q)) then __dequeue_entity p else mret tt) q = Some (tt, q') /\ cfs_ok q' s' /\
    (forall r, r ∈ s' <-> r ∈ s /\ r <> p) /\ (ordered q s -> ordered q' s') /\
    cfs q' = put_leftmost (rb_leftmost (cfs q')) (cfs q) /\ all_tasks q' = all_tasks q /\ rq_curr q' = rq_curr q.
Proof.
  intros [Hok Hl] Hr. destruct (p =? curr (cfs q)) eqn:E; zbool; cbn [negb].
  - exists q, s. split; [done|]. split; [done|]. split; [|split_and!; try done; by destruct (cfs q)].
    intros r. split; [|by intros [? _]]. intros Hrs. split; [done|]. intros ->. apply Hl in Hrs as [_ ?]. done.
  - assert (p ∈ s) as Hps by (apply Hl; split; [by apply (ok_runnable _ _ Hok)|done]).
    apply list_elem_of_split in Hps as (pre & post & ->). destruct (dequeue_ok q pre p post Hok) as (w & Ed & Hok').
    eexists _, (pre ++ post). split; [exact Ed|]. split; [exact Hok'|].
    destruct (ok_timeline _ _ Hok) as ([[Hnd _] _] & _). apply NoDup_app in Hnd as (_ & Hd & Hnd). apply NoDup_cons in Hnd as [Hpp _].
    split_and!; try done.
    + intros r. rewrite !elem_of_app, elem_of_cons. split; [|naive_solver]. intros [Hi|Hi]; (split; [by auto|]); intros ->.
      * apply (Hd p Hi). set_solver.
      * done.
    + intros Ho. apply StronglySorted_app in Ho as (H1 & H2 & H3). apply StronglySorted_inv in H3 as [H3 _].
      apply StronglySorted_app_2; [|done|done]. intros a b Ha Hb. apply H1; set_solver.
Qed.

Lemma dequeue_entity_ok q s p flags :
  inv q s -> runnable q p ->
  exists q' s', dequeue_entity p flags q = Some (tt, q') /\ inv q' s' /\ (ordered q s -> ordered q' s') /\
    curr (cfs q') = curr (cfs q) /\ rq_curr q' = rq_curr q /\ ~ runnable q' p.
Proof.
  intros Hinv Hr. pose proof (curr_not_queued _ _ Hinv) as Hcs. unfold dequeue_entity.
  destruct (update_curr_quietly q s (proj1 Hinv)) as (v1 & q1 & E1 & Hq1). rewrite (kbind _ _ _ _ _ E1).
  assert (p <> 0) as Hp0. { destruct Hr as (t & Ht & _). destruct (ok_memory _ _ (proj1 Hinv) p) as [[? _] _]; [by exists t|lia]. }
  pose proof (quiet_inv _ _ _ _ Hq1 Hinv) as Hinv1. pose proof (quiet_cfs _ _ _ Hq1) as (_ & _ & _ & Et1 & Ec1 & _).
  destruct (clear_buddies_ok q1 s p (proj1 Hinv1) Hp0) as (q2 & E2 & Hok2 & Hc2 & Et2 & Hnx & Hla). rewrite (kbind _ _ _ _ _ E2).
  pose proof (calm_inv _ _ _ Hc2 Et2 Hok2 Hinv1) as Hinv2. pose proof Hc2 as (_ & Ec2 & _ & _ & _ & Er2).
  assert (runnable q2 p) as Hr2.
  { apply (ok_runnable _ _ Hok2). rewrite Et2, Et1. by apply (ok_runnable _ _ (proj1 Hinv)). }
  rewrite (kbind _ _ q2 (curr (cfs q2)) q2) by done.
  destruct (unlink_ok q2 s p Hinv2 Hr2) as (q3 & s3 & E3 & Hok3 & Hs3 & Ho3 & Ecfs3 & Eall3 & Er3). rewrite (kbind _ _ _ _ _ E3).
  destruct (account_dequeue_ok q3 s3 p Hok3) as (q4 & E4 & Hok4 & Hc4 & Et4).
  { unfold runnable. by rewrite Eall3. }
  { by rewrite Ecfs3. }
  { by rewrite Ecfs3. }
  rewrite (kbind _ _ _ _ _ E4). destruct (update_min_quietly q4 s3 Hok4 [p]) as (v5 & q5 & E5 & Hq5). rewrite (kbind _ _ _ _ _ E5).
  assert (quietly [p] q5 (if Z.land flags DEQUEUE_SLEEP =? 0 then min ← get_cfs min_vruntime;
    put_ent p (fun e => with_vruntime (u64 (vruntime e - min)) e) else mret tt)) as (v6 & q6 & E6 & Hq6).
  { destruct (Z.land flags DEQUEUE_SLEEP =? 0); [|apply quietly_ret]. eapply quietly_read; [done|]. apply put_ent_quietly.
    - apply (quiet_known _ _ _ _ Hq5). destruct Hc4 as (_ & _ & _ & _ & Hk & _). apply Hk. destruct Hr2 as (t & Ht & _).
      exists t. by rewrite Eall3.
    - intros t _. split_and!; [done..|]. left. set_solver. }
  assert (quiet [p] q4 q6) as Hq46 by (by transitivity q5). destruct v6. exists q6, s3. split; [exact E6|].
  pose proof Hc4 as (_ & Ec4 & _ & _ & _ & Er4). pose proof Hq46 as (_ & _ & Er6 & _). pose proof Hq1 as (_ & _ & Er1 & _).
  pose proof (quiet_cfs _ _ _ Hq46) as (_ & _ & _ & Et6 & Ec6 & _).
  assert (tasks (cfs q3) = tasks (cfs q2) /\ curr (cfs q3) = curr (cfs q2)) as [Et3 Ec3] by (rewrite Ecfs3; done).
  assert (cfs_ok q6 s3) as Hok6 by (by eapply quiet_ok). split; [split; [done|]|split_and!].
  - intros r. rewrite Et6, Ec6, Et4, Ec4, Et3, Ec3, list_elem_of_filter, Hs3. pose proof (proj2 Hinv2 r) as Hl. tauto.
  - intros Ho. eapply (quiet_ordered _ q4); [done|intros r Hrp Hrs; apply Hs3 in Hrs as [_ ?]; set_solver|].
    eapply (calm_ordered q3); [done|]. apply Ho3. eapply (calm_ordered q1); [done|]. eapply (quiet_ordered _ q); [done| |done]. set_solver.
  - congruence.
  - congruence.
  - rewrite <- (ok_runnable _ _ Hok6), Et6, Et4, list_elem_of_filter. tauto.
Qed.
