(* ===== verification/SchedPick.v ===== *)
(** Picking the next task, putting the previous one back, the tick and the wake-up preemption. *)

From S2P Require Import Prelude.
From stdpp Require Import gmap sorting.
From Stdlib Require Import Lia.
From S2P Require Import Rbtree RbtreeRep RbtreeInsert RbtreeErase RbtreeWalk.
From S2P Require Import Sched SchedTime SchedTree SchedInv SchedOps.
Open Scope Z_scope.

Lemma known_pos q s p : cfs_ok q s -> known q p -> p <> 0.
Proof. intros Hok Hp. destruct (ok_memory _ _ Hok p Hp) as [[? _] _]. lia. Qed.

Lemma runnable_fair q p : runnable q p -> fair q p.
Proof. intros (t & Ht & Hf & _). by exists t. Qed.

Lemma runnable_known q p : runnable q p -> known q p.
Proof. intros Hr. by apply fair_known, runnable_fair. Qed.

Lemma tree_fair q s p : inv q s -> p ∈ s -> fair q p.
Proof. intros [Hok Hl] [Hp _]%Hl. by apply runnable_fair, (ok_runnable _ _ Hok). Qed.

(** A new current task that is not in the timeline. *)
Lemma put_curr_ok q s c :
  cfs_ok q s -> c = 0 \/ fair q c ->
  exists q', set_cfs (put_curr c) q = Some (tt, q') /\ cfs_ok q' s /\ curr (cfs q') = c /\ tasks (cfs q') = tasks (cfs q) /\
    all_tasks q' = all_tasks q /\ rq_curr q' = rq_curr q /\ next (cfs q') = next (cfs q) /\ last (cfs q') = last (cfs q) /\
    min_vruntime (cfs q') = min_vruntime (cfs q).
Proof. intros Hok Hc. eexists. split; [reflexivity|]. split; [|done]. destruct Hok. by constructor. Qed.

(** The current task is taken out of the timeline, when it is runnable, and becomes cfs_rq->curr. *)
Lemma set_next_ok q s p :
  inv q s -> curr (cfs q) = 0 -> fair q p ->
  exists q' s', set_next_entity p q = Some (tt, q') /\ inv q' s' /\ (ordered q s -> ordered q' s') /\
    curr (cfs q') = p /\ rq_curr q' = rq_curr q /\ (forall r, r ∈ s' <-> r ∈ s /\ r <> p) /\ tasks (cfs q') = tasks (cfs q).
Proof.
  intros Hinv Hc Hf. pose proof (known_pos _ _ _ (proj1 Hinv) (fair_known _ _ Hf)) as Hp0. pose proof Hf as (t & Ht & Hft).
  pose proof (ent_run q p t Ht) as He.
  unfold set_next_entity. rewrite (kbind _ _ _ _ _ He).
  assert (exists q1 s1, (if on_rq (se t) then __dequeue_entity p else mret tt) q = Some (tt, q1) /\ cfs_ok q1 s1 /\
    (forall r, r ∈ s1 <-> r ∈ s /\ r <> p) /\ (ordered q s -> ordered q1 s1) /\
    cfs q1 = put_leftmost (rb_leftmost (cfs q1)) (cfs q) /\ all_tasks q1 = all_tasks q /\ rq_curr q1 = rq_curr q)
    as (q1 & s1 & E1 & Hok1 & Hs1 & Ho1 & Ecfs1 & Eall1 & Er1).
  { destruct (on_rq (se t)) eqn:Eo.
    - destruct (unlink_ok q s p Hinv ltac:(by exists t)) as (q1 & s1 & E1 & H). rewrite Hc, (proj2 (Z.eqb_neq p 0)) in E1 by done.
      by exists q1, s1.
    - exists q, s. split_and!; try done; [apply Hinv| |by destruct (cfs q)]. intros r. split; [|by intros [? _]]. intros Hr.
      split; [done|]. intros ->. apply (not_queued q s p Hinv); [|done]. intros (t' & Ht' & _ & ?). congruence. }
  rewrite (kbind _ _ _ _ _ E1). assert (known q1 p) as Hk1 by (unfold known; rewrite Eall1; by exists t).
  assert (quietly [] q1 (update_stats_curr_start p)) as (v2 & q2 & E2 & Hq2).
  { unfold update_stats_curr_start. eapply quietly_read; [done|]. apply put_ent_quietly; [done|]. intros. split_and!; auto. }
  rewrite (kbind _ _ _ _ _ E2). pose proof (quiet_ok _ _ _ _ Hq2 Hok1) as Hok2.
  assert (fair q2 p) as Hk2 by (apply (quiet_fair _ _ _ _ Hq2); unfold fair; by rewrite Eall1).
  destruct (put_curr_ok q2 s1 p Hok2 (or_intror Hk2)) as (q3 & E3 & Hok3 & Ec3 & Et3 & Eall3 & Er3 & _). rewrite (kbind _ _ _ _ _ E3).
  assert (quietly [] q3 (put_ent p (fun e => with_prev (sum_exec_runtime e) e))) as ([] & q4 & E4 & Hq4).
  { apply put_ent_quietly; [unfold known; rewrite Eall3; by apply fair_known|]. intros. split_and!; auto. }
  exists q4, s1. split; [exact E4|]. pose proof (quiet_cfs _ _ _ Hq4) as (_ & _ & _ & Et4 & Ec4 & _).
  pose proof (quiet_cfs _ _ _ Hq2) as (_ & _ & _ & Et2 & _). pose proof Hq4 as (_ & _ & Er4 & _). pose proof Hq2 as (_ & _ & Er2 & _).
  assert (tasks (cfs q1) = tasks (cfs q)) as Et1 by (by rewrite Ecfs1).
  split; [split; [by eapply quiet_ok|]|split_and!; try done; try congruence].
  - intros r. rewrite Et4, Ec4, Ec3, Et3, Et2, Et1, Hs1. pose proof (proj2 Hinv r) as Hl. rewrite Hc in Hl.
    assert (r ∈ s -> r <> 0) by (intros Hr; eapply (known_pos q s); [apply Hinv|eapply tree_known; [apply Hinv|done]]).
    destruct Hl as [Hl1 Hl2]. split; [intros [Hr ?]; split; [by apply Hl1|done]|]. intros [Hr Hne]. split; [|done]. apply Hl2.
    split; [done|]. apply (ok_runnable _ _ (proj1 Hinv)) in Hr. eapply (known_pos q s); [apply Hinv|by apply runnable_known].
  - intros Ho. eapply (quiet_ordered [] q3); [done|set_solver|]. eapply (ordered_ext q2); [by rewrite Eall3|].
    eapply (quiet_ordered [] q1); [done|set_solver|]. by apply Ho1.
Qed.

(** Back into the timeline when it is still runnable. *)
Lemma put_prev_ok q s p :
  inv q s -> curr (cfs q) = p -> fair q p ->
  exists q' s', put_prev_entity p q = Some (tt, q') /\ inv q' s' /\ (ordered q s -> close q' s' -> ordered q' s') /\
    curr (cfs q') = 0 /\ rq_curr q' = rq_curr q.
Proof.
  intros Hinv Hc Hk. pose proof Hk as (t & Ht & Hft). pose proof (ent_run q p t Ht) as He. unfold put_prev_entity. rewrite (kbind _ _ _ _ _ He).
  pose proof (curr_not_queued _ _ Hinv) as Hcs. rewrite Hc in Hcs.
  assert (quietly [p] q (if on_rq (se t) then update_curr else mret tt)) as (v1 & q1 & E1 & Hq1).
  { destruct (on_rq (se t)); [|apply quietly_ret]. rewrite <- Hc. by apply (update_curr_quietly q s), Hinv. }
  rewrite (kbind _ _ _ _ _ E1). pose proof (quiet_inv _ _ _ _ Hq1 Hinv) as Hinv1. pose proof Hq1 as (_ & _ & Er1 & _).
  pose proof (quiet_cfs _ _ _ Hq1) as (_ & _ & _ & Et1 & Ec1 & _). rewrite Hc in Ec1.
  assert (fair q1 p) as Hf1 by (by apply (quiet_fair _ _ _ _ Hq1)). pose proof (fair_known _ _ Hf1) as Hk1.
  pose proof Hf1 as (t1 & Ht1 & Hft1). pose proof (ent_run q1 p t1 Ht1) as He1.
  rewrite (kbind _ _ _ _ _ He1). assert (ordered q s -> ordered q1 s) as Ho1 by (apply (quiet_ordered _ _ _ _ Hq1); set_solver).
  pose proof (known_pos _ _ _ (proj1 Hinv1) Hk1) as Hp0. destruct (on_rq (se t1)) eqn:Eo.
  - destruct (enqueue_task_ok q1 s p (proj1 Hinv1) Hk1 Hcs) as (pre & post & w & -> & E2 & Hok2 & Ho2).
    rewrite (kbind _ _ _ _ _ E2). destruct (put_curr_ok _ _ 0 Hok2 (or_introl eq_refl)) as (q3 & E3 & Hok3 & Ec3 & Et3 & Eall3 & Er3 & _ & _ & Em3).
    exists q3, (pre ++ p :: post). split; [exact E3|]. split; [split; [done|]|split_and!; [|done|by rewrite Er3]].
    + intros r. rewrite Ec3, Et3. simpl. rewrite elem_of_app, elem_of_cons. pose proof (proj2 Hinv1 r) as Hl. rewrite Ec1, elem_of_app in Hl.
      assert (p ∈ tasks (cfs q1)) as Hpt by (apply (ok_runnable _ _ (proj1 Hinv1)); by exists t1).
      assert (r ∈ tasks (cfs q1) -> r <> 0).
      { intros Hr. eapply known_pos; [apply Hinv1|]. apply runnable_known. by apply (ok_runnable _ _ (proj1 Hinv1)). }
      destruct (decide (r = p)) as [->|]; tauto.
    + intros Ho Hcl. eapply ordered_ext; [by rewrite Eall3|]. apply Ho2; [by apply Ho1|].
      unfold close in *. rewrite Em3, Eall3 in Hcl. exact Hcl.
  - rewrite (kbind _ _ q1 tt q1) by done. destruct (put_curr_ok q1 s 0 (proj1 Hinv1) (or_introl eq_refl)) as (q3 & E3 & Hok3 & Ec3 & Et3 & Eall3 & Er3 & _).
    exists q3, s. split; [exact E3|]. split; [split; [done|]|split_and!; [|done|by rewrite Er3]].
    + intros r. rewrite Ec3, Et3. pose proof (proj2 Hinv1 r) as Hl. rewrite Ec1 in Hl. pose proof (ok_runnable _ _ (proj1 Hinv1) r) as Hr.
      assert (r ∈ tasks (cfs q1) -> r <> 0 /\ r <> p).
      { intros Hrt%Hr. split; [eapply known_pos; [apply Hinv1|by apply runnable_known]|]. intros ->. destruct Hrt as (? & ? & _ & ?). congruence. }
      tauto.
    + intros Ho _. eapply ordered_ext; [by rewrite Eall3|]. by apply Ho1.
Qed.

(** * Wake-up granularity *)

(** sysctl_sched_wakeup_granularity in the virtual time of the task. *)
Definition gran (all : gmap Z task_struct) (p : Z) : Z :=
  match all !! p with
  | Some t =>
      if weight (se_load (se t)) =? NICE_0_LOAD then sysctl_sched_wakeup_granularity
      else match calc_delta_mine sysctl_sched_wakeup_granularity NICE_0_LOAD (se_load (se t)) with
           | Some (g, _) => g
           | None => 0
           end
  | None => 0
  end.

(** Filling in the inverse does not change later results. *)
Lemma calc_idem d w lw r lw' : calc_delta_mine d w lw = Some (r, lw') ->
  weight lw' = weight lw /\ exists lw'', calc_delta_mine d w lw' = Some (r, lw'').
Proof.
  unfold calc_delta_mine. destruct (inv_weight lw =? 0) eqn:Ei.
  - destruct (u32 (weight lw + 1) =? 0) eqn:Ez; [done|]. simpl. intros [= <- <-]. cbn [weight inv_weight]. split; [done|].
    destruct (u32 (1 + _) =? 0) eqn:Ej; [|by eexists]. rewrite Ez. simpl. by eexists.
  - simpl. intros [= <- <-]. split; [done|]. rewrite Ei. by eexists.
Qed.

Lemma wakeup_gran_run q s p :
  cfs_ok q s -> known q p ->
  exists q', wakeup_gran p q = Some (gran (all_tasks q) p, q') /\ quiet [] q q' /\ gran (all_tasks q') p = gran (all_tasks q) p.
Proof.
  intros Hok Hp. destruct (ent_read q p Hp) as (t & Ht & He). unfold wakeup_gran. rewrite (kbind _ _ _ _ _ He).
  unfold gran at 1 3. rewrite Ht. destruct (weight (se_load (se t)) =? NICE_0_LOAD) eqn:E; cbn [negb].
  - exists q. split; [done|]. split; [done|]. unfold gran. by rewrite Ht, E.
  - unfold calc_delta_fair. rewrite (kbind _ _ _ _ _ He), E. cbn [negb].
    destruct (calc_some sysctl_sched_wakeup_granularity NICE_0_LOAD (se_load (se t))) as (r & lw & Hr & Hw);
      [pose proof (ok_weights _ _ Hok p t Ht); lia|].
    rewrite (kbind _ _ q (r, lw) q) by (unfold value; by rewrite Hr). cbn beta iota.
    destruct (put_ent_quietly [] q p (with_load lw) Hp) as (u & q' & Eq & Hq).
    { intros t' Ht'. rewrite Ht in Ht'. injection Ht' as <-. simpl. auto. }
    rewrite (kbind _ _ _ _ _ Eq). exists q'. rewrite Hr. split; [done|]. split; [done|].
    unfold put_ent in Eq. rewrite Ht in Eq. injection Eq as <- <-. unfold gran. cbn [all_tasks]. rewrite lookup_insert_eq. simpl.
    rewrite Hw, E. destruct (calc_idem _ _ _ _ _ Hr) as (_ & lw2 & ->). done.
Qed.

Lemma wakeup_preempt_run q s c p :
  cfs_ok q s -> known q c -> known q p ->
  exists r q', wakeup_preempt_entity c p q = Some (r, q') /\ quiet [] q q' /\
    (r < 1 <-> s64 (vof (all_tasks q) c - vof (all_tasks q) p) <= Z.max 0 (gran (all_tasks q) p)) /\ r <= 1 /\
    gran (all_tasks q') p = gran (all_tasks q) p.
Proof.
  intros Hok Hc Hp. destruct (ent_read q c Hc) as (tc & Htc & Ec). destruct (ent_read q p Hp) as (tp & Htp & Ep).
  unfold wakeup_preempt_entity. rewrite (kbind _ _ _ _ _ Ec), (kbind _ _ _ _ _ Ep).
  assert (s64 (vof (all_tasks q) c - vof (all_tasks q) p) = s64 (vruntime (se tc) - vruntime (se tp))) as ->
    by (unfold vof; by rewrite Htc, Htp).
  set (v := s64 _). destruct (v <=? 0) eqn:Ev; zbool; [exists (-1), q; split_and!; try done; lia|].
  destruct (wakeup_gran_run q s p Hok Hp) as (q' & Eg & Hq & Hg). rewrite (kbind _ _ _ _ _ Eg).
  eexists _, q'. split; [done|]. split; [done|]. destruct (_ <? v) eqn:Eb; zbool; split_and!; try done; lia.
Qed.

(** * Picking *)

(** A buddy that may be taken before the leftmost task: not further ahead of it than the wake-up
    granularity. *)
Definition near_left (all : gmap Z task_struct) (buddy left : Z) : bool :=
  negb (buddy =? 0) && (s64 (vof all buddy - vof all left) <=? Z.max 0 (gran all left)).

Lemma near_left_spec all buddy left :
  near_left all buddy left = true <-> buddy <> 0 /\ s64 (vof all buddy - vof all left) <= Z.max 0 (gran all left).
Proof. unfold near_left. rewrite andb_true_iff, negb_true_iff, Z.eqb_neq, Z.leb_le. done. Qed.

Lemma prefer_run q s buddy left p :
  cfs_ok q s -> buddy = 0 \/ known q buddy -> known q left ->
  exists q', prefer buddy left p q = Some (if near_left (all_tasks q) buddy left then buddy else p, q') /\ quiet [] q q' /\
    gran (all_tasks q') left = gran (all_tasks q) left.
Proof.
  intros Hok Hb Hl. unfold prefer. destruct (buddy =? 0) eqn:E; zbool; cbn [negb]; [subst buddy; by exists q|].
  destruct Hb as [|Hb]; [done|]. destruct (wakeup_preempt_run q s buddy left Hok Hb Hl) as (r & q' & Er & Hq & Hr & _ & Hg).
  rewrite (kbind _ _ _ _ _ Er). exists q'. split; [|done]. do 3 f_equal.
  assert ((r <? 1) = near_left (all_tasks q) buddy left) as ->; [|done].
  apply eq_true_iff_eq. rewrite near_left_spec, Z.ltb_lt, Hr. tauto.
Qed.

(** The rule of pick_next_entity: the last buddy before the next buddy before the leftmost task. *)
Definition chosen (q : rq) (left : Z) : Z :=
  if near_left (all_tasks q) (last (cfs q)) left then last (cfs q)
  else if near_left (all_tasks q) (next (cfs q)) left then next (cfs q) else left.

Lemma pick_next_ok q s :
  inv q s -> curr (cfs q) = 0 -> s <> [] ->
  exists p q', pick_next_entity q = Some (p, q') /\ inv q' s /\ curr (cfs q') = 0 /\ rq_curr q' = rq_curr q /\
    (forall r, vof (all_tasks q') r = vof (all_tasks q) r) /\ tasks (cfs q') = tasks (cfs q) /\
    p ∈ s /\ p = chosen q (first_of s).
Proof.
  intros Hinv Hc Hs. pose proof Hinv as [Hok Hl]. unfold pick_next_entity. destruct (pick_run q s (ok_timeline _ _ Hok)) as [Ep _].
  rewrite (kbind _ _ _ _ _ Ep). set (left := first_of s). assert (left ∈ s) as Hleft by (unfold left; destruct s; [done|]; set_solver).
  assert (forall r, r ∈ tasks (cfs q) -> r ∈ s /\ known q r) as Hts.
  { intros r Hr. pose proof (proj1 (ok_runnable _ _ Hok r) Hr) as Hrr%runnable_known. split; [|done]. apply Hl. split; [done|].
    rewrite Hc. by eapply known_pos. }
  pose proof (tree_known _ _ _ Hok Hleft) as Hlk. rewrite (kbind _ _ q (next (cfs q)) q) by done.
  destruct (prefer_run q s (next (cfs q)) left left Hok) as (q1 & E1 & Hq1 & Hg1);
    [destruct (ok_next _ _ Hok); [by left|right; by apply Hts]|done|]. rewrite (kbind _ _ _ _ _ E1).
  set (p1 := if near_left _ _ _ then _ else _) in *. pose proof (quiet_ok _ _ _ _ Hq1 Hok) as Hok1. pose proof (quiet_cfs _ _ _ Hq1) as (_ & _ & _ & Et1 & Ec1 & _ & El1).
  rewrite (kbind _ _ q1 (last (cfs q1)) q1) by done.
  destruct (prefer_run q1 s (last (cfs q1)) left p1 Hok1) as (q2 & E2 & Hq2 & Hg2);
    [rewrite El1, (quiet_known _ _ _ _ Hq1); destruct (ok_last _ _ Hok); [by left|right; by apply Hts]
    |by apply (quiet_known _ _ _ _ Hq1)|]. rewrite (kbind _ _ _ _ _ E2).
  set (p2 := if near_left (all_tasks q1) (last (cfs q1)) left then last (cfs q1) else p1) in *.
  assert (p2 = chosen q left) as Hp2.
  { unfold p2, chosen, near_left. by rewrite El1, Hg1, !(quiet_vof _ _ _ _ Hq1) by set_solver. }
  assert (quiet [] q q2) as Hq by (by transitivity q1). pose proof (quiet_inv _ _ _ _ Hq Hinv) as Hinv2.
  assert (p2 ∈ s) as Hps.
  { rewrite Hp2. unfold chosen. destruct (near_left _ (last (cfs q)) _) eqn:E3.
    - apply near_left_spec in E3 as [? _]. apply Hts. by destruct (ok_last _ _ Hok).
    - destruct (near_left _ (next (cfs q)) _) eqn:E4; [|done]. apply near_left_spec in E4 as [? _]. apply Hts. by destruct (ok_next _ _ Hok). }
  assert (p2 <> 0) as Hp0 by (eapply (known_pos q s); [done|by eapply tree_known]).
  destruct (clear_buddies_ok q2 s p2 (proj1 Hinv2) Hp0) as (q3 & E3 & Hok3 & Hc3 & Et3 & _). rewrite (kbind _ _ _ _ _ E3).
  exists p2, q3. split; [done|]. split; [by eapply calm_inv|]. pose proof Hc3 as (_ & Ec3 & _ & Hv3 & _ & Er3).
  pose proof (quiet_cfs _ _ _ Hq) as (_ & _ & _ & Et2 & Ec2 & _). pose proof Hq as (_ & _ & Er2 & _).
  split_and!; try congruence; try done. intros r. rewrite Hv3. apply (quiet_vof _ _ _ _ Hq). set_solver.
Qed.

Lemma pick_next_task_ok q s :
  inv q s -> curr (cfs q) = 0 ->
  exists p q' s', pick_next_task_fair q = Some (p, q') /\ inv q' s' /\ (ordered q s -> ordered q' s') /\
    curr (cfs q') = p /\ rq_curr q' = rq_curr q /\
    (s = [] -> p = 0) /\
    (s <> [] -> (p ∈ s) /\ (forall r, r ∈ s' <-> r ∈ s /\ r <> p) /\ p = chosen q (first_of s)) /\
    tasks (cfs q') = tasks (cfs q).
Proof.
  intros Hinv Hc. pose proof Hinv as [Hok Hl]. unfold pick_next_task_fair. rewrite (kbind _ _ q (nr_running (cfs q)) q) by done.
  assert (nr_running (cfs q) = 0 <-> s = []) as Hnr.
  { rewrite (ok_nr _ _ Hok). split.
    - intros Hz. destruct (tasks (cfs q)) as [|] eqn:Et; [|done]. destruct s as [|a s']; [done|]. exfalso.
      specialize (Hl a). rewrite Et in Hl. set_solver.
    - intros ->. destruct (tasks (cfs q)) as [|a l] eqn:Et; [done|]. exfalso. assert (a ∈ tasks (cfs q)) as Ha by (rewrite Et; set_solver).
      pose proof (proj1 (ok_runnable _ _ Hok a) Ha) as Hk%runnable_known. pose proof (known_pos _ _ _ Hok Hk).
      specialize (Hl a). rewrite Hc in Hl. set_solver. }
  destruct (nr_running (cfs q) =? 0) eqn:E; zbool.
  - exists 0, q, s. apply Hnr in E. split_and!; try done.
  - assert (s <> []) as Hs by (intros ->; by apply E, Hnr).
    destruct (pick_next_ok q s Hinv Hc Hs) as (p & q1 & E1 & Hinv1 & Hc1 & Er1 & Hv1 & Et1 & Hp & Hfair). rewrite (kbind _ _ _ _ _ E1).
    destruct (set_next_ok q1 s p Hinv1 Hc1) as (q2 & s2 & E2 & Hinv2 & Ho2 & Hc2 & Er2 & Hs2 & Et2);
      [by eapply tree_fair|]. rewrite (kbind _ _ _ _ _ E2).
    exists p, q2, s2. split_and!; try done; [|congruence|congruence]. intros Ho. apply Ho2. by apply (ordered_ext q).
Qed.

(** * Operations that keep the queue *)

Definition same_queue (q q' : rq) : Prop :=
  tasks (cfs q') = tasks (cfs q) /\ curr (cfs q') = curr (cfs q) /\ rq_curr q' = rq_curr q /\
  (forall p, known q' p <-> known q p) /\ (forall p, wof (all_tasks q') p = wof (all_tasks q) p) /\
  (forall p t', all_tasks q' !! p = Some t' -> exists t, all_tasks q !! p = Some t /\ on_rq (se t') = on_rq (se t) /\ policy t' = policy t /\ fair_class t' = fair_class t).

Definition keeps {A} (q : rq) (s : list Z) (e : K A) : Prop :=
  exists v q', e q = Some (v, q') /\ inv q' s /\ (ordered q s -> ordered q' s) /\ same_queue q q'.

#[export] Instance same_queue_preorder : PreOrder same_queue.
Proof.
  split; [intros q; split_and!; try done; by eauto|].
  intros q1 q2 q3 (A1 & A2 & A3 & A4 & A5 & A6) (B1 & B2 & B3 & B4 & B5 & B6). split_and!; try congruence.
  - intros p. by rewrite B4.
  - intros p t3 H3. destruct (B6 p t3 H3) as (t2 & H2 & -> & -> & ->). destruct (A6 p t2 H2) as (t1 & H1 & -> & -> & ->). by eauto.
Qed.

Lemma quiet_same cs q q' : quiet cs q q' -> same_queue q q'.
Proof.
  intros Hq. pose proof (quiet_cfs _ _ _ Hq) as (_ & _ & _ & Et & Ec & _). pose proof Hq as (_ & _ & Er & _).
  split_and!; try done; [intros p; apply (quiet_known _ _ _ _ Hq)|intros p; apply (quiet_wof _ _ _ _ Hq)|].
  intros p t' Ht'. destruct (quiet_task _ _ _ _ _ Hq Ht') as (t & Ht & Ho & _ & Hp & _ & Hf & _). by eauto.
Qed.

Lemma keeps_quietly {A} cs q s (e : K A) : inv q s -> (forall p, p ∈ cs -> p ∉ s) -> quietly cs q e -> keeps q s e.
Proof.
  intros Hinv Hcs (v & q' & E & Hq). exists v, q'. split; [done|]. split; [by eapply quiet_inv|]. split; [|by eapply quiet_same].
  intros Ho. by eapply quiet_ordered.
Qed.

Lemma keeps_ret {A} q s (v : A) : inv q s -> keeps q s (mret v).
Proof. intros Hinv. by exists v, q. Qed.

Lemma keeps_read {A B} q s (e : K A) v (f : A -> K B) : e q = Some (v, q) -> keeps q s (f v) -> keeps q s (e ≫= f).
Proof. intros He (u & q' & Hf & H). exists u, q'. by rewrite (kbind _ _ _ _ _ He). Qed.

Lemma keeps_bind {A B} q s (e : K A) (f : A -> K B) :
  keeps q s e -> (forall v q', e q = Some (v, q') -> inv q' s -> same_queue q q' -> keeps q' s (f v)) -> keeps q s (e ≫= f).
Proof.
  intros (v & q1 & He & Hi1 & Ho1 & Hs1) Hf. destruct (Hf v q1 He Hi1 Hs1) as (u & q2 & Hf2 & Hi2 & Ho2 & Hs2). exists u, q2.
  rewrite (kbind _ _ _ _ _ He). split; [done|]. split; [done|]. split; [by auto|]. by transitivity q1.
Qed.

Lemma clear_buddies_keeps q s p : inv q s -> p <> 0 -> keeps q s (clear_buddies p).
Proof.
  intros Hinv Hp. destruct (clear_buddies_ok q s p (proj1 Hinv) Hp) as (q' & E & Hok & Hc & Et & _). exists tt, q'.
  split; [done|]. split; [by eapply calm_inv|]. split; [by apply calm_ordered|]. pose proof Hc as (_ & Ec & _ & _ & Hk & Er).
  assert (all_tasks q' = all_tasks q) as Ea.
  { unfold clear_buddies, __clear_buddies in E. rewrite (proj2 (Z.eqb_neq p 0)) in E by done. injection E as <-. done. }
  unfold same_queue. rewrite Ea. split_and!; try done. by eauto.
Qed.

Lemma set_last_keeps q s p : inv q s -> runnable q p -> keeps q s (set_last_buddy p).
Proof.
  intros Hinv Hr. destruct (ent_read q p (runnable_known _ _ Hr)) as (t & Ht & _). unfold set_last_buddy, get_task.
  eapply keeps_read; [by rewrite Ht|]. destruct (negb _); [|by apply keeps_ret]. eexists tt, _. split; [reflexivity|].
  split; [|split; [done|split_and!; try done; by eauto]]. destruct Hinv as [Hok Hl]. split; [|done]. pose proof Hok as Hok'. destruct Hok'. constructor; try done.
  right. by apply ok_runnable.
Qed.

Lemma update_curr_keeps q s : inv q s -> keeps q s update_curr.
Proof.
  intros Hinv. eapply keeps_quietly; [done| |by apply (update_curr_quietly q s), Hinv].
  intros p Hp. apply list_elem_of_singleton in Hp as ->. by apply curr_not_queued.
Qed.

Lemma same_runnable q q' s p : inv q s -> inv q' s -> same_queue q q' -> runnable q' p <-> runnable q p.
Proof. intros [Hok _] [Hok' _] (Et & _). by rewrite <- (ok_runnable _ _ Hok'), Et, (ok_runnable _ _ Hok). Qed.

Lemma same_fair q q' p : same_queue q q' -> fair q p -> fair q' p.
Proof.
  intros (_ & _ & _ & Hk & _ & Ht) Hf. destruct (proj2 (Hk p) (fair_known _ _ Hf)) as [t' Ht'].
  destruct (Ht p t' Ht') as (t & E & _ & _ & Hc). destruct Hf as (t0 & E0 & Hf0). exists t'. split; [done|]. congruence.
Qed.

Lemma resched_keeps q s p : inv q s -> keeps q s (resched_task p).
Proof. intros Hinv. eapply (keeps_quietly []); [done|set_solver|apply resched_quietly]. Qed.

Lemma skip_keeps q s b : inv q s -> keeps q s (set_skip b).
Proof. intros Hinv. eapply (keeps_quietly []); [done|set_solver|]. eexists tt, _. split; [reflexivity|]. split_and!; done. Qed.

Lemma clock_keeps q s now : inv q s -> keeps q s (update_rq_clock now).
Proof.
  intros Hinv. unfold update_rq_clock. eapply keeps_read; [done|]. destruct (negb _); [|by apply keeps_ret].
  eapply (keeps_quietly []); [done|set_solver|]. eexists tt, _. split; [reflexivity|]. split_and!; done.
Qed.

Lemma same_fits q q' s p : inv q s -> inv q' s -> same_queue q q' -> fits q p -> fits q' p.
Proof.
  intros Hinv Hinv' Hs [Hr|Hw]; [left; by apply (same_runnable q q' s)|right]. destruct Hs as (Et & _ & _ & _ & Hwo & _).
  by rewrite Et, (total_ext (all_tasks q)), Hwo.
Qed.

(** The task is the one that runs, which the fair class need not know as its current one. *)
Lemma tick_ok q s c : inv q s -> known q c -> fits q c -> keeps q s (task_tick_fair c).
Proof.
  intros Hinv Hk Hfit. unfold task_tick_fair, entity_tick.
  apply keeps_bind; [by apply update_curr_keeps|]. intros _ q1 _ Hinv1 Hs1. eapply keeps_read; [done|].
  destruct (1 <? nr_running (cfs q1)) eqn:En; zbool; simpl; [|by apply keeps_ret].
  unfold check_preempt_tick. pose proof (same_fits q q1 s c Hinv Hinv1 Hs1 Hfit) as Hfit1.
  assert (known q1 c) as Hk1 by (destruct Hs1 as (_ & _ & _ & H1 & _); by apply H1). pose proof (known_pos _ _ _ (proj1 Hinv1) Hk1) as Hc0.
  apply keeps_bind; [eapply (keeps_quietly []); [done|set_solver|eapply sched_slice_quietly; [apply Hinv1|done|done]]|].
  intros ideal q2 _ Hinv2 Hs2. assert (known q2 c) as Hk2 by (destruct Hs2 as (_ & _ & _ & H2 & _); by apply H2).
  destruct (ent_read q2 c Hk2) as (t & Ht & He). eapply keeps_read; [exact He|]. cbn zeta. eapply keeps_read; [done|].
  destruct (ideal <? _); [apply keeps_bind; [by apply resched_keeps|]; intros; by apply clear_buddies_keeps|]. cbn [sched_feat negb].
  destruct (_ <? sysctl_sched_min_granularity); [by apply keeps_ret|]. eapply keeps_read; [done|].
  destruct (1 <? nr_running (cfs q2)) eqn:En2; zbool; [|by apply keeps_ret].
  eapply keeps_read; [apply (pick_run q2 s), Hinv2|].
  assert (known q2 (first_of s)) as Hkl.
  { eapply tree_known; [apply Hinv2|]. destruct s as [|a s']; [|set_solver]. exfalso. rewrite (ok_nr _ _ (proj1 Hinv2)) in En2.
    destruct Hinv2 as [Hok2 Hl2]. destruct (tasks (cfs q2)) as [|x [|y l]] eqn:Et; [simpl in En2; lia|simpl in En2; lia|].
    pose proof (ok_tasks _ _ Hok2) as Hnd. rewrite Et in Hnd. apply NoDup_cons in Hnd as [Hxy _].
    pose proof (Hl2 x) as Hlx. pose proof (Hl2 y) as Hly. rewrite Et in Hlx, Hly. destruct (decide (x = curr (cfs q2))), (decide (y = curr (cfs q2))); set_solver. }
  destruct (ent_read q2 _ Hkl) as (tl & _ & Hel). eapply keeps_read; [exact Hel|]. destruct (ideal <? _); [by apply resched_keeps|by apply keeps_ret].
Qed.

Lemma yield_ok q s now :
  inv q s -> known q (rq_curr q) -> curr (cfs q) = rq_curr q -> keeps q s (yield_task_fair now).
Proof.
  intros Hinv Hk Hc. unfold yield_task_fair. do 2 (eapply keeps_read; [done|]). destruct (_ =? 1); [by apply keeps_ret|].
  set (c := rq_curr q) in *. pose proof (known_pos _ _ _ (proj1 Hinv) Hk) as Hc0.
  apply keeps_bind; [by apply clear_buddies_keeps|]. intros _ q1 _ Hinv1 Hs1.
  assert (known q1 c) as [t Ht] by (destruct Hs1 as (_ & _ & _ & Hk1 & _); by apply Hk1).
  eapply keeps_read; [unfold get_task; by rewrite Ht|]. cbn [sysctl_sched_compat_yield Z.eqb andb].
  destruct (negb (policy t =? SCHED_BATCH)).
  - apply keeps_bind; [by apply clock_keeps|]. intros. by apply update_curr_keeps.
  - eapply keeps_read; [apply (pick_run q1 s), Hinv1|]. destruct (last_of s =? 0) eqn:El; zbool; [by apply keeps_ret|].
    assert (known q1 (last_of s)) as Hkl.
    { eapply tree_known; [apply Hinv1|]. unfold last_of in *. destruct (list.last s) eqn:E; [|done]. by apply last_Some_elem_of. }
    destruct (ent_read q1 _ Hkl) as (tl & _ & Hel). eapply keeps_read; [exact Hel|]. destruct (entity_before _ _); [by apply keeps_ret|].
    eapply (keeps_quietly [c]); [done| |].
    + intros p Hp. apply list_elem_of_singleton in Hp as ->. rewrite <- Hc. destruct Hs1 as (_ & <- & _). by apply curr_not_queued.
    + apply put_ent_quietly; [by exists t|]. intros. split_and!; [done..|]. left. set_solver.
Qed.

Lemma preempt_keeps q s c scale : inv q s -> fair q c -> keeps q s (preempt c scale).
Proof.
  intros Hinv Hk. unfold preempt. apply keeps_bind; [by apply resched_keeps|].
  intros _ q1 _ Hinv1 Hs1. destruct (same_fair _ _ _ Hs1 Hk) as (t & Ht & Hf). pose proof (ent_run q1 c t Ht) as He. eapply keeps_read; [exact He|]. eapply keeps_read; [done|].
  destruct (on_rq (se t)) eqn:Eo; simpl; [|by apply keeps_ret]. destruct (_ =? _); [by apply keeps_ret|].
  destruct scale; [|by apply keeps_ret]. apply set_last_keeps; [done|by exists t].
Qed.

Lemma check_preempt_ok q s p fork :
  inv q s -> known q p -> fair q (rq_curr q) -> keeps q s (check_preempt_wakeup p fork).
Proof.
  intros Hinv [t Ht] Hc. unfold check_preempt_wakeup. do 2 (eapply keeps_read; [done|]). cbn zeta.
  eapply keeps_read; [unfold get_task; by rewrite Ht|]. destruct (prio t <? MAX_RT_PRIO); [by apply preempt_keeps|].
  destruct (negb (fair_class t)); [by apply keeps_ret|]. destruct (_ =? p); [by apply keeps_ret|]. cbn [sched_feat andb].
  eapply keeps_read; [done|]. eapply keeps_read; [done|]. case_bool_decide as Hres; [by apply keeps_ret|].
  destruct (negb (policy t =? SCHED_NORMAL)); [by apply keeps_ret|]. pose proof Hc as (tc & Htc & _).
  eapply keeps_read; [unfold get_task; by rewrite Htc|]. destruct (policy tc =? SCHED_IDLE); [by apply preempt_keeps|].
  cbn [negb]. apply keeps_bind; [by apply update_curr_keeps|]. intros _ q1 _ Hinv1 Hs1. pose proof Hs1 as (_ & _ & Er1 & Hk1 & _).
  pose proof (same_fair _ _ _ Hs1 Hc) as Hc1. assert (known q1 p) as Hp1 by (apply Hk1; by exists t).
  apply keeps_bind; [eapply (keeps_quietly []); [done|set_solver|eapply wakeup_preempt_quietly; [apply Hinv1|by apply fair_known|done]]|].
  intros r q2 _ Hinv2 Hs2. destruct (r =? 1); [|by apply keeps_ret]. apply preempt_keeps; [done|]. by apply (same_fair q1).
Qed.

Lemma check_preempt_curr_ok q s p fork :
  inv q s -> known q p -> known q (rq_curr q) -> keeps q s (check_preempt_curr p fork).
Proof.
  intros Hinv Hp Hc. unfold check_preempt_curr, check_preempt_curr_idle, check_preempt_curr_rt. pose proof Hc as [tc Htc]. pose proof Hp as [t Ht].
  eapply keeps_read; [done|]. eapply keeps_read; [unfold get_task; by rewrite Htc|]. eapply keeps_read; [done|].
  apply keeps_bind; [|intros _ q1 _ Hinv1 _; eapply keeps_read; [done|]; case_bool_decide; [by apply skip_keeps|by apply keeps_ret]].
  destruct (fair_class tc) eqn:Ef; [apply check_preempt_ok; [done|done|by exists tc]|]. destruct (_ =? _); [eapply keeps_read; [done|by apply resched_keeps]|].
  eapply keeps_read; [unfold get_task; by rewrite Ht|]. eapply keeps_read; [done|]. eapply keeps_read; [unfold get_task; by rewrite Htc|].
  destruct (_ <? _); [by apply resched_keeps|by apply keeps_ret].
Qed.

Lemma prio_changed_ok q s p oldprio running :
  inv q s -> known q p -> known q (rq_curr q) -> keeps q s (prio_changed_fair p oldprio running).
Proof.
  intros Hinv Hp Hc. unfold prio_changed_fair. destruct running; [|by apply check_preempt_curr_ok]. destruct Hp as [t Ht].
  eapply keeps_read; [unfold get_task; by rewrite Ht|]. destruct (_ <? _); [|by apply keeps_ret].
  eapply keeps_read; [done|]. by apply resched_keeps.
Qed.

Lemma switched_to_ok q s p running :
  inv q s -> known q p -> known q (rq_curr q) -> keeps q s (switched_to_fair p running).
Proof.
  intros Hinv Hp Hc. unfold switched_to_fair. destruct running; [|by apply check_preempt_curr_ok].
  eapply keeps_read; [done|]. by apply resched_keeps.
Qed.

Lemma rr_interval_ok q s p : inv q s -> known q p -> fits q p -> keeps q s (get_rr_interval_fair p).
Proof.
  intros Hinv Hp Hf. unfold get_rr_interval_fair. eapply keeps_read; [done|]. destruct (negb _); [|by apply keeps_ret].
  apply keeps_bind; [|intros; by apply keeps_ret].
  eapply (keeps_quietly []); [done|set_solver|]. by eapply sched_slice_quietly; [apply Hinv|..].
Qed.

(** A child gets its place: it is not runnable yet. *)
Lemma fork_ok q s p :
  inv q s -> known q p -> ~ runnable q p -> p <> curr (cfs q) ->
  total (all_tasks q) (tasks (cfs q)) + wof (all_tasks q) p < 4294967295 -> keeps q s (task_fork_fair p).
Proof.
  intros Hinv Hk Hn Hpc Hw. unfold task_fork_fair. eapply keeps_read; [done|]. set (c := curr (cfs q)) in *.
  apply keeps_bind; [by apply update_curr_keeps|]. intros _ q1 _ Hinv1 Hs1. pose proof Hs1 as (Et1 & Ec1 & _ & Hk1 & Hw1 & _).
  assert (forall q2, inv q2 s -> same_queue q q2 -> known q2 p /\ (c = 0 \/ known q2 c) /\ (p ∉ s) /\ fits q2 p) as Hstay.
  { intros q2 Hinv2 (Et2 & Ec2 & _ & Hk2 & Hw2 & _). split; [by apply Hk2|].
    split; [unfold c; destruct (ok_curr _ _ (proj1 Hinv)) as [|Hf%fair_known]; [by left|right; by apply Hk2]|].
    split; [exact (not_queued q s p Hinv Hn)|]. right. by rewrite Et2, (total_ext (all_tasks q)), Hw2. }
  assert (forall q2 f, inv q2 s -> same_queue q q2 -> (forall e, on_rq (f e) = on_rq e /\ se_load (f e) = se_load e) ->
    keeps q2 s (put_ent p f)) as Hput.
  { intros q2 f Hinv2 Hs2 Hf. destruct (Hstay q2 Hinv2 Hs2) as (Hkp & _ & Hps & _). eapply (keeps_quietly [p]); [done|set_solver|].
    apply put_ent_quietly; [done|]. intros t1 _. destruct (Hf (se t1)) as [-> ->]. split_and!; [done..|]. left. set_solver. }
  apply keeps_bind.
  { destruct (c =? 0) eqn:E; zbool; cbn [negb]; [by apply keeps_ret|]. destruct (Hstay q1 Hinv1 Hs1) as (_ & [|Hc1] & _); [done|].
    destruct (ent_read q1 c Hc1) as (tc & _ & He). eapply keeps_read; [exact He|]. by apply Hput. }
  intros _ q2 _ Hinv2 Hs2. assert (same_queue q q2) as Hs2' by (by transitivity q1). destruct (Hstay q2 Hinv2 Hs2') as (Hkp & _ & Hps & Hfit).
  apply keeps_bind; [eapply (keeps_quietly [p]); [done|set_solver|eapply place_entity_quietly; [apply Hinv2|done|done]]|].
  intros _ q3 _ Hinv3 Hs3. cbn [sysctl_sched_child_runs_first Z.eqb negb andb]. eapply keeps_read; [done|]. eapply keeps_read; [done|].
  apply Hput; [done|by transitivity q2|done].
Qed.
