(* ===== verification/SchedSpec.v ===== *)
(** What the fair scheduler promises: every run of its operations keeps the queue consistent and in
    the order of the virtual times, and picks accordingly. *)

From S2P Require Import Prelude.
From stdpp Require Import gmap sorting.
From Stdlib Require Import Lia.
From S2P Require Import Rbtree RbtreeRep RbtreeInsert RbtreeErase RbtreeWalk.
From S2P Require Import Sched SchedTime SchedTree SchedInv SchedOps SchedPick.
Open Scope Z_scope.

(** * Runs *)

(** The entries of fair_sched_class; [Clock] and [Switch] stand for the scheduler core, which updates
    the clock and, when it switches, sets rq->curr and clears skip_clock_update. *)
Inductive cfs_op : Type :=
| Enqueue (p flags : Z) | Dequeue (p flags : Z) | Pick | PutPrev | Tick | Yield (now : Z)
| Wakeup (p : Z) (fork : bool) | Fork (p : Z) | SetCurr | PrioChanged (p oldprio : Z) (running : bool)
| SwitchedTo (p : Z) (running : bool) | RrInterval (p : Z) | Clock (now : Z) | Switch (p : Z).

Definition exec (o : cfs_op) : K Z :=
  match o with
  | Enqueue p flags => _ ← enqueue_task_fair p flags; mret 0
  | Dequeue p flags => _ ← dequeue_task_fair p flags; mret 0
  | Pick => pick_next_task_fair
  | PutPrev => c ← get_cfs curr; _ ← put_prev_task_fair c; mret 0
  | Tick => c ← get_cfs curr; _ ← task_tick_fair c; mret 0
  | Yield now => _ ← yield_task_fair now; mret 0
  | Wakeup p fork => _ ← check_preempt_wakeup p fork; mret 0
  | Fork p => _ ← task_fork_fair p; mret 0
  | SetCurr => _ ← set_curr_task_fair; mret 0
  | PrioChanged p oldprio running => _ ← prio_changed_fair p oldprio running; mret 0
  | SwitchedTo p running => _ ← switched_to_fair p running; mret 0
  | RrInterval p => get_rr_interval_fair p
  | Clock now => _ ← update_rq_clock now; mret 0
  | Switch p => fun q =>
      Some (0, Rq (cfs q) (timeline q) (all_tasks q) (rq_load q) (clock q) p (idle q) (need_resched q) false)
  end.

(** The weights of the runnable tasks and of one more do not overflow. *)
Definition room (q : rq) (p : Z) : Prop := total (all_tasks q) (tasks (cfs q)) + wof (all_tasks q) p < 4294967295.

(** What the scheduler core guarantees when it calls an operation. *)
Definition allowed (o : cfs_op) (q : rq) : Prop :=
  match o with
  | Enqueue p _ => fair q p /\ (runnable q p \/ room q p)
  | Dequeue p _ => runnable q p
  | Pick => curr (cfs q) = 0
  | PutPrev => curr (cfs q) <> 0
  | Tick => runnable q (curr (cfs q))
  | Yield _ => known q (rq_curr q) /\ curr (cfs q) = rq_curr q
  | Wakeup p _ => known q p /\ fair q (rq_curr q)
  | PrioChanged p _ _ | SwitchedTo p _ => known q p /\ known q (rq_curr q)
  | RrInterval p => known q p /\ (runnable q p \/ room q p)
  | Fork p => known q p /\ ~ runnable q p /\ p <> curr (cfs q) /\ room q p
  | SetCurr => curr (cfs q) = 0 /\ fair q (rq_curr q)
  | Clock _ | Switch _ => True
  end.

(** The virtual times of the waiting tasks and min_vruntime are less than 2^63 apart. *)
Definition near (q : rq) : Prop :=
  in_window (min_vruntime (cfs q) :: (vof (all_tasks q) <$> filter (.≠ curr (cfs q)) (tasks (cfs q)))).

Definition boot (q : rq) : Prop :=
  cfs q = init_cfs_rq /\ rb_root (timeline q) = 0 /\
  forall p t, all_tasks q !! p = Some t ->
    addr p /\ is_Some (nodes (timeline q) !! p) /\ on_rq (se t) = false /\
    0 <= weight (se_load (se t)) < 4294967295.

Inductive reach (q0 : rq) : rq -> Prop :=
| reach_boot : boot q0 -> reach q0 q0
| reach_step q o v q' : reach q0 q -> allowed o q -> exec o q = Some (v, q') -> near q' -> reach q0 q'.

Lemma near_close q s : linked q s -> near q -> close q s.
Proof.
  intros Hl [b Hb]. exists b. rewrite Forall_forall in *. intros v. rewrite elem_of_cons. intros [->|Hv]; [apply Hb; set_solver|].
  apply list_elem_of_fmap in Hv as (p & -> & Hp). apply Hb, elem_of_cons. right. apply list_elem_of_fmap. exists p. split; [done|].
  apply list_elem_of_filter. apply Hl in Hp as [? ?]. done.
Qed.

Lemma boot_inv q : boot q -> inv q [] /\ ordered q [].
Proof.
  intros (Hc & Hr & Hall). split; [|constructor]. split; [|intros p; rewrite Hc; simpl; set_solver].
  constructor; rewrite ?Hc; simpl; try done; try (by left).
  - split; [by apply empty_tree|]. by rewrite Hc.
  - intros p [t Ht]. by destruct (Hall p t Ht) as (? & ? & _).
  - intros p t Ht. by destruct (Hall p t Ht) as (_ & _ & _ & ?).
  - intros p. split; [by intros ?%elem_of_nil|]. intros (t & Ht & _ & Ho). destruct (Hall p t Ht) as (_ & _ & ? & _). congruence.
Qed.

(** An operation that is called as it should be succeeds and keeps the invariant; the order of the
    queue stays right if the times after it are near. *)
Definition steps {A} (q : rq) (s : list Z) (e : K A) : Prop :=
  exists v q' s', e q = Some (v, q') /\ inv q' s' /\ (ordered q s -> near q' -> ordered q' s').

Lemma steps_intro {A} q s (e : K A) v q' s' :
  e q = Some (v, q') -> inv q' s' -> (ordered q s -> close q' s' -> ordered q' s') -> steps q s e.
Proof.
  intros E Hi Ho. exists v, q', s'. split; [done|]. split; [done|]. intros Hord Hn. apply Ho; [done|]. apply near_close; [apply Hi|done].
Qed.

Lemma steps_unit {A} q s (e : K unit) (v : A) : steps q s e -> steps q s (_ ← e; mret v).
Proof. intros (u & q' & s' & E & H). exists v, q', s'. by rewrite (kbind _ _ _ _ _ E). Qed.

Lemma steps_read {A B} q s (e : K A) v (f : A -> K B) : e q = Some (v, q) -> steps q s (f v) -> steps q s (e ≫= f).
Proof. intros He (u & q' & s' & E & H). exists u, q', s'. by rewrite (kbind _ _ _ _ _ He). Qed.

Lemma steps_keeps {A} q s (e : K A) : keeps q s e -> steps q s e.
Proof. intros (v & q' & E & Hi & Ho & _). eapply steps_intro; [done..|]. by auto. Qed.

Lemma enqueue_steps q s p flags : inv q s -> fair q p -> runnable q p \/ room q p -> steps q s (enqueue_task_fair p flags).
Proof.
  intros Hinv Hk Hr. pose proof Hk as (t & Ht & Hf). pose proof (ent_run q p t Ht) as He. unfold enqueue_task_fair. eapply steps_read; [exact He|].
  destruct (on_rq (se t)) eqn:Eo; [by eapply (steps_intro _ _ _ tt q s)|].
  assert (~ runnable q p) as Hn by (intros (t' & ? & _ & ?); congruence). destruct Hr as [|Hr]; [done|].
  destruct (enqueue_entity_ok q s p flags Hinv Hk Hn Hr) as (q' & s' & E & Hi & Ho & _). by eapply steps_intro.
Qed.

Lemma step_ok q s o : inv q s -> allowed o q -> steps q s (exec o).
Proof.
  intros Hinv Ha. destruct o as [p flags|p flags| | | |now|p fork|p| |p oldprio running|p running|p|now|p]; cbn [exec allowed] in *.
  - apply steps_unit. apply enqueue_steps; tauto.
  - apply steps_unit. destruct (dequeue_entity_ok q s p flags Hinv Ha) as (q' & s' & E & Hi & Ho & _). eapply steps_intro; [done..|]. by auto.
  - destruct (pick_next_task_ok q s Hinv Ha) as (p & q' & s' & E & Hi & Ho & _). eapply steps_intro; [done..|]. by auto.
  - eapply steps_read; [done|]. apply steps_unit. destruct (ok_curr _ _ (proj1 Hinv)) as [|Hk]; [done|].
    destruct (put_prev_ok q s _ Hinv eq_refl Hk) as (q' & s' & E & Hi & Ho & _). by eapply steps_intro.
  - eapply steps_read; [done|]. apply steps_unit, steps_keeps, tick_ok; [done|by apply runnable_known|by left].
  - apply steps_unit, steps_keeps, yield_ok; tauto.
  - apply steps_unit, steps_keeps, check_preempt_ok; tauto.
  - apply steps_unit, steps_keeps, fork_ok; tauto.
  - apply steps_unit. unfold set_curr_task_fair. eapply steps_read; [done|].
    destruct (set_next_ok q s (rq_curr q) Hinv) as (q' & s' & E & Hi & Ho & _); [tauto..|]. eapply steps_intro; [done..|]. by auto.
  - apply steps_unit, steps_keeps, prio_changed_ok; tauto.
  - apply steps_unit, steps_keeps, switched_to_ok; tauto.
  - apply steps_keeps, rr_interval_ok; [done|apply Ha..].
  - by apply steps_unit, steps_keeps, clock_keeps.
  - eapply (steps_intro _ _ _ 0 _ s); [done| |done]. destruct Hinv as [[] Hl]. split; [by constructor|done].
Qed.

Lemma reach_inv q0 q : reach q0 q -> exists s, inv q s /\ ordered q s.
Proof.
  induction 1 as [Hb|q o v q' _ (s & Hinv & Ho) Ha E Hn]; [exists []; by apply boot_inv|].
  destruct (step_ok q s o Hinv Ha) as (v' & q2 & s' & E' & Hi & Ho'). rewrite E in E'. injection E' as <- <-.
  exists s'. split; [done|]. by apply Ho'.
Qed.

(** * Virtual time moves forward *)

(** What update_min_vruntime compares min_vruntime with: the earlier of the current task and the
    leftmost one. *)
Definition candidate (q : rq) : Z :=
  let c := curr (cfs q) in let l := rb_leftmost (cfs q) in
  let v := if c =? 0 then min_vruntime (cfs q) else vof (all_tasks q) c in
  if l =? 0 then v else if c =? 0 then vof (all_tasks q) l else vmin v (vof (all_tasks q) l).

Definition with_min (q : rq) (v : Z) : rq :=
  Rq (put_min v (cfs q)) (timeline q) (all_tasks q) (rq_load q) (clock q) (rq_curr q) (idle q) (need_resched q) (skip_clock_update q).

Lemma update_min_run q s :
  cfs_ok q s -> update_min_vruntime q = Some (tt, with_min q (vmax (min_vruntime (cfs q)) (candidate q))).
Proof.
  intros Hok. unfold update_min_vruntime, candidate.
  rewrite (kbind _ _ q (min_vruntime (cfs q)) q), (kbind _ _ q (curr (cfs q)) q), (kbind _ _ q (rb_leftmost (cfs q)) q) by done.
  set (v := if curr (cfs q) =? 0 then min_vruntime (cfs q) else vof (all_tasks q) (curr (cfs q))).
  rewrite (kbind _ _ q v q).
  2:{ unfold v. destruct (curr (cfs q) =? 0) eqn:E; zbool; [done|]. destruct (ok_curr _ _ Hok) as [|Hk%fair_known]; [done|].
      destruct (ent_read q _ Hk) as (t & Ht & He). cbn [negb]. rewrite (kbind _ _ _ _ _ He). unfold vof. by rewrite Ht. }
  cbn zeta. fold v. destruct (rb_leftmost (cfs q) =? 0) eqn:E; zbool; cbn [negb]; [by rewrite (kbind _ _ q v q)|].
  destruct (left_known q s Hok) as [|Hk]; [done|]. destruct (ent_read q _ Hk) as (t & Ht & He).
  assert (vof (all_tasks q) (rb_leftmost (cfs q)) = vruntime (se t)) as -> by (unfold vof; by rewrite Ht).
  erewrite kbind; [|by rewrite (kbind _ _ _ _ _ He)]. done.
Qed.

(** Times that are not before a base. *)
Lemma ahead_window m v : 0 <= s64 (v - m) <-> u64 (v - m) < 9223372036854775808.
Proof. unfold s64, u64. lia. Qed.

Lemma ahead_trans m v x : 0 <= s64 (v - m) -> 0 <= s64 (x - m) -> 0 <= s64 (x - v) <-> u64 (v - m) <= u64 (x - m).
Proof. intros Hv Hx. apply ahead_window in Hv, Hx. rewrite (s64_window m) by done. lia. Qed.

Lemma candidate_ahead q s :
  inv q s -> ordered q s ->
  let m := min_vruntime (cfs q) in let waits p := p ∈ s \/ (p = curr (cfs q) /\ p <> 0) in
  (forall p, waits p -> 0 <= s64 (vof (all_tasks q) p - m)) ->
  0 <= s64 (candidate q - m) /\ forall p, waits p -> 0 <= s64 (vof (all_tasks q) p - candidate q).
Proof.
  intros Hinv Ho m waits Hm. pose proof (ok_timeline _ _ (proj1 Hinv)) as (_ & Hleft & _).
  pose proof (known_pos q s) as Hpos. pose proof (tree_known q s) as Htk.
  assert (forall p, p ∈ s -> 0 <= s64 (vof (all_tasks q) p - vof (all_tasks q) (first_of s))) as Hfirst.
  { intros p Hp. unfold ordered in Ho. destruct s as [|a s']; [set_solver|]. apply StronglySorted_inv in Ho as [_ Ha].
    rewrite Forall_forall in Ha. apply elem_of_cons in Hp as [->|Hp]; [change (first_of (a :: s')) with a; by rewrite s64_0|by apply Ha]. }
  assert (forall p, waits p -> u64 (vof (all_tasks q) p - m) < 9223372036854775808) as Hw by (intros p Hp; by apply ahead_window, Hm).
  unfold candidate. fold m. rewrite Hleft. set (c := curr (cfs q)) in *.
  assert (s = [] \/ first_of s ∈ s /\ (first_of s =? 0) = false) as Hs.
  { destruct s as [|a s']; [by left|right]. assert (a ∈ a :: s') as Ha by set_solver. split; [done|]. apply Z.eqb_neq.
    apply Hpos; [apply Hinv|apply Htk; [apply Hinv|done]]. }
  destruct (c =? 0) eqn:Ec; zbool; destruct Hs as [Hs|[Hf Hf0]]; rewrite ?Hf0.
  - subst s. simpl. rewrite s64_0. split; [done|]. intros p [Hp|[-> ?]]; [set_solver|done].
  - split; [apply Hm; by left|]. intros p [Hp|[-> ?]]; [by apply Hfirst|done].
  - subst s. simpl. split; [apply Hm; by right|]. intros p [Hp|[-> ?]]; [set_solver|]. by rewrite s64_0.
  - assert (waits c /\ waits (first_of s)) as [Hc Hl] by (split; [by right|by left]).
    pose proof (vmin_window m _ _ (Hw c Hc) (Hw _ Hl)) as Hmin. pose proof (Z.mod_pos_bound (vmin (vof (all_tasks q) c) (vof (all_tasks q) (first_of s)) - m) 18446744073709551616).
    assert (0 <= s64 (vmin (vof (all_tasks q) c) (vof (all_tasks q) (first_of s)) - m)) as Hv
      by (apply ahead_window; rewrite Hmin; pose proof (Hw c Hc); lia).
    split; [done|]. intros p Hp. apply (ahead_trans m); [done|by apply Hm|]. rewrite Hmin. destruct Hp as [Hp|[-> _]]; [|lia].
    specialize (Hfirst p Hp). apply (ahead_trans m) in Hfirst; [lia|apply Hm; by left|apply Hm; by left].
Qed.

(** It is the time of one of them, or min_vruntime when there is none. *)
Lemma candidate_taken q s :
  inv q s ->
  let waits p := p ∈ s \/ (p = curr (cfs q) /\ p <> 0) in
  ((exists p, waits p) -> exists p, waits p /\ candidate q = vof (all_tasks q) p) /\
  ((forall p, ~ waits p) -> candidate q = min_vruntime (cfs q)).
Proof.
  intros Hinv waits. destruct (ok_timeline _ _ (proj1 Hinv)) as (_ & Hleft & _). pose proof (known_pos q s) as Hpos.
  pose proof (tree_known q s) as Htk. unfold candidate. rewrite Hleft. set (c := curr (cfs q)) in *.
  assert (s = [] /\ (first_of s =? 0) = true \/ first_of s ∈ s /\ (first_of s =? 0) = false) as Hs.
  { destruct s as [|a s']; [by left|right]. assert (a ∈ a :: s') as Ha by set_solver. split; [done|]. apply Z.eqb_neq.
    apply Hpos; [apply Hinv|apply Htk; [apply Hinv|done]]. }
  destruct (c =? 0) eqn:Ec; zbool; destruct Hs as [[Hs ->]|[Hf ->]]; split.
  - intros [p [Hp|[-> ?]]]; [subst s; set_solver|done].
  - done.
  - intros _. exists (first_of s). split; [by left|done].
  - intros Hno. exfalso. apply (Hno (first_of s)). by left.
  - intros _. exists c. split; [by right|done].
  - intros Hno. exfalso. apply (Hno c). by right.
  - intros _. unfold vmin. destruct (_ <? 0); [exists (first_of s)|exists c]; (split; [|done]); [by left|by right].
  - intros Hno. exfalso. apply (Hno c). by right.
Qed.

Lemma place_run q p t :
  all_tasks q !! p = Some t ->
  place_entity p false q = Some (tt, Rq (cfs q) (timeline q)
    (<[p := Task (with_vruntime (vmax (vruntime (se t)) (u64 (min_vruntime (cfs q) - 3000000))) (se t)) (policy t) (prio t) (fair_class t)]>
       (all_tasks q)) (rq_load q) (clock q) (rq_curr q) (idle q) (need_resched q) (skip_clock_update q)).
Proof. intros Ht. unfold place_entity, put_ent. simpl. unfold mbind, K_bind, get_cfs, gets. simpl. by rewrite Ht. Qed.

(** C16: update_min_vruntime never moves min_vruntime backwards and changes nothing else; when no
    waiting task and not the current one is behind min_vruntime, it is moved up to the time of one of
    them and passes none, so it becomes the least of their times; when there is no such task it stays.
    place_entity keeps the time of a task that wakes up or moves it to half a latency period
    (3000000) before min_vruntime, and changes nothing else: never back, and to the later of the two
    if they are less than 2^63 apart. *)
Theorem vruntime_forward :
  (forall q s, inv q s ->
     exists q', update_min_vruntime q = Some (tt, q') /\ q' = with_min q (min_vruntime (cfs q')) /\
       0 <= s64 (min_vruntime (cfs q') - min_vruntime (cfs q)) /\
       (ordered q s ->
        let waits p := p ∈ s \/ (p = curr (cfs q) /\ p <> 0) in
        (forall p, waits p -> 0 <= s64 (vof (all_tasks q) p - min_vruntime (cfs q))) ->
        (forall p, waits p -> 0 <= s64 (vof (all_tasks q) p - min_vruntime (cfs q'))) /\
        ((exists p, waits p) -> exists p, waits p /\ s64 (vof (all_tasks q) p - min_vruntime (cfs q')) = 0) /\
        ((forall p, ~ waits p) -> min_vruntime (cfs q') = min_vruntime (cfs q)))) /\
  (forall q p t, all_tasks q !! p = Some t ->
     exists v, let floor := u64 (min_vruntime (cfs q) - 3000000) in
       place_entity p false q = Some (tt, Rq (cfs q) (timeline q)
         (<[p := Task (with_vruntime v (se t)) (policy t) (prio t) (fair_class t)]> (all_tasks q))
         (rq_load q) (clock q) (rq_curr q) (idle q) (need_resched q) (skip_clock_update q)) /\
       (v = vruntime (se t) \/ v = floor) /\ 0 <= s64 (v - vruntime (se t)) /\
       (in_window [vruntime (se t); floor] -> 0 <= s64 (v - floor))).
Proof.
  split.
  - intros q s Hinv. eexists. split; [by apply (update_min_run q s), Hinv|]. split; [done|]. cbn [with_min cfs put_min min_vruntime].
    split; [apply vmax_forward|]. intros Ho Hm. destruct (candidate_ahead q s Hinv Ho Hm) as [Hc Hall].
    destruct (candidate_taken q s Hinv) as [Htake Hnone]. unfold vmax. split_and!.
    + intros p Hp. destruct (0 <? _); [by apply Hall|by apply Hm].
    + intros Hex. destruct (Htake Hex) as (p & Hp & Ep). exists p. split; [done|]. rewrite <- Ep.
      destruct (0 <? _) eqn:E; zbool; [apply s64_0|lia].
    + intros Hno. rewrite (Hnone Hno). by destruct (0 <? _).
  - intros q p t Ht. exists (vmax (vruntime (se t)) (u64 (min_vruntime (cfs q) - 3000000))). intros floor.
    split; [by apply place_run|]. fold floor.
    split; [unfold vmax; destruct (0 <? _); [by right|by left]|]. split; [apply vmax_forward|]. intros [b Hb].
    rewrite !Forall_cons in Hb. destruct Hb as (Hv & Hm & _). rewrite (s64_window b) by (rewrite ?vmax_window by done; lia).
    rewrite vmax_window by done. lia.
Qed.

(** * Every run *)

(** C5: in every state that the operations of the fair class reach from an empty run queue, called
    as the scheduler core calls them, with virtual times less than 2^63 apart: the tree holds exactly
    the runnable tasks but the current one, in the order of their virtual times, and rb_leftmost is
    its first node; nr_running and the load weight count the runnable tasks; the buddies are
    runnable or NULL; and every operation that may be called succeeds, without a NULL pointer
    followed or a division by zero. *)
Theorem cfs_reachable q0 q :
  reach q0 q ->
  (exists s, rb_tree s (timeline q) /\ rb_leftmost (cfs q) = first_of s /\
     StronglySorted (not_later (all_tasks q)) s /\ forall p, p ∈ s <-> runnable q p /\ p <> curr (cfs q)) /\
  (exists l, NoDup l /\ (forall p, p ∈ l <-> runnable q p) /\ nr_running (cfs q) = Z.of_nat (length l) /\
     weight (cfs_load (cfs q)) = total (all_tasks q) l) /\
  (forall b, b = next (cfs q) \/ b = last (cfs q) -> b = 0 \/ runnable q b) /\
  (forall o, allowed o q -> exists v q', exec o q = Some (v, q')).
Proof.
  intros (s & Hinv & Ho)%reach_inv. pose proof Hinv as [Hok Hl]. pose proof (ok_runnable _ _ Hok) as Hr. split_and!.
  - exists s. destruct (ok_timeline _ _ Hok) as (Ht & Hleft & _). split_and!; try done. intros p. rewrite <- Hr. apply Hl.
  - exists (tasks (cfs q)). split_and!; try done; apply Hok.
  - intros b [->| ->]; rewrite <- Hr; apply Hok.
  - intros o Ha. destruct (step_ok q s o Hinv Ha) as (v & q' & _ & E & _). by eauto.
Qed.

(** C6: pick_next_task_fair returns NULL exactly when no task is runnable; otherwise it returns a
    runnable task and makes it the current one: the last buddy, if there is one and it is ahead of
    the leftmost task by no more than the wake-up granularity in the virtual time of that task; else
    the next buddy, if the same holds for it; else the leftmost task, and no runnable task is earlier than
    that one.  The task is taken out of the tree, which holds the other runnable tasks in the order
    of their times, with rb_leftmost the first of them; the same tasks are runnable as before. *)
Theorem pick_fair q0 q :
  reach q0 q -> curr (cfs q) = 0 ->
  exists p q', pick_next_task_fair q = Some (p, q') /\ curr (cfs q') = p /\
    (p = 0 <-> forall r, ~ runnable q r) /\
    (p <> 0 -> runnable q p /\
       let left := rb_leftmost (cfs q) in
       let may b := b <> 0 /\ s64 (vof (all_tasks q) b - vof (all_tasks q) left) <= Z.max 0 (gran (all_tasks q) left) in
       runnable q left /\ (forall r, runnable q r -> 0 <= s64 (vof (all_tasks q) r - vof (all_tasks q) left)) /\
       (may (last (cfs q)) -> p = last (cfs q)) /\
       (~ may (last (cfs q)) -> may (next (cfs q)) -> p = next (cfs q)) /\
       (~ may (last (cfs q)) -> ~ may (next (cfs q)) -> p = left)) /\
    (forall r, runnable q' r <-> runnable q r) /\
    exists s', rb_tree s' (timeline q') /\ rb_leftmost (cfs q') = first_of s' /\
      StronglySorted (not_later (all_tasks q')) s' /\ forall r, r ∈ s' <-> runnable q r /\ r <> p.
Proof.
  intros (s & Hinv & Ho)%reach_inv Hc. pose proof Hinv as [Hok Hl]. pose proof (ok_runnable _ _ Hok) as Hr.
  assert (forall r, runnable q r <-> r ∈ s) as Hrs.
  { intros r. pose proof (Hl r) as Hlr. rewrite Hr, Hc in Hlr. split; [|tauto]. intros Hrr. apply Hlr. split; [done|].
    eapply known_pos; [done|by apply runnable_known]. }
  destruct (pick_next_task_ok q s Hinv Hc) as (p & q' & s' & E & Hinv' & Ho' & Hc' & _ & Hnil & Hcons & Et). exists p, q'. split; [done|].
  split; [done|]. pose proof (ok_runnable _ _ (proj1 Hinv')) as Hr'.
  assert ((forall r, runnable q' r <-> runnable q r) /\
    exists s', rb_tree s' (timeline q') /\ rb_leftmost (cfs q') = first_of s' /\
      StronglySorted (not_later (all_tasks q')) s' /\ forall r, r ∈ s' <-> runnable q r /\ r <> p) as Hafter.
  { split; [intros r; by rewrite <- Hr', Et|]. destruct (ok_timeline _ _ (proj1 Hinv')) as (Htr & Hlm & _). exists s'. split; [done|].
    split; [done|]. split; [by apply Ho'|]. intros r. rewrite <- Hr, <- Et, <- Hc'. apply (proj2 Hinv'). }
  split; [|split; [|exact Hafter]]; destruct s as [|a s''] eqn:Es.
  - rewrite (Hnil eq_refl). split; [|done]. intros _ r. rewrite Hrs. set_solver.
  - destruct Hcons as (Hp & _ & _); [done|]. split; [|intros Hno; exfalso; by apply (Hno p), Hrs].
    intros ->. exfalso. by eapply (known_pos q _ 0); [done|eapply tree_known|].
  - by rewrite (Hnil eq_refl).
  - intros _. destruct Hcons as (Hp & _ & Hch); [done|]. split; [by apply Hrs|]. destruct (ok_timeline _ _ Hok) as (_ & -> & _).
    cbv zeta. rewrite <- !near_left_spec, Hch. split; [apply Hrs; set_solver|]. split.
    + intros r Hrr%Hrs. apply StronglySorted_inv in Ho as [_ Ha]. rewrite Forall_forall in Ha.
      apply elem_of_cons in Hrr as [->|Hrr]; [by rewrite s64_0|by apply Ha].
    + unfold chosen. destruct (near_left _ (last (cfs q)) _), (near_left _ (next (cfs q)) _); split_and!; done.
Qed.

(** * A sample run *)

Definition sample_task (w i v : Z) : task_struct := Task (Entity (LoadWeight w i) false 0 0 v 0) SCHED_NORMAL 120 true.

(** Two tasks, with nice values 0 and 5. *)
Definition sample_boot : rq :=
  Rq init_cfs_rq (World (<[4 := RbNode 0 0 0]> {[8 := RbNode 0 0 0]}) 0)
     (<[4 := sample_task 1024 4194304 7]> {[8 := sample_task 335 12820798 5]}) (LoadWeight 0 0) 100 0 0 ∅ false.

Definition after_op (o : cfs_op) (q : rq) : rq := match exec o q with Some (_, q') => q' | None => q end.

(** The first of them is enqueued, then the second. *)
Definition sample_one : rq := Eval vm_compute in after_op (Enqueue 4 0) sample_boot.

Definition sample_queue : rq := Eval vm_compute in after_op (Enqueue 8 0) sample_one.

Lemma sample_boot_ok : boot sample_boot.
Proof.
  split; [done|]. split; [done|]. intros p t Ht. cbn [all_tasks sample_boot] in Ht.
  apply lookup_insert_Some in Ht as [[<- <-]|[_ Ht]]; [|apply lookup_singleton_Some in Ht as [<- <-]];
    (split; [split; [lia|split; [lia|done]]|]); (split; [by eexists|]); by split_and!.
Qed.

Definition nearb (b : Z) (q : rq) : bool :=
  forallb (fun v => u64 (v - b) <? 9223372036854775808)
    (min_vruntime (cfs q) :: (vof (all_tasks q) <$> filter (.≠ curr (cfs q)) (tasks (cfs q)))).

Lemma nearb_near b q : nearb b q = true -> near q.
Proof.
  unfold nearb. rewrite forallb_forall. intros H. exists b. apply Forall_forall. intros v Hv. apply Z.ltb_lt, H. by apply list_elem_of_In.
Qed.

Lemma sample_near : near sample_one /\ near sample_queue.
Proof. split; apply (nearb_near (u64 (-1048576))); vm_compute; reflexivity. Qed.

Lemma sample_reach_one : reach sample_boot sample_one.
Proof.
  refine (reach_step _ sample_boot (Enqueue 4 0) 0 _ (reach_boot _ sample_boot_ok) _ _ (proj1 sample_near)).
  - split; [by eexists|right; by vm_compute].
  - vm_compute. reflexivity.
Qed.

Lemma sample_reach : reach sample_boot sample_queue.
Proof.
  refine (reach_step _ sample_one (Enqueue 8 0) 0 _ sample_reach_one _ _ (proj2 sample_near)).
  - split; [by eexists|right; by vm_compute].
  - vm_compute. reflexivity.
Qed.

Lemma inv_perm q s : inv q s -> s ≡ₚ filter (.≠ curr (cfs q)) (tasks (cfs q)).
Proof.
  intros [Hok Hl]. destruct (ok_timeline _ _ Hok) as (Ht & _ & _). apply NoDup_Permutation.
  - apply Ht.
  - apply NoDup_filter, Hok.
  - intros p. rewrite (Hl p), list_elem_of_filter. tauto.
Qed.

Lemma sample_one_inv : inv sample_one [4] /\ ordered sample_one [4].
Proof.
  destruct (reach_inv _ _ sample_reach_one) as (s & Hinv & Ho). pose proof (inv_perm _ _ Hinv) as Hp.
  change (filter _ _) with [4] in Hp. apply Permutation_singleton_r in Hp as ->. done.
Qed.

Lemma sample_inv : inv sample_queue [8; 4] /\ ordered sample_queue [8; 4].
Proof.
  destruct (reach_inv _ _ sample_reach) as (s & Hinv & Ho). pose proof (inv_perm _ _ Hinv) as Hp.
  change (filter _ _) with [8; 4] in Hp. destruct (ok_timeline _ _ (proj1 Hinv)) as (_ & Hf & _). change (rb_leftmost _) with 8 in Hf.
  destruct s as [|a s]; [done|]. change (first_of (a :: s)) with a in Hf. subst a. apply Permutation_cons_inv, Permutation_singleton_r in Hp as ->. done.
Qed.

Lemma cfs_reachable_witness :
  exists s, rb_tree s (timeline sample_queue) /\ rb_leftmost (cfs sample_queue) = first_of s /\
    StronglySorted (not_later (all_tasks sample_queue)) s /\
    forall p, p ∈ s <-> runnable sample_queue p /\ p <> curr (cfs sample_queue).
Proof. exact (proj1 (cfs_reachable sample_boot sample_queue sample_reach)). Defined.

(** There are no buddies: the leftmost task, 8, is picked and the other one stays in the tree. *)
Lemma pick_fair_witness :
  exists q', pick_next_task_fair sample_queue = Some (8, q') /\ curr (cfs q') = 8 /\
    exists s', rb_tree s' (timeline q') /\ forall r, r ∈ s' <-> runnable sample_queue r /\ r <> 8.
Proof.
  destruct (pick_fair sample_boot sample_queue sample_reach eq_refl) as (p & q' & E & Hc & H0 & Hp & _ & s' & Ht & _ & _ & Hs).
  assert (p = 8) as ->; [|by eauto 10].
  destruct Hp as (_ & _ & _ & _ & _ & Hleft); [|apply Hleft; intros [Hb _]; apply Hb; reflexivity].
  intros Hz. apply (proj1 H0 Hz 8). eexists. split; [vm_compute; reflexivity|]. split; reflexivity.
Defined.

(** min_vruntime moves up to the time of the leftmost task, 8; task 4 keeps its time when placed. *)
Lemma vruntime_forward_witness :
  (exists q', update_min_vruntime sample_queue = Some (tt, q') /\
    exists p, (p ∈ [8; 4] \/ (p = 0 /\ p <> 0)) /\ s64 (vof (all_tasks sample_queue) p - min_vruntime (cfs q')) = 0) /\
  exists q', place_entity 4 false sample_queue = Some (tt, q') /\
    0 <= s64 (vof (all_tasks q') 4 - u64 (min_vruntime (cfs sample_queue) - 3000000)).
Proof.
  split.
  - destruct (proj1 vruntime_forward sample_queue [8; 4] (proj1 sample_inv)) as (q' & E & _ & _ & H). exists q'. split; [done|].
    destruct (H (proj2 sample_inv)) as (_ & Hmin & _); [|apply Hmin; exists 8; left; left].
    intros p [Hp|[-> Hp]]; [|by destruct Hp]. apply elem_of_cons in Hp as [->|Hp%list_elem_of_singleton]; [|subst p]; by vm_compute.
  - destruct (proj2 vruntime_forward sample_queue 4 _ eq_refl) as (v & E & _ & _ & H). eexists. split; [exact E|].
    unfold vof. cbn [all_tasks]. rewrite lookup_insert_eq. apply H.
    exists (u64 (-4048576)). rewrite !Forall_cons. split; [by vm_compute|]. split; [by vm_compute|done].
Defined.

(** * The timeline *)

(** C15: on a timeline, __pick_next_entity and __pick_last_entity return the ends of the tree;
    __enqueue_entity puts a task into the tree, where, when the times are less than 2^63 apart and
    the tree is in their order, it stands after every task that is not later and before every task
    that is later, so that the order is kept and tasks of the same time stay in the order of their
    arrival; __dequeue_entity takes a task out and keeps the order of the others.  Both keep
    rb_leftmost the first node and change nothing else. *)
Theorem cfs_timeline q s :
  timeline_ok q s ->
  __pick_next_entity q = Some (first_of s, q) /\ __pick_last_entity q = Some (last_of s, q) /\
  (forall p, wf (p :: s) -> is_Some (nodes (timeline q) !! p) -> is_Some (all_tasks q !! p) ->
     exists pre post w, let q' := retree q w (first_of (pre ++ p :: post)) in
       s = pre ++ post /\ __enqueue_entity p q = Some (tt, q') /\ timeline_ok q' (pre ++ p :: post) /\
       same_out (pre ++ p :: post) (timeline q) w /\
       (ordered q s -> close q (pre ++ p :: post) ->
          ordered q' (pre ++ p :: post) /\ Forall (fun b => s64 (vof (all_tasks q) p - vof (all_tasks q) b) < 0) post)) /\
  (forall pre p post, s = pre ++ p :: post ->
     exists w, let q' := retree q w (first_of (pre ++ post)) in
       __dequeue_entity p q = Some (tt, q') /\ timeline_ok q' (pre ++ post) /\ same_out (pre ++ post) (timeline q) w).
Proof.
  intros Hok. pose proof Hok as (_ & _ & Hall). rewrite Forall_forall in Hall.
  destruct (pick_run q s Hok) as [E1 E2]. split; [done|]. split; [done|]. split.
  - intros p Hs Hn Ht. destruct (enqueue_run q s p Hok Hs Hn Ht) as (pre & post & w & -> & E & Htr & Ho & Hk).
    exists pre, post, w. split; [done|]. split; [done|]. split; [|split; [done|]].
    + split; [done|]. split; [done|]. apply Forall_forall. intros r Hr. destruct (decide (r = p)) as [->|]; [done|]. apply Hall. set_solver.
    + intros Hord Hc. by apply (insert_order q pre p post).
  - intros pre p post ->. destruct (dequeue_run q pre p post Hok) as (w & E & Htr & Ho). exists w. split; [done|]. split; [|done].
    split; [done|]. split; [done|]. apply Forall_forall. intros r Hr. apply Hall. set_solver.
Qed.

(** Task 8 is put into the tree of task 4, in the order of the times; task 4 is taken out of the
    tree of both. *)
Lemma cfs_timeline_witness :
  __pick_next_entity sample_one = Some (4, sample_one) /\
  (exists pre post w, [4] = pre ++ post /\ __enqueue_entity 8 sample_one = Some (tt, retree sample_one w (first_of (pre ++ 8 :: post))) /\
     ordered (retree sample_one w (first_of (pre ++ 8 :: post))) (pre ++ 8 :: post)) /\
  (exists w, __dequeue_entity 4 sample_queue = Some (tt, retree sample_queue w 8) /\ timeline_ok (retree sample_queue w 8) [8]).
Proof.
  destruct (cfs_timeline sample_one [4] (ok_timeline _ _ (proj1 (proj1 sample_one_inv)))) as (Hp & _ & Hin & _).
  split; [exact Hp|]. split.
  - destruct (Hin 8) as (pre & post & w & Hs & E & _ & _ & Ho); [| by eexists | by eexists |].
    + split; [by apply (bool_decide_unpack _)|]. repeat constructor; vm_compute; congruence.
    + exists pre, post, w. split; [done|]. split; [done|]. apply Ho; [apply sample_one_inv|]. exists (u64 (-1048576)).
      apply Forall_cons. split; [by vm_compute|]. apply Forall_fmap, Forall_forall. intros r Hr.
      assert (r ∈ [4] \/ r = 8) as [->%list_elem_of_singleton| ->] by (rewrite Hs; clear -Hr; set_solver); by vm_compute.
  - destruct (cfs_timeline sample_queue [8; 4] (ok_timeline _ _ (proj1 (proj1 sample_inv)))) as (_ & _ & _ & Hout).
    destruct (Hout [8] 4 [] eq_refl) as (w & E & Hok & _). by exists w.
Defined.

(** * Weights *)

(** The precalculated inverses. *)
Definition inverse_ok (wi : Z * Z) : bool :=
  let '(w, i) := wi in
  (0 <? w) && (0 <? i) && (i <=? 2147483648) && (4294967296 - w <=? w * i) && (w * i <=? 4294967296 + w).

Lemma prio_tables k w i :
  prio_to_weight !! k = Some w -> prio_to_wmult !! k = Some i ->
  0 < w /\ 0 < i <= 2147483648 /\ 4294967296 - w <= w * i <= 4294967296 + w.
Proof.
  intros Hw Hi. assert (forallb inverse_ok (zip prio_to_weight prio_to_wmult) = true) as Hall by (vm_compute; reflexivity).
  rewrite forallb_forall in Hall. assert (zip prio_to_weight prio_to_wmult !! k = Some (w, i)) as Hk
    by (apply lookup_zip_with_Some; by exists w, i).
  specialize (Hall (w, i) (proj1 (list_elem_of_In _ _) (list_elem_of_lookup_2 _ _ _ Hk))). unfold inverse_ok in Hall.
  rewrite !andb_true_iff in Hall. destruct Hall as [[[[H1 H2] H3] H4] H5]. zbool. lia.
Qed.

Lemma set_load_weight_inverse policy static_prio lw :
  set_load_weight false policy static_prio = Some lw ->
  0 < weight lw /\ 0 < inv_weight lw <= 2147483648 /\
  4294967296 - weight lw <= weight lw * inv_weight lw <= 4294967296 + weight lw.
Proof.
  unfold set_load_weight, rd. destruct (policy =? SCHED_IDLE).
  - intros [= <-]. vm_compute. repeat split; congruence.
  - case_bool_decide; [|done]. destruct (prio_to_weight !! _) as [w|] eqn:Hw; [|done]. simpl.
    destruct (prio_to_wmult !! _) as [i|] eqn:Hi; [|done]. intros [= <-]. by eapply prio_tables.
Qed.

Lemma calc_scaled delta w0 w i :
  0 <= delta * w0 < 281474976710656 -> 0 < i ->
  calc_delta_mine delta w0 (LoadWeight w i) = Some (u32 (Z.min (scaled (delta * w0) i) 2147483647), LoadWeight w i).
Proof.
  intros Ht Hi. unfold calc_delta_mine, scaled. cbn [inv_weight]. rewrite (proj2 (Z.eqb_neq i 0)) by lia. simpl.
  assert (u64 (delta * w0) = delta * w0) as -> by (unfold u64; apply Z.mod_small; lia). done.
Qed.


