(* ===== verification/SchedFrame.v ===== *)
(** What the operations of the fair class leave alone: who runs, who is idle, and of every task the
    policy, the priority, the class, the weight and, but for the task that enters or leaves the queue,
    whether it is runnable. *)

From S2P Require Import Prelude.
From stdpp Require Import gmap.
From Stdlib Require Import Lia.
From S2P Require Import Rbtree.
From S2P Require Import Sched.
Open Scope Z_scope.

Definition view (ps : list Z) (p : Z) (t : task_struct) : Z * Z * bool * Z * bool :=
  (policy t, prio t, fair_class t, weight (se_load (se t)), if bool_decide (p ∈ ps) then false else on_rq (se t)).

Definition frame (ps : list Z) (q q' : rq) : Prop :=
  rq_curr q' = rq_curr q /\ idle q' = idle q /\ need_resched q ⊆ need_resched q' /\
  forall p, view ps p <$> all_tasks q' !! p = view ps p <$> all_tasks q !! p.

#[export] Instance frame_preorder ps : PreOrder (frame ps).
Proof.
  split; [by intros q; split_and!|]. intros q1 q2 q3 (A1 & A2 & A3 & A4) (B1 & B2 & B3 & B4).
  split_and!; [congruence|congruence|set_solver|]. intros p. by rewrite B4.
Qed.

Lemma frame_more ps ps' q q' : (forall p, p ∈ ps -> p ∈ ps') -> frame ps q q' -> frame ps' q q'.
Proof.
  intros Hss (H1 & H2 & H3 & H4). split_and!; [done..|]. intros p. specialize (H4 p). unfold view in *.
  destruct (all_tasks q !! p), (all_tasks q' !! p); simpl in *; try done. injection H4 as E1 E2 E3 E4 E5.
  rewrite E1, E2, E3, E4. do 2 f_equal. destruct (decide (p ∈ ps')) as [Hp|Hp]; [by rewrite !bool_decide_eq_true_2|].
  rewrite !bool_decide_eq_false_2 in E5 by auto. by rewrite !bool_decide_eq_false_2.
Qed.

(** A task before and after. *)
Lemma frame_task ps q q' p t :
  frame ps q q' -> all_tasks q !! p = Some t ->
  exists t', all_tasks q' !! p = Some t' /\ policy t' = policy t /\ prio t' = prio t /\ fair_class t' = fair_class t /\
    weight (se_load (se t')) = weight (se_load (se t)) /\ (p ∉ ps -> on_rq (se t') = on_rq (se t)).
Proof.
  intros (_ & _ & _ & H) Ht. specialize (H p). rewrite Ht in H. destruct (all_tasks q' !! p) as [t'|]; [|done].
  exists t'. unfold view in H. simpl in H. injection H as E1 E2 E3 E4 E5. split_and!; try done.
  intros Hp. by rewrite bool_decide_eq_false_2 in E5.
Qed.

Lemma frame_back ps q q' p t' :
  frame ps q q' -> all_tasks q' !! p = Some t' ->
  exists t, all_tasks q !! p = Some t /\ policy t' = policy t /\ prio t' = prio t /\ fair_class t' = fair_class t /\
    weight (se_load (se t')) = weight (se_load (se t)) /\ (p ∉ ps -> on_rq (se t') = on_rq (se t)).
Proof.
  intros Hf Ht'. pose proof Hf as (_ & _ & _ & H). specialize (H p). rewrite Ht' in H.
  destruct (all_tasks q !! p) as [t|] eqn:Ht; [|done]. destruct (frame_task _ _ _ _ _ Hf Ht) as (t2 & E & H2).
  rewrite Ht' in E. injection E as <-. by exists t.
Qed.

(** * Programs *)

Definition framed {A} (ps : list Z) (e : K A) : Prop := forall q v q', e q = Some (v, q') -> frame ps q q'.

Create HintDb frame.

Lemma framed_ret {A} ps (v : A) : framed ps (mret v).
Proof. intros q v' q' [= <- <-]. done. Qed.

Lemma framed_bind {A B} ps (e : K A) (f : A -> K B) :
  framed ps e -> (forall v, framed ps (f v)) -> framed ps (e ≫= f).
Proof.
  intros He Hf q v q' E. unfold mbind, K_bind in E. destruct (e q) as [[x q1]|] eqn:E1; [|done].
  transitivity q1; [by eapply He|by eapply Hf].
Qed.

Lemma framed_more {A} ps ps' (e : K A) : (forall p, p ∈ ps -> p ∈ ps') -> framed ps e -> framed ps' e.
Proof. intros Hss He q v q' E. eapply frame_more; [done|]. by eapply He. Qed.

Lemma framed_nil {A} ps (e : K A) : framed [] e -> framed ps e.
Proof. apply framed_more. set_solver. Qed.

Lemma framed_gets {A} ps (f : rq -> A) : framed ps (gets f).
Proof. intros q v q' [= <- <-]. done. Qed.

Lemma framed_get_cfs {A} ps (f : cfs_rq -> A) : framed ps (get_cfs f).
Proof. apply framed_gets. Qed.

Lemma framed_set_cfs ps f : framed ps (set_cfs f).
Proof. intros q v q' [= <- <-]. split_and!; done. Qed.

Lemma framed_value {A} ps (o : option A) : framed ps (value o).
Proof. intros q v q' E. unfold value in E. destruct o; simplify_eq. done. Qed.

Lemma framed_tree {A} ps (e : M A) : framed ps (tree e).
Proof. intros q v q' E. unfold tree in E. destruct (e (timeline q)) as [[x w]|]; simplify_eq. split_and!; done. Qed.

Lemma framed_get_task ps p : framed ps (get_task p).
Proof. intros q v q' E. unfold get_task in E. destruct (all_tasks q !! p); simplify_eq/=. done. Qed.

Lemma framed_set_rq_load ps f : framed ps (set_rq_load f).
Proof. intros q v q' [= <- <-]. split_and!; done. Qed.

Lemma framed_set_clock ps now : framed ps (set_clock now).
Proof. intros q v q' [= <- <-]. split_and!; done. Qed.

Lemma framed_set_skip ps b : framed ps (set_skip b).
Proof. intros q v q' [= <- <-]. split_and!; done. Qed.

Lemma framed_resched ps p : framed ps (resched_task p).
Proof. intros q v q' [= <- <-]. split_and!; try done. set_solver. Qed.

Lemma framed_put_ent ps p f :
  (forall e, weight (se_load (f e)) = weight (se_load e) /\ (p ∈ ps \/ on_rq (f e) = on_rq e)) -> framed ps (put_ent p f).
Proof.
  intros Hf q v q' E. unfold put_ent in E. destruct (all_tasks q !! p) as [t|] eqn:Ht; simplify_eq/=.
  split_and!; try done. intros r. cbn [all_tasks]. destruct (decide (r = p)) as [->|]; [|by rewrite lookup_insert_ne].
  rewrite lookup_insert_eq, Ht. simpl. unfold view. simpl. destruct (Hf (se t)) as [-> Ho]. do 2 f_equal.
  destruct (decide (p ∈ ps)) as [Hp|Hp]; [by rewrite !bool_decide_eq_true_2|]. destruct Ho; [done|]. by rewrite !bool_decide_eq_false_2.
Qed.

#[export] Hint Resolve framed_ret framed_gets framed_get_cfs framed_set_cfs framed_value framed_tree framed_get_task
  framed_set_rq_load framed_set_clock framed_set_skip framed_resched : frame.

(** One step: a bind, a case of the program, a known program, or an update that keeps the view. *)
Ltac frame_step :=
  first
    [ solve [eauto with frame]
    | apply framed_bind; [|intros]
    | match goal with
      | |- framed _ (let '(_, _) := ?x in _) => destruct x
      | |- framed _ (if ?b then _ else _) => destruct b
      | |- framed _ (put_ent _ _) => apply framed_put_ent; intros; split; [done|(by right) || (left; set_solver)]
      end ].

Ltac frames := repeat frame_step.

(** * The operations of the fair class *)

Lemma framed_ent ps p : framed ps (ent p).
Proof. unfold ent. frames. Qed.
#[export] Hint Resolve framed_ent : frame.

Lemma calc_weight d w lw r lw' : calc_delta_mine d w lw = Some (r, lw') -> weight lw' = weight lw.
Proof.
  unfold calc_delta_mine. destruct (inv_weight lw =? 0).
  - destruct (u32 (weight lw + 1) =? 0); simpl; intros; by simplify_eq/=.
  - simpl. intros. by simplify_eq/=.
Qed.

Lemma framed_calc_delta_fair ps d p : framed ps (calc_delta_fair d p).
Proof.
  intros q v q' E. unfold calc_delta_fair in E. unfold mbind, K_bind, ent, get_task in E. unfold mbind, K_bind in E.
  destruct (all_tasks q !! p) as [t|] eqn:Ht; simpl in E; [|done].
  destruct (negb _); [|by injection E as <- <-]. unfold value in E. destruct (calc_delta_mine _ _ _) as [[r lw]|] eqn:Ec; [|done].
  unfold put_ent in E. rewrite Ht in E. injection E as <- <-. split_and!; try done. intros r0. cbn [all_tasks].
  destruct (decide (r0 = p)) as [->|]; [|by rewrite lookup_insert_ne]. rewrite lookup_insert_eq, Ht. simpl. unfold view. simpl.
  by rewrite (calc_weight _ _ _ _ _ Ec).
Qed.
#[export] Hint Resolve framed_calc_delta_fair : frame.

Lemma framed_update_min ps : framed ps update_min_vruntime.
Proof. unfold update_min_vruntime. frames. Qed.
#[export] Hint Resolve framed_update_min : frame.

Lemma framed_update_curr ps : framed ps update_curr.
Proof. unfold update_curr, __update_curr. frames. Qed.

Lemma framed_sched_slice ps p : framed ps (sched_slice p).
Proof. unfold sched_slice. frames. Qed.
#[export] Hint Resolve framed_update_curr framed_sched_slice : frame.

Lemma framed_place_entity ps p initial : framed ps (place_entity p initial).
Proof. unfold place_entity, sched_vslice. frames. Qed.

Lemma framed___enqueue_entity ps p : framed ps (__enqueue_entity p).
Proof. unfold __enqueue_entity. frames. Qed.

Lemma framed___dequeue_entity ps p : framed ps (__dequeue_entity p).
Proof. unfold __dequeue_entity. frames. Qed.

Lemma framed_clear_buddies ps p : framed ps (clear_buddies p).
Proof. unfold clear_buddies, __clear_buddies. frames. Qed.
#[export] Hint Resolve framed_place_entity framed___enqueue_entity framed___dequeue_entity framed_clear_buddies : frame.

Lemma framed_update_rq_clock ps now : framed ps (update_rq_clock now).
Proof. unfold update_rq_clock. frames. Qed.

Lemma framed_wakeup_preempt ps c p : framed ps (wakeup_preempt_entity c p).
Proof. unfold wakeup_preempt_entity, wakeup_gran. frames. Qed.
#[export] Hint Resolve framed_update_rq_clock framed_wakeup_preempt : frame.

Lemma framed_enqueue_task p flags : framed [p] (enqueue_task_fair p flags).
Proof. unfold enqueue_task_fair, enqueue_entity, account_entity_enqueue. frames. Qed.

Lemma framed_dequeue_task p flags : framed [p] (dequeue_task_fair p flags).
Proof. unfold dequeue_task_fair, dequeue_entity, account_entity_dequeue. frames. Qed.

Lemma framed_set_next ps p : framed ps (set_next_entity p).
Proof. unfold set_next_entity, update_stats_curr_start. frames. Qed.
#[export] Hint Resolve framed_set_next : frame.

Lemma framed_pick ps : framed ps pick_next_task_fair.
Proof. unfold pick_next_task_fair, pick_next_entity, __pick_next_entity, prefer. frames. Qed.

Lemma framed_put_prev ps p : framed ps (put_prev_task_fair p).
Proof. unfold put_prev_task_fair, put_prev_entity. frames. Qed.

Lemma framed_set_curr ps : framed ps set_curr_task_fair.
Proof. unfold set_curr_task_fair. frames. Qed.

Lemma framed_tick ps p : framed ps (task_tick_fair p).
Proof. unfold task_tick_fair, entity_tick, check_preempt_tick, __pick_next_entity. frames. Qed.

Lemma framed_yield ps now : framed ps (yield_task_fair now).
Proof. unfold yield_task_fair, __pick_last_entity. frames. Qed.

Lemma framed_check_preempt_curr ps p fork : framed ps (check_preempt_curr p fork).
Proof.
  unfold check_preempt_curr, check_preempt_curr_idle, check_preempt_curr_rt, check_preempt_wakeup, preempt, set_last_buddy,
    set_next_buddy. frames.
Qed.
#[export] Hint Resolve framed_check_preempt_curr : frame.

Lemma framed_prio_changed ps p oldprio running : framed ps (prio_changed_fair p oldprio running).
Proof. unfold prio_changed_fair. frames. Qed.

Lemma framed_switched_to ps p running : framed ps (switched_to_fair p running).
Proof. unfold switched_to_fair. frames. Qed.

Lemma framed_fork ps p : framed ps (task_fork_fair p).
Proof. unfold task_fork_fair. frames. Qed.
