(* ===== verification/SchedRt.v ===== *)
(** The real-time scheduling class on one processor (kernel/sched_rt.c), with the queue of the
    processor as a whole.

    The configuration is that of [Sched].  The run queue of [Sched] is a part of the state of the
    processor; a list of tasks is the list of their addresses, so that unlinking a task takes it out
    of the list it is in, and a task is on the queue of its class when one of the lists has it. *)

From S2P Require Import Prelude.
From stdpp Require Import gmap.
From Stdlib Require Import Lia.
From S2P Require Import Word FindBit.
From S2P Require Import Task.
From S2P Require Import Rbtree.
From S2P Require Import Sched.
Open Scope Z_scope.

(** * State *)

Record sched_rt_entity : Type := RtEntity { timeout : Z; time_slice : Z }.

(** What the scheduler keeps of a task besides the entity of the fair class and the fields of
    [Sched.task_struct].  [sig] has the state and the pending signals; [rttime] the soft and the hard
    limit RLIMIT_RTTIME, if the task has a signal structure; [pi_prio] the priority of the first
    waiter for a lock that the task holds. *)
Record task_rest : Type := Rest {
  sig : Task.task_struct;
  rt_se : sched_rt_entity;
  static_prio : Z;
  normal_prio : Z;
  rt_priority : Z;
  sched_reset_on_fork : bool;
  sched_exp : Z;
  freezing : bool;
  rttime : option (Z * Z);
  pi_prio : option Z
}.

Record rt_prio_array : Type := PrioArray { bitmap : list Z; queue : list (list Z) }.

Record rt_rq : Type := RtRq {
  active : rt_prio_array;
  rt_nr_running : Z;
  rt_throttled : Z;
  rt_time : Z;
  rt_runtime : Z
}.

(** [period_timer]: whether rt_period_timer is active. *)
Record rt_bandwidth : Type := Bandwidth { rt_period : Z; bw_runtime : Z; period_timer : bool }.

(** The processor: its run queue with the part of the fair class in [base], the rest of the tasks,
    and the tunable sysctl_sched_rt_runtime. *)
Record cpu : Type := Cpu {
  base : rq;
  rt : rt_rq;
  rest : gmap Z task_rest;
  nr_all : Z;
  nr_uninterruptible : Z;
  nr_switches : Z;
  def_rt_bandwidth : rt_bandwidth;
  sysctl_sched_rt_runtime : Z
}.

(** * Programs *)

Definition C (A : Type) : Type := cpu -> option (A * cpu).

#[global] Instance C_ret : MRet C := fun A x c => Some (x, c).
#[global] Instance C_bind : MBind C := fun A B f e c =>
  match e c with Some (x, c) => f x c | None => None end.

Definition put_base (q : rq) (c : cpu) : cpu :=
  Cpu q (rt c) (rest c) (nr_all c) (nr_uninterruptible c) (nr_switches c) (def_rt_bandwidth c) (sysctl_sched_rt_runtime c).

(** A program on the run queue of the fair class. *)
Definition lift {A} (e : K A) : C A := fun c =>
  match e (base c) with Some (x, q) => Some (x, put_base q c) | None => None end.

(** A value that may be missing. *)
Definition need {A} (o : option A) : C A := fun c =>
  match o with Some x => Some (x, c) | None => None end.

Definition look {A} (f : cpu -> A) : C A := fun c => Some (f c, c).

Definition set_rt (f : rt_rq -> rt_rq) : C unit := fun c =>
  Some (tt, Cpu (base c) (f (rt c)) (rest c) (nr_all c) (nr_uninterruptible c) (nr_switches c) (def_rt_bandwidth c)
              (sysctl_sched_rt_runtime c)).

Definition set_timer (b : bool) : C unit := fun c =>
  Some (tt, Cpu (base c) (rt c) (rest c) (nr_all c) (nr_uninterruptible c) (nr_switches c)
              (Bandwidth (rt_period (def_rt_bandwidth c)) (bw_runtime (def_rt_bandwidth c)) b) (sysctl_sched_rt_runtime c)).

Definition get_rest (p : Z) : C task_rest := fun c => r ← rest c !! p; Some (r, c).

Definition put_rest (p : Z) (f : task_rest -> task_rest) : C unit := fun c =>
  r ← rest c !! p;
  Some (tt, Cpu (base c) (rt c) (<[p := f r]> (rest c)) (nr_all c) (nr_uninterruptible c) (nr_switches c)
              (def_rt_bandwidth c) (sysctl_sched_rt_runtime c)).

(** Updates of one field. *)
Definition put_active v r := RtRq v (rt_nr_running r) (rt_throttled r) (rt_time r) (rt_runtime r).
Definition put_rt_nr v r := RtRq (active r) v (rt_throttled r) (rt_time r) (rt_runtime r).
Definition put_throttled v r := RtRq (active r) (rt_nr_running r) v (rt_time r) (rt_runtime r).
Definition put_time v r := RtRq (active r) (rt_nr_running r) (rt_throttled r) v (rt_runtime r).

Definition with_rt_se v r := Rest (sig r) v (static_prio r) (normal_prio r) (rt_priority r) (sched_reset_on_fork r)
  (sched_exp r) (freezing r) (rttime r) (pi_prio r).
Definition with_exp v r := Rest (sig r) (rt_se r) (static_prio r) (normal_prio r) (rt_priority r) (sched_reset_on_fork r)
  v (freezing r) (rttime r) (pi_prio r).

(** * Constants *)

Definition SCHED_FIFO : Z := 1.
Definition SCHED_RR : Z := 2.
Definition ENQUEUE_HEAD : Z := 4.
Definition HZ : Z := 100.
Definition DEF_TIMESLICE : Z := 100 * HZ / 1000.
Definition RUNTIME_INF : Z := 18446744073709551615.
Definition RLIM_INFINITY : Z := 4294967295.

Definition rt_policy (policy : Z) : bool := (policy =? SCHED_FIFO) || (policy =? SCHED_RR).

Definition rt_prio (prio : Z) : bool := prio <? MAX_RT_PRIO.

(** include/asm-generic/bitops/sched.h *)
Definition sched_find_first_bit (b : list Z) : option Z :=
  w0 ← rd b 0;
  if negb (w0 =? 0) then Some (__ffs w0)
  else
    w1 ← rd b 1;
    if negb (w1 =? 0) then Some (__ffs w1 + 32)
    else
      w2 ← rd b 2;
      if negb (w2 =? 0) then Some (__ffs w2 + 64)
      else w3 ← rd b 3; Some (__ffs w3 + 96).

(** * Bandwidth *)

Definition rt_bandwidth_enabled : C bool := look (fun c => 0 <=? sysctl_sched_rt_runtime c).

(** The timer that __hrtimer_start_range_ns starts is active. *)
Definition start_rt_bandwidth : C unit :=
  enabled ← rt_bandwidth_enabled;
  b ← look def_rt_bandwidth;
  if negb enabled || (bw_runtime b =? RUNTIME_INF) then mret tt
  else if period_timer b then mret tt
  else set_timer true.

(** [if (rt_rq->rt_nr_running) resched_task(rq->curr);] *)
Definition sched_rt_rq_enqueue : C unit :=
  r ← look rt;
  if negb (rt_nr_running r =? 0) then c ← lift (gets rq_curr); lift (resched_task c) else mret tt.

Definition sched_rt_runtime_exceeded : C bool :=
  r ← look rt;
  if negb (rt_throttled r =? 0) then mret true
  else
    b ← look def_rt_bandwidth;
    if rt_period b <=? rt_runtime r then mret false
    else if rt_runtime r =? RUNTIME_INF then mret false
    else if rt_runtime r <? rt_time r then _ ← set_rt (put_throttled 1); mret true
    else mret false.

Definition do_sched_rt_period_timer (overrun : Z) : C bool :=
  enabled ← rt_bandwidth_enabled;
  b ← look def_rt_bandwidth;
  if negb enabled || (bw_runtime b =? RUNTIME_INF) then mret true
  else
    r ← look rt;
    if negb (rt_time r =? 0) then
      let runtime := rt_runtime r in
      _ ← set_rt (put_time (u64 (rt_time r - Z.min (rt_time r) (u64 (overrun * runtime)))));
      r ← look rt;
      let enqueue := negb (rt_throttled r =? 0) && (rt_time r <? runtime) in
      _ ← (if enqueue then set_rt (put_throttled 0) else mret tt);
      r ← look rt;
      let idle := negb (negb (rt_time r =? 0) || negb (rt_nr_running r =? 0)) in
      _ ← (if enqueue then sched_rt_rq_enqueue else mret tt);
      mret idle
    else mret (rt_nr_running r =? 0).

(** The timer callback: [overruns] are the results of hrtimer_forward up to the one that is 0. *)
Fixpoint period_loop (overruns : list Z) (idle : bool) : C bool :=
  match overruns with
  | [] => mret idle
  | o :: overruns => idle ← do_sched_rt_period_timer o; period_loop overruns idle
  end.

Definition sched_rt_period_timer (overruns : list Z) : C unit :=
  idle ← period_loop overruns false;
  set_timer (negb idle).

Definition update_curr_rt : C unit :=
  c ← lift (gets rq_curr);
  t ← lift (get_task c);
  if negb (rt_policy (policy t)) then mret tt
  else
    now ← lift (gets clock);
    let delta_exec := u64 (now - exec_start (se t)) in
    let delta_exec := if s64 delta_exec <? 0 then 0 else delta_exec in
    _ ← lift (put_ent c (fun e => with_sum (u64 (sum_exec_runtime e + delta_exec)) e));
    _ ← lift (put_ent c (with_start now));
    enabled ← rt_bandwidth_enabled;
    if negb enabled then mret tt
    else
      r ← look rt;
      if negb (rt_runtime r =? RUNTIME_INF) then
        _ ← set_rt (put_time (u64 (rt_time r + delta_exec)));
        exceeded ← sched_rt_runtime_exceeded;
        if (exceeded : bool) then lift (resched_task c) else mret tt
      else mret tt.

(** * The priority array *)

Definition rt_se_prio (p : Z) : C Z := t ← lift (get_task p); mret (prio t).

Definition on_rt_rq (p : Z) : C bool := look (fun c => bool_decide (p ∈ concat (queue (active (rt c))))).

(** The list of a priority, and another list in its place. *)
Definition get_queue (i : Z) : C (list Z) := a ← look (fun c => active (rt c)); need (rd (queue a) i).

Definition set_queue (i : Z) (l : list Z) : C unit :=
  a ← look (fun c => active (rt c));
  qs ← need (wr (queue a) i l);
  set_rt (put_active (PrioArray (bitmap a) qs)).

Definition set_bitmap (f : list Z -> option (list Z)) : C unit :=
  a ← look (fun c => active (rt c));
  bm ← need (f (bitmap a));
  set_rt (put_active (PrioArray bm (queue a))).

(** list_del of the run_list of [p]. *)
Definition unlink (p : Z) : C unit :=
  set_rt (fun r => put_active (PrioArray (bitmap (active r)) (filter (.≠ p) <$> queue (active r))) r).

(** list_add or list_add_tail. *)
Definition link_rt (p i : Z) (head : bool) : C unit :=
  l ← get_queue i;
  set_queue i (if head then p :: l else l ++ [p]).

Definition inc_rt_tasks : C unit :=
  _ ← set_rt (fun r => put_rt_nr (u32 (rt_nr_running r + 1)) r);
  start_rt_bandwidth.

Definition dec_rt_tasks : C unit := set_rt (fun r => put_rt_nr (u32 (rt_nr_running r - 1)) r).

Definition __enqueue_rt_entity (p : Z) (head : bool) : C unit :=
  i ← rt_se_prio p;
  _ ← link_rt p i head;
  _ ← set_bitmap (set_bit i);
  inc_rt_tasks.

Definition __dequeue_rt_entity (p : Z) : C unit :=
  _ ← unlink p;
  i ← rt_se_prio p;
  l ← get_queue i;
  _ ← (if bool_decide (l = []) then set_bitmap (clear_bit i) else mret tt);
  dec_rt_tasks.

Definition dequeue_rt_stack (p : Z) : C unit :=
  on ← on_rt_rq p;
  if (on : bool) then __dequeue_rt_entity p else mret tt.

Definition enqueue_rt_entity (p : Z) (head : bool) : C unit :=
  _ ← dequeue_rt_stack p;
  __enqueue_rt_entity p head.

Definition dequeue_rt_entity (p : Z) : C unit := dequeue_rt_stack p.

(** * The scheduling class *)

Definition enqueue_task_rt (p flags : Z) : C unit :=
  _ ← (if negb (Z.land flags ENQUEUE_WAKEUP =? 0)
       then put_rest p (fun r => with_rt_se (RtEntity 0 (time_slice (rt_se r))) r) else mret tt);
  enqueue_rt_entity p (negb (Z.land flags ENQUEUE_HEAD =? 0)).

Definition dequeue_task_rt (p : Z) : C unit :=
  _ ← update_curr_rt;
  dequeue_rt_entity p.

Definition requeue_rt_entity (p : Z) (head : bool) : C unit :=
  on ← on_rt_rq p;
  if (on : bool) then
    i ← rt_se_prio p;
    _ ← unlink p;
    link_rt p i head
  else mret tt.

Definition requeue_task_rt (p : Z) (head : bool) : C unit := requeue_rt_entity p head.

Definition yield_task_rt : C unit := c ← lift (gets rq_curr); requeue_task_rt c false.

Definition pick_next_rt_entity : C Z :=
  a ← look (fun c => active (rt c));
  idx ← need (sched_find_first_bit (bitmap a));
  if MAX_RT_PRIO <=? idx then need None
  else
    l ← get_queue idx;
    need (head l).

Definition _pick_next_task_rt : C Z :=
  r ← look rt;
  if rt_nr_running r =? 0 then mret 0
  else if negb (rt_throttled r =? 0) then mret 0
  else
    p ← pick_next_rt_entity;
    now ← lift (gets clock);
    _ ← lift (put_ent p (with_start now));
    mret p.

Definition pick_next_task_rt : C Z := _pick_next_task_rt.

Definition put_prev_task_rt (p : Z) : C unit :=
  _ ← update_curr_rt;
  lift (put_ent p (with_start 0)).

Definition switched_to_rt (p : Z) (running : bool) : C unit :=
  if negb running then
    t ← lift (get_task p);
    c ← lift (gets rq_curr);
    tc ← lift (get_task c);
    if prio t <? prio tc then lift (resched_task c) else mret tt
  else mret tt.

Definition prio_changed_rt (p oldprio : Z) (running : bool) : C unit :=
  t ← lift (get_task p);
  if running then
    if oldprio <? prio t then lift (resched_task p) else mret tt
  else
    c ← lift (gets rq_curr);
    tc ← lift (get_task c);
    if prio t <? prio tc then lift (resched_task c) else mret tt.

(** [DIV_ROUND_UP(min(soft, hard), USEC_PER_SEC/HZ)] on unsigned longs. *)
Definition watchdog_limit (soft hard : Z) : Z := u32 (Z.min soft hard + 10000 - 1) / 10000.

Definition watchdog (p : Z) : C unit :=
  r ← get_rest p;
  match rttime r with
  | None => mret tt
  | Some (soft, hard) =>
      if negb (soft =? RLIM_INFINITY) then
        _ ← put_rest p (fun r => with_rt_se (RtEntity (u32 (timeout (rt_se r) + 1)) (time_slice (rt_se r))) r);
        r ← get_rest p;
        if watchdog_limit soft hard <? timeout (rt_se r) then
          e ← lift (ent p);
          put_rest p (with_exp (sum_exec_runtime e))
        else mret tt
      else mret tt
  end.

(** [p->rt.run_list.prev != p->rt.run_list.next]: the list of the task has another one. *)
Definition not_alone (p : Z) : C bool :=
  look (fun c => existsb (fun l => bool_decide (p ∈ l) && (1 <? Z.of_nat (length l))) (queue (active (rt c)))).

Definition task_tick_rt (p : Z) : C unit :=
  _ ← update_curr_rt;
  _ ← watchdog p;
  t ← lift (get_task p);
  if negb (policy t =? SCHED_RR) then mret tt
  else
    _ ← put_rest p (fun r => with_rt_se (RtEntity (timeout (rt_se r)) (u32 (time_slice (rt_se r) - 1))) r);
    r ← get_rest p;
    if negb (time_slice (rt_se r) =? 0) then mret tt
    else
      _ ← put_rest p (fun r => with_rt_se (RtEntity (timeout (rt_se r)) DEF_TIMESLICE) r);
      more ← not_alone p;
      if (more : bool) then
        _ ← requeue_task_rt p false;
        lift (resched_task p)
      else mret tt.

Definition set_curr_task_rt : C unit :=
  c ← lift (gets rq_curr);
  now ← lift (gets clock);
  lift (put_ent c (with_start now)).

Definition get_rr_interval_rt (p : Z) : C Z :=
  t ← lift (get_task p);
  mret (if policy t =? SCHED_RR then DEF_TIMESLICE else 0).

(** The loop of init_rt_rq clears every bit but the delimiter, in a bitmap that is 0 at boot. *)
Fixpoint clear_bits (n : nat) (bm : list Z) : option (list Z) :=
  match n with
  | O => Some bm
  | S n => bm ← clear_bits n bm; clear_bit (Z.of_nat n) bm
  end.

Definition init_rt_rq (bm : list Z) : option rt_rq :=
  bm ← clear_bits 100 bm;
  bm ← set_bit MAX_RT_PRIO bm;
  Some (RtRq (PrioArray bm (replicate 100 [])) 0 0 0 0).
