(* ===== verification/SchedRtQueue.v ===== *)
(** The priority array of the real-time class as a list of tasks per priority: what each operation on
    it does to the lists, and that the first set bit of its bitmap is the first list with a task. *)

From S2P Require Import Prelude.
From Stdlib Require Import Lia.
From S2P Require Import Word FindBit.
From S2P Require Import Task.
From S2P Require Import Rbtree.
From S2P Require Import Sched.
From S2P Require Import SchedRt.
From stdpp Require Import list gmap functions.
Open Scope Z_scope.

(** * Programs on the processor *)

Lemma cbind {A B} (e : C A) (f : A -> C B) c x c' : e c = Some (x, c') -> (e ≫= f) c = f x c'.
Proof. intros He. unfold mbind, C_bind. by rewrite He. Qed.

Lemma lift_run {A} (e : K A) c x q : e (base c) = Some (x, q) -> lift e c = Some (x, put_base q c).
Proof. intros He. unfold lift. by rewrite He. Qed.

Lemma put_base_same c : put_base (base c) c = c.
Proof. by destruct c. Qed.

Lemma lift_read {A} (e : K A) c x : e (base c) = Some (x, base c) -> lift e c = Some (x, c).
Proof. intros He. rewrite (lift_run _ _ _ _ He). by rewrite put_base_same. Qed.

Lemma task_read c p t : all_tasks (base c) !! p = Some t -> lift (get_task p) c = Some (t, c).
Proof. intros Ht. apply lift_read. unfold get_task. by rewrite Ht. Qed.

Lemma ent_read_c c p t : all_tasks (base c) !! p = Some t -> lift (ent p) c = Some (se t, c).
Proof. intros Ht. apply lift_read. unfold ent, get_task, mbind, K_bind. by rewrite Ht. Qed.

(** * Levels *)

(** The lists of the 100 priorities, as one list. *)
Definition members (m : Z -> list Z) : list Z := concat (m <$> seqZ 0 100).

Record levels_ok (a : rt_prio_array) (m : Z -> list Z) : Prop := LevelsOk {
  lv_words : Forall is_u32 (bitmap a);
  lv_length : length (bitmap a) = 4%nat;
  lv_queue : queue a = m <$> seqZ 0 100;
  lv_bit : forall i, 0 <= i < 100 -> bit_at (bitmap a) i = true <-> m i <> [];
  lv_delim : bit_at (bitmap a) 100 = true
}.

(** Every task is in the list of its priority, once. *)
Definition by_prio (pf : Z -> Z) (m : Z -> list Z) : Prop :=
  forall i, NoDup (m i) /\ forall p, p ∈ m i -> pf p = i.

Lemma rd_levels (m : Z -> list Z) i : 0 <= i < 100 -> rd (m <$> seqZ 0 100) i = Some (m i).
Proof.
  intros Hi. unfold rd. rewrite bool_decide_eq_true_2 by lia. rewrite list_lookup_fmap.
  rewrite (proj2 (lookup_seqZ 0 100 (Z.to_nat i) i)) by lia. done.
Qed.

Lemma wr_levels (m : Z -> list Z) i l : 0 <= i < 100 -> wr (m <$> seqZ 0 100) i l = Some (<[i := l]> m <$> seqZ 0 100).
Proof.
  intros Hi. unfold wr. rewrite length_fmap, length_seqZ, bool_decide_eq_true_2 by lia. f_equal.
  apply list_eq. intros k. rewrite list_lookup_fmap. destruct (decide (k = Z.to_nat i)) as [->|Hk].
  - rewrite list_lookup_insert_eq by (rewrite length_fmap, length_seqZ; lia).
    rewrite (proj2 (lookup_seqZ 0 100 (Z.to_nat i) i)) by lia. simpl. by rewrite fn_lookup_insert.
  - rewrite list_lookup_insert_ne, list_lookup_fmap by done.
    destruct (seqZ 0 100 !! k) as [j|] eqn:Hj; [|done]. apply lookup_seqZ in Hj. simpl.
    rewrite fn_lookup_insert_ne by lia. done.
Qed.

Lemma levels_ext a m m' : (forall i, 0 <= i < 100 -> m i = m' i) -> levels_ok a m -> levels_ok a m'.
Proof.
  intros He [H1 H2 H3 H4 H5]. constructor; try done.
  - rewrite H3. apply list_fmap_ext. intros k i Hk. apply lookup_seqZ in Hk. apply He. lia.
  - intros i Hi. by rewrite H4, He.
Qed.

Lemma elem_of_concat {A} (x : A) (ls : list (list A)) : x ∈ concat ls <-> exists l, x ∈ l /\ l ∈ ls.
Proof. rewrite list_elem_of_In, in_concat. setoid_rewrite list_elem_of_In. naive_solver. Qed.

Lemma members_spec m p : p ∈ members m <-> exists i, 0 <= i < 100 /\ p ∈ m i.
Proof.
  unfold members. rewrite elem_of_concat. split.
  - intros (l & Hp & Hl). apply list_elem_of_fmap in Hl as (i & -> & Hi). apply elem_of_seqZ in Hi. exists i. split; [lia|done].
  - intros (i & Hi & Hp). exists (m i). split; [done|]. apply list_elem_of_fmap. exists i. split; [done|]. apply elem_of_seqZ. lia.
Qed.

Lemma members_nil m : members m = [] <-> forall i, 0 <= i < 100 -> m i = [].
Proof.
  split.
  - intros Hm i Hi. destruct (m i) as [|p l] eqn:E; [done|].
    assert (p ∈ members m) as Hp by (apply members_spec; exists i; rewrite E; split; [done|left]). rewrite Hm in Hp. by apply not_elem_of_nil in Hp.
  - intros H. destruct (members m) as [|p l] eqn:E; [done|].
    assert (p ∈ members m) as Hp by (rewrite E; left). apply members_spec in Hp as (i & Hi & Hp). rewrite H in Hp by done.
    by apply not_elem_of_nil in Hp.
Qed.

(** Another list for one priority changes the count by the difference. *)
Lemma concat_insert_length (m : Z -> list Z) i l js :
  NoDup js ->
  (length (concat (<[i := l]> m <$> js)) + (if bool_decide (i ∈ js) then length (m i) else 0) =
   length (concat (m <$> js)) + (if bool_decide (i ∈ js) then length l else 0))%nat.
Proof.
  induction js as [|j js IH]; intros Hn; [done|]. apply list.NoDup_cons in Hn as [Hj Hn]. specialize (IH Hn). rewrite !fmap_cons. simpl.
  rewrite !length_app. destruct (decide (i = j)) as [<-|Hij].
  - rewrite fn_lookup_insert. rewrite bool_decide_eq_false_2 in IH by done. rewrite bool_decide_eq_true_2 by left. lia.
  - rewrite fn_lookup_insert_ne by done. rewrite (bool_decide_ext (i ∈ j :: js) (i ∈ js)) by set_solver. lia.
Qed.

Lemma members_insert_length m i l :
  0 <= i < 100 -> (length (members (<[i := l]> m)) + length (m i) = length (members m) + length l)%nat.
Proof.
  intros Hi. pose proof (concat_insert_length m i l _ (NoDup_seqZ 0 100)) as H.
  rewrite !bool_decide_eq_true_2 in H by (apply elem_of_seqZ; lia). exact H.
Qed.

(** The first task of the first list that has one. *)
Lemma members_head m i : 0 <= i < 100 -> (forall j, 0 <= j < i -> m j = []) -> m i <> [] -> head (members m) = head (m i).
Proof.
  intros Hi Hlow Hne. unfold members.
  replace (seqZ 0 100) with (seqZ 0 i ++ seqZ i (100 - i)) by (symmetry; etransitivity; [|apply (seqZ_app 0 i (100 - i)); lia]; f_equal; lia).
  rewrite fmap_app, concat_app.
  assert (concat (m <$> seqZ 0 i) = []) as ->.
  { destruct (concat (m <$> seqZ 0 i)) as [|p l] eqn:E; [done|].
    assert (p ∈ concat (m <$> seqZ 0 i)) as Hp by (rewrite E; left). apply elem_of_concat in Hp as (l' & Hp & Hl).
    apply list_elem_of_fmap in Hl as (j & -> & Hj). apply elem_of_seqZ in Hj. rewrite Hlow in Hp by lia. by apply not_elem_of_nil in Hp. }
  rewrite (seqZ_cons i (100 - i)) by lia. simpl. destruct (m i); done.
Qed.

(** * The search of the first bit *)

Definition first_bit (b : list Z) (i : Z) : Prop := 0 <= i < 128 /\ bit_at b i = true /\ forall j, 0 <= j < i -> bit_at b j = false.

(** The word with the first bit. *)
Lemma first_in_word b k :
  Forall is_u32 b -> length b = 4%nat -> 0 <= k < 4 -> (b !!! Z.to_nat k) <> 0 -> (forall j, 0 <= j < k -> b !!! Z.to_nat j = 0) ->
  first_bit b (__ffs (b !!! Z.to_nat k) + 32 * k).
Proof.
  intros Hu Hl Hk Hnz Hlow. set (w := b !!! Z.to_nat k) in *.
  assert (is_u32 w) as Hw by (apply Forall_total; [done|lia]).
  destruct (ffs_first w Hw Hnz) as [(H0 & H1 & H2) H3]. split; [lia|]. split.
  - rewrite (Z.add_comm (__ffs w)), bit_at_word by lia. exact H1.
  - intros j Hj. replace j with (32 * (j / 32) + j mod 32) by lia. rewrite bit_at_word by lia.
    destruct (decide (j / 32 = k)) as [E|].
    + rewrite E. apply H2. pose proof (Z.div_mod j 32). lia.
    + rewrite Hlow by lia. apply Z.bits_0.
Qed.

Lemma sched_find_first_spec b :
  Forall is_u32 b -> length b = 4%nat -> bit_at b 100 = true -> exists i, sched_find_first_bit b = Some i /\ first_bit b i.
Proof.
  intros Hu Hl Hd. destruct b as [|w0 [|w1 [|w2 [|w3 [|]]]]]; try discriminate.
  pose proof (fun k => first_in_word [w0; w1; w2; w3] k Hu Hl) as H. unfold sched_find_first_bit.
  set (b := [w0; w1; w2; w3]) in *. change (rd b 0) with (Some w0). change (rd b 1) with (Some w1).
  change (rd b 2) with (Some w2). change (rd b 3) with (Some w3). cbn [mbind option_bind].
  destruct (Z.eqb_spec w0 0) as [->|H0]; cbn [negb]; [|eexists; split; [done|]; specialize (H 0); rewrite Z.add_0_r in H; apply H; [lia|done|lia]].
  destruct (Z.eqb_spec w1 0) as [->|H1]; cbn [negb]; [|eexists; split; [done|]; apply (H 1); [lia|done|]].
  2: { intros j Hj. by replace j with 0 by lia. }
  destruct (Z.eqb_spec w2 0) as [->|H2]; cbn [negb]; [|eexists; split; [done|]; apply (H 2); [lia|done|]].
  2: { intros j Hj. assert (j = 0 \/ j = 1) as [->| ->] by lia; done. }
  eexists; split; [done|]. apply (H 3); [lia| |].
  - intros E. change (w3 = 0) in E. subst w3. discriminate.
  - intros j Hj. assert (j = 0 \/ j = 1 \/ j = 2) as [->|[->| ->]] by lia; done.
Qed.

(** The first bit is the first priority with a task, or the delimiter when there is none. *)
Lemma first_level a m :
  levels_ok a m -> exists i, sched_find_first_bit (bitmap a) = Some i /\
    ((members m = [] /\ i = 100) \/ (0 <= i < 100 /\ m i <> [] /\ head (members m) = head (m i) /\ forall j, 0 <= j < i -> m j = [])).
Proof.
  intros [H1 H2 H3 H4 H5]. destruct (sched_find_first_spec _ H1 H2 H5) as (i & Hi & Hr & Hb & Hlow). exists i. split; [done|].
  assert (i <= 100) as Hle by (destruct (Z_le_gt_dec i 100); [done|]; rewrite Hlow in H5 by lia; done).
  assert (forall j, 0 <= j < i -> j < 100 -> m j = []) as Hnil.
  { intros j Hj Hj'. destruct (decide (m j = [])) as [|Hne]; [done|]. apply (H4 j ltac:(lia)) in Hne. rewrite Hlow in Hne by lia. done. }
  destruct (decide (i = 100)) as [->|]; [left|right].
  - split; [|done]. apply members_nil. intros j Hj. apply Hnil; lia.
  - assert (m i <> []) as Hne by (apply H4; [lia|done]). split_and!; [lia|lia|done| |intros j Hj; apply Hnil; lia].
    apply members_head; [lia| |done]. intros j Hj. apply Hnil; lia.
Qed.

(** * Operations on the lists *)

Definition push (head : bool) (p i : Z) (m : Z -> list Z) : Z -> list Z := <[i := if head then p :: m i else m i ++ [p]]> m.

Definition without (p : Z) (m : Z -> list Z) : Z -> list Z := fun i => filter (.≠ p) (m i).

Lemma push_at head p i m : push head p i m i = if head then p :: m i else m i ++ [p].
Proof. apply fn_lookup_insert. Qed.

Lemma push_other head p i m j : j <> i -> push head p i m j = m j.
Proof. intros Hj. by apply fn_lookup_insert_ne. Qed.

Lemma nodup_put (head : bool) (p : Z) l : (p ∉ l) -> NoDup l -> NoDup (if head then p :: l else l ++ [p]).
Proof.
  intros Hp Hl. destruct head; [by apply list.NoDup_cons|]. apply list.NoDup_app. split; [done|]. split; [set_solver|apply NoDup_singleton].
Qed.

Lemma push_elem head p i m j r : r ∈ push head p i m j <-> (r = p /\ j = i) \/ r ∈ m j.
Proof.
  destruct (decide (j = i)) as [->|]; [rewrite push_at|rewrite push_other by done; naive_solver].
  destruct head; rewrite ?elem_of_cons, ?elem_of_app, ?elem_of_cons, ?elem_of_nil; naive_solver.
Qed.

Lemma without_elem p m j r : r ∈ without p m j <-> r <> p /\ r ∈ m j.
Proof. unfold without. by rewrite list_elem_of_filter. Qed.

Lemma without_absent p m j : p ∉ m j -> without p m j = m j.
Proof.
  intros Hp. unfold without. induction (m j) as [|r l IH]; [done|]. apply not_elem_of_cons in Hp as [Hr Hl].
  rewrite filter_cons_True by done. by rewrite IH.
Qed.

Lemma filter_out_length p (l : list Z) : NoDup l -> p ∈ l -> S (length (filter (.≠ p) l)) = length l.
Proof.
  induction l as [|r l IH]; [by intros _ ?%not_elem_of_nil|]. intros [Hr Hn]%list.NoDup_cons Hp. destruct (decide (r = p)) as [->|Hne].
  - rewrite filter_cons_False by tauto. simpl. f_equal. f_equal. apply (without_absent p (fun _ => l) 0). done.
  - rewrite filter_cons_True by done. simpl. f_equal. apply IH; [done|]. set_solver.
Qed.

Lemma push_length head p i m : 0 <= i < 100 -> length (members (push head p i m)) = S (length (members m)).
Proof.
  intros Hi. pose proof (members_insert_length m i (if head then p :: m i else m i ++ [p]) Hi) as H. unfold push.
  assert (length (if head then p :: m i else m i ++ [p]) = S (length (m i))) as E by (destruct head; [done|rewrite length_app; simpl; lia]). lia.
Qed.

(** * The state *)

Record rt_ok (c : cpu) (m : Z -> list Z) : Prop := RtOk {
  rt_levels : levels_ok (active (rt c)) m;
  rt_nodup : forall i, NoDup (m i);
  rt_at : forall i p, p ∈ m i -> 0 <= i < 100 /\ exists t, all_tasks (base c) !! p = Some t /\ prio t = i;
  rt_count : rt_nr_running (rt c) = Z.of_nat (length (members m));
  rt_size : Z.of_nat (size (all_tasks (base c))) < 4294967296
}.

(** What the operations on the array leave alone. *)
Definition bystanders (c : cpu) := (base c, rest c, nr_all c, nr_uninterruptible c, nr_switches c, sysctl_sched_rt_runtime c,
  rt_throttled (rt c), rt_time (rt c), rt_runtime (rt c), rt_period (def_rt_bandwidth c), bw_runtime (def_rt_bandwidth c)).

Lemma members_nodup c m : rt_ok c m -> NoDup (members m).
Proof.
  intros [_ Hn Ha _ _]. unfold members. pose proof (NoDup_seqZ 0 100) as Hs. induction (seqZ 0 100) as [|i js IH]; [constructor|].
  apply list.NoDup_cons in Hs as [Hi Hs]. rewrite fmap_cons. simpl. apply list.NoDup_app. split; [apply Hn|]. split; [|by apply IH].
  intros p Hp Hc. apply elem_of_concat in Hc as (l & Hl & Hj). apply list_elem_of_fmap in Hj as (j & -> & Hj).
  destruct (Ha _ _ Hp) as (_ & t & Ht & <-), (Ha _ _ Hl) as (_ & t' & Ht' & <-). rewrite Ht in Ht'. by injection Ht' as <-.
Qed.

Lemma members_bound c m : rt_ok c m -> (length (members m) <= size (all_tasks (base c)))%nat.
Proof.
  intros Hok. rewrite <- size_dom. rewrite <- (size_list_to_set (C := gset Z) _ (members_nodup _ _ Hok)). apply subseteq_size.
  intros p Hp. apply elem_of_list_to_set, members_spec in Hp as (i & _ & Hp). destruct (rt_at _ _ Hok _ _ Hp) as (_ & t & Ht & _).
  by apply elem_of_dom_2 in Ht.
Qed.

(** A task that is not queued leaves room for it. *)
Lemma members_room c m p t : rt_ok c m -> all_tasks (base c) !! p = Some t -> (p ∉ members m) -> (S (length (members m)) <= size (all_tasks (base c)))%nat.
Proof.
  intros Hok Ht Hp. rewrite <- size_dom. change (S (length (members m))) with (length (p :: members m)).
  rewrite <- (size_list_to_set (C := gset Z) (p :: members m)) by (apply list.NoDup_cons; split; [done|by eapply members_nodup]).
  apply subseteq_size. intros r Hr. apply elem_of_list_to_set, elem_of_cons in Hr as [->|Hr]; [by apply elem_of_dom_2 in Ht|].
  apply members_spec in Hr as (i & _ & Hr). destruct (rt_at _ _ Hok _ _ Hr) as (_ & t' & Ht' & _). by apply elem_of_dom_2 in Ht'.
Qed.

Definition with_rt (r : rt_rq) (c : cpu) : cpu :=
  Cpu (base c) r (rest c) (nr_all c) (nr_uninterruptible c) (nr_switches c) (def_rt_bandwidth c) (sysctl_sched_rt_runtime c).

Definition bandwidth_on (c : cpu) : bool := (0 <=? sysctl_sched_rt_runtime c) && negb (bw_runtime (def_rt_bandwidth c) =? RUNTIME_INF).

Definition timer_on (c : cpu) : bool := period_timer (def_rt_bandwidth c).

Lemma start_run c :
  exists c', start_rt_bandwidth c = Some (tt, c') /\ rt c' = rt c /\ bystanders c' = bystanders c /\ timer_on c' = timer_on c || bandwidth_on c.
Proof.
  unfold start_rt_bandwidth, rt_bandwidth_enabled, look, mbind, C_bind, timer_on, bandwidth_on. destruct (0 <=? _); cbn [negb orb andb].
  - destruct (_ =? RUNTIME_INF); cbn [negb]; [exists c; rewrite orb_false_r; done|].
    destruct (period_timer _) eqn:E; [exists c; rewrite E; done|]. by eexists.
  - exists c. rewrite orb_false_r. done.
Qed.

Lemma get_queue_run c m i : queue (active (rt c)) = m <$> seqZ 0 100 -> 0 <= i < 100 -> get_queue i c = Some (m i, c).
Proof. intros Hq Hi. unfold get_queue, look, need, mbind, C_bind. rewrite Hq, rd_levels by done. done. Qed.

Lemma link_run c m p i head :
  queue (active (rt c)) = m <$> seqZ 0 100 -> 0 <= i < 100 ->
  link_rt p i head c = Some (tt, with_rt (put_active (PrioArray (bitmap (active (rt c))) (push head p i m <$> seqZ 0 100)) (rt c)) c).
Proof.
  intros Hq Hi. unfold link_rt. rewrite (cbind _ _ _ _ _ (get_queue_run _ _ _ Hq Hi)). unfold set_queue, look, need, mbind, C_bind.
  rewrite Hq, wr_levels by done. done.
Qed.

Lemma unlink_run c m p :
  queue (active (rt c)) = m <$> seqZ 0 100 ->
  unlink p c = Some (tt, with_rt (put_active (PrioArray (bitmap (active (rt c))) (without p m <$> seqZ 0 100)) (rt c)) c).
Proof. intros Hq. unfold unlink, set_rt. rewrite Hq, <- list_fmap_compose. done. Qed.

Lemma prio_run c p t : all_tasks (base c) !! p = Some t -> rt_se_prio p c = Some (prio t, c).
Proof. intros Ht. unfold rt_se_prio. by rewrite (cbind _ _ _ _ _ (task_read _ _ _ Ht)). Qed.

Lemma on_rt_run c m p : rt_ok c m -> on_rt_rq p c = Some (bool_decide (p ∈ members m), c).
Proof. intros [[_ _ Hq _ _] _ _ _ _]. unfold on_rt_rq, look, members. by rewrite Hq. Qed.

(** A queued task is in the list of its priority only. *)
Lemma members_level c m p t : rt_ok c m -> all_tasks (base c) !! p = Some t -> forall i, p ∈ m i -> i = prio t.
Proof. intros Hok Ht i Hi. destruct (rt_at _ _ Hok _ _ Hi) as (_ & t' & Ht' & E). congruence. Qed.

(** The bit of a priority that gets a task, and that of one that loses its last one. *)
Lemma levels_push a m head p i bm :
  levels_ok a m -> 0 <= i < 100 -> set_bit i (bitmap a) = Some bm ->
  levels_ok (PrioArray bm (push head p i m <$> seqZ 0 100)) (push head p i m).
Proof.
  intros [H1 H2 H3 H4 H5] Hi Hs. destruct (set_bit_spec i (bitmap a) H1 ltac:(lia)) as (bm' & E & G1 & G2 & G3).
  rewrite Hs in E. injection E as <-. constructor; cbn; [done|lia|done| |].
  - intros j Hj. rewrite G3 by lia. destruct (decide (j = i)) as [->|Hne].
    + rewrite bool_decide_eq_true_2, push_at by done. split; [|done]. intros _. by destruct head, (m i).
    + rewrite bool_decide_eq_false_2, push_other by done. by apply H4.
  - rewrite G3, H5 by lia. apply orb_true_r.
Qed.

Lemma levels_without a m p i bm :
  levels_ok a m -> 0 <= i < 100 -> (forall j, p ∈ m j -> j = i) -> (p ∈ m i) ->
  (if bool_decide (without p m i = []) then clear_bit i (bitmap a) = Some bm else bm = bitmap a) ->
  levels_ok (PrioArray bm (without p m <$> seqZ 0 100)) (without p m).
Proof.
  intros [H1 H2 H3 H4 H5] Hi Honly Hp Hs.
  assert (forall j, 0 <= j -> bit_at bm j = if bool_decide (without p m i = [] /\ j = i) then false else bit_at (bitmap a) j) as Hb.
  { destruct (decide (without p m i = [])) as [Hn|Hn].
    - rewrite bool_decide_eq_true_2 in Hs by done. destruct (clear_bit_spec i (bitmap a) H1 ltac:(lia)) as (bm' & E & G1 & G2 & G3).
      rewrite Hs in E. injection E as <-. intros j Hj. rewrite G3 by done. destruct (decide (j = i)).
      + by rewrite !bool_decide_eq_true_2.
      + by rewrite !bool_decide_eq_false_2 by tauto.
    - rewrite bool_decide_eq_false_2 in Hs by done. subst bm. intros j Hj. by rewrite bool_decide_eq_false_2 by tauto. }
  assert (Forall is_u32 bm /\ length bm = 4%nat) as [Hu Hl].
  { case_bool_decide; [|by subst]. destruct (clear_bit_spec i (bitmap a) H1 ltac:(lia)) as (bm' & E & G1 & G2 & G3).
    rewrite Hs in E. injection E as <-. split; [done|lia]. }
  constructor; cbn; [done..| |].
  - intros j Hj. rewrite Hb by lia. destruct (decide (j = i)) as [->|Hne].
    + rewrite (bool_decide_ext _ (without p m i = [])) by tauto. case_bool_decide; [split; done|].
      split; [done|]. intros _. apply H4; [done|]. intros E. rewrite E in Hp. by apply not_elem_of_nil in Hp.
    + rewrite bool_decide_eq_false_2 by tauto. rewrite without_absent by (intros Hc; apply Hne; by apply Honly). by apply H4.
  - rewrite Hb by lia. rewrite bool_decide_eq_false_2 by lia. done.
Qed.

Lemma members_ext m m' : (forall i, m i = m' i) -> members m = members m'.
Proof. intros He. unfold members. f_equal. apply list_fmap_ext. intros k i _. apply He. Qed.

Lemma rt_ok_ext c m m' : (forall i, m i = m' i) -> rt_ok c m -> rt_ok c m'.
Proof.
  intros He [H1 H2 H3 H4 H5]. constructor; try done.
  - eapply levels_ext; [|done]. intros i _. apply He.
  - intros i. rewrite <- He. apply H2.
  - intros i p. rewrite <- He. apply H3.
  - rewrite H4. by rewrite (members_ext _ _ He).
Qed.

Lemma without_members_length m p i :
  0 <= i < 100 -> NoDup (m i) -> (p ∈ m i) -> (forall j, p ∈ m j -> j = i) -> S (length (members (without p m))) = length (members m).
Proof.
  intros Hi Hn Hp Honly. rewrite (members_ext (without p m) (<[i := filter (.≠ p) (m i)]> m)).
  - pose proof (members_insert_length m i (filter (.≠ p) (m i)) Hi). pose proof (filter_out_length p (m i) Hn Hp). lia.
  - intros j. destruct (decide (j = i)) as [->|Hne]; [by rewrite fn_lookup_insert|].
    rewrite fn_lookup_insert_ne by done. apply without_absent. intros Hc. apply Hne. by apply Honly.
Qed.

Lemma bystanders_base c c' : bystanders c' = bystanders c -> base c' = base c.
Proof. unfold bystanders. by intros [= -> _]. Qed.

Lemma bystanders_bandwidth c c' : bystanders c' = bystanders c -> bandwidth_on c' = bandwidth_on c.
Proof. unfold bystanders, bandwidth_on. by intros [= _ _ _ _ _ -> _ _ _ _ ->]. Qed.

Lemma rt_enqueue_run c m p t head :
  rt_ok c m -> all_tasks (base c) !! p = Some t -> 0 <= prio t < 100 -> (p ∉ members m) ->
  exists c', __enqueue_rt_entity p head c = Some (tt, c') /\ rt_ok c' (push head p (prio t) m) /\ bystanders c' = bystanders c /\
    timer_on c' = timer_on c || bandwidth_on c.
Proof.
  intros Hok Ht Hi Hp. pose proof Hok as [[H1 H2 Hq H4 H5] Hn Ha Hc Hs]. unfold __enqueue_rt_entity.
  rewrite (cbind _ _ _ _ _ (prio_run _ _ _ Ht)), (cbind _ _ _ _ _ (link_run _ _ p _ head Hq Hi)).
  destruct (set_bit_spec (prio t) (bitmap (active (rt c))) H1 ltac:(lia)) as (bm & Eb & _).
  unfold set_bitmap, look, need, set_rt, inc_rt_tasks, mbind, C_bind. cbn. rewrite Eb.
  pose proof (members_room _ _ _ _ Hok Ht Hp) as Hroom.
  cbn. rewrite Hc, u32_small by (unfold is_u32; lia).
  edestruct start_run as (c' & E & R1 & R2 & R3). rewrite E. exists c'. split; [done|]. split; [|split; [exact R2|exact R3]].
  pose proof (bystanders_base _ _ R2) as Hb. cbn in Hb. constructor; rewrite ?R1, ?Hb; cbn; try done.
  - eapply levels_push; [by destruct Hok|done|done].
  - intros j. destruct (decide (j = prio t)) as [->|]; [rewrite push_at|by rewrite push_other].
    assert (p ∉ m (prio t)) by (intros Hc'; apply Hp, members_spec; by exists (prio t)).
    by apply nodup_put.
  - intros j r [[-> ->]|Hr]%push_elem; [|by apply Ha]. split; [done|]. by exists t.
  - rewrite push_length by done. lia.
Qed.

Lemma rt_dequeue_run c m p :
  rt_ok c m -> (p ∈ members m) ->
  exists c', __dequeue_rt_entity p c = Some (tt, c') /\ rt_ok c' (without p m) /\ bystanders c' = bystanders c /\ timer_on c' = timer_on c.
Proof.
  intros Hok Hp. pose proof Hok as [Hl Hn Ha Hc Hs]. pose proof Hl as [H1 H2 Hq H4 H5].
  apply members_spec in Hp as (i & Hi & Hp). destruct (Ha _ _ Hp) as (_ & t & Ht & Et). unfold __dequeue_rt_entity.
  rewrite (cbind _ _ _ _ _ (unlink_run _ _ p Hq)). set (c1 := with_rt _ c).
  assert (all_tasks (base c1) !! p = Some t) as Ht1 by done. rewrite (cbind _ _ _ _ _ (prio_run _ _ _ Ht1)), Et.
  rewrite (cbind _ _ _ _ _ (get_queue_run c1 (without p m) i eq_refl Hi)).
  assert (exists bm, (if bool_decide (without p m i = []) then clear_bit i (bitmap (active (rt c))) = Some bm else bm = bitmap (active (rt c))) /\
    (if bool_decide (without p m i = []) then set_bitmap (clear_bit i) else mret tt) c1 =
    Some (tt, with_rt (put_active (PrioArray bm (without p m <$> seqZ 0 100)) (rt c)) c)) as (bm & Hbm & Ebm).
  { destruct (clear_bit_spec i (bitmap (active (rt c))) H1 ltac:(lia)) as (bm & E & _). case_bool_decide; [exists bm|by eexists].
    split; [done|]. unfold set_bitmap, look, need, set_rt, mbind, C_bind. cbn. by rewrite E. }
  rewrite (cbind _ _ _ _ _ Ebm). unfold dec_rt_tasks, set_rt. cbn. rewrite Hc.
  assert (forall j, p ∈ m j -> j = i) as Honly by (intros j Hj; rewrite <- Et; by eapply members_level).
  pose proof (without_members_length m p i Hi (Hn i) Hp Honly) as Hlen. pose proof (members_bound _ _ Hok).
  rewrite u32_small by (unfold is_u32; lia). eexists. split; [done|]. split; [|done].
  constructor; cbn; try done.
  - eapply levels_without; eauto.
  - intros j. apply list.NoDup_filter, Hn.
  - intros j r [_ Hr]%without_elem. by apply Ha.
  - lia.
Qed.

Lemma without_nobody m p : (p ∉ members m) -> (forall i r, r ∈ m i -> 0 <= i < 100) -> forall i, without p m i = m i.
Proof. intros Hp Hin i. apply without_absent. intros Hc. apply Hp, members_spec. exists i. split; [by eapply Hin|done]. Qed.

Lemma without_not_member m p : p ∉ members (without p m).
Proof. intros (i & _ & Hp)%members_spec. apply without_elem in Hp. naive_solver. Qed.

Lemma dequeue_entity_run c m p :
  rt_ok c m ->
  exists c', dequeue_rt_entity p c = Some (tt, c') /\ rt_ok c' (without p m) /\ bystanders c' = bystanders c /\ timer_on c' = timer_on c.
Proof.
  intros Hok. unfold dequeue_rt_entity, dequeue_rt_stack. rewrite (cbind _ _ _ _ _ (on_rt_run _ _ p Hok)).
  case_bool_decide as Hp; [by apply rt_dequeue_run|]. exists c. split_and!; try done. eapply rt_ok_ext; [|exact Hok].
  intros i. symmetry. apply without_nobody; [done|]. intros j r Hr. by destruct (rt_at _ _ Hok _ _ Hr).
Qed.

Lemma enqueue_entity_run c m p t head :
  rt_ok c m -> all_tasks (base c) !! p = Some t -> 0 <= prio t < 100 ->
  exists c', enqueue_rt_entity p head c = Some (tt, c') /\ rt_ok c' (push head p (prio t) (without p m)) /\ bystanders c' = bystanders c /\
    timer_on c' = timer_on c || bandwidth_on c.
Proof.
  intros Hok Ht Hi. unfold enqueue_rt_entity. destruct (dequeue_entity_run c m p Hok) as (c1 & E1 & R1 & B1 & T1).
  unfold dequeue_rt_entity in E1. rewrite (cbind _ _ _ _ _ E1).
  destruct (rt_enqueue_run c1 (without p m) p t head) as (c2 & E2 & R2 & B2 & T2); try done.
  - by rewrite (bystanders_base _ _ B1).
  - apply without_not_member.
  - exists c2. split; [done|]. split; [done|]. split; [congruence|]. by rewrite T2, T1, (bystanders_bandwidth _ _ B1).
Qed.

(** The order of the tasks of one priority changes; whether there are any does not. *)
Lemma requeue_run c m p head :
  rt_ok c m -> exists c', requeue_rt_entity p head c = Some (tt, c') /\
    rt_ok c' (match all_tasks (base c) !! p with
              | Some t => if bool_decide (p ∈ members m) then push head p (prio t) (without p m) else m
              | None => m end) /\ bystanders c' = bystanders c /\ timer_on c' = timer_on c.
Proof.
  intros Hok. unfold requeue_rt_entity. rewrite (cbind _ _ _ _ _ (on_rt_run _ _ p Hok)).
  case_bool_decide as Hp; [|exists c; split_and!; try done; by destruct (_ !! p)].
  pose proof Hok as [Hl Hn Ha Hc Hs]. pose proof Hl as [H1 H2 Hq H4 H5].
  apply members_spec in Hp as (i & Hi & Hp). destruct (Ha _ _ Hp) as (_ & t & Ht & Et). rewrite Ht.
  rewrite (cbind _ _ _ _ _ (prio_run _ _ _ Ht)), Et, (cbind _ _ _ _ _ (unlink_run _ _ p Hq)).
  rewrite (link_run _ (without p m)) by done. eexists. split; [done|]. split; [|done].
  assert (forall j, p ∈ m j -> j = i) as Honly by (intros j Hj; rewrite <- Et; by eapply members_level).
  constructor; cbn; try done.
  - constructor; cbn; try done. intros j Hj. rewrite H4 by done. destruct (decide (j = i)) as [->|Hne].
    + rewrite push_at. split; intros _; [by destruct head, (without p m i)|]. intros E. rewrite E in Hp. by apply not_elem_of_nil in Hp.
    + rewrite push_other, without_absent by (try done; intros Hc'; apply Hne; by apply Honly). done.
  - intros j. destruct (decide (j = i)) as [->|]; [rewrite push_at|rewrite push_other by done; apply list.NoDup_filter, Hn].
    assert (p ∉ without p m i) by (intros [Hc' _]%without_elem; done). assert (NoDup (without p m i)) by apply list.NoDup_filter, Hn.
    by apply nodup_put.
  - intros j r [[-> ->]|[_ Hr]%without_elem]%push_elem; [|by apply Ha]. split; [done|]. by exists t.
  - rewrite push_length, without_members_length with (i := i) by done. done.
Qed.

(** The first task of the highest priority. *)
Lemma pick_entity_run c m p l : rt_ok c m -> members m = p :: l -> pick_next_rt_entity c = Some (p, c).
Proof.
  intros Hok Hm. pose proof Hok as [Hl Hn Ha Hc Hs]. destruct (first_level _ _ Hl) as (i & Ei & [[Hnil _]|(Hi & Hne & Hh & _)]); [congruence|].
  unfold pick_next_rt_entity, look, need, mbind, C_bind. rewrite Ei. unfold MAX_RT_PRIO. destruct (Z.leb_spec 100 i); [lia|].
  rewrite (get_queue_run _ m i) by (try done; by destruct Hl). rewrite <- Hh, Hm. done.
Qed.

Lemma clear_bits_run n b :
  Forall is_u32 b -> length b = 4%nat -> (n <= 100)%nat ->
  exists b', clear_bits n b = Some b' /\ Forall is_u32 b' /\ length b' = 4%nat /\ forall i, 0 <= i < Z.of_nat n -> bit_at b' i = false.
Proof.
  intros Hu Hl. induction n as [|n IH]; intros Hn; [exists b; split_and!; try done; lia|].
  destruct (IH ltac:(lia)) as (b1 & E1 & U1 & L1 & Z1). cbn [clear_bits]. rewrite E1. cbn [mbind option_bind].
  destruct (clear_bit_spec (Z.of_nat n) b1 U1 ltac:(lia)) as (b2 & E2 & L2 & U2 & Z2). exists b2. split_and!; [done..|lia|].
  intros i Hi. rewrite Z2 by lia. case_bool_decide; [done|]. apply Z1. lia.
Qed.

Lemma init_run b :
  Forall is_u32 b -> length b = 4%nat ->
  exists r, init_rt_rq b = Some r /\ levels_ok (active r) (fun _ => []) /\ rt_nr_running r = 0 /\ rt_throttled r = 0 /\ rt_time r = 0 /\ rt_runtime r = 0.
Proof.
  intros Hu Hl. unfold init_rt_rq. destruct (clear_bits_run 100 b Hu Hl) as (b1 & -> & U1 & L1 & Z1); [lia|]. cbn [mbind option_bind].
  unfold MAX_RT_PRIO. destruct (set_bit_spec 100 b1 U1 ltac:(lia)) as (b2 & -> & L2 & U2 & Z2). cbn [mbind option_bind].
  eexists. split; [done|]. split; [|done]. constructor; cbn [active bitmap queue]; [done|lia|by vm_compute| |].
  - intros i Hi. rewrite Z2 by lia. rewrite bool_decide_eq_false_2 by lia. rewrite Z1 by lia. split; done.
  - rewrite Z2 by lia. by rewrite bool_decide_eq_true_2.
Qed.

Lemma push_members head p i m r : 0 <= i < 100 -> r ∈ members (push head p i (without p m)) <-> r = p \/ (r <> p /\ r ∈ members m).
Proof.
  intros Hi. rewrite !members_spec. setoid_rewrite push_elem. setoid_rewrite without_elem. split.
  - intros (j & Hj & [[-> _]|[Hne Hr]]); [by left|right]. split; [done|]. by exists j.
  - intros [->|(Hne & j & Hj & Hr)]; [exists i|exists j]; auto.
Qed.

Lemma without_members p m r : r ∈ members (without p m) <-> r <> p /\ r ∈ members m.
Proof. rewrite !members_spec. setoid_rewrite without_elem. naive_solver. Qed.

Lemma rt_ok_same c c' m : rt c' = rt c -> base c' = base c -> rt_ok c m -> rt_ok c' m.
Proof. intros Hr Hb [R1 R2 R3 R4 R5]. constructor; rewrite ?Hr, ?Hb; done. Qed.

(** The first task of the highest priority has the least number. *)
Lemma head_least c m p t r tr :
  rt_ok c m -> list.head (members m) = Some p -> all_tasks (base c) !! p = Some t -> (r ∈ members m) -> all_tasks (base c) !! r = Some tr -> prio t <= prio tr.
Proof.
  intros Hok Hh Ht Hr Htr. destruct (first_level _ _ (rt_levels _ _ Hok)) as (i & _ & [[Hn _]|(Hi & Hne & E & Hlow)]); [rewrite Hn in Hh; done|].
  apply members_spec in Hr as (j & Hj & Hr). pose proof (members_level _ _ _ _ Hok Htr _ Hr) as ->.
  assert (p ∈ m i) as Hp by (rewrite Hh in E; destruct (m i); [done|]; injection E as ->; left). rewrite <- (members_level _ _ _ _ Hok Ht _ Hp).
  destruct (Z_le_gt_dec i (prio tr)); [done|]. exfalso. rewrite Hlow in Hr by lia. by apply not_elem_of_nil in Hr.
Qed.
