(* ===== verification/SchedRtSpec.v ===== *)
(** What the real-time class promises: its array of 100 lists with a bitmap is one queue in the order
    of the priorities, first come first served within a priority; and its tasks are throttled when
    they have used up their bandwidth, until the period timer has paid it back. *)

From S2P Require Import Prelude.
From stdpp Require Import list gmap functions.
From Stdlib Require Import Lia.
From S2P Require Import Word FindBit.
From S2P Require Import Task.
From S2P Require Import Rbtree.
From S2P Require Import Sched.
From S2P Require Import SchedRt.
From S2P Require Import SchedRtQueue.
Open Scope Z_scope.

(** * The queue as one list *)

(** Behind the tasks of the same priority, or before them. *)
Fixpoint put_behind (pf : Z -> Z) (p : Z) (l : list Z) : list Z :=
  match l with
  | [] => [p]
  | x :: l' => if pf x <=? pf p then x :: put_behind pf p l' else p :: l
  end.

Fixpoint put_before (pf : Z -> Z) (p : Z) (l : list Z) : list Z :=
  match l with
  | [] => [p]
  | x :: l' => if pf x <? pf p then x :: put_before pf p l' else p :: l
  end.

Definition put_in (head : bool) (pf : Z -> Z) (p : Z) (l : list Z) : list Z := if head then put_before pf p l else put_behind pf p l.

Inductive rt_op : Type := RtEnqueue (p : Z) (head : bool) | RtDequeue (p : Z) | RtRequeue (p : Z) (head : bool) | RtPick.

(** What each operation does to the queue, and what it returns. *)
Definition rt_spec (pf : Z -> Z) (o : rt_op) (l : list Z) : Z * list Z :=
  match o with
  | RtEnqueue p head => (0, put_in head pf p (filter (.≠ p) l))
  | RtDequeue p => (0, filter (.≠ p) l)
  | RtRequeue p head => (0, if bool_decide (p ∈ l) then put_in head pf p (filter (.≠ p) l) else l)
  | RtPick => (default 0 (head l), l)
  end.

Definition rt_exec (o : rt_op) : C Z :=
  match o with
  | RtEnqueue p head => _ ← enqueue_rt_entity p head; mret 0
  | RtDequeue p => _ ← dequeue_rt_entity p; mret 0
  | RtRequeue p head => _ ← requeue_rt_entity p head; mret 0
  | RtPick => r ← look rt; if rt_nr_running r =? 0 then mret 0 else pick_next_rt_entity
  end.

Fixpoint rt_specs (pf : Z -> Z) (os : list rt_op) (l : list Z) : list Z * list Z :=
  match os with
  | [] => ([], l)
  | o :: os => let '(v, l) := rt_spec pf o l in let '(vs, l) := rt_specs pf os l in (v :: vs, l)
  end.

Fixpoint rt_execs (os : list rt_op) : C (list Z) :=
  match os with
  | [] => mret []
  | o :: os => v ← rt_exec o; vs ← rt_execs os; mret (v :: vs)
  end.

(** The priority of a task of the processor. *)
Definition prio_of (c : cpu) (p : Z) : Z := match all_tasks (base c) !! p with Some t => prio t | None => 0 end.

Definition rt_valid (c : cpu) (o : rt_op) : Prop :=
  match o with
  | RtEnqueue p _ => is_Some (all_tasks (base c) !! p) /\ 0 <= prio_of c p < 100
  | RtDequeue _ | RtRequeue _ _ | RtPick => True
  end.

(** * The lists one after the other *)

Lemma filter_concat (p : Z) (ls : list (list Z)) : filter (.≠ p) (concat ls) = concat (filter (.≠ p) <$> ls).
Proof. induction ls as [|l ls IH]; [done|]. cbn. by rewrite list.filter_app, IH. Qed.

Lemma members_without p m : members (without p m) = filter (.≠ p) (members m).
Proof. unfold members. rewrite filter_concat, <- list_fmap_compose. done. Qed.

Lemma put_behind_split pf p a b :
  (forall x, x ∈ a -> pf x <= pf p) -> (forall x, x ∈ b -> pf p < pf x) -> put_behind pf p (a ++ b) = a ++ p :: b.
Proof.
  intros Ha Hb. induction a as [|x a IH]; cbn.
  - destruct b as [|y b]; [done|]. cbn. specialize (Hb y ltac:(left)). by destruct (Z.leb_spec (pf y) (pf p)); [lia|].
  - specialize (Ha x ltac:(left)) as Hx. destruct (Z.leb_spec (pf x) (pf p)); [|lia]. f_equal. apply IH. intros y Hy. apply Ha. by right.
Qed.

Lemma put_before_split pf p a b :
  (forall x, x ∈ a -> pf x < pf p) -> (forall x, x ∈ b -> pf p <= pf x) -> put_before pf p (a ++ b) = a ++ p :: b.
Proof.
  intros Ha Hb. induction a as [|x a IH]; cbn.
  - destruct b as [|y b]; [done|]. cbn. specialize (Hb y ltac:(left)). by destruct (Z.ltb_spec (pf y) (pf p)); [lia|].
  - specialize (Ha x ltac:(left)) as Hx. destruct (Z.ltb_spec (pf x) (pf p)); [|lia]. f_equal. apply IH. intros y Hy. apply Ha. by right.
Qed.

Lemma members_split m i : 0 <= i < 100 -> members m = concat (m <$> seqZ 0 i) ++ m i ++ concat (m <$> seqZ (i + 1) (99 - i)).
Proof.
  intros Hi. unfold members.
  replace (seqZ 0 100) with (seqZ 0 i ++ i :: seqZ (i + 1) (99 - i)); [by rewrite fmap_app, fmap_cons, concat_app|].
  assert (seqZ i (100 - i) = i :: seqZ (i + 1) (99 - i)) as <- by (rewrite seqZ_cons by lia; f_equal; unfold Z.succ, Z.pred; f_equal; lia).
  symmetry. etransitivity; [|apply (seqZ_app 0 i (100 - i)); lia]. f_equal; lia.
Qed.

Lemma part_elem (m : Z -> list Z) (i n p : Z) : p ∈ concat (m <$> seqZ i n) -> exists j, i <= j < i + n /\ p ∈ m j.
Proof.
  intros Hp. apply elem_of_concat in Hp as (l & Hp & Hl). apply list_elem_of_fmap in Hl as (j & -> & Hj). apply elem_of_seqZ in Hj. by exists j.
Qed.

Lemma part_ext (m m' : Z -> list Z) (i n : Z) : (forall j, i <= j < i + n -> m' j = m j) -> concat (m' <$> seqZ i n) = concat (m <$> seqZ i n).
Proof. intros H. f_equal. apply list_fmap_ext. intros k j Hj. apply lookup_seqZ in Hj. apply H. lia. Qed.

Lemma members_push pf (head : bool) p m :
  0 <= pf p < 100 -> (forall i x, x ∈ m i -> pf x = i) -> members (push head p (pf p) m) = put_in head pf p (members m).
Proof.
  intros Hi Hm. rewrite (members_split (push head p (pf p) m) (pf p)), (members_split m (pf p)) by done.
  rewrite (part_ext m _ 0), (part_ext m _ (pf p + 1)) by (intros j Hj; apply push_other; lia). rewrite push_at.
  set (a := concat (m <$> seqZ 0 (pf p))). set (b := concat (m <$> seqZ (pf p + 1) (99 - pf p))).
  assert (forall x, x ∈ a -> pf x < pf p) as Ha by (intros x (j & Hj & Hx)%part_elem; rewrite (Hm _ _ Hx); lia).
  assert (forall x, x ∈ b -> pf p < pf x) as Hb by (intros x (j & Hj & Hx)%part_elem; rewrite (Hm _ _ Hx); lia).
  pose proof (Hm (pf p)) as Hmi. unfold put_in. destruct head.
  - rewrite put_before_split; [done|done|]. intros x [Hx|Hx]%elem_of_app; [rewrite (Hmi x Hx); lia|]. specialize (Hb x Hx). lia.
  - rewrite (app_assoc a (m (pf p)) b), put_behind_split; [by rewrite <- !app_assoc| |done].
    intros x [Hx|Hx]%elem_of_app; [specialize (Ha x Hx); lia|]. rewrite (Hmi x Hx). lia.
Qed.

(** * The refinement *)

Lemma ok_prio_of c m : rt_ok c m -> forall i x, x ∈ m i -> prio_of c x = i.
Proof. intros Hok i x Hx. destruct (rt_at _ _ Hok _ _ Hx) as (_ & t & Ht & <-). unfold prio_of. by rewrite Ht. Qed.

Lemma without_prio_of c m p : rt_ok c m -> forall i x, x ∈ without p m i -> prio_of c x = i.
Proof. intros Hok i x [_ Hx]%without_elem. by eapply ok_prio_of. Qed.

Lemma rt_step c m o :
  rt_ok c m -> rt_valid c o ->
  exists v c' m', rt_exec o c = Some (v, c') /\ rt_ok c' m' /\ base c' = base c /\ (v, members m') = rt_spec (prio_of c) o (members m).
Proof.
  intros Hok Hv. destruct o as [p hd|p|p hd|]; cbn [rt_exec rt_spec].
  - destruct Hv as [[t Ht] Hpr]. assert (prio_of c p = prio t) as E by (unfold prio_of; by rewrite Ht). rewrite E in Hpr.
    destruct (enqueue_entity_run c m p t hd Hok Ht Hpr) as (c' & Ec & Hok' & Hby & _). eexists 0, c', _. split; [by rewrite (cbind _ _ _ _ _ Ec)|].
    split; [done|]. split; [by apply bystanders_base|]. f_equal. rewrite <- E, <- members_without.
    apply members_push; [by rewrite E|by apply without_prio_of].
  - destruct (dequeue_entity_run c m p Hok) as (c' & Ec & Hok' & Hby & _). eexists 0, c', _. split; [by rewrite (cbind _ _ _ _ _ Ec)|].
    split; [done|]. split; [by apply bystanders_base|]. f_equal. apply members_without.
  - destruct (requeue_run c m p hd Hok) as (c' & Ec & Hok' & Hby & _). eexists 0, c', _. split; [by rewrite (cbind _ _ _ _ _ Ec)|].
    split; [done|]. split; [by apply bystanders_base|]. f_equal. destruct (all_tasks (base c) !! p) as [t|] eqn:Ht.
    + case_bool_decide as Hp; [|done]. assert (prio_of c p = prio t) as E by (unfold prio_of; by rewrite Ht). rewrite <- E, <- members_without.
      apply members_push; [|by apply without_prio_of]. apply members_spec in Hp as (i & Hi & Hp). by rewrite (ok_prio_of _ _ Hok _ _ Hp).
    + rewrite bool_decide_eq_false_2; [done|]. intros (i & _ & Hp)%members_spec. destruct (rt_at _ _ Hok _ _ Hp) as (_ & t & ? & _). congruence.
  - pose proof (rt_count _ _ Hok) as Hc. rewrite (cbind (look rt) _ c (rt c) c eq_refl). destruct (members m) as [|p l] eqn:Em.
    + rewrite Hc. exists 0, c, m. rewrite Em. done.
    + rewrite (proj2 (Z.eqb_neq _ _)) by (rewrite Hc; cbn; lia). exists p, c, m. rewrite Em. split; [by eapply pick_entity_run|done].
Qed.

Lemma rt_steps os c m :
  rt_ok c m -> Forall (rt_valid c) os ->
  exists vs c' m', rt_execs os c = Some (vs, c') /\ rt_ok c' m' /\ base c' = base c /\ (vs, members m') = rt_specs (prio_of c) os (members m).
Proof.
  revert c m. induction os as [|o os IH]; intros c m Hok Hv; cbn [rt_execs rt_specs]; [by exists [], c, m|].
  apply list.Forall_cons in Hv as [Ho Hos]. destruct (rt_step c m o Hok Ho) as (v & c1 & m1 & E1 & Hok1 & Hb1 & Es1).
  destruct (IH c1 m1 Hok1) as (vs & c2 & m2 & E2 & Hok2 & Hb2 & Es2).
  { eapply list.Forall_impl; [exact Hos|]. intros o'. unfold rt_valid, prio_of. by rewrite Hb1. }
  exists (v :: vs), c2, m2. rewrite (cbind _ _ _ _ _ E1), (cbind _ _ _ _ _ E2). split; [done|]. split; [done|]. split; [congruence|].
  rewrite <- Es1. cbn. assert (prio_of c1 = prio_of c) as Ep by (unfold prio_of; by rewrite Hb1). rewrite Ep in Es2. by rewrite <- Es2.
Qed.

(** C7: the priority array of the real-time class is a queue in the order of the priorities.  After
    init_rt_rq, on any bitmap memory of four words, every sequence of enqueue_rt_entity,
    dequeue_rt_entity, requeue_rt_entity and pick_next_rt_entity on known tasks with priorities in
    [0, 100) succeeds and returns what the list [rt_specs] returns: a task enters behind, or with
    ENQUEUE_HEAD before, the tasks of its priority, and a task that was queued already moves there;
    the pick is the first task of the highest priority, found through the bitmap; and the lists of
    the array, one after the other, are that list, with rt_nr_running its length. *)
Theorem rt_queue_refines b c os :
  Forall is_u32 b -> length b = 4%nat -> Z.of_nat (size (all_tasks (base c))) < 4294967296 -> init_rt_rq b = Some (rt c) -> Forall (rt_valid c) os ->
  exists vs c', rt_execs os c = Some (vs, c') /\ (vs, concat (queue (active (rt c')))) = rt_specs (prio_of c) os [] /\
    rt_nr_running (rt c') = Z.of_nat (length (concat (queue (active (rt c'))))) /\ base c' = base c /\
    (forall i l, 0 <= i < 100 -> rd (queue (active (rt c'))) i = Some l -> bit_at (bitmap (active (rt c'))) i = true <-> l <> []).
Proof.
  intros Hu Hl Hs Er Hv. destruct (init_run b Hu Hl) as (r & Er' & Hlv & Hn & _). rewrite Er in Er'. injection Er' as <-.
  assert (members (fun _ => []) = []) as Hm by (apply members_nil; done).
  assert (rt_ok c (fun _ => [])) as Hok.
  { constructor; try done; [intros i; constructor|intros i p Hp; by apply not_elem_of_nil in Hp]. }
  destruct (rt_steps os c _ Hok Hv) as (vs & c' & m' & E & Hok' & Hb & Es). exists vs, c'. rewrite Hm in Es. pose proof (rt_levels _ _ Hok') as [_ _ Hq Hbit _].
  change (concat (m' <$> seqZ 0 100)) with (members m') in Es. assert (concat (queue (active (rt c'))) = members m') as -> by (by rewrite Hq).
  split; [done|]. split; [done|]. split; [apply Hok'|]. split; [done|]. intros i l Hi Hl'. rewrite Hq, rd_levels in Hl' by done. injection Hl' as <-. by apply Hbit.
Qed.

(** * Bandwidth *)

(** The time since the last update, 0 if the clock went back. *)
Definition exec_delta (c : cpu) (t : task_struct) : Z := Z.max 0 (s64 (clock (base c) - exec_start (se t))).

Lemma delta_run a : (if s64 (u64 a) <? 0 then 0 else u64 a) = Z.max 0 (s64 a).
Proof.
  assert (s64 (u64 a) = s64 a) as -> by (unfold s64, u64; by rewrite Z.add_mod_idemp_l).
  unfold s64, u64. pose proof (Z.div_mod a 18446744073709551616 ltac:(lia)). pose proof (Z.mod_pos_bound a 18446744073709551616 ltac:(lia)).
  pose proof (Z.div_mod (a + 9223372036854775808) 18446744073709551616 ltac:(lia)).
  pose proof (Z.mod_pos_bound (a + 9223372036854775808) 18446744073709551616 ltac:(lia)). destruct (Z.ltb_spec ((a + 9223372036854775808) mod 18446744073709551616 - 9223372036854775808) 0); lia.
Qed.

(** The real-time tasks have used up their runtime, when it is limited at all. *)
Definition exceeds (c : cpu) (time : Z) : Prop := rt_runtime (rt c) < rt_period (def_rt_bandwidth c) /\ rt_runtime (rt c) < time.

Lemma exceeded_run c :
  rt_runtime (rt c) <> RUNTIME_INF ->
  exists b c', sched_rt_runtime_exceeded c = Some (b, c') /\ base c' = base c /\ rt_time (rt c') = rt_time (rt c) /\
    (b = true <-> rt_throttled (rt c') <> 0) /\ (rt_throttled (rt c') <> 0 <-> rt_throttled (rt c) <> 0 \/ exceeds c (rt_time (rt c))).
Proof.
  intros Hinf. unfold sched_rt_runtime_exceeded, exceeds. rewrite (cbind (look rt) _ c (rt c) c eq_refl).
  destruct (Z.eqb_spec (rt_throttled (rt c)) 0) as [E|E]; cbn [negb]; [|exists true, c; split_and!; try done; tauto].
  rewrite (cbind (look def_rt_bandwidth) _ c (def_rt_bandwidth c) c eq_refl).
  destruct (Z.leb_spec (rt_period (def_rt_bandwidth c)) (rt_runtime (rt c))); [exists false, c; split_and!; try done; intros; try tauto; lia|].
  rewrite (proj2 (Z.eqb_neq _ _) Hinf). destruct (Z.ltb_spec (rt_runtime (rt c)) (rt_time (rt c))).
  - eexists true, _. split; [reflexivity|]. cbn. split_and!; try done; intros; try lia; by right.
  - exists false, c. split_and!; try done; intros; try tauto; lia.
Qed.

Lemma charge_run c t :
  all_tasks (base c) !! rq_curr (base c) = Some t -> rt_policy (policy t) = true -> 0 <= sysctl_sched_rt_runtime c -> rt_runtime (rt c) <> RUNTIME_INF ->
  let time := u64 (rt_time (rt c) + exec_delta c t) in
  exists c', update_curr_rt c = Some (tt, c') /\ rt_time (rt c') = time /\
    (rt_throttled (rt c') <> 0 <-> rt_throttled (rt c) <> 0 \/ exceeds c time) /\
    (rt_throttled (rt c') <> 0 -> rq_curr (base c) ∈ need_resched (base c')) /\
    exists t', all_tasks (base c') !! rq_curr (base c) = Some t' /\ exec_start (se t') = clock (base c) /\
      sum_exec_runtime (se t') = u64 (sum_exec_runtime (se t) + exec_delta c t).
Proof.
  intros Ht Hpol Hsys Hinf. cbn zeta. unfold update_curr_rt. set (p := rq_curr (base c)) in *.
  rewrite (cbind _ _ _ _ _ (lift_read (gets rq_curr) c _ eq_refl)). fold p. rewrite (cbind _ _ _ _ _ (task_read _ _ _ Ht)), Hpol. cbn [negb].
  rewrite (cbind _ _ _ _ _ (lift_read (gets clock) c _ eq_refl)). cbn zeta. rewrite delta_run. fold (exec_delta c t). set (d := exec_delta c t).
  assert (exists q, (_ ← put_ent p (fun e => with_sum (u64 (sum_exec_runtime e + d)) e); put_ent p (with_start (clock (base c)))) (base c) = Some (tt, q) /\
    need_resched q = need_resched (base c) /\ exists t', all_tasks q !! p = Some t' /\ exec_start (se t') = clock (base c) /\
      sum_exec_runtime (se t') = u64 (sum_exec_runtime (se t) + d)) as (q & Eq & Hnr & Hq).
  { unfold put_ent, mbind, K_bind. rewrite Ht. cbn. rewrite lookup_insert_eq. eexists. split; [reflexivity|]. split; [done|].
    cbn. rewrite lookup_insert_eq. by eexists. }
  assert (forall (g : unit -> C unit), (_ ← lift (put_ent p (fun e => with_sum (u64 (sum_exec_runtime e + d)) e)); y ← lift (put_ent p (with_start (clock (base c)))); g y) c
    = g tt (put_base q c)) as ->.
  { intros g. unfold mbind, C_bind, lift. unfold mbind, K_bind in Eq. destruct (put_ent p (fun e => _) (base c)) as [[[] q1]|]; [|done]. cbn. by rewrite Eq. }
  set (c1 := put_base q c). unfold rt_bandwidth_enabled. rewrite (cbind (look _) _ c1 (0 <=? sysctl_sched_rt_runtime c) c1 eq_refl).
  rewrite (proj2 (Z.leb_le _ _) Hsys). cbn [negb]. rewrite (cbind (look rt) _ c1 (rt c) c1 eq_refl), (proj2 (Z.eqb_neq _ _) Hinf). cbn [negb].
  rewrite (cbind (set_rt _) _ c1 tt _ eq_refl).
  edestruct (exceeded_run (with_rt (put_time (u64 (rt_time (rt c) + d)) (rt c)) c1)) as (b & c2 & E2 & Hb2 & Ht2 & Hb & Hth); [done|].
  unfold with_rt in E2. cbn [rt base rest nr_all nr_uninterruptible nr_switches def_rt_bandwidth sysctl_sched_rt_runtime c1 put_base] in E2 |- *.
  rewrite (cbind _ _ _ _ _ E2). destruct b.
  - eexists. split; [reflexivity|]. cbn. rewrite Ht2, Hb2. cbn. split; [done|]. split; [exact Hth|]. split; [intros _; set_solver|]. done.
  - exists c2. split; [done|]. rewrite Ht2, Hb2. cbn. split; [done|]. split; [exact Hth|]. split; [|done]. intros H. apply Hb in H. done.
Qed.

(** One period: what stays the same, and what was asked for. *)
Record paid (c c' : cpu) : Prop := Paid {
  paid_runtime : rt_runtime (rt c') = rt_runtime (rt c);
  paid_nr : rt_nr_running (rt c') = rt_nr_running (rt c);
  paid_on : bandwidth_on c' = bandwidth_on c;
  paid_curr : rq_curr (base c') = rq_curr (base c);
  paid_resched : need_resched (base c) ⊆ need_resched (base c');
  paid_wake : rt_throttled (rt c) <> 0 -> rt_throttled (rt c') = 0 -> rt_nr_running (rt c) <> 0 -> rq_curr (base c) ∈ need_resched (base c')
}.

Lemma paid_trans c1 c2 c3 : paid c1 c2 -> paid c2 c3 -> (rt_throttled (rt c2) = 0 -> rt_throttled (rt c3) = 0) -> paid c1 c3.
Proof.
  intros [A1 A2 A3 A4 A5 A6] [B1 B2 B3 B4 B5 B6] H. constructor; try congruence; [set_solver|].
  intros Ht1 Ht3 Hn. destruct (decide (rt_throttled (rt c2) = 0)) as [E|E]; [apply B5; by apply A6|]. rewrite <- A4. apply B6; [done|done|congruence].
Qed.

Lemma period_run c :
  bandwidth_on c = true -> 0 < rt_runtime (rt c) < 18446744073709551616 -> 0 <= rt_time (rt c) < 18446744073709551616 ->
  exists idle c', do_sched_rt_period_timer 1 c = Some (idle, c') /\ paid c c' /\
    rt_time (rt c') = Z.max 0 (rt_time (rt c) - rt_runtime (rt c)) /\
    (rt_throttled (rt c') = 0 <-> rt_throttled (rt c) = 0 \/ (0 < rt_time (rt c) /\ rt_time (rt c') < rt_runtime (rt c))).
Proof.
  intros Hon Hr Ht. unfold do_sched_rt_period_timer, rt_bandwidth_enabled.
  rewrite (cbind (look _) _ c (0 <=? sysctl_sched_rt_runtime c) c eq_refl), (cbind (look def_rt_bandwidth) _ c (def_rt_bandwidth c) c eq_refl).
  unfold bandwidth_on in Hon. apply andb_true_iff in Hon as [H1 H2]. rewrite H1. apply negb_true_iff in H2 as H2'. rewrite H2'. cbn [negb orb].
  rewrite (cbind (look rt) _ c (rt c) c eq_refl). destruct (Z.eqb_spec (rt_time (rt c)) 0) as [E|E]; cbn [negb].
  { eexists _, c. split; [reflexivity|]. split; [by constructor|]. rewrite E. split; [lia|]. split; [by left|]. intros [?|[? _]]; [done|lia]. }
  cbn zeta. rewrite (cbind (set_rt _) _ c tt _ eq_refl). set (c1 := Cpu _ _ _ _ _ _ _ _).
  assert (u64 (rt_time (rt c) - Z.min (rt_time (rt c)) (u64 (1 * rt_runtime (rt c)))) = Z.max 0 (rt_time (rt c) - rt_runtime (rt c))) as Et.
  { rewrite Z.mul_1_l. unfold u64. rewrite (Z.mod_small (rt_runtime _)) by lia. rewrite Z.mod_small by lia. lia. }
  assert (rt_time (rt c1) = Z.max 0 (rt_time (rt c) - rt_runtime (rt c))) as Et1 by exact Et. clear Et.
  assert (rt_throttled (rt c1) = rt_throttled (rt c) /\ rt_runtime (rt c1) = rt_runtime (rt c) /\ rt_nr_running (rt c1) = rt_nr_running (rt c)) as (Eth1 & Er1 & En1) by done.
  rewrite (cbind (look rt) _ c1 (rt c1) c1 eq_refl), Eth1, Et1.
  destruct (negb (rt_throttled (rt c) =? 0) && (Z.max 0 (rt_time (rt c) - rt_runtime (rt c)) <? rt_runtime (rt c))) eqn:Een.
  - apply andb_true_iff in Een as [Hth Hlt]. apply negb_true_iff, Z.eqb_neq in Hth. apply Z.ltb_lt in Hlt.
    rewrite (cbind (set_rt _) _ c1 tt _ eq_refl). rewrite (cbind (look rt) _ _ _ _ eq_refl). unfold sched_rt_rq_enqueue. cbn zeta.
    unfold mbind at 1, C_bind at 1. unfold look, mbind at 1, C_bind at 1. cbn [rt put_throttled rt_nr_running]. rewrite En1.
    destruct (Z.eqb_spec (rt_nr_running (rt c)) 0) as [En|En]; cbn [negb].
    + eexists _, _. split; [reflexivity|]. split; [by constructor|]. split; [exact Et1|]. split; [|done].
      intros _. right. split; [lia|]. change (rt_time (rt c1) < rt_runtime (rt c)). by rewrite Et1.
    + eexists _, _. split; [reflexivity|]. split; [constructor; cbn; try done; set_solver|]. split; [exact Et1|]. split; [|done].
      intros _. right. split; [lia|]. change (rt_time (rt c1) < rt_runtime (rt c)). by rewrite Et1.
  - eexists _, c1. split; [reflexivity|]. split; [constructor; try done; rewrite Eth1; done|]. split; [exact Et1|]. rewrite Eth1, Et1.
    apply andb_false_iff in Een as [Hth|Hlt]; [apply negb_false_iff, Z.eqb_eq in Hth; tauto|]. apply Z.ltb_ge in Hlt. split; [by left|]. intros [?|[_ ?]]; [done|lia].
Qed.

Lemma periods_run n c idle :
  bandwidth_on c = true -> 0 < rt_runtime (rt c) < 18446744073709551616 -> 0 <= rt_time (rt c) < 18446744073709551616 ->
  (rt_throttled (rt c) <> 0 -> 0 < rt_time (rt c)) -> rt_time (rt c) <= Z.of_nat n * rt_runtime (rt c) ->
  exists idle' c', period_loop (replicate n 1) idle c = Some (idle', c') /\ paid c c' /\ rt_time (rt c') = 0 /\ rt_throttled (rt c') = 0.
Proof.
  revert c idle. induction n as [|n IH]; intros c idle Hon Hr Ht Hth Hn; cbn [replicate period_loop].
  - exists idle, c. assert (rt_throttled (rt c) = 0) by (destruct (decide (rt_throttled (rt c) = 0)) as [|H]; [done|]; specialize (Hth H); lia).
    split; [done|]. split; [by constructor|]. split; [lia|done].
  - destruct (period_run c Hon Hr Ht) as (i1 & c1 & E1 & Hp1 & Et1 & Hth1). rewrite (cbind _ _ _ _ _ E1). pose proof Hp1 as [P1 P2 P3 P4 P5 P6].
    destruct (IH c1 i1) as (i2 & c2 & E2 & Hp2 & Et2 & Hth2).
    + by rewrite P3.
    + by rewrite P1.
    + lia.
    + intros H. destruct (decide (0 < rt_time (rt c1))) as [|Hz]; [done|]. exfalso. apply H, Hth1.
      destruct (decide (rt_throttled (rt c) = 0)) as [|Hc]; [by left|right]. specialize (Hth Hc). lia.
    + rewrite P1. lia.
    + exists i2, c2. split; [done|]. split; [|done]. by eapply paid_trans.
Qed.

(** C12: the bandwidth of the real-time tasks.  With a limit in force, update_curr_rt adds the time
    since the last update, 0 if the clock went back, to rt_time and to the task, and throttles the
    queue exactly when more than rt_runtime has been used and rt_runtime is below the period, asking
    for a reschedule; from a throttled queue no task is picked; and every throttled queue is released:
    once the period timer has fired rt_time / rt_runtime times, rounded up, without more being
    charged, rt_time is 0 and the queue is not throttled, and, if there are runnable real-time tasks,
    the current task is asked to make room. *)
Theorem rt_bandwidth_enforced :
  (forall c t, all_tasks (base c) !! rq_curr (base c) = Some t -> rt_policy (policy t) = true ->
     0 <= sysctl_sched_rt_runtime c -> rt_runtime (rt c) <> RUNTIME_INF ->
     let time := u64 (rt_time (rt c) + exec_delta c t) in
     exists c', update_curr_rt c = Some (tt, c') /\ rt_time (rt c') = time /\
       (rt_throttled (rt c') <> 0 <-> rt_throttled (rt c) <> 0 \/ exceeds c time) /\
       (rt_throttled (rt c') <> 0 -> rq_curr (base c) ∈ need_resched (base c')) /\
       exists t', all_tasks (base c') !! rq_curr (base c) = Some t' /\ exec_start (se t') = clock (base c) /\
         sum_exec_runtime (se t') = u64 (sum_exec_runtime (se t) + exec_delta c t)) /\
  (forall c, rt_throttled (rt c) <> 0 -> pick_next_task_rt c = Some (0, c)) /\
  (forall c idle, bandwidth_on c = true -> 0 < rt_runtime (rt c) < 18446744073709551616 -> 0 <= rt_time (rt c) < 18446744073709551616 ->
     (rt_throttled (rt c) <> 0 -> 0 < rt_time (rt c)) ->
     exists idle' c', period_loop (replicate (Z.to_nat ((rt_time (rt c) + rt_runtime (rt c) - 1) / rt_runtime (rt c))) 1) idle c = Some (idle', c') /\
       rt_time (rt c') = 0 /\ rt_throttled (rt c') = 0 /\
       (rt_throttled (rt c) <> 0 -> rt_nr_running (rt c) <> 0 -> rq_curr (base c) ∈ need_resched (base c'))).
Proof.
  split; [exact charge_run|]. split.
  - intros c Hth. unfold pick_next_task_rt, _pick_next_task_rt. rewrite (cbind (look rt) _ c (rt c) c eq_refl).
    destruct (rt_nr_running (rt c) =? 0); [done|]. by rewrite (proj2 (Z.eqb_neq _ _) Hth).
  - intros c idle Hon Hr Ht Hth. set (T := rt_time (rt c)) in *. set (R := rt_runtime (rt c)) in *.
    destruct (periods_run (Z.to_nat ((T + R - 1) / R)) c idle Hon Hr Ht Hth) as (i & c' & E & [P1 P2 P3 P4 P5 P6] & Et & Hz).
    { pose proof (Z.div_mod (T + R - 1) R ltac:(lia)). pose proof (Z.mod_pos_bound (T + R - 1) R ltac:(lia)).
      assert (0 <= (T + R - 1) / R) by (apply Z.div_pos; lia). fold R T. nia. }
    exists i, c'. split_and!; [done..|]. intros Hth' Hn. by apply P6.
Qed.

(** * A sample run *)

Definition rt_task (pr : Z) : task_struct := Sched.Task (Entity (LoadWeight 0 0) false 0 0 0 0) SCHED_FIFO pr false.

Definition rt_sample_rq : rq :=
  Rq init_cfs_rq (World ∅ 0) (<[4 := rt_task 10]> (<[8 := rt_task 5]> {[12 := rt_task 10]})) (LoadWeight 0 0) 1000 4 0 ∅ false.

Definition rt_sample (r : rt_rq) : cpu := Cpu rt_sample_rq r ∅ 0 0 0 (Bandwidth 1000000000 950000000 true) 950000.

Definition rt_sample_init : rt_rq :=
  Eval vm_compute in match init_rt_rq [0; 0; 0; 0] with Some r => r | None => RtRq (PrioArray [] []) 0 0 0 0 end.

Definition rt_sample_ops : list rt_op :=
  [RtEnqueue 4 false; RtEnqueue 12 false; RtPick; RtEnqueue 8 false; RtPick; RtDequeue 8; RtRequeue 4 false; RtPick; RtEnqueue 4 true; RtPick].

Lemma rt_queue_refines_witness :
  exists c', rt_execs rt_sample_ops (rt_sample rt_sample_init) = Some ([0; 0; 4; 0; 8; 0; 0; 12; 0; 4], c') /\ concat (queue (active (rt c'))) = [4; 12].
Proof.
  destruct (rt_queue_refines [0; 0; 0; 0] (rt_sample rt_sample_init) rt_sample_ops) as (vs & c' & E & Es & _).
  - repeat constructor; by vm_compute.
  - done.
  - by vm_compute.
  - vm_compute. reflexivity.
  - repeat constructor; vm_compute; try done; by eexists.
  - exists c'. change (rt_specs _ _ _) with ([0; 0; 4; 0; 8; 0; 0; 12; 0; 4], [4; 12]) in Es. injection Es as Ev El. subst vs. split; [exact E|exact El].
Defined.

Lemma rt_bandwidth_enforced_witness :
  exists idle' c', period_loop (replicate 3 1) false (rt_sample (RtRq (active rt_sample_init) 0 1 2000000000 950000000)) = Some (idle', c') /\
    rt_time (rt c') = 0 /\ rt_throttled (rt c') = 0.
Proof.
  destruct (proj2 (proj2 rt_bandwidth_enforced) (rt_sample (RtRq (active rt_sample_init) 0 1 2000000000 950000000)) false) as (i & c' & E & Et & Hz & _);
    [done|done|done|done|]. by exists i, c'.
Defined.

(** A task that a lock holder's waiter has put into the real-time class without a real-time policy is
    not charged: neither its own time nor rt_time moves. *)
Lemma boosted_not_charged c t :
  all_tasks (base c) !! rq_curr (base c) = Some t -> fair_class t = false -> policy t = SCHED_NORMAL -> update_curr_rt c = Some (tt, c).
Proof.
  intros Ht _ Hp. unfold update_curr_rt. rewrite (cbind _ _ _ _ _ (lift_read (gets rq_curr) c _ eq_refl)), (cbind _ _ _ _ _ (task_read _ _ _ Ht)), Hp. done.
Qed.
