(* ===== verification/SchedCore.v ===== *)
(** The core of the scheduler on one processor (kernel/sched.c, kernel/sched_idletask.c): tasks enter
    and leave the run queue, the next task is picked over the classes, a task goes to sleep, is woken,
    changes its nice value, its priority or its policy, and forks.

    Each function is what happens under the lock of the run queue; [now] is what sched_clock_cpu reads.
    The load averages (update_cpu_load, calc_load_account_idle), the statistics and the switch of
    address space and stack are not part of the state. *)

From S2P Require Import Prelude.
From stdpp Require Import gmap.
From Stdlib Require Import Lia.
From S2P Require Import Task.
From S2P Require Import Rbtree.
From S2P Require Import Sched.
From S2P Require Import SchedRt.
Open Scope Z_scope.

(** * Classes *)

Inductive sched_class : Type := RtClass | FairClass | IdleClass.

(** The class of a task: one that is not of the fair class is the idle task or of the real-time class. *)
Definition class_of (q : rq) (p : Z) (t : task_struct) : sched_class :=
  if fair_class t then FairClass else if p =? idle q then IdleClass else RtClass.

Definition sched_class_of (p : Z) : C sched_class := t ← lift (get_task p); look (fun c => class_of (base c) p t).

Definition set_nr_all (f : Z -> Z) : C unit := fun c =>
  Some (tt, Cpu (base c) (rt c) (rest c) (f (nr_all c)) (nr_uninterruptible c) (nr_switches c) (def_rt_bandwidth c)
              (sysctl_sched_rt_runtime c)).

Definition set_nr_uninterruptible (f : Z -> Z) : C unit := fun c =>
  Some (tt, Cpu (base c) (rt c) (rest c) (nr_all c) (f (nr_uninterruptible c)) (nr_switches c) (def_rt_bandwidth c)
              (sysctl_sched_rt_runtime c)).

Definition put_task (p : Z) (f : task_struct -> task_struct) : K unit := fun q =>
  t ← all_tasks q !! p;
  Some (tt, Rq (cfs q) (timeline q) (<[p := f t]> (all_tasks q)) (rq_load q) (clock q) (rq_curr q) (idle q)
              (need_resched q) (skip_clock_update q)).

Definition clear_tsk_need_resched (p : Z) : K unit := fun q =>
  Some (tt, Rq (cfs q) (timeline q) (all_tasks q) (rq_load q) (clock q) (rq_curr q) (idle q)
              (need_resched q ∖ {[p]}) (skip_clock_update q)).

Definition set_rq_curr (p : Z) : K unit := fun q =>
  Some (tt, Rq (cfs q) (timeline q) (all_tasks q) (rq_load q) (clock q) p (idle q) (need_resched q) (skip_clock_update q)).

Definition with_se v t := Sched.Task v (policy t) (prio t) (fair_class t).
Definition with_policy v t := Sched.Task (se t) v (prio t) (fair_class t).
Definition with_prio v t := Sched.Task (se t) (policy t) v (fair_class t).
Definition with_class v t := Sched.Task (se t) (policy t) (prio t) v.

Definition with_sig v r := Rest v (rt_se r) (static_prio r) (normal_prio r) (rt_priority r) (sched_reset_on_fork r)
  (sched_exp r) (freezing r) (rttime r) (pi_prio r).
Definition with_static v r := Rest (sig r) (rt_se r) v (normal_prio r) (rt_priority r) (sched_reset_on_fork r)
  (sched_exp r) (freezing r) (rttime r) (pi_prio r).
Definition with_normal v r := Rest (sig r) (rt_se r) (static_prio r) v (rt_priority r) (sched_reset_on_fork r)
  (sched_exp r) (freezing r) (rttime r) (pi_prio r).
Definition with_rt_priority v r := Rest (sig r) (rt_se r) (static_prio r) (normal_prio r) v (sched_reset_on_fork r)
  (sched_exp r) (freezing r) (rttime r) (pi_prio r).
Definition with_reset v r := Rest (sig r) (rt_se r) (static_prio r) (normal_prio r) (rt_priority r) v
  (sched_exp r) (freezing r) (rttime r) (pi_prio r).

(** * The run queue *)

(** A class without the method is a NULL pointer. *)
Definition enqueue_class (p flags : Z) : C unit :=
  k ← sched_class_of p;
  match k with
  | RtClass => enqueue_task_rt p flags
  | FairClass => lift (enqueue_task_fair p flags)
  | IdleClass => need None
  end.

Definition dequeue_class (p flags : Z) : C unit :=
  k ← sched_class_of p;
  match k with
  | RtClass => dequeue_task_rt p
  | FairClass => lift (dequeue_task_fair p flags)
  | IdleClass => mret tt
  end.

Definition put_prev_class (p : Z) : C unit :=
  k ← sched_class_of p;
  match k with
  | RtClass => put_prev_task_rt p
  | FairClass => lift (put_prev_task_fair p)
  | IdleClass => mret tt
  end.

Definition set_curr_class : C unit :=
  p ← lift (gets rq_curr);
  k ← sched_class_of p;
  match k with
  | RtClass => set_curr_task_rt
  | FairClass => lift set_curr_task_fair
  | IdleClass => mret tt
  end.

Definition task_tick_class (p : Z) : C unit :=
  k ← sched_class_of p;
  match k with
  | RtClass => task_tick_rt p
  | FairClass => lift (task_tick_fair p)
  | IdleClass => mret tt
  end.

Definition switched_to_idle (p : Z) (running : bool) : K unit :=
  if running then c ← gets rq_curr; resched_task c else check_preempt_curr p false.

Definition prio_changed_idle (p oldprio : Z) (running : bool) : K unit :=
  if running then
    t ← get_task p;
    if oldprio <? prio t then c ← gets rq_curr; resched_task c else mret tt
  else check_preempt_curr p false.

#[global] Instance sched_class_eq_dec : EqDecision sched_class.
Proof. solve_decision. Defined.

(** No class of the configuration has switched_from. *)
Definition check_class_changed (p : Z) (prev_class : sched_class) (oldprio : Z) (running : bool) : C unit :=
  k ← sched_class_of p;
  if bool_decide (prev_class ≠ k) then
    match k with
    | RtClass => switched_to_rt p running
    | FairClass => lift (switched_to_fair p running)
    | IdleClass => lift (switched_to_idle p running)
    end
  else
    match k with
    | RtClass => prio_changed_rt p oldprio running
    | FairClass => lift (prio_changed_fair p oldprio running)
    | IdleClass => lift (prio_changed_idle p oldprio running)
    end.

Definition enqueue_task (now p flags : Z) : C unit :=
  _ ← lift (update_rq_clock now);
  _ ← enqueue_class p flags;
  lift (put_ent p (with_on_rq true)).

Definition dequeue_task (now p flags : Z) : C unit :=
  _ ← lift (update_rq_clock now);
  _ ← dequeue_class p flags;
  lift (put_ent p (with_on_rq false)).

Definition task_contributes_to_load (r : task_rest) : bool :=
  negb (Z.land (tstate (sig r)) TASK_UNINTERRUPTIBLE =? 0) && negb (freezing r).

Definition activate_task (now p flags : Z) : C unit :=
  r ← get_rest p;
  _ ← (if task_contributes_to_load r then set_nr_uninterruptible (fun n => u32 (n - 1)) else mret tt);
  _ ← enqueue_task now p flags;
  set_nr_all (fun n => u32 (n + 1)).

Definition deactivate_task (now p flags : Z) : C unit :=
  r ← get_rest p;
  _ ← (if task_contributes_to_load r then set_nr_uninterruptible (fun n => u32 (n + 1)) else mret tt);
  _ ← dequeue_task now p flags;
  set_nr_all (fun n => u32 (n - 1)).

(** * schedule *)

Definition put_prev_task (now prev : Z) : C unit :=
  e ← lift (ent prev);
  _ ← (if on_rq e then lift (update_rq_clock now) else mret tt);
  _ ← lift (set_skip false);
  put_prev_class prev.

Definition pick_class (k : sched_class) : C Z :=
  match k with
  | RtClass => pick_next_task_rt
  | FairClass => lift pick_next_task_fair
  | IdleClass => lift (gets idle)
  end.

(** From sched_class_highest on, along .next. *)
Definition classes : list sched_class := [RtClass; FairClass; IdleClass].

Fixpoint pick_from (ks : list sched_class) : C Z :=
  match ks with
  | [] => need None
  | k :: ks => p ← pick_class k; if negb (p =? 0) then mret p else pick_from ks
  end.

Definition pick_next_task : C Z :=
  n ← look nr_all;
  nf ← lift (get_cfs nr_running);
  if n =? nf then
    p ← lift pick_next_task_fair;
    if negb (p =? 0) then mret p else pick_from classes
  else pick_from classes.

(** The part of schedule under the lock.  [active]: preempt_count() has PREEMPT_ACTIVE.  The result is
    the task that runs next. *)
Definition schedule (now : Z) (active : bool) : C Z :=
  prev ← lift (gets rq_curr);
  _ ← lift (clear_tsk_need_resched prev);
  r ← get_rest prev;
  let state := tstate (sig r) in
  _ ← (if negb (state =? 0) && negb active then
         if signal_pending_state state (sig r) then put_rest prev (fun r => with_sig (set_task_state TASK_RUNNING (sig r)) r)
         else deactivate_task now prev DEQUEUE_SLEEP
       else mret tt);
  _ ← put_prev_task now prev;
  next ← pick_next_task;
  if negb (prev =? next) then
    _ ← (fun c => Some (tt, Cpu (base c) (rt c) (rest c) (nr_all c) (nr_uninterruptible c) (u64 (nr_switches c + 1))
                              (def_rt_bandwidth c) (sysctl_sched_rt_runtime c)));
    _ ← lift (set_rq_curr next);
    mret next
  else mret next.

(** * Waking *)

Definition set_state (p state : Z) : C unit := put_rest p (fun r => with_sig (set_task_state state (sig r)) r).

Definition try_to_wake_up (now p state : Z) : C bool :=
  r ← get_rest p;
  if Z.land (tstate (sig r)) state =? 0 then mret false
  else
    e ← lift (ent p);
    success ← (if on_rq e then mret false else _ ← activate_task now p ENQUEUE_WAKEUP; mret true);
    _ ← lift (check_preempt_curr p false);
    _ ← set_state p TASK_RUNNING;
    mret success.

Definition wake_up_new_task (now p : Z) : C unit :=
  _ ← activate_task now p 0;
  lift (check_preempt_curr p true).

Definition scheduler_tick (now : Z) : C unit :=
  c ← lift (gets rq_curr);
  _ ← lift (update_rq_clock now);
  task_tick_class c.

(** sched_yield up to its call of schedule. *)
Definition sched_yield (now : Z) : C unit :=
  c ← lift (gets rq_curr);
  k ← sched_class_of c;
  match k with
  | RtClass => yield_task_rt
  | FairClass => lift (yield_task_fair now)
  | IdleClass => need None
  end.

(** * Priorities *)

Definition NICE_TO_PRIO (nice : Z) : Z := MAX_RT_PRIO + nice + 20.

Definition normal_prio_of (pol : Z) (r : task_rest) : Z :=
  if rt_policy pol then MAX_RT_PRIO - 1 - rt_priority r else static_prio r.

Definition effective_prio (p : Z) : C Z :=
  t ← lift (get_task p);
  _ ← put_rest p (fun r => with_normal (normal_prio_of (policy t) r) r);
  r ← get_rest p;
  mret (if negb (rt_prio (prio t)) then normal_prio r else prio t).

(** set_load_weight(p) of the source. *)
Definition set_task_weight (p : Z) : C unit :=
  t ← lift (get_task p);
  r ← get_rest p;
  lw ← need (set_load_weight (rt_policy (policy t)) (policy t) (static_prio r));
  lift (put_ent p (with_load lw)).

Definition set_user_nice (now p nice : Z) : C unit :=
  r ← get_rest p;
  if (static_prio r - MAX_RT_PRIO - 20 =? nice) || (nice <? -20) || (19 <? nice) then mret tt
  else
    t ← lift (get_task p);
    if rt_policy (policy t) then put_rest p (with_static (NICE_TO_PRIO nice))
    else
      let on := on_rq (se t) in
      _ ← (if on then dequeue_task now p 0 else mret tt);
      _ ← put_rest p (with_static (NICE_TO_PRIO nice));
      _ ← set_task_weight p;
      t ← lift (get_task p);
      let old_prio := prio t in
      pr ← effective_prio p;
      _ ← lift (put_task p (with_prio pr));
      let delta := pr - old_prio in
      if on then
        _ ← enqueue_task now p 0;
        c ← lift (gets rq_curr);
        if (delta <? 0) || ((0 <? delta) && (p =? c)) then lift (resched_task c) else mret tt
      else mret tt.

Definition rt_mutex_setprio (now p pr : Z) : C unit :=
  if (pr <? 0) || (MAX_RT_PRIO + 40 <? pr) then need None
  else
    t ← lift (get_task p);
    prev_class ← sched_class_of p;
    c ← lift (gets rq_curr);
    let on := on_rq (se t) in
    let running := c =? p in
    _ ← (if on then dequeue_task now p 0 else mret tt);
    _ ← (if running then put_prev_class p else mret tt);
    _ ← lift (put_task p (with_class (negb (rt_prio pr))));
    _ ← lift (put_task p (with_prio pr));
    _ ← (if running then set_curr_class else mret tt);
    if on then
      _ ← enqueue_task now p (if prio t <? pr then ENQUEUE_HEAD else 0);
      check_class_changed p prev_class (prio t) running
    else mret tt.

Definition rt_mutex_getprio (r : task_rest) : Z :=
  match pi_prio r with None => normal_prio r | Some w => Z.min w (normal_prio r) end.

Definition __setscheduler (p pol pr : Z) : C unit :=
  e ← lift (ent p);
  if on_rq e then need None
  else
    _ ← lift (put_task p (with_policy pol));
    _ ← put_rest p (with_rt_priority pr);
    _ ← put_rest p (fun r => with_normal (normal_prio_of pol r) r);
    r ← get_rest p;
    let pr := rt_mutex_getprio r in
    _ ← lift (put_task p (with_prio pr));
    _ ← lift (put_task p (with_class (negb (rt_prio pr))));
    set_task_weight p.

(** What __sched_setscheduler asks of the rest of the kernel. *)
Record sched_env : Type := SchedEnv {
  env_user : bool;
  capable_nice : bool;
  has_mm : bool;
  has_sighand : bool;
  rlim_rtprio : Z;
  same_owner : bool;
  security_task_setscheduler : Z
}.

Definition EPERM : Z := 1.
Definition ESRCH : Z := 3.
Definition SCHED_RESET_ON_FORK : Z := 0x40000000.

(** The checks of a user without CAP_SYS_NICE. *)
Definition setscheduler_denied (env : sched_env) (t : task_struct) (r : task_rest) (pol pr : Z) (reset : bool) : Z :=
  let rt_denied :=
    if rt_policy pol then
      if negb (has_sighand env) then - ESRCH
      else if negb (pol =? policy t) && (rlim_rtprio env =? 0) then - EPERM
      else if (rt_priority r <? pr) && (rlim_rtprio env <? pr) then - EPERM
      else 0
    else 0 in
  if negb (rt_denied =? 0) then rt_denied
  else if (policy t =? SCHED_IDLE) && negb (pol =? SCHED_IDLE) then - EPERM
  else if negb (same_owner env) then - EPERM
  else if sched_reset_on_fork r && negb reset then - EPERM
  else 0.

(** From the check of the arguments on, with the policy and the flag known: the error, or 0. *)
Definition setscheduler_checks (env : sched_env) (t : task_struct) (r : task_rest) (pol pr : Z) (reset : bool) : Z :=
  if (pr <? 0) || (has_mm env && (99 <? pr)) || (negb (has_mm env) && (MAX_RT_PRIO - 1 <? pr)) then - EINVAL
  else if negb (eqb (rt_policy pol) (negb (pr =? 0))) then - EINVAL
  else
    let denied := if env_user env && negb (capable_nice env) then setscheduler_denied env t r pol pr reset else 0 in
    if negb (denied =? 0) then denied
    else if env_user env then security_task_setscheduler env else 0.

(** The change itself, under the locks. *)
Definition change_scheduler (now p pol pr : Z) (reset : bool) : C unit :=
  t ← lift (get_task p);
  c ← lift (gets rq_curr);
  let on := on_rq (se t) in
  let running := c =? p in
  _ ← (if on then deactivate_task now p 0 else mret tt);
  _ ← (if running then put_prev_class p else mret tt);
  _ ← put_rest p (with_reset reset);
  t ← lift (get_task p);
  prev_class ← sched_class_of p;
  _ ← __setscheduler p pol pr;
  _ ← (if running then set_curr_class else mret tt);
  if on then
    _ ← activate_task now p 0;
    check_class_changed p prev_class (prio t) running
  else mret tt.

(** A negative policy keeps the old one.  rt_mutex_adjust_pi, which walks the locks that the task waits
    for, is not modelled. *)
Definition __sched_setscheduler (now : Z) (env : sched_env) (p pol pr : Z) : C Z :=
  t ← lift (get_task p);
  r ← get_rest p;
  let '(reset, pol, known) :=
    if pol <? 0 then (sched_reset_on_fork r, policy t, true)
    else
      let pol' := Z.land pol (Z.lnot SCHED_RESET_ON_FORK) in
      (negb (Z.land pol SCHED_RESET_ON_FORK =? 0), pol',
       (pol' =? SCHED_FIFO) || (pol' =? SCHED_RR) || (pol' =? SCHED_NORMAL) || (pol' =? SCHED_BATCH) || (pol' =? SCHED_IDLE)) in
  if negb known then mret (- EINVAL)
  else
    let err := setscheduler_checks env t r pol pr reset in
    if negb (err =? 0) then mret err
    else
      _ ← change_scheduler now p pol pr reset;
      mret 0.

(** * Forking *)

(** The child [p] starts as a copy of its parent, the current task; no list has it, so the
    initialisation of its list nodes changes nothing. *)
Definition __sched_fork (p : Z) : C unit :=
  lift (put_ent p (fun e => Entity (se_load e) false 0 0 (vruntime e) 0)).

Definition sched_fork (p : Z) : C unit :=
  _ ← __sched_fork p;
  _ ← set_state p TASK_RUNNING;
  r ← get_rest p;
  _ ← (if sched_reset_on_fork r then
         t ← lift (get_task p);
         _ ← (if rt_policy (policy t) then
                _ ← lift (put_task p (with_policy SCHED_NORMAL));
                put_rest p (fun r => with_normal (static_prio r) r)
              else mret tt);
         r ← get_rest p;
         _ ← (if static_prio r - MAX_RT_PRIO - 20 <? 0 then
                _ ← put_rest p (with_static (NICE_TO_PRIO 0));
                _ ← put_rest p (fun r => with_normal (static_prio r) r);
                set_task_weight p
              else mret tt);
         put_rest p (with_reset false)
       else mret tt);
  c ← lift (gets rq_curr);
  rc ← get_rest c;
  _ ← lift (put_task p (with_prio (normal_prio rc)));
  _ ← (if negb (rt_prio (normal_prio rc)) then lift (put_task p (with_class true)) else mret tt);
  k ← sched_class_of p;
  match k with FairClass => lift (task_fork_fair p) | _ => mret tt end.

(** * Booting *)

(** The idle task, which sched_init made a task of the fair class, gets its own class. *)
Definition init_idle_bootup_task (p : Z) : C unit := lift (put_task p (with_class false)).
