(* ===== verification/SchedCoreInv.v ===== *)
(** The invariant of the scheduler core, and that entering, leaving and picking from the run queue
    keep it. *)

From S2P Require Import Prelude.
From stdpp Require Import gmap sorting.
From Stdlib Require Import Lia.
From S2P Require Import Task.
From S2P Require Import Rbtree.
From S2P Require Import Sched SchedTime SchedTree SchedInv SchedOps SchedPick SchedSpec SchedFrame.
From S2P Require Import SchedRt.
From S2P Require Import SchedRtQueue.
From S2P Require Import SchedCore.
Open Scope Z_scope.

Notation runnable := SchedInv.runnable.

(** * Programs that succeed *)

Definition runs {A} (e : C A) (c : cpu) (Q : A -> cpu -> Prop) : Prop := exists v c', e c = Some (v, c') /\ Q v c'.

Lemma runs_done {A} (v : A) c (Q : A -> cpu -> Prop) : Q v c -> runs (mret v) c Q.
Proof. intros H. by exists v, c. Qed.

Lemma runs_read {A B} (e : C A) (f : A -> C B) c v Q : e c = Some (v, c) -> runs (f v) c Q -> runs (e ≫= f) c Q.
Proof. intros E (u & c' & F & H). exists u, c'. by rewrite (cbind _ _ _ _ _ E). Qed.

Lemma runs_then {A B} (e : C A) (f : A -> C B) c (P : A -> cpu -> Prop) Q :
  runs e c P -> (forall v c', P v c' -> runs (f v) c' Q) -> runs (e ≫= f) c Q.
Proof. intros (v & c1 & E & H) Hf. destruct (Hf v c1 H) as (u & c2 & F & H2). exists u, c2. by rewrite (cbind _ _ _ _ _ E). Qed.

Lemma runs_mono {A} (e : C A) c (P Q : A -> cpu -> Prop) : (forall v c', P v c' -> Q v c') -> runs e c P -> runs e c Q.
Proof. intros HPQ (v & c' & E & H). exists v, c'. by auto. Qed.

Lemma lift_gets {A} (f : rq -> A) c : lift (gets f) c = Some (f (base c), c).
Proof. by apply lift_read. Qed.

Lemma rest_read c p r : rest c !! p = Some r -> get_rest p c = Some (r, c).
Proof. intros E. unfold get_rest. by rewrite E. Qed.

(** The next step reads the state. *)
Ltac reads := eapply runs_read;
  [first [apply lift_gets | apply task_read; eassumption | apply ent_read_c; eassumption | apply rest_read; eassumption | reflexivity]|].

(** * What stays *)

Definition stay (ps : list Z) (q q' : rq) : Prop :=
  rq_curr q' = rq_curr q /\ idle q' = idle q /\ forall p, view ps p <$> all_tasks q' !! p = view ps p <$> all_tasks q !! p.

Lemma frame_stay ps q q' : frame ps q q' -> stay ps q q'.
Proof. by intros (? & ? & _ & ?). Qed.

#[export] Instance stay_preorder ps : PreOrder (stay ps).
Proof.
  split; [by intros q|]. intros q1 q2 q3 (A1 & A2 & A4) (B1 & B2 & B4).
  split_and!; [congruence|congruence|]. intros p. by rewrite B4.
Qed.

(** [stay] is [frame] but for the tasks that are to be rescheduled. *)
Lemma stay_frame ps q q' :
  stay ps q q' <-> frame ps q (Rq (cfs q') (timeline q') (all_tasks q') (rq_load q') (clock q') (rq_curr q') (idle q')
                                (need_resched q ∪ need_resched q') (skip_clock_update q')).
Proof.
  split.
  - intros (? & ? & ?). split_and!; try done. simpl. set_solver.
  - by intros (? & ? & _ & ?).
Qed.

Lemma stay_more ps ps' q q' : (forall p, p ∈ ps -> p ∈ ps') -> stay ps q q' -> stay ps' q q'.
Proof. rewrite !stay_frame. apply frame_more. Qed.

Lemma stay_task ps q q' p t :
  stay ps q q' -> all_tasks q !! p = Some t ->
  exists t', all_tasks q' !! p = Some t' /\ policy t' = policy t /\ prio t' = prio t /\ fair_class t' = fair_class t /\
    weight (se_load (se t')) = weight (se_load (se t)) /\ (p ∉ ps -> on_rq (se t') = on_rq (se t)).
Proof. intros H Ht. apply stay_frame in H. exact (frame_task _ _ _ _ _ H Ht). Qed.

Lemma stay_back ps q q' p t' :
  stay ps q q' -> all_tasks q' !! p = Some t' ->
  exists t, all_tasks q !! p = Some t /\ policy t' = policy t /\ prio t' = prio t /\ fair_class t' = fair_class t /\
    weight (se_load (se t')) = weight (se_load (se t)) /\ (p ∉ ps -> on_rq (se t') = on_rq (se t)).
Proof. intros H Ht. apply stay_frame in H. exact (frame_back _ _ _ _ _ H Ht). Qed.

Lemma stay_known ps q q' p : stay ps q q' -> known q' p <-> known q p.
Proof. intros (_ & _ & H). specialize (H p). unfold known. destruct (all_tasks q !! p), (all_tasks q' !! p); by split; intros []. Qed.

Lemma stay_size ps q q' : stay ps q q' -> size (all_tasks q') = size (all_tasks q).
Proof.
  intros H. rewrite <- !size_dom. f_equal. apply set_eq. intros p. rewrite !elem_of_dom. apply (stay_known _ _ _ p H).
Qed.

(** * The invariant *)

(** The most weight that a task has, and the most tasks for which their weights do not overflow. *)
Definition max_weight : Z := 88761.
Definition max_tasks : Z := 48000.

Definition rest_ok (r : task_rest) : Prop :=
  100 <= static_prio r < 140 /\ 0 <= normal_prio r /\ (forall w, pi_prio r = Some w -> 0 <= w).

(** [k] is what nr_running of the processor is ahead of the queues of the classes. *)
Record good_at (k : Z) (c : cpu) (s : list Z) (m : Z -> list Z) : Prop := Good {
  g_inv : inv (base c) s;
  g_rt : rt_ok c m;
  g_queued : forall p t, all_tasks (base c) !! p = Some t -> p ∈ members m <-> fair_class t = false /\ on_rq (se t) = true;
  g_nr : nr_all c = nr_running (cfs (base c)) + rt_nr_running (rt c) + k;
  g_rest : forall p, known (base c) p -> exists r, rest c !! p = Some r /\ rest_ok r;
  g_tasks : forall p t, all_tasks (base c) !! p = Some t ->
    weight (se_load (se t)) <= max_weight /\
    (p <> idle (base c) -> fair_class t = negb (rt_prio (prio t)) /\ 0 <= prio t);
  g_idle : exists t r, all_tasks (base c) !! idle (base c) = Some t /\ on_rq (se t) = false /\
    rest c !! idle (base c) = Some r /\ tstate (sig r) = 0;
  g_size : Z.of_nat (size (all_tasks (base c))) <= max_tasks
}.

Definition good (k : Z) (c : cpu) : Prop := exists s m, good_at k c s m.

(** * Counting the runnable tasks *)

Lemma tasks_perm q s q' s' l :
  inv q s -> inv q' s' -> NoDup l -> (forall p, p ∈ tasks (cfs q') <-> p ∈ l) -> nr_running (cfs q') = Z.of_nat (length l).
Proof.
  intros Hq [Hq' _] Hl Hin. rewrite (ok_nr _ _ Hq'). f_equal. apply Permutation_length, NoDup_Permutation; [apply (ok_tasks _ _ Hq')|done|done].
Qed.

Lemma nr_same q s q' s' :
  inv q s -> inv q' s' -> (forall p, runnable q' p <-> runnable q p) -> nr_running (cfs q') = nr_running (cfs q).
Proof.
  intros Hq Hq' H. rewrite (ok_nr _ _ (proj1 Hq)). eapply tasks_perm; [done..|apply (ok_tasks _ _ (proj1 Hq))|].
  intros p. by rewrite (ok_runnable _ _ (proj1 Hq)), (ok_runnable _ _ (proj1 Hq')).
Qed.

Lemma nr_more q s q' s' p :
  inv q s -> inv q' s' -> ~ runnable q p -> (forall r, runnable q' r <-> runnable q r \/ r = p) ->
  nr_running (cfs q') = nr_running (cfs q) + 1.
Proof.
  intros Hq Hq' Hp H. rewrite (ok_nr _ _ (proj1 Hq)). rewrite (tasks_perm q s q' s' (p :: tasks (cfs q)) Hq Hq'); [simpl; lia| |].
  - apply list.NoDup_cons. split; [|apply (ok_tasks _ _ (proj1 Hq))]. by rewrite (ok_runnable _ _ (proj1 Hq)).
  - intros r. rewrite elem_of_cons, (ok_runnable _ _ (proj1 Hq)), (ok_runnable _ _ (proj1 Hq')), H. tauto.
Qed.

Lemma tasks_known q s : inv q s -> (length (tasks (cfs q)) <= size (all_tasks q))%nat.
Proof.
  intros [Hok _]. rewrite <- size_dom, <- (size_list_to_set (C := gset Z) _ (ok_tasks _ _ Hok)). apply subseteq_size.
  intros p Hp. apply elem_of_list_to_set, (ok_runnable _ _ Hok) in Hp as (t & Ht & _). by apply elem_of_dom_2 in Ht.
Qed.

Lemma total_bound all l : (forall p, wof all p <= max_weight) -> total all l <= max_weight * Z.of_nat (length l).
Proof. intros H. induction l as [|p l IH]; simpl; [done|]. specialize (H p). unfold max_weight in *. lia. Qed.

Lemma good_room k c s m p : good_at k c s m -> room (base c) p.
Proof.
  intros Hg. assert (forall p, wof (all_tasks (base c)) p <= max_weight) as Hw.
  { intros r. unfold wof. destruct (_ !! r) as [t|] eqn:E; [|done]. by destruct (g_tasks _ _ _ _ Hg r t E). }
  unfold room. pose proof (total_bound _ (tasks (cfs (base c))) Hw). specialize (Hw p).
  pose proof (tasks_known _ _ (g_inv _ _ _ _ Hg)). pose proof (g_size _ _ _ _ Hg). unfold max_weight, max_tasks in *. lia.
Qed.

Lemma good_counts k c s m : good_at k c s m -> 0 <= nr_running (cfs (base c)) <= max_tasks /\ 0 <= rt_nr_running (rt c) <= max_tasks.
Proof.
  intros Hg. rewrite (ok_nr _ _ (proj1 (g_inv _ _ _ _ Hg))), (rt_count _ _ (g_rt _ _ _ _ Hg)).
  pose proof (tasks_known _ _ (g_inv _ _ _ _ Hg)). pose proof (members_bound _ _ (g_rt _ _ _ _ Hg)). pose proof (g_size _ _ _ _ Hg). lia.
Qed.

(** * Programs of the fair class *)

(** The tasks [ps] are of the fair class and not the idle task; [d] more tasks are on its queue. *)
Lemma good_base k c s m q s' ps d :
  good_at k c s m -> inv q s' -> stay ps (base c) q -> (forall p, p ∈ ps -> fair (base c) p /\ p <> idle (base c)) ->
  nr_running (cfs q) = nr_running (cfs (base c)) + d -> good_at (k - d) (put_base q c) s' m.
Proof.
  intros [Hi [R1 R2 R3 R4 R5] Hq Hn Hr Ht (ti & ri & Hti & Ho & Hri & Hst) Hs] Hi' Hstay Hps Hd.
  assert (forall p t, fair_class t = false -> all_tasks (base c) !! p = Some t -> p ∉ ps) as Hnf.
  { intros p t Hft Hpt Hp. destruct (Hps p Hp) as [(t' & E & ?) _]. congruence. }
  constructor; cbn [base rt rest nr_all put_base]; try done.
  - constructor; cbn [base rt put_base]; try done; [|by rewrite (stay_size _ _ _ Hstay)].
    intros i p Hp. destruct (R3 i p Hp) as (Hir & t & Hpt & Hpr). split; [done|].
    destruct (stay_task _ _ _ _ _ Hstay Hpt) as (t' & Hpt' & _ & E & _). exists t'. split; [done|congruence].
  - intros p t' Hpt'. destruct (stay_back _ _ _ _ _ Hstay Hpt') as (t & Hpt & _ & _ & Ef & _ & Eo). rewrite (Hq p t Hpt), Ef.
    destruct (fair_class t) eqn:E; [naive_solver|]. rewrite Eo; [tauto|by eapply (Hnf p t)].
  - rewrite Hn. lia.
  - intros p Hp. apply Hr. by apply (stay_known _ _ _ _ Hstay).
  - intros p t' Hpt'. destruct (stay_back _ _ _ _ _ Hstay Hpt') as (t & Hpt & _ & Ep & Ef & Ew & _). rewrite Ep, Ef, Ew.
    destruct Hstay as (_ & -> & _). by apply Ht.
  - destruct (stay_task _ _ _ _ _ Hstay Hti) as (t' & E & _ & _ & Ef & _ & Eo). destruct Hstay as (_ & -> & _). exists t', ri.
    split_and!; try done. rewrite Eo; [done|]. by intros [_ ?]%Hps.
  - by rewrite (stay_size _ _ _ Hstay).
Qed.

Lemma good_base_nil k c s m q s' : good_at k c s m -> inv q s' -> stay [] (base c) q -> good_at k (put_base q c) s' m.
Proof.
  intros Hg Hi' Hstay. replace k with (k - 0) by lia. eapply good_base; [done..| |].
  - by intros p ?%not_elem_of_nil.
  - rewrite (nr_same (base c) s q s'); [lia|apply Hg|done|]. intros p. split; intros (t & Ht & Hf & Ho).
    + destruct (stay_back _ _ _ _ _ Hstay Ht) as (t' & E & _ & _ & F & _ & G). exists t'. rewrite <- F, <- G by apply not_elem_of_nil. done.
    + destruct (stay_task _ _ _ _ _ Hstay Ht) as (t' & E & _ & _ & F & _ & G). exists t'. rewrite F, G by apply not_elem_of_nil. done.
Qed.

Definition here (ps : list Z) (c c' : cpu) : Prop := stay ps (base c) (base c') /\ curr (cfs (base c')) = curr (cfs (base c)).

#[export] Instance here_preorder ps : PreOrder (here ps).
Proof. split; [by intros c|]. intros c1 c2 c3 [A1 A2] [B1 B2]. split; [by transitivity (base c2)|congruence]. Qed.

Lemma here_nil ps c c' : here [] c c' -> here ps c c'.
Proof. intros [H1 H2]. split; [|done]. eapply stay_more; [|done]. by intros p ?%not_elem_of_nil. Qed.

Lemma here_known ps c c' p : here ps c c' -> known (base c') p <-> known (base c) p.
Proof. intros [H _]. by eapply stay_known. Qed.

Lemma here_fair ps c c' p : here ps c c' -> fair (base c') p <-> fair (base c) p.
Proof.
  intros [H _]. split; intros (t & Ht & Hf).
  - destruct (stay_back _ _ _ _ _ H Ht) as (t' & E & _ & _ & F & _). exists t'. by rewrite <- F.
  - destruct (stay_task _ _ _ _ _ H Ht) as (t' & E & _ & _ & F & _). exists t'. by rewrite F.
Qed.

Lemma here_task c c' p t :
  here [] c c' -> all_tasks (base c) !! p = Some t ->
  exists t', all_tasks (base c') !! p = Some t' /\ policy t' = policy t /\ prio t' = prio t /\ fair_class t' = fair_class t /\
    weight (se_load (se t')) = weight (se_load (se t)) /\ on_rq (se t') = on_rq (se t).
Proof.
  intros [H _] Ht. destruct (stay_task _ _ _ _ _ H Ht) as (t' & ? & ? & ? & ? & ? & Ho). exists t'. split_and!; try done.
  apply Ho, not_elem_of_nil.
Qed.

(** A program of the fair class that keeps its queue. *)
Lemma lift_keeps {A} k c s m (e : K A) :
  good_at k c s m -> keeps (base c) s e -> framed [] e ->
  runs (lift e) c (fun v c' => good_at k c' s m /\ here [] c c' /\ rt c' = rt c /\ rest c' = rest c).
Proof.
  intros Hg (v & q & E & Hi & _ & Hs) Hf. pose proof (frame_stay _ _ _ (Hf _ _ _ E)) as Hst. exists v, (put_base q c).
  split; [by apply lift_run|]. split; [by eapply good_base_nil|]. split; [split; [done|]|done]. by destruct Hs as (_ & ? & _).
Qed.

(** An update of the accounting of a task. *)
Lemma account_keeps q s p f :
  inv q s -> known q p -> (forall e, on_rq (f e) = on_rq e /\ se_load (f e) = se_load e /\ vruntime (f e) = vruntime e) -> keeps q s (put_ent p f).
Proof.
  intros Hi Hp Hf. eapply (keeps_quietly []); [done|by intros r ?%not_elem_of_nil|]. apply put_ent_quietly; [done|].
  intros t _. destruct (Hf (se t)) as (-> & -> & ->). auto.
Qed.

Lemma account_framed p f : (forall e, on_rq (f e) = on_rq e /\ se_load (f e) = se_load e) -> framed [] (put_ent p f).
Proof. intros Hf. apply framed_put_ent. intros e. destruct (Hf e) as [-> ->]. auto. Qed.

Lemma good_set_rt k c s m r :
  good_at k c s m -> active r = active (rt c) -> rt_nr_running r = rt_nr_running (rt c) -> good_at k (with_rt r c) s m.
Proof.
  intros [Hi [R1 R2 R3 R4 R5] Hq Hn Hr Ht Hid Hs] Ha Hnr. constructor; try done; [|cbn; congruence].
  constructor; try done; cbn; congruence.
Qed.

Lemma good_timer k c s m b :
  good_at k c s m -> runs (set_timer b) c (fun _ c' => good_at k c' s m /\ here [] c c' /\ rt c' = rt c /\ rest c' = rest c).
Proof. intros [Hi [R1 R2 R3 R4 R5] Hq Hn Hr Ht Hid Hs]. eexists tt, _. split; [reflexivity|]. split; [by constructor|done]. Qed.

Lemma set_rt_runs k c s m f :
  good_at k c s m -> (forall r, active (f r) = active r /\ rt_nr_running (f r) = rt_nr_running r) ->
  runs (set_rt f) c (fun _ c' => good_at k c' s m /\ here [] c c' /\ rt c' = f (rt c) /\ rest c' = rest c).
Proof.
  intros Hg Hf. destruct (Hf (rt c)) as [Ha Hn]. exists tt, (with_rt (f (rt c)) c). split; [done|]. split; [by apply good_set_rt|done].
Qed.

(** The rest of a task but the accounting of the real-time class. *)
Definition rest_view (r : task_rest) :=
  (sig r, static_prio r, normal_prio r, rt_priority r, sched_reset_on_fork r, freezing r, rttime r, pi_prio r).

Definition rests (c c' : cpu) : Prop := forall p, rest_view <$> rest c' !! p = rest_view <$> rest c !! p.

#[export] Instance rests_preorder : PreOrder rests.
Proof. split; [by intros c p|]. intros c1 c2 c3 H1 H2 p. by rewrite H2. Qed.

Lemma rests_eq c c' : rest c' = rest c -> rests c c'.
Proof. intros E p. by rewrite E. Qed.

Lemma rests_some c c' p r :
  rests c c' -> rest c !! p = Some r -> exists r', rest c' !! p = Some r' /\ rest_view r' = rest_view r.
Proof. intros H E. specialize (H p). rewrite E in H. destruct (rest c' !! p) as [r'|]; [|done]. exists r'. split; [done|]. simpl in H. congruence. Qed.

Lemma rest_view_ok r r' : rest_view r' = rest_view r -> rest_ok r -> rest_ok r'.
Proof. unfold rest_view, rest_ok. by intros [= _ -> -> _ _ _ _ ->]. Qed.

(** After a program that keeps the queues; [here] composes. *)
Definition still (k : Z) (s : list Z) (m : Z -> list Z) (c c' : cpu) : Prop := good_at k c' s m /\ here [] c c' /\ rests c c'.

Lemma still_trans k s m c1 c2 c3 : still k s m c1 c2 -> still k s m c2 c3 -> still k s m c1 c3.
Proof. intros (_ & H1 & E1) (G & H2 & E2). split; [done|]. split; by transitivity c2. Qed.

Lemma still_refl k s m c : good_at k c s m -> still k s m c c.
Proof. done. Qed.

Lemma still_bind {A B} k s m c (e : C A) (f : A -> C B) :
  runs e c (fun _ c' => still k s m c c') -> (forall v c', still k s m c c' -> runs (f v) c' (fun _ c'' => still k s m c' c'')) ->
  runs (e ≫= f) c (fun _ c' => still k s m c c').
Proof.
  intros He Hf. eapply runs_then; [exact He|]. intros v c' Hc'. eapply runs_mono; [|by apply (Hf v c')]. intros v' c'' H. exact (still_trans _ _ _ _ _ _ Hc' H).
Qed.

Lemma lift_still {A} k c s m (e : K A) :
  good_at k c s m -> keeps (base c) s e -> framed [] e -> runs (lift e) c (fun _ c' => still k s m c c').
Proof. intros Hg He Hf. eapply runs_mono; [|by apply lift_keeps]. intros v c' (? & ? & _ & E). split_and!; [done..|by apply rests_eq]. Qed.

Lemma set_rt_still k c s m f :
  good_at k c s m -> (forall r, active (f r) = active r /\ rt_nr_running (f r) = rt_nr_running r) ->
  runs (set_rt f) c (fun _ c' => still k s m c c').
Proof. intros Hg Hf. eapply runs_mono; [|by apply set_rt_runs]. intros v c' (? & ? & _ & E). split_and!; [done..|by apply rests_eq]. Qed.

Lemma exceeded_still k c s m : good_at k c s m -> runs sched_rt_runtime_exceeded c (fun _ c' => still k s m c c').
Proof.
  intros Hg. unfold sched_rt_runtime_exceeded. reads. destruct (negb _); [by apply runs_done|].
  reads. destruct (_ <=? _); [by apply runs_done|]. destruct (_ =? RUNTIME_INF); [by apply runs_done|].
  destruct (_ <? _); [|by apply runs_done]. apply still_bind; [by apply set_rt_still|]. intros v c' (Hg' & _). by apply runs_done.
Qed.

Lemma resched_still k c s m p : good_at k c s m -> runs (lift (resched_task p)) c (fun _ c' => still k s m c c').
Proof. intros Hg. apply lift_still; [done|apply resched_keeps, Hg|apply framed_resched]. Qed.

Lemma update_curr_rt_still k c s m :
  good_at k c s m -> known (base c) (rq_curr (base c)) -> runs update_curr_rt c (fun _ c' => still k s m c c').
Proof.
  intros Hg [t Ht]. unfold update_curr_rt. reads. reads.
  destruct (negb (rt_policy _)); [by apply runs_done|]. reads. cbn zeta.
  assert (forall c1 f, still k s m c c1 -> (forall e, on_rq (f e) = on_rq e /\ se_load (f e) = se_load e /\ vruntime (f e) = vruntime e) ->
    runs (lift (put_ent (rq_curr (base c)) f)) c1 (fun _ c2 => still k s m c1 c2)) as Hput.
  { intros c1 f (Hg1 & Hh1 & _) Hf. apply lift_still; [done| |].
    - apply account_keeps; [apply Hg1|apply (here_known _ _ _ _ Hh1); by exists t|done].
    - apply account_framed. intros e. by destruct (Hf e) as (? & ? & _). }
  apply still_bind; [by apply Hput|]. intros _ c1 H1. apply still_bind; [by apply Hput|]. intros _ c2 H2.
  pose proof (proj1 H2) as Hg2. reads. destruct (negb (0 <=? _)); [by apply runs_done|].
  reads. destruct (negb _); [|by apply runs_done]. apply still_bind; [by apply set_rt_still|].
  intros _ c3 (Hg3 & _). apply still_bind; [by apply exceeded_still|]. intros [] c4 (Hg4 & _); [by apply resched_still|by apply runs_done].
Qed.

(** * A task that is not on the queue of the fair class *)

Definition set_all (all : gmap Z task_struct) (q : rq) : rq :=
  Rq (cfs q) (timeline q) all (rq_load q) (clock q) (rq_curr q) (idle q) (need_resched q) (skip_clock_update q).

Lemma wof_other (all : gmap Z task_struct) p t' l : (p ∉ l) -> total (<[p := t']> all) l = total all l.
Proof. intros Hp. apply total_ext. intros r Hr. unfold wof. rewrite lookup_insert_ne; [done|]. by intros ->. Qed.

Lemma known_insert (all : gmap Z task_struct) p t t' r : all !! p = Some t -> is_Some (<[p := t']> all !! r) <-> is_Some (all !! r).
Proof. intros Ht. destruct (decide (r = p)) as [->|]; [rewrite lookup_insert_eq, Ht; split; by eexists|by rewrite lookup_insert_ne]. Qed.

Lemma inv_retask q s p t t' :
  inv q s -> all_tasks q !! p = Some t -> ~ runnable q p -> ~ (fair_class t' = true /\ on_rq (se t') = true) ->
  (p = curr (cfs q) -> fair_class t' = true) ->
  0 <= weight (se_load (se t')) < 4294967295 ->
  inv (set_all (<[p := t']> (all_tasks q)) q) s.
Proof.
  intros [[(T1 & T2 & T3) Hm Hw Hc Hn Hr Hnr Hl Htot Hnx Hla] Hlk] Ht Hoff Hoff' Hcur Hw'.
  assert (p ∉ tasks (cfs q)) as Hpt by (by rewrite Hr). split; [|exact Hlk]. constructor; cbn [set_all cfs all_tasks timeline]; try done.
  - split; [done|]. split; [done|]. eapply Forall_impl; [|exact T3]. intros r Hrk. by apply (known_insert _ _ _ _ _ Ht).
  - intros r Hrk. apply Hm. exact (proj1 (known_insert _ _ _ t' r Ht) Hrk).
  - intros r tr. destruct (decide (r = p)) as [->|]; [rewrite lookup_insert_eq; by intros [= <-]|rewrite lookup_insert_ne by done; apply Hw].
  - destruct Hc as [Hc|(tc & Hc & Hf)]; [by left|right]. unfold fair. cbn. destruct (decide (p = curr (cfs q))) as [->|].
    + exists t'. rewrite lookup_insert_eq. auto.
    + exists tc. by rewrite lookup_insert_ne.
  - intros r. rewrite Hr. unfold runnable. cbn. destruct (decide (r = p)) as [->|]; [|by rewrite lookup_insert_ne].
    rewrite lookup_insert_eq. split; [done|]. intros (tr & [= <-] & ? & ?). by destruct Hoff'.
  - by rewrite wof_other.
  - by rewrite wof_other.
Qed.

Lemma rt_ok_retask c m p t t' :
  rt_ok c m -> all_tasks (base c) !! p = Some t -> (p ∈ members m -> prio t' = prio t) ->
  rt_ok (put_base (set_all (<[p := t']> (all_tasks (base c))) (base c)) c) m.
Proof.
  intros [R1 R2 R3 R4 R5] Ht Hp. constructor; cbn; try done.
  - intros i r Hr. destruct (R3 i r Hr) as (Hi & tr & E & F). split; [done|]. destruct (decide (r = p)) as [->|].
    + exists t'. rewrite lookup_insert_eq. split; [done|]. rewrite Hp; [congruence|]. apply members_spec. by exists i.
    + exists tr. by rewrite lookup_insert_ne.
  - rewrite map_size_insert_Some; [done|]. by exists t.
Qed.

Lemma good_retask k c s m p t t' :
  good_at k c s m -> all_tasks (base c) !! p = Some t -> p <> idle (base c) -> on_rq (se t) = false -> on_rq (se t') = false ->
  (p = curr (cfs (base c)) -> fair_class t' = true) -> 0 <= weight (se_load (se t')) <= max_weight ->
  fair_class t' = negb (rt_prio (prio t')) -> 0 <= prio t' ->
  good_at k (put_base (set_all (<[p := t']> (all_tasks (base c))) (base c)) c) s m.
Proof.
  intros [Hi Hrt Hq Hn Hr Ht (ti & ri & Hti & Ho & Hri & Hst) Hs] Hp Hpi Hoff Hoff' Hcur Hw Hcl Hpr.
  assert (p ∉ members m) as Hpm by (intros [_ ?]%(Hq p t Hp); congruence).
  constructor; cbn [base rt rest nr_all put_base set_all all_tasks cfs idle]; try done.
  - eapply inv_retask; [done|exact Hp| |intros [_ ?]; congruence|done|unfold max_weight in *; lia].
    intros (t1 & E & _ & ?). congruence.
  - by eapply rt_ok_retask.
  - intros r tr. destruct (decide (r = p)) as [->|]; [rewrite lookup_insert_eq; intros [= <-]; split; [done|intros [_ ?]; congruence]|rewrite lookup_insert_ne by done; apply Hq].
  - intros r Hrk. apply Hr. exact (proj1 (known_insert _ _ _ t' r Hp) Hrk).
  - intros r tr. destruct (decide (r = p)) as [->|]; [rewrite lookup_insert_eq; intros [= <-]; split; [lia|done]|rewrite lookup_insert_ne by done; apply Ht].
  - exists ti, ri. by rewrite lookup_insert_ne.
  - rewrite map_size_insert_Some; [done|by exists t].
Qed.

(** * Entering and leaving *)

Lemma clock_still k c s m now : good_at k c s m -> runs (lift (update_rq_clock now)) c (fun _ c' => still k s m c c').
Proof. intros Hg. apply lift_still; [done|apply clock_keeps, Hg|apply framed_update_rq_clock]. Qed.

Definition queued (c : cpu) (p : Z) (b : bool) : Prop := exists t, all_tasks (base c) !! p = Some t /\ on_rq (se t) = b.

Lemma here_queued ps c c' p b : here ps c c' -> (p ∉ ps) -> queued c p b -> queued c' p b.
Proof.
  intros [H _] Hp (t & Ht & Ho). destruct (stay_task _ _ _ _ _ H Ht) as (t' & E & _ & _ & _ & _ & G). exists t'. by rewrite G.
Qed.

(** The real-time task [p] has entered or left; its on_rq follows. *)
Lemma good_rt k c s m c' m' p t b d :
  good_at k c s m -> all_tasks (base c) !! p = Some t -> fair_class t = false -> p <> idle (base c) ->
  rt_ok c' m' -> base c' = base c -> nr_all c' = nr_all c -> rests c c' ->
  (forall r, r ∈ members m' <-> (r = p /\ b = true) \/ (r <> p /\ r ∈ members m)) ->
  rt_nr_running (rt c') = rt_nr_running (rt c) + d ->
  good_at (k - d) (put_base (set_all (<[p := flagged b t]> (all_tasks (base c))) (base c)) c') s m'.
Proof.
  intros [Hi Hrt Hq Hn Hr Ht (ti & ri & Hti & Ho & Hri & Hst) Hs] Hp Hft Hpi Hrt' Hb Hna Hrs Hm Hd.
  destruct (Ht p t Hp) as [Hw [Hcl Hpr]]; [done|].
  constructor; cbn [base rt rest nr_all put_base set_all all_tasks cfs idle]; try done.
  - eapply inv_retask; [done|exact Hp| |intros [? _]; simpl in *; congruence| |].
    + intros (t1 & E & ? & _). congruence.
    + intros ->. destruct (ok_curr _ _ (proj1 Hi)) as [E|(t1 & E & ?)]; [|congruence]. rewrite E in Hp.
      destruct (ok_memory _ _ (proj1 Hi) 0) as [[? _] _]; [by exists t|lia].
    + exact (ok_weights _ _ (proj1 Hi) p t Hp).
  - rewrite <- Hb. eapply rt_ok_retask; [done|by rewrite Hb|done].
  - intros r tr. destruct (decide (r = p)) as [->|].
    + rewrite lookup_insert_eq. intros [= <-]. rewrite Hm. simpl. rewrite Hft. tauto.
    + rewrite lookup_insert_ne by done. intros Hr'. rewrite Hm, <- (Hq r tr Hr'). tauto.
  - rewrite Hna, Hn, Hd. lia.
  - intros r Hrk. destruct (Hr r) as (x & Hx & Hxo); [exact (proj1 (known_insert _ _ _ _ r Hp) Hrk)|].
    destruct (rests_some _ _ _ _ Hrs Hx) as (x' & Hx' & Hv). exists x'. split; [done|]. by eapply rest_view_ok.
  - intros r tr. destruct (decide (r = p)) as [->|]; [rewrite lookup_insert_eq; intros [= <-]; done|rewrite lookup_insert_ne by done; apply Ht].
  - destruct (rests_some _ _ _ _ Hrs Hri) as (x' & Hx' & Hv). exists ti, x'. rewrite lookup_insert_ne by done. split_and!; try done.
    injection Hv as -> _. done.
  - rewrite map_size_insert_Some; [done|by exists t].
Qed.

Lemma put_on_same q p t b : all_tasks q !! p = Some t -> on_rq (se t) = b -> put_ent p (with_on_rq b) q = Some (tt, q).
Proof.
  intros Ht Ho. unfold put_ent. rewrite Ht. simpl. do 2 f_equal. destruct q. simpl in *. f_equal. apply insert_id. rewrite Ht. f_equal.
  subst b. by destruct t as [[]].
Qed.

Lemma put_on_run q p t b :
  all_tasks q !! p = Some t -> put_ent p (with_on_rq b) q = Some (tt, set_all (<[p := flagged b t]> (all_tasks q)) q).
Proof. intros Ht. unfold put_ent. by rewrite Ht. Qed.

Lemma class_read c p t : all_tasks (base c) !! p = Some t -> sched_class_of p c = Some (class_of (base c) p t, c).
Proof. intros Ht. unfold sched_class_of. by rewrite (cbind _ _ _ _ _ (task_read _ _ _ Ht)). Qed.

Lemma class_rt q p t : fair_class t = false -> p <> idle q -> class_of q p t = RtClass.
Proof. intros Hf Hp. unfold class_of. rewrite Hf. by rewrite (proj2 (Z.eqb_neq _ _) Hp). Qed.

Lemma class_fair q p t : fair_class t = true -> class_of q p t = FairClass.
Proof. intros Hf. unfold class_of. by rewrite Hf. Qed.

Lemma flagged_here c c' p t b :
  all_tasks (base c) !! p = Some t -> base c' = set_all (<[p := flagged b t]> (all_tasks (base c))) (base c) -> here [p] c c'.
Proof.
  intros Ht E. unfold here. rewrite E. split; [|done]. split_and!; try done. intros r. cbn [all_tasks set_all]. destruct (decide (r = p)) as [->|]; [|by rewrite lookup_insert_ne].
  rewrite lookup_insert_eq, Ht. simpl. unfold view. simpl. by rewrite bool_decide_eq_true_2 by left.
Qed.

(** [p] enters or leaves with on_rq = [b]. *)
Definition moved (k : Z) (p : Z) (b : bool) (c c' : cpu) : Prop := good k c' /\ here [p] c c' /\ queued c' p b /\ rests c c'.

Lemma put_rest_read c p r f : rest c !! p = Some r ->
  put_rest p f c = Some (tt, Cpu (base c) (rt c) (<[p := f r]> (rest c)) (nr_all c) (nr_uninterruptible c) (nr_switches c) (def_rt_bandwidth c)
                               (sysctl_sched_rt_runtime c)).
Proof. intros E. unfold put_rest. by rewrite E. Qed.

Lemma rests_insert c c' p r r' : rest c !! p = Some r -> rest c' = <[p := r']> (rest c) -> rest_view r' = rest_view r -> rests c c'.
Proof.
  intros Hr E Hv x. rewrite E. destruct (decide (x = p)) as [->|]; [|by rewrite lookup_insert_ne]. rewrite lookup_insert_eq, Hr. simpl. by rewrite Hv.
Qed.

Lemma bystanders_same c c' : bystanders c' = bystanders c -> base c' = base c /\ rest c' = rest c /\ nr_all c' = nr_all c.
Proof. unfold bystanders. by intros [= -> -> -> _]. Qed.

Lemma enqueue_rt_moved k c s m p t flags :
  good_at k c s m -> all_tasks (base c) !! p = Some t -> fair_class t = false -> p <> idle (base c) -> on_rq (se t) = false ->
  runs (_ ← enqueue_task_rt p flags; lift (put_ent p (with_on_rq true))) c (fun _ c' => moved (k - 1) p true c c').
Proof.
  intros Hg Ht Hf Hpi Ho. unfold enqueue_task_rt. destruct (g_rest _ _ _ _ Hg p) as (r & Hr & Hro); [by exists t|].
  destruct (g_tasks _ _ _ _ Hg p t Ht) as [_ [Hcl Hpr]]; [done|].
  assert (0 <= prio t < 100) as Hrange. { rewrite Hf in Hcl. unfold rt_prio, MAX_RT_PRIO in Hcl. destruct (Z.ltb_spec (prio t) 100); [lia|done]. }
  assert (exists c1, (if negb (Z.land flags ENQUEUE_WAKEUP =? 0)
       then put_rest p (fun r => with_rt_se (RtEntity 0 (time_slice (rt_se r))) r) else mret tt) c = Some (tt, c1) /\
    rt c1 = rt c /\ base c1 = base c /\ nr_all c1 = nr_all c /\ rests c c1) as (c1 & E1 & Hrt1 & Hb1 & Hn1 & Hrs1).
  { destruct (negb (Z.land flags ENQUEUE_WAKEUP =? 0)); [|exists c; split_and!; try done; reflexivity]. eexists. split; [by apply put_rest_read|]. split_and!; try done. by eapply rests_insert. }
  destruct (enqueue_entity_run c1 m p t (negb (Z.land flags ENQUEUE_HEAD =? 0))) as (c2 & E2 & Hok2 & Hby & _);
    [by eapply rt_ok_same; [..|apply Hg]|by rewrite Hb1|done|].
  destruct (bystanders_same _ _ Hby) as (Hb2 & Hr2 & Hn2). rewrite Hb1 in Hb2.
  assert (all_tasks (base c2) !! p = Some t) as Ht2 by (by rewrite Hb2).
  eexists tt, _. split.
  { erewrite cbind; [|by rewrite (cbind _ _ _ _ _ E1)]. apply lift_run, put_on_run. exact Ht2. }
  rewrite Hb2. split_and!.
  - exists s, (push (negb (Z.land flags ENQUEUE_HEAD =? 0)) p (prio t) (without p m)). eapply good_rt; [done..| | | |].
    + congruence.
    + transitivity c1; [done|by apply rests_eq].
    + intros x. rewrite push_members by done. tauto.
    + rewrite (rt_count _ _ Hok2), (rt_count _ _ (g_rt _ _ _ _ Hg)), push_length by done.
      rewrite (members_ext (without p m) m); [lia|]. apply without_nobody.
      * rewrite (g_queued _ _ _ _ Hg p t Ht). intros [_ ?]. congruence.
      * intros i x Hx. by destruct (rt_at _ _ (g_rt _ _ _ _ Hg) _ _ Hx).
  - by eapply flagged_here.
  - exists (flagged true t). split; [|done]. cbn. by rewrite lookup_insert_eq.
  - transitivity c1; [done|by apply rests_eq].
Qed.

Lemma dequeue_rt_moved k c s m p t :
  good_at k c s m -> all_tasks (base c) !! p = Some t -> fair_class t = false -> p <> idle (base c) -> on_rq (se t) = true ->
  known (base c) (rq_curr (base c)) ->
  runs (_ ← dequeue_task_rt p; lift (put_ent p (with_on_rq false))) c (fun _ c' => moved (k + 1) p false c c').
Proof.
  intros Hg Ht Hf Hpi Ho Hc. unfold dequeue_task_rt.
  destruct (update_curr_rt_still k c s m Hg Hc) as ([] & c1 & E1 & Hg1 & Hh1 & Hrs1).
  destruct (here_task _ _ _ _ Hh1 Ht) as (t1 & Ht1 & _ & _ & Hf1 & _ & Ho1). rewrite Ho in Ho1.
  rewrite Hf in Hf1. assert (idle (base c1) = idle (base c)) as Hid by apply Hh1.
  destruct (dequeue_entity_run c1 m p (g_rt _ _ _ _ Hg1)) as (c2 & E2 & Hok2 & Hby & _).
  destruct (bystanders_same _ _ Hby) as (Hb2 & Hr2 & Hn2).
  assert (all_tasks (base c2) !! p = Some t1) as Ht2 by (by rewrite Hb2).
  assert (rests c1 c2) as Hrs2 by (by apply rests_eq).
  eexists tt, _. split.
  { erewrite cbind; [|by rewrite (cbind _ _ _ _ _ E1)]. apply lift_run, put_on_run. exact Ht2. }
  assert (p ∈ members m) as Hpm by (by apply (g_queued _ _ _ _ Hg1 p t1 Ht1)).
  rewrite Hb2. split_and!.
  - exists s, (without p m). replace (k + 1) with (k - -1) by lia.
    eapply good_rt; [done|done|done|congruence|done|done|done|done| |].
    + intros x. rewrite without_members. split; [by right|]. intros [[_ ?]|?]; done.
    + rewrite (rt_count _ _ Hok2), (rt_count _ _ (g_rt _ _ _ _ Hg1)). apply members_spec in Hpm as (i & Hi & Hpi').
      rewrite <- (without_members_length m p i); [lia|done|by apply (g_rt _ _ _ _ Hg1)|done|].
      intros j Hj. destruct (rt_at _ _ (g_rt _ _ _ _ Hg1) _ _ Hj) as (_ & x & Hx & <-).
      destruct (rt_at _ _ (g_rt _ _ _ _ Hg1) _ _ Hpi') as (_ & y & Hy & <-). congruence.
  - transitivity c1; [by apply here_nil|by eapply flagged_here].
  - exists (flagged false t1). split; [|done]. cbn. by rewrite lookup_insert_eq.
  - transitivity c1; done.
Qed.

Lemma fair_runnable q p t : all_tasks q !! p = Some t -> fair_class t = true -> runnable q p <-> on_rq (se t) = true.
Proof. intros Ht Hf. split; [intros (t' & E & _ & ?); congruence|]. intros Ho. by exists t. Qed.

(** Whoever else is runnable stays so. *)
Lemma stay_runnable q q' p r : stay [p] q q' -> r <> p -> runnable q' r <-> runnable q r.
Proof.
  intros H Hr. assert (r ∉ [p]) as Hrp by (intros ?%list_elem_of_singleton; done). split; intros (t & Ht & Hf & Ho).
  - destruct (stay_back _ _ _ _ _ H Ht) as (t' & E & _ & _ & F & _ & G). exists t'. by rewrite <- F, <- G.
  - destruct (stay_task _ _ _ _ _ H Ht) as (t' & E & _ & _ & F & _ & G). exists t'. by rewrite F, G.
Qed.

Lemma fair_moved k c s m p q s' (b : bool) :
  good_at k c s m -> fair (base c) p -> p <> idle (base c) -> inv q s' -> frame [p] (base c) q -> curr (cfs q) = curr (cfs (base c)) ->
  (if b then ~ runnable (base c) p /\ runnable q p else runnable (base c) p /\ ~ runnable q p) ->
  moved (if b then k - 1 else k + 1) p b c (put_base q c).
Proof.
  intros Hg Hf Hpi Hi' Hfr Hcu Hb. pose proof (frame_stay _ _ _ Hfr) as Hst. pose proof (g_inv _ _ _ _ Hg) as Hi.
  assert (forall r, r <> p -> runnable q r <-> runnable (base c) r) as Hothers by (intros r Hr; by eapply stay_runnable).
  assert (nr_running (cfs q) = nr_running (cfs (base c)) + if b then 1 else -1) as Hnr.
  { destruct b; destruct Hb as [H1 H2].
    - eapply nr_more; [done..|]. intros r. destruct (decide (r = p)) as [->|Hr]; [tauto|]. rewrite Hothers by done. tauto.
    - assert (nr_running (cfs (base c)) = nr_running (cfs q) + 1) as ->; [|lia]. eapply nr_more; [done..|].
      intros r. destruct (decide (r = p)) as [->|Hr]; [tauto|]. rewrite Hothers by done. tauto. }
  split_and!; [|split; [done|done]| |done].
  - exists s', m. replace (if b then k - 1 else k + 1) with (k - if b then 1 else -1) by (destruct b; lia).
    eapply good_base; [done|done|done| |done]. by intros r ->%list_elem_of_singleton.
  - destruct Hf as (t & Ht & Hf). destruct (stay_task _ _ _ _ _ Hst Ht) as (t' & Ht' & _ & _ & Hf' & _). exists t'. split; [done|].
    destruct b, Hb as [H1 H2]; rewrite (fair_runnable q p t') in H2 by congruence; [done|]. by destruct (on_rq (se t')).
Qed.

Lemma moved_on k p b c c' :
  moved k p b c c' -> lift (put_ent p (with_on_rq b)) c' = Some (tt, c').
Proof. intros (_ & _ & (t & Ht & Ho) & _). apply lift_read. by eapply put_on_same. Qed.

Lemma enqueue_task_moved k c now p flags :
  good k c -> queued c p false -> p <> idle (base c) ->
  runs (enqueue_task now p flags) c (fun _ c' => moved (k - 1) p true c c').
Proof.
  intros (s & m & Hg) (t & Ht & Ho) Hpi. unfold enqueue_task. eapply runs_then; [by apply (clock_still k c s m now)|].
  intros _ c1 (Hg1 & Hh1 & Hr1). destruct (here_task _ _ _ _ Hh1 Ht) as (t1 & Ht1 & _ & _ & _ & _ & Ho1).
  rewrite Ho in Ho1. assert (idle (base c1) = idle (base c)) as Hid by apply Hh1.
  assert (forall c', moved (k - 1) p true c1 c' -> moved (k - 1) p true c c') as Hmv.
  { intros c' (A1 & A2 & A3 & A4). split_and!; [done|transitivity c1; [by apply here_nil|done]|done|by transitivity c1]. }
  unfold enqueue_class. destruct (fair_class t1) eqn:Hf.
  - destruct (enqueue_entity_ok (base c1) s p flags (g_inv _ _ _ _ Hg1)) as (q & s' & E & Hi & _ & Hcu & _ & Hrun).
    { by exists t1. }
    { rewrite (fair_runnable _ _ t1) by done. congruence. }
    { by apply (good_room _ _ _ _ p Hg1). }
    assert (enqueue_task_fair p flags (base c1) = Some (tt, q)) as Ef.
    { unfold enqueue_task_fair. rewrite (kbind _ _ _ _ _ (ent_run _ _ _ Ht1)), Ho1. exact E. }
    assert (moved (k - 1) p true c1 (put_base q c1)) as Hm.
    { eapply (fair_moved k c1 s m p q s' true); [done|by exists t1|congruence|done|by eapply framed_enqueue_task|done|].
      split; [|done]. rewrite (fair_runnable _ _ t1) by done. congruence. }
    exists tt, (put_base q c1). split; [|by apply Hmv].
    erewrite cbind; [by eapply moved_on|]. rewrite (cbind _ _ _ _ _ (class_read _ _ _ Ht1)), class_fair by done. by apply lift_run.
  - destruct (enqueue_rt_moved k c1 s m p t1 flags) as ([] & c2 & E & Hm); [done..|congruence|done|].
    exists tt, c2. split; [|by apply Hmv]. rewrite <- E. unfold mbind, C_bind. rewrite (class_read _ _ _ Ht1), class_rt by congruence. done.
Qed.

Lemma dequeue_task_moved k c now p flags :
  good k c -> queued c p true -> known (base c) (rq_curr (base c)) ->
  runs (dequeue_task now p flags) c (fun _ c' => moved (k + 1) p false c c').
Proof.
  intros (s & m & Hg) (t & Ht & Ho) Hc. unfold dequeue_task. eapply runs_then; [by apply (clock_still k c s m now)|].
  intros _ c1 (Hg1 & Hh1 & Hr1). destruct (here_task _ _ _ _ Hh1 Ht) as (t1 & Ht1 & _ & _ & _ & _ & Ho1).
  rewrite Ho in Ho1.
  assert (p <> idle (base c1)) as Hpi. { intros ->. destruct (g_idle _ _ _ _ Hg1) as (ti & _ & Hti & ? & _). congruence. }
  assert (forall c', moved (k + 1) p false c1 c' -> moved (k + 1) p false c c') as Hmv.
  { intros c' (A1 & A2 & A3 & A4). split_and!; [done|transitivity c1; [by apply here_nil|done]|done|by transitivity c1]. }
  unfold dequeue_class. destruct (fair_class t1) eqn:Hf.
  - assert (runnable (base c1) p) as Hr by (by exists t1).
    destruct (dequeue_entity_ok (base c1) s p flags (g_inv _ _ _ _ Hg1) Hr) as (q & s' & E & Hi & _ & Hcu & _ & Hrun).
    assert (moved (k + 1) p false c1 (put_base q c1)) as Hm.
    { eapply (fair_moved k c1 s m p q s' false); [done|by exists t1|done|done|by eapply framed_dequeue_task|done|done]. }
    exists tt, (put_base q c1). split; [|by apply Hmv].
    erewrite cbind; [by eapply moved_on|]. rewrite (cbind _ _ _ _ _ (class_read _ _ _ Ht1)), class_fair by done. by apply lift_run.
  - destruct (dequeue_rt_moved k c1 s m p t1) as ([] & c2 & E & Hm); [done..| |].
    { rewrite (here_known _ _ _ _ Hh1). destruct Hh1 as [(-> & _) _]. done. }
    exists tt, c2. split; [|by apply Hmv]. rewrite <- E. unfold mbind, C_bind. rewrite (class_read _ _ _ Ht1), class_rt by congruence. done.
Qed.
