(* ===== verification/SchedCoreOps.v ===== *)
(** The operations of the scheduler core keep its invariant. *)

From S2P Require Import Prelude.
From stdpp Require Import gmap sorting.
From Stdlib Require Import Lia.
From S2P Require Import Task.
From S2P Require Import Rbtree.
From S2P Require Import Sched SchedTime SchedTree SchedInv SchedOps SchedPick SchedSpec SchedFrame.
From S2P Require Import SchedRt.
From S2P Require Import SchedRtQueue.
From S2P Require Import SchedCore SchedCoreInv.
Open Scope Z_scope.

(** * Activation *)

Lemma set_nr_un_good k c f : good k c -> runs (set_nr_uninterruptible f) c (fun _ c' => good k c' /\ here [] c c' /\ rests c c').
Proof.
  intros (s & m & [Hi [R1 R2 R3 R4 R5] Hq Hn Hr Ht Hid Hs]). eexists tt, _. split; [reflexivity|]. split; [|split; [done|by apply rests_eq]].
  exists s, m. by constructor.
Qed.

(** nr_running catches up. *)
Lemma set_nr_good k c f : good k c -> (forall n, f n = u32 (n - k)) -> runs (set_nr_all f) c (fun _ c' => good 0 c' /\ here [] c c' /\ rests c c').
Proof.
  intros (s & m & Hg) Hf. pose proof (good_counts _ _ _ _ Hg) as Hc. destruct Hg as [Hi [R1 R2 R3 R4 R5] Hq Hn Hr Ht Hid Hs].
  eexists tt, _. split; [reflexivity|]. split; [|split; [done|by apply rests_eq]]. exists s, m. constructor; try done. cbn. rewrite Hf, Hn.
  rewrite u32_small; [lia|]. unfold is_u32, max_tasks in *. lia.
Qed.

Lemma moved_trans k p b c c1 c' : here [] c c1 -> rests c c1 -> moved k p b c1 c' -> moved k p b c c'.
Proof. intros Hh Hr (A1 & A2 & A3 & A4). split_and!; [done|transitivity c1; [by apply here_nil|done]|done|by transitivity c1]. Qed.

Lemma moved_after k k' p b c c1 c' : moved k p b c c1 -> good k' c' -> here [] c1 c' -> rests c1 c' -> moved k' p b c c'.
Proof.
  intros (A1 & A2 & A3 & A4) Hg Hh Hr. split_and!; [done|transitivity c1; [done|by apply here_nil]| |by transitivity c1].
  eapply here_queued; [done|apply not_elem_of_nil|done].
Qed.

Lemma known_rest k c p : good k c -> known (base c) p -> exists r, rest c !! p = Some r /\ rest_ok r.
Proof. intros (s & m & Hg) Hp. by apply (g_rest _ _ _ _ Hg). Qed.

Lemma queued_known c p b : queued c p b -> known (base c) p.
Proof. intros (t & Ht & _). by exists t. Qed.

Lemma uninterruptible_good k c r f :
  good k c -> runs (if task_contributes_to_load r then set_nr_uninterruptible f else mret tt) c (fun _ c' => good k c' /\ here [] c c' /\ rests c c').
Proof. intros Hg. destruct (task_contributes_to_load r); [by apply set_nr_un_good|]. apply runs_done. split_and!; [done|reflexivity|reflexivity]. Qed.

Lemma activate_moved c now p flags :
  good 0 c -> queued c p false -> p <> idle (base c) -> runs (activate_task now p flags) c (fun _ c' => moved 0 p true c c').
Proof.
  intros Hg Hq Hpi. unfold activate_task. destruct (known_rest _ _ _ Hg (queued_known _ _ _ Hq)) as (r & Hr & _). reads.
  eapply runs_then; [by apply uninterruptible_good|]. intros _ c1 (Hg1 & Hh1 & Hr1).
  eapply runs_then; [apply (enqueue_task_moved 0); [done|eapply here_queued; [done|apply not_elem_of_nil|done]|]|].
  { assert (idle (base c1) = idle (base c)) as -> by apply Hh1. done. }
  intros [] c2 H2. eapply runs_mono; [|apply (set_nr_good (0 - 1)); [apply H2|intros n; f_equal; lia]]. intros v c3 (Hg3 & Hh3 & Hr3).
  eapply moved_trans; [done|done|]. by eapply moved_after.
Qed.

Lemma curr_known_stay ps q q' : stay ps q q' -> known q (rq_curr q) -> known q' (rq_curr q').
Proof. intros H Hk. rewrite (stay_known _ _ _ _ H). destruct H as (-> & _). done. Qed.

Lemma deactivate_moved c now p flags :
  good 0 c -> queued c p true -> known (base c) (rq_curr (base c)) -> runs (deactivate_task now p flags) c (fun _ c' => moved 0 p false c c').
Proof.
  intros Hg Hq Hc. unfold deactivate_task. destruct (known_rest _ _ _ Hg (queued_known _ _ _ Hq)) as (r & Hr & _). reads.
  eapply runs_then; [by apply uninterruptible_good|]. intros _ c1 (Hg1 & Hh1 & Hr1).
  eapply runs_then; [apply (dequeue_task_moved 0); [done|eapply here_queued; [done|apply not_elem_of_nil|done]|]|].
  { eapply curr_known_stay; [apply Hh1|done]. }
  intros [] c2 H2. eapply runs_mono; [|apply (set_nr_good (0 + 1)); [apply H2|done]]. intros v c3 (Hg3 & Hh3 & Hr3).
  eapply moved_trans; [done|done|]. by eapply moved_after.
Qed.

(** * The current task of the classes *)

(** cfs_rq->curr is [v] now. *)
Definition curr_to (k v : Z) (c c' : cpu) : Prop := good k c' /\ stay [] (base c) (base c') /\ curr (cfs (base c')) = v /\ rests c c'.

Lemma still_curr k s m c c' : still k s m c c' -> curr_to k (curr (cfs (base c))) c c'.
Proof. intros (Hg & [Hst Hcu] & Hr). split_and!; [by exists s, m|done..]. Qed.

Lemma still_runs {A} k s m c (e : C A) v :
  curr (cfs (base c)) = v -> runs e c (fun _ c' => still k s m c c') -> runs e c (fun _ c' => curr_to k v c c').
Proof. intros <-. apply runs_mono. intros _ c'. apply still_curr. Qed.

Lemma account_still k c s m p f :
  good_at k c s m -> known (base c) p -> (forall e, on_rq (f e) = on_rq e /\ se_load (f e) = se_load e /\ vruntime (f e) = vruntime e) ->
  runs (lift (put_ent p f)) c (fun _ c' => still k s m c c').
Proof.
  intros Hg Hp Hf. apply lift_still; [done|apply account_keeps; [apply Hg|done|done]|apply account_framed]. intros e. by destruct (Hf e) as (? & ? & _).
Qed.

(** What cfs_rq->curr is while [p] runs.  The idle task, which is of the fair class until
    init_idle_bootup_task, is never there. *)
Definition fair_curr (q : rq) (p : Z) (t : task_struct) : Z := if fair_class t && negb (p =? idle q) then p else 0.

Lemma fair_curr_other q p t : p <> idle q -> fair_curr q p t = if fair_class t then p else 0.
Proof. intros Hp. unfold fair_curr. rewrite (proj2 (Z.eqb_neq _ _) Hp). by rewrite andb_true_r. Qed.

Lemma runnable_not_idle k c s m p : good_at k c s m -> runnable (base c) p -> p <> idle (base c).
Proof. intros Hg (t & Ht & _ & Ho) ->. destruct (g_idle _ _ _ _ Hg) as (ti & _ & Hti & ? & _). congruence. Qed.

(** A task that is not on the queue and that the fair class does not know is put back nowhere. *)
Lemma put_prev_none q p t :
  all_tasks q !! p = Some t -> on_rq (se t) = false -> curr (cfs q) = 0 -> put_prev_entity p q = Some (tt, q).
Proof.
  intros Ht Ho Hc. unfold put_prev_entity. rewrite (kbind _ _ _ _ _ (ent_run _ _ _ Ht)), Ho, (kbind _ _ q tt q eq_refl).
  rewrite (kbind _ _ _ _ _ (ent_run _ _ _ Ht)), Ho, (kbind _ _ q tt q eq_refl). unfold set_cfs, put_curr. rewrite <- Hc. by destruct q as [[]].
Qed.

Lemma put_prev_runs k c p t :
  good k c -> all_tasks (base c) !! p = Some t -> known (base c) (rq_curr (base c)) -> curr (cfs (base c)) = fair_curr (base c) p t ->
  runs (put_prev_class p) c (fun _ c' => curr_to k 0 c c').
Proof.
  intros (s & m & Hg) Ht Hk Hcu. unfold put_prev_class. eapply runs_read; [by apply class_read|]. unfold class_of, fair_curr in *.
  destruct (fair_class t) eqn:Hf; [destruct (Z.eqb_spec p (idle (base c))) as [Hpi|Hpi]|destruct (_ =? _)]; cbn [negb andb] in Hcu.
  - destruct (g_idle _ _ _ _ Hg) as (ti & _ & Hti & Hoi & _). rewrite <- Hpi, Ht in Hti. injection Hti as <-. exists tt, c. split.
    + apply lift_read. unfold put_prev_task_fair. by apply (put_prev_none _ _ t).
    + split_and!; [by exists s, m|reflexivity|done|reflexivity].
  - destruct (put_prev_ok (base c) s p (g_inv _ _ _ _ Hg) Hcu) as (q & s' & E & Hi & _ & Hc' & _); [by exists t|].
    assert (stay [] (base c) q) as Hst by (apply frame_stay; by eapply framed_put_prev).
    exists tt, (put_base q c). split; [by apply lift_run|]. split_and!; [exists s', m; by eapply good_base_nil|done|done|by apply rests_eq].
  - apply runs_done. split_and!; [by exists s, m|reflexivity|done|reflexivity].
  - apply (still_runs _ s m _ _ _ Hcu).
    unfold put_prev_task_rt. apply still_bind; [by apply update_curr_rt_still|]. intros _ c1 (Hg1 & Hh1 & _).
    apply account_still; [done| |done]. apply (here_known _ _ _ _ Hh1). by exists t.
Qed.

Lemma set_curr_runs k c t :
  good k c -> all_tasks (base c) !! rq_curr (base c) = Some t -> curr (cfs (base c)) = 0 ->
  runs set_curr_class c (fun _ c' => curr_to k (if fair_class t then rq_curr (base c) else 0) c c').
Proof.
  intros (s & m & Hg) Ht Hcu. unfold set_curr_class. reads. eapply runs_read; [by apply class_read|]. unfold class_of.
  destruct (fair_class t) eqn:Hf; [|destruct (_ =? _)].
  - destruct (set_next_ok (base c) s (rq_curr (base c)) (g_inv _ _ _ _ Hg) Hcu) as (q & s' & E & Hi & _ & Hc' & _); [by exists t|].
    assert (set_curr_task_fair (base c) = Some (tt, q)) as Es by (unfold set_curr_task_fair; by rewrite (kbind _ _ _ _ _ eq_refl)).
    assert (stay [] (base c) q) as Hst by (apply frame_stay; by eapply framed_set_curr).
    exists tt, (put_base q c). split; [by apply lift_run|]. split_and!; [exists s', m; by eapply good_base_nil|done|done|by apply rests_eq].
  - apply runs_done. split_and!; [by exists s, m|reflexivity|done|reflexivity].
  - apply (still_runs _ s m _ _ _ Hcu).
    unfold set_curr_task_rt. do 2 reads. apply account_still; [done|by exists t|done].
Qed.

(** * Picking *)

Definition rt_waits (c : cpu) (m : Z -> list Z) : Prop := members m <> [] /\ rt_throttled (rt c) = 0.

Lemma rt_waits_dec c m : rt_waits c m \/ ~ rt_waits c m.
Proof.
  unfold rt_waits. destruct (decide (members m = [])); [right; tauto|]. destruct (decide (rt_throttled (rt c) = 0)); [by left|right; tauto].
Qed.

Lemma pick_rt_runs c s m :
  good_at 0 c s m ->
  runs pick_next_task_rt c (fun p c' => still 0 s m c c' /\ rt c' = rt c /\
    ((p = 0 /\ ~ rt_waits c m /\ c' = c) \/ (rt_waits c m /\ p <> 0 /\ list.head (members m) = Some p))).
Proof.
  intros Hg. unfold pick_next_task_rt, _pick_next_task_rt. reads. pose proof (rt_count _ _ (g_rt _ _ _ _ Hg)) as Hn. unfold rt_waits.
  destruct (Z.eqb_spec (rt_nr_running (rt c)) 0) as [E|E].
  { apply runs_done. split; [split_and!; [done|reflexivity|reflexivity]|]. split; [done|]. left. split_and!; try done. intros [H _]. rewrite E in Hn. by destruct (members m). }
  destruct (Z.eqb_spec (rt_throttled (rt c)) 0) as [Et|Et]; cbn [negb].
  2: { apply runs_done. split; [split_and!; [done|reflexivity|reflexivity]|]. split; [done|]. left. tauto. }
  destruct (members m) as [|p l] eqn:Em; [simpl in Hn; lia|].
  eapply runs_read; [by eapply pick_entity_run; [apply Hg|]|]. reads.
  assert (known (base c) p) as Hp.
  { assert (p ∈ members m) as Hpm by (rewrite Em; left). apply members_spec in Hpm as (i & _ & Hpm).
    destruct (rt_at _ _ (g_rt _ _ _ _ Hg) _ _ Hpm) as (_ & t & Ht & _). by exists t. }
  eapply runs_then; [eapply (lift_keeps 0 c s m); [done|by apply account_keeps; [apply Hg|..]|by apply account_framed]|].
  intros [] c1 (H1 & H2 & H3 & H4). apply runs_done. split; [split_and!; [done..|by apply rests_eq]|]. split; [done|]. right.
  split; [done|]. split; [|done]. eapply known_pos; [apply (g_inv _ _ _ _ Hg)|done].
Qed.

Lemma pick_fair_runs c s m :
  good_at 0 c s m -> curr (cfs (base c)) = 0 ->
  runs (lift pick_next_task_fair) c (fun p c' => curr_to 0 p c c' /\ rt c' = rt c /\
    ((p = 0 /\ s = [] /\ c' = c) \/ (p <> 0 /\ p ∈ s /\ runnable (base c) p))).
Proof.
  intros Hg Hcu. pose proof (g_inv _ _ _ _ Hg) as Hi.
  destruct (pick_next_task_ok (base c) s Hi Hcu) as (p & q & s' & E & Hi' & _ & Hc' & _ & Hnil & Hne).
  assert (stay [] (base c) q) as Hst by (apply frame_stay; by eapply framed_pick).
  exists p, (put_base q c). split; [by apply lift_run|].
  split; [split_and!; [exists s', m; by eapply good_base_nil|done|done|by apply rests_eq]|]. split; [done|]. destruct (decide (s = [])) as [->|Hs].
  - left. split; [by apply Hnil|]. split; [done|].
    assert (nr_running (cfs (base c)) = 0) as Hz.
    { rewrite (ok_nr _ _ (proj1 Hi)). destruct (tasks (cfs (base c))) as [|x l] eqn:Et; [done|].
      assert (x ∈ tasks (cfs (base c))) as Hx by (rewrite Et; left). exfalso. apply (not_elem_of_nil x). apply (proj2 Hi).
      split; [done|]. rewrite Hcu. eapply known_pos; [apply Hi|]. apply runnable_known. by apply (ok_runnable _ _ (proj1 Hi)). }
    unfold pick_next_task_fair in E. rewrite (kbind _ _ (base c) (nr_running (cfs (base c))) (base c) eq_refl), Hz in E. injection E as _ <-.
    by rewrite put_base_same.
  - right. destruct (proj1 Hne Hs) as [Hp _]. assert (runnable (base c) p) as Hr by (apply (ok_runnable _ _ (proj1 Hi)); by apply (proj2 Hi)).
    split_and!; [|done|done]. eapply known_pos; [apply Hi|by apply runnable_known].
Qed.

(** What is picked: the first task of the highest priority, unless the real-time tasks are throttled;
    otherwise the choice of the fair class; otherwise the idle task. *)
Definition picked (c : cpu) (s : list Z) (m : Z -> list Z) (p : Z) : Prop :=
  (rt_waits c m /\ list.head (members m) = Some p) \/
  (~ rt_waits c m /\ p ∈ s /\ runnable (base c) p) \/
  (~ rt_waits c m /\ s = [] /\ p = idle (base c)).

Lemma idle_known k c s m : good_at k c s m -> idle (base c) <> 0.
Proof.
  intros Hg. destruct (g_idle _ _ _ _ Hg) as (t & _ & Ht & _). eapply known_pos; [apply (g_inv _ _ _ _ Hg)|by exists t].
Qed.

#[export] Instance fair_decision q p : Decision (fair q p).
Proof.
  unfold fair. destruct (all_tasks q !! p) as [t|] eqn:E; [destruct (fair_class t) eqn:F|].
  - left. by exists t.
  - right. intros (t' & ? & ?). congruence.
  - right. intros (t' & ? & ?). congruence.
Defined.

Definition chosen (c : cpu) (s : list Z) (m : Z -> list Z) (p : Z) (c' : cpu) : Prop :=
  picked c s m p /\ curr_to 0 (if bool_decide (fair (base c) p /\ p <> idle (base c)) then p else 0) c c' /\ rt c' = rt c.

Lemma head_not_fair k c s m p : good_at k c s m -> list.head (members m) = Some p -> ~ fair (base c) p.
Proof.
  intros Hg Hh (t & Ht & Hf). assert (p ∈ members m) as Hp by (destruct (members m); [done|]; injection Hh as ->; left).
  apply (g_queued _ _ _ _ Hg p t Ht) in Hp as [? _]. congruence.
Qed.

Lemma pick_from_runs c s m :
  good_at 0 c s m -> curr (cfs (base c)) = 0 -> runs (pick_from classes) c (chosen c s m).
Proof.
  intros Hg Hcu. cbn [classes pick_from pick_class]. eapply runs_then; [by apply (pick_rt_runs c s m)|].
  intros p c1 (Hs1 & Hrt1 & [(-> & Hno & ->)|(Hw & Hp & Hh)]); cbn [Z.eqb negb].
  2: { rewrite (proj2 (Z.eqb_neq _ _) Hp). apply runs_done. split; [by left|]. rewrite bool_decide_eq_false_2 by (intros [? _]; by eapply head_not_fair).
       apply still_curr in Hs1. rewrite Hcu in Hs1. done. }
  eapply runs_then; [by apply (pick_fair_runs c s m)|]. intros p c1 (H1 & Hrt2 & [(-> & -> & ->)|(Hp & Hps & Hr)]); cbn [Z.eqb negb].
  2: { rewrite (proj2 (Z.eqb_neq _ _) Hp). apply runs_done. split; [right; by left|].
       rewrite bool_decide_eq_true_2; [done|]. split; [by apply runnable_fair|by eapply runnable_not_idle]. }
  reads. rewrite (proj2 (Z.eqb_neq _ _) (idle_known _ _ _ _ Hg)). apply runs_done. split; [by right; right|].
  rewrite bool_decide_eq_false_2; [done|]. by intros [_ ?].
Qed.

Lemma pick_next_runs c s m :
  good_at 0 c s m -> curr (cfs (base c)) = 0 -> runs pick_next_task c (chosen c s m).
Proof.
  intros Hg Hcu. unfold pick_next_task. reads. reads. destruct (Z.eqb_spec (nr_all c) (nr_running (cfs (base c)))) as [E|]; [|by apply pick_from_runs].
  assert (members m = []) as Hm.
  { rewrite (g_nr _ _ _ _ Hg), (rt_count _ _ (g_rt _ _ _ _ Hg)) in E. destruct (members m); [done|]. simpl in E. lia. }
  eapply runs_then; [by apply (pick_fair_runs c s m)|]. intros p c1 (H1 & Hrt2 & [(-> & -> & ->)|(Hp & Hps & Hr)]); cbn [Z.eqb negb].
  - by apply pick_from_runs.
  - rewrite (proj2 (Z.eqb_neq _ _) Hp). apply runs_done. split; [right; left; unfold rt_waits; tauto|].
    rewrite bool_decide_eq_true_2; [done|]. split; [by apply runnable_fair|by eapply runnable_not_idle].
Qed.

(** * The state between operations *)

(** The current task is on its queue, unless it is the idle task, and the fair class knows it. *)
Definition settled (c : cpu) : Prop :=
  exists t, all_tasks (base c) !! rq_curr (base c) = Some t /\ (rq_curr (base c) = idle (base c) \/ on_rq (se t) = true) /\
    curr (cfs (base c)) = fair_curr (base c) (rq_curr (base c)) t.

Definition sched_ok (c : cpu) : Prop := good 0 c /\ settled c.

Lemma settled_known c : settled c -> known (base c) (rq_curr (base c)).
Proof. intros (t & Ht & _). by exists t. Qed.

Lemma here_settled ps c c' : here ps c c' -> (rq_curr (base c) ∉ ps) -> settled c -> settled c'.
Proof.
  intros [Hst Hcu] Hps (t & Ht & Ho & Hc). destruct (stay_task _ _ _ _ _ Hst Ht) as (t' & Ht' & _ & _ & Hf & _ & Ho').
  destruct Hst as (Er & Ei & _). exists t'. unfold fair_curr in *. rewrite Er, Ei, Hf, Hcu, Ho' by done. done.
Qed.

Lemma still_ok s m c c' : still 0 s m c c' -> settled c -> sched_ok c'.
Proof. intros (Hg & Hh & _) Hs. split; [by exists s, m|]. eapply here_settled; [done|apply not_elem_of_nil|done]. Qed.

Lemma off_not_curr c p : settled c -> p <> idle (base c) -> queued c p false -> p <> rq_curr (base c).
Proof. intros (t & Ht & [Hi|Ho] & _) Hp (t' & Ht' & Ho') ->; congruence. Qed.

Lemma put_rest_good k c s m p r f :
  good_at k c s m -> rest c !! p = Some r -> rest_ok (f r) -> (p = idle (base c) -> tstate (sig (f r)) = 0) ->
  runs (put_rest p f) c (fun _ c' => good_at k c' s m /\ base c' = base c /\ rt c' = rt c /\ rest c' = <[p := f r]> (rest c)).
Proof.
  intros [Hi [R1 R2 R3 R4 R5] Hq Hn Hr Ht (ti & ri & Hti & Ho & Hri & Hst) Hs] Hpr Hro Hsig. eexists tt, _.
  split; [by apply put_rest_read|]. split; [|done]. constructor; cbn; try done.
  - intros x Hx. destruct (decide (x = p)) as [->|]; [exists (f r); by rewrite lookup_insert_eq|]. rewrite lookup_insert_ne by done. by apply Hr.
  - destruct (decide (p = idle (base c))) as [E|].
    + exists ti, (f r). rewrite E at 1. rewrite lookup_insert_eq. split_and!; try done. by apply Hsig.
    + exists ti, ri. by rewrite lookup_insert_ne.
Qed.

Lemma clear_still k c s m p : good_at k c s m -> runs (lift (clear_tsk_need_resched p)) c (fun _ c' => still k s m c c').
Proof.
  intros Hg. eexists tt, _. split; [reflexivity|]. split_and!; [|split; [split_and!; done|done]|by apply rests_eq].
  eapply good_base_nil; [done| |done]. eapply (quiet_inv [] (base c)); [by split_and!|apply Hg].
Qed.

Lemma skip_still k c s m b : good_at k c s m -> runs (lift (set_skip b)) c (fun _ c' => still k s m c c').
Proof. intros Hg. apply lift_still; [done|apply skip_keeps, Hg|apply framed_set_skip]. Qed.

(** * schedule *)

Lemma put_prev_task_runs c now t :
  good 0 c -> all_tasks (base c) !! rq_curr (base c) = Some t -> curr (cfs (base c)) = fair_curr (base c) (rq_curr (base c)) t ->
  runs (put_prev_task now (rq_curr (base c))) c (fun _ c' => curr_to 0 0 c c').
Proof.
  intros (s & m & Hg) Ht Hcu. unfold put_prev_task. set (p := rq_curr (base c)) in *. reads.
  eapply (runs_then _ _ _ (fun _ c' => still 0 s m c c')).
  { destruct (on_rq (se t)); [by apply clock_still|]. apply runs_done. split_and!; [done|reflexivity|reflexivity]. }
  intros [] c1 H1. eapply runs_then; [apply (skip_still 0 c1 s m); apply H1|]. intros [] c2 H2.
  pose proof (still_trans _ _ _ _ _ _ H1 H2) as (Hg2 & Hh2 & Hr2). destruct (here_task _ _ _ _ Hh2 Ht) as (t2 & Ht2 & _ & _ & Hf2 & _ & _).
  assert (rq_curr (base c2) = p) as Hp2 by apply Hh2.
  eapply runs_mono; [|apply (put_prev_runs 0 c2 p t2); [by exists s, m|done|rewrite Hp2; by exists t2|]].
  - intros v c' (A1 & A2 & A3 & A4). split_and!; [done|transitivity (base c2); [apply Hh2|done]|done|by transitivity c2].
  - destruct Hh2 as [(_ & Ei & _) ->]. unfold fair_curr. by rewrite Hf2, Ei.
Qed.

(** What the current task is after schedule. *)
Definition best (c : cpu) : Prop :=
  (concat (queue (active (rt c))) <> [] /\ rt_throttled (rt c) = 0 /\ list.head (concat (queue (active (rt c)))) = Some (rq_curr (base c))) \/
  ((concat (queue (active (rt c))) = [] \/ rt_throttled (rt c) <> 0) /\
   (runnable (base c) (rq_curr (base c)) \/ ((forall p, ~ runnable (base c) p) /\ rq_curr (base c) = idle (base c)))).

Lemma members_queue c m : rt_ok c m -> concat (queue (active (rt c))) = members m.
Proof. intros [[_ _ Hq _ _] _ _ _ _]. by rewrite Hq. Qed.

(** The task that was picked becomes the current one. *)
Lemma switch_ok c s m p c1 c2 q :
  good_at 0 c s m -> curr (cfs (base c)) = 0 -> chosen c s m p c1 -> good 0 c2 -> rt c2 = rt c1 -> base c2 = q ->
  q = Rq (cfs (base c1)) (timeline (base c1)) (all_tasks (base c1)) (rq_load (base c1)) (clock (base c1)) p (idle (base c1))
        (need_resched (base c1)) (skip_clock_update (base c1)) ->
  sched_ok c2 /\ best c2.
Proof.
  intros Hg Hcu (Hp & (Hg1 & Hst & Hc1 & _) & Hrt1) Hg2 Hrt2 Hb2 ->. destruct Hg1 as (s1 & m1 & Hg1).
  pose proof (g_rt _ _ _ _ Hg) as Hrt. pose proof (g_inv _ _ _ _ Hg) as Hi.
  assert (forall r, runnable (base c1) r <-> runnable (base c) r) as Hrun.
  { intros r. split; intros (t & Ht & Hf & Ho).
    - destruct (stay_back _ _ _ _ _ Hst Ht) as (t' & E & _ & _ & F & _ & G). exists t'. rewrite <- F, <- G by apply not_elem_of_nil. done.
    - destruct (stay_task _ _ _ _ _ Hst Ht) as (t' & E & _ & _ & F & _ & G). exists t'. rewrite F, G by apply not_elem_of_nil. done. }
  assert (exists t, all_tasks (base c) !! p = Some t /\ (p = idle (base c) \/ on_rq (se t) = true)) as (t & Ht & Ho).
  { destruct Hp as [(_ & Hh)|[(_ & _ & (t & ? & _ & ?))|(_ & _ & ->)]].
    - assert (p ∈ members m) as Hpm by (destruct (members m); [done|]; injection Hh as ->; left).
      pose proof Hpm as (i & _ & Hpi)%members_spec. destruct (rt_at _ _ Hrt _ _ Hpi) as (_ & t & Ht & _). exists t. split; [done|].
      right. by apply (g_queued _ _ _ _ Hg p t Ht) in Hpm as [_ ?].
    - exists t. auto.
    - destruct (g_idle _ _ _ _ Hg) as (t & _ & Ht & _). exists t. auto. }
  destruct (stay_task _ _ _ _ _ Hst Ht) as (t1 & Ht1 & _ & _ & Hf1 & _ & Ho1). assert (idle (base c1) = idle (base c)) as Hid by apply Hst.
  split; [split; [done|]|].
  - exists t1. rewrite Hb2. cbn. split; [done|]. split; [rewrite Hid, Ho1 by apply not_elem_of_nil; done|]. unfold fair_curr. cbn. rewrite Hc1, Hf1, Hid.
    destruct (fair_class t) eqn:Hf; [destruct (Z.eqb_spec p (idle (base c)))|]; cbn [negb andb].
    + by rewrite bool_decide_eq_false_2 by (by intros [_ ?]).
    + rewrite bool_decide_eq_true_2; [done|]. split; [by exists t|done].
    + rewrite bool_decide_eq_false_2; [done|]. intros [(t' & ? & ?) _]. congruence.
  - unfold best. rewrite Hb2, Hrt2, Hrt1, (members_queue _ _ Hrt). cbn. unfold picked, rt_waits in Hp.
    destruct Hp as [([? ?] & Hh)|[(Hno & _ & Hr)|(Hno & -> & ->)]]; [left; done|right..].
    + split; [destruct (decide (members m = [])); tauto|]. left. by apply Hrun.
    + split; [destruct (decide (members m = [])); tauto|]. right. split; [|done]. intros r Hr.
      assert (runnable (base c) r) as Hr' by (by apply Hrun). apply (not_elem_of_nil r). apply (proj2 Hi). split; [by apply (ok_runnable _ _ (proj1 Hi))|].
      rewrite Hcu. eapply known_pos; [apply Hi|by apply runnable_known].
Qed.

Lemma good_bump k c s m n q :
  good_at k c s m -> q = base c \/ (exists p, q = Rq (cfs (base c)) (timeline (base c)) (all_tasks (base c)) (rq_load (base c)) (clock (base c)) p
    (idle (base c)) (need_resched (base c)) (skip_clock_update (base c))) ->
  good_at k (Cpu q (rt c) (rest c) (nr_all c) (nr_uninterruptible c) n (def_rt_bandwidth c) (sysctl_sched_rt_runtime c)) s m.
Proof.
  intros [[[H1 H2 H3 H4 H5 H6 H7 H8 H9 H10 H11] Hl] [R1 R2 R3 R4 R5] Hq Hn Hr Ht Hid Hs] [->|[p ->]]; constructor; try done.
Qed.

(** The first half of schedule: the previous task sleeps, if it wants to. *)
Lemma schedule_sleep c now (active : bool) r :
  sched_ok c -> rest c !! rq_curr (base c) = Some r ->
  runs (if negb (tstate (sig r) =? 0) && negb active then
          if signal_pending_state (tstate (sig r)) (sig r)
          then put_rest (rq_curr (base c)) (fun r => with_sig (set_task_state TASK_RUNNING (sig r)) r)
          else deactivate_task now (rq_curr (base c)) DEQUEUE_SLEEP
        else mret tt) c (fun _ c' => good 0 c' /\ here [rq_curr (base c)] c c').
Proof.
  intros [Hgd Hs] Hr. pose proof Hgd as (s & m & Hg). destruct (Z.eqb_spec (tstate (sig r)) 0) as [E|E]; cbn [negb andb].
  { apply runs_done. split; [done|reflexivity]. }
  destruct (negb active); [|apply runs_done; split; [done|reflexivity]].
  assert (rq_curr (base c) <> idle (base c)) as Hne.
  { intros Hi. destruct (g_idle _ _ _ _ Hg) as (_ & ri & _ & _ & Hri & Hz). rewrite <- Hi in Hri. congruence. }
  destruct (signal_pending_state _ _).
  - destruct (g_rest _ _ _ _ Hg (rq_curr (base c))) as (r' & Hr' & Hro); [by apply settled_known|]. rewrite Hr in Hr'. injection Hr' as <-.
    eapply runs_mono; [|by eapply (put_rest_good 0 c s m)]. intros v c' (Hg' & Hb & _). split; [by exists s, m|].
    unfold here. by rewrite Hb.
  - eapply runs_mono; [|apply (deactivate_moved c now); [done| |by apply settled_known]].
    + by intros v c' (? & ? & _).
    + destruct Hs as (t & Ht & [?|Ho] & _); [done|]. by exists t.
Qed.

Lemma schedule_ok c now active :
  sched_ok c -> runs (schedule now active) c (fun p c' => sched_ok c' /\ best c' /\ rq_curr (base c') = p).
Proof.
  intros Hok. unfold schedule. reads. set (p := rq_curr (base c)). pose proof Hok as [(s & m & Hg) Hs].
  eapply runs_then; [by apply (clear_still 0 c s m)|]. intros [] c1 H1. pose proof (still_ok _ _ _ _ H1 Hs) as Hok1.
  destruct H1 as (Hg1 & Hh1 & _). assert (rq_curr (base c1) = p) as Hp1 by apply Hh1.
  destruct (g_rest _ _ _ _ Hg1 p) as (r & Hr & _); [rewrite <- Hp1; apply settled_known, Hok1|]. reads. cbn zeta.
  rewrite <- Hp1 in Hr |- *. eapply runs_then; [by apply (schedule_sleep c1 now active r)|]. intros [] c2 (Hg2 & Hh2).
  destruct Hok1 as [_ (t & Ht & _ & Hcu)]. destruct (stay_task _ _ _ _ _ (proj1 Hh2) Ht) as (t2 & Ht2 & _ & _ & Hf2 & _).
  assert (rq_curr (base c2) = rq_curr (base c1)) as Hp2 by apply Hh2. rewrite <- Hp2 in Ht2 |- *.
  eapply runs_then; [apply (put_prev_task_runs c2 now t2); [done|done|]|].
  { destruct Hh2 as [(_ & Ei & _) ->]. unfold fair_curr in *. by rewrite Hcu, Hp2, Hf2, Ei. }
  intros [] c3 ((s3 & m3 & Hg3) & Hst3 & Hcu3 & _). eapply runs_then; [by apply (pick_next_runs c3 s3 m3)|]. intros next c4 Hch.
  pose proof Hch as (_ & ((s4 & m4 & Hg4) & Hst4 & _) & _).
  assert (rq_curr (base c4) = rq_curr (base c2)) as Hp4 by (destruct Hst3 as (<- & _); apply Hst4).
  destruct (Z.eqb_spec (rq_curr (base c2)) next) as [E|E]; cbn [negb].
  - apply runs_done. destruct (switch_ok c3 s3 m3 next c4 c4 (base c4) Hg3 Hcu3 Hch) as [? ?]; try done; [by exists s4, m4| |].
    + rewrite <- E, <- Hp4. by destruct (base c4).
    + split_and!; [done..|congruence].
  - eexists next, _. split; [reflexivity|].
    eassert (good 0 _) as Hg5 by (exists s4, m4; eapply (good_bump 0 c4 s4 m4); [done|right; by exists next]).
    destruct (switch_ok c3 s3 m3 next c4 _ _ Hg3 Hcu3 Hch Hg5 eq_refl eq_refl eq_refl) as [? ?]. split_and!; [eassumption..|done].
Qed.

(** * Waking *)

Lemma preempt_still k c s m p fork :
  good_at k c s m -> known (base c) p -> known (base c) (rq_curr (base c)) -> runs (lift (check_preempt_curr p fork)) c (fun _ c' => still k s m c c').
Proof. intros Hg Hp Hc. apply lift_still; [done|apply check_preempt_curr_ok; [apply Hg|done|done]|apply framed_check_preempt_curr]. Qed.

Lemma moved_ok c c' p b : moved 0 p b c c' -> settled c -> p <> rq_curr (base c) -> sched_ok c'.
Proof.
  intros (Hg & Hh & _ & _) Hs Hp. split; [done|]. eapply here_settled; [done| |done]. intros ?%list_elem_of_singleton. congruence.
Qed.

Lemma queued_dec c p : known (base c) p -> exists b, queued c p b.
Proof. intros [t Ht]. exists (on_rq (se t)). by exists t. Qed.

Lemma wake_up_new_ok c now p :
  sched_ok c -> queued c p false -> p <> idle (base c) -> runs (wake_up_new_task now p) c (fun _ c' => sched_ok c' /\ queued c' p true).
Proof.
  intros [Hg Hs] Hq Hp. unfold wake_up_new_task. eapply runs_then; [by apply activate_moved|]. intros [] c1 H1.
  pose proof (moved_ok _ _ _ _ H1 Hs (off_not_curr _ _ Hs Hp Hq)) as [(s1 & m1 & Hg1) Hs1]. destruct H1 as (_ & _ & Hq1 & _).
  eapply runs_mono; [|apply (preempt_still 0 c1 s1 m1); [done|by eapply queued_known|by apply settled_known]].
  intros v c2 H2. split; [exact (still_ok _ _ _ _ H2 Hs1)|]. eapply here_queued; [apply H2|apply not_elem_of_nil|done].
Qed.

Lemma set_state_ok c p st :
  sched_ok c -> known (base c) p -> (p = idle (base c) -> st = 0) ->
  runs (set_state p st) c (fun _ c' => sched_ok c' /\ base c' = base c /\ exists r, rest c' !! p = Some r /\ tstate (sig r) = st).
Proof.
  intros [(s & m & Hg) Hs] Hp Hi. unfold set_state. destruct (g_rest _ _ _ _ Hg p Hp) as (r & Hr & Hro).
  eapply runs_mono; [|by eapply (put_rest_good 0 c s m)]. intros v c' (Hg' & Hb & _ & Er). split_and!; [split; [by exists s, m|]|done|].
  - unfold settled. by rewrite Hb.
  - eexists. rewrite Er, lookup_insert_eq. by split.
Qed.

Definition woken (c : cpu) (p state : Z) (success : bool) (c' : cpu) : Prop :=
  exists r, rest c !! p = Some r /\
  if Z.land (tstate (sig r)) state =? 0 then success = false /\ c' = c
  else queued c' p true /\ (success = true <-> queued c p false) /\ exists r', rest c' !! p = Some r' /\ tstate (sig r') = TASK_RUNNING.

Lemma try_to_wake_up_ok c now p state :
  sched_ok c -> known (base c) p -> p <> idle (base c) ->
  runs (try_to_wake_up now p state) c (fun success c' => sched_ok c' /\ woken c p state success c').
Proof.
  intros Hok Hk Hp. pose proof Hok as [Hgd Hs]. destruct (known_rest _ _ _ Hgd Hk) as (r & Hr & _). unfold try_to_wake_up, woken. reads.
  destruct (_ =? 0) eqn:Est; [apply runs_done; split; [done|]; exists r; by rewrite Est|]. pose proof Hk as [t Ht]. reads.
  eapply (runs_then _ _ _ (fun success c' => sched_ok c' /\ stay [p] (base c) (base c') /\ queued c' p true /\ (success = true <-> queued c p false))).
  { destruct (on_rq (se t)) eqn:Ho.
    - apply runs_done. split_and!; [done|reflexivity|by exists t|]. split; [done|]. intros (t' & ? & ?). congruence.
    - assert (queued c p false) as Hq by (by exists t). eapply runs_then; [by apply activate_moved|]. intros [] c1 H1. apply runs_done.
      split; [eapply moved_ok; [done|done|by apply off_not_curr]|]. destruct H1 as (_ & Hh & ? & _). split_and!; [apply Hh|done|done]. }
  intros success c1 (Hok1 & Hst1 & Hq1 & Hsuc). pose proof Hok1 as [(s1 & m1 & Hg1) Hs1].
  eapply runs_then; [apply (preempt_still 0 c1 s1 m1); [done|by eapply queued_known|by apply settled_known]|]. intros [] c2 H2.
  pose proof (still_ok _ _ _ _ H2 Hs1) as Hok2. assert (queued c2 p true) as Hq2 by (eapply here_queued; [apply H2|apply not_elem_of_nil|done]).
  eapply runs_then; [apply (set_state_ok c2 p TASK_RUNNING); [done|by eapply queued_known|done]|]. intros [] c3 (Hok3 & Hb3 & Hr3).
  apply runs_done. split; [done|]. exists r. rewrite Est. split; [done|]. split_and!; [|apply Hsuc..|done]. unfold queued. by rewrite Hb3.
Qed.

(** * Ticks *)

Lemma good_requeue k c s m p head c' m' :
  good_at k c s m -> requeue_rt_entity p head c = Some (tt, c') -> rt_ok c' m' -> bystanders c' = bystanders c ->
  (forall r, r ∈ members m' <-> r ∈ members m) -> length (members m') = length (members m) -> still k s m' c c'.
Proof.
  intros [Hi Hrt Hq Hn Hr Ht Hid Hs] _ Hrt' Hby Hin Hlen. destruct (bystanders_same _ _ Hby) as (Hb & Hre & Hna).
  split_and!; [|unfold here; by rewrite Hb|by apply rests_eq]. constructor; rewrite ?Hb, ?Hre, ?Hna; try done.
  - intros r t Hrt''. rewrite Hin. by apply Hq.
  - rewrite Hn, (rt_count _ _ Hrt), (rt_count _ _ Hrt'), Hlen. done.
Qed.

Lemma requeue_still k c s m p head :
  good_at k c s m -> runs (requeue_task_rt p head) c (fun _ c' => exists m', still k s m' c c').
Proof.
  intros Hg. pose proof (g_rt _ _ _ _ Hg) as Hrt. destruct (requeue_run c m p head Hrt) as (c' & E & Hok & Hby & _). exists tt, c'. split; [done|].
  destruct (all_tasks (base c) !! p) as [t|] eqn:Ht; [|exists m; eapply good_requeue; [done..|intros; tauto|done]].
  case_bool_decide as Hp; [|exists m; eapply good_requeue; [done..|intros; tauto|done]]. eexists. eapply good_requeue; [done..| |].
  - pose proof Hp as (i & Hi & Hpi)%members_spec. pose proof (members_level _ _ _ _ Hrt Ht _ Hpi) as ->.
    intros r. rewrite push_members by done. destruct (decide (r = p)) as [->|]; tauto.
  - apply members_spec in Hp as (i & Hi & Hpi). pose proof (members_level _ _ _ _ Hrt Ht _ Hpi) as ->. rewrite push_length by done.
    apply (without_members_length m p (prio t)); [done|apply Hrt|done|]. intros j Hj. exact (members_level _ _ _ _ Hrt Ht _ Hj).
Qed.

Lemma put_rt_se_still k c s m p f :
  good_at k c s m -> known (base c) p -> (forall r, rest_view (f r) = rest_view r) -> runs (put_rest p f) c (fun _ c' => still k s m c c').
Proof.
  intros Hg Hp Hf. destruct (g_rest _ _ _ _ Hg p Hp) as (r & Hr & Hro).
  eapply runs_mono; [|eapply (put_rest_good k c s m p r f Hg Hr)].
  - intros v c' (Hg' & Hb & _ & Er). split_and!; [done|unfold here; by rewrite Hb|by eapply rests_insert].
  - exact (rest_view_ok _ _ (Hf r) Hro).
  - intros ->. destruct (g_idle _ _ _ _ Hg) as (_ & ri & _ & _ & Hri & Hz). rewrite Hr in Hri. injection Hri as <-.
    specialize (Hf r). injection Hf as -> _. done.
Qed.

Lemma watchdog_still k c s m p : good_at k c s m -> known (base c) p -> runs (watchdog p) c (fun _ c' => still k s m c c').
Proof.
  intros Hg Hp. unfold watchdog. destruct (g_rest _ _ _ _ Hg p Hp) as (r & Hr & _). reads. destruct (rttime r) as [[soft hard]|]; [|apply runs_done; split_and!; [done|reflexivity|reflexivity]].
  destruct (negb _); [|apply runs_done; split_and!; [done|reflexivity|reflexivity]]. apply still_bind; [by apply put_rt_se_still|]. intros _ c1 (Hg1 & Hh1 & _).
  assert (known (base c1) p) as Hp1 by (by apply (here_known _ _ _ _ Hh1)). destruct (g_rest _ _ _ _ Hg1 p Hp1) as (r1 & Hr1 & _). reads.
  destruct (_ <? _); [|apply runs_done; split_and!; [done|reflexivity|reflexivity]]. pose proof Hp1 as [t Ht]. reads. by apply put_rt_se_still.
Qed.

(** The invariant stays, and so do the tasks; the lists may be in another order. *)
Definition keeping (k : Z) (c c' : cpu) : Prop := good k c' /\ here [] c c'.

Lemma still_keeping {A} k s m c (e : C A) : runs e c (fun _ c' => still k s m c c') -> runs e c (fun _ c' => keeping k c c').
Proof. apply runs_mono. intros _ c' (? & ? & _). split; [by exists s, m|done]. Qed.

Lemma keeping_ret {A} k c (v : A) : good k c -> runs (mret v) c (fun _ c' => keeping k c c').
Proof. intros Hg. apply runs_done. split; [done|reflexivity]. Qed.

Lemma keeping_bind {A B} k c (e : C A) (f : A -> C B) :
  runs e c (fun _ c' => keeping k c c') -> (forall v c', keeping k c c' -> runs (f v) c' (fun _ c'' => keeping k c' c'')) ->
  runs (e ≫= f) c (fun _ c' => keeping k c c').
Proof.
  intros He Hf. eapply runs_then; [exact He|]. intros v c' Hc'. eapply runs_mono; [|by apply (Hf v c')]. intros u c'' [Hg Hh]. split; [done|].
  transitivity c'; [apply Hc'|done].
Qed.

Lemma keeping_ok c c' : keeping 0 c c' -> settled c -> sched_ok c'.
Proof. intros [Hg Hh] Hs. split; [done|]. eapply here_settled; [done|apply not_elem_of_nil|done]. Qed.

Lemma resched_keeping k c p : good k c -> runs (lift (resched_task p)) c (fun _ c' => keeping k c c').
Proof. intros (s & m & Hg). by eapply still_keeping, resched_still. Qed.

Lemma put_rt_se_keeping k c p f :
  good k c -> known (base c) p -> (forall r, rest_view (f r) = rest_view r) -> runs (put_rest p f) c (fun _ c' => keeping k c c').
Proof. intros (s & m & Hg) Hp Hf. by eapply still_keeping, put_rt_se_still. Qed.

Lemma requeue_keeping k c p head : good k c -> runs (requeue_task_rt p head) c (fun _ c' => keeping k c c').
Proof. intros (s & m & Hg). eapply runs_mono; [|by apply (requeue_still k c s m)]. intros v c' (m' & ? & ? & _). split; [by exists s, m'|done]. Qed.

Lemma tick_rt_keeping k c p :
  good k c -> known (base c) p -> known (base c) (rq_curr (base c)) -> runs (task_tick_rt p) c (fun _ c' => keeping k c c').
Proof.
  intros (s & m & Hg) Hp Hc. unfold task_tick_rt. apply keeping_bind; [by eapply still_keeping, update_curr_rt_still|]. intros _ c1 [Hg1 Hh1].
  assert (forall c2, here [] c1 c2 -> known (base c2) p) as Hk.
  { intros c2 H2. apply (here_known [] c c2 p); [by transitivity c1|done]. }
  apply keeping_bind; [destruct Hg1 as (s1 & m1 & Hg1); eapply still_keeping, watchdog_still; [done|by apply Hk]|]. intros _ c2 [Hg2 Hh2].
  pose proof (Hk c2 Hh2) as Hp2. pose proof Hp2 as [t2 Ht2]. reads. destruct (negb _); [by apply keeping_ret|].
  apply keeping_bind; [by apply put_rt_se_keeping|]. intros _ c3 [Hg3 Hh3]. assert (known (base c3) p) as Hp3 by (apply Hk; by transitivity c2).
  destruct (known_rest _ _ _ Hg3 Hp3) as (r3 & Hr3 & _). reads. destruct (negb _); [by apply keeping_ret|].
  apply keeping_bind; [by apply put_rt_se_keeping|]. intros _ c4 [Hg4 Hh4]. reads. destruct (existsb _ _); [|by apply keeping_ret].
  apply keeping_bind; [by apply requeue_keeping|]. intros _ c5 [Hg5 _]. by apply resched_keeping.
Qed.

Lemma scheduler_tick_ok c now : sched_ok c -> runs (scheduler_tick now) c (fun _ c' => sched_ok c').
Proof.
  intros [(s & m & Hg) Hs]. unfold scheduler_tick. reads. set (p := rq_curr (base c)).
  eapply runs_mono; [intros v c' H; exact (keeping_ok c c' H Hs)|].
  apply keeping_bind; [by eapply still_keeping, clock_still|]. intros _ c1 [Hgd1 Hh1].
  pose proof (keeping_ok c c1 (conj Hgd1 Hh1) Hs) as [_ (t & Ht & Ho & Hcu)]. assert (rq_curr (base c1) = p) as Hp by apply Hh1.
  rewrite <- Hp. unfold task_tick_class. eapply runs_read; [by apply class_read|]. unfold class_of. destruct Hgd1 as (s1 & m1 & Hg1).
  destruct (fair_class t) eqn:Hf; [|destruct (_ =? _)].
  - eapply still_keeping, lift_still; [done|apply tick_ok; [apply Hg1|by exists t|]|apply framed_tick]. right. by apply (good_room _ _ _ _ _ Hg1).
  - apply keeping_ret. by exists s1, m1.
  - apply tick_rt_keeping; [by exists s1, m1|by exists t|by exists t].
Qed.

Lemma sched_yield_ok c now : sched_ok c -> rq_curr (base c) <> idle (base c) -> runs (sched_yield now) c (fun _ c' => sched_ok c').
Proof.
  intros [(s & m & Hg) Hs] Hne. unfold sched_yield. reads. pose proof Hs as (t & Ht & Ho & Hcu).
  eapply runs_mono; [intros v c' H; exact (keeping_ok c c' H Hs)|]. eapply runs_read; [by apply class_read|].
  destruct (fair_class t) eqn:Hf; [rewrite class_fair by done|rewrite class_rt by done].
  - eapply still_keeping, lift_still; [done|apply yield_ok; [apply Hg|by exists t|by rewrite Hcu, fair_curr_other, Hf]|apply framed_yield].
  - unfold yield_task_rt. reads. apply requeue_keeping. by exists s, m.
Qed.

(** * The period timer *)

Lemma period_keeping k c overrun : good k c -> runs (do_sched_rt_period_timer overrun) c (fun _ c' => keeping k c c').
Proof.
  intros Hgd. unfold do_sched_rt_period_timer. do 2 reads. destruct (negb (0 <=? _) || _); [by apply keeping_ret|]. reads.
  destruct (negb _); [|by apply keeping_ret]. cbn zeta. pose proof Hgd as (s & m & Hg).
  apply keeping_bind; [eapply still_keeping; by apply set_rt_still|]. intros _ c1 [(s1 & m1 & Hg1) _]. reads.
  apply keeping_bind; [destruct (_ && _); [eapply still_keeping; by apply set_rt_still|apply keeping_ret; by exists s1, m1]|].
  intros _ c2 [Hg2 _]. reads. apply keeping_bind; [|intros _ c3 [Hg3 _]; by apply keeping_ret].
  destruct (_ && _); [|by apply keeping_ret]. unfold sched_rt_rq_enqueue. reads. destruct (negb _); [|by apply keeping_ret]. reads. by apply resched_keeping.
Qed.

Lemma period_timer_ok c overruns : sched_ok c -> runs (sched_rt_period_timer overruns) c (fun _ c' => sched_ok c').
Proof.
  intros [Hgd Hs]. eapply runs_mono; [intros v c' H; exact (keeping_ok c c' H Hs)|]. unfold sched_rt_period_timer. apply keeping_bind.
  - generalize false as idle. revert c Hgd Hs. induction overruns as [|o overruns IH]; intros c Hgd Hs idle; cbn [period_loop]; [by apply keeping_ret|].
    apply keeping_bind; [by apply period_keeping|]. intros idle' c1 H1. apply IH; [apply H1|]. by apply (keeping_ok c).
  - intros idle c1 [(s1 & m1 & Hg1) _]. eapply still_keeping, runs_mono; [|by apply (good_timer 0 c1 s1 m1)].
    intros v c2 (? & ? & _ & E). split_and!; [done..|by apply rests_eq].
Qed.
