(* ===== verification/SchedCoreChange.v ===== *)
(** A task changes its nice value, its priority, its policy or its class while the scheduler runs. *)

From S2P Require Import Prelude.
From stdpp Require Import gmap sorting.
From Stdlib Require Import Lia.
From S2P Require Import Task.
From S2P Require Import Rbtree.
From S2P Require Import Sched SchedTime SchedTree SchedInv SchedOps SchedPick SchedSpec SchedFrame.
From S2P Require Import SchedRt.
From S2P Require Import SchedRtQueue.
From S2P Require Import SchedCore SchedCoreInv SchedCoreOps.
Open Scope Z_scope.

(** * The other tasks *)

Definition seat (t : task_struct) : bool * bool := (fair_class t, on_rq (se t)).

Definition others (p : Z) (q q' : rq) : Prop :=
  rq_curr q' = rq_curr q /\ idle q' = idle q /\ forall r, r <> p -> seat <$> all_tasks q' !! r = seat <$> all_tasks q !! r.

#[export] Instance others_preorder p : PreOrder (others p).
Proof.
  split; [by intros q|]. intros q1 q2 q3 (A1 & A2 & A3) (B1 & B2 & B3). split_and!; [congruence|congruence|]. intros r Hr. by rewrite B3, A3.
Qed.

Lemma stay_others ps p q q' : stay ps q q' -> (forall r, r ∈ ps -> r = p) -> others p q q'.
Proof.
  intros (H1 & H2 & H3) Hps. split_and!; [done..|]. intros r Hr. specialize (H3 r). unfold view, seat in *.
  destruct (all_tasks q !! r), (all_tasks q' !! r); simpl in *; try done. injection H3 as _ _ Ef _ Eo.
  rewrite !bool_decide_eq_false_2 in Eo by (intros Hc; by apply Hr, Hps). congruence.
Qed.

Lemma here_others p c c' : here [p] c c' -> others p (base c) (base c').
Proof. intros [H _]. eapply stay_others; [done|]. by intros r ->%list_elem_of_singleton. Qed.

Lemma keep_others p c c' : stay [] (base c) (base c') -> others p (base c) (base c').
Proof. intros H. eapply stay_others; [done|]. by intros r ?%not_elem_of_nil. Qed.

Lemma set_all_others p t' q : others p q (set_all (<[p := t']> (all_tasks q)) q).
Proof. split_and!; [done..|]. intros r Hr. cbn. by rewrite lookup_insert_ne. Qed.

(** The current task has its place: it is another one, or [p] is back. *)
Lemma others_settled p c c' :
  settled c -> others p (base c) (base c') -> rq_curr (base c) <> p -> curr (cfs (base c')) = curr (cfs (base c)) -> settled c'.
Proof.
  intros (t & Ht & Ho & Hcu) (E1 & E2 & E3) Hp Ec. specialize (E3 _ Hp). rewrite Ht in E3. unfold settled. rewrite E1, E2, Ec.
  destruct (all_tasks (base c') !! rq_curr (base c)) as [t'|]; [|done]. unfold seat in E3. simpl in E3. injection E3 as Ef Eo.
  exists t'. unfold fair_curr in *. rewrite Ef, Eo, E2. done.
Qed.

Lemma back_settled p c' t' :
  rq_curr (base c') = p -> p <> idle (base c') -> all_tasks (base c') !! p = Some t' -> on_rq (se t') = true ->
  curr (cfs (base c')) = (if fair_class t' then p else 0) -> settled c'.
Proof. intros Hc Hp Ht Ho Hcu. exists t'. rewrite Hc, fair_curr_other by done. auto. Qed.

(** * Weights *)

Lemma tables_bound k w i : prio_to_weight !! k = Some w -> prio_to_wmult !! k = Some i -> 0 < w <= max_weight.
Proof.
  intros Hw Hi. split; [by destruct (prio_tables k w i Hw Hi)|].
  assert (Forall (fun w => w <= max_weight) prio_to_weight) as Hall by (repeat constructor; done). rewrite Forall_lookup in Hall. by eapply Hall.
Qed.

Lemma set_load_weight_ok rt pol sp :
  100 <= sp < 140 -> exists lw, set_load_weight rt pol sp = Some lw /\ 0 <= weight lw <= max_weight.
Proof.
  intros Hs. unfold set_load_weight. destruct rt; [eexists; split; [done|]; by vm_compute|].
  destruct (pol =? SCHED_IDLE); [eexists; split; [done|]; by vm_compute|].
  unfold rd. unfold MAX_RT_PRIO in *. rewrite bool_decide_eq_true_2 by lia.
  destruct (lookup_lt_is_Some_2 prio_to_weight (Z.to_nat (sp - 100))) as [w Hw]; [change (length prio_to_weight) with 40%nat; lia|].
  destruct (lookup_lt_is_Some_2 prio_to_wmult (Z.to_nat (sp - 100))) as [i Hi]; [change (length prio_to_wmult) with 40%nat; lia|].
  rewrite Hw. cbn [mbind option_bind]. rewrite Hi. cbn [mbind option_bind]. eexists. split; [done|].
  pose proof (tables_bound _ _ _ Hw Hi). cbn. lia.
Qed.

(** * A task that is off the queue *)

Record off (k p : Z) (t : task_struct) (c0 c : cpu) : Prop := Off {
  off_good : good k c;
  off_task : all_tasks (base c) !! p = Some t;
  off_rq : on_rq (se t) = false;
  off_others : others p (base c0) (base c)
}.

(** What cfs_rq->curr has to be when [p] is back with [t]. *)
Definition curr_due (p : Z) (t : task_struct) (c0 : cpu) : Z :=
  if bool_decide (rq_curr (base c0) = p) then if fair_class t then p else 0 else curr (cfs (base c0)).

Lemma finish c0 p c' t' :
  settled c0 -> p <> idle (base c0) -> good 0 c' -> others p (base c0) (base c') -> all_tasks (base c') !! p = Some t' ->
  (rq_curr (base c0) = p -> on_rq (se t') = true) -> curr (cfs (base c')) = curr_due p t' c0 -> sched_ok c'.
Proof.
  intros Hs Hpi Hg Ho Ht Hon Hcu. split; [done|]. unfold curr_due in Hcu. case_bool_decide as Hp; [|by eapply others_settled].
  pose proof Ho as (Er & Ei & _). eapply back_settled; [by rewrite Er|by rewrite Ei|done|by apply Hon|done].
Qed.

Lemma leave c now p t :
  sched_ok c -> all_tasks (base c) !! p = Some t -> p <> idle (base c) ->
  runs (if on_rq (se t) then dequeue_task now p 0 else mret tt) c (fun _ c' => exists t1,
    off (if on_rq (se t) then 1 else 0) p t1 c c' /\ curr (cfs (base c')) = curr (cfs (base c)) /\
    policy t1 = policy t /\ prio t1 = prio t /\ fair_class t1 = fair_class t /\ weight (se_load (se t1)) = weight (se_load (se t)) /\ rests c c').
Proof.
  intros [Hg Hs] Ht Hp. destruct (on_rq (se t)) eqn:Ho.
  - eapply runs_mono; [|apply (dequeue_task_moved 0); [done|by exists t|by apply settled_known]].
    intros v c' (Hg' & Hh & (t1 & Ht1 & Ho1) & Hr). destruct (stay_task _ _ _ _ _ (proj1 Hh) Ht) as (t2 & Ht2 & ? & ? & ? & ? & _).
    rewrite Ht1 in Ht2. injection Ht2 as <-. exists t1. split; [constructor; try done; by apply here_others|]. split; [apply Hh|done].
  - apply runs_done. exists t. split; [by constructor|]. split_and!; try done; reflexivity.
Qed.

(** Another task structure in its place. *)
Lemma off_put k p t t' c0 c e :
  off k p t c0 c -> p <> idle (base c) -> e (base c) = Some (tt, set_all (<[p := t']> (all_tasks (base c))) (base c)) ->
  on_rq (se t') = false -> (p = curr (cfs (base c)) -> fair_class t' = true) -> 0 <= weight (se_load (se t')) <= max_weight ->
  fair_class t' = negb (rt_prio (prio t')) -> 0 <= prio t' ->
  runs (lift e) c (fun _ c' => off k p t' c0 c' /\ curr (cfs (base c')) = curr (cfs (base c)) /\ rest c' = rest c /\ idle (base c') = idle (base c)).
Proof.
  intros [(s & m & Hg) Ht Ho Hot] Hp E Ho' Hc Hw Hcl Hpr. eexists tt, _. split; [by apply lift_run|]. split; [|done]. constructor.
  - exists s, m. by eapply good_retask.
  - cbn. by rewrite lookup_insert_eq.
  - done.
  - transitivity (base c); [done|]. apply set_all_others.
Qed.

Lemma off_rest k p t c0 c r f :
  off k p t c0 c -> p <> idle (base c) -> rest c !! p = Some r -> rest_ok (f r) ->
  runs (put_rest p f) c (fun _ c' => off k p t c0 c' /\ base c' = base c /\ rest c' !! p = Some (f r) /\ forall x, x <> p -> rest c' !! x = rest c !! x).
Proof.
  intros [(s & m & Hg) Ht Ho Hot] Hp Hr Hro. eapply runs_mono; [|by apply (put_rest_good k c s m p r f)].
  intros v c' (Hg' & Hb & _ & Er). split; [|split_and!; [done|by rewrite Er, lookup_insert_eq|intros x Hx; by rewrite Er, lookup_insert_ne]]. constructor; rewrite ?Hb; try done. by exists s, m.
Qed.

Lemma put_task_run p t f q : all_tasks q !! p = Some t -> put_task p f q = Some (tt, set_all (<[p := f t]> (all_tasks q)) q).
Proof. intros Ht. unfold put_task. by rewrite Ht. Qed.

Lemma put_ent_run p t f q : all_tasks q !! p = Some t ->
  put_ent p f q = Some (tt, set_all (<[p := with_se (f (se t)) t]> (all_tasks q)) q).
Proof. intros Ht. unfold put_ent. by rewrite Ht. Qed.

(** The class of the current task of the fair class. *)
Lemma curr_fair k c p t : good k c -> all_tasks (base c) !! p = Some t -> p = curr (cfs (base c)) -> fair_class t = true.
Proof.
  intros (s & m & Hg) Ht ->. destruct (ok_curr _ _ (proj1 (g_inv _ _ _ _ Hg))) as [E|(t' & ? & ?)]; [|congruence].
  exfalso. eapply (known_pos (base c) s 0); [apply (g_inv _ _ _ _ Hg)| |done]. rewrite <- E. by exists t.
Qed.

Lemma off_facts k p t c0 c : off k p t c0 c -> p <> idle (base c) ->
  0 <= weight (se_load (se t)) <= max_weight /\
  fair_class t = negb (rt_prio (prio t)) /\ 0 <= prio t /\ (p = curr (cfs (base c)) -> fair_class t = true).
Proof.
  intros [Hgd Ht Ho Hot] Hp. pose proof Hgd as (s & m & Hg). destruct (g_tasks _ _ _ _ Hg p t Ht) as [Hw Hcl].
  pose proof (ok_weights _ _ (proj1 (g_inv _ _ _ _ Hg)) p t Ht). destruct (Hcl Hp). split_and!; try done; [lia|]. by eapply curr_fair.
Qed.

Lemma off_rest_ok k p t c0 c : off k p t c0 c -> exists r, rest c !! p = Some r /\ rest_ok r.
Proof. intros [Hgd Ht _ _]. eapply known_rest; [done|by exists t]. Qed.

(** set_load_weight(p). *)
Lemma off_weight k p t c0 c :
  off k p t c0 c -> p <> idle (base c) ->
  runs (set_task_weight p) c (fun _ c' => exists lw, off k p (with_se (with_load lw (se t)) t) c0 c' /\
    curr (cfs (base c')) = curr (cfs (base c)) /\ rest c' = rest c /\ idle (base c') = idle (base c)).
Proof.
  intros Hoff Hp. pose proof Hoff as [Hgd Ht Ho Hot]. destruct (off_rest_ok _ _ _ _ _ Hoff) as (r & Hr & Hro & _).
  unfold set_task_weight. reads. reads. destruct (set_load_weight_ok (rt_policy (policy t)) (policy t) (static_prio r) Hro) as (lw & Elw & Hw).
  eapply runs_read; [by rewrite Elw|]. destruct (off_facts _ _ _ _ _ Hoff Hp) as (_ & Hcl & Hpr & Hcu).
  eapply runs_mono; [|apply (off_put k p t (with_se (with_load lw (se t)) t) c0 c); try done; by apply put_ent_run]. intros v c' (? & ? & ? & ?). by exists lw.
Qed.

Lemma curr_due_same p t t' c0 :
  settled c0 -> all_tasks (base c0) !! p = Some t -> p <> idle (base c0) -> fair_class t' = fair_class t -> curr_due p t' c0 = curr (cfs (base c0)).
Proof.
  intros (tc & Htc & _ & Hcu) Ht Hi Hf. unfold curr_due. case_bool_decide as Hp; [|done]. rewrite Hcu, Hp, Hf, fair_curr_other by done.
  rewrite Hp in Htc. by simplify_eq.
Qed.

(** Back on the queue. *)
Lemma back c0 p t k c c' :
  settled c0 -> p <> idle (base c0) -> off k p t c0 c -> curr (cfs (base c)) = curr_due p t c0 -> moved 0 p true c c' ->
  sched_ok c' /\ rq_curr (base c') = rq_curr (base c0) /\ exists t', all_tasks (base c') !! p = Some t' /\ policy t' = policy t /\ prio t' = prio t /\
    on_rq (se t') = true.
Proof.
  intros Hs Hpi [Hg Ht Ho Hot] Hcu (Hg' & Hh & (t' & Ht' & Ho') & _). destruct (stay_task _ _ _ _ _ (proj1 Hh) Ht) as (t2 & Ht2 & ? & ? & Hf2 & _).
  rewrite Ht' in Ht2. injection Ht2 as <-. split_and!; [|destruct Hh as [(-> & _) _]; by destruct Hot as (-> & _)|by exists t'].
  eapply finish; [done|done|done| |done|done|].
  - transitivity (base c); [done|by apply here_others].
  - destruct Hh as [_ ->]. rewrite Hcu. unfold curr_due. by rewrite Hf2.
Qed.

Lemma reenter c0 p t c now flags :
  settled c0 -> off 1 p t c0 c -> p <> idle (base c) -> curr (cfs (base c)) = curr_due p t c0 ->
  runs (enqueue_task now p flags) c (fun _ c' => sched_ok c' /\ rq_curr (base c') = rq_curr (base c0) /\ known (base c') p).
Proof.
  intros Hs Hoff Hp Hcu. pose proof Hoff as [Hg Ht Ho Hot]. eapply runs_mono; [|apply (enqueue_task_moved 1); [done|by exists t|done]].
  assert (p <> idle (base c0)) as Hp0 by (destruct Hot as (_ & <- & _); done).
  intros v c' Hm. destruct (back c0 p t 1 c c' Hs Hp0 Hoff Hcu Hm) as (? & ? & t' & ? & _). split_and!; [done..|by exists t'].
Qed.

(** Not on the queue, as before. *)
Lemma stay_off c0 p t c :
  settled c0 -> queued c0 p false -> p <> idle (base c0) -> off 0 p t c0 c -> curr (cfs (base c)) = curr (cfs (base c0)) -> sched_ok c.
Proof.
  intros Hs Hq Hp [Hg Ht Ho Hot] Hcu. pose proof (off_not_curr _ _ Hs Hp Hq) as Hne. eapply (finish c0 p); try done.
  unfold curr_due. by rewrite bool_decide_eq_false_2.
Qed.

Lemma base_ok c c' : sched_ok c -> good 0 c' -> base c' = base c -> sched_ok c'.
Proof. intros [_ Hs] Hg Hb. split; [done|]. unfold settled. by rewrite Hb. Qed.

Lemma NICE_TO_PRIO_range nice : -20 <= nice <= 19 -> 100 <= NICE_TO_PRIO nice < 140.
Proof. unfold NICE_TO_PRIO, MAX_RT_PRIO. lia. Qed.

(** The body of set_user_nice between leaving and entering. *)
Lemma renice k p t c0 c r (nice : Z) {B} (f : Z -> Z -> C B) Q :
  off k p t c0 c -> p <> idle (base c) -> rest c !! p = Some r -> rest_ok r -> -20 <= nice <= 19 -> rt_policy (policy t) = false ->
  (forall pr c' t', off k p t' c0 c' -> fair_class t' = fair_class t -> curr (cfs (base c')) = curr (cfs (base c)) -> idle (base c') = idle (base c) ->
     runs (f (prio t) pr) c' Q) ->
  runs (_ ← put_rest p (with_static (NICE_TO_PRIO nice)); _ ← set_task_weight p; t ← lift (get_task p);
        let old_prio := prio t in pr ← effective_prio p; _ ← lift (put_task p (with_prio pr)); f old_prio pr) c Q.
Proof.
  intros Hoff Hp Hr (Hro1 & Hro2 & Hro3) Hn Hpol Hf. pose proof (NICE_TO_PRIO_range nice Hn) as Hrange.
  eapply runs_then; [by apply (off_rest k p t c0 c r)|]. intros [] c1 (Hoff1 & Hb1 & Hr1 & _).
  assert (idle (base c1) = idle (base c)) as Hi1 by (by rewrite Hb1). rewrite <- Hi1 in Hp.
  eapply runs_then; [by apply (off_weight k p t c0 c1)|]. intros [] c2 (lw & Hoff2 & Hc2 & Hr2 & Hi2).
  set (t2 := with_se (with_load lw (se t)) t) in *. pose proof (off_task _ _ _ _ _ Hoff2) as Ht2. reads. cbn zeta.
  unfold effective_prio. rewrite <- Hi2 in Hp. rewrite <- Hr2 in Hr1.
  eapply (runs_then _ _ _ (fun pr c' => off k p t2 c0 c' /\ base c' = base c2 /\ pr = if negb (rt_prio (prio t)) then NICE_TO_PRIO nice else prio t)).
  { reads. eapply runs_then; [apply (off_rest k p t2 c0 c2 _ _ Hoff2 Hp Hr1)|].
    { split_and!; cbn; [lia|lia|unfold normal_prio_of; change (policy t2) with (policy t); rewrite Hpol; cbn; lia|done]. }
    intros [] c3 (Hoff3 & Hb3 & Hr3 & _). reads. apply runs_done. split_and!; [done|done|]. cbn. unfold normal_prio_of.
    change (policy t2) with (policy t). rewrite Hpol. done. }
  intros pr c3 (Hoff3 & Hb3 & Epr). rewrite <- Hb3 in Hp. destruct (off_facts _ _ _ _ _ Hoff3 Hp) as (Hw & Hcl & Hpr & Hcu).
  eapply runs_then; [apply (off_put k p t2 (with_prio pr t2) c0 c3); try done; [apply put_task_run, Hoff3|apply Hoff3| |]|].
  - cbn in Hcl |- *. rewrite Hcl. f_equal. subst pr. destruct (rt_prio (prio t)) eqn:E; cbn [negb]; [done|]. unfold rt_prio, MAX_RT_PRIO. symmetry. apply Z.ltb_ge. lia.
  - cbn in Hpr |- *. subst pr. destruct (negb _); lia.
  - intros [] c4 (Hoff4 & Hc4 & _ & Hi4). apply (Hf pr c4 _ Hoff4); [done| |congruence]. rewrite Hc4, Hb3, Hc2, Hb1. done.
Qed.

Lemma set_user_nice_ok c now p nice :
  sched_ok c -> known (base c) p -> p <> idle (base c) -> runs (set_user_nice now p nice) c (fun _ c' => sched_ok c').
Proof.
  intros Hok [t Ht] Hp. pose proof Hok as [Hgd Hs]. destruct (known_rest _ _ p Hgd) as (r & Hr & Hro); [by exists t|].
  unfold set_user_nice. reads. destruct (_ || _) eqn:Eno; [by apply runs_done|]. apply orb_false_iff in Eno as [[_ E2]%orb_false_iff E3]. zbool. reads.
  pose proof (NICE_TO_PRIO_range nice ltac:(lia)) as Hrange. destruct (rt_policy (policy t)) eqn:Hpol.
  { pose proof Hgd as (s & m & Hg). eapply runs_mono; [|apply (put_rest_good 0 c s m p r); try done].
    - intros v c' (Hg' & Hb & _). eapply base_ok; [done|by exists s, m|done].
    - destruct Hro as (? & ? & ?). split_and!; cbn; try done; lia. }
  cbn zeta. eapply runs_then; [by apply (leave c now p t)|]. intros [] c1 (t1 & Hoff1 & Hc1 & Epol & Epr & Ef & Ew & Hr1).
  assert (idle (base c1) = idle (base c)) as Hi1 by (destruct (off_others _ _ _ _ _ Hoff1) as (_ & ? & _); done).
  destruct (rests_some _ _ _ _ Hr1 Hr) as (r1 & Hr1' & Hv1).
  eapply (renice _ p t1 c c1 r1 nice (fun old_prio pr => if on_rq (se t) then _ ← enqueue_task now p 0; c ← lift (gets rq_curr);
    if (pr - old_prio <? 0) || ((0 <? pr - old_prio) && (p =? c)) then lift (resched_task c) else mret tt else mret tt));
    [done|by rewrite Hi1|done|by eapply rest_view_ok|lia|by rewrite Epol|].
  intros pr c2 t2 Hoff2 Ef2 Hc2 Hi2. rewrite Hc1 in Hc2. destruct (on_rq (se t)) eqn:Ho.
  - eapply runs_then; [apply (reenter c p t2 c2 now 0); [done|done|by rewrite Hi2, Hi1|]|].
    + rewrite (curr_due_same p t t2 c Hs Ht Hp) by congruence. done.
    + intros [] c3 (Hok3 & _ & _). reads. destruct Hok3 as [Hg3 Hs3].
      eapply runs_mono; [intros v c' H; exact (keeping_ok c3 c' H Hs3)|]. destruct (_ || _); [by apply resched_keeping|by apply keeping_ret].
  - apply runs_done. eapply (stay_off c p t2); try done. by exists t.
Qed.

(** * Changing the class *)

Lemma stay_off_task k k' p t c0 c c' :
  off k p t c0 c -> stay [] (base c) (base c') -> good k' c' ->
  exists t', off k' p t' c0 c' /\ policy t' = policy t /\ prio t' = prio t /\ fair_class t' = fair_class t /\
    weight (se_load (se t')) = weight (se_load (se t)).
Proof.
  intros [Hg Ht Ho Hot] Hst Hg'. destruct (stay_task _ _ _ _ _ Hst Ht) as (t' & Ht' & ? & ? & ? & ? & Ho'). exists t'. split; [|done].
  constructor; try done; [rewrite Ho' by apply not_elem_of_nil; done|]. transitivity (base c); [done|by apply keep_others].
Qed.

Lemma put_prev_off k p t c0 c t0 :
  settled c0 -> all_tasks (base c0) !! p = Some t0 -> off k p t c0 c -> p <> 0 -> p <> idle (base c0) -> fair_class t = fair_class t0 ->
  curr (cfs (base c)) = curr (cfs (base c0)) ->
  runs (if rq_curr (base c0) =? p then put_prev_class p else mret tt) c (fun _ c' => exists t', off k p t' c0 c' /\
    curr (cfs (base c')) = (if rq_curr (base c0) =? p then 0 else curr (cfs (base c0))) /\ p <> curr (cfs (base c')) /\ policy t' = policy t /\
    prio t' = prio t /\ fair_class t' = fair_class t /\ weight (se_load (se t')) = weight (se_load (se t)) /\ rests c c').
Proof.
  intros Hs Ht0 Hoff Hp0 Hpi Hf Hcu. pose proof Hoff as [Hg Ht Ho Hot]. pose proof Hs as (tc & Htc & _ & Hc). destruct (Z.eqb_spec (rq_curr (base c0)) p) as [E|E].
  - eapply runs_mono; [|apply (put_prev_runs k c p t); [done|done| |]].
    + intros v c' (Hg' & Hst & Hc' & Hr). destruct (stay_off_task _ _ _ _ _ _ _ Hoff Hst Hg') as (t' & Hoff' & ? & ? & ? & ?).
      exists t'. split_and!; try done. congruence.
    + destruct Hot as (-> & _). rewrite E. by exists t.
    + destruct Hot as (_ & Ei & _). unfold fair_curr in *. rewrite Hcu, Hc, Hf, Ei. rewrite E in Htc |- *. by simplify_eq.
  - apply runs_done. exists t. split_and!; try done; try reflexivity. rewrite Hcu, Hc. unfold fair_curr. destruct (_ && _); congruence.
Qed.

Lemma set_curr_off k p t c0 c :
  off k p t c0 c -> curr (cfs (base c)) = (if rq_curr (base c0) =? p then 0 else curr (cfs (base c0))) ->
  runs (if rq_curr (base c0) =? p then set_curr_class else mret tt) c (fun _ c' => exists t', off k p t' c0 c' /\
    curr (cfs (base c')) = curr_due p t' c0 /\ policy t' = policy t /\ prio t' = prio t /\ rests c c').
Proof.
  intros Hoff Hcu. pose proof Hoff as [Hg Ht Ho Hot]. unfold curr_due. pose proof Hot as (Er & _). destruct (Z.eqb_spec (rq_curr (base c0)) p) as [E|E].
  - rewrite E in Er. eapply runs_mono; [|apply (set_curr_runs k c t); [done|by rewrite Er|done]].
    intros v c' (Hg' & Hst & Hc' & Hr). destruct (stay_off_task _ _ _ _ _ _ _ Hoff Hst Hg') as (t' & Hoff' & ? & ? & Hf & ?).
    exists t'. split; [done|]. rewrite bool_decide_eq_true_2, Hc', Hf, Er by done. done.
  - apply runs_done. exists t. split; [done|]. rewrite bool_decide_eq_false_2 by done. split_and!; done || reflexivity.
Qed.

Lemma changed_keeping c p prev_class oldprio running :
  good 0 c -> known (base c) p -> known (base c) (rq_curr (base c)) ->
  runs (check_class_changed p prev_class oldprio running) c (fun _ c' => keeping 0 c c').
Proof.
  intros Hgd [t Ht] Hc. pose proof Hgd as (s & m & Hg). pose proof Hc as [tc Htc]. unfold check_class_changed.
  eapply runs_read; [by apply class_read|]. assert (known (base c) p) as Hp by (by exists t).
  assert (runs (lift (check_preempt_curr p false)) c (fun _ c' => keeping 0 c c')) as Hpre by (by eapply still_keeping, preempt_still).
  case_bool_decide; destruct (class_of _ _ _).
  - unfold switched_to_rt. destruct (negb running); [|by apply keeping_ret]. do 3 reads. destruct (_ <? _); [by apply resched_keeping|by apply keeping_ret].
  - eapply still_keeping, lift_still; [done|apply switched_to_ok; [apply Hg|done|done]|apply framed_switched_to].
  - unfold switched_to_idle. destruct running; [|done]. eapply still_keeping, lift_still; [done| |frames].
    eapply keeps_read; [done|]. apply resched_keeps, Hg.
  - unfold prio_changed_rt. reads. destruct running; [destruct (_ <? _); [by apply resched_keeping|by apply keeping_ret]|].
    do 2 reads. destruct (_ <? _); [by apply resched_keeping|by apply keeping_ret].
  - eapply still_keeping, lift_still; [done|apply prio_changed_ok; [apply Hg|done|done]|apply framed_prio_changed].
  - unfold prio_changed_idle. destruct running; [|done]. eapply still_keeping, lift_still; [done| |frames].
    eapply keeps_read; [unfold get_task; by rewrite Ht|]. destruct (_ <? _); [|apply keeps_ret, Hg]. eapply keeps_read; [done|]. apply resched_keeps, Hg.
Qed.

Lemma changed_ok c p prev_class oldprio running :
  sched_ok c -> known (base c) p -> runs (check_class_changed p prev_class oldprio running) c (fun _ c' => sched_ok c').
Proof.
  intros [Hg Hs] Hp. eapply runs_mono; [intros v c' H; exact (keeping_ok c c' H Hs)|]. apply changed_keeping; [done|done|by apply settled_known].
Qed.

(** A sequence of updates of one task. *)
Lemma lift_bind {A B D} (e : K A) (f : A -> K B) (g : B -> C D) c Q :
  runs (lift (e ≫= f) ≫= g) c Q -> runs (x ← lift e; y ← lift (f x); g y) c Q.
Proof.
  intros (v & c' & E & H). exists v, c'. split; [|done]. rewrite <- E. unfold mbind, C_bind, lift, K_bind. destruct (e (base c)) as [[x q]|]; [|done]. cbn.
  destruct (f x q) as [[y q']|]; done.
Qed.

Lemma rt_mutex_setprio_ok c now p pr t :
  sched_ok c -> all_tasks (base c) !! p = Some t -> p <> idle (base c) -> 0 <= pr <= 140 ->
  runs (rt_mutex_setprio now p pr) c (fun _ c' => sched_ok c').
Proof.
  intros Hok Ht Hp Hpr. pose proof Hok as [Hgd Hs]. unfold rt_mutex_setprio, MAX_RT_PRIO.
  destruct (Z.ltb_spec pr 0); [lia|]. destruct (Z.ltb_spec (100 + 40) pr); [lia|]. cbn [orb]. reads. eapply runs_read; [by apply class_read|]. reads. cbn zeta.
  assert (p <> 0) as Hp0 by (destruct Hgd as (s & m & Hg); eapply known_pos; [apply (g_inv _ _ _ _ Hg)|by exists t]).
  eapply runs_then; [by apply (leave c now p t)|]. intros [] c1 (t1 & Hoff1 & Hc1 & _ & _ & Ef1 & Ew1 & _).
  eapply runs_then; [by apply (put_prev_off (if on_rq (se t) then 1 else 0) p t1 c c1 t)|]. intros [] c2 (t2 & Hoff2 & Hc2 & Hne2 & _ & _ & Ef2 & Ew2 & _).
  assert (idle (base c2) = idle (base c)) as Hi2 by (destruct (off_others _ _ _ _ _ Hoff2) as (_ & ? & _); done). rewrite <- Hi2 in Hp.
  destruct (off_facts _ _ _ _ _ Hoff2 Hp) as (Hw2 & _ & _ & _).
  set (t3 := with_prio pr (with_class (negb (rt_prio pr)) t2)). pose proof (off_task _ _ _ _ _ Hoff2) as Ht2.
  apply lift_bind. eapply runs_then.
  { apply (off_put (if on_rq (se t) then 1 else 0) p t2 t3 c c2); try done; [|apply Hoff2].
    - rewrite (kbind _ _ _ _ _ (put_task_run _ _ _ _ Ht2)). rewrite (put_task_run p (with_class (negb (rt_prio pr)) t2)).
      + cbn. unfold set_all. cbn. by rewrite insert_insert_eq.
      + cbn. by rewrite lookup_insert_eq.
  }
  intros [] c3 (Hoff3 & Hc3 & _ & Hi3). rewrite Hc2 in Hc3. eapply runs_then; [by apply (set_curr_off (if on_rq (se t) then 1 else 0) p t3 c c3)|].
  intros [] c4 (t4 & Hoff4 & Hc4 & _). assert (idle (base c4) = idle (base c)) as Hi4 by (destruct (off_others _ _ _ _ _ Hoff4) as (_ & ? & _); done).
  rewrite Hi2, <- Hi4 in Hp. destruct (on_rq (se t)) eqn:Ho.
  - eapply runs_then; [by apply (reenter c p t4 c4 now)|]. intros [] c5 (Hok5 & _ & Hk5). by apply changed_ok.
  - apply runs_done. assert (queued c p false) as Hq by (by exists t). eapply (stay_off c p t4); try done; [congruence|].
    rewrite Hc4. unfold curr_due. rewrite bool_decide_eq_false_2; [done|]. intros E. apply (off_not_curr c p); congruence.
Qed.

(** Priority, class and weight change together. *)
Lemma reclass_off k p t c0 c pr r :
  off k p t c0 c -> p <> idle (base c) -> p <> curr (cfs (base c)) -> rest c !! p = Some r -> 0 <= pr ->
  runs (_ ← lift (put_task p (with_prio pr)); _ ← lift (put_task p (with_class (negb (rt_prio pr)))); set_task_weight p) c
    (fun _ c' => exists t', off k p t' c0 c' /\ curr (cfs (base c')) = curr (cfs (base c)) /\ policy t' = policy t /\ prio t' = pr /\ rest c' = rest c).
Proof.
  intros Hoff Hp Hpc Hr Hpr. pose proof Hoff as [Hgd Ht Ho Hot]. destruct (known_rest _ _ p Hgd) as (r' & Hr' & Hro & _); [by exists t|].
  rewrite Hr in Hr'. injection Hr' as <-.
  destruct (set_load_weight_ok (rt_policy (policy t)) (policy t) (static_prio r) Hro) as (lw & Elw & Hw).
  set (t2 := with_class (negb (rt_prio pr)) (with_prio pr t)). set (q2 := set_all (<[p := t2]> (all_tasks (base c))) (base c)).
  assert ((_ ← put_task p (with_prio pr); put_task p (with_class (negb (rt_prio pr)))) (base c) = Some (tt, q2)) as E2.
  { rewrite (kbind _ _ _ _ _ (put_task_run _ _ _ _ Ht)), (put_task_run p (with_prio pr t)) by (cbn; by rewrite lookup_insert_eq).
    unfold q2, set_all. cbn. by rewrite insert_insert_eq. }
  apply lift_bind. eapply (runs_then _ _ _ (fun _ c' => c' = put_base q2 c)); [exists tt; eexists; split; [by apply lift_run|done]|].
  intros [] c2 ->. unfold set_task_weight. assert (all_tasks q2 !! p = Some t2) as Ht2 by (cbn; by rewrite lookup_insert_eq).
  eapply runs_read; [by apply task_read|]. eapply runs_read; [by apply rest_read|]. change (policy t2) with (policy t).
  eapply runs_read; [by rewrite Elw|]. set (t3 := with_se (with_load lw (se t2)) t2).
  destruct (off_put k p t t3 c0 c (fun _ => Some (tt, set_all (<[p := t3]> (all_tasks (base c))) (base c))) Hoff Hp eq_refl) as (u & c3 & E3 & Hoff3 & Hc3 & Hr3 & _).
  - done.
  - done.
  - done.
  - done.
  - done.
  - destruct u. exists tt, c3. split; [|by exists t3]. rewrite <- E3. unfold lift. cbn [base put_base]. rewrite (put_ent_run p t2) by done.
    unfold q2, set_all. cbn. by rewrite insert_insert_eq.
Qed.

(** The normal priority of a task with this policy, and its priority: that, or that of the first
    waiter for its locks. *)
Definition due_normal (pol pr : Z) (r : task_rest) : Z := if rt_policy pol then 99 - pr else static_prio r.

Definition due_prio (pol pr : Z) (r : task_rest) : Z :=
  match pi_prio r with None => due_normal pol pr r | Some w => Z.min w (due_normal pol pr r) end.

Lemma setscheduler_off p t c0 c pol pr r :
  off 0 p t c0 c -> p <> idle (base c) -> p <> curr (cfs (base c)) -> 0 <= pr <= 99 -> rest c !! p = Some r ->
  runs (__setscheduler p pol pr) c (fun _ c' => exists t', off 0 p t' c0 c' /\ curr (cfs (base c')) = curr (cfs (base c)) /\
    policy t' = pol /\ prio t' = due_prio pol pr r /\ rest c' !! p = Some (with_normal (due_normal pol pr r) (with_rt_priority pr r))).
Proof.
  intros Hoff Hp Hpc Hpr Hr. pose proof Hoff as [Hgd Ht Ho Hot]. unfold __setscheduler. reads. rewrite Ho.
  destruct (off_facts _ _ _ _ _ Hoff Hp) as (Hw & Hcl & Hp0 & _).
  eapply runs_then; [apply (off_put 0 p t (with_policy pol t) c0 c); try done; by apply put_task_run|].
  intros [] c1 (Hoff1 & Hc1 & Er1 & Hi1). rewrite <- Hi1 in Hp. rewrite <- Hc1 in Hpc |- *. rewrite <- Er1 in Hr.
  destruct (off_rest_ok _ _ _ _ _ Hoff1) as (r' & Hr' & H1 & H2 & H3). rewrite Hr in Hr'. injection Hr' as <-.
  eapply runs_then; [by apply (off_rest 0 p _ c0 c1 r _ Hoff1)|]. intros [] c2 (Hoff2 & Hb2 & Hr2 & _). rewrite <- Hb2 in Hp, Hpc |- *.
  eapply runs_then; [apply (off_rest 0 p _ c0 c2 _ _ Hoff2 Hp Hr2)|].
  { split_and!; cbn; try done; try lia. unfold normal_prio_of, MAX_RT_PRIO. cbn. destruct (rt_policy pol); lia. }
  intros [] c3 (Hoff3 & Hb3 & Hr3 & _). rewrite <- Hb3 in Hp, Hpc |- *. reads. cbn zeta. set (r3 := with_normal _ _).
  assert (normal_prio r3 = due_normal pol pr r) as En by (cbn; unfold normal_prio_of, due_normal, MAX_RT_PRIO; cbn; destruct (rt_policy pol); lia).
  eapply runs_mono; [|apply (reclass_off 0 p _ c0 c3 (rt_mutex_getprio r3) _ Hoff3 Hp Hpc Hr3)].
  - intros v c4 (t4 & Hoff4 & Hc4 & Epol & Epr & Er4). exists t4. split_and!; try done. by rewrite Er4.
  - unfold rt_mutex_getprio. rewrite En. unfold due_normal. change (pi_prio r3) with (pi_prio r). destruct (pi_prio r) as [w|] eqn:Ew; [specialize (H3 w eq_refl)|]; destruct (rt_policy pol); lia.
Qed.

(** The task [p] with its new policy, priorities and flag, as runnable as before. *)
Definition rescheduled (p : Z) (t : task_struct) (pol pr : Z) (reset : bool) (r : task_rest) (c' : cpu) : Prop :=
  exists t' r', all_tasks (base c') !! p = Some t' /\ policy t' = pol /\ prio t' = due_prio pol pr r /\ on_rq (se t') = on_rq (se t) /\
    rest c' !! p = Some r' /\ rest_view r' = rest_view (with_normal (due_normal pol pr r) (with_rt_priority pr (with_reset reset r))).

(** Programs that leave the rest of the tasks alone. *)
Definition restless {A} (e : C A) : Prop := forall c v c', e c = Some (v, c') -> rest c' = rest c.

Lemma restless_ret {A} (v : A) : restless (mret v).
Proof. by intros c u c' [= _ <-]. Qed.

Lemma restless_look {A} (f : cpu -> A) : restless (look f).
Proof. by intros c u c' [= _ <-]. Qed.

Lemma restless_lift {A} (e : K A) : restless (lift e).
Proof. intros c v c'. unfold lift. destruct (e (base c)) as [[x q]|]; [|done]. by intros [= _ <-]. Qed.

Lemma restless_bind {A B} (e : C A) (f : A -> C B) : restless e -> (forall v, restless (f v)) -> restless (e ≫= f).
Proof.
  intros He Hf c v c'. unfold mbind, C_bind. destruct (e c) as [[x c1]|] eqn:E; [|done]. intros F. rewrite (Hf x _ _ _ F). by eapply He.
Qed.

Ltac rests := repeat first [apply restless_ret | apply restless_look | apply restless_lift | apply restless_bind; [|intros ?]
                           | match goal with |- restless (match ?k with _ => _ end) => destruct k end].

Lemma changed_restless p prev_class oldprio running : restless (check_class_changed p prev_class oldprio running).
Proof. unfold check_class_changed, sched_class_of, switched_to_rt, prio_changed_rt. rests. Qed.

Lemma changed_rescheduled c p prev_class oldprio running t pol pr reset r :
  sched_ok c -> rescheduled p t pol pr reset r c ->
  runs (check_class_changed p prev_class oldprio running) c (fun _ c' => sched_ok c' /\ rescheduled p t pol pr reset r c').
Proof.
  intros [Hg Hs] (t1 & r1 & Ht1 & E1 & E2 & E3 & Hr1 & E4).
  destruct (changed_keeping c p prev_class oldprio running Hg) as (v & c' & E & H); [by exists t1|by apply settled_known|].
  exists v, c'. split; [done|]. split; [exact (keeping_ok c c' H Hs)|]. destruct H as [_ Hh]. destruct (here_task _ _ _ _ Hh Ht1) as (t2 & Ht2 & F1 & F2 & _ & _ & F3).
  exists t2, r1. rewrite (changed_restless _ _ _ _ _ _ _ E). split_and!; congruence.
Qed.

Lemma change_scheduler_ok c now p pol pr reset t r :
  sched_ok c -> all_tasks (base c) !! p = Some t -> rest c !! p = Some r -> p <> idle (base c) -> 0 <= pr <= 99 ->
  runs (change_scheduler now p pol pr reset) c (fun _ c' => sched_ok c' /\ rescheduled p t pol pr reset r c').
Proof.
  intros Hok Ht Hr Hp Hpr. pose proof Hok as [Hgd Hs]. unfold change_scheduler. do 2 reads. cbn zeta.
  assert (p <> 0) as Hp0 by (destruct Hgd as (s & m & Hg); eapply known_pos; [apply (g_inv _ _ _ _ Hg)|by exists t]).
  eapply (runs_then _ _ _ (fun _ c' => exists t1, off 0 p t1 c c' /\ curr (cfs (base c')) = curr (cfs (base c)) /\ fair_class t1 = fair_class t /\ rests c c')).
  { destruct (on_rq (se t)) eqn:Ho; [|apply runs_done; exists t; split; [by constructor|done]].
    eapply runs_mono; [|apply deactivate_moved; [done|by exists t|by apply settled_known]].
    intros v c' (Hg' & Hh & (t1 & Ht1 & Ho1) & Hrs). destruct (stay_task _ _ _ _ _ (proj1 Hh) Ht) as (t2 & Ht2 & _ & _ & Hf2 & _).
    rewrite Ht1 in Ht2. injection Ht2 as <-. exists t1. split; [constructor; try done; by apply here_others|]. split; [apply Hh|done]. }
  intros [] c1 (t1 & Hoff1 & Hc1 & Ef1 & Hrs1). eapply runs_then; [by apply (put_prev_off 0 p t1 c c1 t)|].
  intros [] c2 (t2 & Hoff2 & Hc2 & Hne2 & _ & _ & _ & _ & Hrs2). assert (idle (base c2) = idle (base c)) as Hi2 by (destruct (off_others _ _ _ _ _ Hoff2) as (_ & ? & _); done).
  rewrite <- Hi2 in Hp. assert (rests c c2) as Hrs by (by transitivity c1). destruct (rests_some _ _ _ _ Hrs Hr) as (r2 & Hr2 & Hv2).
  destruct (off_rest_ok _ _ _ _ _ Hoff2) as (r2' & Hr2' & Hro). rewrite Hr2 in Hr2'. injection Hr2' as <-.
  eapply runs_then; [by apply (off_rest 0 p t2 c c2 r2 _ Hoff2)|]. intros [] c3 (Hoff3 & Hb3 & Hr3 & _). pose proof (off_task _ _ _ _ _ Hoff3) as Ht3. reads.
  eapply runs_read; [by apply class_read|]. eapply runs_then; [apply (setscheduler_off p t2 c c3 pol pr (with_reset reset r2)); [done|by rewrite Hb3|by rewrite Hb3|done|done]|].
  intros [] c4 (t4 & Hoff4 & Hc4 & Epol4 & Epr4 & Hr4). rewrite Hb3, Hc2 in Hc4. eapply runs_then; [by apply (set_curr_off 0 p t4 c c4)|].
  intros [] c5 (t5 & Hoff5 & Hc5 & Epol5 & Epr5 & Hrs5). assert (idle (base c5) = idle (base c)) as Hi5 by (destruct (off_others _ _ _ _ _ Hoff5) as (_ & ? & _); done).
  rewrite Hi2, <- Hi5 in Hp. assert (due_prio pol pr (with_reset reset r2) = due_prio pol pr r) as Edue.
  { unfold due_prio, due_normal. cbn. injection Hv2 as _ -> _ _ _ _ _ ->. done. }
  assert (rest_view (with_normal (due_normal pol pr (with_reset reset r2)) (with_rt_priority pr (with_reset reset r2))) =
    rest_view (with_normal (due_normal pol pr r) (with_rt_priority pr (with_reset reset r)))) as Eview.
  { unfold due_normal, rest_view. cbn. injection Hv2 as -> -> _ _ _ -> -> ->. done. }
  destruct (on_rq (se t)) eqn:Ho.
  - eapply runs_then; [apply (activate_moved c5 now p 0); [apply Hoff5|exists t5; split; apply Hoff5|done]|]. intros [] c6 Hm.
    destruct (back c p t5 0 c5 c6 Hs ltac:(congruence) Hoff5 Hc5 Hm) as (Hok6 & _ & t6 & Ht6 & F1 & F2 & F3). apply changed_rescheduled; [done|].
    destruct Hm as (_ & _ & _ & Hrs6). destruct (rests_some _ _ p _ (transitivity Hrs5 Hrs6) Hr4) as (r6 & Hr6 & Hv6).
    exists t6, r6. split_and!; congruence.
  - apply runs_done. assert (queued c p false) as Hq by (by exists t). split.
    + eapply (stay_off c p t5); try done; [congruence|].
      rewrite Hc5. unfold curr_due. rewrite bool_decide_eq_false_2; [done|]. intros E. apply (off_not_curr c p); congruence.
    + destruct (rests_some _ _ p _ Hrs5 Hr4) as (r6 & Hr6 & Hv6). exists t5, r6. split; [apply Hoff5|].
      split_and!; [congruence|congruence| |done|congruence]. rewrite Ho. apply Hoff5.
Qed.

Lemma checks_range env t r pol pr reset : setscheduler_checks env t r pol pr reset = 0 -> 0 <= pr <= 99.
Proof.
  unfold setscheduler_checks, MAX_RT_PRIO. destruct (Z.ltb_spec pr 0); [done|]. destruct (has_mm env); cbn [orb andb negb].
  - destruct (Z.ltb_spec 99 pr); [done|]. lia.
  - destruct (Z.ltb_spec (100 - 1) pr); [done|]. lia.
Qed.

(** The policy, the flag and whether the policy is one, as __sched_setscheduler reads its argument. *)
Definition asked (t : task_struct) (r : task_rest) (pol : Z) : bool * Z * bool :=
  if pol <? 0 then (sched_reset_on_fork r, policy t, true)
  else
    let pol' := Z.land pol (Z.lnot SCHED_RESET_ON_FORK) in
    (negb (Z.land pol SCHED_RESET_ON_FORK =? 0), pol',
     (pol' =? SCHED_FIFO) || (pol' =? SCHED_RR) || (pol' =? SCHED_NORMAL) || (pol' =? SCHED_BATCH) || (pol' =? SCHED_IDLE)).

(** An error changes nothing. *)
Lemma sched_setscheduler_ok c now env p pol pr t r :
  sched_ok c -> all_tasks (base c) !! p = Some t -> rest c !! p = Some r -> p <> idle (base c) ->
  let '(reset, pol', valid) := asked t r pol in
  let err := if valid : bool then setscheduler_checks env t r pol' pr reset else - EINVAL in
  runs (__sched_setscheduler now env p pol pr) c (fun v c' => v = err /\ sched_ok c' /\ (err <> 0 -> c' = c) /\ (err = 0 -> rescheduled p t pol' pr reset r c')).
Proof.
  intros Hok Ht Hr Hp. destruct (asked t r pol) as [[reset pol'] valid] eqn:E. unfold asked in E. cbn zeta. unfold __sched_setscheduler. do 2 reads. rewrite E.
  destruct valid; cbn [negb]; [|by apply runs_done].
  destruct (Z.eqb_spec (setscheduler_checks env t r pol' pr reset) 0) as [E0|E0]; cbn [negb]; [|by apply runs_done].
  eapply runs_then; [apply (change_scheduler_ok c now p pol' pr reset t r); [done|done|done|done|by eapply checks_range]|]. intros [] c' [Hok' Hre]. by apply runs_done.
Qed.

(** * Forking *)

(** The child has the class that it copied from its parent, whose normal priority is [np]. *)
Definition copied (np : Z) (t : task_struct) : Prop := rt_prio np = true -> fair_class t = false.

(** A step on the child, which stays off the queue. *)
Definition child (p np : Z) (c0 c : cpu) : Prop :=
  exists t, off 0 p t c0 c /\ copied np t /\ curr (cfs (base c)) = curr (cfs (base c0)) /\
    rest c !! rq_curr (base c0) = rest c0 !! rq_curr (base c0).

Section Forking.

Context (p np : Z) (c0 : cpu) (Hp : p <> idle (base c0)) (Hne : p <> rq_curr (base c0)).

Lemma child_not_idle c : child p np c0 c -> p <> idle (base c).
Proof. intros (t & Hoff & _). destruct (off_others _ _ _ _ _ Hoff) as (_ & -> & _). done. Qed.

Lemma child_rest c f :
  child p np c0 c -> (forall r, rest_ok r -> rest_ok (f r)) -> runs (put_rest p f) c (fun _ c' => child p np c0 c').
Proof.
  intros Hch Hf. pose proof (child_not_idle _ Hch) as Hp'. destruct Hch as (t & Hoff & Hcp & Hc & Hrc).
  destruct (off_rest_ok _ _ _ _ _ Hoff) as (r & Hr & Hro). eapply runs_mono; [|apply (off_rest 0 p t c0 c r f); [done|done|done|by apply Hf]].
  intros v c' (Hoff' & Eb & _ & Ex). exists t. rewrite Eb, Ex by done. done.
Qed.

Lemma child_policy c pol : child p np c0 c -> runs (lift (put_task p (with_policy pol))) c (fun _ c' => child p np c0 c').
Proof.
  intros Hch. pose proof (child_not_idle _ Hch) as Hp'. destruct Hch as (t & Hoff & Hcp & Hc & Hrc).
  destruct (off_facts _ _ _ _ _ Hoff Hp') as (Hw & Hcl & Hp0 & Hcu). pose proof Hoff as [_ Ht Ho _].
  eapply runs_mono; [|apply (off_put 0 p t (with_policy pol t) c0 c); try done; by apply put_task_run].
  intros v c' (Hoff' & Hc' & Er & _). eexists. split; [exact Hoff'|]. rewrite Hc', Er. done.
Qed.

Lemma child_weight c : child p np c0 c -> runs (set_task_weight p) c (fun _ c' => child p np c0 c').
Proof.
  intros Hch. pose proof (child_not_idle _ Hch) as Hp'. destruct Hch as (t & Hoff & Hcp & Hc & Hrc).
  eapply runs_mono; [|by apply (off_weight 0 p t c0 c)]. intros v c' (lw & Hoff' & Hc' & Er & _).
  eexists. split; [exact Hoff'|]. rewrite Hc', Er. done.
Qed.

Lemma child_task c : child p np c0 c -> exists t, all_tasks (base c) !! p = Some t.
Proof. intros (t & Hoff & _). exists t. apply Hoff. Qed.

Lemma fork_reset c :
  child p np c0 c ->
  runs (t ← lift (get_task p);
        _ ← (if rt_policy (policy t) then
               _ ← lift (put_task p (with_policy SCHED_NORMAL)); put_rest p (fun r => with_normal (static_prio r) r) else mret tt);
        r ← get_rest p;
        _ ← (if static_prio r - MAX_RT_PRIO - 20 <? 0 then _ ← put_rest p (with_static (NICE_TO_PRIO 0));
               _ ← put_rest p (fun r => with_normal (static_prio r) r); set_task_weight p else mret tt);
        put_rest p (with_reset false)) c (fun _ c' => child p np c0 c').
Proof.
  intros Hch. assert (forall r, rest_ok r -> rest_ok (with_normal (static_prio r) r)) as Hn by (intros r (? & ? & ?); split_and!; cbn; try done; lia).
  destruct (child_task _ Hch) as (t & Ht). reads.
  eapply (runs_then _ _ _ (fun _ c' => child p np c0 c')).
  { destruct (rt_policy (policy t)); [|by apply runs_done]. eapply runs_then; [by apply child_policy|]. intros [] c1 Hch1. by apply child_rest. }
  intros [] c1 Hch1. pose proof Hch1 as (t1 & Hoff1 & _). destruct (off_rest_ok _ _ _ _ _ Hoff1) as (r & Hr & _). reads.
  eapply (runs_then _ _ _ (fun _ c' => child p np c0 c')); [|intros [] c2 Hch2; by apply child_rest].
  destruct (_ <? 0); [|by apply runs_done]. eapply runs_then; [apply (child_rest c1); [done|]|].
  { intros x (? & ? & ?). split_and!; try done. }
  intros [] c2 Hch2. eapply runs_then; [by apply (child_rest c2)|]. intros [] c3 Hch3. by apply child_weight.
Qed.

End Forking.

Lemma fork_start c p t rc :
  sched_ok c -> all_tasks (base c) !! p = Some t -> on_rq (se t) = false -> p <> idle (base c) -> p <> rq_curr (base c) ->
  rest c !! rq_curr (base c) = Some rc -> copied (normal_prio rc) t -> runs (__sched_fork p) c (fun _ c' => child p (normal_prio rc) c c').
Proof.
  intros Hok Ht Ho Hp Hne Hrc Hcp. assert (off 0 p t c c) as Hoff by (constructor; try done; apply Hok).
  destruct (off_facts _ _ _ _ _ Hoff Hp) as (Hw & Hcl & Hp0 & Hcu). unfold __sched_fork.
  eapply runs_mono; [|eapply (off_put 0 p t _ c c); [done|done|by apply put_ent_run|done..]].
  intros v c' (Hoff' & Hc' & Er & _). eexists. split; [exact Hoff'|]. split_and!; [exact Hcp|done|by rewrite Er].
Qed.

(** The child gets the normal priority of its parent and the class for it. *)
Lemma fork_prio p np c0 c {B} (g : unit -> C B) Q :
  child p np c0 c -> p <> idle (base c0) -> p <> curr (cfs (base c)) -> 0 <= np ->
  (forall c' t', off 0 p t' c0 c' -> curr (cfs (base c')) = curr (cfs (base c0)) -> runs (g tt) c' Q) ->
  runs (_ ← lift (put_task p (with_prio np)); y ← (if negb (rt_prio np) then lift (put_task p (with_class true)) else mret tt); g y) c Q.
Proof.
  intros Hch Hp Hpc Hnp Hg. pose proof (child_not_idle _ _ _ Hp _ Hch) as Hp'. destruct Hch as (t & Hoff & Hcp & Hc & _).
  pose proof (off_task _ _ _ _ _ Hoff) as Ht. destruct (off_facts _ _ _ _ _ Hoff Hp') as (Hw & Hcl & Hp0 & _).
  destruct (rt_prio np) eqn:E; cbn [negb].
  - eapply runs_then; [apply (off_put 0 p t (with_prio np t) c0 c); try done; [by apply put_task_run|apply Hoff|cbn; by rewrite E, Hcp]|].
    intros [] c1 (Hoff1 & Hc1 & _). eapply runs_read; [done|]. apply (Hg c1 _ Hoff1). congruence.
  - apply lift_bind. eapply runs_then; [apply (off_put 0 p t (with_class true (with_prio np t)) c0 c); try done; [|apply Hoff|cbn; by rewrite E]|].
    + rewrite (kbind _ _ _ _ _ (put_task_run _ _ _ _ Ht)). rewrite (put_task_run p (with_prio np t)) by (cbn; by rewrite lookup_insert_eq).
      unfold set_all. cbn. by rewrite insert_insert_eq.
    + intros [] c1 (Hoff1 & Hc1 & _). apply (Hg c1 _ Hoff1). congruence.
Qed.

Lemma sched_fork_ok c p t rc :
  sched_ok c -> all_tasks (base c) !! p = Some t -> on_rq (se t) = false -> p <> idle (base c) ->
  rest c !! rq_curr (base c) = Some rc -> copied (normal_prio rc) t -> runs (sched_fork p) c (fun _ c' => sched_ok c').
Proof.
  intros Hok Ht Ho Hp Hrc Hcp. pose proof Hok as [Hgd Hs]. assert (queued c p false) as Hq by (by exists t).
  pose proof (off_not_curr _ _ Hs Hp Hq) as Hne. destruct (known_rest _ _ _ Hgd (settled_known _ Hs)) as (rc' & Hrc' & _ & Hnp & _).
  rewrite Hrc in Hrc'. injection Hrc' as <-. set (np := normal_prio rc) in *. unfold sched_fork.
  eapply runs_then; [by apply (fork_start c p t rc)|]. intros [] c1 Hch1. fold np in Hch1.
  eapply runs_then; [apply (child_rest p np c Hp Hne c1); [done|]; by intros r (? & ? & ?)|]. intros [] c2 Hch2.
  pose proof Hch2 as (t2 & Hoff2 & _). destruct (off_rest_ok _ _ _ _ _ Hoff2) as (r & Hr & _). reads.
  eapply (runs_then _ _ _ (fun _ c' => child p np c c')).
  { destruct (sched_reset_on_fork r); [|by apply runs_done]. by apply (fork_reset p np c). }
  intros [] c3 Hch3. pose proof Hch3 as (t3 & Hoff3 & _ & Hc3 & Hr3). rewrite Hrc in Hr3.
  assert (rq_curr (base c3) = rq_curr (base c)) as Er3 by (destruct (off_others _ _ _ _ _ Hoff3) as (? & _); done). reads. rewrite Er3. reads. fold np.
  assert (p <> curr (cfs (base c))) as Hpc.
  { destruct Hs as (tc & _ & _ & ->). unfold fair_curr. destruct (_ && _); [done|]. destruct Hgd as (s & m & Hg). eapply known_pos; [apply (g_inv _ _ _ _ Hg)|by exists t]. }
  eapply (fork_prio p np c c3); [done|done|by rewrite Hc3|done|]. intros c4 t4 Hoff4 Hc4. pose proof Hoff4 as [Hg4 Ht4 Ho4 Hot4].
  pose proof (stay_off c p t4 c4 Hs Hq Hp Hoff4 Hc4) as Hok4. eapply runs_read; [by apply class_read|].
  destruct (class_of _ _ _); [by apply runs_done| |by apply runs_done]. destruct Hg4 as (s4 & m4 & Hg4). destruct Hok4 as [_ Hs4].
  eapply runs_mono; [intros v c' H; exact (keeping_ok c4 c' H Hs4)|]. eapply still_keeping, lift_still; [done| |apply framed_fork].
  apply fork_ok; [apply Hg4|by exists t4| |by rewrite Hc4|by apply (good_room _ _ _ _ p Hg4)]. intros (t5 & ? & _ & ?). congruence.
Qed.

(** * Booting *)

(** The idle task leaves the fair class, whose current task it never was. *)
Lemma good_idle_class k c s m t :
  good_at k c s m -> all_tasks (base c) !! idle (base c) = Some t -> idle (base c) <> curr (cfs (base c)) ->
  good_at k (put_base (set_all (<[idle (base c) := with_class false t]> (all_tasks (base c))) (base c)) c) s m.
Proof.
  intros [Hi Hrt Hq Hn Hr Ht (ti & ri & Hti & Ho & Hri & Hst) Hs] Hp Hc. rewrite Hp in Hti. injection Hti as <-.
  assert (idle (base c) ∉ members m) as Hpm by (intros [_ ?]%(Hq _ t Hp); congruence).
  constructor; cbn [base rt rest nr_all put_base set_all all_tasks cfs idle]; try done.
  - eapply inv_retask; [done|exact Hp| |by intros [? _]|done|exact (ok_weights _ _ (proj1 Hi) _ t Hp)]. intros (t1 & E & _ & ?). congruence.
  - by eapply rt_ok_retask.
  - intros r tr. destruct (decide (r = idle (base c))) as [->|]; [|rewrite lookup_insert_ne by done; apply Hq].
    rewrite lookup_insert_eq. intros [= <-]. split; [done|]. cbn. rewrite Ho. by intros [_ ?].
  - intros r Hrk. apply Hr. exact (proj1 (known_insert _ _ _ _ r Hp) Hrk).
  - intros r tr. destruct (decide (r = idle (base c))) as [->|]; [|rewrite lookup_insert_ne by done; apply Ht].
    rewrite lookup_insert_eq. intros [= <-]. split; [by apply (Ht (idle (base c)) t Hp)|done].
  - exists (with_class false t), ri. by rewrite lookup_insert_eq.
  - rewrite map_size_insert_Some; [done|by exists t].
Qed.

Lemma init_idle_bootup_ok c :
  sched_ok c ->
  runs (init_idle_bootup_task (idle (base c))) c (fun _ c' => sched_ok c' /\ idle (base c') = idle (base c) /\
    exists t, all_tasks (base c') !! idle (base c) = Some t /\ fair_class t = false).
Proof.
  intros [(s & m & Hg) (tc & Htc & Ho & Hcu)]. destruct (g_idle _ _ _ _ Hg) as (t & _ & Ht & _). unfold init_idle_bootup_task.
  eexists tt, _. split; [apply lift_run; by apply put_task_run|]. split; [split|split; [done|]].
  - exists s, m. apply good_idle_class; [done|done|]. rewrite Hcu. unfold fair_curr.
    destruct (Z.eqb_spec (rq_curr (base c)) (idle (base c))); [|destruct (_ && _)]; cbn [negb andb]; rewrite ?andb_false_r; try congruence; by eapply idle_known.
  - unfold settled. cbn. unfold fair_curr in *. cbn in *. destruct (Z.eqb_spec (rq_curr (base c)) (idle (base c))) as [E|E].
    + exists (with_class false t). rewrite E, lookup_insert_eq. split_and!; [done|by left|]. rewrite Hcu. by rewrite andb_false_r.
    + exists tc. by rewrite lookup_insert_ne.
  - exists (with_class false t). cbn. by rewrite lookup_insert_eq.
Qed.
