(* ===== verification/SchedCoreSpec.v ===== *)
(** What the scheduler as a whole promises: every run of its operations keeps the queues of the
    classes, the bitmap and the counters consistent; the task that runs next is the right one; and the
    bandwidth of the real-time tasks is accounted for. *)

From S2P Require Import Prelude.
From stdpp Require Import gmap sorting.
From Stdlib Require Import Lia.
From S2P Require Import Word FindBit.
From S2P Require Import Task.
From S2P Require Import Rbtree.
From S2P Require Import Sched SchedTime SchedTree SchedInv SchedOps SchedPick SchedSpec SchedFrame.
From S2P Require Import SchedRt.
From S2P Require Import SchedRtQueue SchedRtSpec.
From S2P Require Import SchedCore SchedCoreInv SchedCoreOps SchedCoreChange.
Open Scope Z_scope.

(** * Runs *)

(** [OpTask] stands for the rest of the kernel, which sets the state of a task and its signals. *)
Inductive core_op : Type :=
| OpSchedule (now : Z) (active : bool) | OpWake (now p state : Z) | OpWakeNew (now p : Z) | OpTick (now : Z)
| OpYield (now : Z) | OpNice (now p nice : Z) | OpSetPrio (now p pr : Z) | OpSetScheduler (now : Z) (env : sched_env) (p pol pr : Z)
| OpFork (p : Z) | OpTimer (overruns : list Z) | OpTask (p : Z) (ts : Task.task_struct) | OpBootIdle.

Definition core_exec (o : core_op) : C Z :=
  match o with
  | OpSchedule now active => schedule now active
  | OpWake now p state => b ← try_to_wake_up now p state; mret (Z.b2z b)
  | OpWakeNew now p => _ ← wake_up_new_task now p; mret 0
  | OpTick now => _ ← scheduler_tick now; mret 0
  | OpYield now => _ ← sched_yield now; mret 0
  | OpNice now p nice => _ ← set_user_nice now p nice; mret 0
  | OpSetPrio now p pr => _ ← rt_mutex_setprio now p pr; mret 0
  | OpSetScheduler now env p pol pr => __sched_setscheduler now env p pol pr
  | OpFork p => _ ← sched_fork p; mret 0
  | OpTimer overruns => _ ← sched_rt_period_timer overruns; mret 0
  | OpTask p ts => _ ← put_rest p (with_sig ts); mret 0
  | OpBootIdle => i ← lift (gets idle); _ ← init_idle_bootup_task i; mret 0
  end.

(** What the callers guarantee.  The idle task is never woken, reniced, boosted or put to sleep and does
    not yield; a new task is not on a queue; the priorities of rt_mutex_setprio are those of its
    BUG_ON; and the child of a fork, which is not on a queue, has the class of its parent, the
    real-time class if the normal priority of the parent is a real-time one. *)
Definition permitted (o : core_op) (c : cpu) : Prop :=
  match o with
  | OpSchedule _ _ | OpTick _ | OpTimer _ | OpBootIdle => True
  | OpWake _ p _ | OpNice _ p _ | OpSetScheduler _ _ p _ _ | OpTask p _ => known (base c) p /\ p <> idle (base c)
  | OpWakeNew _ p => queued c p false /\ p <> idle (base c)
  | OpYield _ => rq_curr (base c) <> idle (base c)
  | OpSetPrio _ p pr => known (base c) p /\ p <> idle (base c) /\ 0 <= pr <= 140
  | OpFork p =>
      p <> idle (base c) /\
      exists t rc, all_tasks (base c) !! p = Some t /\ on_rq (se t) = false /\ rest c !! rq_curr (base c) = Some rc /\
        (normal_prio rc < 100 -> fair_class t = false)
  end.

(** The processor when sched_init returns, with the tasks that there will be: none is on a queue.  The
    current task is the idle task, which init_idle has set up and which is of the fair class until
    init_idle_bootup_task ("During early bootup we pretend to be a normal task"), although it is not
    cfs_rq->curr. *)
Definition core_boot (c : cpu) : Prop :=
  boot (base c) /\
  (exists b r, Forall is_u32 b /\ length b = 4%nat /\ init_rt_rq b = Some r /\
     rt c = RtRq (active r) (rt_nr_running r) (rt_throttled r) (rt_time r) (bw_runtime (def_rt_bandwidth c))) /\
  nr_all c = 0 /\ rq_curr (base c) = idle (base c) /\
  (forall p t, all_tasks (base c) !! p = Some t ->
     (exists r, rest c !! p = Some r /\ rest_ok r) /\ weight (se_load (se t)) <= max_weight /\
     (p <> idle (base c) -> fair_class t = negb (rt_prio (prio t)) /\ 0 <= prio t)) /\
  (exists t r, all_tasks (base c) !! idle (base c) = Some t /\ fair_class t = true /\ rest c !! idle (base c) = Some r /\ tstate (sig r) = 0) /\
  Z.of_nat (size (all_tasks (base c))) <= max_tasks.

Inductive core_reach (c0 : cpu) : cpu -> Prop :=
| core_reach_boot : core_boot c0 -> core_reach c0 c0
| core_reach_step c o v c' : core_reach c0 c -> permitted o c -> core_exec o c = Some (v, c') -> core_reach c0 c'.

Lemma boot_ok c : core_boot c -> sched_ok c.
Proof.
  intros (Hb & (b & r & Hu & Hl & Er & Hrt) & Hn & Hcur & Htasks & (ti & ri & Hti & Hfi & Hri & Hsi) & Hs).
  destruct (init_run b Hu Hl) as (r' & Er' & Hlv & H1 & H2 & H3 & _). rewrite Er in Er'. injection Er' as <-.
  pose proof (boot_inv _ Hb) as [Hi _]. pose proof Hb as (Hcfs & _ & Hall).
  assert (members (fun _ => []) = []) as Hm by (apply members_nil; done).
  split; [exists [], (fun _ => []); constructor; try done|].
  - constructor; rewrite ?Hrt; cbn; try done.
    + intros i. constructor.
    + intros i p Hp. by apply not_elem_of_nil in Hp.
    + unfold max_tasks in Hs. lia.
  - intros p t Ht. rewrite Hm. destruct (Hall p t Ht) as (_ & _ & -> & _). split; [by intros ?%not_elem_of_nil|by intros []].
  - rewrite Hn, Hcfs, Hrt. cbn. by rewrite H1.
  - intros p [t Ht]. by destruct (Htasks p t Ht).
  - intros p t Ht. by destruct (Htasks p t Ht).
  - exists ti, ri. destruct (Hall _ _ Hti) as (_ & _ & ? & _). done.
  - exists ti. unfold fair_curr. rewrite Hcur, Hcfs, Z.eqb_refl, andb_false_r. auto.
Qed.

Lemma unit_runs (e : C unit) c (v : Z) Q : runs e c (fun _ c' => Q c') -> runs (_ ← e; mret v) c (fun _ c' => Q c').
Proof. intros H. eapply runs_then; [exact H|]. intros u c' Hq. by apply runs_done. Qed.

(** Every permitted operation succeeds and keeps the invariant. *)
Lemma core_step_ok c o : sched_ok c -> permitted o c -> runs (core_exec o) c (fun _ c' => sched_ok c').
Proof.
  intros Hok Hp. destruct o as [now active|now p state|now p|now|now|now p nice|now p pr|now env p pol pr|p|overruns|p ts|]; cbn [core_exec permitted] in *.
  - eapply runs_mono; [|by apply schedule_ok]. by intros v c' (? & _).
  - eapply runs_then; [by apply try_to_wake_up_ok; [..|apply Hp|apply Hp]|]. intros b c' (? & _). by apply runs_done.
  - apply unit_runs. eapply runs_mono; [|by apply wake_up_new_ok; [..|apply Hp|apply Hp]]. by intros v c' (? & _).
  - by apply unit_runs, scheduler_tick_ok.
  - by apply unit_runs, sched_yield_ok.
  - apply unit_runs, set_user_nice_ok; tauto.
  - apply unit_runs. destruct Hp as ([t Ht] & ? & ?). by apply (rt_mutex_setprio_ok c now p pr t).
  - destruct Hp as [[t Ht] Hi], (known_rest _ _ p (proj1 Hok)) as (r & Hr & _); [by exists t|].
    pose proof (sched_setscheduler_ok c now env p pol pr t r Hok Ht Hr Hi) as H. destruct (asked t r pol) as [[reset pol'] valid].
    eapply runs_mono; [|exact H]. by intros v c' (_ & ? & _).
  - apply unit_runs. destruct Hp as (? & t & rc & ? & ? & ? & Hcp). eapply sched_fork_ok; try done. intros Hrt. apply Hcp. by apply Z.ltb_lt.
  - by apply unit_runs, period_timer_ok.
  - apply unit_runs. destruct Hp as [Hk Hi], Hok as [(s & m & Hg) Hs]. destruct (g_rest _ _ _ _ Hg p Hk) as (r & Hr & Hro).
    eapply runs_mono; [|by apply (put_rest_good 0 c s m p r)]. intros v c' (Hg' & Hb & _). split; [by exists s, m|]. unfold settled. by rewrite Hb.
  - reads. apply unit_runs. eapply runs_mono; [|by apply init_idle_bootup_ok]. by intros v c' (? & _).
Qed.

Lemma core_reach_ok c0 c : core_reach c0 c -> sched_ok c.
Proof.
  induction 1 as [Hb|c o v c' _ IH Hp E]; [by apply boot_ok|]. destruct (core_step_ok c o IH Hp) as (v' & c'' & E' & H). rewrite E in E'. by simplify_eq.
Qed.

(** * The invariant *)

Lemma class_rt_iff q p t : p <> idle q -> class_of q p t = RtClass <-> fair_class t = false.
Proof. intros Hp. unfold class_of. rewrite (proj2 (Z.eqb_neq _ _) Hp). by destruct (fair_class t). Qed.

(** The real-time queue of a consistent processor, without the abstract lists. *)
Lemma good_lists k c s m :
  good_at k c s m ->
  rt_nr_running (rt c) = Z.of_nat (length (concat (queue (active (rt c))))) /\ NoDup (concat (queue (active (rt c)))) /\
  (forall p, p ∈ concat (queue (active (rt c))) <->
     exists t, all_tasks (base c) !! p = Some t /\ class_of (base c) p t = RtClass /\ on_rq (se t) = true) /\
  (forall i, 0 <= i < 100 -> exists l, rd (queue (active (rt c))) i = Some l /\ (bit_at (bitmap (active (rt c))) i = true <-> l <> []) /\
     forall p, p ∈ l -> exists t, all_tasks (base c) !! p = Some t /\ prio t = i).
Proof.
  intros Hg. pose proof (g_rt _ _ _ _ Hg) as Hrt. rewrite (members_queue _ _ Hrt). split_and!.
  - apply Hrt.
  - by eapply members_nodup.
  - intros p. split.
    + intros Hp. pose proof Hp as (i & _ & Hpi)%members_spec. destruct (rt_at _ _ Hrt _ _ Hpi) as (_ & t & Ht & _).
      apply (g_queued _ _ _ _ Hg p t Ht) in Hp as [Hf Ho]. exists t. split_and!; [done| |done]. apply class_rt; [done|]. intros ->.
      destruct (g_idle _ _ _ _ Hg) as (ti & _ & Hti & ? & _). congruence.
    + intros (t & Ht & Hc & Ho). apply (g_queued _ _ _ _ Hg p t Ht). split; [|done]. unfold class_of in Hc. by destruct (fair_class t).
  - intros i Hi. pose proof (rt_levels _ _ Hrt) as [_ _ Hq Hb _]. exists (m i). rewrite Hq, rd_levels by done. split; [done|]. split; [by apply Hb|].
    intros p Hp. by destruct (rt_at _ _ Hrt _ _ Hp).
Qed.

(** C3: from the return of sched_init on, where the current task, the idle one, pretends to be a fair
    task, whatever of schedule, try_to_wake_up, wake_up_new_task, scheduler_tick, sched_yield,
    set_user_nice, rt_mutex_setprio, __sched_setscheduler, sched_fork, init_idle_bootup_task and the
    period timer runs, in any order and with any changes of the states and signals of tasks in
    between, with at most 48000 tasks, whose weights are between 0 and the largest of prio_to_weight,
    and called as the kernel calls them: the idle task is not woken, put to sleep, changed or made to
    yield, a new task is not on a queue, the priority of rt_mutex_setprio is between 0 and 140, and a
    child whose parent has a real-time normal priority has copied the real-time class.  Then the next
    operation succeeds (no null pointer, no BUG_ON, no missing list or tree node); nr_running of the
    processor is the number of tasks on the queues of the classes; the lists of the priority array
    hold each runnable real-time task once, in the list of its priority, and the bit of a priority is
    set if and only if its list is not empty; the fair queue holds the runnable fair tasks; a task
    other than the idle one is in the real-time class if and only if its priority is below 100; the
    current task is runnable, or the idle task, and is cfs_rq->curr if and only if it is a fair task
    and not the idle one, else that is NULL; and init_idle_bootup_task puts the idle task into the
    idle class. *)
Theorem scheduler_invariant c0 c :
  core_reach c0 c ->
  (forall o, permitted o c -> exists v c', core_exec o c = Some (v, c')) /\
  nr_all c = nr_running (cfs (base c)) + rt_nr_running (rt c) /\
  (rt_nr_running (rt c) = Z.of_nat (length (concat (queue (active (rt c))))) /\ NoDup (concat (queue (active (rt c)))) /\
   (forall p, p ∈ concat (queue (active (rt c))) <->
      exists t, all_tasks (base c) !! p = Some t /\ class_of (base c) p t = RtClass /\ on_rq (se t) = true) /\
   (forall i, 0 <= i < 100 -> exists l, rd (queue (active (rt c))) i = Some l /\ (bit_at (bitmap (active (rt c))) i = true <-> l <> []) /\
      forall p, p ∈ l -> exists t, all_tasks (base c) !! p = Some t /\ prio t = i)) /\
  (forall p, p ∈ tasks (cfs (base c)) <-> exists t, all_tasks (base c) !! p = Some t /\ class_of (base c) p t = FairClass /\ on_rq (se t) = true) /\
  (forall p t, all_tasks (base c) !! p = Some t -> p <> idle (base c) -> class_of (base c) p t = RtClass <-> prio t < 100) /\
  (exists t, all_tasks (base c) !! rq_curr (base c) = Some t /\ (rq_curr (base c) = idle (base c) \/ on_rq (se t) = true) /\
     curr (cfs (base c)) = if fair_class t && negb (rq_curr (base c) =? idle (base c)) then rq_curr (base c) else 0) /\
  (exists v c' t, core_exec OpBootIdle c = Some (v, c') /\ all_tasks (base c') !! idle (base c') = Some t /\
     class_of (base c') (idle (base c')) t = IdleClass).
Proof.
  intros H. pose proof (core_reach_ok _ _ H) as Hok. pose proof Hok as [(s & m & Hg) Hs].
  split; [|split; [|split; [|split; [|split; [|split]]]]].
  - intros o Ho. destruct (core_step_ok c o Hok Ho) as (v & c' & E & _). by exists v, c'.
  - rewrite (g_nr _ _ _ _ Hg). lia.
  - by apply (good_lists 0 c s m).
  - intros p. rewrite (ok_runnable _ _ (proj1 (g_inv _ _ _ _ Hg)) p). unfold runnable, class_of. split; intros (t & Ht & Hf & Ho); exists t.
    + by rewrite Hf.
    + destruct (fair_class t); [done|]. by destruct (_ =? _).
  - intros p t Ht Hp. rewrite class_rt_iff by done. destruct (g_tasks _ _ _ _ Hg p t Ht) as [_ Hc]. destruct (Hc Hp) as [-> _].
    unfold rt_prio, MAX_RT_PRIO. destruct (Z.ltb_spec (prio t) 100); split; try done; lia.
  - exact Hs.
  - destruct (init_idle_bootup_ok c Hok) as (u & c' & E & _ & Ei & t & Ht & Hf). exists 0, c', t. split.
    + cbn [core_exec]. by rewrite (cbind _ _ _ _ _ (lift_gets idle c)), (cbind _ _ _ _ _ E).
    + rewrite Ei. split; [done|]. unfold class_of. by rewrite Hf, Ei, Z.eqb_refl.
Qed.

(** * The next task *)

(** C4: schedule runs the right task.  From a state that the scheduler reaches, from the return of
    sched_init on, it succeeds, and the task that it returns, which is the current one afterwards, is: when a real-time task is runnable
    and the real-time tasks are not throttled, the first in the list of the highest priority, so that
    no runnable real-time task has a higher priority; otherwise a runnable task of the fair class;
    otherwise, when no fair task is runnable, the idle task. *)
Theorem schedule_runs_the_best c0 c now preempted :
  core_reach c0 c ->
  exists p c', schedule now preempted c = Some (p, c') /\ rq_curr (base c') = p /\
  ((rt_throttled (rt c') = 0 /\ list.head (concat (queue (active (rt c')))) = Some p /\
    exists t, all_tasks (base c') !! p = Some t /\ class_of (base c') p t = RtClass /\ on_rq (se t) = true /\
      forall r tr, all_tasks (base c') !! r = Some tr -> class_of (base c') r tr = RtClass -> on_rq (se tr) = true -> prio t <= prio tr) \/
   ((concat (queue (active (rt c'))) = [] \/ rt_throttled (rt c') <> 0) /\ runnable (base c') p) \/
   ((concat (queue (active (rt c'))) = [] \/ rt_throttled (rt c') <> 0) /\ (forall r, ~ runnable (base c') r) /\ p = idle (base c'))).
Proof.
  intros H. destruct (schedule_ok c now preempted (core_reach_ok _ _ H)) as (p & c' & E & [(s & m & Hg) _] & Hb & Hp). exists p, c'. split; [done|].
  split; [done|]. unfold best in Hb. rewrite Hp in Hb. destruct Hb as [(Hne & Hth & Hh)|(Hno & [Hr|[Hr Hi]])]; [left|by right; left|by right; right].
  destruct (good_lists _ _ _ _ Hg) as (_ & _ & Hin & _). split; [done|]. split; [done|].
  destruct (proj1 (Hin p)) as (t & Ht & Hc & Ho); [destruct (concat _); [done|]; injection Hh as ->; left|]. exists t. split_and!; try done.
  intros r tr Htr Hcr Hor. rewrite (members_queue c' m) in Hh, Hin by apply Hg. eapply head_least; [apply Hg|done|done| |done]. apply Hin. by exists tr.
Qed.

(** * The shortcut of pick_next_task *)

Lemma runs_ext {A B} (e : C A) (f g : A -> C B) c P : runs e c P -> (forall v c', P v c' -> f v c' = g v c') -> (e ≫= f) c = (e ≫= g) c.
Proof. intros (v & c' & E & H) Hfg. rewrite !(cbind _ _ _ _ _ E). by apply Hfg. Qed.

Lemma pick_shortcut c s m : good_at 0 c s m -> curr (cfs (base c)) = 0 -> pick_next_task c = pick_from classes c.
Proof.
  intros Hg Hcu. unfold pick_next_task. rewrite (cbind (look nr_all) _ c (nr_all c) c eq_refl), (cbind _ _ _ _ _ (lift_read (get_cfs nr_running) c _ eq_refl)).
  destruct (Z.eqb_spec (nr_all c) (nr_running (cfs (base c)))) as [E|]; [|done].
  assert (rt_nr_running (rt c) = 0) as Hz by (rewrite (g_nr _ _ _ _ Hg) in E; lia).
  destruct (pick_fair_runs c s m Hg Hcu) as (p & c1 & E1 & _ & _ & Hp). rewrite (cbind _ _ _ _ _ E1).
  destruct Hp as [(-> & _ & ->)|(Hp & _)]; [done|]. cbn [classes pick_from pick_class]. rewrite (proj2 (Z.eqb_neq _ _) Hp). cbn [negb].
  assert (pick_next_task_rt c = Some (0, c)) as Ert.
  { unfold pick_next_task_rt, _pick_next_task_rt. rewrite (cbind (look rt) _ c (rt c) c eq_refl), Hz. done. }
  rewrite (cbind _ _ _ _ _ Ert). cbn [Z.eqb negb]. rewrite (cbind _ _ _ _ _ E1), (proj2 (Z.eqb_neq _ _) Hp). done.
Qed.

(** schedule that asks every class, from the highest on, whatever the number of running tasks. *)
Definition schedule_walk (now : Z) (active : bool) : C Z :=
  prev ← lift (gets rq_curr);
  _ ← lift (clear_tsk_need_resched prev);
  r ← get_rest prev;
  let state := tstate (sig r) in
  _ ← (if negb (state =? 0) && negb active then
         if signal_pending_state state (sig r) then put_rest prev (fun r => with_sig (set_task_state TASK_RUNNING (sig r)) r)
         else deactivate_task now prev DEQUEUE_SLEEP
       else mret tt);
  _ ← put_prev_task now prev;
  next ← pick_from classes;
  if negb (prev =? next) then
    _ ← (fun c => Some (tt, Cpu (base c) (rt c) (rest c) (nr_all c) (nr_uninterruptible c) (u64 (nr_switches c + 1))
                              (def_rt_bandwidth c) (sysctl_sched_rt_runtime c)));
    _ ← lift (set_rq_curr next);
    mret next
  else mret next.

(** C13: the shortcut of pick_next_task, which asks only the fair class when nr_running is the number
    of the fair tasks, changes nothing: in every state that the scheduler reaches, schedule returns
    the same task and leaves the same processor as when it asks every class from the real-time class
    on. *)
Theorem pick_next_task_shortcut c0 c now active : core_reach c0 c -> schedule now active c = schedule_walk now active c.
Proof.
  intros H. pose proof (core_reach_ok _ _ H) as Hok. pose proof Hok as [(s & m & Hg) Hs]. unfold schedule, schedule_walk.
  rewrite !(cbind _ _ _ _ _ (lift_gets rq_curr c)). set (p := rq_curr (base c)).
  eapply runs_ext; [by apply (clear_still 0 c s m p)|]. intros [] c1 H1. pose proof (still_ok _ _ _ _ H1 Hs) as Hok1.
  destruct H1 as (Hg1 & Hh1 & _). assert (rq_curr (base c1) = p) as Hp1 by apply Hh1.
  destruct (g_rest _ _ _ _ Hg1 p) as (r & Hr & _); [rewrite <- Hp1; apply settled_known, Hok1|].
  rewrite !(cbind _ _ _ _ _ (rest_read _ _ _ Hr)). cbn zeta. rewrite <- Hp1 in Hr |- *.
  eapply runs_ext; [by apply (schedule_sleep c1 now active r)|]. intros [] c2 (Hg2 & Hh2).
  destruct Hok1 as [_ (t & Ht & _ & Hcu)]. destruct (stay_task _ _ _ _ _ (proj1 Hh2) Ht) as (t2 & Ht2 & _ & _ & Hf2 & _).
  assert (rq_curr (base c2) = rq_curr (base c1)) as Hp2 by apply Hh2. rewrite <- Hp2 in Ht2 |- *.
  eapply runs_ext; [apply (put_prev_task_runs c2 now t2); [done|done|]|].
  { destruct Hh2 as [(_ & Ei & _) ->]. unfold fair_curr in *. by rewrite Hcu, Hp2, Hf2, Ei. }
  intros [] c3 ((s3 & m3 & Hg3) & _ & Hcu3 & _). pose proof (pick_shortcut c3 s3 m3 Hg3 Hcu3) as E. unfold mbind, C_bind. by rewrite E.
Qed.

(** * Policies *)

(** The policy and the flag that the argument stands for: a negative one keeps those of the task,
    otherwise bit 30 is the flag and the other bits are the policy. *)
Definition asks (t : task_struct) (r : task_rest) (arg pol : Z) (reset : bool) : Prop :=
  if decide (arg < 0) then pol = policy t /\ reset = sched_reset_on_fork r
  else pol = Z.clearbit arg 30 /\ reset = Z.testbit arg 30.

Lemma asked_asks t r arg pol reset valid :
  asked t r arg = (reset, pol, valid) -> asks t r arg pol reset /\ (valid = true <-> arg < 0 \/ pol ∈ [0; 1; 2; 3; 5]).
Proof.
  unfold asked, asks. destruct (Z.ltb_spec arg 0); [intros [= <- <- <-]; rewrite decide_True by done; tauto|]. rewrite decide_False by lia.
  intros [= <- <- <-]. split; [split; [done|]|].
  - change SCHED_RESET_ON_FORK with (2 ^ 30). destruct (Z.testbit arg 30) eqn:E.
    + apply negb_true_iff, Z.eqb_neq. intros H0. apply (f_equal (fun z => Z.testbit z 30)) in H0. by rewrite Z.land_spec, E in H0.
    + apply negb_false_iff, Z.eqb_eq. apply Z.bits_inj'. intros i Hi. rewrite Z.land_spec, Z.pow2_bits_eqb, Z.bits_0 by lia.
      destruct (Z.eqb_spec 30 i) as [<-|]; [by rewrite E|by rewrite andb_false_r].
  - set (pol' := Z.land _ _). unfold SCHED_FIFO, SCHED_RR, SCHED_NORMAL, SCHED_BATCH, SCHED_IDLE.
    rewrite !orb_true_iff, !Z.eqb_eq, !elem_of_cons, elem_of_nil. lia.
Qed.

Lemma rt_policy_iff pol : rt_policy pol = true <-> pol = 1 \/ pol = 2.
Proof. unfold rt_policy. rewrite orb_true_iff, !Z.eqb_eq. done. Qed.

(** Who may: with CAP_SYS_NICE anybody; otherwise the owner, who keeps SCHED_IDLE and
    SCHED_RESET_ON_FORK, and for a real-time policy stays within RLIMIT_RTPRIO or below the
    priority of the task. *)
Definition may_ask (env : sched_env) (t : task_struct) (r : task_rest) (pol pr : Z) (reset : bool) : Prop :=
  capable_nice env = true \/
  (same_owner env = true /\ (policy t = 5 -> pol = 5) /\ (sched_reset_on_fork r = true -> reset = true) /\
   (pol = 1 \/ pol = 2 -> has_sighand env = true /\ (pol = policy t \/ rlim_rtprio env <> 0) /\ (pr <= rt_priority r \/ pr <= rlim_rtprio env))).

Lemma denied_spec env t r pol pr reset :
  capable_nice env = false ->
  let d := setscheduler_denied env t r pol pr reset in
  (may_ask env t r pol pr reset <-> d = 0) /\
  (d <> 0 -> d = if decide ((pol = 1 \/ pol = 2) /\ has_sighand env = false) then -3 else -1).
Proof.
  intros Hcap d. unfold may_ask. rewrite Hcap. unfold d, setscheduler_denied. change SCHED_IDLE with 5. unfold ESRCH, EPERM.
  set (rule := pol = 1 \/ pol = 2 -> _). set (rtd := if rt_policy pol then _ else 0).
  assert ((rtd = 0 <-> rule) /\ (rtd <> 0 -> rtd = if decide ((pol = 1 \/ pol = 2) /\ has_sighand env = false) then -3 else -1)) as [Hrt Hval].
  { unfold rtd, rule. pose proof (rt_policy_iff pol) as Hpol. destruct (rt_policy pol); [|split; [naive_solver|done]].
    destruct (has_sighand env); cbn [negb]; [rewrite decide_False by naive_solver|rewrite decide_True by naive_solver; split; naive_solver].
    destruct (Z.eqb_spec pol (policy t)), (Z.eqb_spec (rlim_rtprio env) 0); cbn [negb andb]; try (split; [naive_solver|done]);
      (destruct (Z.ltb_spec (rt_priority r) pr), (Z.ltb_spec (rlim_rtprio env) pr); cbn [andb]; split; try done; split; try done;
       [intros ?; exfalso; naive_solver lia|intros; split_and!; auto; lia..]). }
  destruct (Z.eqb_spec rtd 0) as [E|E]; cbn [negb]; [|split; [naive_solver|auto]].
  assert (rule) as Hrule by (by apply Hrt). rewrite decide_False by (unfold rule in Hrule; intros [Hp Hsig]; destruct (Hrule Hp) as [? _]; congruence).
  destruct (Z.eqb_spec (policy t) 5), (Z.eqb_spec pol 5), (same_owner env), (sched_reset_on_fork r), reset; cbn [negb andb];
    (split; [split; [intros [?|(? & ? & ? & _)]; naive_solver|intros ?; try done; right; naive_solver]|done]).
Qed.

(** What the checks come to. *)
Lemma checks_spec env t r arg pol pr reset valid :
  asked t r arg = (reset, pol, valid) ->
  let err := if valid then setscheduler_checks env t r pol pr reset else - EINVAL in
  let sound := (arg < 0 \/ pol ∈ [0; 1; 2; 3; 5]) /\ 0 <= pr <= 99 /\ (pr <> 0 <-> pol = 1 \/ pol = 2) in
  (~ sound -> err = -22) /\
  (sound -> env_user env = false -> err = 0) /\
  (sound -> env_user env = true -> may_ask env t r pol pr reset -> err = security_task_setscheduler env) /\
  (sound -> env_user env = true -> ~ may_ask env t r pol pr reset ->
     err = if decide ((pol = 1 \/ pol = 2) /\ has_sighand env = false) then -3 else -1).
Proof.
  intros Ha err sound. destruct (asked_asks _ _ _ _ _ _ Ha) as [_ Hvalid]. pose proof (rt_policy_iff pol) as Hrt.
  assert (sound \/ ~ sound /\ err = -22) as Hsound.
  { unfold err, sound. destruct valid; [|right; split; [|done]; intros [Hv _]; by apply Hvalid in Hv].
    unfold setscheduler_checks, MAX_RT_PRIO. destruct (Z.ltb_spec pr 0); [right; split; [lia|done]|].
    assert ((has_mm env && (99 <? pr)) || (negb (has_mm env) && (100 - 1 <? pr)) = (99 <? pr)) as Hmm
      by (change (100 - 1) with 99; by destruct (has_mm env), (99 <? pr)).
    cbn [orb]. rewrite Hmm. destruct (Z.ltb_spec 99 pr); [right; split; [lia|done]|].
    pose proof (proj1 Hvalid eq_refl) as Hv. destruct (rt_policy pol), (Z.eqb_spec pr 0); cbn.
    - right. split; [|done]. intros (_ & _ & Hp). by apply (proj2 Hp); [apply Hrt|].
    - left. split; [done|]. split; [lia|]. split; [intros _; by apply Hrt|done].
    - left. split; [done|]. split; [lia|]. split; [done|]. by intros ?%Hrt.
    - right. split; [|done]. intros (_ & _ & Hp). by apply Hp, Hrt in n. }
  assert (sound -> err = if env_user env then
      let d := if capable_nice env then 0 else setscheduler_denied env t r pol pr reset in if d =? 0 then security_task_setscheduler env else d else 0) as Herr.
  { intros (Hv & Hr & Hp). unfold err. apply Hvalid in Hv as ->. unfold setscheduler_checks, MAX_RT_PRIO.
    rewrite (proj2 (Z.ltb_ge pr 0)), (proj2 (Z.ltb_ge 99 pr)), (proj2 (Z.ltb_ge (100 - 1) pr)), !andb_false_r by lia. cbn [orb].
    assert (rt_policy pol = negb (pr =? 0)) as -> by (apply eq_true_iff_eq; rewrite negb_true_iff, Z.eqb_neq, Hrt; tauto).
    rewrite eqb_reflx. cbn [negb]. destruct (env_user env), (capable_nice env); cbn [andb negb]; try done. by destruct (_ =? 0). }
  split; [intros ?; by destruct Hsound as [?|[_ ?]]|]. split; [intros Hs Hu; by rewrite (Herr Hs), Hu|].
  split; intros Hs Hu Hm; rewrite (Herr Hs), Hu; cbn zeta; (destruct (capable_nice env) eqn:Hc; [|destruct (denied_spec env t r pol pr reset Hc) as [Hd Hv]]).
  - done.
  - by rewrite (proj1 Hd Hm).
  - destruct Hm. by left.
  - destruct (Z.eqb_spec (setscheduler_denied env t r pol pr reset) 0); [by rewrite Hd in Hm|]. by apply Hv.
Qed.

(** C14: __sched_setscheduler checks before it changes.  On a task of a state that the scheduler
    reaches, other than the idle task, with a policy argument of which bit 30 is SCHED_RESET_ON_FORK
    and a negative one stands for the policy and the flag of the task, it returns -EINVAL unless the
    policy is one of SCHED_NORMAL, SCHED_FIFO, SCHED_RR, SCHED_BATCH and SCHED_IDLE, the priority is
    between 0 and 99, and it is not 0 exactly for SCHED_FIFO and SCHED_RR.  Otherwise a call of the
    kernel returns 0; a call of a user who may ask for it returns what the security module says, and
    any other fails with -ESRCH, if the policy is real-time and the task has no signal handlers, or
    -EPERM.  Who may ask: with CAP_SYS_NICE anybody; otherwise only the owner of the task, who may not
    take it out of SCHED_IDLE nor clear its SCHED_RESET_ON_FORK, and who needs for SCHED_FIFO and
    SCHED_RR a limit RLIMIT_RTPRIO that is not 0, unless the task has the policy, and that the priority
    does not exceed, unless it does not exceed that of the task.  With an error nothing changes; with
    0 the task has the policy, the real-time priority and the flag, the normal priority 99 minus the
    real-time priority or the static priority, and as priority that, or that of a waiter for its locks
    if it is higher; the static priority stays, and the task is on the run queue if and only if it was. *)
Theorem setscheduler_checked c0 c now env p arg pr t r :
  core_reach c0 c -> all_tasks (base c) !! p = Some t -> rest c !! p = Some r -> p <> idle (base c) ->
  exists pol reset err c', asks t r arg pol reset /\ __sched_setscheduler now env p arg pr c = Some (err, c') /\
    let rt := pol = 1 \/ pol = 2 in
    let sound := (arg < 0 \/ pol ∈ [0; 1; 2; 3; 5]) /\ 0 <= pr <= 99 /\ (pr <> 0 <-> rt) in
    ((~ sound -> err = -22) /\
     (sound -> env_user env = false -> err = 0) /\
     (sound -> env_user env = true -> may_ask env t r pol pr reset -> err = security_task_setscheduler env) /\
     (sound -> env_user env = true -> ~ may_ask env t r pol pr reset -> err = if decide (rt /\ has_sighand env = false) then -3 else -1)) /\
    (err <> 0 -> c' = c) /\
    (err = 0 -> exists t' r', all_tasks (base c') !! p = Some t' /\ rest c' !! p = Some r' /\
       policy t' = pol /\ rt_priority r' = pr /\ sched_reset_on_fork r' = reset /\ static_prio r' = static_prio r /\
       normal_prio r' = (if decide rt then 99 - pr else static_prio r) /\
       prio t' = match pi_prio r with None => normal_prio r' | Some w => Z.min w (normal_prio r') end /\
       on_rq (se t') = on_rq (se t)).
Proof.
  intros H Ht Hr Hp. pose proof (sched_setscheduler_ok c now env p arg pr t r (core_reach_ok _ _ H) Ht Hr Hp) as Hs.
  destruct (asked t r arg) as [[reset pol] valid] eqn:Ea. cbn zeta in Hs. destruct Hs as (err & c' & E & -> & _ & Hne & Heq).
  eexists pol, reset, _, c'. split; [by apply (asked_asks _ _ _ _ _ _ Ea)|]. split; [exact E|]. cbn zeta.
  split; [exact (checks_spec env t r arg pol pr reset valid Ea)|]. split; [exact Hne|]. intros E0.
  destruct (Heq E0) as (t' & r' & Ht' & Epol & Eprio & Eon & Hr' & Ev). exists t', r'. injection Ev as _ Es En Ep Er _ _ _. cbn in Es, En, Ep, Er.
  assert (normal_prio r' = if decide (pol = 1 \/ pol = 2) then 99 - pr else static_prio r) as En'.
  { rewrite En. unfold due_normal. pose proof (rt_policy_iff pol). destruct (rt_policy pol), (decide _); naive_solver. }
  split_and!; try done. rewrite Eprio, En. done.
Qed.

(** * A sample run *)

Definition core_rest (sp rp : Z) : task_rest := Rest (Task.Task 0 false false) (RtEntity 0 10) sp (if rp =? 0 then sp else 99 - rp) rp false 0 false None None.

(** A fair task, a real-time task, and the idle task, which is current and of the fair class. *)
Definition core_sample : cpu :=
  Cpu (Rq init_cfs_rq (World (<[4 := RbNode 0 0 0]> (<[8 := RbNode 0 0 0]> {[12 := RbNode 0 0 0]})) 0)
        (<[4 := sample_task 1024 4194304 7]> (<[8 := rt_task 49]> {[12 := sample_task 1024 4194304 0]}))
        (LoadWeight 0 0) 100 12 12 ∅ false)
      (RtRq (active rt_sample_init) 0 0 0 950000000)
      (<[4 := core_rest 120 0]> (<[8 := core_rest 120 50]> {[12 := core_rest 120 0]})) 0 0 0 (Bandwidth 1000000000 950000000 false) 950000.

Definition core_after (o : core_op) (c : cpu) : cpu := match core_exec o c with Some (_, c') => c' | None => c end.

Definition core_sample_one : cpu := Eval vm_compute in core_after (OpWakeNew 200 4) core_sample.
Definition core_sample_two : cpu := Eval vm_compute in core_after (OpWakeNew 300 8) core_sample_one.
Definition core_sample_awake : cpu := Eval vm_compute in core_after OpBootIdle core_sample_two.

Lemma core_sample_boot : core_boot core_sample.
Proof.
  split_and!.
  - split; [done|]. split; [done|]. intros p t Ht. cbn in Ht.
    apply lookup_insert_Some in Ht as [[<- <-]|[_ Ht]]; [|apply lookup_insert_Some in Ht as [[<- <-]|[_ Ht]]; [|apply lookup_singleton_Some in Ht as [<- <-]]];
      (split; [split; [lia|split; [lia|done]]|]); (split; [by eexists|]); by split_and!.
  - exists [0; 0; 0; 0], rt_sample_init. split_and!; [repeat constructor; by vm_compute|done|vm_compute; reflexivity|done].
  - done.
  - done.
  - intros p t Ht. cbn in Ht.
    apply lookup_insert_Some in Ht as [[<- <-]|[_ Ht]]; [|apply lookup_insert_Some in Ht as [[<- <-]|[_ Ht]]; [|apply lookup_singleton_Some in Ht as [<- <-]]];
      (split; [eexists; split; [reflexivity|]; by split_and!|]); by split_and!.
  - eexists _, _. by split_and!.
  - by vm_compute.
Qed.

Lemma core_sample_reach : core_reach core_sample core_sample_awake.
Proof.
  refine (core_reach_step _ core_sample_two OpBootIdle 0 _ _ I _).
  - refine (core_reach_step _ core_sample_one (OpWakeNew 300 8) 0 _ _ _ _).
    + refine (core_reach_step _ core_sample (OpWakeNew 200 4) 0 _ (core_reach_boot _ core_sample_boot) _ _).
      * split; [eexists; split; vm_compute; reflexivity|done].
      * vm_compute. reflexivity.
    + split; [eexists; split; vm_compute; reflexivity|done].
    + vm_compute. reflexivity.
  - vm_compute. reflexivity.
Qed.

Lemma scheduler_invariant_witness : nr_all core_sample_awake = nr_running (cfs (base core_sample_awake)) + rt_nr_running (rt core_sample_awake).
Proof. exact (proj1 (proj2 (scheduler_invariant core_sample core_sample_awake core_sample_reach))). Defined.

Lemma schedule_runs_the_best_witness : exists p c', schedule 400 false core_sample_awake = Some (p, c') /\ rq_curr (base c') = p.
Proof. destruct (schedule_runs_the_best core_sample core_sample_awake 400 false core_sample_reach) as (p & c' & E & Hp & _). by exists p, c'. Defined.

Lemma pick_next_task_shortcut_witness : schedule 400 false core_sample_awake = schedule_walk 400 false core_sample_awake.
Proof. exact (pick_next_task_shortcut core_sample core_sample_awake 400 false core_sample_reach). Defined.

Definition root_env : sched_env := SchedEnv true true true true 0 true 0.

(** The owner of task 4, with RLIMIT_RTPRIO 5, without CAP_SYS_NICE. *)
Definition owner_env : sched_env := SchedEnv true false true true 5 true 0.

(** The superuser makes task 4 a SCHED_RR task of priority 7; its owner may not. *)
Lemma setscheduler_checked_witness :
  (exists c' t', __sched_setscheduler 400 root_env 4 SCHED_RR 7 core_sample_awake = Some (0, c') /\ all_tasks (base c') !! 4 = Some t' /\ prio t' = 92) /\
  __sched_setscheduler 400 owner_env 4 SCHED_RR 7 core_sample_awake = Some (-1, core_sample_awake).
Proof.
  eassert (all_tasks (base core_sample_awake) !! 4 = Some _) as Ht by (vm_compute; reflexivity).
  eassert (rest core_sample_awake !! 4 = Some _) as Hr by (vm_compute; reflexivity).
  assert (4 <> idle (base core_sample_awake)) as Hi by (intros [=]).
  assert ((SCHED_RR < 0 \/ Z.clearbit SCHED_RR 30 ∈ [0; 1; 2; 3; 5]) /\ 0 <= 7 <= 99 /\
    (7 <> 0 <-> Z.clearbit SCHED_RR 30 = 1 \/ Z.clearbit SCHED_RR 30 = 2)) as Hsound.
  { change (Z.clearbit SCHED_RR 30) with 2. split; [right; set_solver|]. lia. }
  split.
  - destruct (setscheduler_checked core_sample core_sample_awake 400 root_env 4 SCHED_RR 7 _ _ core_sample_reach Ht Hr Hi)
      as (pol & reset & err & c' & [-> ->] & E & (_ & _ & Hmay & _) & _ & H0).
    pose proof (Hmay Hsound eq_refl (or_introl eq_refl)) as ->. destruct (H0 eq_refl) as (t' & r' & Ht' & _ & _ & _ & _ & _ & En & Ep & _). exists c', t'. split; [exact E|]. split; [exact Ht'|]. rewrite Ep, En. reflexivity.
  - destruct (setscheduler_checked core_sample core_sample_awake 400 owner_env 4 SCHED_RR 7 _ _ core_sample_reach Ht Hr Hi)
      as (pol & reset & err & c' & [-> ->] & E & (_ & _ & _ & Hno) & Hsame & _).
    assert (err = -1) as ->.
    { apply (Hno Hsound eq_refl). intros [Hcap|(_ & _ & _ & Hrt)]; [discriminate Hcap|].
      destruct (Hrt (or_intror eq_refl)) as (_ & _ & [Hb|Hb]); vm_compute in Hb; by apply Hb. }
    rewrite E. f_equal. f_equal. apply Hsame. lia.
Defined.

(** ** A fork that does not reset *)

(** The parent, current, is of a real-time policy and asked for SCHED_RESET_ON_FORK; the child has
    the copy of its fields. *)
Definition fork_sample : cpu :=
  let r := with_reset true (core_rest 120 50) in
  Cpu (Rq init_cfs_rq (World (<[4 := RbNode 0 0 0]> (<[8 := RbNode 0 0 0]> {[12 := RbNode 0 0 0]})) 0)
        (<[4 := rt_task 49]> (<[8 := rt_task 49]> {[12 := Sched.Task (Entity (LoadWeight 0 0) false 0 0 0 0) SCHED_NORMAL 140 false]}))
        (LoadWeight 0 0) 100 8 12 ∅ false)
      (RtRq (active rt_sample_init) 0 0 0 950000000)
      (<[4 := r]> (<[8 := r]> {[12 := core_rest 120 0]})) 0 0 0 (Bandwidth 1000000000 950000000 false) 950000.

(** sched_fork sets the policy of the child to SCHED_NORMAL and its normal priority to 120, but the
    priority is then that of its parent, 49, so that the child stays in the real-time class, and the
    weight stays that of a real-time task. *)
Lemma sched_fork_reset_stays_rt :
  exists c' t r, sched_fork 4 fork_sample = Some (tt, c') /\ all_tasks (base c') !! 4 = Some t /\ rest c' !! 4 = Some r /\
    policy t = SCHED_NORMAL /\ normal_prio r = 120 /\ prio t = 49 /\ class_of (base c') 4 t = RtClass /\ weight (se_load (se t)) = 0.
Proof. eexists _, _, _. split; [vm_compute; reflexivity|]. split; [vm_compute; reflexivity|]. split; [vm_compute; reflexivity|]. by split_and!. Qed.
